(* ===== verification/_CoqProject ===== *)
-Q . S2P
Prelude.v
Base64.v
Sha1.v
CLib.v
Strings.v
CsvLines.v
Csv.v
Tools.v
HttpParser.v
ByteQueue.v
ByteBuffer.v
Socket.v
WorkerProcess.v
SocketServer.v
SocketClient.v
Connect.v
WebSocket.v
Calendar.v
CgiServer.v
RapidXml.v
XmlText.v
XmlPlace.v
XmlPrint.v
Registry.v
XmlFile.v
Net.v
Dispatch.v
Json.v
JsonReader.v
JsonNumber.v
JsonString.v
JsonText.v
JsonLogin.v
Entity.v
JsonEntity.v
Descriptor.v
RecordProtocol.v
RecordSchema.v
RecordProcess.v
RecordDatabase.v
Mysql.v
RecordToy.v
RecordStore.v
RecordService.v
RecordAnswers.v
RecordStart.v
RecordFaults.v
NetworkClient.v
RecordClient.v
Session.v
Sessions.v
Time.v
MessageQueue.v
WebServer.v
LockfreeQueue.v
Easylog.v
ProcessTitle.v
Runtime.v
ThreadPool.v
Graph.v
Sorting.v
