(* ===== verification/Prelude.v ===== *)
(** * Verification of libbundle

    libbundle is a C++ library for network servers: a byte buffer, sockets served by
    worker threads, a server and a client on top of them, protocol servers (WebSocket,
    FastCGI, the library's own Netmessage frames), an HTTP request parser, base64 and
    SHA-1, string and system tools, a reader of CSV files, a configuration store, a log, and
    queues and thread pools.  With it come a record server, which keeps JSON objects in MySQL
    tables, its client, a gateway and a log server.  Paths below are relative to src/src; the
    headers are in src/deps/bundle-0.01/include, the servers in src/server.

    ** How the program fits together

    An application creates a SocketServer with a splitter, a function that finds the end
    of the first message in a buffer.  [start] makes one listening master worker and
    [workerNumber] others, each with a thread.  A worker polls its sockets: the bytes
    received go through the ByteBuffer of the Socket and the splitter, and come out as
    Socketmessages on a queue the server reads; the bytes to send wait in the Socket's
    send list.  Accepted descriptors travel as NEW_SOCKET messages through the server to
    the worker their number selects.  WebSocketServer, CgiServer and NetworkService receive
    from that server and call the application back.

    The record server is a NetworkService.  It routes each request by its object to one of
    several slots; a slot has a queue of requests, a queue of answers, a thread that serves
    the requests from its cache of entities and from MySQL, whose columns it adds and alters
    to fit the values, and the server sends the answers.  RecordClient sends such requests
    over a NetworkClient, which is a SocketClient with callbacks, and pairs the responses
    with callbacks in the order of the requests.

    Everything logs: a message goes on a queue that the thread of the log writes.  Queues
    between threads are LockfreeQueues.  A program starts with init_runtime_environment, which
    reads the options, becomes the guard of another process or not, and sets up the log, the
    limits and the signals from the configuration.

    ** The files

    - Prelude.v: outcomes of C++ calls ([Ret], a failed assertion [Aborted], undefined
      behaviour [Undef]) with their monad; w-bit integers as [Z] with [wrap] and [swrap];
      byte strings as [list Z]; C strings; words in memory; mutual exclusion by a lock
      ([exclusive], kept by every [lock_step]); arrays with [for_] loops; the tactics
      and hints.
    - CLib.v: the C and C++ library functions the code computes with: decimal numbers
      ([strtol], [std::stoi], ["%d"]), [strchr], character classes.
    - Base64.v (base64/base64.cpp): both loops.  While the lengths fit their [int]s the
      decoder undoes the encoder, the encoder is RFC 4648's, the decoder stops at the first
      foreign character.
    - Sha1.v (sha/sha1.cpp): the SHA1 object and, in [Module Fips], the algorithm of the
      standard.  Whatever the pieces a message is fed in, [Result] is the standard's
      digest; every index stays in its array; feeding a finished object corrupts it.
    - Strings.v, Tools.v (tools/Tools.cpp): [splitString] is the inverse of joining, for
      text and for numbers; [isUTF8String] accepts exactly the concatenations of its unit
      forms; endpoints, directories, DES in ECB mode, the WeChat login.
    - CsvLines.v, Csv.v (csv/CsvReader.h, csv/CsvParser.h): lines through blocks of any
      size; a table that is written is read back, against the
      class [QuoteLaws] of what a quote policy and a way to write cells have to do with each
      other, which both policies of the code have; integers in cells are exact.
    - HttpParser.v (tools/HttpParser.cpp): the scanner as a fold of a step function.  The
      answer of [parse] depends only on the bytes of the first request (framing), a
      rendered request is parsed back, and malformed headers are answered as stated.
    - ByteQueue.v: the class [ByteQueue] of what clients use of a buffer, with its laws
      [ByteQueueLaws]; lists are one instance, ByteBuffer.v (tools/ByteBuffer.cpp) is the
      other: the heap block with its two indices is a queue of bytes under every sequence
      of calls whose sizes fit [size_t] and are granted, and typed reads give back typed writes.
    - Socket.v (socket/Helper.cpp, Socket.cpp): messages, one connection over any
      [ByteQueue], the class [Splitter] of the contract of a splitter.  However [recv]
      cuts the stream, reading produces exactly one message per frame and keeps the rest;
      what [sendMessage] sends, keeps and loses; what the message counters count.
    - WorkerProcess.v (socket/WorkerProcess.cpp, Poll.cpp): a worker as a state machine over
      the events of its thread, its invariant [worker_ok], and what every step reports; a
      socket that epoll refuses stays in the table without events.
    - SocketServer.v (socket/SocketServer.cpp): the server, its workers and the calls of
      the application as one transition system [sv_step]; threads interleave as a list of
      events.  The invariant [serving] gives: no call fails or leaves a table, every
      descriptor has one owner, the one messages are routed to, and the messages of each
      descriptor alternate ESTABLISH, messages, CLOSE.  [stop] leaves dangling workers.
      The class [SocketServerApi] is what protocol servers call, [SocketServerLaws] the
      laws their loops end by, [SocketServerServes] what a running server promises; each
      has the instance [Server] and a [recorder] that delivers given messages.
    - SocketClient.v (socket/SocketClient.cpp): the client and its retry thread over the
      answers of the kernel: when it connects, and when it never does.
    - Connect.v (socket/Helper.cpp): connect with a time limit, by a signal and by select.
    - WebSocket.v (socket/WebSocketServer.cpp): against RFC 6455 as defined in the file:
      which frames are read back, which handshakes answered, which frames sent.
    - Calendar.v (tools/Tools.cpp): [gmtime_r] and [strftime], proved against the count of
      days, and the dates the library prints, which are those of China also where they are
      labelled GMT.
    - CgiServer.v (socket/CgiServer.cpp): FastCGI records, the parameters of a request and
      its response stream round trip; the table of requests and what confuses it; cookies.
    - RapidXml.v (deps/rapidxml-1.13/rapidxml.hpp, which XmlParser calls as [parse<0>]): the
      XML parser, which works in the memory of its text: it ends names with NULs and replaces
      references where they stand.  XmlText.v is a reference parser from strings to trees, with
      no place.  XmlPlace.v relates the two: invariants on what of the memory may change show
      that the pointers lead to the reference's strings.
    - XmlPrint.v (rapidxml_print.hpp): the printer; what is printed is read back.
    - Registry.v (tools/Registry.cpp, xml/XmlParser.cpp, config/Config.cpp): the store's
      typed reads and writes, and the configuration an XML document makes.
    - XmlFile.v (rapidxml_utils.hpp, xml/XmlParser.cpp): from the bytes of a file through the
      parser to the registry, for every file, with the text the document points into, which open
      frees: what makeRegistry makes while it is there, and that loadconf runs into undefined
      behaviour.
    - Net.v (net/NetworkService.cpp): connection tasks and callbacks.  Proved against
      [SocketServerServes]: every message leads to exactly one callback with the live task
      of its connection; when [update] comes back while other threads push; what each announced
      length makes of a stream.
    - Dispatch.v (net/Netmessage.h, entry/Manager.h, gatewayserver, logserver): the tables that
      send a message to the handler of its number, the two servers that are made of them, and
      the manager of entries.
    - Json.v (deps/rapidjson-1.1.0: reader.h, document.h and what they include): the reader of
      RapidJSON, the document it fills, the tests and getters of values; doubles are rounded as
      in the code.  JsonReader.v has the judgements on readers, JsonNumber.v and JsonString.v the
      numbers, with a value for each by its parts, and the strings, JsonText.v the grammar: the texts the reader accepts, and their
      values, are exactly the grammar's.  JsonLogin.v: what the callback of the WeChat login
      (tools/Tools.cpp) does for each reply.
    - Entity.v (entity/Entity.cpp): objects of typed values with marks for what changed, and
      their JSON text, over a parameter for the parser.  JsonEntity.v: [ParseFromString] over
      RapidJSON's values refines it, and an entity that is printed is read back when its strings
      need no escape and its floats have two decimals.
    - Descriptor.v (entity/EntityDescriptor.cpp, xml/XmlParser.cpp): descriptions of entities,
      and the accessors of XML trees.
    - RecordProtocol.v (src/protocol/recordserver.h): the requests and responses as bytes.
    - RecordSchema.v, RecordProcess.v (RecordProcess.cpp): descriptions of tables and the
      types of columns; the SQL, the cache and the handlers of a slot, against the class
      [Database] of RecordDatabase.v for MySQL.  RecordToy.v is a database of its own that
      keeps the laws.
    - Mysql.v (db/MySQL.cpp, MySQLStatement.cpp): opening a database with its options, and the
      lists of databases and tables, on the answers of the client library.
    - RecordStore.v: a row written is read back with every value; the columns fit the values
      whatever the table had.  RecordFaults.v: tables that were asked for before they
      existed, and rows that a Delete leaves.
    - RecordService.v (RecordService.cpp, RecordProcessManager.cpp): requests reach the slot of
      their object.  RecordAnswers.v: each request but a Select, which the server drops, gets
      one answer, whatever the database says.  RecordStart.v: which db.xml the server starts from, the state it starts in, the
      thread of a slot, and the answers that are lost at the stop.
    - NetworkClient.v (net/NetworkClient.cpp), RecordClient.v (recordclient/RecordClient.cpp):
      requests arrive as they were sent; the queues of callbacks refine lists of pending
      requests.
    - Session.v: a client, the network, the service, a slot and its worker composed.  Each call
      of the client ends in one call of its callback, however the network cuts the streams.
    - Sessions.v: several clients on one record server.  In any order of their requests, of the
      turns of the slots and of the updates, each client's calls end in one call of
      their callback each, in order, and no client sees an answer of another, when each uses
      objects of one slot.
    - Time.v (time/Time.cpp, Time.h, Timer.h): times and the polled timer, which fires at
      most once in its scale while the clock does not go back.
    - MessageQueue.v (net/MessageQueue*.cpp): the queues over ZeroMQ; WebServer.v
      (socket/WebServer.cpp): the server over libevent; each against a class of what that
      library promises.
    - LockfreeQueue.v (tools/LockfreeQueue.h, Spinlocker.h): threads run any programs of
      calls and take steps in any order.  The queue is linearisable in runs without a data race, and
      safe for one consumer up to the first, which [empty] and [push_back] can reach; for two
      consumers it is not; and it blocks while the holder of its lock does not run.
    - Easylog.v (easylog/Easylog.cpp): while its settings stay and files are not split, what is
      logged is written once and in order, to the console and to files; what is lost when the
      log stops; how files are split.
    - ProcessTitle.v, Runtime.v (tools/Tools.cpp, config/Config.cpp): the start of a program: the
      options, the guard and its title in the memory of the arguments, the configuration, the
      settings and the directory of the log, the limits, the signals.
    - ThreadPool.v (threadpool/ThreadPool.h): each task starts once, in order; no wake-up of
      [add] is lost; the one of the destructor can be.
    - Graph.v, Sorting.v (src/tests/graph): the spreading of a message in a graph takes the
      greatest of the least costs of ways; three sorts agree with merge sort.

    ** What stands for what

    - State is passed explicitly; a method is a function from the object to an [outcome]
      of its result and the new object.  An object the code deletes leaves the model's
      state, a dangling pointer is [None], and using it is [Undef].
    - The kernel answers through arguments: lists of [recv], [send] and [accept] results,
      poll events, the clock, the result of [start]'s system calls.  A theorem about such a
      call holds for all of them, restricted where it says so (for instance, [recv]
      returns at most the bytes asked for, [accept] returns no descriptor in use).
    - Uninitialised memory is an argument ([junk], [past]) or [None] bytes.
    - Threads interleave between the steps of [sv_step]: a step is one event of a worker's
      loop or one call of the application.  The queues between them are taken as atomic,
      which LockfreeQueue.v justifies for runs without a data race, in which no unlocked look at
      a queue comes in the middle of a change: each has one consumer, which looks before it pops.
      Flags that threads share without a lock, as [_stop], are read and written in one step.
      LockfreeQueue.v, Easylog.v and ThreadPool.v have a step for each access to shared
      memory, lock and condition instead; a call of the log's queue is one step.
    - Functions of libraries that are not in the repository's own sources are arguments:
      DES of OpenSSL, the replies of libcurl, the file system, [inet_aton], a url decoder.
      The parser of JSON is an argument of Entity.v and of the record server; [json_parse] of
      JsonEntity.v is RapidJSON's.  MySQL is the class [Database], ZeroMQ [Zmq] with [ZmqLaws],
      libevent [EvHttp] with [EvHttpLaws], the kernel below a client the interface of
      SocketClient.  The hypotheses on them are stated in the theorems and each witness
      instantiates them.
    - XmlFile.v has the memory of an XML document, which XmlParser::open frees before it is read.
      Registry.v, Descriptor.v, RecordStart.v and Runtime.v are above that: they take the tree a
      document's text would give as an argument, and say what they make of it.

    ** Fuel

    [while] loops over a string use fuel one above its length, since each turn removes at
    least a byte ([splitString], [createDirectory], [params_loop], [traverse] over a tree).
    [read_all] has one unit per byte in the buffer or on the way, since each message takes
    one ([read_loop_frames], [read_all_total]).  The receiving loops of the protocol servers
    have one per waiting message ([api_receive_less], [get_loop_fuel], [update_quiet]).
    The loops of the XML parser have a unit per byte of the memory, its nested elements two
    ([parse_in_place]); the reference parser has as many per byte of the text
    ([parse_text_total]).  The loops of RapidJSON's reader have a unit per byte that is left, and
    one more, as each turn but the last takes a byte; its nested values have as many
    ([parse_accepts]).  What the reader counts in an [int] cannot overflow in a text of less than 2^27
    bytes, but for an exponent of ten digits ([far_exponent]).
    [year_of] has a unit per 365 days; the interleaved threads run along a finite list of
    events, about which the theorems quantify.
    Running out of fuel is [Undef] or a wrong answer the theorems exclude.

    ** Not modelled, and the plan

    Of the program's own code: the layouts of the log, which are compiled only with a macro
    nobody defines and then do not compile (Easylog.cpp:488 passes a string to isdigit); the
    wrappers of single system calls in Helper.cpp and Tools.cpp (options of sockets, tests of
    files, limits, the clock, random numbers) and the conversions to wide strings, which only call the
    C and C++ libraries; the accessors of MySQL results, which only forward; cells of floating
    point in CSV files; the futures of ThreadPool tasks; the constructors of entry/Entry.h; a
    second stop of the log while the first runs; the main programs, whose loops
    only call what is modelled, and the test programs but the exercises of Graph.v and
    Sorting.v.  Of rapidxml: the flags of the parser, which libbundle leaves 0, the memory pool
    that its nodes come from, and the search, insertion and removal of nodes.  Of
    RapidJSON: the other flags, the iterative parser and parsing in place, the writers,
    schemas, pointers, the editing of values, and the call stack, which a deeply nested text can
    exhaust.  The other third-party code under deps and what protoc generates are left out.

    What could follow: the threads of the record server interleaved within a turn of a slot;
    the sources of CSV lines other than files; the conversions to wide strings over UTF-8. *)

From Stdlib Require Import ZArith Lia String Ascii.
From stdpp Require Export base numbers list gmap.
Export StringSyntax AsciiSyntax.

#[export] Set Default Goal Selector "!".

Open Scope Z_scope.

(** ** Outcomes

    A C++ call either returns, or fails an [assert] (which logs at LEVEL_PANIC
    and calls [::abort()], see Easylog.h and EasylogInternal::log_message), or
    runs into undefined behaviour (an access outside an allocation). *)

Inductive outcome (A : Type) : Type :=
| Ret (a : A)
| Aborted
| Undef.
Arguments Ret {A} a.
Arguments Aborted {A}.
Arguments Undef {A}.

#[export] Instance outcome_ret : MRet outcome := fun A a => Ret a.
#[export] Instance outcome_bind : MBind outcome := fun A B f m =>
  match m with Ret a => f a | Aborted => Aborted | Undef => Undef end.

Definition cxx_assert (b : bool) : outcome unit := if b then Ret tt else Aborted.

Lemma bind_Ret {A C} (m : outcome A) (f : A → outcome C) c :
  (a ← m; f a) = Ret c → ∃ a, m = Ret a ∧ f a = Ret c.
Proof. destruct m; simpl; [eauto|done..]. Qed.

(** Linear arithmetic with division and remainder by constants. *)
Ltac dlia := Z.to_euclidean_division_equations; lia.

(** Right-nested appends and conses. *)
Ltac list_norm := repeat (rewrite <-app_assoc || rewrite <-app_comm_cons); cbn [app].

(** Lengths of appends and conses. *)
Ltac list_len := repeat (rewrite length_app || cbn [length app]); lia.

(** ** Machine integers: values are [Z], wrap-around is explicit. *)

Definition wrap (w z : Z) : Z := z mod 2 ^ w.
Definition swrap (w z : Z) : Z := (z + 2 ^ (w - 1)) mod 2 ^ w - 2 ^ (w - 1).

Definition u8 : Z → Z := wrap 8.
Definition u16 : Z → Z := wrap 16.
Definition u32 : Z → Z := wrap 32.
Definition u64 : Z → Z := wrap 64.
Definition s8 : Z → Z := swrap 8.
Definition s16 : Z → Z := swrap 16.
Definition s32 : Z → Z := swrap 32.
Definition s64 : Z → Z := swrap 64.

(** [fits w z] / [sfits w z]: [z] is a value of the w-bit type. *)
Definition fits (w z : Z) : Prop := 0 ≤ z < 2 ^ w.
Definition sfits (w z : Z) : Prop := - 2 ^ (w - 1) ≤ z < 2 ^ (w - 1).

Lemma wrap_fits w z : 0 ≤ w → fits w (wrap w z).
Proof. intros. unfold fits, wrap. apply Z.mod_pos_bound. lia. Qed.

Lemma wrap_id w z : fits w z → wrap w z = z.
Proof. apply Z.mod_small. Qed.

Lemma wrap_wrap w z : wrap w (wrap w z) = wrap w z.
Proof. unfold wrap. apply Zmod_mod. Qed.

Lemma wrap_add_l w a b : wrap w (wrap w a + b) = wrap w (a + b).
Proof. apply Zplus_mod_idemp_l. Qed.

Lemma wrap_add_r w a b : wrap w (a + wrap w b) = wrap w (a + b).
Proof. apply Zplus_mod_idemp_r. Qed.

Lemma pow2_pred w : 0 < w → 2 ^ w = 2 * 2 ^ (w - 1).
Proof. intros. rewrite <-Z.pow_succ_r by lia. f_equal. lia. Qed.

Lemma swrap_fits w z : 0 < w → sfits w (swrap w z).
Proof.
  intros. unfold sfits, swrap.
  pose proof (Z.mod_pos_bound (z + 2 ^ (w - 1)) (2 ^ w) ltac:(lia)).
  pose proof (pow2_pred w ltac:(lia)). lia.
Qed.

Lemma swrap_id w z : 0 < w → sfits w z → swrap w z = z.
Proof.
  intros Hw [H1 H2]. unfold swrap. pose proof (pow2_pred w Hw).
  rewrite Z.mod_small; lia.
Qed.

Lemma s32_small z : - 2 ^ 31 ≤ z < 2 ^ 31 → s32 z = z.
Proof. intros Hz. by apply swrap_id. Qed.
Lemma s64_small z : - 2 ^ 63 ≤ z < 2 ^ 63 → s64 z = z.
Proof. intros Hz. by apply swrap_id. Qed.

Lemma wrap_swrap w z : 0 < w → wrap w (swrap w z) = wrap w z.
Proof.
  intros. unfold wrap, swrap. rewrite Zminus_mod_idemp_l. f_equal. lia.
Qed.

Lemma swrap_wrap w z : 0 < w → swrap w (wrap w z) = swrap w z.
Proof. intros. unfold wrap, swrap. by rewrite Zplus_mod_idemp_l. Qed.

(** Bits of a w-bit value stop at [w]. *)
Lemma fits_testbit w x i : 0 ≤ w → fits w x → w ≤ i → Z.testbit x i = false.
Proof.
  intros Hw Hx Hi. unfold fits in Hx.
  rewrite <-(Z.mod_small x (2 ^ w)) by lia. apply Z.mod_pow2_bits_high. lia.
Qed.
(** Disjoint bits are added. *)
Lemma lor_shift_add hi lo n : 0 ≤ n → 0 ≤ hi → 0 ≤ lo < 2 ^ n →
  Z.lor (Z.shiftl hi n) lo = hi * 2 ^ n + lo.
Proof.
  intros Hn Hhi Hlo. rewrite <-Z.shiftl_mul_pow2 by done. symmetry. apply Z.add_nocarry_lor.
  apply Z.bits_inj'. intros i Hi. rewrite Z.land_spec, Z.bits_0.
  destruct (decide (i < n)).
  - by rewrite Z.shiftl_spec_low by lia.
  - rewrite (fits_testbit n lo) by (done || lia). apply andb_false_r.
Qed.

(** ** Bytes and byte strings: a [char*]/[std::string] is a [list Z]. *)

Definition byte_ok (b : Z) : Prop := 0 ≤ b < 256.
#[export] Instance byte_ok_dec b : Decision (byte_ok b).
Proof. unfold byte_ok. apply _. Defined.

Abbreviation bytes_ok := (Forall byte_ok).

(** A boolean property of one byte is settled by the 256 cases. *)
Lemma byte_cases (P : Z → bool) :
  forallb (λ n, P (Z.of_nat n)) (seq 0 256) = true → ∀ b, byte_ok b → P b = true.
Proof.
  intros HP b Hb. rewrite forallb_forall in HP.
  specialize (HP (Z.to_nat b)). rewrite Z2Nat.id in HP by (destruct Hb; lia).
  apply HP, in_seq. destruct Hb; lia.
Qed.

(** Proves an equation between integer functions of a byte [b]. *)
Ltac byte_brute b :=
  match goal with
  | H : byte_ok b |- @eq Z _ _ =>
      apply Z.eqb_eq; clear -H; revert b H; apply byte_cases; vm_compute; reflexivity
  | H : byte_ok b |- @eq bool _ true =>
      clear -H; revert b H; apply byte_cases; vm_compute; reflexivity
  end.

Lemma byte_ok_wrap z : byte_ok (u8 z).
Proof. apply wrap_fits. lia. Qed.

Lemma bytes_ok_app l1 l2 : bytes_ok (l1 ++ l2) ↔ bytes_ok l1 ∧ bytes_ok l2.
Proof. apply Forall_app. Qed.

Lemma bytes_ok_lookup (l : list Z) i b : bytes_ok l → l !! i = Some b → byte_ok b.
Proof. intros Hl ?. rewrite Forall_lookup in Hl. eauto. Qed.

Lemma bytes_ok_replicate n b : byte_ok b → bytes_ok (replicate n b).
Proof. intros. by apply Forall_replicate. Qed.

(** String literals of the source as byte strings. *)
Fixpoint str (s : string) : list Z :=
  match s with
  | EmptyString => []
  | String c s' => Z.of_N (N_of_ascii c) :: str s'
  end.

Arguments str s%_string_scope : simpl never.

(** A character literal. *)
Definition ch (c : ascii) : Z := Z.of_N (N_of_ascii c).
Arguments ch c%_char_scope.

Lemma byte_ok_ch c : byte_ok (ch c).
Proof. unfold byte_ok, ch. pose proof (N_ascii_bounded c). lia. Qed.

Lemma bytes_ok_str s : bytes_ok (str s).
Proof. induction s; constructor; [apply byte_ok_ch | done]. Qed.

(** The C string a [const char*] denotes: the bytes before the first NUL.
    [std::string::c_str()] appends one, so the result is total. *)
Fixpoint c_str (s : list Z) : list Z :=
  match s with
  | [] => []
  | c :: s' => if c =? 0 then [] else c :: c_str s'
  end.

Definition no_nul (s : list Z) : Prop := 0 ∉ s.

Lemma c_str_id s : no_nul s → c_str s = s.
Proof.
  unfold no_nul. induction s as [|c s IH]; [done|]. intros [Hc Hs]%not_elem_of_cons.
  simpl. destruct (Z.eqb_spec c 0); [lia|]. by rewrite IH.
Qed.

Lemma c_str_no_nul s : no_nul (c_str s).
Proof.
  unfold no_nul. induction s as [|c s IH]; simpl; [apply not_elem_of_nil|].
  destruct (Z.eqb_spec c 0); [apply not_elem_of_nil|].
  apply not_elem_of_cons. split; [lia|done].
Qed.

Lemma c_str_app a b : no_nul a → c_str (a ++ b) = a ++ c_str b.
Proof.
  unfold no_nul. induction a as [|c a IH]; [done|]. intros [Hc Ha]%not_elem_of_cons. simpl.
  destruct (Z.eqb_spec c 0); [lia|]. by rewrite IH.
Qed.

Lemma c_str_bytes_ok s : bytes_ok s → bytes_ok (c_str s).
Proof.
  induction 1 as [|c s Hc Hs IH]; simpl; [done|].
  destruct (c =? 0); by constructor.
Qed.

(** ** Words in memory: little-endian (x86), and network byte order. *)

Fixpoint le_bytes (n : nat) (z : Z) : list Z :=
  match n with
  | O => []
  | S n' => z mod 256 :: le_bytes n' (z / 256)
  end.

Fixpoint le_val (l : list Z) : Z :=
  match l with
  | [] => 0
  | b :: l' => b + 256 * le_val l'
  end.

Definition be_bytes (n : nat) (z : Z) : list Z := reverse (le_bytes n z).
Definition be_val (l : list Z) : Z := le_val (reverse l).

Lemma length_le_bytes n z : length (le_bytes n z) = n.
Proof. revert z. induction n; intros; simpl; auto. Qed.

Lemma le_bytes_ok n z : bytes_ok (le_bytes n z).
Proof.
  revert z. induction n; intros; simpl; constructor; auto.
  unfold byte_ok. dlia.
Qed.

Lemma le_val_le_bytes n z : le_val (le_bytes n z) = z mod 2 ^ (8 * Z.of_nat n).
Proof.
  revert z. induction n as [|n IH]; intros z; simpl le_val; simpl le_bytes.
  - by rewrite Z.mod_1_r.
  - simpl. rewrite IH. replace (8 * Z.of_nat (S n)) with (8 + 8 * Z.of_nat n) by lia.
    rewrite Z.pow_add_r, Z.rem_mul_r by lia. done.
Qed.

Lemma le_val_bound l : bytes_ok l → fits (8 * Z.of_nat (length l)) (le_val l).
Proof.
  unfold fits. induction 1 as [|b l Hb Hl IH]; simpl; [lia|].
  replace (8 * Z.of_nat (S (length l))) with (8 + 8 * Z.of_nat (length l)) by lia.
  rewrite Z.pow_add_r by lia. unfold byte_ok in Hb. lia.
Qed.

Lemma le_bytes_le_val l : bytes_ok l → le_bytes (length l) (le_val l) = l.
Proof.
  induction 1 as [|b l Hb Hl IH]; simpl; [done|]. unfold byte_ok in Hb.
  replace ((b + 256 * le_val l) mod 256) with b by dlia.
  replace ((b + 256 * le_val l) / 256) with (le_val l) by dlia.
  by rewrite IH.
Qed.

Lemma le_val_app l1 l2 : le_val (l1 ++ l2) = le_val l1 + 256 ^ Z.of_nat (length l1) * le_val l2.
Proof.
  induction l1 as [|b l1 IH]; simpl app; simpl le_val; [simpl; lia|].
  rewrite IH. simpl length. rewrite Nat2Z.inj_succ, Z.pow_succ_r by lia. lia.
Qed.

Lemma le_bytes_mod n z : le_bytes n (z mod 2 ^ (8 * Z.of_nat n)) = le_bytes n z.
Proof.
  rewrite <-le_val_le_bytes. rewrite <-(length_le_bytes n z) at 1.
  apply le_bytes_le_val, le_bytes_ok.
Qed.

Lemma le_bytes_add n m z :
  le_bytes (n + m) z = le_bytes n z ++ le_bytes m (z / 2 ^ (8 * Z.of_nat n)).
Proof.
  revert z. induction n as [|n IH]; intros z; simpl; [by rewrite Z.div_1_r|].
  rewrite IH, Z.div_div by lia. do 4 f_equal.
  replace (8 * Z.of_nat (S n)) with (8 + 8 * Z.of_nat n) by lia. by rewrite Z.pow_add_r by lia.
Qed.

Lemma length_be_bytes n z : length (be_bytes n z) = n.
Proof. unfold be_bytes. by rewrite length_reverse, length_le_bytes. Qed.

Lemma be_bytes_ok n z : bytes_ok (be_bytes n z).
Proof. unfold be_bytes. apply Forall_reverse, le_bytes_ok. Qed.

Lemma be_val_be_bytes n z : be_val (be_bytes n z) = z mod 2 ^ (8 * Z.of_nat n).
Proof. unfold be_val, be_bytes. by rewrite reverse_involutive, le_val_le_bytes. Qed.

(** ** Locks

    Threads at places, some of which are behind a lock: the lock is taken just when a thread
    is, and no two are. *)

Section Exclusive.
Context {A : Type} (holds : A → bool).

Record exclusive (locked : bool) (l : list A) : Prop := {
  excl_locked i x : l !! i = Some x → holds x = true → locked = true;
  excl_one i j x y : l !! i = Some x → l !! j = Some y → holds x = true → holds y = true → i = j;
  excl_holder : locked = true → ∃ i x, l !! i = Some x ∧ holds x = true
}.
(** What a step of one thread may do to the lock: nothing, take it when it is free, or give it
    back. *)
Definition lock_step (x x' : A) (locked locked' : bool) : Prop :=
  (locked' = locked ∧ holds x' = holds x) ∨
  (locked = false ∧ locked' = true ∧ holds x = false ∧ holds x' = true) ∨
  (locked' = false ∧ holds x = true ∧ holds x' = false).

Lemma lookup_insert_cases {B} (l : list B) t x u y :
  <[t := x]> l !! u = Some y → (u = t ∧ y = x) ∨ (u ≠ t ∧ l !! u = Some y).
Proof. rewrite list_lookup_insert_Some. intros [(-> & -> & _)|[Hne Hu]]; [by left|right; by split]. Qed.

Lemma exclusive_step t x x' l locked locked' : l !! t = Some x → exclusive locked l → lock_step x x' locked locked' →
  exclusive locked' (<[t := x']> l).
Proof.
  intros Ht [C1 C2 C3] Em. assert (t < length l)%nat as Hlt by by eapply lookup_lt_Some.
  assert (∀ u y, u ≠ t → l !! u = Some y → holds y = true → locked' = true ∧ holds x' = false) as Hother.
  { intros u y Hne Hu Hh. pose proof (C1 _ _ Hu Hh) as Hl. destruct Em as [[E1 E2]|[(E & _)|(_ & E & _)]]; [|congruence|].
    - rewrite E1, E2. split; [done|]. destruct (holds x) eqn:E; [|done]. by destruct (Hne (C2 _ _ _ _ Hu Ht Hh E)).
    - by destruct (Hne (C2 _ _ _ _ Hu Ht Hh E)). }
  split.
  - intros u y [[-> ->]|[Hne Hu]]%lookup_insert_cases Hh; [|by eapply Hother].
    destruct Em as [[E1 E2]|[(_ & E & _)|(_ & _ & E)]]; [|done|congruence]. rewrite E1. eapply C1; [exact Ht|congruence].
  - intros u v y z [[-> ->]|[Hne Hu]]%lookup_insert_cases [[-> ->]|[Hne' Hv]]%lookup_insert_cases Hh Hh'; [done| | |].
    + destruct (Hother _ _ Hne' Hv Hh') as [_ E]. congruence.
    + destruct (Hother _ _ Hne Hu Hh) as [_ E]. congruence.
    + by eapply C2.
  - intros Hl. destruct (holds x') eqn:Eh; [exists t, x'; by rewrite list_lookup_insert_eq|].
    destruct Em as [[E1 E2]|[(_ & _ & _ & E)|(E & _)]]; [|congruence|congruence].
    destruct (C3 ltac:(congruence)) as (u & y & Hu & Hh). exists u, y. split; [|done].
    rewrite list_lookup_insert_ne; [done|]. intros <-. congruence.
Qed.

Lemma exclusive_replicate n x : holds x = false → exclusive false (replicate n x).
Proof.
  intros Hx. split; [..|done].
  - intros i y [-> _]%lookup_replicate. congruence.
  - intros i j y z [-> _]%lookup_replicate. congruence.
Qed.
End Exclusive.

Create HintDb bundle.
Create Rewrite HintDb bundle.
#[export] Hint Resolve byte_ok_wrap byte_ok_ch bytes_ok_str bytes_ok_replicate
  le_bytes_ok be_bytes_ok c_str_no_nul c_str_bytes_ok : bundle.
#[export] Hint Rewrite length_le_bytes length_be_bytes @length_app @length_take
  @length_drop @length_reverse @length_replicate : bundle.

(** ** Arrays of numbers, and loops over their indices *)

Definition rd (l : list Z) (i : nat) : outcome Z := match l !! i with Some x => Ret x | None => Undef end.
Definition wr (i : nat) (x : Z) (l : list Z) : outcome (list Z) := match l !! i with Some _ => Ret (<[i:=x]> l) | None => Undef end.
(** [for (i = a; i < a + k; ++i)]. *)
Fixpoint for_ {S} (a k : nat) (body : nat → S → outcome S) (s : S) : outcome S :=
  match k with O => Ret s | Datatypes.S k => s ← body a s; for_ (Datatypes.S a) k body s end.

Lemma for_inv {S} (P : nat → S → Prop) a k body s : P a s →
  (∀ i s, (a ≤ i < a + k)%nat → P i s → ∃ s', body i s = Ret s' ∧ P (Datatypes.S i) s') →
  ∃ s', for_ a k body s = Ret s' ∧ P (a + k)%nat s'.
Proof.
  revert a s. induction k as [|k IH]; intros a s Hs Hb; cbn [for_].
  - exists s. by rewrite Nat.add_0_r.
  - destruct (Hb a s) as (s' & -> & Hs'); [lia|done|]. cbn [mbind outcome_bind].
    destruct (IH (Datatypes.S a) s' Hs') as (s2 & E & H2); [intros i t Hi; apply Hb; lia|]. exists s2. split; [done|].
    by replace (a + Datatypes.S k)%nat with (Datatypes.S a + k)%nat by lia.
Qed.
Lemma rd_total l i : (i < length l)%nat → rd l i = Ret (l !!! i).
Proof. intros Hi. unfold rd. by rewrite (list_lookup_lookup_total_lt l i Hi). Qed.
Lemma wr_total l i x : (i < length l)%nat → wr i x l = Ret (<[i:=x]> l).
Proof. intros Hi. unfold wr. by rewrite (list_lookup_lookup_total_lt l i Hi). Qed.
