(* ===== verification/Base64.v ===== *)
(** * Base64: src/base64/base64.cpp

    [base64_encode] and [base64_decode] as the loops of the source over the
    arrays [char_array_3] and [char_array_4].  Both arrays start uninitialised:
    their initial contents are arguments of the model ([junk]), and the
    theorems hold for every value of them.  The encoder counts what is left in an
    [unsigned int], the decoder in an [int], with an [int] for the place; [enc_bytes] and
    [dec_chars] are the loops without their counters, which agree while the counts fit
    ([enc_loop_bytes], [dec_loop_chars]). *)

From S2P Require Import Prelude.

(** The 64 characters of [base64_chars]. *)
Definition base64_chars : list Z :=
  str "ABCDEFGHIJKLMNOPQRSTUVWXYZabcdefghijklmnopqrstuvwxyz0123456789+/".

(** [isalnum] in the C locale. *)
Definition isalnum (c : Z) : bool :=
  ((48 <=? c) && (c <=? 57)) || ((65 <=? c) && (c <=? 90)) || ((97 <=? c) && (c <=? 122)).

Definition is_base64 (c : Z) : bool := isalnum c || (c =? ch "+") || (c =? ch "/").

(** [base64_chars.find(c)] stored in an [unsigned char]: the index of the first
    occurrence, or [npos] truncated to 255. *)
Definition find_char (c : Z) : Z :=
  match list_find (λ x, x = c) base64_chars with
  | Some (i, _) => u8 (Z.of_nat i)
  | None => u8 (2 ^ 64 - 1)
  end.

Abbreviation arr3 := (Z * Z * Z)%type.
Abbreviation arr4 := (Z * Z * Z * Z)%type.

(** [char_array_3[i] = v] and [char_array_4[i] = v]. *)
Definition set3 (a : arr3) (i : nat) (v : Z) : arr3 :=
  let '(a0, a1, a2) := a in
  match i with O => (v, a1, a2) | 1%nat => (a0, v, a2) | 2%nat => (a0, a1, v) | _ => a end.

Definition set4 (a : arr4) (i : nat) (v : Z) : arr4 :=
  let '(a0, a1, a2, a3) := a in
  match i with
  | O => (v, a1, a2, a3) | 1%nat => (a0, v, a2, a3)
  | 2%nat => (a0, a1, v, a3) | 3%nat => (a0, a1, a2, v) | _ => a
  end.

Definition list3 (a : arr3) : list Z := let '(a0, a1, a2) := a in [a0; a1; a2].
Definition list4 (a : arr4) : list Z := let '(a0, a1, a2, a3) := a in [a0; a1; a2; a3].

(** The four 6-bit values of three bytes. *)
Definition pack (a : arr3) : arr4 :=
  let '(a0, a1, a2) := a in
  (u8 (Z.shiftr (Z.land a0 0xfc) 2),
   u8 (Z.shiftl (Z.land a0 0x03) 4 + Z.shiftr (Z.land a1 0xf0) 4),
   u8 (Z.shiftl (Z.land a1 0x0f) 2 + Z.shiftr (Z.land a2 0xc0) 6),
   u8 (Z.land a2 0x3f)).

(** The three bytes of four 6-bit values. *)
Definition unpack (a : arr4) : arr3 :=
  let '(a0, a1, a2, a3) := a in
  (u8 (Z.shiftl a0 2 + Z.shiftr (Z.land a1 0x30) 4),
   u8 (Z.shiftl (Z.land a1 0xf) 4 + Z.shiftr (Z.land a2 0x3c) 2),
   u8 (Z.shiftl (Z.land a2 0x3) 6 + a3)).

(** [base64_chars[v]] *)
Definition base64_char (v : Z) : Z := base64_chars !!! Z.to_nat v.

(** ** Encoder *)

Record enc_state := EncState { enc_i : nat; enc_a3 : arr3; enc_ret : list Z }.

(** One iteration of [while (in_len--)]. *)
Definition enc_step (st : enc_state) (b : Z) : enc_state :=
  let a3 := set3 (enc_a3 st) (enc_i st) b in
  let i := S (enc_i st) in
  if Nat.eqb i 3
  then EncState 0 a3 (enc_ret st ++ map base64_char (list4 (pack a3)))
  else EncState i a3 (enc_ret st).

(** [for (j = i; j < 3; j++) char_array_3[j] = 0;] *)
Definition zero3 (i : nat) (a : arr3) : arr3 :=
  fold_left (λ a j, set3 a j 0) (seq i (3 - i)) a.

(** The code after the loop: [if (i) { ... }]. *)
Definition enc_tail (st : enc_state) : list Z :=
  if Nat.eqb (enc_i st) 0 then enc_ret st
  else
    let a4 := list4 (pack (zero3 (enc_i st) (enc_a3 st))) in
    enc_ret st ++ map base64_char (take (enc_i st + 1) a4)
      ++ replicate (3 - enc_i st) (ch "=").

(** [while (in_len--)]: [in_len] is an [unsigned int], and a read past the bytes that were
    given is undefined. *)
Fixpoint enc_loop (st : enc_state) (in_len : Z) (bytes_to_encode : list Z) : outcome enc_state :=
  if in_len =? 0 then Ret st
  else match bytes_to_encode with
       | [] => Undef
       | b :: rest => enc_loop (enc_step st b) (u32 (in_len - 1)) rest
       end.

Definition base64_encode (junk : arr3) (bytes_to_encode : list Z) (in_len : Z) : outcome (list Z) :=
  st ← enc_loop (EncState 0 junk []) (u32 in_len) bytes_to_encode; Ret (enc_tail st).

(** ** Decoder *)

Record dec_state := DecState { dec_i : nat; dec_a4 : arr4; dec_ret : list Z }.

Definition map4 (f : Z → Z) (a : arr4) : arr4 :=
  let '(a0, a1, a2, a3) := a in (f a0, f a1, f a2, f a3).

(** The body of the loop for one accepted character. *)
Definition dec_step (st : dec_state) (c : Z) : dec_state :=
  let a4 := set4 (dec_a4 st) (dec_i st) c in
  let i := S (dec_i st) in
  if Nat.eqb i 4
  then let a4 := map4 find_char a4 in DecState 0 a4 (dec_ret st ++ list3 (unpack a4))
  else DecState i a4 (dec_ret st).

Definition INT_MIN : Z := - 2 ^ 31.
Definition INT_MAX : Z := 2 ^ 31 - 1.

(** [while (in_len-- && encoded[in_] != '=' && is_base64(encoded[in_]))]: [encoded] is the text
    from [in_] on.  The character behind the last one of a [std::string] is the NUL, which is not
    of the alphabet.  [in_len] is an [int], which is below zero for a text of 2^31 characters;
    stepping it below INT_MIN, or [in_] above INT_MAX, is undefined. *)
Fixpoint dec_loop (st : dec_state) (in_len in_ : Z) (encoded : list Z) : outcome dec_state :=
  if in_len =? 0 then Ret st
  else if in_len =? INT_MIN then Undef
  else
    match encoded with
    | [] => Ret st
    | c :: rest =>
        if negb (c =? ch "=") && is_base64 c
        then if in_ =? INT_MAX then Undef else dec_loop (dec_step st c) (in_len - 1) (in_ + 1) rest
        else Ret st
    end.

Definition zero4 (i : nat) (a : arr4) : arr4 :=
  fold_left (λ a j, set4 a j 0) (seq i (4 - i)) a.

Definition dec_tail (st : dec_state) : list Z :=
  if Nat.eqb (dec_i st) 0 then dec_ret st
  else
    let a3 := unpack (map4 find_char (zero4 (dec_i st) (dec_a4 st))) in
    dec_ret st ++ take (dec_i st - 1) (list3 a3).

Definition base64_decode (junk : arr4) (encoded_string : list Z) : outcome (list Z) :=
  st ← dec_loop (DecState 0 junk []) (s32 (Z.of_nat (length encoded_string))) 0 encoded_string;
  Ret (dec_tail st).

(** ** Reference definition: groups of three bytes *)

Definition b64_group (a b c : Z) : list Z :=
  [base64_char (a / 4); base64_char (a mod 4 * 16 + b / 16);
   base64_char (b mod 16 * 4 + c / 64); base64_char (c mod 64)].

Fixpoint b64_spec (l : list Z) : list Z :=
  match l with
  | [] => []
  | [a] => take 2 (b64_group a 0 0) ++ [ch "="; ch "="]
  | [a; b] => take 3 (b64_group a b 0) ++ [ch "="]
  | a :: b :: c :: rest => b64_group a b c ++ b64_spec rest
  end.

Example b64_hello : base64_encode (1, 2, 3) (str "hello, world!") 13 = Ret (str "aGVsbG8sIHdvcmxkIQ==").
Proof. vm_compute. reflexivity. Qed.
Example b64_hello_dec : base64_decode (1, 2, 3, 4) (str "aGVsbG8sIHdvcmxkIQ==") = Ret (str "hello, world!").
Proof. vm_compute. reflexivity. Qed.
Example b64_too_few : base64_encode (1, 2, 3) (str "hello") 6 = Undef.
Proof. vm_compute. reflexivity. Qed.

(** ** The loops without their counters *)

Definition enc_bytes (st : enc_state) (l : list Z) : enc_state := fold_left enc_step l st.

Fixpoint dec_chars (st : dec_state) (encoded : list Z) : dec_state :=
  match encoded with
  | [] => st
  | c :: rest => if negb (c =? ch "=") && is_base64 c then dec_chars (dec_step st c) rest else st
  end.

Lemma enc_loop_bytes l : ∀ st, Z.of_nat (length l) < 2 ^ 32 →
  enc_loop st (Z.of_nat (length l)) l = Ret (enc_bytes st l).
Proof.
  induction l as [|b l IH]; intros st Hl; [done|]. cbn [length] in *.
  cbn [enc_loop enc_bytes fold_left]. destruct (Z.eqb_spec (Z.of_nat (S (length l))) 0); [lia|].
  unfold u32. rewrite wrap_id by (unfold fits; lia).
  replace (Z.of_nat (S (length l)) - 1) with (Z.of_nat (length l)) by lia. apply IH. lia.
Qed.

Lemma dec_loop_chars l : ∀ st n i, Z.of_nat (length l) ≤ n → 0 ≤ i → i + Z.of_nat (length l) < 2 ^ 31 →
  dec_loop st n i l = Ret (dec_chars st l).
Proof.
  induction l as [|c l IH]; intros st n i Hn Hi Hl; cbn [length dec_loop dec_chars] in *.
  - destruct (n =? 0); [done|]. by destruct (Z.eqb_spec n INT_MIN) as [->|]; [unfold INT_MIN in *; lia|].
  - destruct (Z.eqb_spec n 0); [lia|]. destruct (Z.eqb_spec n INT_MIN); [unfold INT_MIN in *; lia|].
    destruct (_ && _); [|done]. destruct (Z.eqb_spec i INT_MAX); [unfold INT_MAX in *; lia|].
    apply IH; lia.
Qed.

Lemma base64_decode_chars junk l : Z.of_nat (length l) < 2 ^ 31 →
  base64_decode junk l = Ret (dec_tail (dec_chars (DecState 0 junk []) l)).
Proof. intros Hl. unfold base64_decode. rewrite s32_small by lia. by rewrite dec_loop_chars by lia. Qed.

(** ** Single-byte facts *)

Lemma pack_spec a b c : byte_ok a → byte_ok b → byte_ok c →
  map base64_char (list4 (pack (a, b, c))) = b64_group a b c.
Proof.
  intros Ha Hb Hc. unfold pack, b64_group, list4. simpl map.
  assert (Z.shiftr (Z.land a 0xfc) 2 = a / 4) as -> by byte_brute a.
  assert (Z.shiftl (Z.land a 0x03) 4 = a mod 4 * 16) as -> by byte_brute a.
  assert (Z.shiftr (Z.land b 0xf0) 4 = b / 16) as -> by byte_brute b.
  assert (Z.shiftl (Z.land b 0x0f) 2 = b mod 16 * 4) as -> by byte_brute b.
  assert (Z.shiftr (Z.land c 0xc0) 6 = c / 64) as -> by byte_brute c.
  assert (Z.land c 0x3f = c mod 64) as -> by byte_brute c.
  unfold byte_ok in *. unfold u8. rewrite !wrap_id by (unfold fits; dlia). done.
Qed.

Definition sextet (v : Z) : Prop := 0 ≤ v < 64.

Lemma find_base64_char v : sextet v → find_char (base64_char v) = v.
Proof.
  intros Hv. assert (byte_ok v) as Hb by (unfold sextet, byte_ok in *; lia).
  assert ((64 <=? v) || (find_char (base64_char v) =? v) = true) as H by byte_brute v.
  unfold sextet in Hv. lia.
Qed.

Lemma base64_char_ok v : sextet v →
  negb (base64_char v =? ch "=") && is_base64 (base64_char v) = true.
Proof.
  intros Hv. assert (byte_ok v) as Hb by (unfold sextet, byte_ok in *; lia).
  assert ((64 <=? v) || (negb (base64_char v =? ch "=") && is_base64 (base64_char v)) = true)
    as H by byte_brute v.
  unfold sextet in Hv. apply orb_true_iff in H. destruct H as [H|H]; [lia|done].
Qed.

Lemma unpack_spec a b c : byte_ok a → byte_ok b → byte_ok c →
  unpack (a / 4, a mod 4 * 16 + b / 16, b mod 16 * 4 + c / 64, c mod 64) = (a, b, c).
Proof.
  intros Ha Hb Hc. unfold unpack. 
  remember (a mod 4 * 16 + b / 16) as v1 eqn:E1.
  remember (b mod 16 * 4 + c / 64) as v2 eqn:E2.
  assert (byte_ok v1 ∧ byte_ok v2) as [H1 H2] by (unfold byte_ok in *; dlia).
  assert (Z.shiftr (Z.land v1 0x30) 4 = v1 / 16 mod 4) as -> by byte_brute v1.
  assert (Z.shiftl (Z.land v1 0xf) 4 = v1 mod 16 * 16) as -> by byte_brute v1.
  assert (Z.shiftr (Z.land v2 0x3c) 2 = v2 / 4 mod 16) as -> by byte_brute v2.
  assert (Z.shiftl (Z.land v2 0x3) 6 = v2 mod 4 * 64) as -> by byte_brute v2.
  rewrite Z.shiftl_mul_pow2 by lia. change (2 ^ 2) with 4.
  unfold byte_ok, u8, wrap in *. subst v1 v2. clear H1 H2.
  change (2 ^ 8) with 256.
  f_equal; [f_equal|]; dlia.
Qed.

(** ** Functional correctness *)

(** Induction by groups of three. *)
Lemma triple_ind (P : list Z → Prop) :
  P [] → (∀ a, P [a]) → (∀ a b, P [a; b]) →
  (∀ a b c l, P l → P (a :: b :: c :: l)) → ∀ l, P l.
Proof.
  intros H0 H1 H2 H3. refine (fix go l := _).
  destruct l as [|a [|b [|c l]]];
    [exact H0|exact (H1 a)|exact (H2 a b)|exact (H3 a b c l (go l))].
Qed.

Ltac bytes_inv :=
  repeat match goal with H : bytes_ok (_ :: _) |- _ => apply Forall_cons in H as [? H] end.

Lemma enc_bytes_spec l : ∀ junk ret, bytes_ok l →
  enc_tail (enc_bytes (EncState 0 junk ret) l) = ret ++ b64_spec l.
Proof.
  induction l as [|a|a b|a b c l IH] using triple_ind;
    intros [[j0 j1] j2] ret Hl; bytes_inv.
  - cbn. by rewrite app_nil_r.
  - pose proof (pack_spec a 0 0 H ltac:(done) ltac:(done)) as Hp.
    cbn [enc_bytes fold_left enc_step set3 enc_i enc_a3 enc_ret Nat.eqb enc_tail zero3 seq Nat.sub].
    rewrite <-firstn_map, Hp. done.
  - pose proof (pack_spec a b 0 H H0 ltac:(done)) as Hp.
    cbn [enc_bytes fold_left enc_step set3 enc_i enc_a3 enc_ret Nat.eqb enc_tail zero3 seq Nat.sub].
    rewrite <-firstn_map, Hp. done.
  - cbn [enc_bytes fold_left enc_step set3 enc_i enc_a3 enc_ret Nat.eqb].
    rewrite pack_spec by done. fold (enc_bytes (EncState 0 (a, b, c) (ret ++ b64_group a b c)) l).
    rewrite IH by done. by rewrite <-app_assoc.
Qed.

Lemma base64_encode_spec junk l : bytes_ok l → Z.of_nat (length l) < 2 ^ 32 →
  base64_encode junk l (Z.of_nat (length l)) = Ret (b64_spec l).
Proof.
  intros Hb Hl. unfold base64_encode, u32. rewrite wrap_id by (unfold fits; lia).
  rewrite enc_loop_bytes by done. cbn [mbind outcome_bind]. f_equal. by apply enc_bytes_spec.
Qed.

Lemma pad_stops : negb (ch "=" =? ch "=") && is_base64 (ch "=") = false.
Proof. done. Qed.

(** A decoded group: four accepted characters give back the three bytes. *)
Lemma dec_group v0 v1 v2 v3 junk ret rest :
  sextet v0 → sextet v1 → sextet v2 → sextet v3 →
  dec_chars (DecState 0 junk ret) ([base64_char v0; base64_char v1; base64_char v2;
    base64_char v3] ++ rest)
  = dec_chars (DecState 0 (v0, v1, v2, v3) (ret ++ list3 (unpack (v0, v1, v2, v3)))) rest.
Proof.
  intros H0 H1 H2 H3. destruct junk as [[[j0 j1] j2] j3]. cbn [dec_chars app].
  rewrite !base64_char_ok by done.
  cbn [dec_step dec_i dec_a4 dec_ret set4 Nat.eqb map4].
  by rewrite !find_base64_char.
Qed.

Lemma sextets a b c : byte_ok a → byte_ok b → byte_ok c →
  sextet (a / 4) ∧ sextet (a mod 4 * 16 + b / 16) ∧
  sextet (b mod 16 * 4 + c / 64) ∧ sextet (c mod 64).
Proof. unfold byte_ok, sextet. intros. dlia. Qed.

(** The padded last group: the bytes kept do not depend on what [find] makes of
    the NUL bytes the code stores in the unused cells. *)
Lemma dec_tail_2 v0 v1 junk ret rest : sextet v0 → sextet v1 →
  dec_tail (dec_chars (DecState 0 junk ret) (base64_char v0 :: base64_char v1 :: ch "=" :: rest))
  = ret ++ take 1 (list3 (unpack (v0, v1, 0, 0))).
Proof.
  intros H0 H1. destruct junk as [[[j0 j1] j2] j3].
  cbn [dec_chars]. rewrite !base64_char_ok, pad_stops by done.
  cbn -[find_char base64_char]. by rewrite !find_base64_char.
Qed.

Lemma dec_tail_3 v0 v1 v2 junk ret rest : sextet v0 → sextet v1 → sextet v2 →
  dec_tail (dec_chars (DecState 0 junk ret)
    (base64_char v0 :: base64_char v1 :: base64_char v2 :: ch "=" :: rest))
  = ret ++ take 2 (list3 (unpack (v0, v1, v2, 0))).
Proof.
  intros H0 H1 H2. destruct junk as [[[j0 j1] j2] j3].
  cbn [dec_chars]. rewrite !base64_char_ok, pad_stops by done.
  cbn -[find_char base64_char]. by rewrite !find_base64_char.
Qed.

Lemma dec_chars_spec l : ∀ junk ret, bytes_ok l →
  dec_tail (dec_chars (DecState 0 junk ret) (b64_spec l)) = ret ++ l.
Proof.
  induction l as [|a|a b|a b c l IH] using triple_ind; intros junk ret Hl; bytes_inv.
  - cbn. by rewrite app_nil_r.
  - destruct (sextets a 0 0 H ltac:(done) ltac:(done)) as (S0 & S1 & _).
    pose proof (unpack_spec a 0 0 H ltac:(done) ltac:(done)) as Hu.
    cbn [b64_spec b64_group take app]. rewrite dec_tail_2 by done.
    f_equal. exact (f_equal (λ p, take 1 (list3 p)) Hu).
  - destruct (sextets a b 0 H H0 ltac:(done)) as (S0 & S1 & S2 & _).
    pose proof (unpack_spec a b 0 H H0 ltac:(done)) as Hu.
    cbn [b64_spec b64_group take app]. rewrite dec_tail_3 by done.
    f_equal. exact (f_equal (λ p, take 2 (list3 p)) Hu).
  - destruct (sextets a b c H H0 H1) as (S0 & S1 & S2 & S3).
    cbn [b64_spec]. unfold b64_group. rewrite dec_group by done.
    rewrite unpack_spec by done. rewrite IH by done. by rewrite <-app_assoc.
Qed.

Lemma b64_spec_length l : length (b64_spec l) = (4 * ((length l + 2) / 3))%nat.
Proof.
  induction l as [|a|a b|a b c l IH] using triple_ind; [done..|].
  cbn [b64_spec]. rewrite length_app, IH. cbn [length b64_group].
  replace (S (S (S (length l))) + 2)%nat with (length l + 2 + 1 * 3)%nat by lia.
  rewrite Nat.div_add by done. lia.
Qed.

Lemma base64_char_alphabet v : sextet v → is_base64 (base64_char v) = true ∨ base64_char v = ch "=".
Proof. intros Hv. left. pose proof (base64_char_ok v Hv) as H. by apply andb_true_iff in H as [_ ?]. Qed.

Ltac group_alphabet :=
  repeat (apply Forall_cons; split); auto using base64_char_alphabet.

Lemma b64_spec_alphabet l : bytes_ok l →
  Forall (λ c, is_base64 c = true ∨ c = ch "=") (b64_spec l).
Proof.
  induction l as [|a|a b|a b c l IH] using triple_ind; intros Hl; bytes_inv; [done|..].
  - destruct (sextets a 0 0 H ltac:(done) ltac:(done)) as (S0 & S1 & S2 & S3).
    group_alphabet.
  - destruct (sextets a b 0 H H0 ltac:(done)) as (S0 & S1 & S2 & S3).
    group_alphabet.
  - destruct (sextets a b c H H0 H1) as (S0 & S1 & S2 & S3). 
    group_alphabet.
Qed.

(** ** Properties *)

(** C32 (roundtrip): decoding what [base64_encode] produced gives back the original bytes,
    whatever the two local arrays held before the calls, for every byte string whose encoding
    has less than 2^31 characters, which is what the counter of the decoder holds. *)
Theorem base64_roundtrip (l : list Z) (junk3 : arr3) (junk4 : arr4) :
  bytes_ok l → 4 * ((Z.of_nat (length l) + 2) / 3) < 2 ^ 31 →
  ∃ encoded, base64_encode junk3 l (Z.of_nat (length l)) = Ret encoded ∧ base64_decode junk4 encoded = Ret l.
Proof.
  intros Hb Hl. exists (b64_spec l). split; [apply base64_encode_spec; [done|dlia]|].
  assert (Z.of_nat (length (b64_spec l)) < 2 ^ 31) as Hlen.
  { rewrite b64_spec_length. rewrite Nat2Z.inj_mul, Nat2Z.inj_div, Nat2Z.inj_add. exact Hl. }
  rewrite base64_decode_chars by done. f_equal. by apply dec_chars_spec.
Qed.

Lemma base64_roundtrip_witness :
  ∃ encoded, base64_encode (7, 7, 7) [0; 255; 128; 61; 10] 5 = Ret encoded ∧
    base64_decode (9, 9, 9, 9) encoded = Ret [0; 255; 128; 61; 10].
Proof. apply (base64_roundtrip [0; 255; 128; 61; 10]); [repeat constructor; done|done]. Defined.

(** Above the bound the decoder runs into undefined behaviour: of a text of the alphabet with
    2^31 characters or more the length is an [int] below zero, and one of the two counters leaves
    its range before the end. *)
Lemma dec_loop_overflows l : ∀ st n i, Forall (λ c, is_base64 c = true) l → INT_MIN ≤ n < 0 →
  n - INT_MIN ≤ Z.of_nat (length l) → dec_loop st n i l = Undef.
Proof.
  induction l as [|c l IH]; intros st n i Hc Hn Hl; cbn [length dec_loop] in *.
  - destruct (Z.eqb_spec n 0); [lia|]. by replace n with INT_MIN by lia.
  - destruct (Z.eqb_spec n 0); [lia|]. destruct (Z.eqb_spec n INT_MIN); [done|].
    apply Forall_cons in Hc as [Hc Hr]. destruct (Z.eqb_spec c (ch "=")) as [->|]; [done|].
    rewrite Hc. cbn [negb andb]. destruct (i =? INT_MAX); [done|]. apply IH; [done|lia..].
Qed.
Lemma base64_decode_overflows (l : list Z) (junk : arr4) :
  Forall (λ c, is_base64 c = true) l → 2 ^ 31 ≤ Z.of_nat (length l) < 2 ^ 32 → base64_decode junk l = Undef.
Proof.
  intros Hc Hl. unfold base64_decode. replace (s32 (Z.of_nat (length l))) with (Z.of_nat (length l) - 2 ^ 32).
  - by rewrite dec_loop_overflows by (done || unfold INT_MIN; lia).
  - unfold s32, swrap. replace (Z.of_nat (length l) + 2 ^ (32 - 1)) with (Z.of_nat (length l) - 2 ^ 31 + 1 * 2 ^ 32) by lia.
    rewrite Z_mod_plus_full, Z.mod_small by lia. lia.
Qed.

(** The loops over [char_array_3] compute the reference
    definition by groups of three; the output has [4 * ceil(n / 3)] characters,
    each of the alphabet or ['=']. *)
Theorem base64_encode_equiv (l : list Z) (junk : arr3) :
  bytes_ok l → Z.of_nat (length l) < 2 ^ 32 →
  base64_encode junk l (Z.of_nat (length l)) = Ret (b64_spec l) ∧
  length (b64_spec l) = (4 * ((length l + 2) / 3))%nat ∧
  Forall (λ c, is_base64 c = true ∨ c = ch "=") (b64_spec l).
Proof.
  intros Hb Hl. split; [by apply base64_encode_spec|].
  split; [apply b64_spec_length|by apply b64_spec_alphabet].
Qed.

(** Decoding never fails below the bound; it stops at the first character that is
    not of the alphabet, and what follows is ignored. *)
Lemma dec_chars_stops (s rest : list Z) (c : Z) st :
  is_base64 c = false → dec_chars st (s ++ c :: rest) = dec_chars st s.
Proof.
  intros Hc. revert st. induction s as [|d s IH]; intros st; cbn [app dec_chars].
  - by rewrite Hc, andb_false_r.
  - destruct (_ && _); [apply IH|done].
Qed.
Theorem base64_decode_stops (s rest : list Z) (c : Z) (junk : arr4) :
  is_base64 c = false → Z.of_nat (length (s ++ c :: rest)) < 2 ^ 31 →
  base64_decode junk (s ++ c :: rest) = base64_decode junk s.
Proof.
  intros Hc Hl. assert (Z.of_nat (length s) < 2 ^ 31) by (rewrite length_app in Hl; lia).
  rewrite !base64_decode_chars by done. by rewrite dec_chars_stops.
Qed.

Lemma base64_decode_stops_witness :
  base64_decode (0, 0, 0, 0) (str "aGk=" ++ ch " " :: str "junk") =
  base64_decode (0, 0, 0, 0) (str "aGk=").
Proof. apply base64_decode_stops; reflexivity. Defined.
