(* ===== verification/Sha1.v ===== *)
(** * SHA-1: src/sha/sha1.cpp, deps/bundle-0.01/include/sha/sha1.h

    The class [SHA1] as a record, its methods as functions of the object, and
    the algorithm of FIPS PUB 180-1 as the reference definition. *)

From S2P Require Import Prelude.

(** ** The class *)

Record SHA1 := MkSHA1 {
  H : list Z;                    (* unsigned H[5] *)
  Length_Low : Z;                (* unsigned *)
  Length_High : Z;               (* unsigned *)
  Message_Block : list Z;        (* unsigned char Message_Block[64] *)
  Message_Block_Index : nat;     (* int *)
  Computed : bool;
  Corrupted : bool
}.

Definition add32 (a b : Z) : Z := u32 (a + b).
Infix "⊞" := add32 (at level 50, left associativity).

Definition CircularShift (bits word : Z) : Z :=
  Z.lor (Z.land (Z.shiftl word bits) 0xFFFFFFFF)
        (Z.shiftr (Z.land word 0xFFFFFFFF) (32 - bits)).

(** [~B] on an [unsigned] *)
Definition not32 (b : Z) : Z := Z.lxor b 0xFFFFFFFF.

(** [Reset] leaves [Message_Block] as it is. *)
Definition Reset (s : SHA1) : SHA1 :=
  {| H := [0x67452301; 0xEFCDAB89; 0x98BADCFE; 0x10325476; 0xC3D2E1F0];
     Length_Low := 0; Length_High := 0;
     Message_Block := Message_Block s; Message_Block_Index := 0;
     Computed := false; Corrupted := false |}.

(** The first loop of [ProcessMessageBlock]: word [t] of the block. *)
Definition block_word (mb : list Z) (t : nat) : Z :=
  Z.lor (Z.lor (Z.lor (Z.shiftl (mb !!! (t * 4)%nat) 24)
                      (Z.shiftl (mb !!! (t * 4 + 1)%nat) 16))
               (Z.shiftl (mb !!! (t * 4 + 2)%nat) 8))
        (mb !!! (t * 4 + 3)%nat).

(** The second loop: [W[t]] from the words before it. *)
Definition expand_step (W : list Z) (t : nat) : list Z :=
  W ++ [CircularShift 1 (Z.lxor (Z.lxor (Z.lxor (W !!! (t - 3)%nat) (W !!! (t - 8)%nat))
                                        (W !!! (t - 14)%nat)) (W !!! (t - 16)%nat))].

Definition schedule (mb : list Z) : list Z :=
  fold_left expand_step (seq 16 64) (map (block_word mb) (seq 0 16)).

Record regs := Regs { rA : Z; rB : Z; rC : Z; rD : Z; rE : Z }.

(** One iteration of a round loop, with the loop's function [f] and constant [k]. *)
Definition round (f : Z → Z → Z → Z) (k : Z) (W : list Z) (r : regs) (t : nat) : regs :=
  let temp := CircularShift 5 (rA r) ⊞ f (rB r) (rC r) (rD r) ⊞ rE r ⊞ (W !!! t) ⊞ k in
  Regs (Z.land temp 0xFFFFFFFF) (rA r) (CircularShift 30 (rB r)) (rC r) (rD r).

Definition f0 (B C D : Z) : Z := Z.lor (Z.land B C) (Z.land (not32 B) D).
Definition f1 (B C D : Z) : Z := Z.lxor (Z.lxor B C) D.
Definition f2 (B C D : Z) : Z := Z.lor (Z.lor (Z.land B C) (Z.land B D)) (Z.land C D).

Definition run_rounds (W : list Z) (r : regs) : regs :=
  let r := fold_left (round f0 0x5A827999 W) (seq 0 20) r in
  let r := fold_left (round f1 0x6ED9EBA1 W) (seq 20 20) r in
  let r := fold_left (round f2 0x8F1BBCDC W) (seq 40 20) r in
  fold_left (round f1 0xCA62C1D6 W) (seq 60 20) r.

Definition ProcessMessageBlock (s : SHA1) : SHA1 :=
  let h := H s in
  let r := run_rounds (schedule (Message_Block s))
             (Regs (h !!! 0%nat) (h !!! 1%nat) (h !!! 2%nat) (h !!! 3%nat) (h !!! 4%nat)) in
  {| H := [Z.land (h !!! 0%nat ⊞ rA r) 0xFFFFFFFF; Z.land (h !!! 1%nat ⊞ rB r) 0xFFFFFFFF;
           Z.land (h !!! 2%nat ⊞ rC r) 0xFFFFFFFF; Z.land (h !!! 3%nat ⊞ rD r) 0xFFFFFFFF;
           Z.land (h !!! 4%nat ⊞ rE r) 0xFFFFFFFF];
     Length_Low := Length_Low s; Length_High := Length_High s;
     Message_Block := Message_Block s; Message_Block_Index := 0;
     Computed := Computed s; Corrupted := Corrupted s |}.

(** [Message_Block[Message_Block_Index++] = b;] *)
Definition put (s : SHA1) (b : Z) : SHA1 :=
  {| H := H s; Length_Low := Length_Low s; Length_High := Length_High s;
     Message_Block := <[Message_Block_Index s := b]> (Message_Block s);
     Message_Block_Index := S (Message_Block_Index s);
     Computed := Computed s; Corrupted := Corrupted s |}.

(** [Length_Low += 8; ...]: the 64-bit bit counter in two words. *)
Definition count8 (s : SHA1) : SHA1 :=
  let low := Z.land (u32 (Length_Low s + 8)) 0xFFFFFFFF in
  let high := if low =? 0 then Z.land (u32 (Length_High s + 1)) 0xFFFFFFFF else Length_High s in
  {| H := H s; Length_Low := low; Length_High := high;
     Message_Block := Message_Block s; Message_Block_Index := Message_Block_Index s;
     Computed := Computed s;
     Corrupted := if (low =? 0) && (high =? 0) then true else Corrupted s |}.

(** The body of the loop of [Input]. *)
Definition input_byte (s : SHA1) (b : Z) : SHA1 :=
  let s := count8 (put s (Z.land b 0xFF)) in
  if Nat.eqb (Message_Block_Index s) 64 then ProcessMessageBlock s else s.

(** [while (length-- && !Corrupted)] *)
Fixpoint input_loop (s : SHA1) (message_array : list Z) : SHA1 :=
  match message_array with
  | [] => s
  | b :: rest => if Corrupted s then s else input_loop (input_byte s b) rest
  end.

Definition set_Corrupted (s : SHA1) : SHA1 :=
  MkSHA1 (H s) (Length_Low s) (Length_High s) (Message_Block s) (Message_Block_Index s)
    (Computed s) true.

(** [Input] of an array and its length: the array has [length] bytes. *)
Definition Input (s : SHA1) (message_array : list Z) : SHA1 :=
  match message_array with
  | [] => s
  | _ => if Computed s || Corrupted s then set_Corrupted s else input_loop s message_array
  end.

(** [operator<<] of a C string: one [Input] per byte before the NUL. *)
Definition input_cstr (s : SHA1) (message_array : list Z) : SHA1 :=
  fold_left (λ s b, Input s [b]) (c_str message_array) s.

(** The overloads for [char] and [unsigned char], which forward. *)
Definition Input_char_array : SHA1 → list Z → SHA1 := Input.
Definition Input_uchar (s : SHA1) (message_element : Z) : SHA1 := Input s [message_element].
Definition Input_char (s : SHA1) (message_element : Z) : SHA1 := Input s [message_element].
Definition input_ucstr (s : SHA1) (message_array : list Z) : SHA1 := fold_left Input_uchar (c_str message_array) s.
Definition shift_char (s : SHA1) (message_element : Z) : SHA1 := Input s [message_element].
Definition shift_uchar (s : SHA1) (message_element : Z) : SHA1 := Input s [message_element].

(** [while (Message_Block_Index < n) Message_Block[Message_Block_Index++] = 0;] *)
Definition zero_until (n : nat) (s : SHA1) : SHA1 :=
  Nat.iter (n - Message_Block_Index s) (λ s, put s 0) s.

(** [Message_Block[56 + i] = ...]: the two length words, high word first. *)
Definition store_length (s : SHA1) : SHA1 :=
  let byte w n := Z.land (Z.shiftr w n) 0xFF in
  let hi := Length_High s in
  let lo := Length_Low s in
  let mb := fold_left (λ mb '(i, b), <[i := b]> mb)
    [(56%nat, byte hi 24); (57%nat, byte hi 16); (58%nat, byte hi 8); (59%nat, byte hi 0);
     (60%nat, byte lo 24); (61%nat, byte lo 16); (62%nat, byte lo 8); (63%nat, byte lo 0)]
    (Message_Block s) in
  MkSHA1 (H s) lo hi mb (Message_Block_Index s) (Computed s) (Corrupted s).

Definition PadMessage (s : SHA1) : SHA1 :=
  let s :=
    if Nat.ltb 55 (Message_Block_Index s)
    then zero_until 56 (ProcessMessageBlock (zero_until 64 (put s 0x80)))
    else zero_until 56 (put s 0x80) in
  ProcessMessageBlock (store_length s).

Definition set_Computed (s : SHA1) : SHA1 :=
  MkSHA1 (H s) (Length_Low s) (Length_High s) (Message_Block s) (Message_Block_Index s)
    true (Corrupted s).

(** [Result]: the returned [bool] and, when it is [true], the five words. *)
Definition Result (s : SHA1) : SHA1 * option (list Z) :=
  if Corrupted s then (s, None)
  else
    let s := if Computed s then s else set_Computed (PadMessage s) in
    (s, Some (H s)).

Definition empty_block : list Z := replicate 64 0.
Definition blank : SHA1 := MkSHA1 [] 0 0 empty_block 0 false false.

(* da39a3ee 5e6b4b0d 3255bfef 95601890 afd80709 *)
Example sha1_empty : snd (Result (Reset blank)) =
  Some [0xda39a3ee; 0x5e6b4b0d; 0x3255bfef; 0x95601890; 0xafd80709].
Proof. vm_compute. reflexivity. Qed.

Example sha1_abc : snd (Result (Input (Reset blank) (str "abc"))) =
  Some [0xa9993e36; 0x4706816a; 0xba3e2571; 0x7850c26c; 0x9cd0d89d].
Proof. vm_compute. reflexivity. Qed.

Example sha1_two_blocks :
  snd (Result (Input (Reset blank) (str "abcdbcdecdefdefgefghfghighijhijkijkljklmklmnlmnomnopnopq"))) =
  Some [0x84983e44; 0x1c3bd26e; 0xbaae4aa1; 0xf95129e5; 0xe54670f1].
Proof. vm_compute. reflexivity. Qed.

(** ** Reference: FIPS PUB 180-1 *)

Module Fips.
(** S^n(X): circular left shift of a 32-bit word, sections 3 c. *)
Definition rotl (n x : Z) : Z := (x * 2 ^ n) mod 2 ^ 32 + x / 2 ^ (32 - n).

Definition ft (t : nat) (B C D : Z) : Z :=
  if Nat.ltb t 20 then Z.lxor (Z.land B C) (Z.land (2 ^ 32 - 1 - B) D)
  else if Nat.ltb t 40 then Z.lxor (Z.lxor B C) D
  else if Nat.ltb t 60 then Z.lxor (Z.lxor (Z.land B C) (Z.land B D)) (Z.land C D)
  else Z.lxor (Z.lxor B C) D.

Definition Kt (t : nat) : Z :=
  if Nat.ltb t 20 then 0x5A827999 else if Nat.ltb t 40 then 0x6ED9EBA1
  else if Nat.ltb t 60 then 0x8F1BBCDC else 0xCA62C1D6.

(** Word [t] of a 64-byte block, big-endian. *)
Definition word (M : list Z) (t : nat) : Z := be_val (take 4 (drop (4 * t) M)).

(** The recurrence of step b; [fuel > t] is enough. *)
Fixpoint Wt (M : list Z) (fuel t : nat) : Z :=
  match fuel with
  | O => 0
  | S fuel =>
      if Nat.ltb t 16 then word M t
      else rotl 1 (Z.lxor (Z.lxor (Z.lxor (Wt M fuel (t - 3)) (Wt M fuel (t - 8)))
                                  (Wt M fuel (t - 14))) (Wt M fuel (t - 16)))
  end.

Definition step (M : list Z) (r : regs) (t : nat) : regs :=
  Regs ((rotl 5 (rA r) + ft t (rB r) (rC r) (rD r) + rE r + Wt M 80 t + Kt t) mod 2 ^ 32)
       (rA r) (rotl 30 (rB r)) (rC r) (rD r).

Definition of_list (h : list Z) : regs :=
  Regs (h !!! 0%nat) (h !!! 1%nat) (h !!! 2%nat) (h !!! 3%nat) (h !!! 4%nat).
Definition to_list (r : regs) : list Z := [rA r; rB r; rC r; rD r; rE r].

Definition compress (h : list Z) (M : list Z) : list Z :=
  zip_with (λ a b, (a + b) mod 2 ^ 32) h
    (to_list (fold_left (step M) (seq 0 80) (of_list h))).

Definition H0 : list Z := [0x67452301; 0xEFCDAB89; 0x98BADCFE; 0x10325476; 0xC3D2E1F0].

(** Section 4: a "1" bit, zeros up to 56 modulo 64, the length in bits. *)
Definition pad (m : list Z) : list Z :=
  m ++ [0x80] ++ replicate (Z.to_nat ((55 - Z.of_nat (length m)) mod 64)) 0
    ++ be_bytes 8 (8 * Z.of_nat (length m)).

Definition blocks (n : nat) (l : list Z) : list (list Z) :=
  map (λ i, take 64 (drop (64 * i) l)) (seq 0 n).

Definition sha1 (m : list Z) : list Z :=
  fold_left compress (blocks (length (pad m) / 64) (pad m)) H0.
End Fips.

(** ** The compression function *)

Lemma land_ones32 x : Z.land x 0xFFFFFFFF = x mod 2 ^ 32.
Proof. change 0xFFFFFFFF with (Z.ones 32). by apply Z.land_ones. Qed.

Lemma land_ones32_id x : fits 32 x → Z.land x 0xFFFFFFFF = x.
Proof. intros. rewrite land_ones32. by apply wrap_id. Qed.

Lemma add32_fits a b : fits 32 (a ⊞ b).
Proof. apply wrap_fits. lia. Qed.

(** A bitwise combination of w-bit values is a w-bit value. *)
Lemma testbit_fits w x : 0 ≤ w → 0 ≤ x → (∀ i, w ≤ i → Z.testbit x i = false) → fits w x.
Proof.
  intros Hw H0 Hx. unfold fits. split; [done|].
  assert (x = x mod 2 ^ w) as ->.
  - apply Z.bits_inj'. intros i Hi. destruct (decide (i < w)).
    + by rewrite Z.mod_pow2_bits_low by lia.
    + rewrite Z.mod_pow2_bits_high by lia. apply Hx. lia.
  - apply Z.mod_pos_bound. lia.
Qed.

Lemma lxor_fits w x y : 0 ≤ w → fits w x → fits w y → fits w (Z.lxor x y).
Proof.
  intros Hw Hx Hy. apply testbit_fits; [done| |].
  - apply Z.lxor_nonneg. unfold fits in *. lia.
  - intros i Hi. rewrite Z.lxor_spec, !(fits_testbit w) by done. done.
Qed.

Lemma lor_fits w x y : 0 ≤ w → fits w x → fits w y → fits w (Z.lor x y).
Proof.
  intros Hw Hx Hy. apply testbit_fits; [done| |].
  - apply Z.lor_nonneg. unfold fits in *. lia.
  - intros i Hi. rewrite Z.lor_spec, !(fits_testbit w) by done. done.
Qed.

Lemma CircularShift_rotl n x : 0 < n < 32 → fits 32 x → CircularShift n x = Fips.rotl n x.
Proof.
  intros Hn Hx. unfold CircularShift, Fips.rotl. rewrite (land_ones32_id x) by done.
  rewrite land_ones32, <-Z.shiftl_mul_pow2, <-Z.shiftr_div_pow2 by lia.
  rewrite <-Z.add_nocarry_lor; [done|].
  apply Z.bits_inj'. intros i Hi. rewrite Z.land_spec, Z.bits_0, Z.shiftr_spec by lia.
  destruct (decide (i < n)).
  - rewrite Z.mod_pow2_bits_low, Z.shiftl_spec_low by lia. done.
  - rewrite (fits_testbit 32 x (i + (32 - n))) by (done || lia). apply andb_false_r.
Qed.

Lemma rotl_fits n x : 0 < n < 32 → fits 32 x → fits 32 (Fips.rotl n x).
Proof.
  intros Hn Hx. rewrite <-CircularShift_rotl by done. unfold CircularShift.
  rewrite (land_ones32_id x), land_ones32 by done.
  apply lor_fits; [lia|by apply (wrap_fits 32)|].
  unfold fits in *. rewrite Z.shiftr_div_pow2 by lia.
  assert (0 < 2 ^ (32 - n)) by lia. split; [apply Z.div_pos; lia|].
  apply Z.div_lt_upper_bound; nia.
Qed.

Lemma not32_sub b : fits 32 b → not32 b = 2 ^ 32 - 1 - b.
Proof.
  intros Hb. unfold not32. change 0xFFFFFFFF with (Z.ones 32).
  rewrite Z.sub_nocarry_ldiff.
  - apply Z.bits_inj'. intros i Hi.
    rewrite Z.lxor_spec, Z.ldiff_spec. change (2 ^ 32 - 1) with (Z.ones 32).
    destruct (decide (i < 32)).
    + rewrite Z.ones_spec_low by lia. by destruct (Z.testbit b i).
    + rewrite Z.ones_spec_high, (fits_testbit 32 b) by (done || lia). done.
  - apply Z.bits_inj'. intros i Hi. rewrite Z.ldiff_spec, Z.bits_0.
    change (2 ^ 32 - 1) with (Z.ones 32). destruct (decide (i < 32)).
    + rewrite Z.ones_spec_low by lia. apply andb_false_r.
    + by rewrite (fits_testbit 32 b) by (done || lia).
Qed.

Lemma f0_choice B C D : fits 32 B →
  f0 B C D = Z.lxor (Z.land B C) (Z.land (2 ^ 32 - 1 - B) D).
Proof.
  intros HB. unfold f0. rewrite <-not32_sub by done. unfold not32.
  apply Z.bits_inj'. intros i Hi.
  rewrite Z.lor_spec, Z.lxor_spec, !Z.land_spec, Z.lxor_spec. change 0xFFFFFFFF with (Z.ones 32).
  destruct (decide (i < 32)).
  - rewrite Z.ones_spec_low by lia.
    by destruct (Z.testbit B i), (Z.testbit C i), (Z.testbit D i).
  - rewrite Z.ones_spec_high, (fits_testbit 32 B) by (done || lia). done.
Qed.

Lemma f2_majority B C D :
  f2 B C D = Z.lxor (Z.lxor (Z.land B C) (Z.land B D)) (Z.land C D).
Proof.
  unfold f2. apply Z.bits_inj'. intros i Hi.
  rewrite !Z.lor_spec, !Z.lxor_spec, !Z.land_spec.
  by destruct (Z.testbit B i), (Z.testbit C i), (Z.testbit D i).
Qed.

(** Big-endian words of the block. *)
Lemma lor_bytes a b c d : byte_ok a → byte_ok b → byte_ok c → byte_ok d →
  Z.lor (Z.lor (Z.lor (Z.shiftl a 24) (Z.shiftl b 16)) (Z.shiftl c 8)) d
  = a * 2 ^ 24 + b * 2 ^ 16 + c * 2 ^ 8 + d.
Proof.
  unfold byte_ok. intros.
  rewrite <-!Z.lor_assoc.
  rewrite (lor_shift_add c d 8) by lia.
  rewrite (lor_shift_add b _ 16) by lia.
  rewrite (lor_shift_add a _ 24) by lia. lia.
Qed.

Lemma take4_lookup (M : list Z) t a b c d :
  M !! (t * 4)%nat = Some a → M !! (t * 4 + 1)%nat = Some b →
  M !! (t * 4 + 2)%nat = Some c → M !! (t * 4 + 3)%nat = Some d →
  take 4 (drop (4 * t) M) = [a; b; c; d].
Proof.
  intros Ha Hb Hc Hd. replace (4 * t)%nat with (t * 4)%nat by lia.
  rewrite (drop_S _ _ _ Ha), (drop_S _ b), (drop_S _ c), (drop_S _ d); [done|..].
  - rewrite <-Hd; f_equal; lia.
  - rewrite <-Hc; f_equal; lia.
  - rewrite <-Hb; f_equal; lia.
Qed.

Lemma block_word_spec M t : bytes_ok M → length M = 64%nat → (t < 16)%nat →
  block_word M t = Fips.word M t ∧ fits 32 (Fips.word M t).
Proof.
  intros HM Hl Ht. unfold block_word, Fips.word.
  destruct (lookup_lt_is_Some_2 M (t * 4)) as [a Ha]; [lia|].
  destruct (lookup_lt_is_Some_2 M (t * 4 + 1)) as [b Hb]; [lia|].
  destruct (lookup_lt_is_Some_2 M (t * 4 + 2)) as [c Hc]; [lia|].
  destruct (lookup_lt_is_Some_2 M (t * 4 + 3)) as [d Hd]; [lia|].
  rewrite (take4_lookup M t a b c d) by done.
  erewrite !list_lookup_total_correct by eassumption.
  pose proof (bytes_ok_lookup _ _ _ HM Ha). pose proof (bytes_ok_lookup _ _ _ HM Hb).
  pose proof (bytes_ok_lookup _ _ _ HM Hc). pose proof (bytes_ok_lookup _ _ _ HM Hd).
  rewrite lor_bytes by done. unfold be_val. simpl. unfold byte_ok, fits in *. lia.
Qed.

(** The message schedule. *)
Lemma Wt_unfold M f t : Fips.Wt M (S f) t =
  if Nat.ltb t 16 then Fips.word M t
  else Fips.rotl 1 (Z.lxor (Z.lxor (Z.lxor (Fips.Wt M f (t - 3)) (Fips.Wt M f (t - 8)))
                                   (Fips.Wt M f (t - 14))) (Fips.Wt M f (t - 16))).
Proof. reflexivity. Qed.

#[local] Opaque Fips.Wt.

Lemma Wt_fuel M f : ∀ f' t, (t < f)%nat → (t < f')%nat → Fips.Wt M f t = Fips.Wt M f' t.
Proof.
  induction f as [|f IH]; intros f' t Hf Hf'; [lia|].
  destruct f' as [|f']; [lia|]. rewrite !Wt_unfold. destruct (Nat.ltb_spec t 16); [done|].
  by rewrite !(IH f') by lia.
Qed.

Lemma Wt_step M t : (16 ≤ t < 80)%nat → Fips.Wt M 80 t =
  Fips.rotl 1 (Z.lxor (Z.lxor (Z.lxor (Fips.Wt M 80 (t - 3)) (Fips.Wt M 80 (t - 8)))
    (Fips.Wt M 80 (t - 14))) (Fips.Wt M 80 (t - 16))).
Proof.
  intros Ht. rewrite (Wt_fuel M 80 81) at 1 by lia. change 81%nat with (S 80). rewrite Wt_unfold.
  destruct (Nat.ltb_spec t 16); [lia|done].
Qed.

Definition schedule_ok (M W : list Z) (n : nat) : Prop :=
  length W = n ∧
  ∀ t, (t < n)%nat → W !!! t = Fips.Wt M 80 t ∧ fits 32 (Fips.Wt M 80 t).

Lemma expand_step_ok M W n : (16 ≤ n < 80)%nat →
  schedule_ok M W n → schedule_ok M (expand_step W n) (S n).
Proof.
  intros Hn [Hl HW]. unfold expand_step.
  destruct (HW (n - 3)%nat) as [E3 F3]; [lia|]. destruct (HW (n - 8)%nat) as [E8 F8]; [lia|].
  destruct (HW (n - 14)%nat) as [E14 F14]; [lia|]. destruct (HW (n - 16)%nat) as [E16 F16]; [lia|].
  rewrite E3, E8, E14, E16.
  assert (fits 32 (Z.lxor (Z.lxor (Z.lxor (Fips.Wt M 80 (n - 3)) (Fips.Wt M 80 (n - 8)))
    (Fips.Wt M 80 (n - 14))) (Fips.Wt M 80 (n - 16)))) as Hf
    by (revert F3 F8 F14 F16; clear; generalize (Fips.Wt M 80); intros w ????;
        repeat (apply lxor_fits; [lia| |]); done).
  split; [rewrite length_app; simpl; lia|]. intros t Ht.
  destruct (decide (t = n)) as [->|Hne].
  - rewrite lookup_total_app_r, Hl, Nat.sub_diag by lia. simpl.
    rewrite (Wt_step M n), CircularShift_rotl by (exact Hf || lia).
    split; [reflexivity|]. apply rotl_fits; [lia|exact Hf].
  - rewrite lookup_total_app_l by lia. apply HW. lia.
Qed.

Lemma expand_ok M W n : (n ≤ 64)%nat → schedule_ok M W 16 →
  schedule_ok M (fold_left expand_step (seq 16 n) W) (16 + n).
Proof.
  induction n as [|n IH]; intros Hn HW; [done|].
  rewrite seq_S, fold_left_app. replace (16 + S n)%nat with (S (16 + n)) by lia.
  apply expand_step_ok; [lia|]. apply IH; [lia|done].
Qed.

Lemma schedule_spec M : bytes_ok M → length M = 64%nat → schedule_ok M (schedule M) 80.
Proof.
  intros HM Hl. unfold schedule. apply (expand_ok M _ 64); [done|].
  split; [done|]. intros t Ht.
  destruct (block_word_spec M t HM Hl Ht) as [E F].
  assert (Fips.Wt M 80 t = Fips.word M t) as ->.
  { change 80%nat with (S 79). rewrite Wt_unfold. by destruct (Nat.ltb_spec t 16); [|lia]. }
  split; [|done]. rewrite <-E. apply list_lookup_total_correct.
  change (map (block_word M) (seq 0 16)) with (block_word M <$> seq 0 16).
  by rewrite list_lookup_fmap, lookup_seq_lt by lia.
Qed.

(** The rounds. *)
Definition regs_ok (r : regs) : Prop :=
  fits 32 (rA r) ∧ fits 32 (rB r) ∧ fits 32 (rC r) ∧ fits 32 (rD r) ∧ fits 32 (rE r).

Lemma add32_chain a b c d e : a ⊞ b ⊞ c ⊞ d ⊞ e = (a + b + c + d + e) mod 2 ^ 32.
Proof.
  unfold add32, u32. rewrite wrap_add_l.
  rewrite <-(Z.add_assoc (wrap 32 _)), wrap_add_l, Z.add_assoc.
  rewrite <-!(Z.add_assoc (wrap 32 _)), wrap_add_l, !Z.add_assoc. reflexivity.
Qed.

Lemma round_step M W f k r t :
  schedule_ok M W 80 → (t < 80)%nat → regs_ok r →
  (∀ B C D, fits 32 B → f B C D = Fips.ft t B C D) → k = Fips.Kt t →
  round f k W r t = Fips.step M r t ∧ regs_ok (round f k W r t).
Proof.
  intros [_ HW] Ht (HA & HB & HC & HD & HE) Hf ->. destruct (HW t Ht) as [EW FW].
  assert (round f (Fips.Kt t) W r t = Fips.step M r t) as ->.
  { unfold round, Fips.step.
    by rewrite add32_chain, EW, !CircularShift_rotl, Hf, land_ones32_id
      by (done || lia || by apply (wrap_fits 32)). }
  split; [done|]. unfold Fips.step, regs_ok; simpl.
  split_and!; try done; [by apply (wrap_fits 32)|by apply rotl_fits].
Qed.

Lemma fold_left_seq_ext {A} (f g : A → nat → A) (P : A → Prop) a n : ∀ x,
  (∀ x t, (a ≤ t < a + n)%nat → P x → f x t = g x t ∧ P (f x t)) → P x →
  fold_left f (seq a n) x = fold_left g (seq a n) x ∧ P (fold_left f (seq a n) x).
Proof.
  revert a. induction n as [|n IH]; intros a x Hfg Hx; simpl; [done|].
  destruct (Hfg x a) as [<- Hp]; [lia|done|].
  apply IH; [|done]. intros y t Ht. apply Hfg. lia.
Qed.

Lemma run_rounds_spec M W r : schedule_ok M W 80 → regs_ok r →
  run_rounds W r = fold_left (Fips.step M) (seq 0 80) r ∧ regs_ok (run_rounds W r).
Proof.
  intros HW Hr. unfold run_rounds.
  change (seq 0 80) with (seq 0 20 ++ seq 20 20 ++ seq 40 20 ++ seq 60 20).
  rewrite !fold_left_app.
  pose proof (λ a f k r, fold_left_seq_ext (round f k W) (Fips.step M) regs_ok a 20 r) as Hext.
  destruct (Hext 0%nat f0 0x5A827999 r) as [E0 H0]; [|done|].
  { intros x t Ht Hx. apply round_step; try done; [lia|..]; unfold Fips.ft, Fips.Kt;
      (destruct (Nat.ltb_spec t 20); [|lia]); [apply f0_choice|done]. }
  rewrite <-E0.
  edestruct (Hext 20%nat f1 0x6ED9EBA1) as [E1 H1]; [|exact H0|].
  { intros x t Ht Hx. apply round_step; try done; [lia|..]; unfold Fips.ft, Fips.Kt;
      (destruct (Nat.ltb_spec t 20); [lia|]); (destruct (Nat.ltb_spec t 40); [|lia]); done. }
  rewrite <-E1.
  edestruct (Hext 40%nat f2 0x8F1BBCDC) as [E2 H2]; [|exact H1|].
  { intros x t Ht Hx. apply round_step; try done; [lia|..]; unfold Fips.ft, Fips.Kt;
      (destruct (Nat.ltb_spec t 20); [lia|]); (destruct (Nat.ltb_spec t 40); [lia|]);
      (destruct (Nat.ltb_spec t 60); [|lia]); [intros; apply f2_majority|done]. }
  rewrite <-E2.
  apply (Hext 60%nat f1 0xCA62C1D6); [|exact H2].
  intros x t Ht Hx. apply round_step; try done; [lia|..]; unfold Fips.ft, Fips.Kt;
    (destruct (Nat.ltb_spec t 20); [lia|]); (destruct (Nat.ltb_spec t 40); [lia|]);
    (destruct (Nat.ltb_spec t 60); [lia|]); done.
Qed.

Definition h_ok (h : list Z) : Prop := length h = 5%nat ∧ Forall (fits 32) h.

Lemma compress_ok h M : h_ok h → h_ok (Fips.compress h M).
Proof.
  intros [Hl _]. unfold Fips.compress.
  generalize (fold_left (Fips.step M) (seq 0 80) (Fips.of_list h)). intros r.
  destruct h as [|a [|b [|c [|d [|e [|]]]]]]; try discriminate.
  split; [done|]. repeat constructor; by apply (wrap_fits 32).
Qed.

Lemma final_addition h r : length h = 5%nat →
  [Z.land (h !!! 0%nat ⊞ rA r) 0xFFFFFFFF; Z.land (h !!! 1%nat ⊞ rB r) 0xFFFFFFFF;
   Z.land (h !!! 2%nat ⊞ rC r) 0xFFFFFFFF; Z.land (h !!! 3%nat ⊞ rD r) 0xFFFFFFFF;
   Z.land (h !!! 4%nat ⊞ rE r) 0xFFFFFFFF]
  = zip_with (λ a b, (a + b) mod 2 ^ 32) h (Fips.to_list r).
Proof.
  intros Hl. destruct h as [|a [|b [|c [|d [|e [|]]]]]]; try discriminate.
  by rewrite !land_ones32_id by apply add32_fits.
Qed.

Lemma regs_ok_of_list h : h_ok h → regs_ok (Fips.of_list h).
Proof.
  intros [Hl Hf]. destruct h as [|a [|b [|c [|d [|e [|]]]]]]; try discriminate.
  rewrite !Forall_cons in Hf. destruct Hf as (?&?&?&?&?&_). done.
Qed.

Lemma ProcessMessageBlock_compress s :
  h_ok (H s) → bytes_ok (Message_Block s) → length (Message_Block s) = 64%nat →
  H (ProcessMessageBlock s) = Fips.compress (H s) (Message_Block s).
Proof.
  intros Hh Hb Hm. unfold ProcessMessageBlock, Fips.compress. cbn [H].
  rewrite final_addition by apply Hh. do 2 f_equal.
  apply run_rounds_spec; [by apply schedule_spec|by apply regs_ok_of_list].
Qed.

(** ** The block being filled *)

(** The first [length l] bytes of the block are [l]. *)
Definition filled (s : SHA1) (l : list Z) : Prop :=
  length (Message_Block s) = 64%nat ∧ bytes_ok (Message_Block s) ∧
  Message_Block_Index s = length l ∧ take (length l) (Message_Block s) = l.

Lemma filled_full s l : filled s l → length l = 64%nat → Message_Block s = l.
Proof. intros (Hm & _ & _ & Ht) Hl. by rewrite <-Ht, take_ge by lia. Qed.

Lemma put_filled s l b : filled s l → (length l < 64)%nat → byte_ok b →
  filled (put s b) (l ++ [b]).
Proof.
  intros (Hm & Hb & Hi & Ht) Hl Hbb. unfold filled, put; simpl.
  rewrite length_insert, length_app. simpl. split_and!; [done| |lia|].
  - by apply Forall_insert.
  - rewrite Hi, Nat.add_1_r.
    rewrite (take_S_r _ _ b) by (rewrite list_lookup_insert_eq; [done|lia]).
    rewrite take_insert, Ht. destruct (decide _); [lia|done].
Qed.

(** The fields a [put] leaves alone. *)
Definition same_rest (s s' : SHA1) : Prop :=
  H s' = H s ∧ Length_Low s' = Length_Low s ∧ Length_High s' = Length_High s ∧
  Computed s' = Computed s ∧ Corrupted s' = Corrupted s.

Lemma zero_until_filled n s l : filled s l → (length l ≤ n ≤ 64)%nat →
  filled (zero_until n s) (l ++ replicate (n - length l) 0) ∧ same_rest s (zero_until n s).
Proof.
  intros Hf Hn. unfold zero_until. rewrite (proj1 (proj2 (proj2 Hf))).
  assert (n - length l ≤ 64 - length l)%nat as Hk by lia.
  revert Hk. generalize (n - length l)%nat as k. induction k as [|k IH]; intros Hk; simpl.
  - by rewrite app_nil_r.
  - destruct IH as [IHf IHr]; [lia|]. split; [|done].
    change (0 :: replicate k 0) with (replicate (S k) 0).
    rewrite replicate_S_end, app_assoc. apply put_filled; [done| |].
    + rewrite length_app, length_replicate. lia.
    + unfold byte_ok. lia.
Qed.

Lemma ProcessMessageBlock_filled s : filled s (Message_Block s) →
  filled (ProcessMessageBlock s) [].
Proof. intros (? & ? & _ & _). done. Qed.

Lemma length_bytes w : fits 32 w →
  [Z.land (Z.shiftr w 24) 0xFF; Z.land (Z.shiftr w 16) 0xFF;
   Z.land (Z.shiftr w 8) 0xFF; Z.land (Z.shiftr w 0) 0xFF] = be_bytes 4 w.
Proof.
  intros Hw. change 0xFF with (Z.ones 8). rewrite !Z.land_ones, !Z.shiftr_div_pow2 by lia.
  unfold be_bytes. simpl. rewrite Z.div_1_r.
  change (2 ^ 16) with (256 * 256). change (2 ^ 24) with (256 * 256 * 256).
  change (2 ^ 8) with 256. by rewrite !Z.div_div by lia.
Qed.

Lemma store_length_block s l : filled s l → length l = 56%nat →
  fits 32 (Length_High s) → fits 32 (Length_Low s) →
  Message_Block (store_length s) = l ++ be_bytes 4 (Length_High s) ++ be_bytes 4 (Length_Low s).
Proof.
  intros (Hm & Hb & Hi & Ht) Hl Hh Hw. unfold store_length. cbn [Message_Block].
  rewrite <-(length_bytes (Length_High s)), <-(length_bytes (Length_Low s)) by done.
  rewrite Hl in Ht. rewrite <-(take_drop 56 (Message_Block s)), Ht.
  assert (length (drop 56 (Message_Block s)) = 8%nat) as Hd by (rewrite length_drop; lia).
  destruct (drop 56 (Message_Block s)) as [|? [|? [|? [|? [|? [|? [|? [|? [|]]]]]]]]]; try done.
  cbn [fold_left]. rewrite !insert_app_r_alt by lia. by rewrite Hl.
Qed.

(** ** Absorbing a message *)

(** The state words after the full blocks of [m]. *)
Definition hash_blocks (n : nat) (m : list Z) : list Z :=
  fold_left Fips.compress (Fips.blocks n m) Fips.H0.

Lemma hash_blocks_ok n m : h_ok (hash_blocks n m).
Proof.
  unfold hash_blocks. assert (h_ok Fips.H0) as Hk.
  { split; [done|]. unfold Fips.H0, fits. repeat constructor; lia. }
  revert Hk. generalize Fips.H0. induction (Fips.blocks n m) as [|M l IH]; simpl; [done|].
  intros h Hh. by apply IH, compress_ok.
Qed.

Lemma hash_blocks_prefix n m x : (64 * n ≤ length m)%nat →
  hash_blocks n (m ++ x) = hash_blocks n m.
Proof.
  intros Hn. unfold hash_blocks. f_equal. unfold Fips.blocks. apply map_ext_in.
  intros i Hi%in_seq. rewrite drop_app_le by lia.
  rewrite take_app_le; [done|]. rewrite length_drop. lia.
Qed.

Lemma hash_blocks_snoc n m M : length m = (64 * n)%nat → length M = 64%nat →
  hash_blocks (S n) (m ++ M) = Fips.compress (hash_blocks n m) M.
Proof.
  intros Hm HM. rewrite <-(hash_blocks_prefix n m M) by lia.
  unfold hash_blocks, Fips.blocks.
  rewrite seq_S, map_app, fold_left_app. cbn [map fold_left].
  assert (take 64 (drop (64 * (0 + n)) (m ++ M)) = M) as ->; [|reflexivity].
  replace (64 * (0 + n))%nat with (length m) by lia. rewrite drop_app_length. apply take_ge; lia.
Qed.

(** [absorbed s m]: [s] has taken in the bytes [m] since [Reset]. *)
Record absorbed (s : SHA1) (m : list Z) : Prop := {
  ab_hash : H s = hash_blocks (length m / 64) m;
  ab_filled : filled s (drop (64 * (length m / 64)) m);
  ab_low : Length_Low s = (8 * Z.of_nat (length m)) mod 2 ^ 32;
  ab_high : Length_High s = (8 * Z.of_nat (length m)) / 2 ^ 32;
  ab_computed : Computed s = false;
  ab_corrupted : Corrupted s = false
}.

Lemma absorbed_Reset s : length (Message_Block s) = 64%nat → bytes_ok (Message_Block s) →
  absorbed (Reset s) [].
Proof. intros Hl Hb. constructor; [reflexivity|by unfold filled|reflexivity..]. Qed.

Lemma count8_absorbed n s : 8 * Z.of_nat (S n) < 2 ^ 64 →
  Length_Low s = (8 * Z.of_nat n) mod 2 ^ 32 → Length_High s = (8 * Z.of_nat n) / 2 ^ 32 →
  Length_Low (count8 s) = (8 * Z.of_nat (S n)) mod 2 ^ 32 ∧
  Length_High (count8 s) = (8 * Z.of_nat (S n)) / 2 ^ 32 ∧
  Corrupted (count8 s) = Corrupted s.
Proof.
  intros Hn Hl Hh. unfold count8; simpl. rewrite !land_ones32, Hl, Hh.
  unfold u32, wrap. rewrite !Zmod_mod, Zplus_mod_idemp_l.
  replace (8 * Z.of_nat n + 8) with (8 * Z.of_nat (S n)) by lia.
  split; [done|]. set (N := 8 * Z.of_nat (S n)) in *.
  replace (8 * Z.of_nat n) with (N - 8) by lia.
  assert (N = 8 * (N / 8)) as HN8 by (subst N; dlia).
  destruct (Z.eqb_spec (N mod 2 ^ 32) 0) as [E|E]; simpl; [|split; [dlia|done]].
  assert ((N - 8) / 2 ^ 32 = N / 2 ^ 32 - 1) as -> by dlia.
  assert (1 ≤ N / 2 ^ 32 < 2 ^ 32) by dlia.
  rewrite Z.mod_small by lia. split; [lia|].
  destruct (Z.eqb_spec (N / 2 ^ 32 - 1 + 1) 0); [lia|done].
Qed.

Lemma land_ff b : byte_ok b → Z.land b 0xFF = b.
Proof.
  intros. change 0xFF with (Z.ones 8). rewrite Z.land_ones by lia. by apply (wrap_id 8).
Qed.

Lemma length_tail (m : list Z) :
  length (drop (64 * (length m / 64)) m) = (length m mod 64)%nat.
Proof. rewrite length_drop, Nat.Div0.mod_eq. done. Qed.

(** A step that completes a block compresses it. *)
Lemma hash_complete m M q : (64 * q ≤ length m)%nat →
  length M = 64%nat → m = take (64 * q) m ++ M →
  hash_blocks (S q) m = Fips.compress (hash_blocks q m) M.
Proof.
  intros Hq HM Hm. rewrite Hm at 1. rewrite hash_blocks_snoc; [|rewrite length_take; lia|done].
  assert (hash_blocks q (take (64 * q) m) = hash_blocks q m) as ->; [|reflexivity].
  rewrite <-(take_drop (64 * q) m) at 2.
  rewrite hash_blocks_prefix; [reflexivity|]. rewrite length_take. lia.
Qed.

Lemma input_byte_absorbed s m b : absorbed s m → byte_ok b →
  8 * Z.of_nat (S (length m)) < 2 ^ 64 → absorbed (input_byte s b) (m ++ [b]).
Proof.
  intros [Hh Hf Hlo Hhi Hc Hco] Hb Hn.
  pose proof (length_tail m) as Htl. pose proof (Nat.mod_upper_bound (length m) 64 ltac:(lia)).
  pose proof (Nat.div_mod_eq (length m) 64) as Hdm.
  destruct (count8_absorbed (length m) (put s b) Hn Hlo Hhi) as (Elo & Ehi & Eco).
  pose proof (put_filled _ _ b Hf ltac:(lia) Hb) as Hp.
  assert (length (m ++ [b]) = S (length m)) as Hl' by (rewrite length_app; simpl; lia).
  set (q := (length m / 64)%nat) in *.
  assert (m ++ [b] = take (64 * q) (m ++ [b]) ++ (drop (64 * q) m ++ [b])) as Hsplit.
  { rewrite take_app_le by lia. by rewrite app_assoc, take_drop. }
  unfold input_byte. rewrite land_ff by done.
  assert (filled (count8 (put s b)) (drop (64 * q) m ++ [b])) as Hp' by exact Hp.
  assert (Message_Block_Index (count8 (put s b)) = S (length m mod 64)) as ->.
  { destruct Hp' as (_ & _ & -> & _). rewrite length_app, Htl. cbn [length]. lia. }
  destruct (Nat.eqb_spec (S (length m mod 64)) 64) as [E|E].
  - assert (length (drop (64 * q) m ++ [b]) = 64%nat) as H64
      by (rewrite length_app, Htl; cbn [length]; lia).
    pose proof (filled_full _ _ Hp' H64) as Hmb.
    assert (length (m ++ [b]) / 64 = S q)%nat as Eq.
    { rewrite Hl'. symmetry. apply (Nat.div_unique _ 64 _ 0); lia. }
    constructor; rewrite ?Eq, ?Hl'; [..|exact Elo|exact Ehi|exact Hc|exact (eq_trans Eco Hco)].
    + rewrite ProcessMessageBlock_compress, Hmb.
      * rewrite (hash_complete (m ++ [b]) _ q ltac:(lia) H64 Hsplit), hash_blocks_prefix by lia.
        change (H (count8 (put s b))) with (H s). rewrite Hh. reflexivity.
      * change (H (count8 (put s b))) with (H s). rewrite Hh. apply hash_blocks_ok.
      * apply Hp'.
      * apply Hp'.
    + rewrite drop_ge by lia. apply ProcessMessageBlock_filled.
      split_and!; [apply Hp'|apply Hp'| |].
      * destruct Hp' as (_ & _ & -> & _). by rewrite H64, Hmb.
      * by rewrite take_ge.
  - assert (length (m ++ [b]) / 64 = q)%nat as Eq.
    { rewrite Hl'. symmetry. apply (Nat.div_unique _ 64 _ (S (length m mod 64))); lia. }
    constructor; rewrite ?Eq, ?Hl'; [..|exact Elo|exact Ehi|exact Hc|exact (eq_trans Eco Hco)].
    + rewrite hash_blocks_prefix by lia. exact Hh.
    + rewrite drop_app_le by lia. exact Hp'.
Qed.

(** ** Padding *)

Lemma be_bytes_8_split z : be_bytes 8 z = be_bytes 4 (z / 2 ^ 32) ++ be_bytes 4 (z mod 2 ^ 32).
Proof.
  unfold be_bytes. rewrite <-reverse_app. f_equal.
  change 8%nat with (4 + 4)%nat. rewrite le_bytes_add.
  rewrite <-(le_bytes_mod 4 z) at 1. reflexivity.
Qed.

Lemma filled_store_length s l : filled s l → length l = 56%nat →
  fits 32 (Length_High s) → fits 32 (Length_Low s) → h_ok (H s) →
  H (ProcessMessageBlock (store_length s))
  = Fips.compress (H s) (l ++ be_bytes 4 (Length_High s) ++ be_bytes 4 (Length_Low s)).
Proof.
  intros Hf Hl Hh Hw Ho. pose proof (store_length_block s l Hf Hl Hh Hw) as E.
  rewrite ProcessMessageBlock_compress; rewrite ?E.
  - reflexivity.
  - exact Ho.
  - rewrite !bytes_ok_app. split_and!; [|auto with bundle..].
    destruct Hf as (_ & Hb & _ & <-). by apply Forall_take.
  - autorewrite with bundle. lia.
Qed.

Lemma length_pad_mod m : exists k, length (Fips.pad m) = (64 * k)%nat.
Proof.
  exists (Z.to_nat ((Z.of_nat (length m) + 9 + (55 - Z.of_nat (length m)) mod 64) / 64)).
  unfold Fips.pad. autorewrite with bundle. cbn [length]. dlia.
Qed.

Lemma mod64_Z n : Z.of_nat (n mod 64) = Z.of_nat n mod 64.
Proof. apply Nat2Z.inj_mod. Qed.

(** The pad of one or two last blocks. *)
Lemma pad_short m : (length m mod 64 ≤ 55)%nat →
  Fips.pad m = take (64 * (length m / 64)) m ++
    ((drop (64 * (length m / 64)) m ++ [0x80]) ++ replicate (55 - length m mod 64) 0
       ++ be_bytes 8 (8 * Z.of_nat (length m))).
Proof.
  intros Hr. rewrite <-!app_assoc, app_assoc, take_drop. unfold Fips.pad.
  replace (Z.to_nat ((55 - Z.of_nat (length m)) mod 64)) with (55 - length m mod 64)%nat; [done|].
  pose proof (mod64_Z (length m)) as Hz. revert Hr Hz. generalize (length m mod 64)%nat. intros. dlia.
Qed.

Lemma pad_long m : (56 ≤ length m mod 64)%nat →
  Fips.pad m = take (64 * (length m / 64)) m ++
    ((drop (64 * (length m / 64)) m ++ [0x80]) ++ replicate (63 - length m mod 64) 0)
      ++ (replicate 56 0 ++ be_bytes 8 (8 * Z.of_nat (length m))).
Proof.
  intros Hr. rewrite <-!app_assoc, app_assoc, take_drop. unfold Fips.pad.
  replace (Z.to_nat ((55 - Z.of_nat (length m)) mod 64)) with (63 - length m mod 64 + 56)%nat
    by (pose proof (mod64_Z (length m)) as Hz; revert Hr Hz; generalize (length m mod 64)%nat;
        intros; dlia).
  by rewrite replicate_add, <-app_assoc.
Qed.

Lemma sha1_pad m P n : Fips.pad m = P → length P = (64 * n)%nat →
  Fips.sha1 m = hash_blocks n P.
Proof.
  intros HP Hn. unfold Fips.sha1, hash_blocks. rewrite HP, Hn.
  by replace (64 * n / 64)%nat with n by (rewrite Nat.mul_comm, Nat.div_mul; lia).
Qed.

Lemma hash_prefix_take m : hash_blocks (length m / 64) (take (64 * (length m / 64)) m)
  = hash_blocks (length m / 64) m.
Proof.
  pose proof (Nat.div_mod_eq (length m) 64).
  rewrite <-(take_drop (64 * (length m / 64)) m) at 5.
  rewrite hash_blocks_prefix; [reflexivity|]. rewrite length_take. lia.
Qed.

Lemma length_take_full (m : list Z) :
  length (take (64 * (length m / 64)) m) = (64 * (length m / 64))%nat.
Proof. pose proof (Nat.div_mod_eq (length m) 64). rewrite length_take. lia. Qed.

(** The block with the length: [l] followed by the message length in bits. *)
Lemma last_block s (m l : list Z) : filled s l → length l = 56%nat → h_ok (H s) →
  Length_Low s = (8 * Z.of_nat (length m)) mod 2 ^ 32 →
  Length_High s = (8 * Z.of_nat (length m)) / 2 ^ 32 → 8 * Z.of_nat (length m) < 2 ^ 64 →
  H (ProcessMessageBlock (store_length s))
  = Fips.compress (H s) (l ++ be_bytes 8 (8 * Z.of_nat (length m))).
Proof.
  intros Hf Hl Ho Elo Ehi Hn.
  rewrite (filled_store_length s l), Elo, Ehi; [by rewrite be_bytes_8_split|done..| | |done];
    rewrite ?Elo, ?Ehi; unfold fits; dlia.
Qed.

Lemma pad_start s m : absorbed s m →
  filled (put s 0x80) (drop (64 * (length m / 64)) m ++ [0x80]) ∧
  length (drop (64 * (length m / 64)) m ++ [0x80]) = S (length m mod 64) ∧
  Message_Block_Index s = (length m mod 64)%nat ∧ (length m mod 64 < 64)%nat.
Proof.
  intros [_ Hf _ _ _ _]. pose proof (length_tail m) as Htl.
  pose proof (Nat.mod_upper_bound (length m) 64 ltac:(lia)).
  split_and!; [|rewrite length_app, Htl; cbn [length]; lia| |done].
  - apply put_filled; [done|lia|unfold byte_ok; lia].
  - destruct Hf as (_ & _ & -> & _). done.
Qed.

Ltac pad_len := rewrite ?length_app, ?length_take_full, ?length_tail, ?length_replicate,
  ?length_be_bytes; cbn [length]; lia.

Lemma PadMessage_short s m : absorbed s m → 8 * Z.of_nat (length m) < 2 ^ 64 →
  (length m mod 64 ≤ 55)%nat → H (PadMessage s) = Fips.sha1 m.
Proof.
  intros Ha Hn Hr. destruct (pad_start s m Ha) as (Hp & Hpl & Hi & _).
  destruct Ha as [Hh _ Hlo Hhi _ _]. unfold PadMessage. rewrite Hi.
  destruct (Nat.ltb_spec 55 (length m mod 64)); [lia|].
  destruct (zero_until_filled 56 _ _ Hp ltac:(lia)) as [Hz (Ez1 & Ez2 & Ez3 & _)].
  rewrite Hpl in Hz.
  assert (length ((drop (64 * (length m / 64)) m ++ [0x80]) ++ replicate (56 - S (length m mod 64)) 0)
    = 56%nat) as Hl56 by (rewrite length_app, Hpl, length_replicate; lia).
  rewrite (last_block _ m _ Hz Hl56); [|rewrite Ez1; simpl; rewrite Hh; apply hash_blocks_ok
    |by rewrite Ez2|by rewrite Ez3|done].
  rewrite Ez1. change (H (put s 0x80)) with (H s). rewrite Hh, <-hash_prefix_take.
  rewrite (sha1_pad m _ (S (length m / 64)) (pad_short m Hr)), hash_blocks_snoc.
  - rewrite <-app_assoc. reflexivity.
  - apply length_take_full.
  - pad_len.
  - pad_len.
Qed.

Lemma PadMessage_long s m : absorbed s m → 8 * Z.of_nat (length m) < 2 ^ 64 →
  (56 ≤ length m mod 64)%nat → H (PadMessage s) = Fips.sha1 m.
Proof.
  intros Ha Hn Hr. destruct (pad_start s m Ha) as (Hp & Hpl & Hi & Hlt).
  destruct Ha as [Hh _ Hlo Hhi _ _]. unfold PadMessage. rewrite Hi.
  destruct (Nat.ltb_spec 55 (length m mod 64)); [|lia].
  destruct (zero_until_filled 64 _ _ Hp ltac:(lia)) as [Hz (Ez1 & Ez2 & Ez3 & _)].
  rewrite Hpl in Hz. change (64 - S (length m mod 64))%nat with (63 - length m mod 64)%nat in Hz.
  set (B := (drop (64 * (length m / 64)) m ++ [0x80]) ++ replicate (63 - length m mod 64) 0) in *.
  assert (length B = 64%nat) as HB by (unfold B; rewrite length_app, Hpl, length_replicate; lia).
  pose proof (filled_full _ _ Hz HB) as Hmb.
  pose proof (ProcessMessageBlock_filled (zero_until 64 (put s 0x80))
    ltac:(by rewrite Hmb)) as Hp2.
  assert (H (ProcessMessageBlock (zero_until 64 (put s 0x80)))
    = Fips.compress (hash_blocks (length m / 64) m) B) as EH.
  { rewrite ProcessMessageBlock_compress, Ez1, Hmb; [|..|apply Hz|apply Hz].
    - rewrite <-Hh. reflexivity.
    - rewrite Ez1; cbn [H put]; rewrite Hh. apply hash_blocks_ok. }
  destruct (zero_until_filled 56 _ _ Hp2 ltac:(simpl; lia)) as [Hy (Ey1 & Ey2 & Ey3 & _)].
  rewrite (last_block _ m _ Hy); [|done|rewrite Ey1, EH; apply compress_ok, hash_blocks_ok
    |rewrite Ey2; exact (eq_trans Ez2 Hlo)|rewrite Ey3; exact (eq_trans Ez3 Hhi)|done].
  rewrite Ey1, EH, <-hash_prefix_take.
  rewrite (sha1_pad m _ (S (S (length m / 64))) (pad_long m Hr)); [|fold B; rewrite ?length_app, ?HB; pad_len].
  fold B. rewrite app_assoc, !hash_blocks_snoc; [reflexivity|apply length_take_full|done|..].
  all: rewrite ?length_app, ?HB; pad_len.
Qed.

Lemma PadMessage_sha1 s m : absorbed s m → 8 * Z.of_nat (length m) < 2 ^ 64 →
  H (PadMessage s) = Fips.sha1 m.
Proof.
  intros. destruct (decide (length m mod 64 ≤ 55)%nat);
    [by apply PadMessage_short|apply PadMessage_long; [done|done|lia]].
Qed.

(** ** Input *)

Lemma input_loop_absorbed c : ∀ s m, absorbed s m → bytes_ok c →
  8 * Z.of_nat (length (m ++ c)) < 2 ^ 64 → absorbed (input_loop s c) (m ++ c).
Proof.
  induction c as [|b c IH]; intros s m Ha Hc Hn; simpl; [by rewrite app_nil_r|].
  rewrite (ab_corrupted s m Ha). apply Forall_cons in Hc as [Hb Hc].
  rewrite length_app in Hn. cbn [length] in Hn.
  change (b :: c) with ([b] ++ c). rewrite app_assoc. apply IH; [|done|].
  - apply input_byte_absorbed; [done|done|lia].
  - rewrite !length_app. cbn [length]. lia.
Qed.

Lemma Input_absorbed s m c : absorbed s m → bytes_ok c →
  8 * Z.of_nat (length (m ++ c)) < 2 ^ 64 → absorbed (Input s c) (m ++ c).
Proof.
  intros Ha Hc Hn. unfold Input. destruct c as [|b c]; [by rewrite app_nil_r|].
  rewrite (ab_computed s m Ha), (ab_corrupted s m Ha). by apply input_loop_absorbed.
Qed.

Lemma Inputs_absorbed chunks : ∀ s m, absorbed s m → Forall bytes_ok chunks →
  8 * Z.of_nat (length (m ++ concat chunks)) < 2 ^ 64 →
  absorbed (fold_left Input chunks s) (m ++ concat chunks).
Proof.
  induction chunks as [|c cs IH]; intros s m Ha Hc Hn; simpl; [by rewrite app_nil_r|].
  apply Forall_cons in Hc as [Hb Hc]. simpl in Hn. rewrite app_assoc in *.
  apply IH; [|done|done]. apply Input_absorbed; [done|done|].
  rewrite length_app in Hn. lia.
Qed.

Lemma Result_absorbed s m : absorbed s m → 8 * Z.of_nat (length m) < 2 ^ 64 →
  snd (Result s) = Some (Fips.sha1 m).
Proof.
  intros Ha Hn. unfold Result. rewrite (ab_corrupted _ _ Ha), (ab_computed _ _ Ha). cbn [snd].
  f_equal. by apply (PadMessage_sha1 _ m).
Qed.

(** C3 (refinement): an object that is [Reset] (whatever its block held before), fed a
    message in any split into [Input] calls and asked for its [Result], returns the
    FIPS 180-1 digest of the whole message, as long as the message is below 2^64 bits. *)
Theorem sha1_refines_fips s chunks :
  length (Message_Block s) = 64%nat → bytes_ok (Message_Block s) →
  Forall bytes_ok chunks → 8 * Z.of_nat (length (concat chunks)) < 2 ^ 64 →
  snd (Result (fold_left Input chunks (Reset s))) = Some (Fips.sha1 (concat chunks)).
Proof.
  intros Hl Hb Hc Hn. apply Result_absorbed; [|done].
  exact (Inputs_absorbed chunks (Reset s) [] (absorbed_Reset s Hl Hb) Hc Hn).
Qed.

Lemma sha1_refines_fips_witness :
  snd (Result (fold_left Input [str "ab"; []; str "c"] (Reset blank)))
  = Some (Fips.sha1 (str "abc")).
Proof.
  apply (sha1_refines_fips blank [str "ab"; []; str "c"]); [reflexivity| | |reflexivity].
  - apply bytes_ok_replicate. unfold byte_ok. lia.
  - apply (bool_decide_unpack _). vm_compute. exact I.
Defined.

(** The object's invariant, kept by every method. *)
Definition sha1_ok (s : SHA1) : Prop :=
  length (H s) = 5%nat ∧ Forall (fits 32) (H s) ∧ fits 32 (Length_Low s) ∧
  fits 32 (Length_High s) ∧ length (Message_Block s) = 64%nat ∧
  bytes_ok (Message_Block s) ∧ (Message_Block_Index s < 64)%nat.

(** Once the digest was computed, feeding more bytes corrupts the object: the
    next [Result] fails, and keeps failing whatever is fed, until [Reset]. *)
Theorem input_after_result_fails s c rest :
  c ≠ [] → Computed s = true →
  let s' := fold_left Input rest (Input s c) in
  Corrupted s' = true ∧ snd (Result s') = None ∧ Corrupted (Reset s') = false.
Proof.
  intros Hne Hc. simpl.
  assert (∀ l s, Corrupted s = true → Corrupted (fold_left Input l s) = true) as Hk.
  { clear. induction l as [|c l IH]; intros s Hs; simpl; [done|]. apply IH.
    unfold Input. destruct c; [done|]. by rewrite Hs, orb_true_r. }
  assert (Corrupted (fold_left Input rest (Input s c)) = true) as E.
  { apply Hk. unfold Input. destruct c; [done|]. by rewrite Hc. }
  unfold Result. by rewrite E.
Qed.

Lemma input_after_result_fails_witness :
  snd (Result (fold_left Input [] (Input (fst (Result (Reset blank))) [0]))) = None.
Proof. apply (input_after_result_fails (fst (Result (Reset blank))) [0] []); done. Defined.

(** ** The array accesses *)

Lemma ProcessMessageBlock_ok s : length (Message_Block s) = 64%nat →
  bytes_ok (Message_Block s) → fits 32 (Length_Low s) → fits 32 (Length_High s) →
  sha1_ok (ProcessMessageBlock s).
Proof.
  intros Hl Hb Hlo Hhi. unfold sha1_ok, ProcessMessageBlock.
  generalize (run_rounds (schedule (Message_Block s)) (Regs (H s !!! 0%nat) (H s !!! 1%nat)
    (H s !!! 2%nat) (H s !!! 3%nat) (H s !!! 4%nat))). intros r.
  cbn [H Length_Low Length_High Message_Block Message_Block_Index].
  split_and!; try done; [|lia].
  repeat constructor; rewrite land_ones32; apply (wrap_fits 32); lia.
Qed.

(** [put] is only called below 64, so the store is inside [Message_Block]. *)
Lemma put_in_bounds s b : sha1_ok s → byte_ok b →
  length (Message_Block (put s b)) = 64%nat ∧ bytes_ok (Message_Block (put s b)) ∧
  Message_Block (put s b) !! Message_Block_Index s = Some b ∧
  (Message_Block_Index (put s b) ≤ 64)%nat.
Proof.
  intros (_ & _ & _ & _ & Hl & Hb & Hi) Hbb. simpl. split_and!; [|..|lia].
  - by rewrite length_insert.
  - by apply Forall_insert.
  - apply list_lookup_insert_eq. lia.
Qed.

Lemma land_ff_byte b : byte_ok (Z.land b 0xFF).
Proof.
  change 0xFF with (Z.ones 8). rewrite Z.land_ones by lia. apply (wrap_fits 8). lia.
Qed.

Lemma input_byte_ok s b : sha1_ok s → sha1_ok (input_byte s b).
Proof.
  intros Hs. destruct (put_in_bounds s _ Hs (land_ff_byte b)) as (Hl & Hb & _ & Hi).
  destruct Hs as (Hh & Hf & Hlo & Hhi & _). unfold input_byte.
  set (p := put s (Z.land b 0xFF)) in *.
  assert (fits 32 (Length_Low (count8 p)) ∧ fits 32 (Length_High (count8 p))) as [Flo Fhi].
  { unfold count8; simpl. rewrite !land_ones32. split; [by apply (wrap_fits 32)|].
    case_match; [by apply (wrap_fits 32)|done]. }
  destruct (Nat.eqb_spec (Message_Block_Index (count8 p)) 64) as [E|E].
  - by apply ProcessMessageBlock_ok.
  - unfold sha1_ok. split_and!; try done. change (Message_Block_Index p < 64)%nat.
    change (Message_Block_Index p ≠ 64%nat) in E. lia.
Qed.

Lemma Input_ok s c : sha1_ok s → sha1_ok (Input s c).
Proof.
  intros Hs. unfold Input. destruct c as [|b c]; [done|].
  destruct (Computed s || Corrupted s); [exact Hs|].
  revert s Hs. induction (b :: c) as [|x l IH]; intros s Hs; simpl; [done|].
  destruct (Corrupted s); [done|]. by apply IH, input_byte_ok.
Qed.

(** From [Reset] on, whatever is fed in whatever pieces (also past the
    length limit), the five words and the counters stay 32-bit words, the block stays 64
    bytes long and its index stays below 64, so every store into it is in bounds. *)
Theorem sha1_in_bounds s chunks :
  length (Message_Block s) = 64%nat → bytes_ok (Message_Block s) →
  sha1_ok (fold_left Input chunks (Reset s)).
Proof.
  intros Hl Hb.
  assert (sha1_ok (Reset s)) as Hs.
  { unfold sha1_ok; simpl. split_and!; try done; unfold fits; try lia. repeat constructor; lia. }
  revert Hs. generalize (Reset s). induction chunks as [|c cs IH]; intros s' Hs; simpl; [done|].
  by apply IH, Input_ok.
Qed.

Lemma sha1_in_bounds_witness : sha1_ok (fold_left Input [str "abc"] (Reset blank)).
Proof.
  apply (sha1_in_bounds blank [str "abc"]); [reflexivity|].
  apply bytes_ok_replicate. unfold byte_ok. lia.
Defined.
