(* ===== verification/CLib.v ===== *)
(** * The parts of the C and C++ libraries the sources compute with

    Decimal numbers as [strtol], [std::stoi] and their relatives read them and
    as ["%d"] prints them, [strchr], and character classes of the C locale. *)

From S2P Require Import Prelude.

Definition isdigit (c : Z) : bool := (48 <=? c) && (c <=? 57).
Definition isspace (c : Z) : bool := ((9 <=? c) && (c <=? 13)) || (c =? 32).
Definition islower (c : Z) : bool := (97 <=? c) && (c <=? 122).
Definition isupper (c : Z) : bool := (65 <=? c) && (c <=? 90).
Definition tolower (c : Z) : Z := if isupper c then c + 32 else c.

(** [strchr(s, c)] with [c] not NUL: the string before the first [c] and after it. *)
Fixpoint strchr (c : Z) (s : list Z) : option (list Z * list Z) :=
  match s with
  | [] => None
  | x :: s' =>
      if x =? c then Some ([], s')
      else match strchr c s' with
           | Some (a, b) => Some (x :: a, b)
           | None => None
           end
  end.

(** [strcasecmp(a, b) == 0] *)
Definition strcaseeq (a b : list Z) : bool :=
  bool_decide (map tolower a = map tolower b).

(** ** Reading decimal numbers *)

Fixpoint skip_space (s : list Z) : list Z :=
  match s with
  | c :: s' => if isspace c then skip_space s' else s
  | [] => []
  end.

(** The longest prefix of digits. *)
Fixpoint digits (s : list Z) : list Z :=
  match s with
  | c :: s' => if isdigit c then c :: digits s' else []
  | [] => []
  end.

Definition digits_val (ds : list Z) : Z := fold_left (λ v c, v * 10 + (c - 48)) ds 0.

(** The number [strtol(s, &end, 10)] finds, before it is clamped; [None] when
    there is no conversion ([end == s]). *)
Definition strtol10 (s : list Z) : option Z :=
  let s := skip_space s in
  let '(neg, s) :=
    match s with
    | c :: s' => if c =? ch "-" then (true, s') else if c =? ch "+" then (false, s') else (false, s)
    | [] => (false, [])
    end in
  match digits s with
  | [] => None
  | ds => Some (if neg then - digits_val ds else digits_val ds)
  end.

(** [std::stoi], [std::stol], [std::stoll]: [None] is a thrown
    [std::invalid_argument] or [std::out_of_range]. *)
Definition in_range (w z : Z) : bool := (- 2 ^ (w - 1) <=? z) && (z <? 2 ^ (w - 1)).
Definition sto (w : Z) (s : list Z) : option Z :=
  match strtol10 s with
  | Some z => if in_range w z then Some z else None
  | None => None
  end.
Definition stoi : list Z → option Z := sto 32.
Definition stol : list Z → option Z := sto 64.
Definition stoll : list Z → option Z := sto 64.

(** [strtol] and [strtoll] clamp; [atoi] is [(int) strtol]. *)
Definition clamp (w z : Z) : Z := Z.max (- 2 ^ (w - 1)) (Z.min z (2 ^ (w - 1) - 1)).
Definition strtol (s : list Z) : Z := clamp 64 (default 0 (strtol10 s)).
(** [strtoul] and [strtoull]: clamp to [ULONG_MAX], a minus sign negates modulo 2^64. *)
Definition strtoul (s : list Z) : Z :=
  let z := default 0 (strtol10 s) in
  if 2 ^ 64 <=? Z.abs z then 2 ^ 64 - 1 else u64 z.

(** ** Printing: ["%d"] and friends *)

Fixpoint dec_rev (fuel : nat) (z : Z) : list Z :=
  match fuel with
  | O => []
  | S fuel => if z <? 10 then [48 + z] else (48 + z mod 10) :: dec_rev fuel (z / 10)
  end.

(** Enough fuel: [z < 2 ^ (log2 z + 1)]. *)
Definition dec (z : Z) : list Z := reverse (dec_rev (Z.to_nat (Z.log2 z + 1)) z).
Definition dec_int (z : Z) : list Z := if z <? 0 then ch "-" :: dec (- z) else dec z.

Example dec_int_ex : dec_int (-12034) = str "-12034". Proof. reflexivity. Qed.
Example strtol10_ex : strtol10 (str "  -12034abc") = Some (-12034). Proof. reflexivity. Qed.

Definition all_digits (s : list Z) : Prop := Forall (λ c, isdigit c = true) s.

Lemma isdigit_spec c : isdigit c = true ↔ 48 ≤ c ≤ 57.
Proof. unfold isdigit. rewrite andb_true_iff, !Z.leb_le. done. Qed.

Lemma dec_rev_digits f z : 0 ≤ z → all_digits (dec_rev f z).
Proof.
  revert z. induction f as [|f IH]; intros z Hz; simpl; [constructor|].
  destruct (Z.ltb_spec z 10); repeat constructor; [|apply isdigit_spec; dlia|apply IH; dlia].
  apply isdigit_spec. lia.
Qed.

Lemma digits_val_snoc ds c : digits_val (ds ++ [c]) = digits_val ds * 10 + (c - 48).
Proof. unfold digits_val. by rewrite fold_left_app. Qed.

Lemma dec_rev_val f z : 0 ≤ z → z < 2 ^ Z.of_nat f → digits_val (reverse (dec_rev f z)) = z.
Proof.
  revert z. induction f as [|f IH]; intros z Hz Hf; simpl.
  - unfold digits_val. simpl in *. lia.
  - destruct (Z.ltb_spec z 10).
    + unfold digits_val. simpl. lia.
    + rewrite reverse_cons, digits_val_snoc, IH; [dlia|dlia|].
      rewrite Nat2Z.inj_succ, Z.pow_succ_r in Hf by lia. dlia.
Qed.

Lemma dec_fuel z : 0 ≤ z → z < 2 ^ Z.of_nat (Z.to_nat (Z.log2 z + 1)).
Proof.
  intros Hz. pose proof (Z.log2_nonneg z). rewrite Z2Nat.id by lia.
  destruct (decide (z = 0)) as [->|]; [done|]. apply Z.log2_spec. lia.
Qed.

Lemma dec_val z : 0 ≤ z → digits_val (dec z) = z.
Proof. intros. unfold dec. by apply dec_rev_val, dec_fuel. Qed.

Lemma dec_digits z : 0 ≤ z → all_digits (dec z).
Proof. intros. by apply Forall_reverse, dec_rev_digits. Qed.

Lemma dec_rev_length f z : (length (dec_rev f z) ≤ f)%nat.
Proof.
  revert z. induction f as [|f IH]; intros z; simpl; [lia|].
  destruct (z <? 10); simpl; [lia|]. specialize (IH (z / 10)). lia.
Qed.

Lemma dec_length z : 0 ≤ z < 2 ^ 64 → (length (dec z) ≤ 65)%nat.
Proof.
  intros Hz. unfold dec. rewrite length_reverse. pose proof (dec_rev_length (Z.to_nat (Z.log2 z + 1)) z).
  assert (Z.log2 z ≤ 64); [|lia]. change 64 with (Z.log2 (2 ^ 64)). apply Z.log2_le_mono. lia.
Qed.

Lemma dec_int_length z : sfits 64 z → (length (dec_int z) ≤ 66)%nat.
Proof.
  unfold sfits, dec_int. simpl. intros Hz. destruct (Z.ltb_spec z 0); simpl.
  - pose proof (dec_length (- z)). lia.
  - pose proof (dec_length z). lia.
Qed.

Lemma dec_nonempty z : dec z ≠ [].
Proof.
  unfold dec. intros H. apply (f_equal reverse) in H. rewrite reverse_involutive in H.
  pose proof (Z.log2_nonneg z).
  destruct (Z.to_nat (Z.log2 z + 1)) as [|f] eqn:E; [lia|]. simpl in H. by destruct (z <? 10).
Qed.

Lemma digits_all s rest : all_digits s →
  match rest with c :: _ => isdigit c = false | [] => True end → digits (s ++ rest) = s.
Proof.
  intros Hs Hr. induction Hs as [|c s Hc Hs IH]; simpl.
  - destruct rest as [|c rest]; [done|]. simpl. by rewrite Hr.
  - by rewrite Hc, IH.
Qed.

Lemma digit_plain c : isdigit c = true →
  isspace c = false ∧ (c =? ch "-") = false ∧ (c =? ch "+") = false.
Proof.
  rewrite isdigit_spec. unfold isspace. intros. split_and!; [|apply Z.eqb_neq; vm_compute; lia..].
  apply orb_false_iff. split; [apply andb_false_iff; right; lia|lia].
Qed.

(** Reading what was printed, whatever follows the number. *)
Lemma strtol10_dec_int z rest :
  match rest with c :: _ => isdigit c = false | [] => True end →
  strtol10 (dec_int z ++ rest) = Some z.
Proof.
  intros Hr. unfold strtol10, dec_int. destruct (Z.ltb_spec z 0).
  - simpl. rewrite digits_all; [|apply dec_digits; lia|done].
    destruct (dec (- z)) as [|d ds] eqn:E; [by destruct (dec_nonempty (- z))|].
    rewrite <-E, dec_val by lia. f_equal. lia.
  - pose proof (dec_digits z ltac:(lia)) as Hd.
    destruct (dec z) as [|d ds] eqn:E; [by destruct (dec_nonempty z)|].
    pose proof (Forall_inv Hd) as Hd1. simpl in Hd1.
    destruct (digit_plain d Hd1) as (Hs & Hm & Hp).
    simpl. rewrite Hs, Hm, Hp. change (d :: ds ++ rest) with ((d :: ds) ++ rest).
    rewrite digits_all by done. rewrite <-E, dec_val by lia. done.
Qed.

Lemma in_range_spec w z : in_range w z = true ↔ sfits w z.
Proof. unfold in_range, sfits. rewrite andb_true_iff, Z.leb_le, Z.ltb_lt. done. Qed.

Lemma sto_dec_int w z : sfits w z → sto w (dec_int z) = Some z.
Proof.
  intros Hz. unfold sto. rewrite <-(app_nil_r (dec_int z)), strtol10_dec_int by done.
  by rewrite (proj2 (in_range_spec w z) Hz).
Qed.

Lemma sto_sfits w s z : sto w s = Some z → sfits w z.
Proof.
  unfold sto. destruct (strtol10 s); [|done]. case_match eqn:E; [|done].
  intros [= ->]. by apply in_range_spec.
Qed.

(** The characters of a printed number. *)
Lemma dec_int_chars z c : c ∈ dec_int z → isdigit c = true ∨ c = ch "-".
Proof.
  unfold dec_int. destruct (Z.ltb_spec z 0).
  - intros [->|Hc]%elem_of_cons; [by right|left].
    pose proof (dec_digits (- z) ltac:(lia)) as Hd. unfold all_digits in Hd.
    rewrite Forall_forall in Hd. by apply Hd.
  - intros Hc. left. pose proof (dec_digits z ltac:(lia)) as Hd. unfold all_digits in Hd.
    rewrite Forall_forall in Hd. by apply Hd.
Qed.

Lemma dec_int_no_nul z : no_nul (dec_int z).
Proof. intros [H|H]%dec_int_chars; [vm_compute in H|vm_compute in H]; done. Qed.

Lemma dec_int_nonempty z : dec_int z ≠ [].
Proof. unfold dec_int. destruct (z <? 0); [done|apply dec_nonempty]. Qed.

(** ** strchr *)

Lemma strchr_Some c s a b : strchr c s = Some (a, b) → s = a ++ c :: b ∧ c ∉ a.
Proof.
  revert a b. induction s as [|x s IH]; intros a b H; simpl in H; [done|].
  destruct (Z.eqb_spec x c) as [->|Hx].
  - injection H as <- <-. split; [done|apply not_elem_of_nil].
  - destruct (strchr c s) as [[a' b']|]; [|done]. injection H as <- <-.
    destruct (IH a' b' eq_refl) as [-> Hc]. split; [done|].
    apply not_elem_of_cons. split; [congruence|done].
Qed.

Lemma strchr_None c s : strchr c s = None → c ∉ s.
Proof.
  induction s as [|x s IH]; simpl; [intros; apply not_elem_of_nil|].
  destruct (Z.eqb_spec x c); [done|]. destruct (strchr c s) as [[]|]; [done|].
  intros _. apply not_elem_of_cons. split; [congruence|by apply IH].
Qed.

Lemma strchr_app c a b : c ∉ a → strchr c (a ++ c :: b) = Some (a, b).
Proof.
  induction a as [|x a IH]; simpl; [by rewrite Z.eqb_refl|].
  intros [Hx Ha]%not_elem_of_cons. destruct (Z.eqb_spec x c); [congruence|].
  by rewrite IH.
Qed.

Lemma strchr_not_in c s : c ∉ s → strchr c s = None.
Proof.
  induction s as [|x s IH]; simpl; [done|]. intros [Hx Hs]%not_elem_of_cons.
  destruct (Z.eqb_spec x c); [congruence|]. by rewrite IH.
Qed.
