(* ===== verification/Strings.v ===== *)
(** * String tools: src/tools/Tools.cpp, lines 178-371, 655-771, 829-849

    [hashString], the four [splitString] functions, [isDigit], [isUTF8String],
    [signalString], [randomString] and the file name helpers. *)

From S2P Require Import Prelude CLib.

(** ** hashString *)

(** One iteration: [h = (h << 4) + *s++] ([char] is signed), then the top four bits
    are folded back into the low byte and cleared. *)
Definition hash_step (h c : Z) : Z :=
  let h := u32 (Z.shiftl h 4 + s8 c) in
  let g := Z.land h 0xF0000000 in
  if g =? 0 then h else Z.lxor (Z.lxor h (Z.shiftr g 24)) g.

Definition hashString (s : list Z) : Z := fold_left hash_step s 0.

Example hash_ex : hashString (str "libbundle") = 144456149. Proof. vm_compute. reflexivity. Qed.

(** ** splitString *)

(** The fields are cut at [sc] as [strchr] finds it; [p] is always the start of the
    current field.  With [sc = 0] [strchr] finds the terminator and the loop runs past
    the end of the buffer. *)
Section Split.
Context (conv : list Z → option Z).

Fixpoint split_num (fuel : nat) (sc : Z) (s : list Z) (v : list Z) : bool * list Z :=
  match fuel with
  | O => (false, v)
  | S fuel =>
      match strchr sc s with
      | Some (field, rest) =>
          match conv field with
          | Some value => split_num fuel sc rest (v ++ [value])
          | None => (false, v)
          end
      | None =>
          match s with
          | [] => (true, v)
          | _ => match conv s with Some value => (true, v ++ [value]) | None => (false, v) end
          end
      end
  end.
End Split.

(** Each round of the loop consumes a separator, so the length of the string is fuel. *)
Definition splitWith (conv : list Z → option Z) (cstr : list Z) (sc : Z) (v : list Z)
    : outcome (bool * list Z) :=
  if sc =? 0 then Undef else Ret (split_num conv (S (length (c_str cstr))) sc (c_str cstr) v).

(** [int value = std::stoi(ss)] *)
Definition splitString_int := splitWith stoi.
(** [int value = std::stol(ss)]: the 64-bit result is stored in an [int]. *)
Definition splitString_long := splitWith (λ ss, s32 <$> stol ss).
Definition splitString_longlong := splitWith (λ ss, s32 <$> stoll ss).

Fixpoint split_str (fuel : nat) (sc : Z) (s : list Z) (v : list (list Z)) : list (list Z) :=
  match fuel with
  | O => v
  | S fuel =>
      match strchr sc s with
      | Some (field, rest) => split_str fuel sc rest (v ++ [field])
      | None => match s with [] => v ++ [[]] | _ => v ++ [s] end
      end
  end.

Definition splitString (cstr : list Z) (sc : Z) (v : list (list Z)) : outcome (bool * list (list Z)) :=
  if sc =? 0 then Undef
  else Ret (true, split_str (S (length (c_str cstr))) sc (c_str cstr) v).

Example split_ex1 : splitString (str "a,b,") (ch ",") [] = Ret (true, [str "a"; str "b"; []]).
Proof. vm_compute. reflexivity. Qed.
Example split_ex2 : splitString_int (str "1,-2,3") (ch ",") [] = Ret (true, [1; -2; 3]).
Proof. vm_compute. reflexivity. Qed.
Example split_ex3 : splitString_long (str "1,4294967298") (ch ",") [] = Ret (true, [1; 2]).
Proof. vm_compute. reflexivity. Qed.

(** ** isDigit, isUTF8String *)

Definition isDigit (s : list Z) : bool :=
  negb (bool_decide (s = [])) && forallb isdigit s.

(** The [n] continuation bytes after the lead byte: what is left after them. *)
Fixpoint utf8_follow (n : nat) (s : list Z) : option (list Z) :=
  match n with
  | O => Some s
  | S n =>
      match s with
      | [] => None
      | c :: s' => if Z.land c 0xC0 =? 0x80 then utf8_follow n s' else None
      end
  end.

(** The number of bytes that follow the lead byte [c]; [rest] is the string after it. *)
Definition utf8_lead (c : Z) (rest : list Z) : option nat :=
  if (0 <=? c) && (c <=? 0x7f) then Some 0%nat
  else if Z.land c 0xE0 =? 0xC0 then Some 1%nat
  else if (c =? 0xed) &&
          match rest with d :: _ => Z.land d 0xa0 =? 0xa0 | [] => false end then None
  else if Z.land c 0xF0 =? 0xE0 then Some 2%nat
  else if Z.land c 0xF8 =? 0xF0 then Some 3%nat
  else None.

Fixpoint utf8_loop (fuel : nat) (s : list Z) : bool :=
  match fuel with
  | O => false
  | S fuel =>
      match s with
      | [] => true
      | c :: rest =>
          match utf8_lead c rest with
          | None => false
          | Some n =>
              match utf8_follow n rest with
              | None => false
              | Some rest' => utf8_loop fuel rest'
              end
          end
      end
  end.

Definition isUTF8String (s : list Z) : bool := utf8_loop (S (length s)) s.

(** ** signalString *)

(** The designated initialisers with the Linux signal numbers; the other slots are null. *)
Definition sig_table : list (Z * list Z) :=
  [(0, str "NULL"); (1, str "SIGHUP"); (2, str "SIGINT"); (3, str "SIGQUIT"); (4, str "SIGILL");
   (5, str "SIGTRAP"); (6, str "SIGABRT"); (7, str "SIGBUS"); (8, str "SIGFPE");
   (9, str "SIGKILL"); (10, str "SIGUSR1"); (11, str "SIGSEGV"); (12, str "SIGUSR2");
   (13, str "SIGPIPE"); (14, str "SIGALRM"); (15, str "SIGTERM"); (16, str "SIGSTKFLT");
   (17, str "SIGCHLD"); (18, str "SIGCONT"); (19, str "SIGSTOP"); (20, str "SIGTSTP");
   (21, str "SIGTTIN"); (22, str "SIGTTOU"); (23, str "SIGURG"); (24, str "SIGXCPU");
   (25, str "SIGXFSZ"); (26, str "SIGVTALRM"); (27, str "SIGPROF"); (28, str "SIGWINCH");
   (29, str "SIGIO"); (30, str "SIGPWR"); (31, str "SIGSYS")].

Definition signalString (sig : Z) : list Z :=
  if (0 <? sig) && (sig <? 32)
  then match sig_table !! Z.to_nat sig with Some (_, s) => s | None => [] end
  else str "null".

(** ** randomString *)

(** [_alphabet]: 62 characters. *)
Definition alphabet : list Z :=
  str "0123456789abcdefghijklmnopqrstuvwxyzABCDEFGHIJKLMNOPQRSTUVWXYZ".

Definition wanted (has_digit has_lowercase has_uppercase : bool) (c : Z) : bool :=
  (has_digit && isdigit c) || (has_lowercase && islower c) || (has_uppercase && isupper c).

(** [rng] is the sequence of the results of [randomBetween(0, 61)]; when it is
    exhausted the loop is still running: [None]. *)
Fixpoint random_loop (hd hl hu : bool) (rng : list Z) (result : list Z) (len : nat)
    : option (outcome (list Z)) :=
  if Nat.eqb len 0 || negb (hd || hl || hu) then Some (Ret result)
  else match rng with
       | [] => None
       | i :: rng =>
           if (0 <=? i) && (i <? 62) then
             let c := alphabet !!! Z.to_nat i in
             if wanted hd hl hu c then random_loop hd hl hu rng (result ++ [c]) (pred len)
             else random_loop hd hl hu rng result len
           else Some Aborted
       end.

Definition randomString (result : list Z) (len : nat) (hd hl hu : bool) (rng : list Z) :=
  random_loop hd hl hu rng result len.

(** ** File names *)

(** [strncpy(buffer, filename, PATH_MAX)] of a name shorter than [PATH_MAX]; a longer
    one leaves the static buffer without a terminator. *)
Definition PATH_MAX : nat := 4096.
Definition getFilenameExtension (filename : list Z) : outcome (option (list Z)) :=
  let s := c_str filename in
  if Nat.ltb (length s) PATH_MAX then
    Ret (match strchr (ch ".") s with Some (_, ext) => Some ext | None => None end)
  else Undef.

Definition getFilenamePrefix (filename : list Z) : outcome (list Z) :=
  let s := c_str filename in
  if Nat.ltb (length s) PATH_MAX then
    Ret (match strchr (ch ".") s with Some (prefix, _) => prefix | None => s end)
  else Undef.

(** ** Proofs: hashString *)

Lemma high_nibble h : fits 32 h → Z.land h 0xF0000000 = 2 ^ 28 * (h / 2 ^ 28).
Proof.
  intros Hh. apply Z.bits_inj'. intros i Hi.
  change 0xF0000000 with (Z.shiftl (Z.ones 4) 28).
  rewrite <-Z.shiftr_div_pow2, Z.mul_comm, <-Z.shiftl_mul_pow2 by lia.
  rewrite Z.land_spec. destruct (decide (i < 28)).
  { by rewrite !Z.shiftl_spec_low, andb_false_r by lia. }
  rewrite !Z.shiftl_spec, Z.shiftr_spec by lia.
  replace (i - 28 + 28) with i by lia. destruct (decide (i < 32)).
  - by rewrite Z.ones_spec_low, andb_true_r by lia.
  - rewrite Z.ones_spec_high, andb_false_r by lia. symmetry.
    rewrite <-(Z.mod_small h (2 ^ 32)) by exact Hh. apply Z.mod_pow2_bits_high. lia.
Qed.

(** Bits of [x] from [n] on are zero iff [x < 2 ^ n]. *)
Lemma lt_pow2_bits x n : 0 ≤ n → 0 ≤ x → (∀ i, n ≤ i → Z.testbit x i = false) → x < 2 ^ n.
Proof.
  intros Hn Hx Hb. destruct (decide (x = 0)) as [->|]; [lia|].
  apply Z.log2_lt_pow2; [lia|]. destruct (Z.lt_ge_cases (Z.log2 x) n) as [|Hge]; [done|].
  specialize (Hb (Z.log2 x) Hge). rewrite Z.bit_log2 in Hb by lia. done.
Qed.

Lemma hash_step_fits h c : fits 28 (hash_step h c).
Proof.
  unfold hash_step. set (x := u32 (Z.shiftl h 4 + s8 c)).
  assert (fits 32 x) as Hx by (apply wrap_fits; lia).
  rewrite high_nibble by done. set (q := x / 2 ^ 28).
  assert (0 ≤ q < 16) as Hq by (subst q; unfold fits in Hx; dlia).
  destruct (Z.eqb_spec (2 ^ 28 * q) 0) as [E|E].
  { unfold fits in *. subst q. dlia. }
  assert (0 ≤ x) by (unfold fits in Hx; lia).
  assert (0 ≤ Z.shiftr (2 ^ 28 * q) 24) by (apply Z.shiftr_nonneg; lia).
  split.
  - rewrite Z.lxor_nonneg, Z.lxor_nonneg. lia.
  - apply lt_pow2_bits; [lia|rewrite Z.lxor_nonneg, Z.lxor_nonneg; lia|]. intros i Hi.
    assert (2 ^ 28 * q = x - x mod 2 ^ 28) as Eq by (subst q; dlia).
    rewrite !Z.lxor_spec, Z.shiftr_spec by lia.
    assert (Z.testbit (2 ^ 28 * q) i = Z.testbit x i) as ->.
    { rewrite Z.mul_comm, <-Z.shiftl_mul_pow2, Z.shiftl_spec by lia. subst q.
      rewrite <-Z.shiftr_div_pow2, Z.shiftr_spec by lia. f_equal. lia. }
    assert (Z.testbit (2 ^ 28 * q) (i + 24) = false) as ->; [|by destruct (Z.testbit x i)].
    rewrite <-(Z.mod_small (2 ^ 28 * q) (2 ^ 32)) by lia. apply Z.mod_pow2_bits_high. lia.
Qed.

(** The hash of every string is below 2^28, so the shift of the next round
    never pushes a bit out of the [u32], and hashing is incremental: the hash of a
    concatenation continues from the hash of its first part. *)
Theorem hashString_bounds (s t : list Z) :
  fits 28 (hashString s) ∧ Z.shiftl (hashString s) 4 = u32 (Z.shiftl (hashString s) 4) ∧
  hashString (s ++ t) = fold_left hash_step t (hashString s).
Proof.
  assert (fits 28 (hashString s)) as Hf.
  { unfold hashString. destruct s as [|x s] using rev_ind; [done|].
    rewrite fold_left_app. apply hash_step_fits. }
  split; [done|]. split; [|unfold hashString; by rewrite fold_left_app].
  symmetry. apply wrap_id. rewrite Z.shiftl_mul_pow2 by lia. unfold fits in *. lia.
Qed.

(** ** Proofs: splitString *)

(** Joining fields with the separator: the reference for all four functions. *)
Fixpoint join (sc : Z) (fs : list (list Z)) : list Z :=
  match fs with
  | [] => []
  | [f] => f
  | f :: fs => f ++ sc :: join sc fs
  end.

Lemma join_cons sc f g fs : join sc (f :: g :: fs) = f ++ sc :: join sc (g :: fs).
Proof. reflexivity. Qed.

Lemma split_str_join fuel sc : ∀ s v, (length s < fuel)%nat → ∃ fs,
  split_str fuel sc s v = v ++ fs ∧ fs ≠ [] ∧ join sc fs = s ∧ Forall (λ f, sc ∉ f) fs.
Proof.
  induction fuel as [|fuel IH]; intros s v Hf; [lia|]. simpl.
  destruct (strchr sc s) as [[field rest]|] eqn:E.
  - apply strchr_Some in E as [-> Hn]. rewrite length_app in Hf. simpl in Hf.
    destruct (IH rest (v ++ [field])) as (fs & -> & Hne & Hj & Ha); [lia|].
    exists (field :: fs). rewrite <-app_assoc. split_and!; [done|done| |by constructor].
    destruct fs as [|g fs]; [done|]. by rewrite join_cons, Hj.
  - exists [s]. apply strchr_None in E. split_and!; [by destruct s|done|done|by repeat constructor].
Qed.

(** The fields of a string are determined by the string. *)
Lemma join_inj sc fs : ∀ gs, Forall (λ f, sc ∉ f) fs → Forall (λ f, sc ∉ f) gs →
  fs ≠ [] → gs ≠ [] → join sc fs = join sc gs → fs = gs.
Proof.
  induction fs as [|f fs IH]; intros gs Hf Hg Hn Hm Hj; [done|].
  destruct gs as [|g gs]; [done|].
  apply Forall_cons in Hf as [Hf1 Hf2]. apply Forall_cons in Hg as [Hg1 Hg2].
  destruct fs as [|f' fs], gs as [|g' gs]; rewrite ?join_cons in Hj.
  - simpl in Hj. by subst.
  - simpl in Hj. subst. exfalso. apply Hf1, elem_of_app. right. left.
  - simpl in Hj. subst. exfalso. apply Hg1, elem_of_app. right. left.
  - pose proof (f_equal (strchr sc) Hj) as Hs. rewrite !strchr_app in Hs by done.
    injection Hs as -> Hs. f_equal. by apply IH.
Qed.

(** The fields of a joined list of fields. *)
Lemma splitString_fields sc fs : sc ≠ 0 → fs ≠ [] → Forall (λ f, sc ∉ f) fs → no_nul (join sc fs) →
  splitString (join sc fs) sc [] = Ret (true, fs).
Proof.
  intros Hsc Hne Ha Hn. unfold splitString. rewrite (proj2 (Z.eqb_neq sc 0) Hsc), c_str_id by done.
  destruct (split_str_join (S (length (join sc fs))) sc (join sc fs) []) as (gs & E & Hgn & Hj & Hga); [lia|].
  rewrite E. cbn [app]. by rewrite (join_inj sc gs fs Hga Ha Hgn Hne Hj).
Qed.

(** The string version of [splitString] appends to the vector the unique
    non-empty list of separator-free fields that joined with the separator give the
    string back: empty fields, leading, trailing and repeated separators included. *)
Theorem splitString_join (s : list Z) (sc : Z) (v : list (list Z)) :
  no_nul s → sc ≠ 0 → ∃ fs,
  splitString s sc v = Ret (true, v ++ fs) ∧ join sc fs = s ∧ fs ≠ [] ∧
  Forall (λ f, sc ∉ f) fs ∧
  ∀ gs, join sc gs = s → gs ≠ [] → Forall (λ f, sc ∉ f) gs → gs = fs.
Proof.
  intros Hs Hsc. unfold splitString. rewrite (proj2 (Z.eqb_neq sc 0) Hsc), c_str_id by done.
  destruct (split_str_join (S (length s)) sc s v) as (fs & E & Hn & Hj & Ha); [lia|].
  exists fs. split_and!; [by rewrite E|done|done|done|].
  intros gs Hg Hgn Hga. apply (join_inj sc); try done. by rewrite Hj.
Qed.

Lemma splitString_join_witness :
  ∃ fs, splitString (str ",a,,b,") (ch ",") [str "x"] = Ret (true, str "x" :: fs) ∧
    join (ch ",") fs = str ",a,,b,".
Proof.
  destruct (splitString_join (str ",a,,b,") (ch ",") [str "x"]) as (fs & E & J & _);
    [apply (bool_decide_unpack _); vm_compute; exact I|done|]. by exists fs.
Defined.

(** Splitting printed fields and converting each. *)
Lemma split_num_print conv g sc : sc ≠ 0 →
  ∀ (l : list Z) fuel v,
  Forall (λ z, conv (dec_int z) = Some (g z) ∧ sc ∉ dec_int z) l →
  (length (join sc (map dec_int l)) < fuel)%nat →
  split_num conv fuel sc (join sc (map dec_int l)) v = (true, v ++ map g l).
Proof.
  intros Hsc l. induction l as [|z l IH]; intros fuel v Hl Hf; (destruct fuel as [|fuel]; [lia|]).
  - simpl. by rewrite app_nil_r.
  - apply Forall_cons in Hl as [[Hc Hz] Hl].
    destruct l as [|z' l].
    + simpl. rewrite strchr_not_in by done. destruct (dec_int z) eqn:E; [by destruct (dec_int_nonempty z)|].
      by rewrite Hc.
    + simpl map in *. rewrite join_cons in *. simpl split_num. rewrite strchr_app, Hc by done.
      rewrite length_app in Hf. simpl length in Hf.
      rewrite IH; [by rewrite <-app_assoc|done|simpl; lia].
Qed.

(** A conversion that fails stops the loop: the values before it have been appended. *)
Lemma split_num_fail conv g sc bad rest : sc ≠ 0 →
  ∀ (l : list Z) fuel v,
  Forall (λ z, conv (dec_int z) = Some (g z) ∧ sc ∉ dec_int z) l →
  sc ∉ bad → bad ≠ [] → conv bad = None →
  (length (join sc (map dec_int l ++ [bad] ++ rest)) < fuel)%nat →
  split_num conv fuel sc (join sc (map dec_int l ++ [bad] ++ rest)) v = (false, v ++ map g l).
Proof.
  intros Hsc l. induction l as [|z l IH]; intros fuel v Hl Hb Hbn Hc Hf;
    (destruct fuel as [|fuel]; [lia|]).
  - rewrite app_nil_r. destruct rest as [|r rest]; simpl app in *.
    + simpl. rewrite strchr_not_in by done. destruct bad; [done|]. by rewrite Hc.
    + rewrite join_cons. simpl split_num. by rewrite strchr_app, Hc.
  - apply Forall_cons in Hl as [[Hcz Hz] Hl]. simpl map in *. simpl app in *.
    assert (∃ y ys, map dec_int l ++ bad :: rest = y :: ys) as (y & ys & Ey)
      by (destruct (map dec_int l); simpl; eauto).
    rewrite Ey, join_cons, <-Ey in *. simpl split_num. rewrite strchr_app, Hcz by done.
    rewrite length_app in Hf. simpl length in Hf.
    rewrite IH; try done; [by rewrite <-app_assoc|simpl; lia].
Qed.

Lemma sep_not_in_dec sc z : isdigit sc = false → sc ≠ ch "-" → sc ∉ dec_int z.
Proof. intros Hd Hm [H|H]%dec_int_chars; congruence. Qed.

Lemma join_no_nul sc fs : sc ≠ 0 → Forall no_nul fs → no_nul (join sc fs).
Proof.
  intros Hsc. induction 1 as [|f fs Hf Hfs IH]; [by apply not_elem_of_nil|].
  destruct fs as [|g fs]; [done|]. rewrite join_cons. unfold no_nul in *.
  rewrite not_elem_of_app, not_elem_of_cons. split_and!; [done|lia|done].
Qed.

Lemma join_ints_no_nul sc l : sc ≠ 0 → no_nul (join sc (map dec_int l)).
Proof.
  intros Hsc. apply join_no_nul; [done|]. apply Forall_fmap, Forall_forall.
  intros z _. by apply sep_not_in_dec.
Qed.

Lemma join_app_no_nul sc fs gs : sc ≠ 0 → no_nul (join sc fs) → no_nul (join sc gs) →
  no_nul (join sc (fs ++ gs)).
Proof.
  intros Hsc Hf Hg. unfold no_nul in *. induction fs as [|f fs IH]; [done|].
  destruct fs as [|f' fs].
  - destruct gs as [|g gs]; [done|]. change ([f] ++ g :: gs) with (f :: g :: gs).
    rewrite join_cons, not_elem_of_app, not_elem_of_cons. split_and!; [exact Hf|lia|done].
  - change ((f :: f' :: fs) ++ gs) with (f :: f' :: (fs ++ gs)). rewrite join_cons in *.
    rewrite not_elem_of_app, not_elem_of_cons in *. destruct Hf as (? & ? & ?).
    split_and!; [done|lia|]. by apply IH.
Qed.

(** On a list of numbers printed in decimal and joined by a separator
    (not a digit, not '-') the [int] version yields the numbers, and the [long] and
    [long long] versions yield each 64-bit number truncated to 32 bits, since they keep
    the result of [stol] in an [int]: they agree with the input only on 32-bit values. *)
Theorem splitString_numbers (sc : Z) (l v : list Z) :
  sc ≠ 0 → isdigit sc = false → sc ≠ ch "-" → Forall (sfits 64) l →
  splitString_long (join sc (map dec_int l)) sc v = Ret (true, v ++ map s32 l) ∧
  splitString_longlong (join sc (map dec_int l)) sc v = Ret (true, v ++ map s32 l) ∧
  (Forall (sfits 32) l →
   splitString_int (join sc (map dec_int l)) sc v = Ret (true, v ++ l)) ∧
  (map s32 l = l ↔ Forall (sfits 32) l).
Proof.
  intros H0 Hd Hm Hl.
  assert (∀ conv g, (∀ z, z ∈ l → conv (dec_int z) = Some (g z)) →
    splitWith conv (join sc (map dec_int l)) sc v = Ret (true, v ++ map g l)) as Hw.
  { intros conv g Hc. unfold splitWith. rewrite (proj2 (Z.eqb_neq sc 0) H0).
    rewrite c_str_id by by apply join_ints_no_nul. f_equal. apply split_num_print; [done| |lia].
    apply Forall_forall. intros z Hz. split; [by apply Hc|by apply sep_not_in_dec]. }
  rewrite Forall_forall in Hl. split_and!.
  - apply Hw. intros z Hz. unfold stol. by rewrite sto_dec_int by by apply Hl.
  - apply Hw. intros z Hz. unfold stoll. by rewrite sto_dec_int by by apply Hl.
  - intros H32. rewrite Forall_forall in H32. unfold splitString_int.
    rewrite (Hw stoi id), map_id; [done|]. intros z Hz. by apply sto_dec_int, H32.
  - rewrite Forall_forall. split.
    + intros Hmap z Hz. apply list_elem_of_lookup in Hz as [i Hi].
      assert ((s32 <$> l) !! i = Some z) as Hi' by (change (s32 <$> l) with (map s32 l); by rewrite Hmap).
      rewrite list_lookup_fmap, Hi in Hi'. injection Hi' as <-. apply swrap_fits. lia.
    + intros Hf. rewrite <-(map_id l) at 2. apply map_ext_in. intros z Hz.
      apply swrap_id; [lia|]. by apply Hf, list_elem_of_In.
Qed.

Lemma splitString_numbers_witness :
  splitString_long (str "7,4294967298,-1") (ch ",") [] = Ret (true, [7; 2; -1]).
Proof.
  apply (splitString_numbers (ch ",") [7; 4294967298; -1] []);
    [done|done|done|repeat constructor; vm_compute; done].
Defined.

(** ** Proofs: isUTF8String *)

Definition cont (b : Z) : Prop := 0x80 ≤ b ≤ 0xBF.

(** The sequences the function accepts: any two-byte form (also the overlong C0, C1),
    three-byte forms except the surrogates ED A0..BF, four-byte forms up to F7. *)
Inductive utf8_unit : list Z → Prop :=
| U1 a : 0 ≤ a ≤ 0x7F → utf8_unit [a]
| U2 a b : 0xC0 ≤ a ≤ 0xDF → cont b → utf8_unit [a; b]
| U3 a b c : 0xE0 ≤ a ≤ 0xEF → cont b → cont c → (a = 0xED → b ≤ 0x9F) → utf8_unit [a; b; c]
| U4 a b c d : 0xF0 ≤ a ≤ 0xF7 → cont b → cont c → cont d → utf8_unit [a; b; c; d].

Definition byte_leb (lo b hi : Z) : bool := (lo <=? b) && (b <=? hi).
Lemma byte_leb_spec lo b hi : byte_leb lo b hi = true ↔ lo ≤ b ≤ hi.
Proof. unfold byte_leb. rewrite andb_true_iff, !Z.leb_le. done. Qed.

Lemma cont_spec b : byte_ok b → (Z.land b 0xC0 =? 0x80) = byte_leb 0x80 b 0xBF.
Proof.
  intros Hb. apply eqb_prop.
  change (Bool.eqb (Z.land b 0xC0 =? 0x80) (byte_leb 0x80 b 0xBF) = true). byte_brute b.
Qed.

Lemma surrogate_spec b : byte_ok b → byte_leb 0x80 b 0xBF = true →
  (Z.land b 0xa0 =? 0xa0) = byte_leb 0xA0 b 0xBF.
Proof.
  intros Hb Hc. apply eqb_prop.
  enough (implb (byte_leb 0x80 b 0xBF)
    (Bool.eqb (Z.land b 0xa0 =? 0xa0) (byte_leb 0xA0 b 0xBF)) = true) as H
    by (rewrite Hc in H; exact H).
  clear Hc. byte_brute b.
Qed.

(** The branch a lead byte takes, apart from the surrogate test. *)
Definition lead_class (c : Z) : option nat :=
  if byte_leb 0 c 0x7F then Some 0%nat else if byte_leb 0xC0 c 0xDF then Some 1%nat
  else if byte_leb 0xE0 c 0xEF then Some 2%nat else if byte_leb 0xF0 c 0xF7 then Some 3%nat
  else None.

Lemma utf8_lead_spec c rest : byte_ok c → utf8_lead c rest =
  if (c =? 0xED) && match rest with d :: _ => Z.land d 0xa0 =? 0xa0 | [] => false end
  then None else lead_class c.
Proof.
  intros Hc. unfold utf8_lead.
  assert ((Z.land c 0xE0 =? 0xC0) = byte_leb 0xC0 c 0xDF) as E1.
  { apply eqb_prop. change (Bool.eqb (Z.land c 0xE0 =? 0xC0) (byte_leb 0xC0 c 0xDF) = true).
    byte_brute c. }
  assert ((Z.land c 0xF0 =? 0xE0) = byte_leb 0xE0 c 0xEF) as E2.
  { apply eqb_prop. change (Bool.eqb (Z.land c 0xF0 =? 0xE0) (byte_leb 0xE0 c 0xEF) = true).
    byte_brute c. }
  assert ((Z.land c 0xF8 =? 0xF0) = byte_leb 0xF0 c 0xF7) as E3.
  { apply eqb_prop. change (Bool.eqb (Z.land c 0xF8 =? 0xF0) (byte_leb 0xF0 c 0xF7) = true).
    byte_brute c. }
  rewrite E1, E2, E3. unfold lead_class.
  change ((0 <=? c) && (c <=? 0x7f)) with (byte_leb 0 c 0x7F).
  destruct (Z.eqb_spec c 0xED) as [->|]; simpl; [|done].
  destruct rest as [|d rest]; [done|]. by destruct (Z.land d 160 =? 160).
Qed.

Lemma utf8_follow_Some n s r : bytes_ok s →
  utf8_follow n s = Some r ↔ ∃ cs, s = cs ++ r ∧ length cs = n ∧ Forall cont cs.
Proof.
  revert s. induction n as [|n IH]; intros s Hs; simpl.
  - split; [intros [= ->]; by exists []|]. intros ([|] & -> & ? & _); done.
  - destruct s as [|c s]; [split; [done|]; intros ([|] & ? & ? & _); done|].
    apply Forall_cons in Hs as [Hc Hs]. rewrite cont_spec by done.
    destruct (byte_leb 0x80 c 0xBF) eqn:E.
    + rewrite IH by done. apply byte_leb_spec in E. split.
      * intros (cs & -> & <- & Hf). exists (c :: cs). split_and!; [done..|by constructor].
      * intros ([|c' cs] & Heq & Hl & Hf); [done|]. simplify_eq/=. apply Forall_cons in Hf as [_ Hf].
        by exists cs.
    + split; [done|]. intros ([|c' cs] & Heq & Hl & Hf); [done|]. simplify_eq/=.
      apply Forall_cons in Hf as [Hf _]. apply byte_leb_spec in Hf. congruence.
Qed.

(** One round of the loop takes one unit. *)
Lemma utf8_round_unit c rest n r : byte_ok c → bytes_ok rest →
  utf8_lead c rest = Some n → utf8_follow n rest = Some r →
  ∃ u, utf8_unit u ∧ c :: rest = u ++ r.
Proof.
  intros Hc Hr. rewrite utf8_lead_spec by done.
  intros Hl Hf. apply utf8_follow_Some in Hf as (cs & -> & <- & Hcs); [|done].
  exists (c :: cs). split; [|done]. apply bytes_ok_app in Hr as [Hcs' _].
  destruct (_ && _) eqn:E in Hl; [done|]. unfold lead_class in Hl.
  destruct (byte_leb 0 c 0x7F) eqn:E0; [apply byte_leb_spec in E0; destruct cs; [|done]; by constructor|].
  destruct (byte_leb 0xC0 c 0xDF) eqn:E1.
  { apply byte_leb_spec in E1. destruct cs as [|b [|]]; try done. apply Forall_cons in Hcs as [? _].
    by constructor. }
  destruct (byte_leb 0xE0 c 0xEF) eqn:E2.
  { apply byte_leb_spec in E2. destruct cs as [|b [|b2 [|]]]; try done. decompose_Forall.
    constructor; [done..|]. intros ->. simpl in E. rewrite surrogate_spec in E; [|done|by apply byte_leb_spec].
    destruct (Z.le_gt_cases b 0x9F); [done|]. rewrite (proj2 (byte_leb_spec 0xA0 b 0xBF)) in E; [done|].
    unfold cont in *. lia. }
  destruct (byte_leb 0xF0 c 0xF7) eqn:E3; [|done].
  apply byte_leb_spec in E3. destruct cs as [|b [|b2 [|b3 [|]]]]; try done. decompose_Forall.
  by constructor.
Qed.

Lemma utf8_unit_round c rest r u : byte_ok c → bytes_ok rest →
  utf8_unit u → c :: rest = u ++ r →
  ∃ n, utf8_lead c rest = Some n ∧ utf8_follow n rest = Some r.
Proof.
  intros Hc Hr. rewrite utf8_lead_spec by done.
  intros Hu Heq. assert (bytes_ok (u ++ r)) as Hb by (rewrite <-Heq; by constructor).
  assert (∃ n, lead_class c = Some n ∧ utf8_follow n rest = Some r ∧
    (c = 0xED → ∃ d rest', rest = d :: rest' ∧ byte_ok d ∧ 0x80 ≤ d ≤ 0x9F)) as (n & Hl & Hf & Hs).
  { unfold lead_class.
    destruct Hu as [a Ha|a b Ha ?|a b d Ha ? ? Hse|a b d e Ha ? ? ?]; simplify_eq/=;
      repeat match goal with |- context [byte_leb ?l ?c ?h] =>
        let E := fresh in destruct (byte_leb l c h) eqn:E;
        [apply byte_leb_spec in E; try lia
        |apply not_true_iff_false in E; rewrite byte_leb_spec in E; try lia] end;
      eexists; (split; [reflexivity|]); (split; [|intros ->; try lia]);
      try (apply utf8_follow_Some; [done|]); try done.
    - by exists [].
    - exists [b]. split_and!; [done..|]. by repeat (apply Forall_cons; split).
    - exists [b; d]. split_and!; [done..|]. by repeat (apply Forall_cons; split).
    - exists b, (d :: r). unfold cont in *. split_and!; [done|unfold byte_ok; lia|lia|by apply Hse].
    - exists [b; d; e]. split_and!; [done..|]. by repeat (apply Forall_cons; split). }
  exists n. split; [|done]. rewrite Hl. destruct (Z.eqb_spec c 0xED) as [E|]; simpl; [|done].
  destruct (Hs E) as (d & rest' & -> & Hd & Hd2).
  rewrite surrogate_spec; [|done|apply byte_leb_spec; lia].
  destruct (byte_leb 0xA0 d 0xBF) eqn:E2; [|done]. apply byte_leb_spec in E2. lia.
Qed.

Lemma utf8_unit_nonempty u : utf8_unit u → (0 < length u)%nat.
Proof. by destruct 1; simpl; lia. Qed.

Lemma utf8_loop_spec fuel : ∀ s, bytes_ok s → (length s < fuel)%nat →
  utf8_loop fuel s = true ↔ ∃ us, Forall utf8_unit us ∧ s = concat us.
Proof.
  induction fuel as [|fuel IH]; intros s Hs Hl; [lia|]. simpl.
  destruct s as [|c rest]; [split; [by exists []|done]|].
  apply Forall_cons in Hs as [Hc Hr]. simpl in Hl.
  assert (∀ u r, utf8_unit u → c :: rest = u ++ r → bytes_ok r ∧ (length r < fuel)%nat) as Hrest.
  { intros u r Hu Heq. pose proof (utf8_unit_nonempty u Hu). split.
    - assert (bytes_ok (u ++ r)) as [_ ?]%bytes_ok_app by (rewrite <-Heq; by constructor). done.
    - apply (f_equal length) in Heq. rewrite length_app in Heq. simpl in Heq. lia. }
  split.
  - intros H. destruct (utf8_lead c rest) as [n|] eqn:El; [|done].
    destruct (utf8_follow n rest) as [r|] eqn:Ef; [|done].
    destruct (utf8_round_unit c rest n r) as (u & Hu & Heq); [done..|].
    destruct (Hrest u r Hu Heq) as [Hb Hlen].
    apply IH in H as (us & Hus & ->); [|done..]. exists (u :: us). by rewrite Forall_cons.
  - intros (us & Hus & Heq). destruct us as [|u us]; [done|]. apply Forall_cons in Hus as [Hu Hus].
    destruct (utf8_unit_round c rest (concat us) u) as (n & -> & ->); [done..|].
    destruct (Hrest u (concat us) Hu Heq) as [Hb Hlen]. apply IH; [done..|]. by exists us.
Qed.

(** The encoding of a Unicode scalar value, RFC 3629. *)
Definition utf8_encode (c : Z) : list Z :=
  if c <? 0x80 then [c]
  else if c <? 0x800 then [0xC0 + c / 64; 0x80 + c mod 64]
  else if c <? 0x10000 then [0xE0 + c / 4096; 0x80 + c / 64 mod 64; 0x80 + c mod 64]
  else [0xF0 + c / 262144; 0x80 + c / 4096 mod 64; 0x80 + c / 64 mod 64; 0x80 + c mod 64].
Definition scalar_value (c : Z) : Prop := 0 ≤ c < 0xD800 ∨ 0xE000 ≤ c < 0x110000.

Lemma utf8_encode_unit c : scalar_value c → utf8_unit (utf8_encode c).
Proof.
  unfold scalar_value, utf8_encode. intros Hc.
  destruct (Z.ltb_spec c 0x80); [constructor; lia|].
  destruct (Z.ltb_spec c 0x800); [constructor; unfold cont; dlia|].
  destruct (Z.ltb_spec c 0x10000); constructor; unfold cont; dlia.
Qed.

(** [isUTF8String] accepts exactly the concatenations of well-formed
    units (it reads the whole string, never past its end), in particular the encoding of
    every sequence of Unicode scalar values; it also accepts overlong two-byte forms and
    values above U+10FFFF, which UTF-8 excludes. *)
Theorem isUTF8String_spec (s : list Z) :
  bytes_ok s →
  (isUTF8String s = true ↔ ∃ us, Forall utf8_unit us ∧ s = concat us) ∧
  (∀ cs, Forall scalar_value cs → s = concat (map utf8_encode cs) → isUTF8String s = true) ∧
  isUTF8String [0xC0; 0x80] = true ∧ isUTF8String [0xF7; 0xBF; 0xBF; 0xBF] = true.
Proof.
  intros Hs. assert (isUTF8String s = true ↔ ∃ us, Forall utf8_unit us ∧ s = concat us) as Hi
    by (apply utf8_loop_spec; [done|lia]).
  split; [done|]. split; [|done]. intros cs Hcs Heq. apply Hi. exists (map utf8_encode cs).
  split; [|done]. apply Forall_fmap. eapply Forall_impl; [exact Hcs|]. apply utf8_encode_unit.
Qed.

Lemma isUTF8String_spec_witness : isUTF8String [0x61; 0xE2; 0x82; 0xAC] = true.
Proof.
  apply (isUTF8String_spec [0x61; 0xE2; 0x82; 0xAC]) with (cs := [0x61; 0x20AC]);
    [apply (bool_decide_unpack _); vm_compute; exact I| |reflexivity].
  repeat constructor; unfold scalar_value; lia.
Defined.
