(* ===== verification/CsvLines.v ===== *)
(** * Lines of a file: LineReader of csv/CsvReader.h

    The reader behind the CSV parser keeps three blocks: lines are found in the first two,
    the third is the next block of the file, when the first is used up.  The library defines
    CSV_IO_NO_THREAD (bundle.h), so it is the SynchronousReader that reads it, when it is wanted.  Here the reader with its blocks, and the theorem
    that it gives the lines of the file, of any length below a block, whatever the blocks
    cut. *)

From S2P Require Import Prelude.

(** What the reader and the parser above it throw; the texts of the messages are left out. *)
Inductive csv_error :=
  line_length_limit_exceeded | header_missing | extra_column_in_header | missing_column_in_header | duplicated_column_in_header |
  too_few_columns | too_many_columns | escaped_string_not_closed | no_digit | integer_overflow | integer_underflow |
  invalid_single_character.

(** A call that may throw. *)
Abbreviation throwing A := (outcome (csv_error + A)).
Definition returns {A} (a : A) : throwing A := Ret (inr a).
Definition throws {A} (e : csv_error) : throwing A := Ret (inl e).
Definition tbind {A B} (m : throwing A) (f : A → throwing B) : throwing B :=
  match m with Ret (inr a) => f a | Ret (inl e) => throws e | Aborted => Aborted | Undef => Undef end.
Declare Scope csv_scope.
Notation "x ←! m ; f" := (tbind m (λ x, f)) (at level 20, m at level 100, f at level 200, right associativity) : csv_scope.
Open Scope csv_scope.

(** ** The reader *)

Section Lines.
Context (block_len : nat).

(** The reader: without a file when the first two blocks were not filled, else with what is left of
    the file; [start_read] notes the place and the size, which are always the third block. *)
Inductive SynchronousReader := NoReader | Reading (rest : list Z).
Record LineReader := MkLineReader {
  buffer : list Z; reader : SynchronousReader; data_begin : nat; data_end : nat; file_line : Z
}.

Definition BOM : list Z := [239; 187; 191].
(** [junk] is what the new buffer holds. *)
Definition init (junk source : list Z) : LineReader :=
  let data_end := Nat.min (2 * block_len) (length source) in
  let buffer := take data_end source ++ drop data_end junk in
  MkLineReader buffer (if Nat.eqb data_end (2 * block_len) then Reading (drop (2 * block_len) source) else NoReader)
    (if bool_decide (take 3 (take data_end buffer) = BOM) then 3 else 0)%nat data_end 0.

(** [finish_read] into the third block: [fread], which gives less than a block at the end of the file
    only, and nothing behind it. *)
Definition finish_read (r : SynchronousReader) : outcome (list Z * SynchronousReader) :=
  match r with
  | Reading rest => Ret (take block_len rest, Reading (drop block_len rest))
  | NoReader => Undef
  end.
Definition refill (lr : LineReader) : outcome LineReader :=
  if Nat.ltb (data_begin lr) block_len then Ret lr
  else
    let second := take block_len (drop block_len (buffer lr)) in
    let third := drop (2 * block_len) (buffer lr) in
    let b := (data_begin lr - block_len)%nat in
    let e := (data_end lr - block_len)%nat in
    match reader lr with
    | NoReader => Ret (MkLineReader (second ++ second ++ third) NoReader b e (file_line lr))
    | r =>
        '(got, r) ← finish_read r;
        let third := got ++ drop (length got) third in
        Ret (MkLineReader (second ++ third ++ third) r b (e + length got) (file_line lr))
    end.

(** How far the end of the line is; the byte is looked at before the end of the data is. *)
Fixpoint scan (n : nat) (l : list Z) {struct l} : outcome nat :=
  match l with
  | [] => Undef
  | c :: l => if c =? 10 then Ret O else match n with O => Ret O | S n => k ← scan n l; Ret (S k) end
  end.
Definition end_line (k : nat) (lr : LineReader) : option (nat * list Z) * LineReader :=
  let b := data_begin lr in
  let line_end := (b + k)%nat in
  let e := if decide (buffer lr !! line_end = Some 10) then data_end lr else S (data_end lr) in
  let buf := <[line_end := 0]> (buffer lr) in
  let buf := if decide (k ≠ O ∧ buf !! (line_end - 1)%nat = Some 13) then <[(line_end - 1)%nat := 0]> buf else buf in
  (Some (b, c_str (drop b buf)), MkLineReader buf (reader lr) (S line_end) e (file_line lr)).
(** The line is the C string at its place in the buffer; [None] is the null pointer. *)
Definition next_line (lr : LineReader) : throwing (option (nat * list Z) * LineReader) :=
  if Nat.eqb (data_begin lr) (data_end lr) then returns (None, lr)
  else
    let lr := MkLineReader (buffer lr) (reader lr) (data_begin lr) (data_end lr) (u32 (file_line lr + 1)) in
    _ ← cxx_assert (Nat.ltb (data_begin lr) (data_end lr));
    _ ← cxx_assert (Nat.leb (data_end lr) (2 * block_len));
    lr ← refill lr;
    k ← scan (data_end lr - data_begin lr) (drop (data_begin lr) (buffer lr));
    if Nat.ltb block_len (k + 1) then throws line_length_limit_exceeded else returns (end_line k lr).

Fixpoint next_lines (n : nat) (lr : LineReader) : throwing (list (list Z) * LineReader) :=
  match n with
  | O => returns ([], lr)
  | S n =>
      r ←! next_line lr;
      match r with
      | (None, lr) => returns ([], lr)
      | (Some (_, l), lr) => q ←! next_lines n lr; returns (l :: fst q, snd q)
      end
  end.
End Lines.

(** 16 MiB. *)
Definition block_len : nat := Z.to_nat (2 ^ 24).

(** ** What is still to be read *)

Section Spec.
Context (B : nat).
Implicit Types (lr : LineReader).

Definition unread (r : SynchronousReader) : list Z := match r with Reading rest => rest | NoReader => [] end.
Definition remaining lr : list Z := take (data_end lr - data_begin lr) (drop (data_begin lr) (buffer lr)) ++ unread (reader lr).
(** While there is something to read, the blocks are full. *)
Record lr_ok lr : Prop := {
  lr_length : length (buffer lr) = (3 * B)%nat;
  lr_order : (data_begin lr ≤ data_end lr ≤ 2 * B)%nat;
  lr_full : unread (reader lr) ≠ [] → data_end lr = (2 * B)%nat ∧ (data_begin lr < 2 * B)%nat
}.

(** A line as it is handed out: without the carriage return, up to a NUL. *)
Definition strip_cr (l : list Z) : list Z :=
  match reverse l with c :: l' => if c =? 13 then reverse l' else l | [] => [] end.
Definition line_text (l : list Z) : list Z := c_str (strip_cr l).

Lemma strip_cr_snoc l c : strip_cr (l ++ [c]) = if c =? 13 then l else l ++ [c].
Proof. unfold strip_cr. rewrite reverse_snoc. destruct (c =? 13); [by rewrite reverse_involutive|done]. Qed.

Lemma scan_line line n rest : 10 ∉ line → (length line ≤ n)%nat → rest ≠ [] → (head rest = Some 10 ∨ n = length line) →
  scan n (line ++ rest) = Ret (length line).
Proof.
  revert n. induction line as [|c line IH]; intros n Hin Hn Hr Hh; cbn [app length].
  - destruct rest as [|c rest]; [done|]. cbn [scan]. destruct (Z.eqb_spec c 10) as [|Hc]; [done|].
    destruct Hh as [Hh|Hn0]; [by injection Hh as ->|]. by rewrite Hn0.
  - apply not_elem_of_cons in Hin as [Hc Hin]. cbn [scan length] in *. rewrite (proj2 (Z.eqb_neq c 10)) by done.
    destruct n as [|n]; [lia|]. rewrite IH; [done|done|lia|done|]. destruct Hh as [Hh|Hh]; [by left|right; lia].
Qed.
Lemma scan_long n l m : (m ≤ n)%nat → (m < length l)%nat → 10 ∉ take m l → (n < length l)%nat → ∃ k, scan n l = Ret k ∧ (m ≤ k)%nat.
Proof.
  revert n l. induction m as [|m IH]; intros n l Hmn Hm Hin Hl.
  - clear -Hl. revert l Hl. induction n as [|n IH]; intros [|c l] Hl; cbn [length] in Hl; try lia; cbn [scan].
    + destruct (c =? 10); (eexists; split; [done|lia]).
    + destruct (c =? 10); [eexists; split; [done|lia]|]. destruct (IH l) as (k & -> & _); [lia|]. eexists; split; [done|lia].
  - destruct l as [|c l]; [cbn in Hm; lia|]. cbn [take length] in *. apply not_elem_of_cons in Hin as [Hc Hin].
    cbn [scan]. rewrite (proj2 (Z.eqb_neq c 10)) by done. destruct n as [|n]; [lia|].
    destruct (IH n l) as (k & -> & Hk); [lia..|done|lia|]. cbn [mbind outcome_bind]. eexists; split; [done|lia].
Qed.

Lemma refill_ok lr : (0 < B)%nat → lr_ok lr → (data_begin lr < data_end lr)%nat →
  ∃ lr', refill B lr = Ret lr' ∧ lr_ok lr' ∧ remaining lr' = remaining lr ∧
    (data_begin lr' < B)%nat ∧ (data_begin lr' < data_end lr')%nat ∧
    (reader lr = NoReader → reader lr' = NoReader ∧ ((data_end lr < 2 * B)%nat → (data_end lr' < 2 * B)%nat ∧ buffer lr' !! data_end lr' = buffer lr !! data_end lr)).
Proof.
  intros HB [Hlen Hord Hfull] Hlt. destruct lr as [buf r b e n]. cbn [buffer reader data_begin data_end file_line] in *.
  unfold refill. cbn [buffer reader data_begin data_end file_line]. destruct (Nat.ltb_spec b B) as [Hb|Hb].
  { eexists. split; [done|]. split; [by split|]. by split_and!. }
  assert (length (take B (drop B buf)) = B) as L2 by (rewrite length_take, length_drop; lia).
  assert (length (drop (2 * B) buf) = B) as L3 by (rewrite length_drop; lia).
  set (second := take B (drop B buf)) in *. set (third := drop (2 * B) buf) in *.
  assert (take (e - b) (drop b buf) = take (e - b) (drop (b - B) second)) as Eb.
  { unfold second. rewrite skipn_firstn_comm, drop_drop, take_take. replace (B + (b - B))%nat with b by lia.
    by replace ((e - b) `min` (B - (b - B)))%nat with (e - b)%nat by lia. }
  destruct r as [|rest].
  - eexists. split; [done|]. unfold remaining. cbn [buffer reader data_begin data_end unread]. split.
    { split; cbn [buffer reader data_begin data_end unread]; [rewrite !length_app; lia|lia|done]. }
    split; [|split_and!; [lia|lia|intros _; split; [done|]]].
    + rewrite Eb. replace (e - B - (b - B))%nat with (e - b)%nat by lia. f_equal.
      rewrite drop_app_le, take_app_le by (rewrite ?length_drop; lia). done.
    + intros He. split; [lia|]. rewrite lookup_app_l by lia. unfold second.
      rewrite lookup_take_lt, lookup_drop by lia. by replace (B + (e - B))%nat with e by lia.
  - cbn [finish_read mbind outcome_bind]. set (got := take B rest). assert (length got ≤ B)%nat as Hg by (unfold got; rewrite length_take; lia).
    set (t3 := got ++ drop (length got) third). assert (length t3 = B) as Lt by (unfold t3; rewrite length_app, length_drop; lia).
    assert (rest ≠ [] → e = (2 * B)%nat) as Hrest by (intros Hr; by apply Hfull).
    eexists. split; [done|]. unfold remaining. cbn [buffer reader data_begin data_end unread]. split; [|split; [|split_and!; [lia|lia|done]]].
    + split; cbn [buffer reader data_begin data_end].
      * rewrite !length_app. lia.
      * lia.
      * cbn [unread]. intros Hd. assert (B < length rest)%nat as Hl.
        { destruct (decide (B < length rest)%nat); [done|]. by rewrite drop_ge in Hd by lia. }
        assert (length got = B) by (unfold got; rewrite length_take; lia). rewrite Hrest by (intros ->; simpl in Hl; lia). lia.
    + rewrite Eb. cbn [unread]. destruct (decide (rest = [])) as [-> |Hne].
      * unfold got in *. rewrite take_nil in *. rewrite drop_nil. cbn [length]. rewrite Nat.add_0_r. f_equal.
        replace (e - B - (b - B))%nat with (e - b)%nat by lia. rewrite drop_app_le, take_app_le by (rewrite ?length_drop; lia). done.
      * rewrite (Hrest Hne). replace (2 * B - B + length got - (b - B))%nat with (length (drop (b - B) second) + length got)%nat by (rewrite length_drop; lia).
        rewrite drop_app_le by lia. rewrite take_app_add. unfold t3. rewrite <- !app_assoc, take_app_length.
        rewrite (take_ge (drop (b - B) second)) by (rewrite length_drop; lia). f_equal. unfold got. by rewrite take_drop.
Qed.

Lemma c_str_cut a b : c_str (a ++ 0 :: b) = c_str a.
Proof using Type. induction a as [|c a IH]; [done|]. cbn [app c_str]. destruct (c =? 0); [done|]. by rewrite IH. Qed.

Lemma end_line_spec pre line c rest r e n : ∃ mid, length mid = S (length line) ∧
  end_line (length line) (MkLineReader (pre ++ line ++ c :: rest) r (length pre) e n) =
  (Some (length pre, line_text line), MkLineReader (pre ++ mid ++ rest) r (S (length pre + length line)) (if c =? 10 then e else S e) n).
Proof using Type.
  unfold end_line. cbn [buffer reader data_begin data_end file_line].
  assert ((pre ++ line ++ c :: rest) !! (length pre + length line)%nat = Some c) as Hc.
  { rewrite app_assoc, <- length_app. by apply list_lookup_middle. }
  assert (<[(length pre + length line)%nat:=0]> (pre ++ line ++ c :: rest) = pre ++ line ++ 0 :: rest) as ->.
  { by rewrite app_assoc, <- length_app, insert_app_r_alt, Nat.sub_diag, <- app_assoc by lia. }
  rewrite Hc. replace (if decide (Some c = Some 10) then e else S e) with (if c =? 10 then e else S e)
    by (destruct (Z.eqb_spec c 10); [by subst; rewrite decide_True|rewrite decide_False by congruence; done]).
  destruct line as [|x l _] using rev_ind.
  - exists [0]. rewrite decide_False by (intros [[] _]; done). by rewrite drop_app_length.
  - unfold line_text. rewrite strip_cr_snoc, length_app. cbn [length].
    assert ((pre ++ (l ++ [x]) ++ 0 :: rest) !! (length pre + (length l + 1) - 1)%nat = Some x) as ->.
    { replace (length pre + (length l + 1) - 1)%nat with (length (pre ++ l)) by list_len. rewrite <- app_assoc, app_assoc. by apply list_lookup_middle. }
    destruct (Z.eqb_spec x 13) as [-> |Hx].
    + exists (l ++ [0; 0]). rewrite decide_True by (split; [lia|done]). split; [list_len|].
      assert (<[(length pre + (length l + 1) - 1)%nat:=0]> (pre ++ (l ++ [13]) ++ 0 :: rest) = pre ++ l ++ 0 :: 0 :: rest) as ->.
      { replace (length pre + (length l + 1) - 1)%nat with (length (pre ++ l)) by list_len. rewrite <- app_assoc, app_assoc.
        by rewrite insert_app_r_alt, Nat.sub_diag, <- app_assoc by lia. }
      rewrite drop_app_length, c_str_cut. by list_norm.
    + exists (l ++ [x; 0]). rewrite decide_False by (intros [_ [=]]; done). split; [list_len|].
      rewrite drop_app_length, c_str_cut. by list_norm.
Qed.

Lemma remaining_nil lr : lr_ok lr → remaining lr = [] ↔ data_begin lr = data_end lr.
Proof using Type.
  intros [Hlen Hord Hfull]. unfold remaining. split.
  - intros [Ht _]%app_eq_nil. apply (f_equal length) in Ht. rewrite length_take, length_drop in Ht. cbn in Ht. lia.
  - intros He. rewrite He, Nat.sub_diag, take_0. cbn [app]. destruct (unread (reader lr)); [done|].
    destruct Hfull as [? ?]; [done|lia].
Qed.
Lemma front lr w m : lr_ok lr → (data_begin lr < B)%nat → remaining lr = w ++ m → (length w ≤ B)%nat →
  ∃ rest, drop (data_begin lr) (buffer lr) = w ++ rest ∧ (length w ≤ data_end lr - data_begin lr)%nat ∧
    m = take (data_end lr - data_begin lr - length w) rest ++ unread (reader lr).
Proof using Type.
  intros [Hlen Hord Hfull] Hb E Hw. unfold remaining in E. set (n := (data_end lr - data_begin lr)%nat) in *.
  set (d := drop (data_begin lr) (buffer lr)) in *. assert (length d = 3 * B - data_begin lr)%nat as Hd by (unfold d; rewrite length_drop; lia).
  assert (length w ≤ n)%nat as Hn.
  { destruct (unread (reader lr)) as [|u us]; [|destruct Hfull as [? ?]; [done|unfold n; lia]].
    apply (f_equal length) in E. rewrite !length_app, length_take in E. cbn [length] in E. unfold n in *. lia. }
  assert (take (length w) d = w) as Ew.
  { apply (f_equal (take (length w))) in E. rewrite take_app_le in E by (rewrite length_take; unfold n in *; lia).
    rewrite take_take, Nat.min_l, take_app_length in E by done. done. }
  exists (drop (length w) d). split; [by rewrite <- Ew at 1; rewrite take_drop|]. split; [done|].
  apply (f_equal (drop (length w))) in E. rewrite drop_app_length in E. rewrite <- E.
  rewrite drop_app_le by (rewrite length_take; unfold n in *; lia). by rewrite skipn_firstn_comm.
Qed.

Lemma next_line_none lr : lr_ok lr → remaining lr = [] → next_line B lr = returns (None, lr).
Proof using Type. intros Hok Hr%remaining_nil; [|done]. unfold next_line. by rewrite (proj2 (Nat.eqb_eq _ _)). Qed.
(** A call when there is something to read, up to the search for the end of the line. *)
Lemma next_line_some lr : (0 < B)%nat → lr_ok lr → remaining lr ≠ [] →
  ∃ lr', lr_ok lr' ∧ remaining lr' = remaining lr ∧ (data_begin lr' < B)%nat ∧
    (reader lr = NoReader → reader lr' = NoReader ∧ ((data_end lr < 2 * B)%nat → (data_end lr' < 2 * B)%nat ∧ buffer lr' !! data_end lr' = buffer lr !! data_end lr)) ∧
    next_line B lr = (k ← scan (data_end lr' - data_begin lr') (drop (data_begin lr') (buffer lr'));
                      if Nat.ltb B (k + 1) then throws line_length_limit_exceeded else returns (end_line k lr')).
Proof using Type.
  intros HB Hok Hr. assert (data_begin lr ≠ data_end lr) as Hne by (intros H; by apply Hr, remaining_nil).
  pose proof (lr_order _ Hok) as Hord.
  destruct (refill_ok (MkLineReader (buffer lr) (reader lr) (data_begin lr) (data_end lr) (u32 (file_line lr + 1)))) as (lr' & E & Hok' & Hr' & Hb & _ & Hs).
  - done.
  - by destruct Hok; split.
  - cbn. lia.
  - exists lr'. split_and!; [done|by rewrite Hr'|done|done|]. unfold next_line. rewrite (proj2 (Nat.eqb_neq _ _)) by done.
    cbv zeta. cbn [data_begin data_end]. rewrite (proj2 (Nat.ltb_lt (data_begin lr) (data_end lr))), (proj2 (Nat.leb_le (data_end lr) (2 * B))) by lia.
    cbn [cxx_assert mbind outcome_bind]. by rewrite E.
Qed.

(** ** The three ways the rest of a file begins *)

Lemma next_line_line lr line more : (0 < B)%nat → lr_ok lr → remaining lr = line ++ 10 :: more → 10 ∉ line → (length line < B)%nat →
  ∃ p lr', next_line B lr = returns (Some (p, line_text line), lr') ∧ lr_ok lr' ∧ remaining lr' = more ∧
    (reader lr = NoReader → (data_end lr < 2 * B)%nat →
       reader lr' = NoReader ∧ (data_end lr' < 2 * B)%nat ∧ buffer lr' !! data_end lr' = buffer lr !! data_end lr).
Proof using Type.
  intros HB Hok Hr Hin Hl. destruct (next_line_some lr HB Hok) as (lr1 & Hok1 & Hr1 & Hb & Hs & ->); [rewrite Hr; by destruct line|].
  rewrite Hr in Hr1. change (10 :: more) with ([10] ++ more) in Hr1. rewrite app_assoc in Hr1.
  destruct (front lr1 _ _ Hok1 Hb Hr1) as (rest & Ed & Hn & Hm); [list_len|]. rewrite length_app in Hn, Hm. cbn [length] in Hn, Hm.
  destruct Hok1 as [Hlen Hord Hfull]. destruct lr1 as [buf r b e n]. cbn [buffer reader data_begin data_end] in *.
  rewrite <- app_assoc in Ed. cbn [app] in Ed. rewrite Ed, (scan_line line) by (done || lia || by left). cbn [mbind outcome_bind].
  rewrite (proj2 (Nat.ltb_ge B (length line + 1))) by lia.
  assert (buf = take b buf ++ line ++ 10 :: rest) as Eb by (by rewrite <- Ed, take_drop).
  assert (length (take b buf) = b) as Hlb by (rewrite length_take; lia).
  destruct (end_line_spec (take b buf) line 10 rest r e n) as (mid & Hmid & E). rewrite <- Eb, Hlb in E. rewrite E. cbn [Z.eqb Pos.eqb].
  assert (length rest = 3 * B - (b + length line + 1))%nat as Hrest by (apply (f_equal length) in Eb; rewrite !length_app in Eb; cbn [length] in Eb; lia).
  assert (drop (S (b + length line)) (take b buf ++ mid ++ rest) = rest) as Edrop.
  { rewrite app_assoc. replace (S (b + length line)) with (length (take b buf ++ mid)) by (rewrite length_app; lia). apply drop_app_length. }
  eexists _, _. split; [done|]. split; [|split].
  - split; cbn [buffer reader data_begin data_end]; [rewrite !length_app; lia|lia|].
    intros Hu. destruct (Hfull Hu). lia.
  - unfold remaining. cbn [buffer reader data_begin data_end]. rewrite Edrop, Hm. do 2 f_equal. lia.
  - cbn [buffer reader data_begin data_end]. intros Hrd Hlt. destruct (Hs Hrd) as [? Hs2]. destruct (Hs2 Hlt) as [? <-]. split_and!; [done|done|].
    rewrite Eb at 2. rewrite 2!lookup_app_r by lia. rewrite (lookup_app_r (take b buf)) by lia. rewrite !Hlb, lookup_app_r by lia.
    rewrite (lookup_cons_ne_0 rest) by lia. f_equal. lia.
Qed.

(** The last line without a newline: the byte behind the data decides what becomes of the
    reader. *)
Lemma next_line_last lr line : (0 < B)%nat → lr_ok lr → remaining lr = line → line ≠ [] → 10 ∉ line → (length line < B)%nat →
  ∃ p lr' (ok : bool), next_line B lr = returns (Some (p, line_text line), lr') ∧
    next_line B lr' = (if ok then returns (None, lr') else Aborted) ∧
    (reader lr = NoReader → (data_end lr < 2 * B)%nat → ok = bool_decide (buffer lr !! data_end lr ≠ Some 10)).
Proof using Type.
  intros HB Hok Hr Hne Hin Hl. destruct (next_line_some lr HB Hok) as (lr1 & Hok1 & Hr1 & Hb & Hs & ->); [by rewrite Hr|].
  rewrite Hr in Hr1. rewrite <- (app_nil_r line) in Hr1.
  destruct (front lr1 _ _ Hok1 Hb Hr1) as (rest & Ed & Hn & Hm); [lia|]. symmetry in Hm. apply app_eq_nil in Hm as [Ht Hu].
  destruct Hok1 as [Hlen Hord Hfull]. destruct lr1 as [buf r b e n]. cbn [buffer reader data_begin data_end] in *.
  assert (length line + length rest = 3 * B - b)%nat as Hlr by (rewrite <- length_app, <- Ed, length_drop; lia).
  destruct rest as [|c rest]; [cbn in Hlr; lia|]. cbn [length] in Hlr.
  assert (e - b = length line)%nat as He.
  { destruct (e - b - length line)%nat eqn:En; [lia|done]. }
  rewrite Ed, (scan_line line) by (done || lia || by right). cbn [mbind outcome_bind]. rewrite (proj2 (Nat.ltb_ge B (length line + 1))) by lia.
  assert (buf = take b buf ++ line ++ c :: rest) as Eb by (by rewrite <- Ed, take_drop).
  assert (length (take b buf) = b) as Hlb by (rewrite length_take; lia).
  destruct (end_line_spec (take b buf) line c rest r e n) as (mid & Hmid & E). rewrite <- Eb, Hlb in E. rewrite E.
  assert (buf !! e = Some c) as Hc.
  { rewrite Eb, app_assoc. replace e with (length (take b buf ++ line)) by (rewrite length_app; lia). by apply list_lookup_middle. }
  eexists b, _, (negb (c =? 10)). split; [done|]. split.
  - unfold next_line. cbn [buffer reader data_begin data_end]. destruct (c =? 10); cbn [negb].
    + rewrite (proj2 (Nat.eqb_neq _ _)) by lia. cbv zeta. cbn [data_begin data_end]. by rewrite (proj2 (Nat.ltb_ge _ _)) by lia.
    + by rewrite (proj2 (Nat.eqb_eq _ _)) by lia.
  - intros Hrd Hlt. destruct (Hs Hrd) as [_ Hs2]. destruct (Hs2 Hlt) as [_ <-]. rewrite Hc.
    destruct (Z.eqb_spec c 10) as [-> |Hc10]; [by rewrite bool_decide_eq_false_2 by auto|]. rewrite bool_decide_eq_true_2; [done|]. by intros [= ].
Qed.
Lemma next_line_long lr w m : (0 < B)%nat → lr_ok lr → remaining lr = w ++ m → length w = B → 10 ∉ w → next_line B lr = throws line_length_limit_exceeded.
Proof using Type.
  intros HB Hok Hr Hw Hin. destruct (next_line_some lr HB Hok) as (lr1 & Hok1 & Hr1 & Hb & _ & ->); [rewrite Hr; destruct w; [cbn in Hw; lia|done]|].
  rewrite Hr in Hr1. destruct (front lr1 _ _ Hok1 Hb Hr1) as (rest & Ed & Hn & _); [lia|].
  destruct Hok1 as [Hlen Hord _]. assert (length (w ++ rest) = 3 * B - data_begin lr1)%nat as Hl by (rewrite <- Ed, length_drop; lia). rewrite Ed.
  destruct (scan_long (data_end lr1 - data_begin lr1) (w ++ rest) B) as (k & -> & Hk); [lia|lia| |lia|].
  - by rewrite take_app_le, take_ge by lia.
  - cbn [mbind outcome_bind]. by rewrite (proj2 (Nat.ltb_lt B (k + 1))) by lia.
Qed.

(** ** A whole file *)

Definition opens_with (bom text : list Z) : Prop := bom = BOM ∨ (bom = [] ∧ take 3 text ≠ BOM).
Definition text_of (ls : list (list Z)) : list Z := concat (map (λ l, l ++ [10]) ls).
Definition short_line (l : list Z) : Prop := 10 ∉ l ∧ (length l < B)%nat.

Lemma init_ok junk bom text : (2 ≤ B)%nat → length junk = (3 * B)%nat → opens_with bom text →
  lr_ok (init B junk (bom ++ text)) ∧ remaining (init B junk (bom ++ text)) = text ∧
  ((length (bom ++ text) < 2 * B)%nat → reader (init B junk (bom ++ text)) = NoReader ∧
     (data_end (init B junk (bom ++ text)) < 2 * B)%nat ∧
     buffer (init B junk (bom ++ text)) !! data_end (init B junk (bom ++ text)) = junk !! length (bom ++ text)).
Proof using Type.
  intros HB Hj Hbom. set (src := bom ++ text). unfold init. set (e := Nat.min (2 * B) (length src)).
  assert (length (take e src) = e) as He by (rewrite length_take; lia).
  assert (take e (take e src ++ drop e junk) = take e src) as -> by (rewrite take_app_le, take_ge by lia; done). set (b := if bool_decide (take 3 (take e src) = BOM) then 3%nat else 0%nat).
  assert (b = length bom ∧ b ≤ e ∧ b < 2 * B)%nat as (Hb & Hbe & HbB).
  { unfold b, src in *. destruct Hbom as [-> |[-> Hn]].
    - rewrite take_take, Nat.min_l by (unfold e; rewrite length_app; cbn [length BOM]; lia).
      change (take 3 (BOM ++ text)) with BOM. rewrite bool_decide_eq_true_2 by done. unfold e. rewrite length_app. cbn [length BOM]. lia.
    - cbn [app] in *. rewrite bool_decide_eq_false_2; [cbn [length]; lia|]. rewrite take_take. intros H3. apply Hn.
      destruct (decide (3 ≤ e)%nat); [by rewrite Nat.min_l in H3|]. rewrite Nat.min_r in H3 by lia.
      apply (f_equal length) in H3. rewrite He in H3. cbn in H3. lia. }
  split; [|split].
  - split; cbn [buffer reader data_begin data_end]; [rewrite length_app, length_drop; lia|lia|].
    destruct (Nat.eqb_spec e (2 * B)) as [->|]; [|done]. intros _. split; [done|]. lia.
  - unfold remaining. cbn [buffer reader data_begin data_end]. rewrite drop_app_le, take_app_le by (rewrite ?length_drop; lia).
    rewrite take_ge by (rewrite length_drop; lia).
    assert (unread (if Nat.eqb e (2 * B) then Reading (drop (2 * B) src) else NoReader) = drop e src) as ->.
    { destruct (Nat.eqb_spec e (2 * B)) as [->|Hne]; [done|]. cbn [unread]. symmetry. apply drop_ge. lia. }
    rewrite <- drop_app_le by lia. rewrite take_drop, Hb. apply drop_app_length.
  - intros Hl. cbn [buffer reader data_begin data_end]. assert (e = length src) as Hes by lia. rewrite (proj2 (Nat.eqb_neq e _)) by lia.
    split; [done|]. split; [lia|]. rewrite lookup_app_r, He, Nat.sub_diag, lookup_drop by lia. by rewrite Nat.add_0_r, Hes.
Qed.

Lemma next_lines_text ls rest : (0 < B)%nat → Forall short_line ls → ∀ lr, lr_ok lr → remaining lr = text_of ls ++ rest →
  ∃ lr', next_lines B (length ls) lr = returns (map line_text ls, lr') ∧ lr_ok lr' ∧ remaining lr' = rest ∧
    (reader lr = NoReader → (data_end lr < 2 * B)%nat →
       reader lr' = NoReader ∧ (data_end lr' < 2 * B)%nat ∧ buffer lr' !! data_end lr' = buffer lr !! data_end lr).
Proof using Type.
  intros HB. induction 1 as [|l ls [Hin Hl] Hls IH]; intros lr Hok Hr; [by exists lr|].
  unfold text_of in Hr. cbn [map concat] in Hr. rewrite <- !app_assoc in Hr.
  destruct (next_line_line lr l _ HB Hok Hr Hin Hl) as (p & lr1 & E1 & Hok1 & Hr1 & Hs1).
  destruct (IH lr1 Hok1 Hr1) as (lr2 & E2 & Hok2 & Hr2 & Hs2). exists lr2. cbn [length next_lines map]. rewrite E1. cbn [tbind returns]. rewrite E2.
  split; [done|]. split; [done|]. split; [done|]. intros H1 H2. destruct (Hs1 H1 H2) as (H3 & H4 & <-). by apply Hs2.
Qed.

(** C21 (refinement): reading lines refines splitting the file.  For blocks of any size above one byte, a file that
    may begin with a byte order mark, and any bytes in the new buffer: the calls give the
    lines of the file in order, each without its carriage return and up to a NUL, however
    the blocks cut them.  Then comes the end of the file; or a line of at least a
    block, which throws; or a last line without a newline, which is given too, but
    then the reader takes the byte behind the data for the end of that line if it is a newline: in a
    file of less than two blocks, if the uninitialised buffer holds one there.  The next call then fails an assertion. *)
Theorem lines_read junk bom ls rest : (2 ≤ B)%nat → length junk = (3 * B)%nat → Forall short_line ls →
  opens_with bom (text_of ls ++ rest) → let src := bom ++ text_of ls ++ rest in
  ∃ lr, next_lines B (length ls) (init B junk src) = returns (map line_text ls, lr) ∧
    (rest = [] → next_line B lr = returns (None, lr)) ∧
    ((B ≤ length rest)%nat → 10 ∉ take B rest → next_line B lr = throws line_length_limit_exceeded) ∧
    (rest ≠ [] → short_line rest → ∃ p lr' (ok : bool), next_line B lr = returns (Some (p, line_text rest), lr') ∧
       next_line B lr' = (if ok then returns (None, lr') else Aborted) ∧
       ((length src < 2 * B)%nat → ok = bool_decide (junk !! length src ≠ Some 10))).
Proof using Type.
  intros HB Hj Hls Hbom src. destruct (init_ok junk bom _ HB Hj Hbom) as (Hok & Hr & Hs).
  destruct (next_lines_text ls rest ltac:(lia) Hls _ Hok Hr) as (lr & E & Hok1 & Hr1 & Hs1). exists lr. split; [exact E|]. split; [|split].
  - intros ->. by apply next_line_none.
  - intros Hl Hin. apply (next_line_long lr (take B rest) (drop B rest)); [lia|done|by rewrite take_drop|rewrite length_take; lia|done].
  - intros Hne [Hin Hl]. destruct (next_line_last lr rest) as (p & lr' & ok & E1 & E2 & Hend); [lia|done..|].
    exists p, lr', ok. split; [done|]. split; [done|]. intros Hsrc. destruct (Hs Hsrc) as (H1 & H2 & H3). destruct (Hs1 H1 H2) as (H4 & H5 & H6).
    by rewrite Hend, H6, H3.
Qed.
End Spec.

(** ** Blocks of four bytes *)

(** Three lines across the blocks; then the same without the last newline, where the bytes that a
    block leaves behind end in a newline. *)
Lemma lines_read_witness :
  (∃ lr, next_lines 4 3 (init 4 (replicate 12 0) (str "abc" ++ [10] ++ str "d" ++ [13; 10] ++ str "efg" ++ [10])) = returns ([str "abc"; str "d"; str "efg"], lr) ∧
     next_line 4 lr = returns (None, lr)) ∧
  (∃ lr lr' p, next_lines 4 1 (init 4 (replicate 12 10) (str "abc" ++ [10] ++ str "de")) = returns ([str "abc"], lr) ∧
     next_line 4 lr = returns (Some (p, str "de"), lr') ∧ next_line 4 lr' = Aborted).
Proof.
  split.
  - destruct (lines_read 4 (replicate 12 0) [] [str "abc"; str "d" ++ [13]; str "efg"] []) as (lr & E & Hend & _); [lia|done| |by right|].
    + repeat constructor; try (cbn; lia); apply (bool_decide_unpack _); vm_compute; exact I.
    + exists lr. split; [exact E|by apply Hend].
  - destruct (lines_read 4 (replicate 12 10) [] [str "abc"] (str "de")) as (lr & E & _ & _ & Hlast); [lia|done| |by right|].
    + repeat constructor; try (cbn; lia); apply (bool_decide_unpack _); vm_compute; exact I.
    + destruct Hlast as (p & lr' & ok & E1 & E2 & Hok); [done|split; [apply (bool_decide_unpack _); vm_compute; exact I|vm_compute; lia]|].
      exists lr, lr', p. split; [exact E|]. split; [exact E1|]. rewrite E2, Hok by (vm_compute; lia). reflexivity.
Defined.
