(* ===== verification/Csv.v ===== *)
(** * CSV files: csv/CsvReader.h and csv/CsvParser.h

    Columns, headers and cells above the lines of CsvLines.v, and parseCsv, which hands the
    values of the wanted columns to a function, row by row.  The policies that are template
    arguments in the code are arguments here; cells of floating point are left out. *)

From S2P Require Import Prelude CLib Strings CsvLines.
Open Scope csv_scope.

(** ** Policies *)

(** [trim_chars<' ', '\t'>].  [first] says that the column begins with the buffer: then, when it
    is empty, the byte before the buffer is looked at. *)
Definition is_trim_char (c : Z) : bool := (c =? 32) || (c =? 9).
Fixpoint ltrim (l : list Z) : list Z := match l with c :: l' => if is_trim_char c then ltrim l' else l | [] => [] end.
Definition rtrim (l : list Z) : list Z := reverse (ltrim (reverse l)).
Definition trim (first : bool) (col : list Z) : throwing (list Z) :=
  if first && bool_decide (col = []) then Undef else returns (rtrim (ltrim col)).

(** A comment policy says which lines are skipped. *)
Definition no_comment (line : list Z) : bool := false.
Definition single_line_comment (starts : list Z) (line : list Z) : bool :=
  match line with c :: _ => bool_decide (c ∈ starts) | [] => bool_decide (0 ∈ starts) end.
Fixpoint empty_line_comment (line : list Z) : bool :=
  match line with [] => true | c :: line => if is_trim_char c then empty_line_comment line else false end.
Definition single_and_empty_line_comment (starts : list Z) (line : list Z) : bool :=
  single_line_comment starts line || empty_line_comment line.

(** A quote policy finds the end of a column and takes its quotes away. *)
Record quote_policy := QuotePolicy { find_next_column_end : list Z → throwing nat; unescape : list Z → list Z }.

Fixpoint no_quote_end (sep : Z) (s : list Z) : throwing nat :=
  match s with
  | [] => returns O
  | c :: s => if c =? sep then returns O else k ←! no_quote_end sep s; returns (S k)
  end.
Definition no_quote_escape (sep : Z) : quote_policy := QuotePolicy (no_quote_end sep) (λ col, col).

(** [inside]: between an opening quote and its closing one. *)
Fixpoint double_quote_end (sep quote : Z) (inside : bool) (s : list Z) : throwing nat :=
  match s with
  | [] => if inside then throws escaped_string_not_closed else returns O
  | c :: s =>
      if inside then k ←! double_quote_end sep quote (negb (c =? quote)) s; returns (S k)
      else if c =? sep then returns O
      else k ←! double_quote_end sep quote (c =? quote) s; returns (S k)
  end.
Fixpoint single_quotes (quote : Z) (l : list Z) : list Z :=
  match l with
  | c :: l =>
      match l with
      | c' :: l' => if (c =? quote) && (c' =? quote) then quote :: single_quotes quote l' else c :: single_quotes quote l
      | [] => [c]
      end
  | [] => []
  end.
Definition double_quote_unescape (quote : Z) (col : list Z) : list Z :=
  match col with
  | c :: (_ :: _) as col' =>
      if decide (c = quote ∧ last col = Some quote) then single_quotes quote (removelast (tail col)) else col
  | _ => col
  end.
Definition double_quote_escape (sep quote : Z) : quote_policy :=
  QuotePolicy (double_quote_end sep quote false) (double_quote_unescape quote).

Inductive overflow_policy := throw_on_overflow | ignore_overflow | set_to_max_on_overflow.
Definition on_overflow (p : overflow_policy) (max x : Z) : throwing Z :=
  match p with throw_on_overflow => throws integer_overflow | ignore_overflow => returns x | set_to_max_on_overflow => returns max end.
Definition on_underflow (p : overflow_policy) (min x : Z) : throwing Z :=
  match p with throw_on_overflow => throws integer_underflow | ignore_overflow => returns x | set_to_max_on_overflow => returns min end.

(** ** Cells *)

Inductive csv_type := CsvUnsigned (w : Z) | CsvSigned (w : Z) | CsvChar | CsvString.
Inductive csv_value := VInt (z : Z) | VChar (c : Z) | VString (s : list Z).

Fixpoint unsigned_loop (p : overflow_policy) (max : Z) (col : list Z) (x : Z) : throwing Z :=
  match col with
  | [] => returns x
  | c :: col =>
      if isdigit c then
        let y := c - 48 in
        if (max - y) / 10 <? x then on_overflow p max x else unsigned_loop p max col (10 * x + y)
      else throws no_digit
  end.
Definition parse_unsigned_integer (p : overflow_policy) (max : Z) (col : list Z) : throwing Z := unsigned_loop p max col 0.
(** The division of C++ rounds towards zero. *)
Fixpoint negative_loop (p : overflow_policy) (min : Z) (col : list Z) (x : Z) : throwing Z :=
  match col with
  | [] => returns x
  | c :: col =>
      if isdigit c then
        let y := c - 48 in
        if x <? Z.quot (min + y) 10 then on_underflow p min x else negative_loop p min col (10 * x - y)
      else throws no_digit
  end.
Definition parse_signed_integer (p : overflow_policy) (min max : Z) (col : list Z) : throwing Z :=
  match col with
  | c :: col' =>
      if c =? ch "-" then negative_loop p min col' 0
      else if c =? ch "+" then parse_unsigned_integer p max col' else parse_unsigned_integer p max col
  | [] => parse_unsigned_integer p max col
  end.
Definition parse (p : overflow_policy) (ty : csv_type) (col : list Z) : throwing csv_value :=
  match ty with
  | CsvUnsigned w => z ←! parse_unsigned_integer p (2 ^ w - 1) col; returns (VInt z)
  | CsvSigned w => z ←! parse_signed_integer p (- 2 ^ (w - 1)) (2 ^ (w - 1) - 1) col; returns (VInt z)
  | CsvChar => match col with [c] => returns (VChar c) | _ => throws invalid_single_character end
  | CsvString => returns (VString col)
  end.

(** ** Rows and headers *)

Section Reader.
Context (B : nat) (is_comment : list Z → bool) (Q : quote_policy) (p : overflow_policy).

(** The column and what follows its separator; [None] is the null pointer. *)
Definition chop_next_column (line : list Z) : throwing (list Z * option (list Z)) :=
  k ←! find_next_column_end Q line;
  returns (take k line, match drop k line with [] => None | _ :: rest => Some rest end).

(** [col_order] has [None] where the code has -1. *)
Fixpoint parse_line (col_order : list (option nat)) (first : bool) (line : option (list Z)) (sorted_col : list (option (list Z))) : throwing (list (option (list Z))) :=
  match col_order with
  | [] => match line with Some _ => throws too_many_columns | None => returns sorted_col end
  | i :: col_order =>
      match line with
      | None => throws too_few_columns
      | Some line =>
          r ←! chop_next_column line;
          match i with
          | None => parse_line col_order false (snd r) sorted_col
          | Some i => col ←! trim first (fst r); parse_line col_order false (snd r) (<[i := Some (unescape Q col)]> sorted_col)
          end
      end
  end.

Definition find_name (col_name : list (list Z)) (col : list Z) : option nat := fst <$> list_find (λ n, n = col) col_name.
Definition ignore_extra_column : Z := 1.
Definition ignore_missing_column : Z := 2.
Definition ignores (policy bit : Z) : bool := negb (Z.land policy bit =? 0).

Fixpoint header_loop (fuel : nat) (col_name : list (list Z)) (policy : Z) (first : bool) (line : option (list Z))
    (found : list bool) (col_order : list (option nat)) : throwing (list bool * list (option nat)) :=
  match line with
  | None => returns (found, col_order)
  | Some line =>
      match fuel with
      | O => Undef
      | S fuel =>
          r ←! chop_next_column line;
          col ←! trim first (fst r);
          match find_name col_name (unescape Q col) with
          | Some i =>
              if decide (found !! i = Some true) then throws duplicated_column_in_header
              else header_loop fuel col_name policy false (snd r) (<[i := true]> found) (col_order ++ [Some i])
          | None =>
              if ignores policy ignore_extra_column then header_loop fuel col_name policy false (snd r) found (col_order ++ [None])
              else throws extra_column_in_header
          end
      end
  end.
Definition parse_header_line (col_name : list (list Z)) (policy : Z) (first : bool) (line : list Z) : throwing (list (option nat)) :=
  r ←! header_loop (S (length line)) col_name policy first (Some line) (replicate (length col_name) false) [];
  if negb (ignores policy ignore_missing_column) && negb (forallb id (fst r)) then throws missing_column_in_header
  else returns (snd r).

(** ** CSVReader *)

Record CSVReader := MkCSVReader {
  csv_in : LineReader; row : list (option (list Z)); column_names : list (list Z); col_order : list (option nat)
}.
Definition new_CSVReader (column_count : nat) (junk source : list Z) : CSVReader :=
  MkCSVReader (init B junk source) (replicate column_count None)
    (map (λ i, str "col" ++ dec (Z.of_nat i)) (seq 1 column_count)) (map Some (seq 0 column_count)).
Definition csv_next_line (r : CSVReader) : throwing (option (nat * list Z) * CSVReader) :=
  l ←! next_line B (csv_in r); returns (fst l, MkCSVReader (snd l) (row r) (column_names r) (col_order r)).
(** The next line that is no comment.  Each turn takes a byte at least. *)
Fixpoint skip_comments (fuel : nat) (r : CSVReader) : throwing (option (nat * list Z) * CSVReader) :=
  l ←! csv_next_line r;
  match fst l with
  | Some (_, line) => if is_comment line then match fuel with O => Undef | S fuel => skip_comments fuel (snd l) end else returns l
  | None => returns l
  end.
Definition next_row (r : CSVReader) : throwing (option (nat * list Z) * CSVReader) :=
  skip_comments (S (length (remaining (csv_in r)))) r.

Definition read_header (policy : Z) (names : list (list Z)) (r : CSVReader) : throwing CSVReader :=
  l ←! next_row (MkCSVReader (csv_in r) (row r) names (col_order r));
  match fst l with
  | None => throws header_missing
  | Some (at_, line) =>
      order ←! parse_header_line names policy (Nat.eqb at_ 0) line;
      returns (MkCSVReader (csv_in (snd l)) (row (snd l)) names order)
  end.
Definition set_header (names : list (list Z)) (r : CSVReader) : CSVReader :=
  MkCSVReader (csv_in r) (replicate (length names) None) names (map Some (seq 0 (length names))).
Definition has_column (name : list Z) (r : CSVReader) : bool :=
  bool_decide (Some (default (length (column_names r)) (find_name (column_names r) name)) ∈ col_order r).

(** A variable whose column is not there keeps its value. *)
Fixpoint parse_helper (row : list (option (list Z))) (types : list csv_type) (vals : list csv_value) : throwing (list csv_value) :=
  match row, types, vals with
  | cell :: row, ty :: types, v :: vals =>
      v ←! match cell with Some col => parse p ty col | None => returns v end;
      vs ←! parse_helper row types vals;
      returns (v :: vs)
  | _, _, _ => returns []
  end.
Definition read_row (types : list csv_type) (vals : list csv_value) (r : CSVReader) : throwing (option (list csv_value) * CSVReader) :=
  l ←! next_row r;
  let '(o, r) := l : option (nat * list Z) * CSVReader in
  match o with
  | None => returns (None, r)
  | Some (at_, line) =>
      row' ←! parse_line (col_order r) (Nat.eqb at_ 0) (Some line) (row r);
      vals ←! parse_helper row' types vals;
      returns (Some vals, MkCSVReader (csv_in r) row' (column_names r) (col_order r))
  end.

(** ** parseCsv *)

(** The calls of [func] and the result.  The variables live outside the loop; the function gets
    references to them and is taken to leave them. *)
Fixpoint rows_loop (fuel : nat) (types : list csv_type) (row : Z) (vals : list csv_value) (r : CSVReader) (calls : list (Z * list csv_value)) :
    outcome (bool * list (Z * list csv_value)) :=
  q ← read_row types vals r;
  match q with
  | inl _ => Ret (false, calls)
  | inr (None, _) => Ret (true, calls)
  | inr (Some vals, r) =>
      if 2 ^ 31 - 1 <=? row then Undef
      else match fuel with O => Undef | S fuel => rows_loop fuel types (row + 1) vals r (calls ++ [(row, vals)]) end
  end.
(** [file] is [None] when it can not be opened.  Whatever is thrown is caught and logged. *)
Definition parse_with (junk : list Z) (file : option (list Z)) (cols : list (list Z * csv_type)) (vals : list csv_value) :
    outcome (bool * list (Z * list csv_value)) :=
  match file with
  | None => Ret (false, [])
  | Some source =>
      q ← (l ←! csv_next_line (new_CSVReader (length cols) junk source); read_header ignore_extra_column (map fst cols) (snd l));
      match q with
      | inl _ => Ret (false, [])
      | inr r => rows_loop (S (length (remaining (csv_in r)))) (map snd cols) 0 vals r []
      end
  end.
End Reader.

(** The template with its default policies, for any number of columns. *)
Definition parseCsv : list Z → option (list Z) → list (list Z * csv_type) → list csv_value → outcome (bool * list (Z * list csv_value)) :=
  parse_with block_len no_comment (no_quote_escape (ch ",")) throw_on_overflow.

(** The templates of CsvParser.h: one for each number of columns up to twenty. *)
Definition parseCsv_1 junk file c1 := parseCsv junk file [c1].
Definition parseCsv_2 junk file c1 c2 := parseCsv junk file [c1; c2].
Definition parseCsv_3 junk file c1 c2 c3 := parseCsv junk file [c1; c2; c3].
Definition parseCsv_4 junk file c1 c2 c3 c4 := parseCsv junk file [c1; c2; c3; c4].
Definition parseCsv_5 junk file c1 c2 c3 c4 c5 := parseCsv junk file [c1; c2; c3; c4; c5].
Definition parseCsv_6 junk file c1 c2 c3 c4 c5 c6 := parseCsv junk file [c1; c2; c3; c4; c5; c6].
Definition parseCsv_7 junk file c1 c2 c3 c4 c5 c6 c7 := parseCsv junk file [c1; c2; c3; c4; c5; c6; c7].
Definition parseCsv_8 junk file c1 c2 c3 c4 c5 c6 c7 c8 := parseCsv junk file [c1; c2; c3; c4; c5; c6; c7; c8].
Definition parseCsv_9 junk file c1 c2 c3 c4 c5 c6 c7 c8 c9 := parseCsv junk file [c1; c2; c3; c4; c5; c6; c7; c8; c9].
Definition parseCsv_10 junk file c1 c2 c3 c4 c5 c6 c7 c8 c9 c10 := parseCsv junk file [c1; c2; c3; c4; c5; c6; c7; c8; c9; c10].
Definition parseCsv_11 junk file c1 c2 c3 c4 c5 c6 c7 c8 c9 c10 c11 := parseCsv junk file [c1; c2; c3; c4; c5; c6; c7; c8; c9; c10; c11].
Definition parseCsv_12 junk file c1 c2 c3 c4 c5 c6 c7 c8 c9 c10 c11 c12 := parseCsv junk file [c1; c2; c3; c4; c5; c6; c7; c8; c9; c10; c11; c12].
Definition parseCsv_13 junk file c1 c2 c3 c4 c5 c6 c7 c8 c9 c10 c11 c12 c13 := parseCsv junk file [c1; c2; c3; c4; c5; c6; c7; c8; c9; c10; c11; c12; c13].
Definition parseCsv_14 junk file c1 c2 c3 c4 c5 c6 c7 c8 c9 c10 c11 c12 c13 c14 := parseCsv junk file [c1; c2; c3; c4; c5; c6; c7; c8; c9; c10; c11; c12; c13; c14].
Definition parseCsv_15 junk file c1 c2 c3 c4 c5 c6 c7 c8 c9 c10 c11 c12 c13 c14 c15 := parseCsv junk file [c1; c2; c3; c4; c5; c6; c7; c8; c9; c10; c11; c12; c13; c14; c15].
Definition parseCsv_16 junk file c1 c2 c3 c4 c5 c6 c7 c8 c9 c10 c11 c12 c13 c14 c15 c16 := parseCsv junk file [c1; c2; c3; c4; c5; c6; c7; c8; c9; c10; c11; c12; c13; c14; c15; c16].
Definition parseCsv_17 junk file c1 c2 c3 c4 c5 c6 c7 c8 c9 c10 c11 c12 c13 c14 c15 c16 c17 := parseCsv junk file [c1; c2; c3; c4; c5; c6; c7; c8; c9; c10; c11; c12; c13; c14; c15; c16; c17].
Definition parseCsv_18 junk file c1 c2 c3 c4 c5 c6 c7 c8 c9 c10 c11 c12 c13 c14 c15 c16 c17 c18 := parseCsv junk file [c1; c2; c3; c4; c5; c6; c7; c8; c9; c10; c11; c12; c13; c14; c15; c16; c17; c18].
Definition parseCsv_19 junk file c1 c2 c3 c4 c5 c6 c7 c8 c9 c10 c11 c12 c13 c14 c15 c16 c17 c18 c19 := parseCsv junk file [c1; c2; c3; c4; c5; c6; c7; c8; c9; c10; c11; c12; c13; c14; c15; c16; c17; c18; c19].
Definition parseCsv_20 junk file c1 c2 c3 c4 c5 c6 c7 c8 c9 c10 c11 c12 c13 c14 c15 c16 c17 c18 c19 c20 := parseCsv junk file [c1; c2; c3; c4; c5; c6; c7; c8; c9; c10; c11; c12; c13; c14; c15; c16; c17; c18; c19; c20].

(** ** What a table is, and how it is written *)

(** How a policy is used to write cells: [render] a cell that is [ok], with a separator after
    all but the last. *)
Class QuoteLaws (Q : quote_policy) (sep : Z) (render : list Z → list Z) (ok : list Z → Prop) := {
  q_sep : sep ≠ 0 ∧ sep ≠ 10 ∧ sep ≠ 13;
  q_end s : ok s → find_next_column_end Q (render s) = returns (length (render s));
  q_end_sep s rest : ok s → find_next_column_end Q (render s ++ sep :: rest) = returns (length (render s));
  q_unescape s : ok s → unescape Q (render s) = s;
  q_trim s : ok s → rtrim (ltrim (render s)) = render s;
  q_chars s : ok s → 10 ∉ render s ∧ 0 ∉ render s ∧ last (render s) ≠ Some 13
}.

Section Table.
Context (p : overflow_policy) (header : list (list Z)) (cols : list (list Z * csv_type)).

(** The cell of a row below a name of the header. *)
Definition cell_of (cells : list (list Z)) (name : list Z) : option (list Z) :=
  j ← list_find (λ h, h = name) header; cells !! fst j.
(** The values of the wanted columns, when the row is as long as the header and each of them
    can be read. *)
Definition row_values (cells : list (list Z)) : option (list csv_value) :=
  if decide (length cells = length header)
  then mapM (λ c, s ← cell_of cells (fst c); match parse p (snd c) s with Ret (inr v) => Some v | _ => None end) cols
  else None.
(** Rows are taken up to the first that is not as it should be. *)
Fixpoint taken (row : Z) (rows : list (list (list Z))) : bool * list (Z * list csv_value) :=
  match rows with
  | [] => (true, [])
  | cells :: rows =>
      match row_values cells with
      | Some vs => let '(rc, calls) := taken (row + 1) rows in (rc, (row, vs) :: calls)
      | None => (false, [])
      end
  end.
Definition table_calls (rows : list (list (list Z))) : bool * list (Z * list csv_value) :=
  if decide (Forall (λ c, fst c ∈ header) cols) then taken 0 rows else (false, []).
End Table.

Inductive csv_line := CommentLine (l : list Z) | RowLine (cells : list (list Z)).
Definition rows_of (body : list csv_line) : list (list (list Z)) := omap (λ l, match l with RowLine cells => Some cells | _ => None end) body.
Fixpoint drop_comments (body : list csv_line) : list csv_line :=
  match body with CommentLine _ :: body => drop_comments body | _ => body end.

(** ** Columns of a line *)

Section Line.
Context (Q : quote_policy) (sep : Z) (render : list Z → list Z) (ok : list Z → Prop) `{!QuoteLaws Q sep render ok}.

Definition line_of (cells : list (list Z)) : list Z := join sep (map render cells).
Definition rest_of (cells : list (list Z)) : option (list Z) := match cells with [] => None | _ => Some (line_of cells) end.

Lemma chop_line c cells : ok c → chop_next_column Q (line_of (c :: cells)) = returns (render c, rest_of cells).
Proof using All.
  intros Hc. unfold chop_next_column, line_of. destruct cells as [|c' cells].
  - cbn [map join]. rewrite q_end by done. cbn [tbind returns]. by rewrite take_ge, drop_ge by done.
  - cbn [map]. rewrite join_cons, q_end_sep by done. cbn [tbind returns]. by rewrite take_app_length, drop_app_length.
Qed.
Lemma trim_render first c : ok c → (first = true → render c ≠ []) → trim first (render c) = returns (render c).
Proof using All.
  intros Hc Hf. unfold trim. rewrite q_trim by done. destruct first; [|done]. by rewrite bool_decide_eq_false_2 by auto.
Qed.

Fixpoint fill (order : list (option nat)) (cells : list (list Z)) (row : list (option (list Z))) : list (option (list Z)) :=
  match order, cells with
  | i :: order, c :: cells => fill order cells (match i with Some i => <[i := Some c]> row | None => row end)
  | _, _ => row
  end.
Definition starts (first : bool) (cells : list (list Z)) : Prop := first = true → match cells with c :: _ => render c ≠ [] | [] => True end.

Lemma parse_line_spec order : ∀ cells first row, Forall ok cells → starts first cells →
  parse_line Q order first (rest_of cells) row =
  match Nat.compare (length order) (length cells) with
  | Eq => returns (fill order cells row) | Lt => throws too_many_columns | Gt => throws too_few_columns
  end.
Proof using All.
  induction order as [|i order IH]; intros cells first row Hok Hst; [by destruct cells|].
  destruct cells as [|c cells]; [done|]. apply Forall_cons in Hok as [Hc Hok]. cbn [rest_of parse_line length Nat.compare fill].
  rewrite chop_line by done. cbn [tbind returns fst snd]. assert (starts false cells) as Hs by done.
  destruct i as [i|]; [|by apply IH]. rewrite trim_render by done. cbn [tbind returns]. rewrite q_unescape by done. by apply IH.
Qed.

Lemma line_cells cells : (length cells ≤ S (length (line_of cells)))%nat.
Proof using Type.
  unfold line_of. induction cells as [|c [|c' cells] IH]; [simpl; lia..|]. cbn [map] in *. rewrite join_cons, length_app. cbn [length] in *. lia.
Qed.
Lemma in_line x cells : x ∈ line_of cells → x = sep ∨ ∃ c, c ∈ cells ∧ x ∈ render c.
Proof using Type.
  unfold line_of. induction cells as [|c [|c' cells] IH]; [by intros ?%elem_of_nil| |].
  - intros Hx. right. exists c. split; [by left|done].
  - cbn [map] in *. rewrite join_cons. intros [Hx|[-> |Hx]%elem_of_cons]%elem_of_app; [right; exists c; by split; [left|]|by left|].
    destruct (IH Hx) as [?|(d & Hd & ?)]; [by left|right]. exists d. by split; [right|].
Qed.
Lemma line_last cells : Forall ok cells → last (line_of cells) ≠ Some 13.
Proof using All.
  unfold line_of. induction 1 as [|c [|c' cells] Hc Hcs IH]; [done|by destruct (q_chars c Hc) as (_ & _ & ?)|].
  cbn [map] in *. rewrite join_cons, last_app, last_cons. destruct (last (join sep _)) eqn:E; [done|]. cbn. intros [= ?]. by destruct (q_sep (Q := Q)) as (_ & _ & ?).
Qed.
Lemma line_plain cells : Forall ok cells → 10 ∉ line_of cells ∧ no_nul (line_of cells).
Proof using All.
  intros Hok. destruct (q_sep (Q := Q)) as (H0 & H10 & _). split; intros [?|(c & Hc & Hx)]%in_line; [done| |done|];
    rewrite Forall_forall in Hok; by destruct (q_chars c (Hok c Hc)) as (? & ? & _).
Qed.
(** The reader gives a line back, whichever of the two line ends it has. *)
Lemma line_read cells eol : Forall ok cells → eol = [] ∨ eol = [13] → line_text (line_of cells ++ eol) = line_of cells.
Proof using All.
  intros Hok He. unfold line_text. assert (strip_cr (line_of cells ++ eol) = line_of cells) as ->; [|by apply c_str_id, line_plain].
  destruct He as [-> | ->]; [|by rewrite strip_cr_snoc]. rewrite app_nil_r. pose proof (line_last cells Hok) as Hl.
  destruct (line_of cells) as [|x l _] using rev_ind; [done|]. rewrite last_snoc in Hl. rewrite strip_cr_snoc, (proj2 (Z.eqb_neq x 13)); [done|congruence].
Qed.
End Line.

(** ** The header *)

Section Header.
Context (Q : quote_policy) (sep : Z) (render : list Z → list Z) (ok : list Z → Prop) `{!QuoteLaws Q sep render ok}.
Context (names : list (list Z)).

Lemma find_name_spec c i : find_name names c = Some i → names !! i = Some c.
Proof using Type.
  unfold find_name. destruct (list_find _ _) as [[j n]|] eqn:E; [|done]. intros [= <-].
  apply list_find_Some in E as (E & -> & _). done.
Qed.
Lemma find_name_at c i : NoDup names → names !! i = Some c → find_name names c = Some i.
Proof using Type.
  intros Hn Hi. unfold find_name. destruct (list_find (λ n, n = c) names) as [[j n]|] eqn:E.
  - apply list_find_Some in E as (E & -> & _). cbn. f_equal. by eapply NoDup_lookup.
  - apply list_find_None in E. rewrite Forall_forall in E. by destruct (E c (list_elem_of_lookup_2 _ _ _ Hi)).
Qed.

Fixpoint marks (cells : list (list Z)) (found : list bool) : list bool :=
  match cells with
  | [] => found
  | c :: cells => marks cells (match find_name names c with Some i => <[i := true]> found | None => found end)
  end.
Lemma marks_lookup cells : ∀ found i, length found = length names →
  marks cells found !! i = Some true ↔ found !! i = Some true ∨ ((i < length names)%nat ∧ ∃ c, c ∈ cells ∧ find_name names c = Some i).
Proof using Type.
  induction cells as [|c cells IH]; intros found i Hl; cbn [marks].
  - split; [by left|]. by intros [?|(_ & c & []%elem_of_nil & _)].
  - rewrite IH by (destruct (find_name names c); [by rewrite length_insert|done]). destruct (find_name names c) as [j|] eqn:E.
    + split.
      * intros [Hi|(Hi & d & Hd & Ed)]; [|right; split; [done|exists d; by split; [right|]]].
        destruct (decide (i = j)) as [-> |Hne]; [right|left; by rewrite list_lookup_insert_ne in Hi].
        split; [rewrite <- Hl; rewrite <- (length_insert found j true); by apply lookup_lt_Some in Hi|]. exists c. by split; [left|].
      * intros [Hi|(Hi & d & [-> |Hd]%elem_of_cons & Ed)].
        -- left. destruct (decide (i = j)) as [-> |]; [|by rewrite list_lookup_insert_ne]. rewrite list_lookup_insert_eq; [done|by eapply lookup_lt_Some].
        -- left. rewrite E in Ed. injection Ed as ->. rewrite list_lookup_insert_eq; [done|lia].
        -- right. split; [done|]. by exists d.
    + split; (intros [Hi|(Hi & d & Hd & Ed)]; [by left|right; split; [done|]]).
      * exists d. by split; [right|].
      * apply elem_of_cons in Hd as [-> |Hd]; [by rewrite E in Ed|]. by exists d.
Qed.
Lemma length_marks cells : ∀ found, length (marks cells found) = length found.
Proof using Type. induction cells as [|c cells IH]; intros found; [done|]. cbn [marks]. rewrite IH. destruct (find_name names c); [apply length_insert|done]. Qed.

Lemma header_loop_spec cells : ∀ fuel first found order, Forall ok cells → NoDup cells → starts render first cells → (length cells ≤ fuel)%nat →
  length found = length names → (∀ c i, c ∈ cells → find_name names c = Some i → found !! i ≠ Some true) →
  header_loop Q fuel names ignore_extra_column first (rest_of sep render cells) found order =
  returns (marks cells found, order ++ map (find_name names) cells).
Proof using All.
  induction cells as [|c cells IH]; intros fuel first found order Hok Hnd Hst Hf Hl Hnew.
  { destruct fuel; cbn [rest_of header_loop marks map]; by rewrite app_nil_r. }
  destruct fuel as [|fuel]; [cbn in Hf; lia|]. cbn [length] in Hf. apply Forall_cons in Hok as [Hc Hok]. apply NoDup_cons in Hnd as [Hcc Hnd].
  cbn [rest_of header_loop]. rewrite (chop_line Q sep render ok) by done. cbn [tbind returns fst snd].
  rewrite (trim_render Q sep render ok) by done. cbn [tbind returns]. rewrite q_unescape by done. cbn [marks map].
  rewrite (app_assoc order [_] _) || change (find_name names c :: map (find_name names) cells) with ([find_name names c] ++ map (find_name names) cells).
  rewrite app_assoc. assert (∀ f, starts render false f) as Hs by done. destruct (find_name names c) as [i|] eqn:E.
  - rewrite decide_False by (apply (Hnew c i); [by left|done]). apply IH; [done..|lia|by rewrite length_insert|].
    intros d j Hd Ed. destruct (decide (i = j)) as [-> |Hne].
    + apply find_name_spec in E, Ed. rewrite E in Ed. by injection Ed as ->.
    + rewrite list_lookup_insert_ne by done. apply (Hnew d); [by right|done].
  - change (ignores ignore_extra_column ignore_extra_column) with true. cbn match. apply IH; [done..|lia|done|].
    intros d j Hd. apply Hnew. by right.
Qed.

Lemma parse_header_spec cells first : Forall ok cells → NoDup cells → NoDup names → cells ≠ [] → starts render first cells →
  parse_header_line Q names ignore_extra_column first (line_of sep render cells) =
  (if decide (Forall (λ n, n ∈ cells) names) then returns (map (find_name names) cells) else throws missing_column_in_header).
Proof using All.
  intros Hok Hnd Hnn Hne Hst. unfold parse_header_line.
  replace (Some (line_of sep render cells)) with (rest_of sep render cells) by by destruct cells.
  rewrite header_loop_spec; [|done..|apply line_cells|by rewrite length_replicate|].
  2: { intros c i _ _. rewrite lookup_replicate. by intros [[=] _]. }
  cbn [tbind returns fst snd app]. change (ignores ignore_extra_column ignore_missing_column) with false. cbn [negb andb].
  set (m := marks cells (replicate (length names) false)).
  assert (forallb id m = true ↔ Forall (λ n, n ∈ cells) names) as Hm.
  { rewrite forallb_forall, Forall_lookup. setoid_rewrite <- list_elem_of_In. unfold m. split.
    - intros Hall i n Hi. assert (is_Some (m !! i)) as [b Hb] by (apply lookup_lt_is_Some; unfold m; rewrite length_marks, length_replicate; by eapply lookup_lt_Some).
      pose proof (Hall b (list_elem_of_lookup_2 _ _ _ Hb)) as Ht. destruct b; [|done]. destruct (proj1 (marks_lookup cells _ i (length_replicate _ _)) Hb) as [Hb'|(_ & c & Hc & Ec)].
      + apply lookup_replicate in Hb' as [[=] _].
      + apply find_name_spec in Ec. rewrite Hi in Ec. by injection Ec as ->.
    - intros Hall b [i Hb]%list_elem_of_lookup_1. destruct b; [done|]. exfalso. assert (i < length names)%nat as Hi.
      { rewrite <- (length_replicate (length names) false), <- (length_marks cells). by eapply lookup_lt_Some. }
      destruct (lookup_lt_is_Some_2 names i Hi) as [n Hn]. assert (marks cells (replicate (length names) false) !! i = Some true) as Ht; [|by rewrite Ht in Hb].
      apply marks_lookup; [apply length_replicate|]. right. split; [done|]. exists n. split; [by eapply Hall|by apply find_name_at]. }
  destruct (decide (Forall _ names)) as [Hall|Hall].
  - by rewrite (proj2 Hm Hall).
  - destruct (forallb id m); [by destruct Hall; apply Hm|done].
Qed.
End Header.

(** ** The values of a row *)

Section Values.
Context (p : overflow_policy) (header : list (list Z)) (names : list (list Z)) (Hh : NoDup header) (Hn : NoDup names).

Lemma length_fill order : ∀ cells row, length (fill order cells row) = length row.
Proof using Type.
  induction order as [|i order IH]; intros [|c cells] row; [done..|]. cbn [fill]. rewrite IH. destruct i; [apply length_insert|done].
Qed.
Lemma fill_other order : ∀ cells row i, Some i ∉ order → fill order cells row !! i = row !! i.
Proof using Type.
  induction order as [|k order IH]; intros [|c cells] row i Hi; [done..|]. apply not_elem_of_cons in Hi as [Hk Hi]. cbn [fill].
  rewrite IH by done. destruct k as [k|]; [|done]. apply list_lookup_insert_ne. congruence.
Qed.
Lemma fill_lookup h : ∀ cells row i j name c, NoDup h → names !! i = Some name → h !! j = Some name → cells !! j = Some c →
  (i < length row)%nat → fill (map (find_name names) h) cells row !! i = Some (Some c).
Proof using Hn.
  induction h as [|x h IH]; intros cells row i j name c Hnd Hi Hj Hc Hl; [done|]. apply NoDup_cons in Hnd as [Hx Hnd].
  destruct cells as [|d cells]; [done|]. cbn [map fill]. destruct j as [|j].
  - injection Hj as ->. injection Hc as ->. rewrite (find_name_at _ _ _ Hn Hi). rewrite fill_other, list_lookup_insert_eq; [done..|].
    intros (y & Ey & Hy)%list_elem_of_fmap. apply Hx. symmetry in Ey. apply find_name_spec in Ey.
    rewrite Hi in Ey. by injection Ey as ->.
  - apply (IH _ _ _ j name); [done..|]. destruct (find_name names x); [by rewrite length_insert|done].
Qed.
Lemma header_at name : name ∈ header → ∃ j, list_find (λ h, h = name) header = Some (j, name) ∧ header !! j = Some name.
Proof using Type.
  intros Hin. destruct (list_find (λ h, h = name) header) as [[j x]|] eqn:E.
  - pose proof E as E'. apply list_find_Some in E' as (Hj & -> & _). by exists j.
  - apply list_find_None in E. rewrite Forall_forall in E. by destruct (E _ Hin).
Qed.
Lemma cell_some cells name : length cells = length header → name ∈ header →
  ∃ j c, header !! j = Some name ∧ cells !! j = Some c ∧ cell_of header cells name = Some c.
Proof using Type.
  intros Hl (j & E & Hj)%header_at. destruct (lookup_lt_is_Some_2 cells j) as [c Hc]; [rewrite Hl; by eapply lookup_lt_Some|].
  exists j, c. split; [done|]. split; [done|]. unfold cell_of. by rewrite E.
Qed.
Lemma fill_row cells row : length cells = length header → length row = length names → Forall (λ n, n ∈ header) names →
  fill (map (find_name names) header) cells row = map (cell_of header cells) names.
Proof using Hh Hn.
  intros Hl Hr Hin. apply list_eq. intros i. destruct (names !! i) as [name|] eqn:Ei.
  - destruct (cell_some cells name Hl (proj1 (Forall_lookup _ _) Hin i name Ei)) as (j & c & Hj & Hc & Ec).
    rewrite (fill_lookup header cells row i j name c Hh Ei Hj Hc) by (rewrite Hr; by eapply lookup_lt_Some).
    symmetry. change (map (cell_of header cells) names) with (cell_of header cells <$> names). by rewrite list_lookup_fmap, Ei, <- Ec.
  - apply lookup_ge_None in Ei. rewrite (proj2 (lookup_ge_None _ _)) by (rewrite length_fill; lia).
    symmetry. apply lookup_ge_None. rewrite length_map. lia.
Qed.

Lemma on_overflow_total q m x : (∃ a, on_overflow q m x = returns a) ∨ (∃ e, on_overflow q m x = throws e).
Proof using Type. destruct q; [right|left..]; by eexists. Qed.
Lemma on_underflow_total q m x : (∃ a, on_underflow q m x = returns a) ∨ (∃ e, on_underflow q m x = throws e).
Proof using Type. destruct q; [right|left..]; by eexists. Qed.
Lemma unsigned_total max col : ∀ x, (∃ a, unsigned_loop p max col x = returns a) ∨ (∃ e, unsigned_loop p max col x = throws e).
Proof using Type.
  induction col as [|c col IH]; intros x; cbn [unsigned_loop]; [left; by eexists|]. destruct (isdigit c); [|right; by eexists].
  destruct (_ <? x); [apply on_overflow_total|apply IH].
Qed.
Lemma negative_total min col : ∀ x, (∃ a, negative_loop p min col x = returns a) ∨ (∃ e, negative_loop p min col x = throws e).
Proof using Type.
  induction col as [|c col IH]; intros x; cbn [negative_loop]; [left; by eexists|]. destruct (isdigit c); [|right; by eexists].
  destruct (x <? _); [apply on_underflow_total|apply IH].
Qed.
(** Reading a cell returns or throws. *)
Lemma parse_total ty col : (∃ v, parse p ty col = returns v) ∨ (∃ e, parse p ty col = throws e).
Proof using Type.
  destruct ty as [w|w| |]; cbn [parse].
  - destruct (unsigned_total (2 ^ w - 1) col 0) as [[a E]|[e E]]; unfold parse_unsigned_integer; rewrite E; [left|right]; by eexists.
  - assert ((∃ a, parse_signed_integer p (- 2 ^ (w - 1)) (2 ^ (w - 1) - 1) col = returns a) ∨ ∃ e, parse_signed_integer p (- 2 ^ (w - 1)) (2 ^ (w - 1) - 1) col = throws e) as [[a ->]|[e ->]];
      [|left; by eexists|right; by eexists].
    unfold parse_signed_integer, parse_unsigned_integer. destruct col as [|c col]; [apply unsigned_total|].
    destruct (c =? ch "-"); [apply negative_total|]. destruct (c =? ch "+"); apply unsigned_total.
  - destruct col as [|c [|]]; [right|left|right]; by eexists.
  - left. by eexists.
Qed.

Lemma helper_spec cells cols : ∀ vals, length vals = length cols → Forall (λ c : list Z * csv_type, is_Some (cell_of header cells (fst c))) cols →
  match mapM (λ c, s ← cell_of header cells (fst c); match parse p (snd c) s with Ret (inr v) => Some v | _ => None end) cols with
  | Some vs => parse_helper p (map (cell_of header cells) (map fst cols)) (map snd cols) vals = returns vs ∧ length vs = length cols
  | None => ∃ e, parse_helper p (map (cell_of header cells) (map fst cols)) (map snd cols) vals = throws e
  end.
Proof using Type.
  induction cols as [|[name ty] cols IH]; intros [|v vals] Hl Hc; [done..|]. cbn [length] in Hl. apply Forall_cons in Hc as [[s Hs] Hc].
  specialize (IH vals ltac:(lia) Hc). cbn [mapM map parse_helper fst snd] in *. rewrite Hs. cbn [mbind option_bind].
  destruct (parse_total ty s) as [[a ->]|[e ->]]; cbn [returns throws tbind mbind option_bind]; [|by eexists].
  destruct (mapM _ cols) as [vs|].
  - destruct IH as [-> Hvs]. cbn [tbind returns]. split; [done|]. cbn [length]. lia.
  - destruct IH as [e ->]. by eexists.
Qed.
End Values.

(** ** A whole file *)

Section File.
Context (B : nat) (is_comment : list Z → bool) (p : overflow_policy).
Context (Q : quote_policy) (sep : Z) (render : list Z → list Z) (ok : list Z → Prop) `{!QuoteLaws Q sep render ok}.
Context (eol : list Z) (Heol : eol = [] ∨ eol = [13]).

Definition line_bytes (l : csv_line) : list Z := match l with CommentLine l => l | RowLine cells => line_of sep render cells end ++ eol.
(** A line of a table: shorter than a block; a comment that is one, or a row that is none, of
    cells that can be written and the first of which is not empty as written. *)
Definition line_good (l : csv_line) : Prop :=
  short_line B (line_bytes l) ∧
  match l with
  | CommentLine _ => is_comment (line_text (line_bytes l)) = true
  | RowLine cells => is_comment (line_of sep render cells) = false ∧ cells ≠ [] ∧ Forall ok cells ∧ starts render true cells
  end.
(** What a reader still has to read. *)
Record reads (r : CSVReader) (body : list csv_line) : Prop := {
  rd_ok : lr_ok B (csv_in r);
  rd_remaining : remaining (csv_in r) = text_of (map line_bytes body);
  rd_good : Forall line_good body
}.

Lemma text_of_length ls : (length ls ≤ length (text_of ls))%nat.
Proof using Type. induction ls as [|l ls IH]; [done|]. unfold text_of in *. cbn [map concat length]. rewrite !length_app. cbn [length]. lia. Qed.

Lemma next_reads r l body : (2 ≤ B)%nat → reads r (l :: body) → ∃ at_ r', csv_next_line B r = returns (Some (at_, line_text (line_bytes l)), r') ∧ reads r' body ∧
  row r' = row r ∧ column_names r' = column_names r ∧ col_order r' = col_order r.
Proof using Type.
  intros HB [Hok Hr Hg]. apply Forall_cons in Hg as [[[Hin Hl] _] Hg]. unfold text_of in Hr. cbn [map concat] in Hr. rewrite <- app_assoc in Hr.
  destruct (next_line_line B (csv_in r) _ _ ltac:(lia) Hok Hr Hin Hl) as (at_ & lr & E & Hok' & Hr' & _).
  exists at_. eexists. unfold csv_next_line. rewrite E. cbn [tbind returns fst snd]. by split.
Qed.
Lemma next_end r : reads r [] → csv_next_line B r = returns (None, r).
Proof using Type. intros [Hok Hr _]. unfold csv_next_line. rewrite next_line_none by done. cbn. by destruct r. Qed.

Lemma skip_spec body : (2 ≤ B)%nat → ∀ fuel r, (length body < fuel)%nat → reads r body →
  match drop_comments body with
  | RowLine cells :: body' => ∃ at_ r', skip_comments B is_comment fuel r = returns (Some (at_, line_of sep render cells), r') ∧ reads r' body' ∧
      row r' = row r ∧ column_names r' = column_names r ∧ col_order r' = col_order r
  | _ => ∃ r', skip_comments B is_comment fuel r = returns (None, r')
  end.
Proof using All.
  intros HB. induction body as [|l body IH]; intros fuel r Hf Hr.
  { exists r. destruct fuel; cbn [skip_comments]; by rewrite next_end. }
  destruct fuel as [|fuel]; [lia|]. cbn [length] in Hf. destruct (next_reads r l body HB Hr) as (at_ & r' & E & Hr' & E1 & E2 & E3).
  destruct Hr as [_ _ [[_ Hl] _]%Forall_cons]. cbn [skip_comments]. rewrite E. cbn [tbind returns fst snd]. destruct l as [l|cells]; cbn [drop_comments].
  - rewrite Hl. specialize (IH fuel r' ltac:(lia) Hr'). rewrite E1, E2, E3 in IH. exact IH.
  - destruct Hl as (Hc & _ & Hok & _). unfold line_bytes. rewrite (line_read Q sep render ok) by done. rewrite Hc. by exists at_, r'.
Qed.
Lemma drop_comments_rows body : match drop_comments body with
  | RowLine cells :: body' => rows_of body = cells :: rows_of body' | _ => rows_of body = [] end.
Proof using Type. induction body as [|[l|cells] body IH]; [done|exact IH|done]. Qed.
Lemma drop_comments_good body : Forall line_good body → Forall line_good (drop_comments body).
Proof using Type. induction 1 as [|[l|cells] body Hl Hb IH]; [constructor|exact IH|by constructor]. Qed.

(** The next row, past the comments. *)
Lemma next_row_spec r body : (2 ≤ B)%nat → reads r body →
  match rows_of body with
  | cells :: rows => ∃ at_ r' body', next_row B is_comment r = returns (Some (at_, line_of sep render cells), r') ∧ reads r' body' ∧ rows_of body' = rows ∧
      row r' = row r ∧ column_names r' = column_names r ∧ col_order r' = col_order r ∧ cells ≠ [] ∧ Forall ok cells ∧ starts render true cells
  | [] => ∃ r', next_row B is_comment r = returns (None, r')
  end.
Proof using All.
  intros HB Hr. pose proof (skip_spec body HB (S (length (remaining (csv_in r)))) r) as Hs. pose proof (drop_comments_rows body) as Hd.
  pose proof (drop_comments_good body (rd_good _ _ Hr)) as Hg. unfold next_row.
  assert (length body < S (length (remaining (csv_in r))))%nat as Hf.
  { rewrite (rd_remaining _ _ Hr). rewrite <- (length_map line_bytes body). pose proof (text_of_length (map line_bytes body)). lia. }
  specialize (Hs Hf Hr). destruct (drop_comments body) as [|[l|cells] body']; rewrite Hd; [done..|].
  apply Forall_cons in Hg as [[_ (_ & Hne & Hok & Hst)] _]. destruct Hs as (at_ & r' & E & Hr' & E1 & E2 & E3).
  exists at_, r', body'. by split_and!.
Qed.

Section Rows.
Context (header : list (list Z)) (cols : list (list Z * csv_type)) (Hh : NoDup header) (Hn : NoDup (map fst cols)).
Context (Hin : Forall (λ n, n ∈ header) (map fst cols)).

Lemma read_row_spec r body vals : (2 ≤ B)%nat → reads r body → col_order r = map (find_name (map fst cols)) header →
  length (row r) = length cols → length vals = length cols →
  match rows_of body with
  | [] => ∃ r', read_row B is_comment Q p (map snd cols) vals r = returns (None, r')
  | cells :: rows =>
      match row_values p header cols cells with
      | Some vs => ∃ r' body', read_row B is_comment Q p (map snd cols) vals r = returns (Some vs, r') ∧ reads r' body' ∧ rows_of body' = rows ∧
          col_order r' = col_order r ∧ length (row r') = length cols ∧ length vs = length cols
      | None => ∃ e, read_row B is_comment Q p (map snd cols) vals r = throws e
      end
  end.
Proof using All.
  intros HB Hr Ho Hl Hv. pose proof (next_row_spec r body HB Hr) as Hs. unfold read_row. destruct (rows_of body) as [|cells rows].
  { destruct Hs as [r' ->]. by exists r'. }
  destruct Hs as (at_ & r' & body' & -> & Hr' & Hrows & E1 & E2 & E3 & Hne & Hok & Hst). cbn [tbind returns].
  replace (Some (line_of sep render cells)) with (rest_of sep render cells) by by destruct cells.
  rewrite (parse_line_spec Q sep render ok) by (done || (intros _; exact (Hst eq_refl))).
  rewrite E3, Ho, E1, length_map. unfold row_values. destruct (decide (length cells = length header)) as [Heq|Hneq].
  - rewrite Heq, Nat.compare_refl. cbn [tbind returns]. rewrite (fill_row header (map fst cols) Hh Hn) by (done || by rewrite length_map).
    assert (Forall (λ c : list Z * csv_type, is_Some (cell_of header cells (fst c))) cols) as Hsome.
    { apply Forall_map in Hin. eapply Forall_impl; [exact Hin|]. intros c Hc. destruct (cell_some header cells (fst c) Heq Hc) as (j & s & _ & _ & ->). by eexists. }
    pose proof (helper_spec p header cells cols vals Hv Hsome) as Hh'. destruct (mapM _ cols) as [vs|].
    + destruct Hh' as [-> Hvs]. cbn [tbind returns]. eexists _, body'. split; [done|]. cbn [csv_in row col_order].
      split_and!; [by destruct Hr'; split|done|congruence|by rewrite !length_map|done].
    + destruct Hh' as [e ->]. by exists e.
  - destruct (Nat.compare_spec (length header) (length cells)) as [?|?|?]; [by destruct Hneq| |]; by eexists.
Qed.

Lemma rows_loop_spec rows : (2 ≤ B)%nat → ∀ body fuel n vals r calls, rows_of body = rows → reads r body →
  col_order r = map (find_name (map fst cols)) header → length (row r) = length cols → length vals = length cols →
  (length rows < fuel)%nat → 0 ≤ n → n + Z.of_nat (length rows) < 2 ^ 31 →
  rows_loop B is_comment Q p fuel (map snd cols) n vals r calls =
  Ret (fst (taken p header cols n rows), calls ++ snd (taken p header cols n rows)).
Proof using All.
  intros HB. induction rows as [|cells rows IH]; intros body fuel n vals r calls Hrows Hr Ho Hl Hv Hf Hn0 Hmax;
    pose proof (read_row_spec r body vals HB Hr Ho Hl Hv) as Hs; rewrite Hrows in Hs.
  { destruct Hs as [r' E]. destruct fuel; cbn [rows_loop taken]; rewrite E; cbn; by rewrite app_nil_r. }
  destruct fuel as [|fuel]; [lia|]. cbn [length] in *. cbn [rows_loop taken]. destruct (row_values p header cols cells) as [vs|].
  - destruct Hs as (r' & body' & -> & Hr' & Hb' & Ho' & Hl' & Hvs). cbn [mbind outcome_bind returns].
    rewrite (proj2 (Z.leb_gt (2 ^ 31 - 1) n)) by lia.
    rewrite (IH body' fuel (n + 1) vs r') by (done || lia || by rewrite Ho'). destruct (taken p header cols (n + 1) rows) as [rc cs].
    cbn [fst snd]. by rewrite <- app_assoc.
  - destruct Hs as [e ->]. cbn. by rewrite app_nil_r.
Qed.
End Rows.

Lemma rows_length body : (length (rows_of body) ≤ length body)%nat.
Proof using Type. induction body as [|[l|cells] body IH]; [done|exact (le_S _ _ IH)|exact (le_n_S _ _ IH)]. Qed.

Lemma read_header_spec r body header (cols : list (list Z * csv_type)) : (2 ≤ B)%nat → reads r body → head (rows_of body) = Some header → NoDup header → NoDup (map fst cols) →
  if decide (Forall (λ n, n ∈ header) (map fst cols))
  then ∃ r' body', read_header B is_comment Q ignore_extra_column (map fst cols) r = returns r' ∧ reads r' body' ∧ rows_of body' = tail (rows_of body) ∧
         col_order r' = map (find_name (map fst cols)) header ∧ row r' = row r
  else ∃ e, read_header B is_comment Q ignore_extra_column (map fst cols) r = throws e.
Proof using All.
  intros HB Hr Hhead Hh Hn. set (r0 := MkCSVReader (csv_in r) (row r) (map fst cols) (col_order r)).
  assert (reads r0 body) as Hr0 by by destruct Hr; split. pose proof (next_row_spec r0 body HB Hr0) as Hs. unfold read_header. fold r0.
  destruct (rows_of body) as [|h rows]; [done|]. injection Hhead as ->.
  destruct Hs as (at_ & r' & body' & -> & Hr' & Hrows & E1 & E2 & E3 & Hne & Hok & Hst). cbn [tbind returns fst snd tail].
  rewrite (parse_header_spec Q sep render ok) by (done || (intros _; exact (Hst eq_refl))).
  destruct (decide _) as [Hin|Hin]; cbn [tbind returns throws]; [|by eexists].
  eexists _, body'. split; [done|]. split; [by destruct Hr'; split|]. by split_and!.
Qed.

(** C18 (roundtrip): a table that is written as CSV is read back.  The first line is not read; then come the
    header and the rows, with either line end, between comments if the policy knows any, and
    in cells and a separator that suit the quote policy.  For blocks of any size above one byte, parseCsv calls the function once
    for each row, in order and numbered from 0, with the values of the wanted columns,
    which are found by the names of the header in whatever order and among whatever others.
    It returns true; or false when a wanted column is not in the header, before any call, or when
    a row has another number of cells than the header or a cell that can not be read, after
    the calls for the rows before it. *)
Theorem csv_tables junk bom first cs header body cols vals :
  let lines := map CommentLine cs ++ RowLine header :: body in
  let text := text_of (first :: map line_bytes lines) in
  (2 ≤ B)%nat → length junk = (3 * B)%nat → opens_with bom text → short_line B first → Forall line_good lines →
  NoDup header → NoDup (map fst cols) → length vals = length cols → Z.of_nat (length (rows_of body)) < 2 ^ 31 →
  parse_with B is_comment Q p junk (Some (bom ++ text)) cols vals = Ret (table_calls p header cols (rows_of body)).
Proof using All.
  intros lines text HB Hj Hbom [Hin1 Hl1] Hg Hh Hn Hv Hmax. unfold parse_with.
  destruct (init_ok B junk bom text HB Hj Hbom) as (Hok & Hrem & _). unfold text in Hrem at 2. unfold text_of in Hrem. cbn [map concat] in Hrem.
  rewrite <- app_assoc in Hrem. destruct (next_line_line B _ _ _ ltac:(lia) Hok Hrem Hin1 Hl1) as (at_ & lr & E & Hok' & Hr' & _).
  unfold csv_next_line at 1. cbn [new_CSVReader csv_in]. rewrite E. cbn [tbind returns fst snd row column_names col_order].
  assert (rows_of lines = header :: rows_of body) as Hlines.
  { unfold lines. clear. induction cs as [|l cs IH]; [done|exact IH]. }
  set (r := MkCSVReader lr _ _ _). assert (reads r lines) as Hr by by split.
  pose proof (read_header_spec r lines header cols HB Hr ltac:(by rewrite Hlines) Hh Hn) as Hs. unfold table_calls.
  destruct (decide (Forall _ (map fst cols))) as [Hin|Hin].
  - destruct Hs as (r' & body' & -> & Hr2 & Hrows & Ho & Erow). cbn [mbind outcome_bind returns]. rewrite decide_True by by apply Forall_map in Hin.
    rewrite Hlines in Hrows. cbn [tail] in Hrows.
    rewrite (rows_loop_spec header cols Hh Hn Hin (rows_of body) HB body').
    + by destruct (taken p header cols 0 (rows_of body)).
    + done.
    + done.
    + done.
    + rewrite Erow. apply length_replicate.
    + done.
    + rewrite (rd_remaining _ _ Hr2), <- Hrows. pose proof (rows_length body'). pose proof (text_of_length (map line_bytes body')) as Ht. rewrite length_map in Ht. lia.
    + lia.
    + lia.
  - destruct Hs as [e ->]. cbn [mbind outcome_bind throws]. by rewrite decide_False by (intros ?; by apply Hin, Forall_map).
Qed.
End File.

(** ** The two quote policies *)

(** Without quotes: cells without the separator, blanks around them, line ends and NULs. *)
Definition plain_cell (sep : Z) (s : list Z) : Prop :=
  sep ∉ s ∧ 10 ∉ s ∧ 0 ∉ s ∧ last s ≠ Some 13 ∧ rtrim (ltrim s) = s.
Definition separator (sep : Z) : Prop := sep ≠ 0 ∧ sep ≠ 10 ∧ sep ≠ 13.

Lemma no_quote_laws sep : separator sep → QuoteLaws (no_quote_escape sep) sep (λ s, s) (plain_cell sep).
Proof.
  intros Hs. assert (∀ s rest, sep ∉ s → rest = [] ∨ head rest = Some sep → no_quote_end sep (s ++ rest) = returns (length s)) as Hend.
  { induction s as [|c s IH]; intros rest Hin Hr; cbn [app no_quote_end length].
    - destruct rest as [|c rest]; [done|]. destruct Hr as [|[= ->]]; [done|]. cbn. by rewrite Z.eqb_refl.
    - apply not_elem_of_cons in Hin as [Hc Hin]. rewrite (proj2 (Z.eqb_neq c sep)), IH by auto. done. }
  split; [done| | |done| |].
  - intros s (Hin & _). cbn. rewrite <- (app_nil_r s) at 1. apply Hend; [done|by left].
  - intros s rest (Hin & _). apply Hend; [done|by right].
  - by intros s (_ & _ & _ & _ & ?).
  - by intros s (_ & ? & ? & ? & _).
Qed.

(** With quotes: any cell without newlines and NULs. *)
Definition doubled (quote : Z) (s : list Z) : list Z := flat_map (λ c, if c =? quote then [quote; quote] else [c]) s.
Definition quoted (quote : Z) (s : list Z) : list Z := quote :: doubled quote s ++ [quote].
Definition quote_char (quote : Z) : Prop := quote ≠ 0 ∧ quote ≠ 10 ∧ quote ≠ 13 ∧ is_trim_char quote = false.

Lemma single_doubled quote s : single_quotes quote (doubled quote s) = s.
Proof.
  induction s as [|c s IH]; [done|]. cbn [doubled flat_map]. fold (doubled quote s). destruct (Z.eqb_spec c quote) as [-> |Hc]; cbn [app].
  - cbn [single_quotes]. rewrite Z.eqb_refl. cbn [andb]. by rewrite IH.
  - cbn [single_quotes]. destruct (doubled quote s) as [|d l] eqn:E; [by rewrite <- IH|]. rewrite (proj2 (Z.eqb_neq c quote)) by done. cbn [andb]. by rewrite IH.
Qed.
Lemma double_end sep quote s rest : sep ≠ quote → rest = [] ∨ head rest = Some sep →
  double_quote_end sep quote true (doubled quote s ++ quote :: rest) = returns (length (doubled quote s) + 1)%nat.
Proof.
  intros Hs Hr. induction s as [|c s IH].
  - cbn [doubled flat_map app length Nat.add double_quote_end]. rewrite Z.eqb_refl. cbn [negb].
    destruct rest as [|c rest]; [done|]. destruct Hr as [|[= ->]]; [done|]. cbn. by rewrite Z.eqb_refl.
  - cbn [doubled flat_map]. fold (doubled quote s). destruct (Z.eqb_spec c quote) as [-> |Hc]; cbn [app double_quote_end].
    + rewrite Z.eqb_refl. cbn [negb]. rewrite (proj2 (Z.eqb_neq quote sep)) by auto. by rewrite IH.
    + rewrite (proj2 (Z.eqb_neq c quote)) by done. cbn [negb]. by rewrite IH.
Qed.
Lemma in_doubled quote x s : x ∈ doubled quote s → x = quote ∨ x ∈ s.
Proof.
  induction s as [|c s IH]; [by intros ?%elem_of_nil|]. cbn [doubled flat_map]. fold (doubled quote s). intros [Hx|Hx]%elem_of_app.
  - destruct (c =? quote); repeat (apply elem_of_cons in Hx as [-> |Hx]); first [by left|by right; left|by apply elem_of_nil in Hx].
  - destruct (IH Hx) as [?|?]; [by left|by right; right].
Qed.

Lemma double_quote_laws sep quote : separator sep → quote_char quote → sep ≠ quote →
  QuoteLaws (double_quote_escape sep quote) sep (quoted quote) (λ s, 10 ∉ s ∧ 0 ∉ s).
Proof.
  intros Hs (H0 & H10 & H13 & Ht) Hne. split; [done| | | | |].
  - intros s _. unfold quoted. cbn. rewrite (proj2 (Z.eqb_neq quote sep)), Z.eqb_refl by auto. rewrite double_end by auto. cbn. by rewrite length_app.
  - intros s rest _. unfold quoted. cbn [double_quote_escape find_next_column_end app double_quote_end].
    rewrite (proj2 (Z.eqb_neq quote sep)), Z.eqb_refl by auto. rewrite <- app_assoc. cbn [app]. rewrite double_end by auto. cbn. by rewrite length_app.
  - intros s _. unfold quoted. cbn [double_quote_escape unescape double_quote_unescape].
    destruct (doubled quote s ++ [quote]) as [|d l] eqn:E; [by destruct (doubled quote s)|]. rewrite <- E.
    rewrite decide_True by (split; [done|]; rewrite last_cons, last_snoc; done). cbn [tail]. rewrite removelast_last. apply single_doubled.
  - intros s _. unfold quoted. cbn [ltrim]. rewrite Ht. unfold rtrim. rewrite reverse_cons, reverse_snoc. cbn [app ltrim]. rewrite Ht.
    rewrite app_comm_cons, reverse_snoc, reverse_cons, reverse_involutive. done.
  - intros s [Hn Hz]. unfold quoted. split_and!.
    + intros [?|[[?|?]%in_doubled|[?|[]%elem_of_nil]%elem_of_cons]%elem_of_app]%elem_of_cons; done.
    + intros [?|[[?|?]%in_doubled|[?|[]%elem_of_nil]%elem_of_cons]%elem_of_app]%elem_of_cons; done.
    + rewrite last_cons, last_snoc. congruence.
Qed.

(** ** Integers *)

Abbreviation shift10 ds x := (fold_left (λ v c, v * 10 + (c - 48)) ds x).

Lemma shift10_ge ds : ∀ x, 0 ≤ x → all_digits ds → x ≤ shift10 ds x.
Proof.
  induction ds as [|c ds IH]; intros x Hx Hd; [done|]. apply Forall_cons in Hd as [Hc%isdigit_spec Hd]. cbn [fold_left].
  pose proof (IH (x * 10 + (c - 48)) ltac:(lia) Hd). lia.
Qed.
Lemma unsigned_loop_digits max ds : ∀ x rest, 0 ≤ x ≤ max → all_digits ds →
  match rest with c :: _ => isdigit c = false | [] => True end →
  unsigned_loop throw_on_overflow max (ds ++ rest) x =
  if shift10 ds x <=? max then match rest with [] => returns (shift10 ds x) | _ => throws no_digit end else throws integer_overflow.
Proof.
  induction ds as [|c ds IH]; intros x rest Hx Hd Hr; cbn [app unsigned_loop fold_left].
  - rewrite (proj2 (Z.leb_le x max)) by lia. destruct rest as [|c rest]; [done|]. cbn [unsigned_loop]. by rewrite Hr.
  - apply Forall_cons in Hd as [Hc Hd]. rewrite Hc. apply isdigit_spec in Hc. destruct (Z.ltb_spec ((max - (c - 48)) / 10) x) as [Ho|Ho].
    + pose proof (shift10_ge ds (x * 10 + (c - 48)) ltac:(lia) Hd). rewrite (proj2 (Z.leb_gt (shift10 ds (x * 10 + (c - 48))) max)) by dlia. done.
    + replace (10 * x + (c - 48)) with (x * 10 + (c - 48)) by lia. apply IH; [dlia|done|done].
Qed.
Lemma negative_loop_digits min ds : min ≤ -9 → ∀ x rest, min ≤ - x → 0 ≤ x → all_digits ds →
  match rest with c :: _ => isdigit c = false | [] => True end →
  negative_loop throw_on_overflow min (ds ++ rest) (- x) =
  if min <=? - shift10 ds x then match rest with [] => returns (- shift10 ds x) | _ => throws no_digit end else throws integer_underflow.
Proof.
  intros Hmin. induction ds as [|c ds IH]; intros x rest Hx Hx0 Hd Hr; cbn [app negative_loop fold_left].
  - rewrite (proj2 (Z.leb_le min (- x))) by lia. destruct rest as [|c rest]; [done|]. cbn [negative_loop]. by rewrite Hr.
  - apply Forall_cons in Hd as [Hc Hd]. rewrite Hc. apply isdigit_spec in Hc.
    assert (Z.quot (min + (c - 48)) 10 = - ((- (min + (c - 48))) / 10)) as ->.
    { rewrite <- Z.quot_div_nonneg by lia. rewrite Z.quot_opp_l by lia. lia. }
    destruct (Z.ltb_spec (- x) (- (- (min + (c - 48)) / 10))) as [Ho|Ho].
    + pose proof (shift10_ge ds (x * 10 + (c - 48)) ltac:(lia) Hd). rewrite (proj2 (Z.leb_gt min (- shift10 ds (x * 10 + (c - 48))))) by dlia. done.
    + replace (10 * - x - (c - 48)) with (- (x * 10 + (c - 48))) by lia. apply IH; [dlia|lia|done|done].
Qed.

Lemma parse_digits w ds rest : 8 ≤ w → all_digits ds → match rest with c :: _ => isdigit c = false | [] => True end →
  parse throw_on_overflow (CsvUnsigned w) (ds ++ rest) =
    (if digits_val ds <? 2 ^ w then match rest with [] => returns (VInt (digits_val ds)) | _ => throws no_digit end else throws integer_overflow) ∧
  parse throw_on_overflow (CsvSigned w) (ch "+" :: ds ++ rest) =
    (if digits_val ds <? 2 ^ (w - 1) then match rest with [] => returns (VInt (digits_val ds)) | _ => throws no_digit end else throws integer_overflow) ∧
  parse throw_on_overflow (CsvSigned w) (ch "-" :: ds ++ rest) =
    (if - 2 ^ (w - 1) <=? - digits_val ds then match rest with [] => returns (VInt (- digits_val ds)) | _ => throws no_digit end else throws integer_underflow).
Proof.
  intros Hw Hd Hr. assert (2 ^ 7 ≤ 2 ^ (w - 1)) as Hp by (apply Z.pow_le_mono_r; lia). pose proof (pow2_pred w ltac:(lia)) as Hp2.
  change (2 ^ 7) with 128 in Hp. split; [|split]; cbn [parse].
  - unfold parse_unsigned_integer. rewrite unsigned_loop_digits by (done || lia). unfold digits_val.
    destruct (Z.leb_spec (shift10 ds 0) (2 ^ w - 1)), (Z.ltb_spec (shift10 ds 0) (2 ^ w)); try lia; [|done]. by destruct rest.
  - unfold parse_signed_integer. change (ch "+" =? ch "-") with false. rewrite Z.eqb_refl. unfold parse_unsigned_integer.
    rewrite unsigned_loop_digits by (done || lia). unfold digits_val.
    destruct (Z.leb_spec (shift10 ds 0) (2 ^ (w - 1) - 1)), (Z.ltb_spec (shift10 ds 0) (2 ^ (w - 1))); try lia; [|done]. by destruct rest.
  - unfold parse_signed_integer. rewrite Z.eqb_refl. change 0 with (- 0) at 1. rewrite negative_loop_digits by (done || lia). unfold digits_val.
    destruct (_ <=? _); [|done]. by destruct rest.
Qed.
(** A sign is needed for negative numbers only. *)
Lemma parse_signed_plus w d ds : isdigit d = true → parse throw_on_overflow (CsvSigned w) (d :: ds) = parse throw_on_overflow (CsvSigned w) (ch "+" :: d :: ds).
Proof.
  intros (_ & Hm & Hp)%digit_plain. cbn [parse]. unfold parse_signed_integer at 1. rewrite Hm, Hp.
  unfold parse_signed_integer. change (ch "+" =? ch "-") with false. by rewrite Z.eqb_refl.
Qed.

(** C36 (bounds): integers in cells are exact.  For the integer types of every width, decimal digits with
    or without a sign give the number when the type holds it and throw the overflow or
    underflow when it does not, never a wrong number; what is printed in decimal is read
    back; any other character throws.  No digits at all are 0, with or without a sign. *)
Theorem integers_exact w ds : 8 ≤ w → all_digits ds →
  let v := digits_val ds in
  parse throw_on_overflow (CsvUnsigned w) ds = (if v <? 2 ^ w then returns (VInt v) else throws integer_overflow) ∧
  parse throw_on_overflow (CsvSigned w) (ch "+" :: ds) = (if v <? 2 ^ (w - 1) then returns (VInt v) else throws integer_overflow) ∧
  parse throw_on_overflow (CsvSigned w) (ch "-" :: ds) = (if - 2 ^ (w - 1) <=? - v then returns (VInt (- v)) else throws integer_underflow) ∧
  parse throw_on_overflow (CsvSigned w) ds = parse throw_on_overflow (CsvSigned w) (ch "+" :: ds) ∧
  (∀ z, fits w z → parse throw_on_overflow (CsvUnsigned w) (dec_int z) = returns (VInt z)) ∧
  (∀ z, sfits w z → parse throw_on_overflow (CsvSigned w) (dec_int z) = returns (VInt z)) ∧
  (∀ c rest, isdigit c = false → v < 2 ^ (w - 1) →
     parse throw_on_overflow (CsvUnsigned w) (ds ++ c :: rest) = throws no_digit ∧
     parse throw_on_overflow (CsvSigned w) (ch "-" :: ds ++ c :: rest) = throws no_digit).
Proof.
  intros Hw Hd v. destruct (parse_digits w ds [] Hw Hd I) as (H1 & H2 & H3). rewrite app_nil_r in H1, H2, H3.
  pose proof (pow2_pred w ltac:(lia)) as Hp. split_and!; [done|done|done| | | |].
  - destruct Hd as [|d ds Hc Hd]; [done|]. by apply parse_signed_plus.
  - intros z Hz. unfold fits in Hz. unfold dec_int. rewrite (proj2 (Z.ltb_ge z 0)) by lia.
    destruct (parse_digits w (dec z) [] Hw (dec_digits z ltac:(lia)) I) as (E & _). rewrite app_nil_r, dec_val in E by lia.
    by rewrite E, (proj2 (Z.ltb_lt z _)) by lia.
  - intros z Hz. unfold sfits in Hz. unfold dec_int. destruct (Z.ltb_spec z 0).
    + destruct (parse_digits w (dec (- z)) [] Hw (dec_digits (- z) ltac:(lia)) I) as (_ & _ & E). rewrite app_nil_r, dec_val in E by lia.
      rewrite E, Z.opp_involutive, (proj2 (Z.leb_le _ z)) by lia. done.
    + pose proof (dec_digits z ltac:(lia)) as Hdz. destruct (parse_digits w (dec z) [] Hw Hdz I) as (_ & E & _). rewrite app_nil_r, dec_val in E by lia.
      rewrite (proj2 (Z.ltb_lt z _)) in E by lia. rewrite <- E. destruct Hdz as [|d l Hc Hl]; [done|]. by apply parse_signed_plus.
  - intros c rest Hc Hv. destruct (parse_digits w ds (c :: rest) Hw Hd Hc) as (E1 & _ & E3). fold v in E1, E3.
    rewrite (proj2 (Z.ltb_lt v (2 ^ w))) in E1 by lia. by rewrite (proj2 (Z.leb_le _ (- v))) in E3 by lia.
Qed.

(** ** Two files *)

Definition demo_cols : list (list Z * csv_type) := [(str "c", CsvString); (str "a", CsvSigned 32)].
Definition demo_header : list (list Z) := [str "a"; str "b"; str "c"].
Definition demo_rows : list csv_line :=
  [RowLine [str "-7"; str "x"; str "hi"]; RowLine [str "2147483647"; []; []]; RowLine [str "2147483648"; str "x"; str "y"]].

#[local] Instance plain_cell_dec sep s : Decision (plain_cell sep s).
Proof. unfold plain_cell. apply _. Defined.
Lemma block_len_large : (1000 ≤ block_len)%nat.
Proof. unfold block_len. lia. Qed.
Lemma short_small l : 10 ∉ l ∧ (length l < 1000)%nat → short_line block_len l.
Proof. intros [Hin Hl]. pose proof block_len_large. split; [done|lia]. Qed.
Lemma demo_line cells :
  let b := line_of (ch ",") (λ s, s) cells ++ [13] in
  (10 ∉ b ∧ (length b < 1000)%nat) ∧ cells ≠ [] ∧ Forall (plain_cell (ch ",")) cells ∧ head cells ≠ Some [] →
  line_good block_len no_comment (ch ",") (λ s, s) (plain_cell (ch ",")) [13] (RowLine cells).
Proof.
  intros b (Hb & Hne & Hok & Hs). split; [by apply short_small|]. split_and!; [done|done|done|].
  intros _. destruct cells as [|c cells]; [done|]. intros ->. by apply Hs.
Qed.

(** parseCsv itself, on lines that end in a carriage return; the last row does not fit an int. *)
Lemma csv_tables_witness :
  parseCsv (replicate (3 * block_len) 0)
    (Some (str "ids" ++ [10] ++ str "a,b,c" ++ [13; 10] ++ str "-7,x,hi" ++ [13; 10] ++ str "2147483647,," ++ [13; 10] ++ str "2147483648,x,y" ++ [13; 10]))
    demo_cols [VString []; VInt 0]
  = Ret (false, [(0, [VString (str "hi"); VInt (-7)]); (1, [VString []; VInt 2147483647])]).
Proof.
  assert (QuoteLaws (no_quote_escape (ch ",")) (ch ",") (λ s, s) (plain_cell (ch ","))) as HQ by by apply no_quote_laws.
  pose proof (csv_tables block_len no_comment throw_on_overflow (no_quote_escape (ch ",")) (ch ",") (λ s, s) (plain_cell (ch ",")) [13] (or_intror eq_refl)
    (replicate (3 * block_len) 0) [] (str "ids") [] demo_header demo_rows demo_cols [VString []; VInt 0]) as H.
  cbv zeta in H. match type of H with _ → _ → _ → _ → _ → _ → _ → _ → _ → parse_with _ _ _ _ _ ?f _ _ = _ => transitivity (parseCsv (replicate (3 * block_len) 0) f demo_cols [VString []; VInt 0]) end.
  { f_equal. }
  unfold parseCsv. rewrite H; clear H.
  - vm_compute. reflexivity.
  - pose proof block_len_large. lia.
  - apply length_replicate.
  - right. split; [done|vm_compute; discriminate].
  - apply short_small. apply (bool_decide_unpack _). vm_compute. exact I.
  - unfold demo_rows. cbn [map app]. repeat (apply Forall_cons_2; [apply demo_line; apply (bool_decide_unpack _); vm_compute; exact I|]). apply Forall_nil_2.
  - apply (bool_decide_unpack _). vm_compute. exact I.
  - apply (bool_decide_unpack _). vm_compute. exact I.
  - reflexivity.
  - reflexivity.
Defined.

Lemma integers_exact_witness :
  parse throw_on_overflow (CsvSigned 32) (str "2147483648") = throws integer_overflow ∧
  parse throw_on_overflow (CsvSigned 32) (str "-2147483648") = returns (VInt (-2147483648)) ∧
  parse throw_on_overflow (CsvUnsigned 32) (str "2147483648") = returns (VInt 2147483648).
Proof.
  destruct (integers_exact 32 (str "2147483648")) as (H1 & H2 & H3 & H4 & _); [lia|apply (bool_decide_unpack _); vm_compute; exact I|].
  split; [rewrite H4, H2; reflexivity|]. split; [exact H3|exact H1].
Defined.

(** Quotes and comments, with blocks of 32 bytes. *)
Example csv_quoted :
  parse_with 32 (single_and_empty_line_comment [ch "#"]) (double_quote_escape (ch ";") (ch "'")) throw_on_overflow (replicate 96 0)
    (Some (BOM ++ str "first" ++ [10] ++ str "# names" ++ [10] ++ str "'s' ; n" ++ [10; 10] ++ str "'it''s; x'; 5" ++ [10] ++ str " " ++ [10] ++ str "'#';6" ++ [10]))
    [(str "n", CsvUnsigned 8); (str "s", CsvString)] [VInt 0; VString []]
  = Ret (true, [(0, [VInt 5; VString (str "it's; x")]); (1, [VInt 6; VString (str "#")])]).
Proof. vm_compute. reflexivity. Qed.
(** An empty column at the start of the buffer: the byte before the buffer is read. *)
Example empty_column_before_buffer : parse_with 4 no_comment (no_quote_escape (ch ",")) throw_on_overflow (replicate 12 0)
  (Some (str "abc" ++ [10] ++ str ",b" ++ [10])) [(str "b", CsvString)] [VString []] = Undef.
Proof. vm_compute. reflexivity. Qed.
(** The last line without its newline, and a newline behind it in the buffer. *)
Example stale_newline_aborts : parse_with 4 no_comment (no_quote_escape (ch ",")) throw_on_overflow (replicate 12 10)
  (Some (str "x" ++ [10] ++ str "b" ++ [10] ++ str "7")) [(str "b", CsvString)] [VString []] = Aborted.
Proof. vm_compute. reflexivity. Qed.
(** The same from the file alone: the blocks leave the newline. *)
Example stale_newline_of_the_file : parse_with 4 no_comment (no_quote_escape (ch ",")) throw_on_overflow (replicate 12 0)
  (Some (str "x" ++ [10] ++ str "b" ++ [10] ++ str "12" ++ [10] ++ str "78" ++ [10] ++ str "9" ++ [10] ++ str "5")) [(str "b", CsvString)] [VString []] = Aborted.
Proof. vm_compute. reflexivity. Qed.
