(* ===== verification/Tools.v ===== *)
(** * System tools: src/tools/Tools.cpp

    Network endpoints, [createDirectory], [traverseDirectory], the DES wrappers and the
    WeChat login ([decode_jscode]).  The operating system, OpenSSL's DES, the parser of JSON and
    libcurl are parameters. *)

From S2P Require Import Prelude CLib Strings.

(** ** combineNetworkEndpoint, splitNetworkEndpoint *)

(** [htons] and [ntohs] on a little-endian machine; the argument is a [uint16_t]. *)
Definition bswap16 (x : Z) : Z := u16 x mod 256 * 256 + u16 x / 256.

(** [union NetworkEndpoint]: [address] in the low, [port] in the high 32 bits. *)
Definition endpoint_value (address port : Z) : Z := address + 2 ^ 32 * port.

Section Endpoint.
Context (inet_aton : list Z → option Z) (inet_ntoa : Z → list Z).

Definition combineNetworkEndpoint (address : list Z) (port : Z) : Z :=
  match inet_aton address with
  | None => 0
  | Some s_addr => endpoint_value s_addr (bswap16 port)
  end.

Definition splitNetworkEndpoint (value : Z) : list Z * Z :=
  (inet_ntoa (value mod 2 ^ 32), bswap16 (value / 2 ^ 32)).
End Endpoint.

(** ** createDirectory *)

Section CreateDirectory.
(** [mkdir made dir]: [mkdir] succeeds or fails with [EEXIST], after the calls [made]. *)
Context (mkdir : list (list Z) → list Z → bool).

(** [i] is the length of [front]; [rest] is the path from [i] on.  The result lists
    the directories [mkdir] was called for. *)
Fixpoint create_loop (fuel : nat) (front rest : list Z) (made : list (list Z))
    : bool * list (list Z) :=
  match fuel with
  | O => (false, made)
  | S fuel =>
      match rest with
      | [] => (true, made)
      | _ =>
          let head := strchr (ch "/") rest in
          let dir := match head with Some (a, _) => front ++ a | None => front ++ rest end in
          let ok := bool_decide (dir = []) || mkdir made dir in
          let made := if bool_decide (dir = []) then made else made ++ [dir] in
          if ok then
            match head with
            | None => (true, made)
            | Some (a, b) => create_loop fuel (front ++ a ++ [ch "/"]) b made
            end
          else (false, made)
      end
  end.

Definition createDirectory (fullPath : list Z) : bool * list (list Z) :=
  create_loop (S (length fullPath)) [] fullPath [].
End CreateDirectory.

(** ** traverseDirectory *)

(** What [stat], [opendir] and [readdir] report about a path: a directory has entries in
    the order of [readdir] ([None] when [opendir] fails), each with its [d_type]. *)
#[warnings="-register-all"]
Inductive node : Type :=
| File
| Dir (entries : option (list (list Z * Z * node))).

Definition last_dot (name : list Z) : option (list Z) :=
  match strchr (ch ".") (reverse name) with
  | Some (a, _) => Some (ch "." :: reverse a)
  | None => None
  end.

(** Hidden entries and those without the suffix are skipped. *)
Definition keep_entry (filter_suffix : option (list Z)) (name : list Z) : bool :=
  match name with
  | c :: _ => negb (c =? ch ".")
  | [] => true
  end &&
  match filter_suffix with
  | None => true
  | Some suffix => match last_dot name with Some s => strcaseeq s suffix | None => false end
  end.

(** [snprintf(fullname, PATH_MAX, "%s/%s", ...)] *)
Definition fullname (folder name : list Z) : list Z :=
  take (PATH_MAX - 1) (folder ++ ch "/" :: name).

Section Traverse.
Context (filter_suffix : option (list Z)) (callback : list Z → bool).

(** The result and the paths the callback was called with. *)
Fixpoint traverseDirectory (n : node) (folder : list Z) {struct n}
    : outcome (bool * list (list Z)) :=
  match n with
  | File => Ret (callback folder, [folder])
  | Dir None => Undef
  | Dir (Some entries) =>
      (fix loop (es : list (list Z * Z * node)) (seen : list (list Z)) :=
        match es with
        | [] => Ret (true, seen)
        | (name, d_type, child) :: es =>
            if keep_entry filter_suffix name then
              let full := fullname folder name in
              if Z.land d_type 4 =? 0 then
                if callback full then loop es (seen ++ [full]) else Ret (false, seen ++ [full])
              else
                '(rc, seen') ← traverseDirectory child full;
                mret (rc, seen ++ seen')
            else loop es seen
        end) entries []
  end.
End Traverse.

(** ** openssl_des_encrypt, openssl_des_decrypt *)

Section Des.
(** [DES_ecb_encrypt] with the schedule of a key, both directions, on 8 bytes. *)
Context (des_enc des_dec : list Z → list Z → list Z).

(** [memset(0)] and [memcpy] of at most 8 bytes *)
Definition des_key (deskey : list Z) : list Z :=
  let k := take 8 deskey in k ++ replicate (8 - length k) 0.

Definition ecb (f : list Z → list Z) (s : list Z) : outcome (list Z) :=
  let len := Z.of_nat (length s) in
  let n := Z.to_nat (Z.quot (s32 len) 8) in
  let full := concat (map (λ i, f (take 8 (drop (i * 8) s))) (seq 0 n)) in
  if len mod 8 =? 0 then Ret full
  else
    let tmp1 := s32 (len / 8 * 8) in
    let tmp2 := s32 (u64 (len - tmp1)) in
    if (0 <=? tmp1) && (0 <=? tmp2) && (tmp2 <=? 8) then
      let inputText := take (Z.to_nat tmp2) (drop (Z.to_nat tmp1) s) in
      Ret (full ++ f (inputText ++ replicate (8 - length inputText) 0))
    else Undef.

Definition openssl_des_encrypt (plain deskey : list Z) : outcome (list Z) :=
  ecb (des_enc (des_key deskey)) plain.
Definition openssl_des_decrypt (cipher deskey : list Z) : outcome (list Z) :=
  ecb (des_dec (des_key deskey)) cipher.
End Des.

(** ** decode_jscode *)

Section Jscode.
(** The document, RapidJSON's in JsonLogin.v: parsing, with [None] for a parse error; [HasMember], which asserts that the document is an object; [IsString] of
    the member [document[key]], which asserts that there is one; and its [GetString], which
    asserts [IsString]. *)
Context {doc : Type} (Parse : list Z → outcome (option doc)) (HasMember IsString : doc → list Z → outcome bool)
  (string_of : doc → list Z → list Z).

Definition GetString (d : doc) (key : list Z) : outcome (list Z) :=
  b ← IsString d key; if b : bool then Ret (string_of d key) else Aborted.
(** [document.HasMember(key) && document[key].IsString()] *)
Definition has_string (d : doc) (key : list Z) : outcome bool :=
  b ← HasMember d key; if b : bool then IsString d key else Ret false.

(** One call of [func(ok, a, b, userdata)]. *)
Record jscall := JsCall { js_ok : bool; js_a : list Z; js_b : list Z }.

(** [curlWriteCallback]: deletes the context, then calls [func] once.  [alive] says
    whether the context is still allocated. *)
Definition curlWriteCallback (alive : bool) (ptr : list Z) : outcome jscall :=
  if negb alive then Undef
  else
    d ← Parse ptr;
    match d with
    | None => Ret (JsCall false (str "ParseCallbackError") ptr)
    | Some document =>
        errcode ← HasMember document (str "errcode");
        if errcode : bool then
          b ← has_string document (str "errmsg");
          errmsg ← (if b : bool then GetString document (str "errmsg") else Ret ptr);
          Ret (JsCall false (str "errcode") errmsg)
        else
          b ← HasMember document (str "session_key");
          no_key ← (if b : bool then IsString document (str "session_key") else Ret true);
          if no_key : bool then Ret (JsCall false (str "not found `session_key`") ptr)
          else
            b ← has_string document (str "openid");
            if negb b then Ret (JsCall false (str "not found `openid`") ptr)
            else
              session_key ← GetString document (str "session_key");
              openid ← GetString document (str "openid");
              Ret (JsCall true session_key openid)
    end.

Fixpoint deliver (alive : bool) (chunks : list (list Z)) : outcome (bool * list jscall) :=
  match chunks with
  | [] => Ret (alive, [])
  | c :: cs =>
      call ← curlWriteCallback alive c;
      '(alive, calls) ← deliver false cs;
      mret (alive, call :: calls)
  end.

(** libcurl delivers [chunks] to the callback during [curl_easy_perform], which returns
    [rc] with the error text [rc_text]; [easy] is whether [curl_easy_init] succeeded. *)
Definition decode_jscode (easy : bool) (chunks : list (list Z)) (rc : Z) (rc_text : list Z)
    : outcome (bool * list jscall) :=
  if negb easy then Ret (false, [])
  else
    r ← deliver true chunks;
    let '(alive, calls) := r : bool * list jscall in
    if rc =? 0 then Ret (true, calls)
    else if (alive : bool) then Ret (false, calls ++ [JsCall false (str "error") rc_text])
    else Undef.
End Jscode.

(** ** Proofs: endpoints *)

Lemma bswap16_u16 x : bswap16 x = bswap16 (u16 x).
Proof. unfold bswap16, u16. by rewrite wrap_wrap. Qed.

Lemma bswap16_bswap16 x : bswap16 (bswap16 x) = u16 x.
Proof.
  unfold bswap16. assert (0 ≤ u16 x < 2 ^ 16) as Hx by (apply (wrap_fits 16); lia).
  set (y := u16 x) in *. clearbody y. unfold u16, wrap. dlia.
Qed.

Lemma bswap16_fits x : fits 16 (bswap16 x).
Proof.
  unfold bswap16. assert (0 ≤ u16 x < 2 ^ 16) as Hx by (apply (wrap_fits 16); lia).
  unfold fits. dlia.
Qed.

(** Splitting a combined endpoint gives back the address and the port
    modulo 2^16 (all of it for a port number); the value fits in 64 bits, and a bad
    address gives 0. *)
Theorem endpoint_roundtrip inet_aton inet_ntoa address s_addr port :
  inet_aton address = Some s_addr → fits 32 s_addr →
  let value := combineNetworkEndpoint inet_aton address port in
  splitNetworkEndpoint inet_ntoa value = (inet_ntoa s_addr, u16 port) ∧ fits 64 value ∧
  (0 ≤ port < 65536 → snd (splitNetworkEndpoint inet_ntoa value) = port).
Proof.
  intros Ha Hs value. unfold value, combineNetworkEndpoint. rewrite Ha.
  pose proof (bswap16_fits port) as Hp. unfold splitNetworkEndpoint, endpoint_value, fits in *.
  assert ((s_addr + 2 ^ 32 * bswap16 port) mod 2 ^ 32 = s_addr) as -> by dlia.
  assert ((s_addr + 2 ^ 32 * bswap16 port) / 2 ^ 32 = bswap16 port) as -> by dlia.
  rewrite bswap16_bswap16. split_and!; [done|lia|lia|]. intros. by apply (wrap_id 16).
Qed.

Lemma endpoint_roundtrip_witness :
  splitNetworkEndpoint (λ a, dec a)
    (combineNetworkEndpoint (λ _, Some 0x0100007f) (str "127.0.0.1") 8080)
  = (dec 0x0100007f, 8080).
Proof.
  apply (endpoint_roundtrip (λ _, Some 0x0100007f) (λ a, dec a) (str "127.0.0.1") 0x0100007f 8080);
    [reflexivity|unfold fits; lia].
Defined.

(** ** Proofs: createDirectory *)

(** The directories of a path given by its components: the non-empty joins of its
    prefixes. *)
Definition path_dirs (front : list Z) (cs : list (list Z)) : list (list Z) :=
  filter (λ d, d ≠ []) (map (λ k, front ++ join (ch "/") (take k cs)) (seq 1 (length cs))).

Lemma path_dirs_cons front c c' cs : path_dirs front (c :: c' :: cs) =
  filter (λ d, d ≠ []) [front ++ c] ++ path_dirs (front ++ c ++ [ch "/"]) (c' :: cs).
Proof.
  unfold path_dirs. rewrite <-filter_app. f_equal. simpl length.
  change (seq 1 (S (S (length cs)))) with (1%nat :: seq 2 (S (length cs))).
  rewrite <-(seq_shift (S (length cs)) 1), map_cons, map_map. f_equal.
  apply map_ext_in. intros k Hk%in_seq. destruct k as [|k]; [lia|].
  simpl take. rewrite join_cons, <-!app_assoc. done.
Qed.

(** [mkdir] calls that all succeed, one after the other. *)
Fixpoint all_ok (mkdir : list (list Z) → list Z → bool) (made dirs : list (list Z)) : bool :=
  match dirs with
  | [] => true
  | d :: dirs => mkdir made d && all_ok mkdir (made ++ [d]) dirs
  end.

Lemma create_loop_spec mkdir cs : ∀ fuel front made,
  cs ≠ [] → Forall (λ c, ch "/" ∉ c) cs → (∀ c, last cs = Some c → c ≠ []) →
  (length (join (ch "/") cs) < fuel)%nat →
  let dirs := path_dirs front cs in
  (all_ok mkdir made dirs = true →
   create_loop mkdir fuel front (join (ch "/") cs) made = (true, made ++ dirs)) ∧
  (all_ok mkdir made dirs = false → ∃ pre d rest, dirs = pre ++ d :: rest ∧
   all_ok mkdir made pre = true ∧ mkdir (made ++ pre) d = false ∧
   create_loop mkdir fuel front (join (ch "/") cs) made = (false, made ++ pre ++ [d])).
Proof.
  induction cs as [|c cs IH]; intros fuel front made Hne Hs Hlast Hf; [done|].
  destruct fuel as [|fuel]; [lia|]. apply Forall_cons in Hs as [Hc Hs].
  destruct cs as [|c' cs].
  - assert (c ≠ []) as Hcn by by apply Hlast.
    assert (front ++ c ≠ []) as Hfc by (destruct front; [done|done]).
    unfold path_dirs. simpl. rewrite filter_cons_True, filter_nil by done. simpl.
    rewrite strchr_not_in by done. destruct c as [|x c]; [done|].
    rewrite bool_decide_eq_false_2 by done. simpl. rewrite andb_true_r.
    destruct (mkdir made (front ++ x :: c)) eqn:E; (split; [try done|try done]).
    intros _. exists [], (front ++ x :: c), []. by rewrite app_nil_r.
  - rewrite path_dirs_cons, join_cons. rewrite join_cons, length_app in Hf. cbn [length] in Hf.
    cbn [create_loop]. rewrite strchr_app by done.
    destruct (c ++ ch "/" :: join (ch "/") (c' :: cs)) as [|y ys] eqn:Ey; [by destruct c|].
    clear Ey y ys.
    destruct (decide (front ++ c = [])) as [E|E].
    + apply app_eq_nil in E as [-> ->]. rewrite filter_cons_False, filter_nil by (intros []; done).
      apply IH; [done|done|done|simpl in *; lia].
    + rewrite filter_cons_True, filter_nil by done. rewrite bool_decide_eq_false_2 by done. cbn [orb all_ok app].
      destruct (mkdir made (front ++ c)) eqn:Em; cbn [andb].
      * destruct (IH fuel (front ++ c ++ [ch "/"]) (made ++ [front ++ c])) as [IH1 IH2];
          [done|done|done|lia|]. split.
        -- intros Ha. rewrite (IH1 Ha). by rewrite <-app_assoc.
        -- intros Ha. destruct (IH2 Ha) as (pre & d & rest & -> & Hp & Hd & ->).
           exists ((front ++ c) :: pre), d, rest. rewrite <-!app_assoc in *.
           split_and!; [done| |done|done]. simpl. by rewrite Em, Hp.
      * split; [done|]. intros _.
        exists [], (front ++ c), (path_dirs (front ++ c ++ [ch "/"]) (c' :: cs)).
        by rewrite app_nil_r.
Qed.

(** For an absolute or relative path given by its components,
    [createDirectory] calls [mkdir] on the path's ancestors from the outermost to the path
    itself, skipping only the empty one before a leading slash; it stops and returns
    false at the first call that fails other than with [EEXIST], and returns true when
    none does. *)
Theorem createDirectory_spec mkdir (cs : list (list Z)) :
  cs ≠ [] → Forall (λ c, ch "/" ∉ c) cs → (∀ c, last cs = Some c → c ≠ []) →
  let dirs := path_dirs [] cs in
  last dirs = Some (join (ch "/") cs) ∧
  (all_ok mkdir [] dirs = true → createDirectory mkdir (join (ch "/") cs) = (true, dirs)) ∧
  (all_ok mkdir [] dirs = false → ∃ pre d rest, dirs = pre ++ d :: rest ∧
   all_ok mkdir [] pre = true ∧ mkdir pre d = false ∧
   createDirectory mkdir (join (ch "/") cs) = (false, pre ++ [d])).
Proof.
  intros Hne Hs Hlast. split.
  - unfold path_dirs. destruct cs as [|c cs] using rev_ind; [done|]. clear IHcs.
    rewrite length_app, Nat.add_1_r, seq_S, map_app, filter_app. simpl map.
    rewrite take_ge by (rewrite length_app; simpl; lia).
    rewrite last_app. rewrite filter_cons_True; [by rewrite filter_nil|].
    assert (c ≠ []) as Hc by (apply Hlast; by rewrite last_app).
    intros Hj. apply Hc. destruct cs as [|x cs]; [done|]. simpl in Hj.
    destruct (cs ++ [c]) eqn:E; [by destruct cs|]. by apply app_eq_nil in Hj as [_ ?].
  - unfold createDirectory. apply create_loop_spec; [done..|lia].
Qed.

Lemma createDirectory_spec_witness :
  createDirectory (λ _ _, true) (str "/a/b/c") = (true, [str "/a"; str "/a/b"; str "/a/b/c"]).
Proof.
  apply (createDirectory_spec (λ _ _, true) [[]; str "a"; str "b"; str "c"]);
    [done|apply (bool_decide_unpack _); vm_compute; exact I|by intros c [= <-]|].
  vm_compute. reflexivity.
Defined.

(** ** Proofs: traverseDirectory *)

(** An entry that is not handled as a directory. *)
Definition plain (e : list Z * Z * node) : bool := Z.land (snd (fst e)) 4 =? 0.
Definition kept filter_suffix (e : list Z * Z * node) : bool :=
  keep_entry filter_suffix (fst (fst e)).
Definition entry_path folder (e : list Z * Z * node) : list Z := fullname folder (fst (fst e)).

(** The kept entries before the first directory, and what follows. *)
Lemma traverse_prefix suffix cb folder pre rest :
  forallb plain (List.filter (kept suffix) pre) = true →
  forallb (λ e, cb (entry_path folder e)) (List.filter (kept suffix) pre) = true →
  traverseDirectory suffix cb (Dir (Some (pre ++ rest))) folder
  = '(rc, seen) ← traverseDirectory suffix cb (Dir (Some rest)) folder;
    mret (rc, map (entry_path folder) (List.filter (kept suffix) pre) ++ seen).
Proof.
  intros Hp Hc. simpl.
  match goal with |- ?loop (pre ++ rest) [] = _ => set (L := loop) end.
  assert (∀ es acc, L es acc = '(rc, seen) ← L es []; mret (rc, acc ++ seen)) as Hacc.
  { intros es. induction es as [|[[name ty] child] es IH]; intros acc; simpl.
    - by rewrite app_nil_r.
    - destruct (keep_entry suffix name); [|apply IH]. destruct (Z.land ty 4 =? 0).
      + destruct (cb _); [|done]. rewrite IH, (IH [_]).
        destruct (L es []) as [[rc seen]| |]; simpl; [by rewrite <-app_assoc|done..].
      + by destruct (traverseDirectory suffix cb child _) as [[rc seen]| |]. }
  assert (∀ acc, L (pre ++ rest) acc = '(rc, seen) ← L rest [];
    mret (rc, acc ++ map (entry_path folder) (List.filter (kept suffix) pre) ++ seen)) as H;
    [|exact (H [])].
  revert Hp Hc. induction pre as [|[[name ty] child] pre IH]; intros Hp Hc acc; [apply Hacc|].
  simpl in *. unfold kept at 1 in Hp. unfold kept at 1 in Hc. unfold kept at 1. simpl in *.
  destruct (keep_entry suffix name); [|by apply IH]. simpl in *.
  apply andb_true_iff in Hp as [Hp1 Hp2]. apply andb_true_iff in Hc as [Hc1 Hc2].
  unfold plain in Hp1. simpl in Hp1. rewrite Hp1. unfold entry_path in Hc1. simpl in Hc1.
  rewrite Hc1, (IH Hp2 Hc2). destruct (L rest []) as [[rc seen]| |]; simpl; [|done..].
  unfold entry_path at 2. simpl. by rewrite <-app_assoc.
Qed.

(** [traverseDirectory] calls the callback, in [readdir] order, on the
    kept files before the first kept directory, then returns what the traversal of that
    directory returns: no entry after it is ever visited.  A folder without directories is
    visited completely, as long as the callback accepts. *)
Theorem traverse_stops_at_first_directory suffix cb folder pre name ty child rest :
  forallb plain (List.filter (kept suffix) pre) = true →
  forallb (λ e, cb (entry_path folder e)) (List.filter (kept suffix) pre) = true →
  let files := map (entry_path folder) (List.filter (kept suffix) pre) in
  traverseDirectory suffix cb (Dir (Some pre)) folder = Ret (true, files) ∧
  (keep_entry suffix name = true → Z.land ty 4 ≠ 0 →
   traverseDirectory suffix cb (Dir (Some (pre ++ (name, ty, child) :: rest))) folder
   = '(rc, seen) ← traverseDirectory suffix cb child (fullname folder name);
     mret (rc, files ++ seen)).
Proof.
  intros Hp Hc files. split.
  - rewrite <-(app_nil_r pre), traverse_prefix by done. simpl. by rewrite app_nil_r.
  - intros Hk Ht. rewrite traverse_prefix by done. simpl. rewrite Hk.
    rewrite (proj2 (Z.eqb_neq _ 0) Ht).
    by destruct (traverseDirectory suffix cb child _) as [[rc seen]| |].
Qed.

Lemma traverse_stops_at_first_directory_witness :
  traverseDirectory None (λ _, true)
    (Dir (Some [(str "a", 8, File); (str ".h", 8, File); (str "d", 4, Dir (Some [])); (str "z", 8, File)]))
    (str ".") = Ret (true, [str "./a"]).
Proof.
  apply (traverse_stops_at_first_directory None (λ _, true) (str ".")
    [(str "a", 8, File); (str ".h", 8, File)] (str "d") 4 (Dir (Some [])) [(str "z", 8, File)]);
    done.
Defined.

(** ** Proofs: DES *)

(** Zero padding up to a multiple of 8. *)
Definition pad8 (s : list Z) : list Z :=
  s ++ replicate (Z.to_nat (- Z.of_nat (length s) mod 8)) 0.

Definition blocks8 (bs : list (list Z)) : Prop := Forall (λ b, length b = 8%nat) bs.

Lemma length_blocks8 bs : blocks8 bs → length (concat bs) = (8 * length bs)%nat.
Proof.
  induction 1 as [|b bs Hb Hbs IH]; simpl; [done|]. rewrite length_app, Hb, IH. lia.
Qed.

Lemma take_block bs : blocks8 bs → ∀ f : list Z → list Z,
  map (λ i, f (take 8 (drop (i * 8) (concat bs)))) (seq 0 (length bs)) = map f bs.
Proof.
  induction 1 as [|b bs Hb Hbs IH]; intros f; [done|].
  cbn [length seq map concat]. f_equal.
  - rewrite Nat.mul_0_l, drop_0, <-Hb, take_app_length. done.
  - rewrite <-seq_shift, map_map, <-IH. apply map_ext. intros i.
    replace (S i * 8)%nat with (length b + i * 8)%nat by lia.
    by rewrite <-drop_drop, drop_app_length.
Qed.

Lemma split_blocks8 n : ∀ s : list Z, length s = (8 * n)%nat → ∃ bs, blocks8 bs ∧ s = concat bs.
Proof.
  induction n as [|n IH]; intros s Hs.
  - exists []. destruct s; [|done]. split; [constructor|done].
  - destruct (IH (drop 8 s)) as (bs & Hb & E); [rewrite length_drop; lia|].
    exists (take 8 s :: bs). split; [constructor; [rewrite length_take; lia|done]|].
    cbn [concat]. by rewrite <-E, take_drop.
Qed.

Lemma length_pad8 s : ∃ n, length (pad8 s) = (8 * n)%nat ∧
  Z.of_nat n = (Z.of_nat (length s) + 7) / 8.
Proof.
  exists (Z.to_nat ((Z.of_nat (length s) + 7) / 8)). unfold pad8.
  rewrite length_app, length_replicate. split; dlia.
Qed.

(** The two phases of the code compute block by block on the padded string. *)
Lemma ecb_pad8 f s bs : Z.of_nat (length s) < 2 ^ 31 → blocks8 bs → pad8 s = concat bs →
  ecb f s = Ret (concat (map f bs)).
Proof.
  intros Hl Hb Hs. pose proof (f_equal length Hs) as HL. rewrite (length_blocks8 bs Hb) in HL.
  unfold pad8 in HL. rewrite length_app, length_replicate in HL.
  unfold ecb. set (len := Z.of_nat (length s)) in *.
  assert (s32 len = len) as -> by (apply swrap_id; [lia|unfold sfits; lia]).
  assert (Z.quot len 8 = len / 8) as -> by (apply Z.quot_div_nonneg; lia).
  rewrite <-(take_block bs Hb).
  assert (∀ n, (Z.of_nat n ≤ len / 8) →
    map (λ i, f (take 8 (drop (i * 8) s))) (seq 0 n)
    = map (λ i, f (take 8 (drop (i * 8) (concat bs)))) (seq 0 n)) as Hfull.
  { intros n Hn. apply map_ext_in. intros i Hi%in_seq. f_equal. rewrite <-Hs. unfold pad8.
    rewrite drop_app_le, take_app_le; [done|rewrite length_drop|]; dlia. }
  rewrite Hfull by dlia. destruct (Z.eqb_spec (len mod 8) 0) as [E|E].
  - do 4 f_equal. dlia.
  - assert (s32 (len / 8 * 8) = len / 8 * 8) as -> by (apply swrap_id; [lia|unfold sfits; dlia]).
    assert (u64 (len - len / 8 * 8) = len mod 8) as -> by (unfold u64, wrap; dlia).
    assert (s32 (len mod 8) = len mod 8) as -> by (apply swrap_id; [lia|unfold sfits; dlia]).
    assert ((0 <=? len / 8 * 8) && (0 <=? len mod 8) && (len mod 8 <=? 8) = true) as ->.
    { rewrite !andb_true_iff, !Z.leb_le. dlia. }
    assert (length bs = S (Z.to_nat (len / 8))) as -> by dlia.
    rewrite seq_S, map_app, concat_app. cbn [map concat]. rewrite app_nil_r, Nat.add_0_l.
    do 3 f_equal. rewrite <-Hs. unfold pad8. fold len.
    assert (drop (Z.to_nat (len / 8) * 8) (s ++ replicate (Z.to_nat (- len mod 8)) 0)
      = drop (Z.to_nat (len / 8 * 8)) s ++ replicate (Z.to_nat (- len mod 8)) 0) as ->.
    { rewrite drop_app_le by dlia. do 2 f_equal. dlia. }
    assert (length (drop (Z.to_nat (len / 8 * 8)) s) = Z.to_nat (len mod 8)) as Hd
      by (rewrite length_drop; dlia).
    rewrite <-Hd, take_ge, Hd by lia. rewrite take_ge; [do 2 f_equal; dlia|].
    rewrite length_app, Hd, length_replicate. dlia.
Qed.

(** With a DES whose decryption inverts encryption block by block,
    decrypting an encrypted string gives back the string padded with NULs to a multiple of
    eight bytes, so exactly the string when its length is such a multiple; only the first
    eight bytes of the key count. *)
Theorem des_roundtrip des_enc des_dec (plain deskey : list Z) :
  (∀ k b, length b = 8%nat → length (des_enc k b) = 8%nat ∧ des_dec k (des_enc k b) = b) →
  Z.of_nat (length plain) < 2 ^ 31 - 8 →
  ∃ cipher, openssl_des_encrypt des_enc plain deskey = Ret cipher ∧
  openssl_des_encrypt des_enc plain (take 8 deskey) = Ret cipher ∧
  Z.of_nat (length cipher) = 8 * ((Z.of_nat (length plain) + 7) / 8) ∧
  openssl_des_decrypt des_dec cipher deskey = Ret (pad8 plain) ∧
  (Z.of_nat (length plain) mod 8 = 0 → pad8 plain = plain).
Proof.
  intros Hdes Hl. destruct (length_pad8 plain) as (n & Hn & Hn').
  destruct (split_blocks8 n (pad8 plain) Hn) as (bs & Hb & Hs).
  set (k := des_key deskey). exists (concat (map (des_enc k) bs)).
  assert (blocks8 (map (des_enc k) bs)) as Hc.
  { apply Forall_fmap. eapply Forall_impl; [exact Hb|]. intros b Hb8. by apply Hdes. }
  pose proof (length_blocks8 _ Hc) as Hlc. rewrite length_map in Hlc.
  pose proof (length_blocks8 bs Hb) as Hlb. rewrite <-Hs in Hlb.
  assert (pad8 plain = plain ↔ Z.of_nat (length plain) mod 8 = 0) as Hp8.
  { unfold pad8. split; intros H.
    - apply (f_equal length) in H. rewrite length_app, length_replicate in H. dlia.
    - assert (Z.to_nat (- Z.of_nat (length plain) mod 8) = 0%nat) as -> by dlia.
      apply app_nil_r. }
  split_and!.
  - apply ecb_pad8; [lia|done|done].
  - unfold openssl_des_encrypt, des_key. rewrite take_take, Nat.min_id.
    apply ecb_pad8; [lia|done|done].
  - lia.
  - unfold openssl_des_decrypt. rewrite (ecb_pad8 _ _ (map (des_enc k) bs)); [|dlia|done|].
    + rewrite Hs, map_map.
      enough (map (λ b, des_dec k (des_enc k b)) bs = bs) as E by (fold k; by rewrite E).
      rewrite <-(map_id bs) at 2. apply map_ext_in. intros b Hbin. apply Hdes. unfold blocks8 in Hb.
      rewrite Forall_forall in Hb. by apply Hb, list_elem_of_In.
    + unfold pad8. assert (Z.to_nat (- Z.of_nat (length (concat (map (des_enc k) bs))) mod 8) = 0%nat)
        as -> by (rewrite Hlc; dlia). apply app_nil_r.
  - apply Hp8.
Qed.

Lemma des_roundtrip_witness :
  ∃ cipher, openssl_des_encrypt (λ k b, zip_with Z.lxor b (take 8 k ++ replicate 8 0)) (str "hello") (str "secret!!x") = Ret cipher ∧
  openssl_des_decrypt (λ k b, zip_with Z.lxor b (take 8 k ++ replicate 8 0)) cipher (str "secret!!x")
  = Ret (str "hello" ++ [0; 0; 0]).
Proof.
  destruct (des_roundtrip (λ k b, zip_with Z.lxor b (take 8 k ++ replicate 8 0))
    (λ k b, zip_with Z.lxor b (take 8 k ++ replicate 8 0)) (str "hello") (str "secret!!x"))
    as (c & E & _ & _ & D & _); [|done|by exists c].
  intros k b Hb. assert (Z.of_nat 8 ≤ Z.of_nat (length (take 8 k ++ replicate 8 0))) as Hk
    by (rewrite length_app, length_replicate; lia).
  split; [rewrite length_zip_with; lia|].
  revert Hk. generalize (take 8 k ++ replicate 8 0). rewrite <-Hb. clear.
  intros l Hl'. assert (length b ≤ length l)%nat as Hl by lia. clear Hl'. revert l Hl. induction b as [|x b IH]; intros [|y l] Hl; simpl in *; try done; [lia|].
  f_equal; [|apply IH; lia]. by rewrite Z.lxor_assoc, Z.lxor_nilpotent, Z.lxor_0_r.
Defined.

(** ** Proofs: decode_jscode *)

(** Whatever libcurl delivers and RapidJSON parses, [decode_jscode] never
    reports success: a reply with a string [session_key] is rejected as "not found" (the
    test lacks a negation) and one whose [session_key] is not a string fails the assertion
    of [GetString].  A second chunk, or a transfer error after a chunk, uses or frees the
    context the first chunk already deleted. *)
Theorem decode_jscode_never_succeeds {doc} (Parse : list Z → outcome (option doc)) HasMember IsString
    string_of chunk chunks rc text :
  (∀ easy cs ok calls, decode_jscode Parse HasMember IsString string_of easy cs rc text
     = Ret (ok, calls) → Forall (λ c, js_ok c = false) calls) ∧
  (∀ d, Parse chunk = Ret (Some d) → HasMember d (str "errcode") = Ret false →
     HasMember d (str "session_key") = Ret true → IsString d (str "session_key") = Ret true →
     decode_jscode Parse HasMember IsString string_of true [chunk] 0 text
     = Ret (true, [JsCall false (str "not found `session_key`") chunk])) ∧
  (∀ r, decode_jscode Parse HasMember IsString string_of true (chunk :: chunks) rc text = Ret r →
     chunks = [] ∧ rc = 0).
Proof.
  assert (∀ c r, curlWriteCallback Parse HasMember IsString string_of true c = Ret r →
    js_ok r = false) as Hcb.
  { intros c r. unfold curlWriteCallback. cbn [negb]. intros ([d|] & _ & H)%bind_Ret; [|by injection H as <-]. revert H.
    intros ([] & _ & H)%bind_Ret.
    { apply bind_Ret in H as (b & _ & H). by apply bind_Ret in H as (m & _ & [= <-]). }
    apply bind_Ret in H as (b & _ & H). apply bind_Ret in H as (no_key & Hno & H). destruct no_key; [by injection H as <-|].
    apply bind_Ret in H as (o & _ & H). destruct o; [|by injection H as <-]. cbn [negb] in H.
    apply bind_Ret in H as (k & Hk & _). destruct b; [|done]. unfold GetString in Hk. by rewrite Hno in Hk. }
  assert (∀ cs alive calls, deliver Parse HasMember IsString string_of true cs = Ret (alive, calls) →
    (cs = [] ∧ calls = [] ∧ alive = true ∨ ∃ c k, cs = [c] ∧ calls = [k] ∧ alive = false ∧
     js_ok k = false)) as Hd.
  { intros [|c [|c' cs]] alive calls H; simpl in H.
    - injection H as <- <-. by left.
    - destruct (curlWriteCallback _ _ _ _ _ c) as [k| |] eqn:E; simpl in H; try done.
      injection H as <- <-. right. exists c, k. split_and!; try done. by apply (Hcb c).
    - destruct (curlWriteCallback _ _ _ _ true c) as [k| |] eqn:E; done. }
  split_and!.
  - intros easy cs ok calls. unfold decode_jscode. destruct easy; simpl; [|by intros [= <- <-]].
    destruct (deliver _ _ _ _ true cs) as [[alive cl]| |] eqn:E; simpl; try done.
    apply Hd in E as [(-> & -> & ->)|(c & k & -> & -> & -> & Hk)]; destruct (rc =? 0);
      intros H; try done; injection H as <- <-; repeat constructor; done.
  - intros d Hp He Hm Hs. unfold decode_jscode. simpl. unfold curlWriteCallback.
    rewrite Hp. cbn [mbind outcome_bind]. rewrite He. cbn [mbind outcome_bind]. rewrite Hm. cbn [mbind outcome_bind]. by rewrite Hs.
  - intros r. unfold decode_jscode. cbn [negb].
    destruct (deliver _ _ _ _ true (chunk :: chunks)) as [[alive cl]| |] eqn:E; simpl; try done.
    apply Hd in E as [(? & _)|(c & k & E & _ & -> & _)]; [done|]. injection E as <- ->.
    destruct (Z.eqb_spec rc 0); done.
Qed.

Lemma decode_jscode_never_succeeds_witness :
  decode_jscode (λ s, Ret (Some tt)) (λ _ k, Ret (bool_decide (k = str "session_key"))) (λ _ _, Ret true)
    (λ _ _, str "KEY") true [str "{}"] 0 []
  = Ret (true, [JsCall false (str "not found `session_key`") (str "{}")]).
Proof.
  apply (decode_jscode_never_succeeds (λ s, Ret (Some tt)) (λ _ k, Ret (bool_decide (k = str "session_key")))
    (λ _ _, Ret true) (λ _ _, str "KEY") (str "{}") [] 0 []) with (d := tt); reflexivity.
Defined.
