(* ===== verification/HttpParser.v ===== *)
(** * HTTP requests: src/tools/HttpParser.cpp, deps/bundle-0.01/include/tools/HttpParser.h

    The scanner as a step function over the bytes, its fields cut out of [data] by the
    same index arithmetic, and the framing decision of [parse]. *)

From S2P Require Import Prelude CLib.

Inductive PARSER_STATE :=
| s_request_start
| s_request_method
| s_request_url
| s_request_version
| s_request_line_done
| s_request_field_name
| s_request_field_value
| s_request_header_done.
#[export] Instance PARSER_STATE_eq_dec : EqDecision PARSER_STATE.
Proof. solve_decision. Defined.

Definition CR : Z := 13.
Definition LF : Z := 10.
Definition SP : Z := 32.

(** The members of the class. *)
Record HttpParser := MkHttpParser {
  req_method : list Z;
  req_url : list Z;
  req_version : list Z;
  req_headers : gmap (list Z) (list Z)
}.

Definition clear : HttpParser := MkHttpParser [] [] [] ∅.

Definition set_method m p := MkHttpParser m (req_url p) (req_version p) (req_headers p).
Definition set_url u p := MkHttpParser (req_method p) u (req_version p) (req_headers p).
Definition set_version v p := MkHttpParser (req_method p) (req_url p) v (req_headers p).
Definition set_headers h p := MkHttpParser (req_method p) (req_url p) (req_version p) h.

(** The locals of [parse]; [failed] is set when the loop returned -1. *)
Record scan := Scan {
  ps : PARSER_STATE;
  nread : nat;
  prevread : nat;
  cur : Z;                 (* c *)
  hname : list Z;          (* name *)
  this : HttpParser;
  failed : bool
}.

(** [x.assign(&data[a], n)] *)
Definition slice (data : list Z) (a n : nat) : list Z := take n (drop a data).

(** [value.erase(0, value.find_first_not_of(" "))] and the same from the right. *)
Fixpoint ltrim (v : list Z) : list Z :=
  match v with
  | c :: v' => if c =? SP then ltrim v' else v
  | [] => []
  end.
Definition rtrim (v : list Z) : list Z := reverse (ltrim (reverse v)).

(** The loop over the request line, for the byte [c = data[nread++]]. *)
Definition line_step (data : list Z) (s : scan) (c : Z) : scan :=
  let prevc := cur s in
  let n := S (nread s) in
  let stay := Scan (ps s) n (prevread s) c (hname s) (this s) (failed s) in
  match ps s with
  | s_request_method =>
      if c =? SP then
        Scan s_request_url n n c (hname s)
          (set_method (slice data (prevread s) (n - prevread s - 1)) (this s)) (failed s)
      else stay
  | s_request_url =>
      if c =? SP then
        Scan s_request_version n n c (hname s)
          (set_url (slice data (prevread s) (n - prevread s - 1)) (this s)) (failed s)
      else stay
  | s_request_version =>
      if (c =? LF) && (prevc =? CR) then
        Scan s_request_line_done n (prevread s) c (hname s)
          (set_version (slice data (prevread s) (n - prevread s - 2)) (this s)) (failed s)
      else stay
  | _ => Scan (ps s) n (prevread s) c (hname s) (this s) true
  end.

(** The loop over the headers. *)
Definition header_step (data : list Z) (s : scan) (c : Z) : scan :=
  let prevc := cur s in
  let n := S (nread s) in
  let stay := Scan (ps s) n (prevread s) c (hname s) (this s) (failed s) in
  match ps s with
  | s_request_field_name =>
      if (c =? LF) && (prevc =? CR) then
        Scan s_request_header_done n (prevread s) c (hname s) (this s) (failed s)
      else if c =? ch ":" then
        Scan s_request_field_value n n c (slice data (prevread s) (n - prevread s - 1))
          (this s) (failed s)
      else stay
  | s_request_field_value =>
      if (c =? LF) && (prevc =? CR) then
        let value := rtrim (ltrim (slice data (prevread s) (n - prevread s - 2))) in
        let headers := req_headers (this s) in
        match headers !! hname s with
        | Some _ => Scan s_request_field_name n n c (hname s) (this s) true
        | None =>
            Scan s_request_field_name n n c (hname s)
              (set_headers (<[hname s := value]> headers) (this s)) (failed s)
        end
      else stay
  | _ => Scan (ps s) n (prevread s) c (hname s) (this s) true
  end.

(** [while (nread < len && ps != stop)]: [rest] is [data] from [nread] on. *)
Fixpoint scan_loop (step : scan → Z → scan) (stop : PARSER_STATE) (rest : list Z) (s : scan) : scan :=
  match rest with
  | [] => s
  | c :: rest =>
      if decide (ps s = stop) then s
      else if failed s then s
      else scan_loop step stop rest (step s c)
  end.

Definition header (name : list Z) (p : HttpParser) : option (list Z) := c_str <$> req_headers p !! name.

Definition size_error : Z := 2 ^ 64 - 1.    (* (size_t) -1 *)

(** The end of [parse]: the body length. *)
Definition parse_length (len nread : Z) (p : HttpParser) : Z :=
  match header (str "Content-Length") p with
  | None => nread
  | Some length_value =>
      match stol length_value with
      | None => size_error
      | Some content_length =>
          let nread := u64 (nread + u64 content_length) in
          if len <? nread then 0 else nread
      end
  end.

Definition start_line : scan := Scan s_request_method 0 0 0 [] clear false.
Definition parse_line (data : list Z) : scan :=
  scan_loop (line_step data) s_request_line_done data start_line.

Definition start_headers (s : scan) : scan :=
  Scan s_request_field_name (nread s) (nread s) (cur s) [] (this s) false.
Definition parse_headers (data : list Z) (s : scan) : scan :=
  scan_loop (header_step data) s_request_header_done (drop (nread s) data) (start_headers s).

(** The returned size and the object's members. *)
Definition parse (data : list Z) (p : HttpParser) : Z * HttpParser :=
  match data with
  | [] => (0, p)
  | _ =>
      let s := parse_line data in
      if failed s then (size_error, this s)
      else if decide (ps s = s_request_line_done) then
        let h := parse_headers data s in
        if failed h then (size_error, this h)
        else if decide (ps h = s_request_header_done) then
          (parse_length (Z.of_nat (length data)) (Z.of_nat (nread h)) (this h), this h)
        else (0, this h)
      else (0, this s)
  end.

Definition crlf : list Z := [CR; LF].
Definition req1 : list Z :=
  str "POST /x HTTP/1.1" ++ crlf ++ str "Host:  a b " ++ crlf ++ str "Content-Length: 3" ++ crlf
    ++ crlf ++ str "abc".

Example parse_ex1 : parse (req1 ++ str "GET") clear =
  (55, MkHttpParser (str "POST") (str "/x") (str "HTTP/1.1")
    {[str "Host" := str "a b"; str "Content-Length" := str "3"]}).
Proof. vm_compute. reflexivity. Qed.
Example parse_ex2 : forallb (λ k, fst (parse (take k req1) clear) =? 0) (seq 0 (length req1)) = true.
Proof. vm_compute. reflexivity. Qed.

(** ** The scan does not look ahead *)

Section ScanLoop.
Context (step : scan → Z → scan) (stop : PARSER_STATE).

Definition stopped (s : scan) : Prop := ps s = stop ∨ failed s = true.

Lemma scan_loop_stopped rest s : stopped s → scan_loop step stop rest s = s.
Proof.
  intros Hs. destruct rest as [|c rest]; simpl; [done|].
  destruct (decide (ps s = stop)); [done|]. destruct Hs as [?| ->]; [congruence|done].
Qed.

Lemma scan_loop_app l1 : ∀ l2 s,
  scan_loop step stop (l1 ++ l2) s = scan_loop step stop l2 (scan_loop step stop l1 s).
Proof.
  induction l1 as [|c l1 IH]; intros l2 s; simpl; [done|].
  destruct (decide (ps s = stop)) as [E|E].
  - symmetry. apply scan_loop_stopped. by left.
  - destruct (failed s) eqn:F; [|apply IH]. symmetry. apply scan_loop_stopped. by right.
Qed.

(** Every step reads one byte. *)
Hypothesis step_nread : ∀ s c, nread (step s c) = S (nread s).

Lemma scan_loop_nread rest : ∀ s,
  (nread s ≤ nread (scan_loop step stop rest s) ≤ nread s + length rest)%nat ∧
  (stopped (scan_loop step stop rest s) ∨
   nread (scan_loop step stop rest s) = (nread s + length rest)%nat).
Proof.
  induction rest as [|c rest IH]; intros s; simpl; [split; [lia|right; lia]|].
  destruct (decide (ps s = stop)); [split; [lia|left; by left]|].
  destruct (failed s) eqn:F; [split; [lia|left; by right]|].
  destruct (IH (step s c)) as [H1 H2]. rewrite step_nread in *. split; [lia|].
  destruct H2; [by left|right; lia].
Qed.

(** The loop over a prefix that does not reach where the whole loop stops is not done. *)
Lemma scan_loop_prefix l1 l2 s :
  (nread s + length l1 < nread (scan_loop step stop (l1 ++ l2) s))%nat →
  ¬ stopped (scan_loop step stop l1 s).
Proof.
  intros Hn Hs. rewrite scan_loop_app, scan_loop_stopped in Hn by done.
  pose proof (scan_loop_nread l1 s). lia.
Qed.
End ScanLoop.

Lemma line_step_nread data s c : nread (line_step data s c) = S (nread s).
Proof. unfold line_step. by destruct (ps s); simpl; repeat case_match. Qed.
Lemma header_step_nread data s c : nread (header_step data s c) = S (nread s).
Proof. unfold header_step. by destruct (ps s); simpl; repeat case_match. Qed.

(** Fields are cut out of what was read: bytes after [nread] do not matter. *)
Lemma slice_app d e a n : (a + n ≤ length d)%nat → slice (d ++ e) a n = slice d a n.
Proof.
  intros. unfold slice. rewrite drop_app_le by lia. rewrite take_app_le; [done|].
  rewrite length_drop. lia.
Qed.

Definition index_ok (s : scan) : Prop := (prevread s ≤ nread s)%nat.

Lemma line_step_app d e s c : index_ok s → (nread s < length d)%nat →
  line_step (d ++ e) s c = line_step d s c ∧ index_ok (line_step d s c).
Proof.
  unfold index_ok. intros Hi Hn. unfold line_step.
  destruct (ps s); simpl; repeat case_match; simpl; rewrite ?slice_app by lia; split; (done || lia).
Qed.

Lemma header_step_app d e s c : index_ok s → (nread s < length d)%nat →
  header_step (d ++ e) s c = header_step d s c ∧ index_ok (header_step d s c).
Proof.
  unfold index_ok. intros Hi Hn. unfold header_step.
  assert (slice (d ++ e) (prevread s) (S (nread s) - prevread s - 1)
    = slice d (prevread s) (S (nread s) - prevread s - 1)) as -> by (apply slice_app; lia).
  assert (slice (d ++ e) (prevread s) (S (nread s) - prevread s - 2)
    = slice d (prevread s) (S (nread s) - prevread s - 2)) as -> by (apply slice_app; lia).
  split; [done|]. destruct (ps s); simpl; repeat case_match; simpl; lia.
Qed.

Lemma scan_loop_ext (f : list Z → scan → Z → scan) stop d e :
  (∀ d s c, nread (f d s c) = S (nread s)) →
  (∀ s c, index_ok s → (nread s < length d)%nat → f (d ++ e) s c = f d s c ∧ index_ok (f d s c)) →
  ∀ rest s, index_ok s → (nread s + length rest ≤ length d)%nat →
  scan_loop (f (d ++ e)) stop rest s = scan_loop (f d) stop rest s ∧
  index_ok (scan_loop (f d) stop rest s).
Proof.
  intros Hn Hf rest. induction rest as [|c rest IH]; intros s Hi Hl; simpl; [done|].
  destruct (decide (ps s = stop)); [done|]. destruct (failed s); [done|]. simpl in Hl.
  destruct (Hf s c) as [-> Hi']; [done|lia|]. apply IH; [done|]. rewrite Hn. lia.
Qed.

(** The request line of an extended input: the scan of the shorter input, continued. *)
Lemma parse_line_app d e :
  parse_line (d ++ e) = scan_loop (line_step (d ++ e)) s_request_line_done e (parse_line d) ∧
  index_ok (parse_line d) ∧ (nread (parse_line d) ≤ length d)%nat.
Proof.
  unfold parse_line. rewrite scan_loop_app.
  destruct (scan_loop_ext line_step s_request_line_done d e line_step_nread (line_step_app d e) d
    start_line) as [-> Hi]; [by unfold index_ok|simpl; lia|].
  split_and!; [done|done|]. pose proof (scan_loop_nread (line_step d) s_request_line_done
    (line_step_nread d) d start_line). simpl in *. lia.
Qed.

Lemma parse_headers_app d e s : (nread s ≤ length d)%nat →
  parse_headers (d ++ e) s
  = scan_loop (header_step (d ++ e)) s_request_header_done e (parse_headers d s).
Proof.
  intros Hs. unfold parse_headers. rewrite drop_app_le by done. rewrite scan_loop_app.
  f_equal. apply (scan_loop_ext header_step); [apply header_step_nread|by intros; apply header_step_app| |].
  - unfold index_ok, start_headers; simpl. lia.
  - unfold start_headers; simpl. rewrite length_drop. lia.
Qed.

Lemma stopped_dec stop s : {stopped stop s} + {¬ stopped stop s}.
Proof.
  unfold stopped. destruct (decide (ps s = stop)); [by left; left|].
  destruct (failed s); [by left; right|]. right. intros [?|?]; done.
Qed.

(** What an accepted input went through. *)
Lemma parse_inv data p n q : parse data p = (n, q) → n ≠ 0 → n ≠ size_error →
  ps (parse_line data) = s_request_line_done ∧ failed (parse_line data) = false ∧
  let h := parse_headers data (parse_line data) in
  ps h = s_request_header_done ∧ failed h = false ∧ this h = q ∧
  parse_length (Z.of_nat (length data)) (Z.of_nat (nread h)) q = n.
Proof.
  unfold parse. intros H Hn He. destruct data as [|x data]; [by injection H as <- <-|].
  set (d := x :: data) in *. destruct (failed (parse_line d)) eqn:F1; [by injection H as <- <-|].
  destruct (decide (ps (parse_line d) = s_request_line_done)); [|by injection H as <- <-].
  destruct (failed (parse_headers d (parse_line d))) eqn:F2; [by injection H as <- <-|].
  destruct (decide _); [|by injection H as <- <-]. injection H as H1 H2.
  by rewrite H2 in H1.
Qed.

Lemma parse_intro data p n q : data ≠ [] →
  ps (parse_line data) = s_request_line_done → failed (parse_line data) = false →
  (let h := parse_headers data (parse_line data) in
   ps h = s_request_header_done ∧ failed h = false ∧ this h = q ∧
   parse_length (Z.of_nat (length data)) (Z.of_nat (nread h)) q = n) →
  parse data p = (n, q).
Proof.
  intros Hne H1 H2 (H3 & H4 & <- & <-). unfold parse. destruct data; [done|].
  by rewrite H2, decide_True, H4, decide_True.
Qed.

Lemma parse_not_done data p :
  ¬ stopped s_request_line_done (parse_line data) ∨
  (ps (parse_line data) = s_request_line_done ∧ failed (parse_line data) = false ∧
   ¬ stopped s_request_header_done (parse_headers data (parse_line data))) →
  fst (parse data p) = 0.
Proof.
  unfold parse. intros H. destruct data as [|x data]; [done|]. set (d := x :: data) in *.
  destruct H as [H|(H1 & H2 & H)].
  - destruct (failed (parse_line d)) eqn:F; [by destruct H; right|].
    rewrite decide_False; [done|]. intros E. by destruct H; left.
  - rewrite H2, decide_True by done.
    destruct (failed (parse_headers d (parse_line d))) eqn:F; [by destruct H; right|].
    rewrite decide_False; [done|]. intros E. by destruct H; left.
Qed.

(** A [Content-Length] that is not negative. *)
Definition length_nonneg (q : HttpParser) : Prop :=
  ∀ v z, header (str "Content-Length") q = Some v → stol v = Some z → 0 ≤ z.

Lemma parse_length_framing len nr q n : parse_length len nr q = n → n ≠ 0 → n ≠ size_error →
  length_nonneg q → 0 ≤ nr ≤ len → len < 2 ^ 63 →
  n ≤ len ∧ (∀ len', n ≤ len' → parse_length len' nr q = n) ∧
  (∀ len', nr ≤ len' < n → parse_length len' nr q = 0).
Proof.
  unfold parse_length. intros Hp Hn He Hq Hnr Hl.
  destruct (header (str "Content-Length") q) as [v|] eqn:Ev; [|subst; split_and!; [lia|done|lia]].
  destruct (stol v) as [z|] eqn:Ez; [|by subst].
  pose proof (Hq v z Ev Ez). pose proof (sto_sfits 64 v z Ez) as [_ Hz].
  assert (u64 z = z) as Hu by (apply (wrap_id 64); unfold fits; lia). rewrite Hu in *.
  assert (u64 (nr + z) = nr + z) as Hu' by (apply (wrap_id 64); unfold fits; lia).
  rewrite Hu' in *. destruct (Z.ltb_spec len (nr + z)); subst; [done|].
  split_and!; [lia|intros len' Hl'..]; destruct (Z.ltb_spec len' (nr + z)); lia.
Qed.

Lemma nread_headers_bound data :
  (nread (parse_line data) ≤ nread (parse_headers data (parse_line data)) ≤ length data)%nat.
Proof.
  destruct (parse_line_app data []) as (_ & _ & Hl).
  pose proof (scan_loop_nread (header_step data) s_request_header_done (header_step_nread data)
    (drop (nread (parse_line data)) data) (start_headers (parse_line data))) as [H _].
  rewrite length_drop in H. unfold parse_headers. simpl in *. lia.
Qed.

(** The accepted request is found again in every extension of the input. *)
Lemma parse_extend data e p n q :
  parse data p = (n, q) → n ≠ 0 → n ≠ size_error →
  (∀ len, n ≤ len → parse_length len (Z.of_nat (nread (parse_headers data (parse_line data)))) q = n) →
  n ≤ Z.of_nat (length data) → parse (data ++ e) p = (n, q).
Proof.
  intros Hp Hn He Hpl Hle. destruct (parse_inv data p n q Hp Hn He) as (L1 & L2 & H1 & H2 & H3 & H4).
  destruct (parse_line_app data e) as (EL & _ & HL). rewrite scan_loop_stopped in EL by by left.
  apply parse_intro; rewrite ?EL; [by destruct data; [injection Hp as <- <-|]|done|done|].
  rewrite parse_headers_app, scan_loop_stopped by (done || by left). split_and!; try done.
  apply Hpl. rewrite length_app. lia.
Qed.

(** A prefix on which both loops stop stops where the whole input does. *)
Lemma parse_prefix d e :
  stopped s_request_line_done (parse_line d) →
  stopped s_request_header_done (parse_headers d (parse_line d)) →
  parse_line (d ++ e) = parse_line d ∧
  parse_headers (d ++ e) (parse_line (d ++ e)) = parse_headers d (parse_line d).
Proof.
  intros S1 S2. destruct (parse_line_app d e) as (EL & _ & HL).
  rewrite scan_loop_stopped in EL by done. rewrite EL. split; [done|].
  by rewrite parse_headers_app, scan_loop_stopped by done.
Qed.

(** C6 (safety): framing.  When [parse] accepts a request of [n] bytes at the start of its
    input, whose Content-Length is not negative, the input has these [n] bytes, the same
    request is found whatever bytes follow the input, and every shorter prefix of the
    request makes [parse] ask for more data: a request is never cut short or run together
    with the next one, however the stream is split. *)
Theorem parse_framing data p n q :
  parse data p = (n, q) → 0 < n → n ≠ size_error → length_nonneg q →
  Z.of_nat (length data) < 2 ^ 63 →
  n ≤ Z.of_nat (length data) ∧ (∀ e, parse (data ++ e) p = (n, q)) ∧
  (∀ k, Z.of_nat k < n → fst (parse (take k data) p) = 0).
Proof.
  intros Hp Hn He Hq Hlen. destruct (parse_inv data p n q Hp ltac:(lia) He)
    as (L1 & L2 & H1 & H2 & H3 & H4).
  pose proof (nread_headers_bound data) as Hb.
  destruct (parse_length_framing _ _ _ _ H4 ltac:(lia) He Hq ltac:(lia) Hlen) as (Hle & Hpl & Hpl0).
  split; [done|]. split; [intros e; apply parse_extend; done || lia|].
  intros k Hk. destruct (decide (take k data = [])) as [->|Hne]; [done|].
  destruct (stopped_dec s_request_line_done (parse_line (take k data))) as [S1|S1];
    [|apply parse_not_done; by left].
  pose proof (parse_line_app (take k data) (drop k data)) as (EL & _ & _).
  rewrite scan_loop_stopped, take_drop in EL by done. rewrite EL in L1, L2.
  destruct (stopped_dec s_request_header_done (parse_headers (take k data) (parse_line (take k data))))
    as [S2|S2]; [|by apply parse_not_done; right].
  destruct (parse_prefix (take k data) (drop k data) S1 S2) as [E1 E2].
  rewrite take_drop in E1, E2. rewrite E2 in H1, H2, H3, Hpl0.
  pose proof (nread_headers_bound (take k data)) as Hb'.
  rewrite length_take in Hb'.
  rewrite (parse_intro (take k data) p 0 q); [done|done|done|done|].
  split_and!; try done. apply Hpl0. rewrite length_take. lia.
Qed.

Lemma parse_framing_witness :
  parse (req1 ++ str "GET /") clear = parse req1 clear ∧
  fst (parse (take 54 req1) clear) = 0.
Proof.
  destruct (parse_framing req1 clear 55 (snd (parse req1 clear))) as (_ & H1 & H2).
  - vm_compute. reflexivity.
  - lia.
  - done.
  - intros v z Hv Hz. vm_compute in Hv. injection Hv as <-. vm_compute in Hz. injection Hz as <-. lia.
  - vm_compute. reflexivity.
  - split; [rewrite H1; vm_compute; reflexivity|apply H2; lia].
Defined.

(** ** Rendering and parsing *)

(** No CR LF ends inside [w] when the byte before [w] is [prev]. *)
Fixpoint crlf_free (prev : Z) (w : list Z) : Prop :=
  match w with
  | [] => True
  | c :: w => ¬ (prev = CR ∧ c = LF) ∧ crlf_free c w
  end.
#[export] Instance crlf_free_dec prev w : Decision (crlf_free prev w).
Proof. revert prev. induction w; intros; simpl; apply _. Defined.

Definition last_cur (c : Z) (w : list Z) : Z := fold_left (λ _ x, x) w c.

(** The scan after the bytes [w], none of which ended a field. *)
Definition skip (s : scan) (w : list Z) : scan :=
  Scan (ps s) (nread s + length w) (prevread s) (last_cur (cur s) w) (hname s) (this s) (failed s).

Lemma skip_nil s : skip s [] = s.
Proof. destruct s. unfold skip. simpl. by rewrite Nat.add_0_r. Qed.

Lemma skip_snoc s w x : skip s (w ++ [x]) =
  Scan (ps s) (S (nread s + length w)) (prevread s) x (hname s) (this s) (failed s).
Proof.
  unfold skip, last_cur. rewrite fold_left_app, length_app. simpl. f_equal. lia.
Qed.

Lemma scan_loop_skip step stop w : ∀ s rest, ps s ≠ stop → failed s = false →
  (∀ w1 x w2, w = w1 ++ x :: w2 → step (skip s w1) x = skip s (w1 ++ [x])) →
  scan_loop step stop (w ++ rest) s = scan_loop step stop rest (skip s w).
Proof.
  induction w as [|x w IH] using rev_ind; intros s rest Hp Hf Hw; [by rewrite skip_nil|].
  rewrite <-app_assoc. rewrite IH; [|done..|].
  - simpl. rewrite decide_False, Hf by done. by rewrite (Hw w x []).
  - intros w1 y w2 ->. apply (Hw w1 y (w2 ++ [x])). by rewrite <-app_assoc.
Qed.

Lemma crlf_free_app c w1 x w2 : crlf_free c (w1 ++ x :: w2) → ¬ (last_cur c w1 = CR ∧ x = LF).
Proof.
  revert c. induction w1 as [|y w1 IH]; intros c; simpl; [by intros [? _]|].
  intros [_ H]. by apply (IH y).
Qed.

Lemma crlf_test c w1 x w2 : crlf_free c (w1 ++ x :: w2) →
  (x =? LF) && (last_cur c w1 =? CR) = false.
Proof.
  intros H%crlf_free_app. apply andb_false_iff.
  destruct (Z.eqb_spec x LF), (Z.eqb_spec (last_cur c w1) CR); auto. tauto.
Qed.

Lemma crlf_free_snoc c w : crlf_free c w → crlf_free c (w ++ [CR]).
Proof.
  revert c. induction w as [|x w IH]; intros c; simpl; [by intros _; split; [intros [_ ?]|]|].
  intros [H1 H2]. split; [done|by apply IH].
Qed.

Lemma slice_middle pre w rest n : n = length w → slice (pre ++ w ++ rest) (length pre) n = w.
Proof. intros ->. unfold slice. by rewrite drop_app_length, take_app_length. Qed.

(** At the start of a field that begins at [pre]. *)
Definition at_start (s : scan) (st : PARSER_STATE) (pre : list Z) : Prop :=
  ps s = st ∧ nread s = length pre ∧ prevread s = length pre ∧ failed s = false.

Lemma scan_method data pre w rest s : data = pre ++ w ++ SP :: rest → SP ∉ w →
  at_start s s_request_method pre →
  scan_loop (line_step data) s_request_line_done (w ++ SP :: rest) s
  = scan_loop (line_step data) s_request_line_done rest
      (Scan s_request_url (length (pre ++ w ++ [SP])) (length (pre ++ w ++ [SP])) SP (hname s)
        (set_method w (this s)) false).
Proof.
  intros Hd Hw (Hp & Hn & Hr & Hf). rewrite scan_loop_skip; [|by rewrite Hp|done|].
  - simpl. rewrite Hp, decide_False, Hf by done. f_equal. unfold line_step. simpl. rewrite Hp, Hn, Hr, Hf.
    rewrite Hd, slice_middle by lia. rewrite !length_app. simpl. f_equal; lia.
  - intros w1 x w2 ->. rewrite skip_snoc. unfold line_step. simpl. rewrite Hp.
    destruct (Z.eqb_spec x SP) as [->|]; [|done]. destruct Hw. apply elem_of_app. right. left.
Qed.

Lemma scan_url data pre w rest s : data = pre ++ w ++ SP :: rest → SP ∉ w →
  at_start s s_request_url pre →
  scan_loop (line_step data) s_request_line_done (w ++ SP :: rest) s
  = scan_loop (line_step data) s_request_line_done rest
      (Scan s_request_version (length (pre ++ w ++ [SP])) (length (pre ++ w ++ [SP])) SP (hname s)
        (set_url w (this s)) false).
Proof.
  intros Hd Hw (Hp & Hn & Hr & Hf). rewrite scan_loop_skip; [|by rewrite Hp|done|].
  - simpl. rewrite Hp, decide_False, Hf by done. f_equal. unfold line_step. simpl. rewrite Hp, Hn, Hr, Hf.
    rewrite Hd, slice_middle by lia. rewrite !length_app. simpl. f_equal; lia.
  - intros w1 x w2 ->. rewrite skip_snoc. unfold line_step. simpl. rewrite Hp.
    destruct (Z.eqb_spec x SP) as [->|]; [|done]. destruct Hw. apply elem_of_app. right. left.
Qed.

Lemma last_cur_snoc c w x : last_cur c (w ++ [x]) = x.
Proof. unfold last_cur. by rewrite fold_left_app. Qed.

Lemma scan_version data pre w rest s : data = pre ++ w ++ crlf ++ rest → crlf_free (cur s) w →
  at_start s s_request_version pre →
  scan_loop (line_step data) s_request_line_done (w ++ crlf ++ rest) s
  = Scan s_request_line_done (length (pre ++ w ++ crlf)) (length pre) LF (hname s)
      (set_version w (this s)) false.
Proof.
  intros Hd Hw (Hp & Hn & Hr & Hf). change (crlf ++ rest) with ([CR] ++ LF :: rest).
  rewrite app_assoc, scan_loop_skip; [|by rewrite Hp|done|].
  - simpl. rewrite Hp, decide_False, Hf by done. rewrite scan_loop_stopped.
    + unfold line_step. simpl. rewrite Hp, Hn, Hr, Hf, last_cur_snoc. simpl.
      rewrite Hd, slice_middle by (rewrite length_app; simpl; lia). rewrite !length_app. simpl. f_equal. lia.
    + left. unfold line_step. simpl. by rewrite Hp, last_cur_snoc.
  - intros w1 x w2 E. rewrite skip_snoc. unfold line_step. simpl. rewrite Hp.
    apply crlf_free_snoc in Hw. rewrite E in Hw. by rewrite (crlf_test _ _ _ _ Hw).
Qed.

Lemma scan_name data pre w rest s : data = pre ++ w ++ ch ":" :: rest → ch ":" ∉ w →
  crlf_free (cur s) w → at_start s s_request_field_name pre →
  scan_loop (header_step data) s_request_header_done (w ++ ch ":" :: rest) s
  = scan_loop (header_step data) s_request_header_done rest
      (Scan s_request_field_value (length (pre ++ w ++ [ch ":"])) (length (pre ++ w ++ [ch ":"]))
        (ch ":") w (this s) false).
Proof.
  intros Hd Hw Hc (Hp & Hn & Hr & Hf). rewrite scan_loop_skip; [|by rewrite Hp|done|].
  - simpl. rewrite Hp, decide_False, Hf by done. f_equal. unfold header_step. simpl.
    rewrite Hp, Hn, Hr, Hf. rewrite Hd, slice_middle by lia. rewrite !length_app. simpl. f_equal; lia.
  - intros w1 x w2 ->. rewrite skip_snoc. unfold header_step. simpl. rewrite Hp.
    rewrite (crlf_test _ _ _ _ Hc).
    destruct (Z.eqb_spec x (ch ":")) as [->|]; [|done]. destruct Hw. apply elem_of_app. right. left.
Qed.

Definition trim (v : list Z) : list Z := rtrim (ltrim v).

Lemma scan_value data pre w rest s : data = pre ++ w ++ crlf ++ rest → crlf_free (cur s) w →
  at_start s s_request_field_value pre → req_headers (this s) !! hname s = None →
  scan_loop (header_step data) s_request_header_done (w ++ crlf ++ rest) s
  = scan_loop (header_step data) s_request_header_done rest
      (Scan s_request_field_name (length (pre ++ w ++ crlf)) (length (pre ++ w ++ crlf)) LF (hname s)
        (set_headers (<[hname s := trim w]> (req_headers (this s))) (this s)) false).
Proof.
  intros Hd Hw (Hp & Hn & Hr & Hf) Hnew. change (crlf ++ rest) with ([CR] ++ LF :: rest).
  rewrite app_assoc, scan_loop_skip; [|by rewrite Hp|done|].
  - simpl. rewrite Hp, decide_False, Hf by done. f_equal.
    unfold header_step. simpl. rewrite Hp, Hn, Hr, Hf, last_cur_snoc. simpl.
    rewrite Hnew, Hd, slice_middle by (rewrite length_app; simpl; lia).
    rewrite !length_app. simpl. f_equal; lia.
  - intros w1 x w2 E. rewrite skip_snoc. unfold header_step. simpl. rewrite Hp.
    apply crlf_free_snoc in Hw. rewrite E in Hw. by rewrite (crlf_test _ _ _ _ Hw).
Qed.

(** A header that is already there fails the parse. *)
Lemma scan_duplicate data w rest s v : crlf_free (cur s) w → ps s = s_request_field_value →
  failed s = false → req_headers (this s) !! hname s = Some v →
  failed (scan_loop (header_step data) s_request_header_done (w ++ crlf ++ rest) s) = true.
Proof.
  intros Hw Hp Hf Hold. change (crlf ++ rest) with ([CR] ++ LF :: rest).
  rewrite app_assoc, scan_loop_skip; [|by rewrite Hp|done|].
  - simpl. rewrite Hp, decide_False, Hf by done.
    assert (failed (header_step data (skip s (w ++ [CR])) LF) = true) as F.
    { unfold header_step. simpl. rewrite Hp, last_cur_snoc. simpl. by rewrite Hold. }
    by rewrite scan_loop_stopped by by right.
  - intros w1 x w2 E. rewrite skip_snoc. unfold header_step. simpl. rewrite Hp.
    apply crlf_free_snoc in Hw. rewrite E in Hw. by rewrite (crlf_test _ _ _ _ Hw).
Qed.

(** One rendered header, and the header block. *)
Definition render_header (h : list Z * list Z) : list Z := fst h ++ ch ":" :: snd h ++ crlf.
Definition header_wf (h : list Z * list Z) : Prop :=
  (ch ":" ∉ fst h) ∧ crlf_free LF (fst h) ∧ crlf_free (ch ":") (snd h).
#[export] Instance header_wf_dec h : Decision (header_wf h).
Proof. apply _. Defined.

Definition with_headers (p : HttpParser) (hs : list (list Z * list Z)) : HttpParser :=
  set_headers (fold_left (λ m h, <[fst h := trim (snd h)]> m) hs (req_headers p)) p.

Lemma scan_headers data hs : ∀ pre rest s, data = pre ++ concat (map render_header hs) ++ rest →
  at_start s s_request_field_name pre → cur s = LF → Forall header_wf hs → NoDup (map fst hs) →
  (∀ h, h ∈ hs → req_headers (this s) !! fst h = None) →
  ∃ s', scan_loop (header_step data) s_request_header_done (concat (map render_header hs) ++ rest) s
    = scan_loop (header_step data) s_request_header_done rest s' ∧
    at_start s' s_request_field_name (pre ++ concat (map render_header hs)) ∧ cur s' = LF ∧
    this s' = with_headers (this s) hs.
Proof.
  induction hs as [|[n v] hs IH]; intros pre rest s Hd Hs Hc Hwf Hnd Hnew.
  - exists s. rewrite app_nil_r. split_and!; try done. by destruct s as [? ? ? ? ? []].
  - apply Forall_cons in Hwf as [(Hw1 & Hw2 & Hw3) Hwf]. simpl in Hw1, Hw2, Hw3.
    apply NoDup_cons in Hnd as [Hni Hnd]. simpl in Hni.
    set (R := concat (map render_header hs) ++ rest).
    assert (concat (map render_header ((n, v) :: hs)) ++ rest = n ++ ch ":" :: (v ++ crlf ++ R)) as E
      by (unfold R; simpl; unfold render_header at 1; simpl; by list_norm).
    rewrite E in *. rewrite (scan_name data pre n (v ++ crlf ++ R)) by (done || by rewrite Hc).
    rewrite (scan_value data (pre ++ n ++ [ch ":"]) v R);
      [|rewrite Hd; by list_norm|done|done|apply (Hnew (n, v)); left].
    destruct (IH (pre ++ n ++ ch ":" :: v ++ crlf) rest
      (Scan s_request_field_name (length (pre ++ n ++ ch ":" :: v ++ crlf))
        (length (pre ++ n ++ ch ":" :: v ++ crlf)) LF n
        (set_headers (<[n := trim v]> (req_headers (this s))) (this s)) false))
      as (s' & E' & Hs' & Hc' & Ht'); [|by split_and!|done|done|done| |].
    + rewrite Hd. unfold R. by list_norm.
    + intros h Hh. simpl. rewrite lookup_insert_ne; [apply Hnew; by right|].
      intros Eh. apply Hni. rewrite Eh. apply list_elem_of_fmap. by exists h.
    + exists s'. split_and!; [|..|done|by rewrite Ht'].
      * rewrite <-E'. unfold R. do 2 f_equal; by list_norm.
      * replace (pre ++ concat (map render_header ((n, v) :: hs)))
          with ((pre ++ n ++ ch ":" :: v ++ crlf) ++ concat (map render_header hs)); [done|].
        simpl. unfold render_header at 2. simpl. by list_norm.
Qed.

Definition render_request (m u v : list Z) (hs : list (list Z * list Z)) : list Z :=
  m ++ SP :: u ++ SP :: v ++ crlf ++ concat (map render_header hs) ++ crlf.

Lemma scan_request_line m u v rest :
  SP ∉ m → SP ∉ u → crlf_free SP v →
  let line := m ++ SP :: u ++ SP :: v ++ crlf in
  parse_line (line ++ rest) = Scan s_request_line_done (length line)
    (length (m ++ SP :: u ++ [SP])) LF [] (MkHttpParser m u v ∅) false.
Proof.
  intros Hm Hu Hv line. unfold parse_line.
  assert (line ++ rest = m ++ SP :: (u ++ SP :: v ++ crlf ++ rest)) as Hd
    by (unfold line; by list_norm).
  rewrite Hd at 2. rewrite (scan_method (line ++ rest) [] m (u ++ SP :: v ++ crlf ++ rest)) by done.
  rewrite (scan_url (line ++ rest) (m ++ [SP]) u (v ++ crlf ++ rest));
    [|unfold line; by list_norm|done|done].
  rewrite (scan_version (line ++ rest) (m ++ SP :: u ++ [SP]) v rest);
    [|unfold line; by list_norm|done|].
  - simpl. f_equal. unfold line. unfold crlf. list_len.
  - split_and!; simpl; try done; list_len.
Qed.

(** The empty line ends the headers. *)
Lemma scan_end data rest s : ps s = s_request_field_name → failed s = false →
  scan_loop (header_step data) s_request_header_done (crlf ++ rest) s
  = Scan s_request_header_done (S (S (nread s))) (prevread s) LF (hname s) (this s) false.
Proof.
  intros Hp Hf. change (crlf ++ rest) with ([CR] ++ LF :: rest).
  rewrite scan_loop_skip; [|by rewrite Hp|done|].
  - simpl. rewrite Hp, decide_False, Hf by done. rewrite scan_loop_stopped.
    + unfold header_step. simpl. rewrite Hp, Hf. simpl. f_equal. lia.
    + left. unfold header_step. simpl. by rewrite Hp.
  - intros w1 x w2 E. destruct w1 as [|? [|]]; try done. injection E as <- <-.
    unfold header_step, skip. simpl. rewrite Hp. simpl. by rewrite Nat.add_0_r, Nat.add_1_r.
Qed.

Lemma scan_request m u v hs body :
  SP ∉ m → SP ∉ u → crlf_free SP v → Forall header_wf hs → NoDup (map fst hs) →
  let data := render_request m u v hs ++ body in
  let h := parse_headers data (parse_line data) in
  ps (parse_line data) = s_request_line_done ∧ failed (parse_line data) = false ∧
  ps h = s_request_header_done ∧ failed h = false ∧
  this h = with_headers (MkHttpParser m u v ∅) hs ∧ nread h = length (render_request m u v hs).
Proof.
  intros Hm Hu Hv Hwf Hnd data h. set (line := m ++ SP :: u ++ SP :: v ++ crlf).
  assert (data = line ++ concat (map render_header hs) ++ crlf ++ body) as Hd
    by (unfold data, render_request, line; by list_norm).
  subst h. rewrite Hd, (scan_request_line m u v) by done. fold line. rewrite <-Hd.
  split_and!; [done|done|..]; unfold parse_headers; simpl nread; rewrite Hd, drop_app_length, <-Hd.
  all: destruct (scan_headers data hs line (crlf ++ body)
    (start_headers (Scan s_request_line_done (length line) (length (m ++ SP :: u ++ [SP])) LF []
      (MkHttpParser m u v ∅) false))) as (s' & -> & (Hs1 & Hs2 & Hs3 & Hs4) & Hc & Ht);
    [done|by split_and!|done|done|done|intros; apply lookup_empty|].
  all: rewrite scan_end by done; simpl.
  - done.
  - done.
  - by rewrite Ht.
  - rewrite Hs2. unfold render_request, line.
    unfold crlf. list_len.
Qed.

Lemma with_headers_lookup p hs n v : NoDup (map fst hs) → (n, v) ∈ hs →
  req_headers (with_headers p hs) !! n = Some (trim v).
Proof.
  unfold with_headers. simpl. generalize (req_headers p).
  induction hs as [|[n' v'] hs IH]; intros m Hnd Hin; [by apply not_elem_of_nil in Hin|].
  apply NoDup_cons in Hnd as [Hn Hnd]. simpl in *.
  apply elem_of_cons in Hin as [[= -> ->]|Hin]; [|by apply IH].
  clear IH. assert (∀ m : gmap (list Z) (list Z), m !! n' = Some (trim v') →
    fold_left (λ m h, <[h.1:=trim h.2]> m) hs m !! n' = Some (trim v')) as H.
  { induction hs as [|[k w] hs IH]; intros m' Hm; simpl; [done|].
    apply not_elem_of_cons in Hn as [Hk Hn]. apply NoDup_cons in Hnd as [_ Hnd].
    apply IH; [done..|]. by rewrite lookup_insert_ne. }
  apply H, lookup_insert_eq.
Qed.

Lemma with_headers_None p hs n : n ∉ map fst hs →
  req_headers (with_headers p hs) !! n = req_headers p !! n.
Proof.
  unfold with_headers. simpl. generalize (req_headers p).
  induction hs as [|[k w] hs IH]; intros m Hn; simpl; [done|].
  apply not_elem_of_cons in Hn as [Hk Hn]. rewrite IH by done. by rewrite lookup_insert_ne.
Qed.

Lemma ltrim_id w : (∀ c w', w = c :: w' → c ≠ SP) → ltrim w = w.
Proof.
  destruct w as [|c w]; [done|]. intros H. simpl.
  destruct (Z.eqb_spec c SP); [by destruct (H c w)|done].
Qed.

Lemma trim_id w : SP ∉ w → trim w = w.
Proof.
  intros Hw. unfold trim, rtrim. rewrite !ltrim_id; [apply reverse_involutive|..].
  - intros c w' ->. intros ->. apply Hw. left.
  - intros c w' E. rewrite ltrim_id in E.
    + intros ->. apply Hw. apply elem_of_reverse. rewrite E. left.
    + intros c0 w0 ->. intros ->. apply Hw. left.
Qed.

Lemma dec_int_no_SP z : SP ∉ dec_int z.
Proof. intros [H|H]%dec_int_chars; [vm_compute in H|vm_compute in H]; done. Qed.

Lemma header_length p hs z : NoDup (map fst hs) → (str "Content-Length", dec_int z) ∈ hs →
  header (str "Content-Length") (with_headers p hs) = Some (dec_int z).
Proof.
  intros Hnd Hin. unfold header. rewrite (with_headers_lookup p hs _ (dec_int z)) by done.
  simpl. by rewrite trim_id, c_str_id by (apply dec_int_no_SP || apply dec_int_no_nul).
Qed.

Definition content_length_is (hs : list (list Z * list Z)) (z : Z) : Prop :=
  (str "Content-Length", dec_int z) ∈ hs ∨ z = 0 ∧ str "Content-Length" ∉ map fst hs.

(** A request rendered from a method and URL without spaces, a version,
    and headers with distinct names free of ':' and line ends, followed by the body its
    Content-Length announces and by anything else, parses to exactly these parts (header
    values trimmed) and consumes exactly the request. *)
Theorem parse_render m u v hs body rest p :
  SP ∉ m → SP ∉ u → crlf_free SP v → Forall header_wf hs → NoDup (map fst hs) →
  content_length_is hs (Z.of_nat (length body)) →
  Z.of_nat (length (render_request m u v hs ++ body)) < 2 ^ 63 →
  parse (render_request m u v hs ++ body ++ rest) p =
    (Z.of_nat (length (render_request m u v hs ++ body)), with_headers (MkHttpParser m u v ∅) hs).
Proof.
  intros Hm Hu Hv Hwf Hnd Hcl Hlen.
  destruct (scan_request m u v hs (body ++ rest)) as (H1 & H2 & H3 & H4 & H5 & H6); try done.
  apply parse_intro; [by destruct m|done|done|]. split_and!; try done.
  rewrite H6. rewrite length_app in Hlen. unfold parse_length. destruct Hcl as [Hin|[Hz Hno]].
  - rewrite (header_length _ _ (Z.of_nat (length body))) by done. unfold stol.
    rewrite sto_dec_int by (unfold sfits; lia).
    assert (u64 (Z.of_nat (length body)) = Z.of_nat (length body)) as ->
      by (apply (wrap_id 64); unfold fits; lia).
    assert (u64 (Z.of_nat (length (render_request m u v hs)) + Z.of_nat (length body))
      = Z.of_nat (length (render_request m u v hs ++ body))) as ->
      by (rewrite length_app; unfold u64; rewrite wrap_id by (unfold fits; lia); lia).
    rewrite !length_app. destruct (Z.ltb_spec
      (Z.of_nat (length (render_request m u v hs) + (length body + length rest)))
      (Z.of_nat (length (render_request m u v hs) + length body))); [lia|done].
  - unfold header. rewrite with_headers_None by done. simpl. rewrite lookup_empty. simpl.
    rewrite length_app. lia.
Qed.

Lemma parse_render_witness :
  parse (render_request (str "POST") (str "/x") (str "HTTP/1.1")
      [(str "Host", str " h "); (str "Content-Length", dec_int 2)] ++ str "ab" ++ str "GET") clear
  = (50, with_headers (MkHttpParser (str "POST") (str "/x") (str "HTTP/1.1") ∅)
       [(str "Host", str " h "); (str "Content-Length", dec_int 2)]).
Proof.
  apply (parse_render (str "POST") (str "/x") (str "HTTP/1.1")
      [(str "Host", str " h "); (str "Content-Length", dec_int 2)] (str "ab") (str "GET") clear);
    try (apply (bool_decide_unpack _); vm_compute; exact I).
Defined.

(** The header block [hs] followed by one more header of a name already there. *)
Lemma headers_duplicate data line hs h1 tail s h0 :
  data = line ++ concat (map render_header hs) ++ render_header h1 ++ tail →
  at_start s s_request_field_name line → cur s = LF → this s = MkHttpParser (req_method (this s))
    (req_url (this s)) (req_version (this s)) ∅ →
  Forall header_wf hs → NoDup (map fst hs) → h0 ∈ hs → fst h1 = fst h0 → header_wf h1 →
  failed (scan_loop (header_step data) s_request_header_done
    (concat (map render_header hs) ++ render_header h1 ++ tail) s) = true.
Proof.
  intros Hd Hs Hc Hth Hwf Hnd Hin Heq (W1 & W2 & W3).
  destruct (scan_headers data hs line (render_header h1 ++ tail) s)
    as (s' & -> & Hs' & Hc' & Ht); [done..| |].
  { intros h Hh. rewrite Hth. apply lookup_empty. }
  unfold render_header. list_norm.
  rewrite (scan_name data (line ++ concat (map render_header hs)) (fst h1) (snd h1 ++ crlf ++ tail) s');
    [|rewrite Hd; unfold render_header; by list_norm|done|by rewrite Hc'|done].
  destruct h0 as [n0 v0]. apply (scan_duplicate _ _ _ _ (trim v0)); [done..|].
  simpl. rewrite Ht, Heq. by apply with_headers_lookup.
Qed.

Lemma parse_headers_failed line rest m u v p :
  line = m ++ SP :: u ++ SP :: v ++ crlf → SP ∉ m → SP ∉ u → crlf_free SP v →
  failed (scan_loop (header_step (line ++ rest)) s_request_header_done rest
    (Scan s_request_field_name (length line) (length line) LF [] (MkHttpParser m u v ∅) false)) = true →
  fst (parse (line ++ rest) p) = size_error.
Proof.
  intros Hl Hm Hu Hv Hf. pose proof (scan_request_line m u v rest Hm Hu Hv) as HL.
  simpl in HL. rewrite <-Hl in HL. unfold parse.
  destruct (line ++ rest) as [|x d] eqn:Ed; [subst line; by destruct m|].
  rewrite HL. simpl. rewrite <-Ed in *. unfold parse_headers. simpl nread.
  rewrite drop_app_length. unfold start_headers. simpl. by rewrite Hf.
Qed.

(** Two headers of the same name fail the parse; so does a Content-Length that
    is not a number; and a negative Content-Length is not rejected but subtracted from
    the size, modulo 2^64: fewer bytes than the header block are consumed, none at all when
    it is minus the block's length, so the caller then waits for more data forever. *)
Theorem parse_bad_headers m u v hs h0 h1 hs2 rest p z :
  SP ∉ m → SP ∉ u → crlf_free SP v → Forall header_wf hs → NoDup (map fst hs) →
  let size := Z.of_nat (length (render_request m u v hs)) in
  (h0 ∈ hs → fst h1 = fst h0 → header_wf h1 →
   fst (parse (render_request m u v (hs ++ h1 :: hs2) ++ rest) p) = size_error) ∧
  ((str "Content-Length", str "x") ∈ hs →
   fst (parse (render_request m u v hs ++ rest) p) = size_error) ∧
  ((str "Content-Length", dec_int (- z)) ∈ hs → 0 < z ≤ size → size < 2 ^ 63 →
   fst (parse (render_request m u v hs ++ rest) p) = size - z).
Proof.
  intros Hm Hu Hv Hwf Hnd size. split.
  { intros Hin Heq Hwf1. set (line := m ++ SP :: u ++ SP :: v ++ crlf).
    assert (render_request m u v (hs ++ h1 :: hs2) ++ rest
      = line ++ concat (map render_header hs) ++ render_header h1 ++
        concat (map render_header hs2) ++ crlf ++ rest) as ->
      by (unfold render_request, line; rewrite map_app, concat_app; cbn [map concat]; by list_norm).
    apply (parse_headers_failed _ _ m u v); [done..|].
    by apply (headers_duplicate _ line hs h1 _ _ h0). }
  destruct (scan_request m u v hs rest) as (H1 & H2 & H3 & H4 & H5 & H6); try done.
  assert (∀ n, parse_length (Z.of_nat (length (render_request m u v hs ++ rest))) size
    (with_headers (MkHttpParser m u v ∅) hs) = n →
    fst (parse (render_request m u v hs ++ rest) p) = n) as Hp.
  { intros n Hn. rewrite (parse_intro _ p n (with_headers (MkHttpParser m u v ∅) hs)); try done;
      [by destruct m|]. split_and!; try done. by rewrite H6. }
  split.
  - intros Hin. apply Hp. unfold parse_length, header.
    by rewrite (with_headers_lookup _ _ _ _ Hnd Hin).
  - intros Hin Hz Hs. apply Hp. unfold parse_length.
    rewrite (header_length _ _ _ Hnd Hin). unfold stol. rewrite sto_dec_int by (unfold sfits; lia).
    assert (u64 (size + u64 (- z)) = size - z) as ->.
    { unfold u64. rewrite wrap_add_r, Z.add_opp_r. apply wrap_id. unfold fits. lia. }
    rewrite length_app. fold size. destruct (Z.ltb_spec
      (Z.of_nat (length (render_request m u v hs) + length rest)) (size - z)); lia.
Qed.

Lemma parse_bad_headers_witness :
  fst (parse (render_request (str "GET") (str "/") (str "HTTP/1.1")
    [(str "Content-Length", dec_int (-38))]) clear) = 0.
Proof.
  rewrite <-(app_nil_r (render_request _ _ _ _)).
  apply (parse_bad_headers (str "GET") (str "/") (str "HTTP/1.1") [(str "Content-Length", dec_int (-38))]
    ([], []) ([], []) [] [] clear 38); try (apply (bool_decide_unpack _); vm_compute; exact I).
Defined.
