(* ===== verification/ByteQueue.v ===== *)
(** * The interface between the byte buffer and its clients

    What Socket.cpp and the servers use of a [ByteBuffer], and the laws they rely on:
    the buffer is a queue of bytes. *)

From S2P Require Import Prelude.

(** [bq_contents] is [rbuffer()] with [size()], [bq_consume n] is [rlength(n)],
    [bq_receive room data] is [wbuffer(room)], a system call that stores [data] there, and
    [wlength]. *)
Class ByteQueue (B : Type) := {
  bq_new : B;
  bq_holds : B → list Z → Prop;
  bq_contents : B → outcome (list Z);
  bq_consume : nat → B → outcome B;
  bq_receive : nat → list Z → B → outcome B;
  bq_append : list Z → B → outcome B
}.

Class ByteQueueLaws (B : Type) `{ByteQueue B} : Prop := {
  bq_new_holds : bq_holds bq_new [];
  bq_contents_holds b q : bq_holds b q → bq_contents b = Ret q;
  bq_consume_holds n b q : bq_holds b q → (n ≤ length q)%nat →
    ∃ b', bq_consume n b = Ret b' ∧ bq_holds b' (drop n q);
  bq_consume_too_much n b q : bq_holds b q → (length q < n)%nat → bq_consume n b = Aborted;
  bq_receive_holds room data b q : bq_holds b q → (length data ≤ room)%nat →
    ∃ b', bq_receive room data b = Ret b' ∧ bq_holds b' (q ++ data);
  bq_append_holds data b q : bq_holds b q →
    ∃ b', bq_append data b = Ret b' ∧ bq_holds b' (q ++ data)
}.

(** The plain list is a byte queue. *)
#[export] Instance list_queue : ByteQueue (list Z) := {|
  bq_new := [];
  bq_holds b q := b = q;
  bq_contents b := Ret b;
  bq_consume n b := if decide (n ≤ length b)%nat then Ret (drop n b) else Aborted;
  bq_receive room data b := Ret (b ++ data);
  bq_append data b := Ret (b ++ data)
|}.

#[export] Instance list_queue_laws : ByteQueueLaws (list Z).
Proof.
  split; simpl; [done|by intros ?? ->|..].
  - intros n b q -> Hn. rewrite decide_True by done. eauto.
  - intros n b q -> Hn. by rewrite decide_False by lia.
  - intros room data b q -> _. eauto.
  - intros data b q ->. eauto.
Qed.
