(* ===== verification/ByteBuffer.v ===== *)
(** * The byte buffer: src/tools/ByteBuffer.cpp, deps/bundle-0.01/include/tools/ByteBuffer.h

    The heap block with its two indices, every method as a function that may fail an
    assertion or access memory outside the block, and the proof that the whole is a queue
    of bytes.  Sizes are sums in [size_t], and [realloc] may return null: both are the argument
    [memory] of the operations.  [machine] wraps sizes at 2^64 and grants what its argument
    grants; in [unbounded] sizes do not wrap and everything is granted, and there the buffer has
    the interface [ByteQueue], which its clients are written against. *)

From S2P Require Import Prelude ByteQueue.

(** [_buf] has [_capacity] bytes; [None] is a byte [realloc] did not initialise. *)
Record ByteBuffer := MkByteBuffer {
  _buf : list (option Z);
  _capacity : nat;
  _rindex : nat;
  _windex : nat
}.

Definition BUFFER_CHUNK_SIZE : nat := 512.

(** What a [size_t] keeps of a sum, and whether a block of a size can be had. *)
Record memory := MkMemory { size_t : nat → nat; granted : nat → bool }.
Definition machine (granted : nat → bool) : memory := MkMemory (λ n, Z.to_nat (u64 (Z.of_nat n))) granted.
Definition unbounded : memory := MkMemory (λ n, n) (λ _, true).

Section Operations.
Context (mem : memory).

(** ** Operations *)

Definition blank (b : ByteBuffer) : nat :=
  if decide (_capacity b ≤ _windex b)%nat then 0%nat else (_capacity b - _windex b)%nat.

(** [realloc]: the old bytes, then uninitialised ones; null when it fails. *)
Definition realloc (buf : list (option Z)) (n : nat) : list (option Z) :=
  if granted mem n then take n buf ++ replicate (n - length buf) None else [].

Definition reserve (newsize : nat) (b : ByteBuffer) : ByteBuffer :=
  if decide (newsize < blank b)%nat then b
  else
    let newsize := if decide (newsize < BUFFER_CHUNK_SIZE)%nat then BUFFER_CHUNK_SIZE else newsize in
    let newsize := size_t mem (newsize + _capacity b) in
    MkByteBuffer (realloc (_buf b) newsize) newsize (_rindex b) (_windex b).

(** The constructor with its default size. *)
Definition new_ByteBuffer (size : nat) : ByteBuffer := reserve size (MkByteBuffer [] 0 0 0).

Definition clear (b : ByteBuffer) : ByteBuffer := MkByteBuffer [] 0 0 0.
Definition reset (b : ByteBuffer) : ByteBuffer := MkByteBuffer (_buf b) (_capacity b) 0 0.

Definition size (b : ByteBuffer) : outcome nat :=
  _ ← cxx_assert (bool_decide (_rindex b ≤ _windex b)%nat);
  mret (_windex b - _rindex b)%nat.

Definition shrink (b : ByteBuffer) : outcome ByteBuffer :=
  n ← size b; mret (if decide (n = 0%nat) then reset b else b).

Definition rlength (len : nat) (b : ByteBuffer) : outcome ByteBuffer :=
  let b := MkByteBuffer (_buf b) (_capacity b) (size_t mem (_rindex b + len)) (_windex b) in
  _ ← cxx_assert (bool_decide (_rindex b ≤ _windex b)%nat);
  shrink b.

Definition wlength (len : nat) (b : ByteBuffer) : outcome ByteBuffer :=
  let b := MkByteBuffer (_buf b) (_capacity b) (_rindex b) (size_t mem (_windex b + len)) in
  _ ← cxx_assert (bool_decide (_windex b ≤ _capacity b)%nat);
  mret b.

(** [memcpy(&_buf[_windex], s, len)] *)
Definition store (s : list Z) (b : ByteBuffer) : outcome ByteBuffer :=
  if decide (_windex b + length s ≤ length (_buf b))%nat then
    Ret (MkByteBuffer (take (_windex b) (_buf b) ++ map Some s ++ drop (_windex b + length s) (_buf b))
           (_capacity b) (_rindex b) (_windex b))
  else Undef.

(** [memcpy(out, &_buf[_rindex], len)] *)
Definition load (len : nat) (b : ByteBuffer) : outcome (list (option Z)) :=
  if decide (_rindex b + len ≤ length (_buf b))%nat
  then Ret (take len (drop (_rindex b) (_buf b)))
  else Undef.

Definition append (s : list Z) (b : ByteBuffer) : outcome ByteBuffer :=
  b ← store s (reserve (length s) b);
  wlength (length s) b.

Definition read (len : nat) (b : ByteBuffer) : outcome (list (option Z) * ByteBuffer) :=
  out ← load len b;
  b ← rlength len b;
  mret (out, b).

(** What the callers of [rbuffer()] and [size()] see. *)
Definition rbuffer_bytes (b : ByteBuffer) : outcome (list (option Z)) :=
  n ← size b; load n b.

(** ** The typed operators

    A value is stored as its object representation (little-endian, two's complement); a
    [float] or [double] stands for its 4 or 8 byte bit pattern. *)

Inductive ctype := TBool | TU8 | TU16 | TU32 | TU64 | TS8 | TS16 | TS32 | TS64 | TFloat | TDouble.

Definition sizeof (t : ctype) : nat :=
  match t with
  | TBool | TU8 | TS8 => 1 | TU16 | TS16 => 2 | TU32 | TS32 | TFloat => 4 | TU64 | TS64 | TDouble => 8
  end.

Definition is_signed (t : ctype) : bool :=
  match t with TS8 | TS16 | TS32 | TS64 => true | _ => false end.

Definition in_type (t : ctype) (v : Z) : Prop :=
  if is_signed t then sfits (8 * Z.of_nat (sizeof t)) v
  else match t with TBool => v = 0 ∨ v = 1 | _ => fits (8 * Z.of_nat (sizeof t)) v end.

Definition put (t : ctype) (v : Z) (b : ByteBuffer) : outcome ByteBuffer :=
  append (le_bytes (sizeof t) v) b.

(** Reading an uninitialised byte is undefined. *)
Fixpoint initialised (l : list (option Z)) : outcome (list Z) :=
  match l with
  | [] => Ret []
  | Some x :: l => l ← initialised l; mret (x :: l)
  | None :: _ => Undef
  end.

Definition get (t : ctype) (b : ByteBuffer) : outcome (Z * ByteBuffer) :=
  '(raw, b) ← read (sizeof t) b;
  bytes ← initialised raw;
  let w := 8 * Z.of_nat (sizeof t) in
  mret (if is_signed t then swrap w (le_val bytes) else le_val bytes, b).

(** [operator<<] of a [std::string] and of a C string (null pointers are skipped). *)
Definition put_string (value : list Z) (b : ByteBuffer) : outcome ByteBuffer := append value b.
Definition put_cstr (value : option (list Z)) (b : ByteBuffer) : outcome ByteBuffer :=
  match value with None => Ret b | Some s => append (c_str s) b end.

(** [CopyFrom] and [CopyTo]; the message class is protobuf's. *)
Section Protobuf.
Context {message : Type} (ByteSize : message → nat)
  (SerializeToArray : message → option (list Z)) (ParseFromArray : list Z → option message).

Definition CopyFrom (msg : message) (b : ByteBuffer) : outcome (bool * ByteBuffer) :=
  let b := reserve (ByteSize msg) b in
  match SerializeToArray msg with
  | None => Ret (false, b)
  | Some bytes => b ← store bytes b; b ← wlength (ByteSize msg) b; mret (true, b)
  end.

Definition CopyTo (b : ByteBuffer) : outcome (option message) :=
  raw ← rbuffer_bytes b;
  bytes ← initialised raw;
  mret (ParseFromArray bytes).
End Protobuf.

End Operations.

(** ** Invariant and contents *)

(** The unread bytes. *)
Definition window (b : ByteBuffer) : list (option Z) :=
  take (_windex b - _rindex b) (drop (_rindex b) (_buf b)).

(** [b] holds the queue [q]. *)
Definition holds (b : ByteBuffer) (q : list Z) : Prop :=
  length (_buf b) = _capacity b ∧ (_rindex b ≤ _windex b)%nat ∧ (_windex b ≤ _capacity b)%nat ∧
  window b = map Some q.

Lemma holds_length b q : holds b q → length q = (_windex b - _rindex b)%nat.
Proof.
  intros (Hl & Hr & Hw & Hq). apply (f_equal length) in Hq. rewrite length_map in Hq.
  unfold window in Hq. rewrite length_take, length_drop in Hq. lia.
Qed.

(** Sizes up to [n] are kept, and granted. *)
Definition roomy (mem : memory) (n : nat) : Prop := ∀ k, (k ≤ n)%nat → size_t mem k = k ∧ granted mem k = true.

Lemma roomy_le mem n k : roomy mem n → (k ≤ n)%nat → roomy mem k.
Proof. intros Hn Hk j Hj. apply Hn. lia. Qed.
Lemma unbounded_roomy n : roomy unbounded n.
Proof. done. Qed.
Lemma machine_roomy ok n : Z.of_nat n < 2 ^ 64 → (∀ k, (k ≤ n)%nat → ok k = true) → roomy (machine ok) n.
Proof.
  intros Hn Hok k Hk. split; [|by apply Hok]. cbn. unfold u64. rewrite wrap_id by (unfold fits; lia). lia.
Qed.

Section Queue.
Context (mem : memory).
Local Abbreviation reserve := (reserve mem).
Local Abbreviation realloc := (realloc mem).
Local Abbreviation new_ByteBuffer := (new_ByteBuffer mem).
Local Abbreviation rlength := (rlength mem).
Local Abbreviation wlength := (wlength mem).
Local Abbreviation append := (append mem).
Local Abbreviation read := (read mem).
Local Abbreviation put := (put mem).
Local Abbreviation get := (get mem).

(** The block grows by what is asked for, and a chunk at the most. *)
Lemma reserve_holds n b q : holds b q → roomy mem (_capacity b + (n + BUFFER_CHUNK_SIZE)) →
  holds (reserve n b) q ∧ (n ≤ blank (reserve n b))%nat ∧
  (_capacity b ≤ _capacity (reserve n b) ≤ _capacity b + (n + BUFFER_CHUNK_SIZE))%nat ∧
  _rindex (reserve n b) = _rindex b ∧ _windex (reserve n b) = _windex b.
Proof.
  intros (Hl & Hr & Hw & Hq) Hm0. unfold reserve. destruct (decide (n < blank b)%nat) as [Hb|Hb].
  { split_and!; try done; lia. }
  set (m := if decide (n < BUFFER_CHUNK_SIZE)%nat then BUFFER_CHUNK_SIZE else n).
  assert (n ≤ m ∧ 0 < m ∧ m ≤ n + BUFFER_CHUNK_SIZE)%nat as Hm
    by (unfold m, BUFFER_CHUNK_SIZE; destruct (decide (n < 512)%nat); lia).
  clearbody m. clear Hb. destruct (Hm0 (m + _capacity b)%nat ltac:(lia)) as [-> Hg].
  assert (realloc (_buf b) (m + _capacity b) = _buf b ++ replicate m None) as ->.
  { unfold realloc. rewrite Hg, take_ge by lia. do 2 f_equal. lia. }
  unfold holds, window, blank in *. simpl. rewrite length_app, length_replicate.
  split_and!; try lia.
  - rewrite <-Hq. rewrite drop_app_le, take_app_le by (rewrite ?length_drop; lia). done.
  - destruct (decide _); lia.
Qed.

Lemma new_holds n : roomy mem (n + BUFFER_CHUNK_SIZE) →
  holds (new_ByteBuffer n) [] ∧ (_capacity (new_ByteBuffer n) ≤ n + BUFFER_CHUNK_SIZE)%nat.
Proof.
  intros Hm. destruct (reserve_holds n (MkByteBuffer [] 0 0 0) []) as (Hh & _ & Hc & _); [by unfold holds|done|].
  split; [exact Hh|apply Hc].
Qed.

Lemma store_wlength s b q : holds b q → roomy mem (_capacity b) → (length s ≤ _capacity b - _windex b)%nat →
  ∃ b1 b2, store s b = Ret b1 ∧ wlength (length s) b1 = Ret b2 ∧ holds b2 (q ++ s) ∧
  _capacity b2 = _capacity b ∧ _rindex b2 = _rindex b.
Proof.
  intros Hh Hm Hs. pose proof (holds_length b q Hh) as Hlen. destruct Hh as (Hl & Hr & Hw & Hq).
  unfold store. rewrite decide_True by lia. eexists _, _. split; [done|]. split.
  { unfold wlength. simpl. rewrite (proj1 (Hm (_windex b + length s)%nat ltac:(lia))). unfold cxx_assert. rewrite bool_decide_eq_true_2 by lia. done. }
  split; [|done]. unfold holds, window in *. simpl.
  rewrite !length_app, length_map, length_take, length_drop. split_and!; [lia..|].
  rewrite map_app, <-Hq.
  replace (_windex b + length s - _rindex b)%nat with ((_windex b - _rindex b) + length s)%nat by lia.
  rewrite drop_app_le by (rewrite length_take; lia).
  rewrite take_drop_commute. replace (_rindex b + (_windex b - _rindex b))%nat with (_windex b) by lia.
  set (d := drop (_rindex b) (take (_windex b) (_buf b))).
  assert (length d = _windex b - _rindex b)%nat as Hd
    by (unfold d; rewrite length_drop, length_take; lia).
  rewrite <-Hd, take_app_add'; [|done]. f_equal.
  rewrite take_app_le by (rewrite length_map; lia). apply take_ge. rewrite length_map. lia.
Qed.

Lemma append_holds s b q : holds b q → roomy mem (_capacity b + (length s + BUFFER_CHUNK_SIZE)) →
  ∃ b', append s b = Ret b' ∧ holds b' (q ++ s) ∧ (_capacity b' ≤ _capacity b + (length s + BUFFER_CHUNK_SIZE))%nat.
Proof.
  intros Hh Hm. destruct (reserve_holds (length s) b q Hh Hm) as (Hr & Hb & Hc & _).
  assert (length s ≤ _capacity (reserve (length s) b) - _windex (reserve (length s) b))%nat as Hs
    by (unfold blank in Hb; destruct (decide _) in Hb; lia).
  destruct (store_wlength s _ q Hr) as (b1 & b2 & E1 & E2 & H2 & Ec & _); [eapply roomy_le; [done|lia]|done|].
  exists b2. split; [|split; [done|lia]]. unfold append. rewrite E1. simpl. done.
Qed.

(** Consuming: the indices go back to 0 when the buffer runs empty. *)
Lemma rlength_holds n b q : holds b q → roomy mem (_rindex b + n) →
  ((n ≤ length q)%nat → ∃ b', rlength n b = Ret b' ∧ holds b' (drop n q) ∧ _capacity b' = _capacity b ∧
     (drop n q = [] → _rindex b' = 0%nat ∧ _windex b' = 0%nat)) ∧
  ((length q < n)%nat → rlength n b = Aborted).
Proof.
  intros Hh Hm. pose proof (holds_length b q Hh) as Hlen. destruct Hh as (Hl & Hr & Hw & Hq).
  unfold rlength, cxx_assert. rewrite (proj1 (Hm _ (le_n _))). simpl. split; intros Hn.
  - rewrite bool_decide_eq_true_2 by lia. simpl. unfold shrink, size, cxx_assert. simpl.
    rewrite bool_decide_eq_true_2 by lia. simpl.
    assert (window (MkByteBuffer (_buf b) (_capacity b) (_rindex b + n) (_windex b))
      = map Some (drop n q)) as Hwin.
    { unfold window in *. simpl. rewrite <-drop_drop.
      change (map Some (drop n q)) with (Some <$> drop n q). rewrite fmap_drop.
      change (Some <$> q) with (map Some q). rewrite <-Hq.
      replace (_windex b - _rindex b)%nat with (n + (_windex b - (_rindex b + n)))%nat by lia.
      by rewrite take_drop_commute. }
    destruct (decide (_windex b - (_rindex b + n) = 0)%nat) as [E|E].
    + eexists. split; [done|]. assert (drop n q = []) as -> by (apply drop_ge; lia).
      split; [|by split]. unfold holds, window, reset. simpl. split_and!; try done; lia.
    + eexists. split; [done|]. unfold holds. simpl. split_and!; try done; [lia|].
      intros Hd. apply (f_equal length) in Hd. rewrite length_drop in Hd. simpl in Hd. lia.
  - by rewrite bool_decide_eq_false_2 by lia.
Qed.

Lemma load_holds n b q : holds b q → (n ≤ length q)%nat → load n b = Ret (map Some (take n q)).
Proof.
  intros Hh Hn. pose proof (holds_length b q Hh) as Hlen. destruct Hh as (Hl & Hr & Hw & Hq).
  unfold load. rewrite decide_True by lia. f_equal.
  change (map Some (take n q)) with (Some <$> take n q). rewrite fmap_take.
  change (Some <$> q) with (map Some q). rewrite <-Hq. unfold window.
  rewrite take_take. f_equal. lia.
Qed.

Lemma read_holds n b q : holds b q → roomy mem (_capacity b) →
  ((n ≤ length q)%nat → ∃ b', read n b = Ret (map Some (take n q), b') ∧ holds b' (drop n q) ∧ _capacity b' = _capacity b ∧
     (drop n q = [] → _rindex b' = 0%nat ∧ _windex b' = 0%nat)) ∧
  ((length q < n)%nat → read n b = Aborted ∨ read n b = Undef).
Proof.
  intros Hh Hm. pose proof (holds_length b q Hh) as Hlen. destruct (id Hh) as (Hl & Hr & Hw & _).
  unfold read. split; intros Hn.
  - destruct (rlength_holds n b q Hh) as [H1 _]; [eapply roomy_le; [done|lia]|].
    destruct (H1 Hn) as (b' & E & Hb'). exists b'. rewrite (load_holds n b q), E by done. done.
  - unfold load. destruct (decide _); [left|by right].
    destruct (rlength_holds n b q Hh) as [_ H2]; [eapply roomy_le; [done|lia]|]. by rewrite (H2 Hn).
Qed.

Lemma size_holds b q : holds b q → size b = Ret (length q).
Proof.
  intros Hh. rewrite (holds_length b q Hh). destruct Hh as (_ & Hr & _).
  unfold size, cxx_assert. by rewrite bool_decide_eq_true_2.
Qed.

Lemma initialised_map l : initialised (map Some l) = Ret l.
Proof. induction l as [|x l IH]; simpl; [done|]. by rewrite IH. Qed.

Lemma rbuffer_bytes_holds b q : holds b q → rbuffer_bytes b = Ret (map Some q).
Proof.
  intros Hh. unfold rbuffer_bytes. rewrite (size_holds b q) by done. simpl.
  rewrite (load_holds _ b q) by done. by rewrite take_ge.
Qed.

End Queue.

(** ** The interface *)

#[export] Instance ByteBuffer_queue : ByteQueue ByteBuffer := {|
  bq_new := new_ByteBuffer unbounded (Z.to_nat 65535);
  bq_holds := holds;
  bq_contents b := raw ← rbuffer_bytes b; initialised raw;
  bq_consume := rlength unbounded;
  bq_receive room data b := b ← store data (reserve unbounded room b); wlength unbounded (length data) b;
  bq_append := append unbounded
|}.

#[export] Instance ByteBuffer_laws : ByteQueueLaws ByteBuffer.
Proof.
  split; simpl.
  - by apply new_holds.
  - intros b q Hh. rewrite (rbuffer_bytes_holds b q) by done. apply initialised_map.
  - intros n b q Hh Hn. destruct (proj1 (rlength_holds unbounded n b q Hh (unbounded_roomy _)) Hn) as (b' & E & Hb' & _). eauto.
  - intros n b q Hh Hn. by apply (rlength_holds unbounded n b q Hh).
  - intros room data b q Hh Hl. destruct (reserve_holds unbounded room b q Hh (unbounded_roomy _)) as (Hr & Hb & _).
    destruct (store_wlength unbounded data _ q Hr (unbounded_roomy _)) as (b1 & b2 & E1 & E2 & H2 & _).
    { unfold blank in Hb. destruct (decide _) in Hb; lia. }
    exists b2. by rewrite E1.
  - intros data b q Hh. destruct (append_holds unbounded data b q Hh (unbounded_roomy _)) as (b' & E & Hb' & _). eauto.
Qed.

(** ** Properties *)

Inductive bb_op := OpAppend (s : list Z) | OpRead (n : nat) | OpReserve (n : nat).

(** A run of the buffer, with what its reads return. *)
Fixpoint run_buffer (mem : memory) (ops : list bb_op) (b : ByteBuffer) : outcome (list (list (option Z)) * ByteBuffer) :=
  match ops with
  | [] => Ret ([], b)
  | OpAppend s :: ops => b ← append mem s b; run_buffer mem ops b
  | OpRead n :: ops =>
      '(out, b) ← read mem n b; '(outs, b) ← run_buffer mem ops b; mret (out :: outs, b)
  | OpReserve n :: ops => run_buffer mem ops (reserve mem n b)
  end.

(** What the block may grow by. *)
Fixpoint demand (ops : list bb_op) : nat :=
  match ops with
  | [] => 0
  | OpAppend s :: ops => (length s + BUFFER_CHUNK_SIZE) + demand ops
  | OpRead _ :: ops => demand ops
  | OpReserve n :: ops => (n + BUFFER_CHUNK_SIZE) + demand ops
  end.

(** The specification: a list; [None] when more is read than was written. *)
Fixpoint run_queue (ops : list bb_op) (q : list Z) : option (list (list Z) * list Z) :=
  match ops with
  | [] => Some ([], q)
  | OpAppend s :: ops => run_queue ops (q ++ s)
  | OpRead n :: ops =>
      if decide (n ≤ length q)%nat then
        '(outs, q') ← run_queue ops (drop n q); mret (take n q :: outs, q')
      else None
  | OpReserve _ :: ops => run_queue ops q
  end.

Lemma run_buffer_refines mem ops : ∀ b q, holds b q → roomy mem (_capacity b + demand ops) →
  match run_queue ops q with
  | Some (outs, q') => ∃ b', run_buffer mem ops b = Ret (map (map Some) outs, b') ∧ holds b' q'
  | None => run_buffer mem ops b = Aborted ∨ run_buffer mem ops b = Undef
  end.
Proof.
  induction ops as [|[s|n|n] ops IH]; intros b q Hh Hm; cbn [run_queue run_buffer demand] in *; [by exists b|..].
  - destruct (append_holds mem s b q Hh) as (b' & -> & Hb' & Hc); [eapply roomy_le; [done|lia]|].
    apply (IH b' _ Hb'). eapply roomy_le; [done|lia].
  - destruct (read_holds mem n b q Hh) as [H1 H2]; [eapply roomy_le; [done|lia]|].
    destruct (decide (n ≤ length q)%nat) as [Hn|Hn].
    + destruct (H1 Hn) as (b' & -> & Hb' & Hc & _). simpl. specialize (IH b' _ Hb' ltac:(by rewrite Hc)).
      destruct (run_queue ops (drop n q)) as [[outs q']|]; simpl.
      * destruct IH as (b2 & -> & Hb2). by exists b2.
      * destruct IH as [-> | ->]; [by left|by right].
    + destruct (H2 ltac:(lia)) as [-> | ->]; [by left|by right].
  - destruct (reserve_holds mem n b q Hh) as (Hr & _ & Hc & _); [eapply roomy_le; [done|lia]|].
    apply IH; [done|]. eapply roomy_le; [done|lia].
Qed.

(** C4 (refinement): sizes wrap at 2^64.  Any sequence of appends, reads and reservations on a fresh
    buffer of any initial size, whose sizes, a chunk more for each call that may grow the block, add up
    to less than 2^64, and for which such blocks can be had, returns what the same sequence returns on
    a plain queue of bytes and leaves the same contents, through every reallocation and index reset;
    it fails exactly when more is read than was written. *)
Theorem buffer_refines_queue (granted : nat → bool) (n0 : nat) (ops : list bb_op) :
  let most := (n0 + BUFFER_CHUNK_SIZE + demand ops)%nat in
  Z.of_nat most < 2 ^ 64 → (∀ k, (k ≤ most)%nat → granted k = true) →
  let mem := machine granted in
  (∀ outs q, run_queue ops [] = Some (outs, q) →
     ∃ b, run_buffer mem ops (new_ByteBuffer mem n0) = Ret (map (map Some) outs, b) ∧
       size b = Ret (length q) ∧ rbuffer_bytes b = Ret (map Some q)) ∧
  ((∃ r, run_buffer mem ops (new_ByteBuffer mem n0) = Ret r) ↔ is_Some (run_queue ops [])).
Proof.
  intros most Hmost Hg mem. pose proof (machine_roomy granted most Hmost Hg) as Hm.
  destruct (new_holds mem n0) as [Hn Hc]; [eapply roomy_le; [done|lia]|].
  pose proof (run_buffer_refines mem ops _ _ Hn) as H. specialize (H ltac:(eapply roomy_le; [done|lia])). split.
  - intros outs q E. rewrite E in H. destruct H as (b & Hb & Hh). exists b.
    split_and!; [done|by apply size_holds|by apply rbuffer_bytes_holds].
  - destruct (run_queue ops []) as [[outs q]|].
    + split; [done|]. intros _. destruct H as (b & -> & _). eauto.
    + split; [|by intros []]. intros [r Hr]. rewrite Hr in H. by destruct H.
Qed.

Lemma buffer_refines_queue_witness :
  let mem := machine (λ n, Nat.ltb n 4000) in
  ∃ b, run_buffer mem [OpAppend [1; 2; 3]; OpRead 2; OpAppend (replicate 600 7); OpRead 1] (new_ByteBuffer mem 2)
    = Ret ([[Some 1; Some 2]; [Some 3]], b) ∧ size b = Ret 600%nat.
Proof.
  destruct (buffer_refines_queue (λ n, Nat.ltb n 4000) 2
    [OpAppend [1; 2; 3]; OpRead 2; OpAppend (replicate 600 7); OpRead 1]) as [H _].
  - vm_compute. reflexivity.
  - intros k Hk. apply Nat.ltb_lt. eapply Nat.le_lt_trans; [exact Hk|]. apply Nat.ltb_lt. vm_compute. reflexivity.
  - destruct (H [[1; 2]; [3]] (replicate 600 7)) as (b & E & Hs & _); [vm_compute; reflexivity|].
    exists b. split; [exact E|exact Hs].
Defined.

(** Without the bound the sum wraps: a reservation that is large enough makes the block smaller, and
    what was in it is lost with it. *)
Lemma reserve_wraps mem_ok b n : (blank b ≤ n)%nat → (BUFFER_CHUNK_SIZE ≤ n)%nat →
  2 ^ 64 ≤ Z.of_nat (n + _capacity b) → Z.of_nat n < 2 ^ 64 → Z.of_nat (_capacity b) < 2 ^ 64 →
  let b' := reserve (machine mem_ok) n b in
  Z.of_nat (_capacity b') = Z.of_nat n + Z.of_nat (_capacity b) - 2 ^ 64 ∧ (_capacity b' < _capacity b)%nat.
Proof.
  intros Hb Hn H64 Hn2 Hc. unfold reserve. rewrite decide_False by lia. rewrite decide_False by lia. cbn [_capacity size_t machine].
  assert (u64 (Z.of_nat (n + _capacity b)) = Z.of_nat n + Z.of_nat (_capacity b) - 2 ^ 64) as ->.
  { unfold u64, wrap. symmetry. apply (Zmod_unique _ _ 1); lia. }
  split; lia.
Qed.

Section Typed.
Context (mem : memory).

Definition put_all (vs : list (ctype * Z)) (b : ByteBuffer) : outcome ByteBuffer :=
  foldl (λ m '(t, v), b ← m; put mem t v b) (Ret b) vs.

Fixpoint get_all (ts : list ctype) (b : ByteBuffer) : outcome (list Z * ByteBuffer) :=
  match ts with
  | [] => Ret ([], b)
  | t :: ts => '(v, b) ← get mem t b; '(vs, b) ← get_all ts b; mret (v :: vs, b)
  end.

Definition encode (vs : list (ctype * Z)) : list Z := concat (map (λ '(t, v), le_bytes (sizeof t) v) vs).

(** What their writing may grow the block by. *)
Definition demand_all (vs : list (ctype * Z)) : nat := demand (map (λ '(t, v), OpAppend (le_bytes (sizeof t) v)) vs).

Lemma put_all_holds vs : ∀ b q, holds b q → roomy mem (_capacity b + demand_all vs) →
  ∃ b', put_all vs b = Ret b' ∧ holds b' (q ++ encode vs) ∧ (_capacity b' ≤ _capacity b + demand_all vs)%nat.
Proof.
  unfold put_all, demand_all. induction vs as [|[t v] vs IH]; intros b q Hh Hm; cbn [foldl map demand] in *.
  - exists b. rewrite app_nil_r. split_and!; [done|done|lia].
  - destruct (append_holds mem (le_bytes (sizeof t) v) b q Hh) as (b1 & E & H1 & Hc); [eapply roomy_le; [done|lia]|].
    unfold put at 2. cbn [mbind outcome_bind]. rewrite E. destruct (IH b1 _ H1) as (b' & E' & Hb' & Hc'); [eapply roomy_le; [done|lia]|].
    exists b'. split; [done|]. split; [|lia]. unfold encode in *. simpl. by rewrite app_assoc.
Qed.

Lemma load_value t v : in_type t v →
  (let w := 8 * Z.of_nat (sizeof t) in
   if is_signed t then swrap w (le_val (le_bytes (sizeof t) v)) else le_val (le_bytes (sizeof t) v)) = v.
Proof.
  intros Hv. simpl. rewrite le_val_le_bytes.
  change (v mod 2 ^ (8 * Z.of_nat (sizeof t))) with (wrap (8 * Z.of_nat (sizeof t)) v).
  unfold in_type in Hv. destruct (is_signed t) eqn:E.
  - rewrite swrap_wrap by (destruct t; simpl; lia). apply swrap_id; [destruct t; simpl; lia|done].
  - apply wrap_id. destruct t; try done. unfold fits. simpl. lia.
Qed.

Lemma get_holds t v b q : in_type t v → roomy mem (_capacity b) → holds b (le_bytes (sizeof t) v ++ q) →
  ∃ b', get mem t b = Ret (v, b') ∧ holds b' q ∧ _capacity b' = _capacity b ∧ (q = [] → _rindex b' = 0%nat ∧ _windex b' = 0%nat).
Proof.
  intros Hv Hm Hh. destruct (proj1 (read_holds mem (sizeof t) b _ Hh Hm)) as (b' & E & Hb' & Hc & Hz).
  { rewrite length_app, length_le_bytes. lia. }
  exists b'. unfold get. rewrite E. simpl.
  assert (drop (sizeof t) (le_bytes (sizeof t) v ++ q) = q) as Hd
    by (rewrite <-(length_le_bytes (sizeof t) v) at 1; apply drop_app_length).
  assert (take (sizeof t) (le_bytes (sizeof t) v ++ q) = le_bytes (sizeof t) v) as Ht
    by (rewrite <-(length_le_bytes (sizeof t) v) at 1; apply take_app_length).
  rewrite Hd in *. rewrite Ht, initialised_map. simpl. split_and!; [|done..].
  unfold mret, outcome_ret. do 2 f_equal. by apply load_value.
Qed.

Lemma get_all_holds vs : ∀ b, Forall (λ '(t, v), in_type t v) vs → roomy mem (_capacity b) → holds b (encode vs) →
  ∃ b', get_all (map fst vs) b = Ret (map snd vs, b') ∧ holds b' [] ∧ (vs ≠ [] → _rindex b' = 0%nat ∧ _windex b' = 0%nat).
Proof.
  induction vs as [|[t v] vs IH]; intros b Hvs Hm Hb; [by exists b|].
  apply Forall_cons in Hvs as [Hv Hvs]. unfold encode in Hb. simpl in Hb.
  destruct (get_holds t v b _ Hv Hm Hb) as (b1 & E1 & H1 & Hc & Hz1).
  destruct (IH b1 Hvs) as (b' & E' & Hb' & Hz); [by rewrite Hc|done|]. exists b'. simpl. rewrite E1. simpl.
  rewrite E'. split_and!; [done|done|]. intros _.
  destruct vs as [|w vs]; [|by apply Hz]. simpl in E'. injection E' as <-. by apply Hz1.
Qed.
End Typed.

(** Writing any sequence of values with [operator<<] and reading the same
    types back with [operator>>] returns the values, over every width and signedness, and
    the emptied buffer has its indices back at 0, with the bound of C4 on the sizes. *)
Theorem typed_roundtrip (granted : nat → bool) (n0 : nat) (vs : list (ctype * Z)) :
  let most := (n0 + BUFFER_CHUNK_SIZE + demand_all vs)%nat in
  Z.of_nat most < 2 ^ 64 → (∀ k, (k ≤ most)%nat → granted k = true) →
  Forall (λ '(t, v), in_type t v) vs →
  let mem := machine granted in
  ∃ b b', put_all mem vs (new_ByteBuffer mem n0) = Ret b ∧
    get_all mem (map fst vs) b = Ret (map snd vs, b') ∧ size b' = Ret 0%nat ∧
    (vs ≠ [] → _rindex b' = 0%nat ∧ _windex b' = 0%nat).
Proof.
  intros most Hmost Hg Hvs mem. pose proof (machine_roomy granted most Hmost Hg) as Hm.
  destruct (new_holds mem n0) as [Hn Hc]; [eapply roomy_le; [done|lia]|].
  destruct (put_all_holds mem vs _ _ Hn) as (b & E & Hb & Hcb); [eapply roomy_le; [done|lia]|]. exists b.
  destruct (get_all_holds mem vs b Hvs) as (b' & Eg & Hb' & Hz); [eapply roomy_le; [done|lia]|done|].
  exists b'. split_and!; try done. by apply (size_holds b' []).
Qed.

Lemma typed_roundtrip_witness :
  let mem := machine (λ _, true) in
  ∃ b b', put_all mem [(TU16, 65535); (TS32, -2); (TBool, 1)] (new_ByteBuffer mem 100) = Ret b ∧
    get_all mem [TU16; TS32; TBool] b = Ret ([65535; -2; 1], b').
Proof.
  destruct (typed_roundtrip (λ _, true) 100 [(TU16, 65535); (TS32, -2); (TBool, 1)]) as (b & b' & H1 & H2 & _).
  - vm_compute. reflexivity.
  - reflexivity.
  - repeat constructor; vm_compute; first [done|by right].
  - exists b, b'. split; [exact H1|exact H2].
Defined.
