(* ===== verification/Socket.v ===== *)
(** * Messages and sockets: src/socket/Helper.h, Helper.cpp 161-240, Socket.h, Socket.cpp

    [Socketmessage] and the [Socket] of one connection over any [ByteQueue]: splitting
    the received stream into messages, the message counters, and the send path.  The
    results of [recv] and [send] are the events the kernel delivers. *)

From S2P Require Import Prelude ByteQueue.

(** ** Socketmessage *)

Inductive opcode :=
| SM_OPCODE_MESSAGE
| SM_OPCODE_ESTABLISH
| SM_OPCODE_CLOSE
| SM_OPCODE_NEW_SOCKET
| SM_OPCODE_NEW_LISTENING
| SM_OPCODE_SOL.
#[export] Instance opcode_eq_dec : EqDecision opcode.
Proof. solve_decision. Defined.

Definition MAGIC : Z := 0x12345678.

(** [payload] is the memory after the header, [payload_len] the field. *)
Record Socketmessage := MkMessage {
  magic : Z;
  msg_s : Z;
  msg_opcode : opcode;
  payload_len : Z;
  payload : list Z
}.

(** [allocateMessage(s, opcode)] *)
Definition allocateMessage0 (s : Z) (op : opcode) : Socketmessage := MkMessage MAGIC s op 0 [].
(** [allocateMessage(s, opcode, payload_len)]: the payload is whatever [malloc] returned. *)
Definition allocateMessageLen (s : Z) (op : opcode) (len : Z) (junk : list Z) : Socketmessage :=
  MkMessage MAGIC s op (u32 len) junk.
(** [allocateMessage(s, opcode, payload, payload_len)] *)
Definition allocateMessage (s : Z) (op : opcode) (bytes : list Z) : Socketmessage :=
  MkMessage MAGIC s op (u32 (Z.of_nat (length bytes))) bytes.

(** The bytes [send] is given: [payload_len] bytes from [payload]. *)
Definition message_bytes (m : Socketmessage) : list Z := take (Z.to_nat (payload_len m)) (payload m).

(** ** Socket *)

Definition COUNT_MESSAGE_SPAN : Z := 60.

(** What [recv] returns: data, end of stream, [EINTR], [EAGAIN], another error. *)
Inductive recv_io := RData (d : list Z) | RClosed | RIntr | RAgain | RError.
(** What [send] meets: room for [n] bytes in the socket's buffer (it then returns the
    smaller of [n] and the length), 0, [EINTR], [EAGAIN], another error. *)
Inductive send_io := SSent (n : nat) | SZero | SIntr | SAgain | SError.

Section Socket.
Context {B : Type} `{ByteQueue B}.
(** [_slotWorker->splitMessage()]: an [int] computed from the buffer. *)
Context (split : list Z → Z).

Record Socket := MkSocket {
  fd : Z;
  is_listening : bool;
  rbuffer : B;
  wbuffer : B;
  sendlist : list Socketmessage;
  lastSecond : Z;
  countMessage : list Z;          (* u32 [60] *)
  totalMessage : Z                (* u32 *)
}.

Definition new_Socket (connfd now : Z) : Socket :=
  MkSocket connfd false bq_new bq_new [] now (replicate 60 0) 0.

Definition set_rbuffer b s := MkSocket (fd s) (is_listening s) b (wbuffer s) (sendlist s)
  (lastSecond s) (countMessage s) (totalMessage s).
Definition set_wbuffer b s := MkSocket (fd s) (is_listening s) (rbuffer s) b (sendlist s)
  (lastSecond s) (countMessage s) (totalMessage s).
Definition set_sendlist l s := MkSocket (fd s) (is_listening s) (rbuffer s) (wbuffer s) l
  (lastSecond s) (countMessage s) (totalMessage s).
Definition set_listening v s := MkSocket (fd s) v (rbuffer s) (wbuffer s) (sendlist s)
  (lastSecond s) (countMessage s) (totalMessage s).

(** [false] is an illegal message. *)
Definition splitMessage (s : Socket) : outcome (bool * option Socketmessage * Socket) :=
  buf ← bq_contents (rbuffer s);
  let rc := split buf in
  if rc =? 0 then Ret (true, None, s)
  else if rc <? 0 then Ret (false, None, s)
  else if Z.of_nat (length buf) <? rc then Ret (false, None, s)
  else
    let msg := allocateMessage (fd s) SM_OPCODE_MESSAGE (take (Z.to_nat rc) buf) in
    b ← bq_consume (Z.to_nat rc) (rbuffer s);
    mret (true, Some msg, set_rbuffer b s).

Definition receivedMessage (now : Z) (s : Socket) : Socket :=
  let i := Z.to_nat (now mod COUNT_MESSAGE_SPAN) in
  MkSocket (fd s) (is_listening s) (rbuffer s) (wbuffer s) (sendlist s) now
    (alter (λ c, u32 (c + 1)) i (countMessage s)) (u32 (totalMessage s + 1)).

(** [for (n = 0; n < seconds; ++n) total += ...] with a [u64] subtraction. *)
Definition recentMessage (now : Z) (seconds : nat) (s : Socket) : Z :=
  fold_left (λ total n,
    u32 (total + countMessage s !!! Z.to_nat (u64 (now - Z.of_nat n) mod COUNT_MESSAGE_SPAN)))
    (seq 0 seconds) 0.

Definition readlen : nat := 960.

(** The loop of [receiveMessage]; [TEMP_FAILURE_RETRY] repeats an interrupted [recv],
    and a [recv] for which the kernel has no event left would block.  The result is the
    returned value, [msg], the socket and the events left. *)
Fixpoint receiveMessage (ios : list recv_io) (now : Z) (s : Socket)
    : outcome (bool * option Socketmessage * Socket * list recv_io) :=
  r ← splitMessage s;
  let '(rc, msg, s) := r : bool * option Socketmessage * Socket in
  if negb rc then Ret (false, None, s, ios)
  else match msg with
  | Some _ => Ret (true, msg, receivedMessage now s, ios)
  | None =>
      match ios with
      | [] => Ret (true, None, s, [])
      | RIntr :: ios => receiveMessage ios now s
      | RClosed :: ios => Ret (false, None, s, ios)
      | RAgain :: ios => Ret (true, None, s, ios)
      | RError :: ios => Ret (false, None, s, ios)
      | RData d :: ios =>
          b ← bq_receive readlen d (rbuffer s);
          receiveMessage ios now (set_rbuffer b s)
      end
  end.

(** The loop of [WorkerProcess::readSocket]: [receiveMessage] until it has no message.
    The messages of the result went to [_recvQueue]. *)
Fixpoint read_loop (fuel : nat) (ios : list recv_io) (now : Z) (s : Socket) (msgs : list Socketmessage)
    : outcome (bool * list Socketmessage * Socket * list recv_io) :=
  match fuel with
  | O => Undef
  | S fuel =>
      r ← receiveMessage ios now s;
      let '(rc, msg, s, ios) := r : bool * option Socketmessage * Socket * list recv_io in
      if negb rc then Ret (false, msgs, s, ios)
      else match msg with
           | Some m => read_loop fuel ios now s (msgs ++ [m])
           | None => Ret (true, msgs, s, ios)
           end
  end.

(** Every message takes a byte of the buffer or of the data that arrives. *)
Definition io_bytes (ios : list recv_io) : list Z :=
  concat (map (λ io, match io with RData d => d | _ => [] end) ios).
Definition read_all (ios : list recv_io) (now : Z) (s : Socket)
    : outcome (bool * list Socketmessage * Socket * list recv_io) :=
  buf ← bq_contents (rbuffer s);
  read_loop (S (length buf + length (io_bytes ios))) ios now s [].

(** What the loop of [sendMessage()] sends next: the rest of a partly sent message, or
    the first message of [_sendlist], which it takes off the list before [send]. *)
Definition next_send (wbuf : list Z) (s : Socket) : option (bool * list Z) * Socket :=
  match wbuf with
  | _ :: _ => (Some (false, wbuf), s)
  | [] =>
      match sendlist s with
      | msg :: l => (Some (true, message_bytes msg), set_sendlist l s)
      | [] => (None, s)
      end
  end.

(** The loop.  The result is the returned value, the socket, what went out, and the
    events left; a [send] without an event would block. *)
Fixpoint sendMessage (ios : list send_io) (s : Socket) (sent : list Z)
    : outcome (bool * Socket * list Z * list send_io) :=
  wbuf ← bq_contents (wbuffer s);
  match next_send wbuf s with
  | (None, s') => Ret (true, s', sent, ios)
  | (Some (is_msg, buffer), s') =>
      match ios with
      | [] => Ret (true, s', sent, [])
      | SIntr :: ios => sendMessage ios s sent
      | SZero :: ios => Ret (false, s', sent, ios)
      | SAgain :: ios => Ret (true, s', sent, ios)
      | SError :: ios => Ret (false, s', sent, ios)
      | SSent room :: ios =>
          let n := Nat.min room (length buffer) in
          if is_msg then
            if decide (n < length buffer)%nat then
              b ← bq_append (drop n buffer) (wbuffer s');
              sendMessage ios (set_wbuffer b s') (sent ++ take n buffer)
            else sendMessage ios s' (sent ++ take n buffer)
          else
            b ← bq_consume n (wbuffer s');
            sendMessage ios (set_wbuffer b s') (sent ++ take n buffer)
      end
  end.

(** [sendMessage(msg)] *)
Definition sendMessage1 (ios : list send_io) (msg : Socketmessage) (s : Socket)
    : outcome (bool * Socket * list Z * list send_io) :=
  _ ← cxx_assert (magic msg =? MAGIC);
  _ ← cxx_assert (msg_s msg =? fd s);
  _ ← cxx_assert (0 <? payload_len msg);
  sendMessage ios (set_sendlist (sendlist s ++ [msg]) s) [].
End Socket.

Arguments Socket B : clear implicits.

(** ** The splitter contract

    What [Socket] expects of the [MESSAGE_SPLITER] a server is created with: the length of
    the frame at the start of the buffer, 0 while the frame is incomplete. *)
Class Splitter (split : list Z → Z) (frame : list Z → Prop) : Prop := {
  frame_nonempty f : frame f → f ≠ [];
  split_frame f rest : frame f → split (f ++ rest) = Z.of_nat (length f);
  split_partial f p s : frame f → f = p ++ s → s ≠ [] → split p = 0
}.

(** Data of at most [readlen] bytes, nothing else. *)
Definition data_io (io : recv_io) : Prop :=
  match io with
  | RData d => d ≠ [] ∧ (length d ≤ readlen)%nat
  | RIntr => True
  | _ => False
  end.
#[export] Instance data_io_dec io : Decision (data_io io).
Proof. destruct io; simpl; apply _. Defined.

Section Receive.
Context {B : Type} `{ByteQueueLaws B}.
Context (split : list Z → Z) (frame : list Z → Prop) `{!Splitter split frame}.

Definition to_message (s : Socket B) (f : list Z) : Socketmessage :=
  allocateMessage (fd s) SM_OPCODE_MESSAGE f.

(** A complete frame in the buffer is taken without reading. *)
Lemma splitMessage_frame (s : Socket B) f r :
  bq_holds (rbuffer s) (f ++ r) → frame f →
  ∃ b, splitMessage split s = Ret (true, Some (to_message s f), set_rbuffer b s) ∧ bq_holds b r.
Proof.
  intros Hq Hf. pose proof (frame_nonempty f Hf) as Hne.
  destruct (bq_consume_holds (length f) _ _ Hq) as (b & Hb & Hh); [rewrite length_app; lia|].
  rewrite drop_app_length in Hh. exists b. split; [|done].
  unfold splitMessage. rewrite (bq_contents_holds _ _ Hq). simpl. rewrite split_frame by done.
  assert (0 < Z.of_nat (length f)) as Hpos by (destruct f; [done|simpl; lia]).
  destruct (Z.eqb_spec (Z.of_nat (length f)) 0); [lia|].
  destruct (Z.ltb_spec (Z.of_nat (length f)) 0); [lia|]. rewrite length_app.
  destruct (Z.ltb_spec (Z.of_nat (length f + length r)) (Z.of_nat (length f))); [lia|].
  by rewrite Nat2Z.id, Hb, take_app_length.
Qed.

Lemma splitMessage_partial (s : Socket B) q : bq_holds (rbuffer s) q → split q = 0 →
  splitMessage split s = Ret (true, None, s).
Proof. intros Hq Hs. unfold splitMessage. rewrite (bq_contents_holds _ _ Hq). simpl. by rewrite Hs. Qed.

Lemma receiveMessage_now ios now (s : Socket B) f r :
  bq_holds (rbuffer s) (f ++ r) → frame f →
  ∃ b, receiveMessage split ios now s
    = Ret (true, Some (to_message s f), receivedMessage now (set_rbuffer b s), ios) ∧ bq_holds b r.
Proof.
  intros Hq Hf. destruct (splitMessage_frame s f r Hq Hf) as (b & E & Hb). exists b.
  split; [|done]. destruct ios; simpl; by rewrite E.
Qed.

(** What is in the buffer is part of the first frame of the stream, or contains it. *)
Lemma app_split (q x f R : list Z) : q ++ x = f ++ R →
  (∃ r, q = f ++ r ∧ R = r ++ x) ∨ (∃ r, f = q ++ r ∧ r ≠ [] ∧ x = r ++ R).
Proof.
  intros Heq. destruct (decide (length f ≤ length q)%nat) as [Hl|Hl].
  - left. exists (drop (length f) q).
    pose proof (f_equal (take (length f)) Heq) as H1. pose proof (f_equal (drop (length f)) Heq) as H2.
    rewrite take_app_length, take_app_le in H1 by done.
    rewrite drop_app_length, drop_app_le in H2 by done. split; [|done].
    by rewrite <-H1 at 1; rewrite take_drop.
  - right. exists (drop (length q) f).
    pose proof (f_equal (take (length q)) Heq) as H1. pose proof (f_equal (drop (length q)) Heq) as H2.
    rewrite take_app_length, take_app_le in H1 by lia.
    rewrite drop_app_length, drop_app_le in H2 by lia. split_and!; [|intros E|done].
    + by rewrite H1 at 1; rewrite take_drop.
    + apply (f_equal length) in E. rewrite length_drop in E. simpl in E. lia.
Qed.

(** What a [receiveMessage] that produces the frame [f] leaves of the stream [f ++ R]. *)
Definition received_frame now ios (s : Socket B) (q f R : list Z) : Prop := ∃ s' ios' q',
  receiveMessage split ios now s = Ret (true, Some (to_message s f), s', ios') ∧
  bq_holds (rbuffer s') q' ∧ q' ++ io_bytes ios' = R ∧ Forall data_io ios' ∧ fd s' = fd s ∧
  (length q' + length (io_bytes ios') < length q + length (io_bytes ios))%nat.

Lemma receiveMessage_buffered now ios (s : Socket B) f r :
  bq_holds (rbuffer s) (f ++ r) → Forall data_io ios → frame f →
  received_frame now ios s (f ++ r) f (r ++ io_bytes ios).
Proof.
  intros Hq Hios Hf. destruct (receiveMessage_now ios now s f r Hq Hf) as (b & E & Hb).
  eexists _, ios, r. split_and!; [exact E|done..|]. pose proof (frame_nonempty f Hf).
  rewrite length_app. destruct f; [done|]. simpl. lia.
Qed.

Lemma receiveMessage_frame now ios : ∀ (s : Socket B) q f R,
  bq_holds (rbuffer s) q → Forall data_io ios → frame f → q ++ io_bytes ios = f ++ R →
  received_frame now ios s q f R.
Proof.
  induction ios as [|io ios IH]; intros s q f R Hq Hios Hf Heq;
    (destruct (app_split _ _ _ _ Heq) as [(r & -> & ->)|(r & Hfr & Hr & Hx)];
     [by apply receiveMessage_buffered|]).
  - by destruct r.
  - unfold received_frame. simpl receiveMessage.
    rewrite (splitMessage_partial s q Hq) by (by apply (split_partial f q r)). simpl.
    apply Forall_cons in Hios as [Hio Hios]. destruct io as [d| | | |]; try done.
    + destruct Hio as [Hd Hl]. destruct (bq_receive_holds readlen d _ _ Hq Hl) as (b & -> & Hb).
      simpl. destruct (IH (set_rbuffer b s) (q ++ d) f R) as (s' & ios' & q' & E & ? & ? & ? & ? & Hlen);
        [done|done|done|rewrite <-app_assoc; exact Heq|].
      exists s', ios', q'. split_and!; try done.
      change (io_bytes (RData d :: ios)) with (d ++ io_bytes ios). rewrite length_app in *. lia.
    + apply (IH s q f R); done.
Qed.

(** The stream ends inside a frame: the bytes stay in the buffer. *)
Lemma receiveMessage_partial now ios : ∀ (s : Socket B) q p f t,
  bq_holds (rbuffer s) q → Forall data_io ios → frame f → f = p ++ t → t ≠ [] →
  q ++ io_bytes ios = p →
  ∃ s', receiveMessage split ios now s = Ret (true, None, s', []) ∧ bq_holds (rbuffer s') p ∧ fd s' = fd s.
Proof.
  induction ios as [|io ios IH]; intros s q p f t Hq Hios Hf Hp Ht Heq.
  - simpl in Heq. rewrite app_nil_r in Heq. subst q. exists s. simpl.
    by rewrite (splitMessage_partial s p Hq) by (by apply (split_partial f p t)).
  - simpl receiveMessage. rewrite (splitMessage_partial s q Hq); cycle 1.
    { apply (split_partial f q (io_bytes (io :: ios) ++ t)); [done|..].
      - by rewrite app_assoc, Heq.
      - by intros [_ ?]%app_eq_nil. }
    simpl. apply Forall_cons in Hios as [Hio Hios]. destruct io as [d| | | |]; try done.
    + destruct Hio as [Hd Hl]. destruct (bq_receive_holds readlen d _ _ Hq Hl) as (b & -> & Hb).
      simpl. apply (IH (set_rbuffer b s) (q ++ d) p f t); try done. by rewrite <-app_assoc.
    + by apply (IH s q p f t).
Qed.

Lemma read_loop_frames now fs : ∀ fuel ios (s : Socket B) q p f t msgs,
  bq_holds (rbuffer s) q → Forall data_io ios → Forall frame fs → frame f → f = p ++ t → t ≠ [] →
  q ++ io_bytes ios = concat fs ++ p → (length q + length (io_bytes ios) < fuel)%nat →
  ∃ s', read_loop split fuel ios now s msgs = Ret (true, msgs ++ map (to_message s) fs, s', []) ∧
    bq_holds (rbuffer s') p ∧ fd s' = fd s.
Proof.
  induction fs as [|f1 fs IH]; intros fuel ios s q p f t msgs Hq Hios Hfs Hf Hp Ht Heq Hfuel;
    (destruct fuel as [|fuel]; [lia|]); simpl in *.
  - destruct (receiveMessage_partial now ios s q p f t) as (s' & -> & Hs' & Hfd); try done.
    exists s'. simpl. by rewrite app_nil_r.
  - apply Forall_cons in Hfs as [Hf1 Hfs]. rewrite <-app_assoc in Heq.
    destruct (receiveMessage_frame now ios s q f1 (concat fs ++ p))
      as (s1 & ios1 & q1 & -> & H1 & E1 & D1 & F1 & L1); try done. simpl.
    destruct (IH fuel ios1 s1 q1 p f t (msgs ++ [to_message s f1])) as (s' & -> & Hs' & Hfd);
      try done; [lia|].
    exists s'. split_and!; [|done|congruence].
    rewrite <-app_assoc. unfold to_message. by rewrite F1.
Qed.

(** C2 (safety): framing of the stream.  Whatever the pieces in which [recv] delivers the
    bytes of a sequence of frames followed by a part of one more frame, reading the
    socket until it would block produces exactly one message per frame, in order, with
    the frame as payload and the socket's descriptor, keeps exactly the partial frame in
    the buffer for the next round, and never fails or runs out of fuel. *)
Theorem read_all_frames (s : Socket B) ios now q fs p f t :
  bq_holds (rbuffer s) q → Forall data_io ios → Forall frame fs →
  frame f → f = p ++ t → t ≠ [] → q ++ io_bytes ios = concat fs ++ p →
  ∃ s', read_all split ios now s = Ret (true, map (to_message s) fs, s', []) ∧
    bq_holds (rbuffer s') p ∧ fd s' = fd s.
Proof.
  intros Hq Hios Hfs Hf Hp Ht Heq. unfold read_all. rewrite (bq_contents_holds _ _ Hq). simpl mbind.
  apply (read_loop_frames now fs (S (length q + length (io_bytes ios))) ios s q p f t []); done || lia.
Qed.
End Receive.

(** A protocol whose frames start with their length in one byte. *)
Definition byte_split (q : list Z) : Z :=
  match q with
  | n :: _ => if n <=? Z.of_nat (length q) then n else 0
  | [] => 0
  end.
Definition byte_frame (f : list Z) : Prop := ∃ l, f = Z.of_nat (S (length l)) :: l.

Lemma byte_splitter : Splitter byte_split byte_frame.
Proof.
  split.
  - by intros f [l ->].
  - intros f rest [l ->]. simpl. rewrite length_app.
    destruct (Z.leb_spec (Z.of_nat (S (length l))) (Z.of_nat (S (length l + length rest)))); lia.
  - intros f p s [l ->] E Hs. destruct p as [|n p]; [done|]. injection E as <- ->. simpl.
    rewrite length_app. destruct s; [done|]. simpl.
    match goal with |- context [?a <=? ?b] => destruct (Z.leb_spec a b) end; lia.
Qed.

Lemma read_all_frames_witness :
  ∃ s', read_all byte_split [RData [2; 9; 3]; RIntr; RData [1; 2; 4; 0]] 100 (new_Socket (B := list Z) 5 0)
    = Ret (true, map (to_message (new_Socket (B := list Z) 5 0)) [[2; 9]; [3; 1; 2]], s', []) ∧
    bq_holds (rbuffer s') [4; 0] ∧ fd s' = 5.
Proof.
  apply (read_all_frames byte_split byte_frame (Splitter0 := byte_splitter)
    (new_Socket (B := list Z) 5 0) _ 100 [] [[2; 9]; [3; 1; 2]] [4; 0] [4; 0; 1; 1] [1; 1]);
    [done|apply (bool_decide_unpack _); vm_compute; exact I| |by exists [0; 1; 1]|done|done|done].
  apply Forall_cons. split; [by exists [9]|]. apply Forall_cons. split; [by exists [1; 2]|constructor].
Defined.

(** ** Totality of the receive path, for every splitter *)

Section ReceiveTotal.
Context {B : Type} `{ByteQueueLaws B}.
Context (split : list Z → Z).

Definition recv_ok (io : recv_io) : Prop :=
  match io with RData d => (length d ≤ readlen)%nat | _ => True end.

(** The buffers hold queues; [q] is the unread input. *)
Definition reads (s : Socket B) (q : list Z) : Prop := bq_holds (rbuffer s) q.

(** [s'] differs from [s] only in the read buffer and the counters. *)
Definition same_send (s s' : Socket B) : Prop :=
  fd s' = fd s ∧ is_listening s' = is_listening s ∧ wbuffer s' = wbuffer s ∧ sendlist s' = sendlist s.

(** A message read from the socket with descriptor [s]. *)
Definition read_message (s : Z) (m : Socketmessage) : Prop :=
  magic m = MAGIC ∧ msg_s m = s ∧ msg_opcode m = SM_OPCODE_MESSAGE ∧ payload m ≠ [].

Lemma read_message_length s m : read_message s m → (0 < length (payload m))%nat.
Proof. intros (_ & _ & _ & Hp). destruct (payload m); [done|simpl; lia]. Qed.

Lemma splitMessage_total (s : Socket B) q : reads s q →
  (∃ rc, splitMessage split s = Ret (rc, None, s)) ∨
  ∃ m b q', splitMessage split s = Ret (true, Some m, set_rbuffer b s) ∧
    read_message (fd s) m ∧ bq_holds b q' ∧ q = payload m ++ q'.
Proof.
  intros Hq. unfold splitMessage. rewrite (bq_contents_holds _ _ Hq). simpl.
  destruct (Z.eqb_spec (split q) 0); [left; by eexists|].
  destruct (Z.ltb_spec (split q) 0); [left; by eexists|].
  destruct (Z.ltb_spec (Z.of_nat (length q)) (split q)); [left; by eexists|].
  right. destruct (bq_consume_holds (Z.to_nat (split q)) _ _ Hq) as (b & -> & Hb); [lia|].
  eexists _, b, _. split_and!; [done|split_and!; try done|done|simpl; by rewrite take_drop].
  simpl. intros E. apply (f_equal length) in E. rewrite length_take in E. simpl in E. lia.
Qed.

Lemma same_send_trans s1 s2 s3 : same_send s1 s2 → same_send s2 s3 → same_send s1 s3.
Proof. intros (? & ? & ? & ?) (? & ? & ? & ?). split_and!; congruence. Qed.

Lemma receiveMessage_total now ios : ∀ (s : Socket B) q, reads s q → Forall recv_ok ios →
  ∃ rc m s' ios' q', receiveMessage split ios now s = Ret (rc, m, s', ios') ∧ reads s' q' ∧
    same_send s s' ∧ Forall recv_ok ios' ∧
    match m with
    | Some m => rc = true ∧ read_message (fd s) m ∧
        (length q' + length (io_bytes ios') < length q + length (io_bytes ios))%nat
    | None => True
    end.
Proof.
  induction ios as [|io ios IH]; intros s q Hq Hio; simpl receiveMessage;
    (destruct (splitMessage_total s q Hq) as [[rc ->]|(m & b & q' & -> & Hm & Hb & ->)]; simpl;
     [destruct rc; simpl; [|by eexists _, _, _, _, q]
     |eexists _, (Some m), _, _, q'; split_and!; try done;
      pose proof (read_message_length _ _ Hm); rewrite !length_app; simpl; lia]).
  - by eexists _, _, _, _, q.
  - apply Forall_cons in Hio as [H1 Hio].
    destruct io as [d| | | |]; try (by eexists _, _, _, _, q); [|by apply IH].
    destruct (bq_receive_holds readlen d _ _ Hq H1) as (b & -> & Hb). simpl.
    destruct (IH (set_rbuffer b s) (q ++ d) Hb Hio) as (rc & m & s' & ios' & q' & E & ? & ? & ? & Hm).
    eexists rc, m, s', ios', q'. split_and!; try done. destruct m; [|done].
    destruct Hm as (? & ? & Hl). split_and!; try done.
    change (io_bytes (RData d :: ios)) with (d ++ io_bytes ios). rewrite length_app in *. lia.
Qed.

Lemma read_loop_total now : ∀ fuel ios (s : Socket B) q msgs, reads s q → Forall recv_ok ios →
  (length q + length (io_bytes ios) < fuel)%nat →
  ∃ rc new s' ios' q', read_loop split fuel ios now s msgs = Ret (rc, msgs ++ new, s', ios') ∧
    reads s' q' ∧ same_send s s' ∧ Forall (read_message (fd s)) new.
Proof.
  induction fuel as [|fuel IH]; intros ios s q msgs Hq Hio Hf; [lia|]. simpl.
  destruct (receiveMessage_total now ios s q Hq Hio)
    as (rc & m & s' & ios' & q' & -> & Hq' & Hs' & Hio' & Hm). simpl.
  destruct m as [m|].
  - destruct Hm as (-> & Hm & Hl). simpl.
    destruct (IH ios' s' q' (msgs ++ [m]) Hq' Hio' ltac:(lia)) as (rc & new & s2 & ios2 & q2 & -> & ? & ? & ?).
    exists rc, (m :: new), s2, ios2, q2. rewrite <-app_assoc. split_and!; try done.
    + by apply (same_send_trans s s').
    + constructor; [done|]. by rewrite <-(proj1 Hs').
  - exists rc, [], s', ios', q'. rewrite app_nil_r. destruct rc; by split_and!.
Qed.

(** Reading a socket never fails, whatever the splitter answers and the kernel reports. *)
Lemma read_all_total (s : Socket B) ios now q : reads s q → Forall recv_ok ios →
  ∃ rc msgs s' ios' q', read_all split ios now s = Ret (rc, msgs, s', ios') ∧
    reads s' q' ∧ same_send s s' ∧ Forall (read_message (fd s)) msgs.
Proof.
  intros Hq Hio. unfold read_all. rewrite (bq_contents_holds _ _ Hq). simpl mbind.
  destruct (read_loop_total now (S (length q + length (io_bytes ios))) ios s q [] Hq Hio)
    as (rc & new & s' & ios' & q' & E & Hr); [lia|]. by eexists rc, new, s', ios', q'.
Qed.
End ReceiveTotal.

(** ** The send path *)

Section Send.
Context {B : Type} `{ByteQueueLaws B}.

(** The bytes still to be sent, and those of a list of messages. *)
Definition bytes_of (l : list Socketmessage) : list Z := concat (map message_bytes l).
Definition room_ok (io : send_io) : Prop := match io with SSent n => (0 < n)%nat | _ => True end.
Definition sendable (m : Socketmessage) : Prop := message_bytes m ≠ [].

(** What a run of the loop accounts for: sent, still buffered, dropped, still queued. *)
Definition accounted (s : Socket B) (w sent : list Z)
    (r : outcome (bool * Socket B * list Z * list send_io)) : Prop :=
  ∃ rc s' out ios' w' lost, r = Ret (rc, s', sent ++ out, ios') ∧
    bq_holds (wbuffer s') w' ∧ fd s' = fd s ∧ rbuffer s' = rbuffer s ∧
    out ++ w' ++ bytes_of lost ++ bytes_of (sendlist s') = w ++ bytes_of (sendlist s) ∧
    (lost = [] ∨ (∃ m, lost = [m]) ∧ w' = []) ∧ Forall sendable (sendlist s') ∧
    Forall room_ok ios'.

(** Every way the loop ends: nothing more goes out; a message just taken off is lost. *)
Lemma stop_accounted (s : Socket B) w sent rc ios :
  bq_holds (wbuffer s) w → Forall sendable (sendlist s) → Forall room_ok ios →
  accounted s w sent (Ret (rc, snd (next_send w s), sent, ios)).
Proof.
  intros Hw Hs Hio. unfold accounted, next_send. destruct w as [|x w].
  - destruct (sendlist s) as [|m l] eqn:El; simpl.
    + eexists _, _, [], _, [], []. rewrite app_nil_r, El. split_and!; try done. by left.
    + apply Forall_cons in Hs as [_ Hl].
      eexists _, _, [], _, [], [m]. rewrite app_nil_r. split_and!; try done.
      * unfold bytes_of. simpl. by rewrite app_nil_r.
      * right. split; [by exists m|done].
  - eexists _, _, [], _, (x :: w), []. rewrite app_nil_r. split_and!; try done. by left.
Qed.

(** A step that sends [out0] and goes on. *)
Lemma accounted_step (s s1 : Socket B) w w1 sent out0 r :
  fd s1 = fd s → rbuffer s1 = rbuffer s → out0 ++ w1 ++ bytes_of (sendlist s1) = w ++ bytes_of (sendlist s) →
  accounted s1 w1 (sent ++ out0) r → accounted s w sent r.
Proof.
  intros Hf Hr He (rc & s' & out & ios' & w' & lost & -> & Hw & Hfd & Hrb & Ha & Hl & Hs & Hio).
  exists rc, s', (out0 ++ out), ios', w', lost. rewrite app_assoc. split_and!; try done; [congruence..|].
  by rewrite <-He, <-Ha, <-app_assoc.
Qed.

Lemma sendMessage_accounted ios : ∀ (s : Socket B) w sent,
  bq_holds (wbuffer s) w → Forall sendable (sendlist s) → Forall room_ok ios →
  accounted s w sent (sendMessage ios s sent).
Proof.
  induction ios as [|io ios IH]; intros s w sent Hw Hs Hio; simpl;
    rewrite (bq_contents_holds _ _ Hw); simpl;
    pose proof (λ rc ios, stop_accounted s w sent rc ios Hw Hs) as Hstop;
    unfold next_send in *.
  { destruct w; [destruct (sendlist s)|]; by apply Hstop. }
  pose proof Hio as Hio'. apply Forall_cons in Hio as [Hr Hio]. destruct w as [|x w].
  - destruct (sendlist s) as [|m l] eqn:El; [by apply Hstop|].
    destruct io as [n| | | |]; try (by apply Hstop); [|by apply IH; rewrite ?El].
    pose proof Hs as Hs'. apply Forall_cons in Hs' as [Hm Hl]. destruct (decide _) as [Hlt|Hge].
    + destruct (bq_append_holds (drop (Nat.min n (length (message_bytes m))) (message_bytes m))
        (wbuffer (set_sendlist l s)) [] Hw) as (b & -> & Hb). simpl.
      eapply accounted_step; [..|apply (IH (set_wbuffer b (set_sendlist l s)) _ _ Hb); done]; try done.
      simpl. rewrite El. unfold bytes_of. simpl. by rewrite app_assoc, take_drop.
    + eapply accounted_step; [..|apply (IH (set_sendlist l s) [] _ Hw); done]; try done.
      simpl. rewrite El. unfold bytes_of. simpl. rewrite take_ge by lia. done.
  - destruct io as [n| | | |]; try (by apply Hstop); [|by apply IH].
    destruct (bq_consume_holds (Nat.min n (length (x :: w))) _ _ Hw) as (b & -> & Hb); [lia|].
    simpl mbind. eapply accounted_step; [..|apply (IH (set_wbuffer b s) _ _ Hb); done]; try done.
    simpl sendlist. by rewrite app_assoc, take_drop.
Qed.

(** The send path, whatever [send] returns.  The bytes handed to the
    kernel, then the partly sent rest, then the queued messages are the bytes there were
    before, in order and without repetition, except that at most one message is missing:
    one that was taken off the list when [send] stopped the loop before taking any of it.
    That happens whenever the kernel's buffer is full between two messages: the call
    reports success and the message is gone. *)
Theorem sendMessage_accounts (s : Socket B) w ios :
  bq_holds (wbuffer s) w → Forall sendable (sendlist s) → Forall room_ok ios →
  (∃ rc s' out ios' w' lost, sendMessage ios s [] = Ret (rc, s', out, ios') ∧
    bq_holds (wbuffer s') w' ∧
    out ++ w' ++ bytes_of lost ++ bytes_of (sendlist s') = w ++ bytes_of (sendlist s) ∧
    (lost = [] ∨ (∃ m, lost = [m]) ∧ w' = [])) ∧
  (∀ m l, w = [] → sendlist s = m :: l →
    sendMessage (SAgain :: ios) s [] = Ret (true, set_sendlist l s, [], ios)).
Proof.
  intros Hw Hs Hio. split.
  - destruct (sendMessage_accounted ios s w [] Hw Hs Hio)
      as (rc & s' & out & ios' & w' & lost & E & H1 & _ & _ & H2 & H3 & _ & _).
    by exists rc, s', out, ios', w', lost.
  - intros m l -> El. simpl. rewrite (bq_contents_holds _ _ Hw). simpl. by rewrite El.
Qed.
End Send.

Lemma sendMessage_accounts_witness :
  ∃ rc s' out ios' w' lost,
    sendMessage [SSent 2; SIntr; SSent 9; SAgain]
      (set_sendlist [allocateMessage 5 SM_OPCODE_MESSAGE [1; 2; 3]; allocateMessage 5 SM_OPCODE_MESSAGE [4]]
        (new_Socket (B := list Z) 5 0)) [] = Ret (rc, s', out, ios') ∧
    bq_holds (wbuffer s') w' ∧ out ++ w' ++ bytes_of lost ++ bytes_of (sendlist s') = [1; 2; 3; 4] ∧
    (lost = [] ∨ (∃ m, lost = [m]) ∧ w' = []).
Proof.
  apply (sendMessage_accounts
    (set_sendlist [allocateMessage 5 SM_OPCODE_MESSAGE [1; 2; 3]; allocateMessage 5 SM_OPCODE_MESSAGE [4]]
        (new_Socket (B := list Z) 5 0)) [] [SSent 2; SIntr; SSent 9; SAgain]);
    [done|repeat constructor; done|repeat constructor; simpl; lia].
Defined.

(** ** The message counters *)

Section Counters.
Context {B : Type} `{ByteQueue B}.

(** How many of the times [ts] fall into slot [i]. *)
Definition slot_count (ts : list Z) (i : Z) : Z :=
  Z.of_nat (length (List.filter (λ t, t mod 60 =? i) ts)).

Definition receive_at (ts : list Z) (s : Socket B) : Socket B :=
  fold_left (λ s t, receivedMessage t s) ts s.

Lemma receive_at_counts ts (s0 : Socket B) : countMessage s0 = replicate 60 0 →
  length (countMessage (receive_at ts s0)) = 60%nat ∧
  ∀ i, 0 ≤ i < 60 → countMessage (receive_at ts s0) !!! Z.to_nat i = u32 (slot_count ts i).
Proof.
  intros H0. unfold receive_at. induction ts as [|t ts [IHl IH]] using rev_ind.
  - simpl. rewrite H0. split; [done|]. intros i Hi.
    apply lookup_total_replicate_2. lia.
  - rewrite fold_left_app. simpl. rewrite length_alter. split; [done|]. intros i Hi.
    unfold slot_count. rewrite List.filter_app, length_app. simpl. unfold COUNT_MESSAGE_SPAN.
    pose proof (Z.mod_pos_bound t 60 ltac:(lia)).
    destruct (Z.eqb_spec (t mod 60) i) as [E|E].
    + rewrite E. rewrite list_lookup_total_alter_eq by lia.
      rewrite IH by done. unfold u32. rewrite wrap_add_l. f_equal. simpl. unfold slot_count. lia.
    + rewrite list_lookup_total_alter_ne by lia.
      rewrite IH by done. f_equal. simpl. unfold slot_count. lia.
Qed.

(** The messages counted for the last [n] seconds. *)
Definition counted (now : Z) (n : nat) (t : Z) : bool := (now - t) mod 60 <? Z.of_nat n.

Lemma filter_length_add (f g h : Z → bool) ts :
  (∀ t, Nat.b2n (f t) = Nat.b2n (g t) + Nat.b2n (h t))%nat →
  length (List.filter f ts) = (length (List.filter g ts) + length (List.filter h ts))%nat.
Proof.
  intros Hf. induction ts as [|t ts IH]; simpl; [done|]. specialize (Hf t).
  destruct (f t), (g t), (h t); simpl in *; lia.
Qed.

Lemma counted_step ts now n : (n < 60)%nat → Z.of_nat n ≤ now →
  Z.of_nat (length (List.filter (counted now (S n)) ts)) =
  Z.of_nat (length (List.filter (counted now n) ts)) + slot_count ts ((now - Z.of_nat n) mod 60).
Proof.
  intros Hn Hnow. unfold slot_count. rewrite <-Nat2Z.inj_add. f_equal.
  apply filter_length_add. intros t. unfold counted.
  pose proof (Z.mod_pos_bound (now - t) 60 ltac:(lia)).
  destruct (Z.ltb_spec ((now - t) mod 60) (Z.of_nat (S n))),
    (Z.ltb_spec ((now - t) mod 60) (Z.of_nat n)),
    (Z.eqb_spec (t mod 60) ((now - Z.of_nat n) mod 60)); simpl; try done; exfalso; dlia.
Qed.

(** [recentMessage(n)] is the number of all messages the socket ever
    received at a second of the minute that matches one of the last [n]: the 60 slots are
    never cleared, so a message is counted again every 60 seconds.  A connection that
    received [m] messages at one moment has [recentMessage(1) = m] a minute, an hour or
    a day later, although nothing was received in the last second. *)
Theorem recentMessage_counts_laps (fd0 t0 now : Z) (n : nat) (ts : list Z) :
  (n ≤ 60)%nat → Z.of_nat n ≤ now < 2 ^ 64 → Z.of_nat (length ts) < 2 ^ 32 →
  recentMessage now n (receive_at ts (new_Socket fd0 t0)) =
    Z.of_nat (length (List.filter (counted now n) ts)) ∧
  (∀ t laps, 0 ≤ laps → ts = replicate (length ts) t → now = t + 60 * laps → n = 1%nat →
    recentMessage now n (receive_at ts (new_Socket fd0 t0)) = Z.of_nat (length ts)).
Proof.
  intros Hn Hnow Hts.
  destruct (receive_at_counts ts (new_Socket fd0 t0) eq_refl) as [_ Hc].
  set (s := receive_at ts (new_Socket fd0 t0)) in *.
  assert (recentMessage now n s = Z.of_nat (length (List.filter (counted now n) ts))) as Hr.
  { unfold recentMessage. clearbody s.
    induction n as [|n IH].
    - simpl. assert (List.filter (counted now 0) ts = []) as ->; [|done].
      clear. induction ts as [|t ts IH]; simpl; [done|]. unfold counted at 1.
      pose proof (Z.mod_pos_bound (now - t) 60 ltac:(lia)).
      destruct (Z.ltb_spec ((now - t) mod 60) (Z.of_nat 0)); [lia|done].
    - rewrite seq_S, fold_left_app, IH by lia. simpl. unfold COUNT_MESSAGE_SPAN.
      assert (u64 (now - Z.of_nat n) = now - Z.of_nat n) as -> by (apply (wrap_id 64); unfold fits; lia).
      rewrite Hc by (apply Z.mod_pos_bound; lia).
      rewrite counted_step by lia. unfold u32. rewrite wrap_add_r. apply (wrap_id 32).
      rewrite <-counted_step by lia. unfold fits.
      pose proof (List.filter_length_le (counted now (S n)) ts). lia. }
  split; [done|]. intros t laps Hl Ht Hnow' ->. rewrite Hr.
  assert (List.filter (counted now 1) ts = ts) as ->; [|done].
  rewrite Ht. generalize (length ts). intros k. induction k as [|k IH]; simpl; [done|].
  unfold counted at 1. assert ((now - t) mod 60 = 0) as -> by (subst now; dlia). simpl. by f_equal.
Qed.
End Counters.

Lemma recentMessage_counts_laps_witness :
  recentMessage 3607 1 (receive_at [7; 7; 7] (new_Socket (B := list Z) 5 0)) = 3.
Proof.
  apply (recentMessage_counts_laps (B := list Z) 5 0 3607 1 [7; 7; 7]); simpl; lia.
Defined.
