(* ===== verification/WorkerProcess.v ===== *)
(** * The worker threads: src/socket/WorkerProcess.h, WorkerProcess.cpp

    A worker owns the sockets assigned to it.  Its operations are functions of its state
    and of what the kernel answers; [step] is one event of the worker's loop ([Poll::run]
    dispatches readable, writable and failed descriptors, [handleMessage] takes one queued
    request) or of the threads that push requests. *)

From S2P Require Import Prelude ByteQueue Socket.

Definition MAX_CONNECTION_FD : Z := 65536.
Definition BUNDLE_SOL_MAXSIZE : nat := 1.
Definition BUNDLE_SOL_SILENCE_SECOND : nat := 2.
Definition BUNDLE_SOL_THRESHOLD_MESSAGE : nat := 3.
Definition BUNDLE_SOL_THRESHOLD_INTERVAL : nat := 4.
Definition BUNDLE_SOL_MAX : nat := 128.

(** What [accept] returns. *)
Inductive accept_io := AFd (newfd : Z) | AIntr | AAgain | AError.

Section Worker.
Context {B : Type} `{ByteQueue B}.
Context (split : list Z → Z).

(** [closed] lists the descriptors the worker closed. *)
Record Worker := MkWorker {
  sockets : gmap Z (Socket B);
  maxfd : Z;
  sendQueue : list Socketmessage;
  recvQueue : list Socketmessage;
  polled : gset Z;
  stop : bool;
  totalConnections : Z;          (* size_t *)
  opts : list Z;                 (* size_t [BUNDLE_SOL_MAX] *)
  closed : list Z
}.

Definition new_Worker : Worker := MkWorker ∅ (-1) [] [] ∅ false 0 (replicate BUNDLE_SOL_MAX 0) [].

Definition set_socket s so w := MkWorker (<[s := so]> (sockets w)) (maxfd w) (sendQueue w)
  (recvQueue w) (polled w) (stop w) (totalConnections w) (opts w) (closed w).
Definition push_recv ms w := MkWorker (sockets w) (maxfd w) (sendQueue w)
  (recvQueue w ++ ms) (polled w) (stop w) (totalConnections w) (opts w) (closed w).
Definition set_sendQueue q w := MkWorker (sockets w) (maxfd w) q
  (recvQueue w) (polled w) (stop w) (totalConnections w) (opts w) (closed w).
Definition set_opt i v w := MkWorker (sockets w) (maxfd w) (sendQueue w)
  (recvQueue w) (polled w) (stop w) (totalConnections w) (<[i := v]> (opts w)) (closed w).
Definition add_closed s w := MkWorker (sockets w) (maxfd w) (sendQueue w)
  (recvQueue w) (polled w) (stop w) (totalConnections w) (opts w) (closed w ++ [s]).

Definition opt (i : nat) (w : Worker) : Z := opts w !!! i.

(** [ASSERT_SOCKET(S)] and the array access *)
Definition ASSERT_SOCKET (s : Z) : outcome unit :=
  cxx_assert ((0 <=? s) && (s <? MAX_CONNECTION_FD)).
Definition GET_SOCKET (s : Z) (w : Worker) : outcome (option (Socket B)) :=
  _ ← ASSERT_SOCKET s; mret (sockets w !! s).

(** [Poll::addSocket]: [rc] is what [epoll_ctl] returns. *)
Definition poll_addSocket (rc : bool) (s : Z) (w : Worker) : bool * gset Z :=
  if rc then (true, {[s]} ∪ polled w) else (false, polled w).

(** [newSocket], which does not look at the result of [addSocket]. *)
Definition newSocket (newfd : Z) (listening rc : bool) (now : Z) (w : Worker) : outcome Worker :=
  so ← GET_SOCKET newfd w;
  _ ← cxx_assert (match so with None => true | Some _ => false end);
  if negb (opt BUNDLE_SOL_MAXSIZE w =? 0) && (opt BUNDLE_SOL_MAXSIZE w <=? totalConnections w)
  then mret (add_closed newfd w)
  else mret (MkWorker
    (<[newfd := set_listening listening (new_Socket newfd now)]> (sockets w))
    (if maxfd w <? newfd then newfd else maxfd w)
    (sendQueue w)
    (recvQueue w ++ [allocateMessage0 newfd SM_OPCODE_ESTABLISH])
    (snd (poll_addSocket rc newfd w)) (stop w) (u64 (totalConnections w + 1)) (opts w) (closed w)).

(** [removeSocket]: deleting the [Socket] closes the descriptor. *)
Definition removeSocket (s : Z) (w : Worker) : outcome Worker :=
  so ← GET_SOCKET s w;
  match so with
  | None => mret w
  | Some _ =>
      _ ← cxx_assert (0 <? totalConnections w);
      mret (MkWorker (delete s (sockets w)) (maxfd w) (sendQueue w)
        (recvQueue w ++ [allocateMessage0 s SM_OPCODE_CLOSE])
        (polled w ∖ {[s]}) (stop w) (u64 (totalConnections w - 1)) (opts w) (closed w ++ [s]))
  end.

(** [acceptSocket]: accepted descriptors travel through [_recvQueue]. *)
Fixpoint acceptSocket (ios : list accept_io) (w : Worker) : outcome Worker :=
  if stop w then Ret w
  else match ios with
  | [] => Ret w
  | AIntr :: ios => acceptSocket ios w
  | AAgain :: _ => Ret w
  | AError :: _ => Ret w
  | AFd newfd :: ios =>
      _ ← ASSERT_SOCKET newfd;
      acceptSocket ios (push_recv [allocateMessage0 newfd SM_OPCODE_NEW_SOCKET] w)
  end.

(** [readSocket(Socket* )]; the messages read before an error have been queued. *)
Definition readSocket_so (s : Z) (so : Socket B) (ios : list recv_io) (now : Z) (w : Worker)
    : outcome (bool * Worker) :=
  if stop w then Ret (false, w)
  else
    r ← read_all split ios now so;
    let '(rc, msgs, so, _) := r : bool * list Socketmessage * Socket B * list recv_io in
    let w := push_recv msgs (set_socket s so w) in
    if rc then Ret (true, w) else w ← removeSocket s w; Ret (false, w).

(** [readSocket(SOCKET)] *)
Definition readSocket (s : Z) (rios : list recv_io) (aios : list accept_io) (now : Z) (w : Worker)
    : outcome (bool * Worker) :=
  so ← GET_SOCKET s w;
  match so with
  | None => Ret (false, w)
  | Some so =>
      if is_listening so then w ← acceptSocket aios w; Ret (true, w)
      else readSocket_so s so rios now w
  end.

(** [writeSocket] *)
Definition writeSocket (s : Z) (ios : list send_io) (w : Worker) : outcome (bool * Worker) :=
  so ← GET_SOCKET s w;
  match so with
  | None => Ret (false, w)
  | Some so =>
      if is_listening so then Ret (false, w)
      else
        r ← Socket.sendMessage ios so [];
        let '(rc, so, _, _) := r : bool * Socket B * list Z * list send_io in
        let w := set_socket s so w in
        if rc : bool then Ret (true, w) else w ← removeSocket s w; Ret (false, w)
  end.

(** [errorSocket] *)
Definition errorSocket (s : Z) (w : Worker) : outcome Worker :=
  so ← GET_SOCKET s w;
  match so with None => Ret w | Some _ => removeSocket s w end.

(** [sendMessage(s, msg)]; the events left over are for the next [send]. *)
Definition sendMessage (s : Z) (msg : Socketmessage) (ios : list send_io) (w : Worker)
    : outcome (Worker * list send_io) :=
  so ← GET_SOCKET s w;
  match so with
  | None => Ret (w, ios)
  | Some so =>
      r ← sendMessage1 ios msg so;
      let '(rc, so, _, ios) := r : bool * Socket B * list Z * list send_io in
      let w := set_socket s so w in
      if rc : bool then Ret (w, ios) else w ← removeSocket s w; Ret (w, ios)
  end.

(** [multisendMessage]: a copy to every socket up to [_maxfd]. *)
Definition multisendMessage (msg : Socketmessage) (ios : list send_io) (w : Worker)
    : outcome (Worker * list send_io) :=
  _ ← cxx_assert (0 <? payload_len msg);
  foldl (λ r s,
    r ← r;
    let '(w, ios) := r : Worker * list send_io in
    so ← GET_SOCKET s w;
    match so with
    | None => Ret (w, ios)
    | Some _ => sendMessage s (allocateMessage s (msg_opcode msg) (message_bytes msg)) ios w
    end) (Ret (w, ios)) (map Z.of_nat (seq 0 (Z.to_nat (maxfd w + 1)))).

(** The body of the loop of [checkSocket] for one descriptor. *)
Definition checkSocket_one (now s : Z) (w : Worker) : outcome Worker :=
  so ← GET_SOCKET s w;
  match so with
  | None => Ret w
  | Some so =>
      if is_listening so then Ret w
      else if (0 <? opt BUNDLE_SOL_SILENCE_SECOND w)
              && (opt BUNDLE_SOL_SILENCE_SECOND w <=? u64 (now - lastSecond so))
      then removeSocket s w
      else if (0 <? opt BUNDLE_SOL_THRESHOLD_MESSAGE w) && (0 <? opt BUNDLE_SOL_THRESHOLD_INTERVAL w)
      then
        let total := recentMessage now (Z.to_nat (u32 (opt BUNDLE_SOL_THRESHOLD_INTERVAL w))) so in
        if opt BUNDLE_SOL_THRESHOLD_MESSAGE w <? total then removeSocket s w else Ret w
      else Ret w
  end.

Definition checkSocket (now : Z) (w : Worker) : outcome Worker :=
  if (0 <? opt BUNDLE_SOL_SILENCE_SECOND w) || (0 <? opt BUNDLE_SOL_THRESHOLD_MESSAGE w)
  then foldl (λ r s, w ← r; checkSocket_one now s w) (Ret w)
         (map Z.of_nat (seq 0 (Z.to_nat (maxfd w + 1))))
  else Ret w.

(** The body of the loop of [handleMessage] for one message; [rc] is what [epoll_ctl] returns if the
    message adds a socket. *)
Definition handle_one (msg : Socketmessage) (ios : list send_io) (rc : bool) (now : Z) (w : Worker)
    : outcome (Worker * list send_io) :=
  _ ← cxx_assert (magic msg =? MAGIC);
  if msg_s msg =? -1 then multisendMessage msg ios w
  else match msg_opcode msg with
  | SM_OPCODE_CLOSE => w ← removeSocket (msg_s msg) w; Ret (w, ios)
  | SM_OPCODE_MESSAGE => sendMessage (msg_s msg) msg ios w
  | SM_OPCODE_NEW_SOCKET => w ← newSocket (msg_s msg) false rc now w; Ret (w, ios)
  | SM_OPCODE_NEW_LISTENING => w ← newSocket (msg_s msg) true rc now w; Ret (w, ios)
  | SM_OPCODE_SOL =>
      if (0 <=? msg_s msg) && (msg_s msg <? Z.of_nat BUNDLE_SOL_MAX)
      then Ret (set_opt (Z.to_nat (msg_s msg)) (payload_len msg) w, ios)
      else Undef
  | SM_OPCODE_ESTABLISH => Aborted
  end.

(** [while (!_sendQueue.empty())], with an answer of [epoll_ctl] for each message. *)
Fixpoint handle_loop (queue : list Socketmessage) (ios : list send_io) (rcs : list bool) (now : Z) (w : Worker)
    : outcome Worker :=
  match queue with
  | [] => Ret w
  | msg :: queue =>
      r ← handle_one msg ios (hd true rcs) now (set_sendQueue queue w);
      let '(w, ios) := r : Worker * list send_io in
      handle_loop queue ios (tail rcs) now w
  end.
Definition handleMessage (ios : list send_io) (rcs : list bool) (now : Z) (w : Worker) : outcome Worker :=
  handle_loop (sendQueue w) ios rcs now w.

(** The requests other threads make. *)
Definition pushMessage (msg : Socketmessage) (w : Worker) : Worker :=
  set_sendQueue (sendQueue w ++ [msg]) w.
Definition addSocket (s : Z) (listening : bool) (w : Worker) : Worker :=
  pushMessage (allocateMessage0 s
    (if listening then SM_OPCODE_NEW_LISTENING else SM_OPCODE_NEW_SOCKET)) w.
Definition closeSocket (s : Z) (w : Worker) : Worker :=
  pushMessage (allocateMessage0 s SM_OPCODE_CLOSE) w.
(** [pushMessage(s, msg)] *)
Definition pushMessage_msg (s : Z) (msg : Socketmessage) (w : Worker) : Worker :=
  pushMessage (MkMessage (magic msg) s (msg_opcode msg) (payload_len msg) (payload msg)) w.
(** [pushMessage(s, payload, payload_len)] *)
Definition pushMessage_bytes (s : Z) (bytes : list Z) (w : Worker) : outcome Worker :=
  _ ← cxx_assert (negb (bool_decide (bytes = [])));
  mret (pushMessage (allocateMessage s SM_OPCODE_MESSAGE bytes) w).
(** [setsockopt]: [value] is the 64-bit number copied from [optval]; the message has
    its low 32 bits as [payload_len]. *)
Definition setsockopt (o : Z) (optval : option Z) (optlen : Z) (w : Worker) : bool * Worker :=
  if (0 <? o) && (o <? Z.of_nat BUNDLE_SOL_MAX) then
    match optval with
    | None => (false, w)
    | Some v =>
        if optlen <=? 8 then
          (true, pushMessage (allocateMessageLen o SM_OPCODE_SOL (v mod 2 ^ (8 * optlen)) []) w)
        else (false, w)
    end
  else (false, w).

(** [Poll::run] for one ready descriptor. *)
Inductive poll_event :=
| PollError
| PollReady (readable writable : bool).

Definition poll_one (s : Z) (ev : poll_event) (rios : list recv_io) (aios : list accept_io)
    (sios : list send_io) (now : Z) (w : Worker) : outcome Worker :=
  match ev with
  | PollError => errorSocket s w
  | PollReady readable writable =>
      r ← (if readable then readSocket s rios aios now w else Ret (true, w));
      let '(rc, w) := r : bool * Worker in
      if writable && rc then r ← writeSocket s sios w; Ret (snd r) else Ret w
  end.
(** The events of a worker: a request pushed by another thread, and in its own thread
    the head of [_sendQueue] handled, a ready descriptor, the periodic check. *)
Inductive event :=
| EvPush (msg : Socketmessage)
| EvHandle (ios : list send_io) (rc : bool) (now : Z)
| EvPoll (s : Z) (ev : poll_event) (rios : list recv_io) (aios : list accept_io)
    (sios : list send_io) (now : Z)
| EvCheck (now : Z).

Definition step (ev : event) (w : Worker) : outcome Worker :=
  match ev with
  | EvPush msg => Ret (pushMessage msg w)
  | EvHandle ios rc now =>
      match sendQueue w with
      | [] => Ret w
      | msg :: queue => r ← handle_one msg ios rc now (set_sendQueue queue w); Ret (fst r)
      end
  | EvPoll s ev rios aios sios now => poll_one s ev rios aios sios now w
  | EvCheck now => checkSocket now w
  end.

Fixpoint run (evs : list event) (w : Worker) : outcome Worker :=
  match evs with
  | [] => Ret w
  | ev :: evs => w ← step ev w; run evs w
  end.
End Worker.

Arguments Worker B : clear implicits.

(** ** The life of a descriptor, as the queue of received messages shows it *)

(** The state after a message: ESTABLISH, then messages, then CLOSE, and again.
    [NEW_SOCKET] messages only carry an accepted descriptor to another worker. *)
Definition life_step (s : Z) (st : option bool) (m : Socketmessage) : option bool :=
  match st with
  | None => None
  | Some live =>
      if negb (msg_s m =? s) then Some live
      else match msg_opcode m with
      | SM_OPCODE_NEW_SOCKET => Some live
      | SM_OPCODE_ESTABLISH => if live then None else Some true
      | SM_OPCODE_MESSAGE => if live then Some true else None
      | SM_OPCODE_CLOSE => if live then Some false else None
      | _ => None
      end
  end.
Definition life (s : Z) (l : list Socketmessage) : option bool := fold_left (life_step s) l (Some false).

Lemma life_app s l m : life s (l ++ [m]) = life_step s (life s l) m.
Proof. unfold life. by rewrite fold_left_app. Qed.

Lemma life_other s l ms : Forall (λ m, msg_s m ≠ s ∨ msg_opcode m = SM_OPCODE_NEW_SOCKET) ms →
  life s (l ++ ms) = life s l.
Proof.
  intros Hms. unfold life. rewrite fold_left_app. generalize (fold_left (life_step s) l (Some false)).
  induction Hms as [|m ms Hm Hms IH]; intros st; simpl; [done|]. rewrite IH.
  destruct st as [live|]; simpl; [|done]. destruct (Z.eqb_spec (msg_s m) s); simpl; [|done].
  destruct Hm as [?| ->]; [done|done].
Qed.

Lemma life_messages s l ms : Forall (read_message s) ms → life s l = Some true →
  life s (l ++ ms) = Some true.
Proof.
  intros Hms Hl. unfold life in *. rewrite fold_left_app, Hl.
  induction Hms as [|m ms (_ & Hs & Ho & _) Hms IH]; simpl; [done|].
  rewrite Hs, Z.eqb_refl, Ho. exact IH.
Qed.

Section WorkerProofs.
Context {B : Type} `{ByteQueueLaws B}.
Context (split : list Z → Z).
(** Whether every [epoll_ctl] of [Poll::addSocket] succeeds. *)
Context {all : bool}.

Definition sock_ok (s : Z) (so : Socket B) : Prop :=
  fd so = s ∧ (∃ q, bq_holds (rbuffer so) q) ∧ (∃ q, bq_holds (wbuffer so) q) ∧
  Forall sendable (sendlist so).

(** The invariant of a worker. *)
Record worker_ok (w : Worker B) : Prop := {
  wo_sockets : ∀ s so, sockets w !! s = Some so → sock_ok s so ∧ 0 ≤ s ≤ maxfd w;
  wo_maxfd : maxfd w < MAX_CONNECTION_FD;
  wo_total : totalConnections w = Z.of_nat (size (sockets w));
  wo_polled : polled w ⊆ dom (sockets w) ∧ (all = true → polled w = dom (sockets w));
  wo_life : ∀ s, life s (recvQueue w) = Some (bool_decide (is_Some (sockets w !! s)));
  wo_opts : length (opts w) = BUNDLE_SOL_MAX
}.

Lemma worker_ok_new : worker_ok new_Worker.
Proof.
  by split.
Qed.

Lemma GET_SOCKET_in s (w : Worker B) : 0 ≤ s < MAX_CONNECTION_FD →
  GET_SOCKET s w = Ret (sockets w !! s).
Proof.
  intros Hs. unfold GET_SOCKET, ASSERT_SOCKET.
  assert ((0 <=? s) && (s <? MAX_CONNECTION_FD) = true) as -> by (apply andb_true_iff; lia). done.
Qed.

Lemma range_size (X : gset Z) N : 0 ≤ N → (∀ s, s ∈ X → 0 ≤ s < N) → Z.of_nat (size X) ≤ N.
Proof.
  intros HN HX. assert (X ⊆ list_to_set (Z.of_nat <$> seq 0 (Z.to_nat N))) as Hsub.
  { intros s Hs. destruct (HX s Hs). apply elem_of_list_to_set, list_elem_of_fmap.
    exists (Z.to_nat s). split; [lia|]. apply list_elem_of_In, in_seq. lia. }
  apply subseteq_size in Hsub. rewrite size_list_to_set, length_fmap, length_seq in Hsub; [lia|].
  apply NoDup_fmap_2; [intros x y; lia|]. apply NoDup_seq.
Qed.

(** At most 65536 sockets, so the counter never wraps. *)
Lemma size_bound (w : Worker B) : worker_ok w → Z.of_nat (size (sockets w)) ≤ MAX_CONNECTION_FD.
Proof.
  intros Hw. rewrite <-size_dom. apply range_size; [done|].
  intros s Hs. apply elem_of_dom in Hs as [so Hso]. destruct (wo_sockets w Hw s so Hso) as [_ Hr].
  pose proof (wo_maxfd w Hw). lia.
Qed.

(** Replacing a socket by a later state of it. *)
Lemma set_socket_ok s so so' (w : Worker B) : worker_ok w → sockets w !! s = Some so →
  sock_ok s so' → worker_ok (set_socket s so' w).
Proof.
  intros Hw Hs Ho. destruct Hw as [W1 W2 W3 W4 W5 W6]. split; simpl; try done.
  - intros t to Ht. destruct (decide (t = s)) as [->|Hne].
    + rewrite lookup_insert_eq in Ht. injection Ht as <-. split; [done|]. by apply (W1 s so).
    + rewrite lookup_insert_ne in Ht by done. by apply W1.
  - rewrite W3, map_size_insert_Some by (by eexists). done.
  - by rewrite (dom_insert_lookup_L (sockets w) s so') by (by eexists).
  - intros t. rewrite W5. f_equal. apply bool_decide_ext.
    destruct (decide (t = s)) as [->|Hne]; [|by rewrite lookup_insert_ne].
    rewrite lookup_insert_eq, Hs. split; by eexists.
Qed.

Lemma push_recv_ok s ms (w : Worker B) : worker_ok w → is_Some (sockets w !! s) →
  Forall (read_message s) ms → worker_ok (push_recv ms w).
Proof.
  intros [W1 W2 W3 W4 W5 W6] Hs Hms. split; simpl; try done. intros t.
  destruct (decide (t = s)) as [->|Hne].
  - rewrite bool_decide_eq_true_2 by done. apply life_messages; [done|].
    rewrite W5. by rewrite bool_decide_eq_true_2.
  - rewrite life_other; [done|]. eapply Forall_impl; [exact Hms|].
    intros m (_ & Hm & _). left. congruence.
Qed.

Lemma push_new_ok newfd (w : Worker B) : worker_ok w →
  worker_ok (push_recv [allocateMessage0 newfd SM_OPCODE_NEW_SOCKET] w).
Proof.
  intros [W1 W2 W3 W4 W5 W6]. split; simpl; try done. intros t.
  rewrite life_other; [done|]. constructor; [by right|constructor].
Qed.

Lemma removeSocket_ok s (w : Worker B) : worker_ok w → 0 ≤ s < MAX_CONNECTION_FD →
  ∃ w', removeSocket s w = Ret w' ∧ worker_ok w' ∧ sockets w' = delete s (sockets w) ∧
    sendQueue w' = sendQueue w ∧ opts w' = opts w ∧ maxfd w' = maxfd w ∧
    recvQueue w' = recvQueue w ++ match sockets w !! s with
      Some _ => [allocateMessage0 s SM_OPCODE_CLOSE] | None => [] end.
Proof.
  intros Hw Hs. pose proof (size_bound w Hw) as Hb. unfold removeSocket. rewrite GET_SOCKET_in by done.
  simpl. destruct (sockets w !! s) as [so|] eqn:E; cycle 1.
  { exists w. rewrite app_nil_r. split_and!; try done. by rewrite delete_id. }
  destruct Hw as [W1 W2 W3 W4 W5 W6].
  assert (size (sockets w) ≠ 0%nat) as Hne.
  { intros Hz. apply map_size_empty_inv in Hz. by rewrite Hz in E. }
  unfold cxx_assert. rewrite (proj2 (Z.ltb_lt 0 (totalConnections w))) by lia. simpl.
  eexists. split; [done|]. split_and!; try done. split; simpl; try done.
  - intros t to Ht. apply lookup_delete_Some in Ht as [_ Ht]. by apply W1.
  - rewrite map_size_delete, E, W3. unfold u64. rewrite wrap_id; [lia|].
    unfold fits, MAX_CONNECTION_FD in *. lia.
  - destruct W4 as [W4 W4']. rewrite dom_delete_L. split; [by apply difference_mono_r|intros Ha; by rewrite W4'].
  - intros t. rewrite life_app, W5. unfold life_step. simpl.
    destruct (Z.eqb_spec s t) as [<-|Hst]; simpl.
    + rewrite E, lookup_delete_eq. rewrite bool_decide_eq_true_2 by (by eexists).
      rewrite bool_decide_eq_false_2; [done|]. by intros [].
    + by rewrite lookup_delete_ne.
Qed.

Lemma newSocket_ok s listening rc now (w : Worker B) : worker_ok w → 0 ≤ s < MAX_CONNECTION_FD →
  sockets w !! s = None → (all = true → rc = true) →
  ∃ w', newSocket s listening rc now w = Ret w' ∧ worker_ok w'.
Proof.
  intros Hw Hs Hn Hrc. unfold newSocket. rewrite GET_SOCKET_in by done. simpl. rewrite Hn. simpl.
  destruct (_ && _); [eexists; split; [done|]; by destruct Hw|].
  eexists. split; [done|]. pose proof (size_bound w Hw) as Hb.
  destruct Hw as [W1 W2 W3 W4 W5 W6]. split; simpl; try done.
  - intros t to Ht. destruct (decide (t = s)) as [->|Hne].
    + rewrite lookup_insert_eq in Ht. injection Ht as <-.
      split; [|destruct (Z.ltb_spec (maxfd w) s); lia].
      split_and!; [done|by exists []; apply bq_new_holds..|constructor].
    + rewrite lookup_insert_ne in Ht by done. destruct (W1 t to Ht). split; [done|].
      destruct (Z.ltb_spec (maxfd w) s); lia.
  - destruct (Z.ltb_spec (maxfd w) s); lia.
  - rewrite map_size_insert_None by done. rewrite W3. unfold u64. rewrite wrap_id; [lia|].
    unfold fits, MAX_CONNECTION_FD in *. lia.
  - destruct W4 as [W4 W4']. rewrite dom_insert_L. unfold poll_addSocket. destruct rc; cbn [snd].
    + split; [by apply union_mono_l|intros Ha; by rewrite W4'].
    + split; [by apply union_subseteq_r'|intros Ha; by specialize (Hrc Ha)].
  - intros t. rewrite life_app, W5. unfold life_step. simpl.
    destruct (Z.eqb_spec s t) as [<-|Hst]; simpl.
    + rewrite Hn, lookup_insert_eq. rewrite bool_decide_eq_false_2 by (by intros []).
      by rewrite bool_decide_eq_true_2 by (by eexists).
    + by rewrite lookup_insert_ne.
Qed.

Lemma newSocket_effect s listening rc now (w w' : Worker B) : 0 ≤ s < MAX_CONNECTION_FD →
  sockets w !! s = None → newSocket s listening rc now w = Ret w' →
  sendQueue w' = sendQueue w ∧
  (∀ t, is_Some (sockets w' !! t) → is_Some (sockets w !! t) ∨ t = s) ∧
  (recvQueue w' = recvQueue w ∨
   recvQueue w' = recvQueue w ++ [allocateMessage0 s SM_OPCODE_ESTABLISH] ∧ is_Some (sockets w' !! s)).
Proof.
  intros Hs Hn. unfold newSocket. rewrite GET_SOCKET_in by done. simpl. rewrite Hn. simpl.
  destruct (_ && _); intros [= <-]; simpl; (split; [done|]); [by split; left|]. split.
  - intros t. destruct (decide (t = s)) as [->|]; [by right|]. rewrite lookup_insert_ne by done. by left.
  - right. split; [done|]. rewrite lookup_insert_eq. by eexists.
Qed.

Lemma send_total s (so : Socket B) ios : sock_ok s so → Forall room_ok ios →
  ∃ rc so' out ios', Socket.sendMessage ios so [] = Ret (rc, so', out, ios') ∧ sock_ok s so' ∧
    Forall room_ok ios'.
Proof.
  intros (Hf & Hr & [q Hq] & Hs) Hio.
  destruct (sendMessage_accounted ios so q [] Hq Hs Hio)
    as (rc & so' & out & ios' & q' & lost & E & H1 & H2 & H3 & _ & _ & H4 & H5).
  eexists rc, so', _, ios'. split; [exact E|]. split; [|done].
  split_and!; [congruence|by rewrite H3|by exists q'|done].
Qed.

(** A message that may be handed to the socket [s]. *)
Definition sendable_to (s : Z) (m : Socketmessage) : Prop :=
  magic m = MAGIC ∧ msg_s m = s ∧ 0 < payload_len m ∧ sendable m.

(** The descriptors that [NEW_SOCKET] messages carry. *)
Definition is_new (m : Socketmessage) : bool := bool_decide (msg_opcode m = SM_OPCODE_NEW_SOCKET).
Definition news (ms : list Socketmessage) : list Z := map msg_s (List.filter is_new ms).

Lemma news_app ms1 ms2 : news (ms1 ++ ms2) = news ms1 ++ news ms2.
Proof. unfold news. by rewrite List.filter_app, map_app. Qed.

(** What a worker tells the application: about a socket it has, or a new descriptor. *)
Definition told (w : Worker B) (m : Socketmessage) : Prop :=
  magic m = MAGIC ∧
  (msg_opcode m = SM_OPCODE_NEW_SOCKET ∧ 0 ≤ msg_s m < MAX_CONNECTION_FD ∨
   (msg_opcode m = SM_OPCODE_CLOSE ∨ msg_opcode m = SM_OPCODE_MESSAGE) ∧
   is_Some (sockets w !! msg_s m)).

(** What the operations below keep, [fds] being the descriptors they accept. *)
Definition keeps (fds : list Z) (w w' : Worker B) : Prop :=
  worker_ok w' ∧ sendQueue w' = sendQueue w ∧ maxfd w' = maxfd w ∧
  (∀ s, is_Some (sockets w' !! s) → is_Some (sockets w !! s)) ∧
  ∃ ms, recvQueue w' = recvQueue w ++ ms ∧ Forall (told w) ms ∧ news ms = fds.

Lemma keeps_silent (w w' : Worker B) : worker_ok w' → sendQueue w' = sendQueue w →
  maxfd w' = maxfd w → (∀ s, is_Some (sockets w' !! s) → is_Some (sockets w !! s)) →
  recvQueue w' = recvQueue w → keeps [] w w'.
Proof. intros ? ? ? ? E. split_and!; try done. exists []. by rewrite app_nil_r. Qed.

Lemma keeps_refl w : worker_ok w → keeps [] w w.
Proof. intros. by apply keeps_silent. Qed.
#[local] Hint Resolve keeps_refl | 0 : core.

Lemma keeps_trans f1 f2 w1 w2 w3 : keeps f1 w1 w2 → keeps f2 w2 w3 → keeps (f1 ++ f2) w1 w3.
Proof.
  intros (? & ? & ? & Hs & ms1 & E1 & F1 & <-) (? & ? & ? & ? & ms2 & E2 & F2 & <-).
  split_and!; [done|congruence..|auto|]. exists (ms1 ++ ms2). split_and!.
  - by rewrite E2, E1, app_assoc.
  - apply Forall_app. split; [done|]. eapply Forall_impl; [exact F2|].
    intros m [? [?|[? ?]]]; (split; [done|]); [by left|right; auto].
  - by rewrite news_app.
Qed.

(** Transitivity when one side accepts nothing. *)
Lemma keeps_trans_l f w1 w2 w3 : keeps [] w1 w2 → keeps f w2 w3 → keeps f w1 w3.
Proof. apply (keeps_trans []). Qed.
Lemma keeps_trans_0 w1 w2 w3 : keeps [] w1 w2 → keeps [] w2 w3 → keeps [] w1 w3.
Proof. apply keeps_trans. Qed.

Lemma keeps_set_socket s so so' w : worker_ok w → sockets w !! s = Some so → sock_ok s so' →
  keeps [] w (set_socket s so' w).
Proof.
  intros Hw Hs Ho. apply keeps_silent; try done; [by apply (set_socket_ok s so)|].
  intros t. simpl. destruct (decide (t = s)) as [->|]; [by rewrite Hs|by rewrite lookup_insert_ne].
Qed.

Lemma keeps_removeSocket s w : worker_ok w → 0 ≤ s < MAX_CONNECTION_FD →
  ∃ w', removeSocket s w = Ret w' ∧ keeps [] w w'.
Proof.
  intros Hw Hs. destruct (removeSocket_ok s w Hw Hs) as (w' & E & Hw' & Hd & Hq & _ & Hm & Hr).
  exists w'. split; [done|]. split_and!; try done.
  - intros t. rewrite Hd. intros [so Hso]. apply lookup_delete_Some in Hso as [_ Hso]. by exists so.
  - eexists. split_and!; [exact Hr| |].
    + destruct (sockets w !! s) eqn:Es; [|constructor]. constructor; [|constructor].
      split; [done|]. right. split; [by left|]. by eexists.
    + by destruct (sockets w !! s).
Qed.

Lemma lookup_range s so (w : Worker B) : worker_ok w → sockets w !! s = Some so →
  0 ≤ s < MAX_CONNECTION_FD.
Proof.
  intros Hw Hs. destruct (wo_sockets w Hw s so Hs) as [_ Hr]. pose proof (wo_maxfd w Hw). lia.
Qed.

(** The socket in a later state, or removed when the operation failed. *)
Lemma keeps_set_or_remove (rc : bool) s so so' w : worker_ok w → sockets w !! s = Some so →
  sock_ok s so' → ∃ w', (if rc then Ret (set_socket s so' w)
    else removeSocket s (set_socket s so' w)) = Ret w' ∧ keeps [] w w'.
Proof.
  intros Hw Hs Ho. pose proof (keeps_set_socket s so so' w Hw Hs Ho) as Hk.
  destruct rc; [by eexists|].
  destruct (keeps_removeSocket s (set_socket s so' w)) as (w' & -> & Hk');
    [apply Hk|by apply (lookup_range s so w)|].
  exists w'. split; [done|]. by apply (keeps_trans_0 w (set_socket s so' w)).
Qed.

Lemma sendMessage_ok s msg ios (w : Worker B) : worker_ok w → 0 ≤ s < MAX_CONNECTION_FD →
  sendable_to s msg → Forall room_ok ios →
  ∃ w' ios', sendMessage s msg ios w = Ret (w', ios') ∧ keeps [] w w' ∧ Forall room_ok ios'.
Proof.
  intros Hw Hs (Hm & Hms & Hl & Hsb) Hio. unfold sendMessage. rewrite GET_SOCKET_in by done. simpl.
  destruct (sockets w !! s) as [so|] eqn:E; [|exists w, ios; by auto].
  destruct (wo_sockets w Hw s so E) as [Hso _]. pose proof Hso as (Hf & Hr & Hq & Hls).
  unfold sendMessage1, cxx_assert. rewrite Hm, Z.eqb_refl. simpl.
  rewrite Hms, Hf, Z.eqb_refl. simpl. rewrite (proj2 (Z.ltb_lt 0 _) Hl). simpl.
  destruct (send_total s (set_sendlist (sendlist so ++ [msg]) so) ios)
    as (rc & so' & out & ios' & -> & Ho & Hio'); [|done|].
  { split_and!; try done. apply Forall_app. split; [done|by constructor]. }
  simpl. destruct (keeps_set_or_remove rc s so so' w Hw E Ho) as (w' & Ew & Hk).
  exists w', ios'. split; [|done]. destruct rc; [by injection Ew as ->|]. by rewrite Ew.
Qed.

Lemma writeSocket_ok s ios (w : Worker B) : worker_ok w → 0 ≤ s < MAX_CONNECTION_FD →
  Forall room_ok ios → ∃ rc w', writeSocket s ios w = Ret (rc, w') ∧ keeps [] w w'.
Proof.
  intros Hw Hs Hio. unfold writeSocket. rewrite GET_SOCKET_in by done. simpl.
  destruct (sockets w !! s) as [so|] eqn:E; [|exists false, w; by auto].
  destruct (is_listening so); [exists false, w; by auto|].
  destruct (wo_sockets w Hw s so E) as [Hso _].
  destruct (send_total s so ios Hso Hio) as (rc & so' & out & ios' & -> & Ho & _). simpl.
  destruct (keeps_set_or_remove rc s so so' w Hw E Ho) as (w' & Ew & Hk).
  destruct rc; [injection Ew as ->|rewrite Ew]; by eexists _, w'.
Qed.

Lemma errorSocket_ok s (w : Worker B) : worker_ok w → 0 ≤ s < MAX_CONNECTION_FD →
  ∃ w', errorSocket s w = Ret w' ∧ keeps [] w w'.
Proof.
  intros Hw Hs. unfold errorSocket. rewrite GET_SOCKET_in by done. simpl.
  destruct (sockets w !! s); [by apply keeps_removeSocket|exists w; by auto].
Qed.

Definition accept_ok (io : accept_io) : Prop :=
  match io with AFd s => 0 ≤ s < MAX_CONNECTION_FD | _ => True end.

(** The descriptors a call of [acceptSocket] takes. *)
Fixpoint accept_fds (ios : list accept_io) : list Z :=
  match ios with
  | AFd s :: ios => s :: accept_fds ios
  | AIntr :: ios => accept_fds ios
  | _ => []
  end.

Lemma acceptSocket_ok ios : ∀ (w : Worker B), worker_ok w → Forall accept_ok ios →
  ∃ w', acceptSocket ios w = Ret w' ∧ keeps (if stop w then [] else accept_fds ios) w w'.
Proof.
  induction ios as [|io ios IH]; intros w Hw Hio; simpl; destruct (stop w) eqn:Est;
    try (exists w; split; [done|by apply keeps_refl]).
  apply Forall_cons in Hio as [Ha Hio]. destruct io as [s| | |];
    [|by specialize (IH w Hw Hio); rewrite Est in IH|exists w; split; [done|by apply keeps_refl]..].
  unfold ASSERT_SOCKET. simpl in Ha.
  assert ((0 <=? s) && (s <? MAX_CONNECTION_FD) = true) as -> by (apply andb_true_iff; lia). simpl.
  destruct (IH (push_recv [allocateMessage0 s SM_OPCODE_NEW_SOCKET] w)) as (w' & -> & Hk);
    [by apply push_new_ok|done|].
  exists w'. split; [done|]. simpl in Hk. rewrite Est in Hk.
  refine (keeps_trans [s] _ _ _ _ _ Hk). split_and!; try done; [by apply push_new_ok|].
  eexists. split_and!; [done| |done]. constructor; [|constructor]. split; [done|]. left. by split.
Qed.

Lemma read_told (w : Worker B) s ms : Forall (read_message s) ms → is_Some (sockets w !! s) →
  Forall (told w) ms ∧ news ms = [].
Proof.
  intros Hms Hs. induction Hms as [|m ms (Hm & Hf & Ho & _) Hms [IH1 IH2]]; [by split|]. split.
  - constructor; [|done]. split; [done|]. right. rewrite Hf. split; [by right|done].
  - unfold news in *. simpl. unfold is_new at 1. by rewrite Ho.
Qed.

Lemma readSocket_so_ok s so ios now (w : Worker B) : worker_ok w → sockets w !! s = Some so →
  Forall recv_ok ios → ∃ rc w', readSocket_so split s so ios now w = Ret (rc, w') ∧ keeps [] w w'.
Proof.
  intros Hw Hs Hio. unfold readSocket_so. destruct (stop w); [exists false, w; by auto|].
  destruct (wo_sockets w Hw s so Hs) as [(Hf & [q Hq] & [q' Hq'] & Hl) _].
  destruct (read_all_total split so ios now q Hq Hio)
    as (rc & msgs & so' & ios' & r & -> & Hr & (F1 & F2 & F3 & F4) & Hms). simpl.
  assert (sock_ok s so') as Ho
    by (split_and!; [congruence|by exists r|rewrite F3; by exists q'|by rewrite F4]).
  pose proof (keeps_set_socket s so so' w Hw Hs Ho) as Hk.
  assert (worker_ok (push_recv msgs (set_socket s so' w))) as Hw'.
  { apply (push_recv_ok s); [apply Hk| |by rewrite <-Hf]. simpl. rewrite lookup_insert_eq. by eexists. }
  assert (keeps [] w (push_recv msgs (set_socket s so' w))) as Hk'.
  { destruct Hk as (_ & ? & ? & ? & _). split_and!; try done. exists msgs. rewrite <-Hf.
    destruct (read_told w (fd so) msgs Hms); [by rewrite Hf, Hs; eexists|]. by split_and!. }
  destruct rc; [by eexists _, _|].
  destruct (keeps_removeSocket s _ Hw' (lookup_range s so w Hw Hs)) as (w' & -> & Hk2).
  eexists _, w'. split; [done|]. by eapply keeps_trans_0.
Qed.

Lemma readSocket_ok s rios aios now (w : Worker B) : worker_ok w → 0 ≤ s < MAX_CONNECTION_FD →
  Forall recv_ok rios → Forall accept_ok aios →
  ∃ rc w' fds, readSocket split s rios aios now w = Ret (rc, w') ∧ keeps fds w w' ∧
    (fds = [] ∨ fds = accept_fds aios).
Proof.
  intros Hw Hs Hr Ha. unfold readSocket. rewrite GET_SOCKET_in by done. simpl.
  destruct (sockets w !! s) as [so|] eqn:E; cycle 1.
  { eexists _, w, []. split_and!; [done|by apply keeps_refl|by left]. }
  destruct (is_listening so).
  - destruct (acceptSocket_ok aios w Hw Ha) as (w' & -> & Hk). eexists _, w', _.
    split_and!; [done|exact Hk|]. destruct (stop w); [by left|by right].
  - destruct (readSocket_so_ok s so rios now w Hw E Hr) as (rc & w' & -> & Hk).
    exists rc, w', []. split_and!; [done|done|by left].
Qed.

Lemma multisendMessage_ok msg ios (w : Worker B) : worker_ok w → 0 < payload_len msg < 2 ^ 32 →
  sendable msg → Forall room_ok ios →
  ∃ w' ios', multisendMessage msg ios w = Ret (w', ios') ∧ keeps [] w w' ∧ Forall room_ok ios'.
Proof.
  intros Hw Hl Hs Hio. unfold multisendMessage, cxx_assert. rewrite (proj2 (Z.ltb_lt 0 _)) by lia.
  simpl. assert (Forall (λ s, 0 ≤ s < MAX_CONNECTION_FD)
    (map Z.of_nat (seq 0 (Z.to_nat (maxfd w + 1))))) as Hfds.
  { apply Forall_fmap, Forall_forall. intros n Hn%elem_of_seq. simpl.
    pose proof (wo_maxfd w Hw). lia. }
  revert Hfds. generalize (map Z.of_nat (seq 0 (Z.to_nat (maxfd w + 1)))). intros l.
  pose proof (keeps_refl w Hw) as Hk0. revert Hk0. generalize w at 2 3 as w1. clear Hw.
  revert ios Hio. induction l as [|s l IH]; intros ios Hio w1 Hk Hfds; simpl; [exists w1, ios; by auto|].
  apply Forall_cons in Hfds as [Hs0 Hfds]. pose proof (proj1 Hk) as Hw1.
  rewrite GET_SOCKET_in by done. simpl.
  destruct (sockets w1 !! s) as [so|] eqn:E; [|by apply IH].
  destruct (sendMessage_ok s (allocateMessage s (msg_opcode msg) (message_bytes msg)) ios w1)
    as (w2 & ios2 & -> & Hk2 & Hio2); [done|done| |done|].
  { assert (0 < length (message_bytes msg) ≤ Z.to_nat (payload_len msg))%nat as Hlen.
    { unfold sendable in Hs. split; [destruct (message_bytes msg); [done|simpl; lia]|].
      unfold message_bytes. rewrite length_take. lia. }
    assert (u32 (Z.of_nat (length (message_bytes msg))) = Z.of_nat (length (message_bytes msg))) as Hu
      by (apply (wrap_id 32); unfold fits; lia).
    unfold sendable_to, sendable, allocateMessage. cbn [magic msg_s payload_len]. rewrite Hu.
    split_and!; try done; [lia|]. unfold message_bytes at 1. cbn [payload_len payload].
    rewrite Nat2Z.id, take_ge by done.
    intros Hnil. rewrite Hnil in Hlen. simpl in Hlen. lia. }
  apply IH; [done| |done]. by eapply keeps_trans_0.
Qed.

Lemma checkSocket_one_ok now s (w : Worker B) : worker_ok w → 0 ≤ s < MAX_CONNECTION_FD →
  ∃ w', checkSocket_one now s w = Ret w' ∧ keeps [] w w'.
Proof.
  intros Hw Hs. unfold checkSocket_one. rewrite GET_SOCKET_in by done. simpl.
  destruct (sockets w !! s) as [so|]; [|exists w; by auto].
  repeat case_match; first [exists w; by auto|by apply keeps_removeSocket].
Qed.

Lemma checkSocket_ok now (w : Worker B) : worker_ok w → ∃ w', checkSocket now w = Ret w' ∧ keeps [] w w'.
Proof.
  intros Hw. unfold checkSocket. destruct (_ || _); [|exists w; by auto].
  assert (Forall (λ s, 0 ≤ s < MAX_CONNECTION_FD)
    (map Z.of_nat (seq 0 (Z.to_nat (maxfd w + 1))))) as Hfds.
  { apply Forall_fmap, Forall_forall. intros n Hn%elem_of_seq. simpl.
    pose proof (wo_maxfd w Hw). lia. }
  revert Hfds. generalize (map Z.of_nat (seq 0 (Z.to_nat (maxfd w + 1)))). intros l.
  pose proof (keeps_refl w Hw) as Hk0. revert Hk0. generalize w at 2 3 as w1. clear Hw.
  induction l as [|s l IH]; intros w1 Hk Hfds; simpl; [exists w1; by auto|].
  apply Forall_cons in Hfds as [Hs0 Hfds].
  destruct (checkSocket_one_ok now s w1 (proj1 Hk) Hs0) as (w2 & -> & Hk2).
  apply IH; [|done]. by eapply keeps_trans_0.
Qed.

(** A request that may be at the head of [_sendQueue]: what the callers promise. *)
Definition request_ok (w : Worker B) (m : Socketmessage) : Prop :=
  magic m = MAGIC ∧
  (msg_s m = -1 ∧ 0 < payload_len m < 2 ^ 32 ∧ sendable m ∨
   0 ≤ msg_s m < MAX_CONNECTION_FD ∧
   match msg_opcode m with
   | SM_OPCODE_CLOSE => True
   | SM_OPCODE_MESSAGE => 0 < payload_len m ∧ sendable m
   | SM_OPCODE_NEW_SOCKET | SM_OPCODE_NEW_LISTENING => sockets w !! msg_s m = None
   | SM_OPCODE_SOL => msg_s m < Z.of_nat BUNDLE_SOL_MAX
   | SM_OPCODE_ESTABLISH => False
   end).

Lemma set_opt_ok i v (w : Worker B) : worker_ok w → worker_ok (set_opt i v w).
Proof. intros [W1 W2 W3 W4 W5 W6]. split; simpl; try done. by rewrite length_insert. Qed.

(** The effect of a step: [add] is the descriptor it may add, [acc] those it accepts. *)
Definition reported (w w' : Worker B) (m : Socketmessage) : Prop :=
  magic m = MAGIC ∧
  (msg_opcode m = SM_OPCODE_NEW_SOCKET ∧ 0 ≤ msg_s m < MAX_CONNECTION_FD ∨
   (msg_opcode m = SM_OPCODE_ESTABLISH ∨ msg_opcode m = SM_OPCODE_CLOSE ∨
    msg_opcode m = SM_OPCODE_MESSAGE) ∧
   (is_Some (sockets w !! msg_s m) ∨ is_Some (sockets w' !! msg_s m))).

Definition moves (add : option Z) (acc : list Z) (w w' : Worker B) : Prop :=
  worker_ok w' ∧
  (∀ s, is_Some (sockets w' !! s) → is_Some (sockets w !! s) ∨ add = Some s) ∧
  ∃ ms, recvQueue w' = recvQueue w ++ ms ∧ Forall (reported w w') ms ∧ news ms = acc.

Lemma keeps_moves add acc (w w' : Worker B) : keeps acc w w' → moves add acc w w'.
Proof.
  intros (Hw & _ & _ & Hs & ms & E & F & <-). split_and!; [done|by left; auto|].
  exists ms. split_and!; [done| |done]. eapply Forall_impl; [exact F|].
  intros m [? [?|[? ?]]]; (split; [done|]); [by left|]. right. split; [by right|by left].
Qed.

Definition adds (m : Socketmessage) : bool :=
  bool_decide (msg_opcode m = SM_OPCODE_NEW_SOCKET ∨ msg_opcode m = SM_OPCODE_NEW_LISTENING).

(** The descriptor a message adds to the worker that handles it. *)
Definition add_of (m : Socketmessage) : option Z := if adds m then Some (msg_s m) else None.

Lemma newSocket_moves s listening rc now (w : Worker B) : worker_ok w → 0 ≤ s < MAX_CONNECTION_FD →
  sockets w !! s = None → (all = true → rc = true) →
  ∃ w', newSocket s listening rc now w = Ret w' ∧ moves (Some s) [] w w' ∧ sendQueue w' = sendQueue w.
Proof.
  intros Hw Hs Hn Hrc. destruct (newSocket_ok s listening rc now w Hw Hs Hn Hrc) as (w' & E & Hw').
  destruct (newSocket_effect s listening rc now w w' Hs Hn E) as (Hq & Ha & Hr).
  exists w'. split_and!; [done| |done]. split_and!; [done| |].
  - intros t Ht. destruct (Ha t Ht) as [?| ->]; [by left|by right].
  - destruct Hr as [Hr|[Hr Hl]]; eexists; rewrite Hr.
    + by rewrite <-(app_nil_r (recvQueue w)) at 1.
    + split_and!; [done| |done]. constructor; [|constructor]. split; [done|]. right. split; [by left|by right].
Qed.

Lemma handle_one_ok msg ios rc now (w : Worker B) : worker_ok w → request_ok w msg → Forall room_ok ios →
  (all = true → rc = true) →
  ∃ w' ios', handle_one msg ios rc now w = Ret (w', ios') ∧ moves (add_of msg) [] w w' ∧
    sendQueue w' = sendQueue w ∧ Forall room_ok ios'.
Proof.
  intros Hw (Hm & Hr) Hio Hrc. unfold handle_one, cxx_assert. rewrite Hm, Z.eqb_refl. simpl.
  destruct Hr as [(Hs & Hl & Hsb)|(Hs & Hr)].
  { rewrite Hs. simpl. destruct (multisendMessage_ok msg ios w Hw Hl Hsb Hio) as (w' & ios' & E & Hk & ?).
    exists w', ios'. split_and!; [done|by apply keeps_moves|apply Hk|done]. }
  destruct (Z.eqb_spec (msg_s msg) (-1)); [lia|]. unfold add_of, adds. destruct (msg_opcode msg) eqn:Eo.
  - destruct Hr as [Hp Hsb]. destruct (sendMessage_ok (msg_s msg) msg ios w)
      as (w' & ios' & -> & Hk & ?); [done..|].
    exists w', ios'. split_and!; [done|by apply keeps_moves|apply Hk|done].
  - done.
  - destruct (keeps_removeSocket (msg_s msg) w Hw Hs) as (w' & -> & Hk). exists w', ios.
    split_and!; [done|by apply keeps_moves|apply Hk|done].
  - destruct (newSocket_moves (msg_s msg) false rc now w Hw Hs Hr Hrc) as (w' & -> & ? & ?). by exists w', ios.
  - destruct (newSocket_moves (msg_s msg) true rc now w Hw Hs Hr Hrc) as (w' & -> & ? & ?). by exists w', ios.
  - assert ((0 <=? msg_s msg) && (msg_s msg <? Z.of_nat BUNDLE_SOL_MAX) = true) as ->
      by (apply andb_true_iff; lia).
    eexists _, ios. split_and!; [done| |done|done]. split_and!; [by apply set_opt_ok|by left|].
    exists []. by rewrite app_nil_r.
Qed.

Lemma set_sendQueue_ok q (w : Worker B) : worker_ok w → worker_ok (set_sendQueue q w).
Proof. by intros []. Qed.

(** What the environment may do in a state: the kernel only reports descriptors and
    sizes it was given, and the request at the head of the queue is well formed. *)
Definition event_ok (w : Worker B) (ev : event) : Prop :=
  match ev with
  | EvPush _ => True
  | EvHandle ios rc _ => Forall room_ok ios ∧ (all = true → rc = true) ∧
      match sendQueue w with [] => True | msg :: _ => request_ok w msg end
  | EvPoll s _ rios aios sios _ => 0 ≤ s < MAX_CONNECTION_FD ∧ Forall recv_ok rios ∧
      Forall accept_ok aios ∧ Forall room_ok sios
  | EvCheck _ => True
  end.

(** The descriptor a step may add, the ones it may accept, and the queue it leaves. *)
Definition event_add (w : Worker B) (ev : event) : option Z :=
  match ev, sendQueue w with EvHandle _ _ _, msg :: _ => add_of msg | _, _ => None end.
Definition event_accepts (ev : event) : list Z :=
  match ev with EvPoll _ _ _ aios _ _ => accept_fds aios | _ => [] end.
Definition event_queue (w : Worker B) (ev : event) : list Socketmessage :=
  match ev with
  | EvPush m => sendQueue w ++ [m]
  | EvHandle _ _ _ => tail (sendQueue w)
  | _ => sendQueue w
  end.

Lemma poll_one_ok s ev rios aios sios now (w : Worker B) : worker_ok w → 0 ≤ s < MAX_CONNECTION_FD →
  Forall recv_ok rios → Forall accept_ok aios → Forall room_ok sios →
  ∃ w' acc, poll_one split s ev rios aios sios now w = Ret w' ∧ keeps acc w w' ∧
    (acc = [] ∨ acc = accept_fds aios).
Proof.
  intros Hw Hs Hr Ha Hio. unfold poll_one. destruct ev as [|readable writable].
  { destruct (errorSocket_ok s w Hw Hs) as (w' & -> & Hk). exists w', []. by auto. }
  assert (∃ rc w1 acc, (if readable then readSocket split s rios aios now w else Ret (true, w))
    = Ret (rc, w1) ∧ keeps acc w w1 ∧ (acc = [] ∨ acc = accept_fds aios)) as (rc & w1 & acc & -> & Hk & Hacc).
  { destruct readable; [by apply readSocket_ok|]. exists true, w, []. by auto. }
  simpl. destruct (writable && rc); [|by exists w1, acc].
  destruct (writeSocket_ok s sios w1 (proj1 Hk) Hs Hio) as (rc2 & w2 & -> & Hk2).
  exists w2, acc. split_and!; [done| |done]. rewrite <-(app_nil_r acc). by eapply keeps_trans.
Qed.

Lemma step_ok ev (w : Worker B) : worker_ok w → event_ok w ev →
  ∃ w' acc, step split ev w = Ret w' ∧ moves (event_add w ev) acc w w' ∧
    (acc = [] ∨ acc = event_accepts ev) ∧ sendQueue w' = event_queue w ev.
Proof.
  intros Hw He. assert (moves None [] w w) as Hrefl by (by apply keeps_moves, keeps_refl).
  destruct ev as [msg|ios rc now|s ev rios aios sios now|now]; simpl in *.
  - exists (pushMessage msg w), []. split_and!; [done| |by left|done].
    destruct Hrefl as (_ & ? & ?). split_and!; [by apply set_sendQueue_ok|done|done].
  - destruct He as (Hio & Hrc & Hr). unfold event_add. destruct (sendQueue w) as [|msg q] eqn:Eq.
    { exists w, []. split_and!; [done|done|by left|by rewrite Eq]. }
    destruct (handle_one_ok msg ios rc now (set_sendQueue q w)) as (w' & ios' & -> & Hm & Hq & _);
      [by apply set_sendQueue_ok|done..|].
    exists w', []. split_and!; [done|exact Hm|by left|done].
  - destruct He as (Hs & Hr & Ha & Hio).
    destruct (poll_one_ok s ev rios aios sios now w) as (w' & acc & -> & Hk & Hacc); [done..|].
    exists w', acc. split_and!; [done|by apply keeps_moves|done|apply Hk].
  - destruct (checkSocket_ok now w Hw) as (w' & -> & Hk). exists w', [].
    split_and!; [done|by apply keeps_moves|by left|apply Hk].
Qed.

Fixpoint trace_ok (w : Worker B) (evs : list event) : Prop :=
  match evs with
  | [] => True
  | ev :: evs => event_ok w ev ∧ ∀ w', step split ev w = Ret w' → trace_ok w' evs
  end.

(** C7 (invariant): from a fresh worker, every sequence of well-formed events runs without
    a failed assertion or an access out of bounds, whatever the splitter does, and keeps
    the invariant: every socket sits at its own descriptor below 65536 with consistent
    buffers, [_totalConnections] is the number of sockets, only their descriptors are polled, and
    all of them if every [epoll_ctl] succeeded ([all]), and for every descriptor the messages handed to the application
    alternate ESTABLISH, any number of MESSAGE, CLOSE, open exactly while it is live. *)
Theorem worker_invariant (evs : list event) :
  trace_ok new_Worker evs → ∃ w, run split evs new_Worker = Ret w ∧ worker_ok w.
Proof.
  pose proof worker_ok_new as Hw. revert Hw. generalize (new_Worker (B := B)).
  induction evs as [|ev evs IH]; intros w Hw Ht; simpl; [by exists w|].
  destruct Ht as [He Ht]. destruct (step_ok ev w Hw He) as (w' & acc & E & (Hw' & _) & _).
  rewrite E. simpl. apply IH; [done|by apply Ht].
Qed.

(** A socket whose [epoll_ctl] failed is kept and announced, and never polled: what its peer sends is not
    read, and nothing closes it but the application or the silence limit. *)
Lemma newSocket_unpolled s listening now (w : Worker B) : worker_ok w → 0 ≤ s < MAX_CONNECTION_FD →
  sockets w !! s = None → opt BUNDLE_SOL_MAXSIZE w = 0 →
  ∃ w', newSocket s listening false now w = Ret w' ∧ is_Some (sockets w' !! s) ∧
    recvQueue w' = recvQueue w ++ [allocateMessage0 s SM_OPCODE_ESTABLISH] ∧ s ∉ polled w'.
Proof.
  intros Hw Hs Hn Ho. unfold newSocket. rewrite GET_SOCKET_in by done. simpl. rewrite Hn. simpl. rewrite Ho. simpl.
  eexists. split; [done|]. simpl. rewrite lookup_insert_eq. split; [by eexists|]. split; [done|].
  intros Hp. apply (wo_polled w Hw), elem_of_dom in Hp as [so Hso]. congruence.
Qed.

(** The connection limit.  A 64-bit option value reaches the worker
    modulo 2^32.  While the limit [l] is not 0, [newSocket] with [l] or more sockets only
    closes the new descriptor: no socket, no message, no change of the counters; otherwise
    the socket is added and announced. *)
Theorem newSocket_limit v s listening rc now (w w1 : Worker B) :
  worker_ok w → sendQueue w = [] → 0 ≤ v < 2 ^ 64 → 0 ≤ s < MAX_CONNECTION_FD →
  sockets w !! s = None →
  handleMessage [] [] now (snd (setsockopt (Z.of_nat BUNDLE_SOL_MAXSIZE) (Some v) 8 w)) = Ret w1 →
  let l := v mod 2 ^ 32 in
  opt BUNDLE_SOL_MAXSIZE w1 = l ∧ sockets w1 = sockets w ∧
  (l ≠ 0 → l ≤ Z.of_nat (size (sockets w)) →
    newSocket s listening rc now w1 = Ret (add_closed s w1)) ∧
  (l = 0 ∨ Z.of_nat (size (sockets w)) < l →
    ∃ w2, newSocket s listening rc now w1 = Ret w2 ∧
      dom (sockets w2) = {[s]} ∪ dom (sockets w) ∧
      recvQueue w2 = recvQueue w ++ [allocateMessage0 s SM_OPCODE_ESTABLISH]).
Proof.
  intros Hw Hq Hv Hs Hn H1 l. pose proof (wo_opts w Hw) as Ho. pose proof (wo_total w Hw) as Ht.
  unfold handleMessage, setsockopt in H1. simpl in H1. rewrite Hq in H1. simpl in H1.
  injection H1 as <-. unfold newSocket. rewrite GET_SOCKET_in by done. simpl. rewrite Hn. simpl.
  unfold opt. simpl. rewrite list_lookup_total_insert_eq by (rewrite Ho; unfold BUNDLE_SOL_MAX, BUNDLE_SOL_MAXSIZE; lia).
  assert (u32 (v mod 2 ^ (8 * 8)) = l) as ->.
  { change (8 * 8) with 64. by rewrite Z.mod_small. }
  split_and!; try done.
  - intros Hl Hle. rewrite (proj2 (Z.eqb_neq l 0)) by done. rewrite Ht, (proj2 (Z.leb_le l _)) by done. done.
  - intros Hl. assert (negb (l =? 0) && (l <=? totalConnections w) = false) as ->.
    { rewrite Ht. destruct (Z.eqb_spec l 0); [done|]. simpl. apply Z.leb_gt. lia. }
    eexists. split; [done|]. simpl. by rewrite dom_insert_L.
Qed.
End WorkerProofs.

Lemma worker_invariant_witness :
  ∃ w, run (B := list Z) byte_split
    [EvPush (allocateMessage0 7 SM_OPCODE_NEW_SOCKET); EvHandle [] true 100;
     EvPoll 7 (PollReady true true) [RData [2; 9; 1]; RClosed] [] [] 101; EvCheck 102] new_Worker = Ret w ∧
    worker_ok (all := true) w.
Proof.
  apply (worker_invariant byte_split (all := true)). simpl. split; [done|]. intros w' [= <-]. simpl.
  split; [split; [constructor|split; [done|split; [done|right; done]]]|].
  intros w' [= <-]. split.
  { split; [done|]. split; [|split; constructor].
    constructor; [unfold recv_ok, readlen; simpl; lia|by constructor]. }
  intros w' _. split; [done|]. done.
Defined.

Lemma newSocket_limit_witness :
  opt (B := list Z) BUNDLE_SOL_MAXSIZE (set_opt 1 0 (set_sendQueue [] new_Worker)) = (2 ^ 32) mod 2 ^ 32.
Proof.
  apply (newSocket_limit (B := list Z) (all := false) (2 ^ 32) 5 false true 0 new_Worker
    (set_opt 1 0 (set_sendQueue [] new_Worker))); done.
Defined.

