(* ===== verification/SocketServer.v ===== *)
(** SocketServer (socket/SocketServer.cpp): a master worker that accepts, workers that
    serve the connections, and the queue through which they talk to the application.
    The threads interleave as an explicit sequence of events. *)

From stdpp Require Import fin_maps fin_sets sorting.
From S2P Require Import Prelude ByteQueue Socket WorkerProcess.
Open Scope Z_scope.

(** What the kernel answers to the calls of [start]. *)
Record start_io := StartIo {
  k_socket : Z; k_reuse : bool; k_nonblock : bool; k_bind : Z; k_listen : Z
}.

Section Server.
Context {B : Type} `{ByteQueue B}.
Context (split : list Z → Z).

(** [processes] holds the worker a pointer of [_processes] refers to, [None] for a
    pointer to a deleted worker; [sclosed] lists the descriptors the server's own
    thread has closed. *)
Record Server := MkServer {
  workerNumber : Z;                        (* u32 *)
  readQueue : list Socketmessage;
  processes : list (option (Worker B));
  fd_listening : Z;
  isstop : bool;
  sopts : list Z;                          (* size_t [BUNDLE_SOL_MAX] *)
  sclosed : list Z
}.

Definition new_Server (cpus : Z) : Server :=
  MkServer cpus [] [] (-1) true (replicate BUNDLE_SOL_MAX 0) [].

Definition set_isstop b sv := MkServer (workerNumber sv) (readQueue sv) (processes sv)
  (fd_listening sv) b (sopts sv) (sclosed sv).
Definition set_readQueue q sv := MkServer (workerNumber sv) q (processes sv)
  (fd_listening sv) (isstop sv) (sopts sv) (sclosed sv).
Definition set_processes ps sv := MkServer (workerNumber sv) (readQueue sv) ps
  (fd_listening sv) (isstop sv) (sopts sv) (sclosed sv).
Definition set_fd_listening s sv := MkServer (workerNumber sv) (readQueue sv) (processes sv)
  s (isstop sv) (sopts sv) (sclosed sv).
Definition set_sopts o sv := MkServer (workerNumber sv) (readQueue sv) (processes sv)
  (fd_listening sv) (isstop sv) o (sclosed sv).
Definition add_sclosed l sv := MkServer (workerNumber sv) (readQueue sv) (processes sv)
  (fd_listening sv) (isstop sv) (sopts sv) (sclosed sv ++ l).

(** [setWorkerNumber] *)
Definition setWorkerNumber (cpus n : Z) (sv : Server) : bool * Server :=
  if isstop sv then
    if n <? u32 (cpus * 8)
    then (true, MkServer n (readQueue sv) (processes sv) (fd_listening sv) (isstop sv)
                  (sopts sv) (sclosed sv))
    else (false, sv)
  else (false, sv).

(** [SafeClose(this->_fd_listening)] closes descriptors above 0 only. *)
Definition close_listening (sv : Server) : Server :=
  if 0 <? fd_listening sv
  then set_fd_listening (-1) (add_sclosed [fd_listening sv] sv) else sv.

(** [WorkerProcess::stop], which the destructor runs: the thread ends, the sockets are
    closed in the order of the table, and the descriptors still queued are closed. *)
Definition stop_worker (w : Worker B) : outcome (list Z) :=
  if stop w then Ret []
  else
    _ ← cxx_assert (forallb (λ m, magic m =? MAGIC) (sendQueue w));
    Ret (merge_sort Z.le (elements (dom (sockets w))) ++
         map msg_s (List.filter (λ m, bool_decide (msg_opcode m = SM_OPCODE_NEW_SOCKET)) (sendQueue w))).

(** [for (auto slot : this->_processes) { SafeDelete(slot); }]: it is the loop's copy of
    each pointer that is set to null; deleting a worker twice is undefined. *)
Fixpoint delete_workers (ps : list (option (Worker B))) : outcome (list Z) :=
  match ps with
  | [] => Ret []
  | None :: _ => Undef
  | Some w :: ps => a ← stop_worker w; b ← delete_workers ps; Ret (a ++ b)
  end.

(** [start] *)
Definition start (k : start_io) (sv : Server) : outcome (bool * Server) :=
  if negb (isstop sv) then Ret (false, sv)
  else
    let sv := set_fd_listening (k_socket k) (close_listening (set_isstop false sv)) in
    if k_socket k <? 0 then Ret (false, sv)
    else if negb (k_reuse k) then Ret (false, sv)
    else if negb (k_nonblock k) then Ret (false, sv)
    else if negb (k_bind k =? 0) then Ret (false, sv)
    else if negb (k_listen k =? 0) then Ret (false, sv)
    else
      cl ← delete_workers (processes sv);
      let master := addSocket (k_socket k) true new_Worker in
      Ret (true, set_processes
        (Some master :: replicate (Z.to_nat (workerNumber sv)) (Some new_Worker))
        (add_sclosed cl sv)).

(** [getWorkerProcess]: the index into [_processes]. *)
Definition worker_index (n : nat) (s : Z) : nat :=
  if Nat.eqb n 1 then 0%nat else Z.to_nat (u64 s mod (Z.of_nat n - 1) + 1).

(** A call on the worker [getWorkerProcess(s)] points to. *)
Definition on_worker (s : Z) (f : Worker B → outcome (Worker B)) (sv : Server) : outcome Server :=
  _ ← cxx_assert (negb (Nat.eqb (length (processes sv)) 0));
  let i := worker_index (length (processes sv)) s in
  match processes sv !! i with
  | Some (Some w) => w' ← f w; Ret (set_processes (<[i := Some w']> (processes sv)) sv)
  | _ => Undef
  end.

(** [receiveMessage]: new descriptors go on to their worker, the rest to the caller. *)
Fixpoint receive_loop (q : list Socketmessage) (sv : Server)
    : outcome (option Socketmessage * Server) :=
  match q with
  | [] => Ret (None, sv)
  | msg :: q =>
      let sv := set_readQueue q sv in
      _ ← cxx_assert (magic msg =? MAGIC);
      _ ← cxx_assert (negb (msg_s msg =? -1));
      match msg_opcode msg with
      | SM_OPCODE_ESTABLISH | SM_OPCODE_CLOSE | SM_OPCODE_MESSAGE => Ret (Some msg, sv)
      | SM_OPCODE_NEW_SOCKET =>
          sv ← on_worker (msg_s msg) (λ w, Ret (pushMessage_msg (msg_s msg) msg w)) sv;
          receive_loop q sv
      | _ => Aborted
      end
  end.
Definition receiveMessage (sv : Server) : outcome (option Socketmessage * Server) :=
  receive_loop (readQueue sv) sv.

(** [close], and the two [sendMessage]. *)
Definition close (s : Z) (sv : Server) : outcome Server :=
  _ ← cxx_assert (negb (s =? -1));
  on_worker s (λ w, Ret (closeSocket s w)) sv.
Definition sendMessage (s : Z) (bytes : list Z) (sv : Server) : outcome Server :=
  _ ← cxx_assert (negb (s =? -1));
  on_worker s (pushMessage_bytes s bytes) sv.
Definition sendMessage_msg (s : Z) (msg : Socketmessage) (sv : Server) : outcome Server :=
  _ ← cxx_assert (negb (s =? -1));
  on_worker s (λ w, Ret (pushMessage_msg s msg w)) sv.

(** [stop] releases the queued messages, which leaves the descriptors of queued
    [NEW_SOCKET] messages open. *)
Definition do_stop (sv : Server) : outcome Server :=
  if isstop sv then Ret sv
  else
    cl ← delete_workers (processes sv);
    Ret (close_listening (set_readQueue [] (set_processes (map (λ _, None) (processes sv))
      (add_sclosed cl (set_isstop true sv))))).

(** A loop over [_processes] that uses every worker. *)
Fixpoint live_workers (ps : list (option (Worker B))) : outcome (list (Worker B)) :=
  match ps with
  | [] => Ret []
  | None :: _ => Undef
  | Some w :: ps => ws ← live_workers ps; Ret (w :: ws)
  end.

(** [size] *)
Definition server_size (sv : Server) : outcome Z :=
  ws ← live_workers (processes sv);
  Ret (fold_left (λ v w, u32 (v + totalConnections w)) ws 0).

(** [memcpy] of the low [n] bytes of [v] over a 64-bit number. *)
Definition memcpy64 (old v n : Z) : Z := old - old mod 2 ^ (8 * n) + v mod 2 ^ (8 * n).

(** [setsockopt] and [getsockopt]; the latter returns the [optlen] bytes copied. *)
Definition server_setsockopt (o : Z) (optval : option Z) (optlen : Z) (sv : Server)
    : outcome (bool * Server) :=
  if (0 <? o) && (o <? Z.of_nat BUNDLE_SOL_MAX) then
    match optval with
    | None => Ret (false, sv)
    | Some v =>
        if optlen <=? 8 then
          ws ← live_workers (processes sv);
          Ret (true, set_processes (map (λ w, Some (snd (setsockopt o optval optlen w))) ws)
            (set_sopts (<[Z.to_nat o := memcpy64 (sopts sv !!! Z.to_nat o) v optlen]> (sopts sv)) sv))
        else Ret (false, sv)
    end
  else Ret (false, sv).
Definition server_getsockopt (o : Z) (optval : bool) (optlen : Z) (sv : Server) : option Z :=
  if (0 <? o) && (o <? Z.of_nat BUNDLE_SOL_MAX) && optval && (optlen <=? 8)
  then Some (sopts sv !!! Z.to_nat o mod 2 ^ (8 * optlen)) else None.

(** ** The server and its threads *)

(** A step of worker [i]'s thread; what it pushes on [_recvQueue] arrives in [_readQueue]
    (the worker's own list is the log of what it pushed). *)
Definition worker_step (i : nat) (ev : event) (sv : Server) : outcome Server :=
  match processes sv !! i with
  | Some (Some w) =>
      w' ← step split ev w;
      Ret (set_processes (<[i := Some w']> (processes sv))
        (set_readQueue (readQueue sv ++ drop (length (recvQueue w)) (recvQueue w')) sv))
  | _ => Ret sv
  end.

(** The calls of the application and the steps of the worker threads. *)
Inductive sv_event :=
| SvReceive
| SvSend (s : Z) (bytes : list Z)
| SvForward (s : Z) (msg : Socketmessage)
| SvClose (s : Z)
| SvSetopt (o : Z) (optval : option Z) (optlen : Z)
| SvStart (k : start_io)
| SvStop
| SvWorker (i : nat) (ev : event).

Definition quietly (m : outcome Server) : outcome (list Socketmessage * Server) :=
  sv ← m; Ret ([], sv).

Definition sv_step (ev : sv_event) (sv : Server) : outcome (list Socketmessage * Server) :=
  match ev with
  | SvReceive =>
      r ← receiveMessage sv;
      Ret (match fst r with Some m => [m] | None => [] end, snd r)
  | SvSend s bytes => quietly (sendMessage s bytes sv)
  | SvForward s msg => quietly (sendMessage_msg s msg sv)
  | SvClose s => quietly (close s sv)
  | SvSetopt o v len => r ← server_setsockopt o v len sv; Ret ([], snd r)
  | SvStart k => r ← start k sv; Ret ([], snd r)
  | SvStop => quietly (do_stop sv)
  | SvWorker i ev => quietly (worker_step i ev sv)
  end.

(** The messages delivered to the application, in order, and the final state. *)
Fixpoint sv_run (evs : list sv_event) (out : list Socketmessage) (sv : Server)
    : outcome (list Socketmessage * Server) :=
  match evs with
  | [] => Ret (out, sv)
  | ev :: evs => r ← sv_step ev sv; sv_run evs (out ++ fst r) (snd r)
  end.
End Server.

Arguments Server B : clear implicits.

(** ** The invariant of a serving server *)

(** The descriptors the messages of a send queue will add to their worker. *)
Definition pending (q : list Socketmessage) : list Z := map msg_s (List.filter adds q).

Lemma submseteq_NoDup {A} (l1 l2 : list A) : NoDup l2 → l1 ⊆+ l2 → NoDup l1.
Proof. intros Hn [k Hk]%submseteq_Permutation. rewrite Hk in Hn. by apply NoDup_app in Hn as [? _]. Qed.

Lemma life_fold s l ms : life s (l ++ ms) = fold_left (life_step s) ms (life s l).
Proof. unfold life. by rewrite fold_left_app. Qed.

Lemma life_skip_new s l m q : msg_opcode m = SM_OPCODE_NEW_SOCKET →
  life s (l ++ m :: q) = life s (l ++ q).
Proof.
  intros Hm. rewrite !life_fold. simpl. f_equal. unfold life_step at 1.
  destruct (life s l); [|done]. destruct (msg_s m =? s); simpl; [by rewrite Hm|done].
Qed.

Section ServerProofs.
Context {B : Type} `{ByteQueueLaws B}.
Context (split : list Z → Z).

Implicit Types (w : Worker B) (ws : list (Worker B)) (sv : Server B).

Definition live (w : Worker B) (s : Z) : Prop := is_Some (sockets w !! s).

(** The descriptors a worker has or will be given, and all those of the server. *)
Definition held (w : Worker B) : list Z := elements (dom (sockets w)) ++ pending (sendQueue w).
Definition all_fds (sv : Server B) (ws : list (Worker B)) : list Z :=
  news (readQueue sv) ++ concat (map held ws).

(** A request that may wait in the queue of worker [i] of [n]. *)
Definition queued_ok (n i : nat) (lis : Z) (m : Socketmessage) : Prop :=
  magic m = MAGIC ∧ 0 ≤ msg_s m < MAX_CONNECTION_FD ∧
  match msg_opcode m with
  | SM_OPCODE_CLOSE => True
  | SM_OPCODE_MESSAGE => 0 < payload_len m ∧ sendable m
  | SM_OPCODE_NEW_SOCKET => worker_index n (msg_s m) = i
  | SM_OPCODE_NEW_LISTENING => i = 0%nat ∧ msg_s m = lis
  | SM_OPCODE_SOL => msg_s m < Z.of_nat BUNDLE_SOL_MAX
  | SM_OPCODE_ESTABLISH => False
  end.

(** A message waiting for [receiveMessage]. *)
Definition arrived (m : Socketmessage) : Prop :=
  magic m = MAGIC ∧ 0 ≤ msg_s m < MAX_CONNECTION_FD ∧
  (msg_opcode m = SM_OPCODE_ESTABLISH ∨ msg_opcode m = SM_OPCODE_CLOSE ∨
   msg_opcode m = SM_OPCODE_MESSAGE ∨ msg_opcode m = SM_OPCODE_NEW_SOCKET).

(** Worker [i] of [n] is the one that serves [s]. *)
Definition home (n i : nat) (lis s : Z) : Prop :=
  worker_index n s = i ∨ i = 0%nat ∧ s = lis.

Definition member_ok (n i : nat) (lis : Z) (w : Worker B) : Prop :=
  worker_ok (all := false) w ∧ Forall (queued_ok n i lis) (sendQueue w) ∧ ∀ s, live w s → home n i lis s.

Definition owned (s : Z) (ws : list (Worker B)) : Prop := ∃ i w, ws !! i = Some w ∧ live w s.

(** What the messages [l] say about [s] agrees with the workers' sockets. *)
Definition tracks (l : list Socketmessage) (ws : list (Worker B)) (s : Z) : Prop :=
  ∃ b, life s l = Some b ∧ (b = true ↔ owned s ws).

(** [ws] are the workers of the running server [sv], [out] what it has delivered. *)
Record serving (ws : list (Worker B)) (out : list Socketmessage) (sv : Server B) : Prop := {
  se_processes : processes sv = map Some ws;
  se_nonempty : ws ≠ [];
  se_running : isstop sv = false;
  se_members : ∀ i w, ws !! i = Some w → member_ok (length ws) i (fd_listening sv) w;
  se_arrived : Forall arrived (readQueue sv);
  se_nodup : NoDup (all_fds sv ws);
  se_tracks : ∀ s, tracks (out ++ readQueue sv) ws s
}.

Lemma worker_index_lt n s : (0 < n)%nat → (worker_index n s < n)%nat.
Proof.
  intros Hn. unfold worker_index. destruct (Nat.eqb_spec n 1); [lia|].
  pose proof (Z.mod_pos_bound (u64 s) (Z.of_nat n - 1) ltac:(lia)). lia.
Qed.

Lemma on_worker_map ws sv s f : processes sv = map Some ws → ws ≠ [] →
  ∃ w, ws !! worker_index (length ws) s = Some w ∧
    on_worker s f sv = (w' ← f w; Ret (set_processes
      (map Some (<[worker_index (length ws) s := w']> ws)) sv)).
Proof.
  intros Hp Hne. unfold on_worker. rewrite Hp, length_map.
  assert (0 < length ws)%nat as Hlen by (destruct ws; [done|simpl; lia]).
  destruct (Nat.eqb_spec (length ws) 0); [lia|]. simpl.
  destruct (lookup_lt_is_Some_2 ws (worker_index (length ws) s)) as [w Hw];
    [by apply worker_index_lt|].
  exists w. split; [done|]. rewrite list_lookup_fmap, Hw. simpl.
  destruct (f w); simpl; [|done..]. by rewrite list_fmap_insert.
Qed.

(** The descriptors of the other workers. *)
Definition others (ws : list (Worker B)) (i : nat) : list Z := concat (map held (delete i ws)).

Lemma held_others ws i w : ws !! i = Some w → concat (map held ws) ≡ₚ held w ++ others ws i.
Proof.
  intros Hw. unfold others. change (held w ++ concat (map held (delete i ws)))
    with (concat (map held (w :: delete i ws))).
  pose proof (delete_Permutation ws i w Hw) as HP. revert HP. generalize (w :: delete i ws).
  intros l HP. clear Hw. induction HP as [|x l1 l2 _ IH|x y l1|l1 l2 l3 _ IH1 _ IH2]; simpl; [done| | |].
  - by rewrite IH.
  - solve_Permutation.
  - by rewrite IH1.
Qed.

Lemma others_insert ws i w' : (i < length ws)%nat → others (<[i := w']> ws) i = others ws i.
Proof.
  intros Hi. unfold others. f_equal. f_equal. apply list_eq. intros j.
  rewrite !list_lookup_delete. destruct (decide (j < i)%nat); rewrite list_lookup_insert_ne by lia; done.
Qed.

Lemma held_live w s : live w s → s ∈ held w.
Proof. intros Hs. apply elem_of_app. left. by apply elem_of_elements, elem_of_dom. Qed.

Lemma others_live ws i j w s : j ≠ i → ws !! j = Some w → live w s → s ∈ others ws i.
Proof.
  intros Hne Hj Hl. apply list_elem_of_In, in_concat. exists (held w).
  split; [|by apply list_elem_of_In, held_live]. apply in_map, list_elem_of_In.
  apply list_elem_of_lookup. exists (if decide (j < i)%nat then j else (j - 1)%nat).
  rewrite list_lookup_delete. repeat case_decide; try lia; [done|].
  replace (S (j - 1)) with j by lia. done.
Qed.

Lemma all_fds_split ws i w sv : ws !! i = Some w →
  all_fds sv ws ≡ₚ (news (readQueue sv) ++ held w) ++ others ws i.
Proof. intros Hw. unfold all_fds. rewrite (held_others ws i w Hw). by rewrite app_assoc. Qed.

(** A descriptor one worker has or will get belongs to no other. *)
Lemma held_unique ws out sv i w s j w2 : serving ws out sv → ws !! i = Some w → s ∈ held w →
  ws !! j = Some w2 → live w2 s → j = i.
Proof.
  intros Hs Hi Hin Hj Hl. destruct (decide (j = i)) as [|Hne]; [done|]. exfalso.
  pose proof (se_nodup _ _ _ Hs) as Hnd. rewrite (all_fds_split ws i w sv Hi) in Hnd.
  apply NoDup_app in Hnd as (_ & Hd & _). apply (Hd s); [apply elem_of_app; by right|].
  by apply (others_live ws i j w2).
Qed.

Lemma owned_insert ws i w w' s : ws !! i = Some w →
  (owned s (<[i := w']> ws) ↔ live w' s ∨ ∃ j w2, j ≠ i ∧ ws !! j = Some w2 ∧ live w2 s).
Proof.
  intros Hi. pose proof (lookup_lt_Some _ _ _ Hi) as Hlt. split.
  - intros (j & w2 & Hj & Hl). destruct (decide (j = i)) as [->|Hne].
    + rewrite list_lookup_insert_eq in Hj by done. injection Hj as <-. by left.
    + rewrite list_lookup_insert_ne in Hj by done. right. by exists j, w2.
  - intros [Hl|(j & w2 & Hne & Hj & Hl)].
    + exists i, w'. by rewrite list_lookup_insert_eq.
    + exists j, w2. by rewrite list_lookup_insert_ne.
Qed.

(** One worker and the read queue change. *)
Lemma serving_update ws out sv i w w' out' q' acc : serving ws out sv → ws !! i = Some w →
  member_ok (length ws) i (fd_listening sv) w' → Forall arrived q' →
  NoDup (acc ++ all_fds sv ws) →
  news q' ++ held w' ⊆+ acc ++ news (readQueue sv) ++ held w →
  (∀ s, tracks (out' ++ q') (<[i := w']> ws) s) →
  serving (<[i := w']> ws) out' (set_processes (map Some (<[i := w']> ws)) (set_readQueue q' sv)).
Proof.
  intros Hs Hi Hm Hq Hnd Hsub Ht. pose proof (lookup_lt_Some _ _ _ Hi) as Hlt.
  split; simpl; try done.
  - intros E. apply (f_equal length) in E. rewrite length_insert in E. simpl in E. lia.
  - apply Hs.
  - intros j w2 Hj. rewrite length_insert. destruct (decide (j = i)) as [->|Hne].
    + rewrite list_lookup_insert_eq in Hj by done. by injection Hj as <-.
    + rewrite list_lookup_insert_ne in Hj by done. by apply (se_members _ _ _ Hs).
  - rewrite (all_fds_split _ i w') by (by rewrite list_lookup_insert_eq). simpl.
    rewrite others_insert by done. rewrite (all_fds_split ws i w sv Hi) in Hnd.
    eapply submseteq_NoDup; [exact Hnd|].
    rewrite app_assoc. apply submseteq_app; [|done]. exact Hsub.
Qed.

(** A worker whose sockets are the same keeps what the messages track. *)
Lemma tracks_same ws i w w' l s : ws !! i = Some w → sockets w' = sockets w →
  tracks l ws s → tracks l (<[i := w']> ws) s.
Proof.
  intros Hi E (b & Hb & Ho). exists b. split; [done|]. rewrite Ho.
  rewrite <-(list_insert_id ws i w Hi) at 1. rewrite !(owned_insert ws i w) by done.
  unfold live at 1 3. by rewrite E.
Qed.

(** A request that adds no socket is queued. *)
Lemma push_serving ws out sv i w m : serving ws out sv → ws !! i = Some w →
  queued_ok (length ws) i (fd_listening sv) m → adds m = false →
  serving (<[i := pushMessage m w]> ws) out
    (set_processes (map Some (<[i := pushMessage m w]> ws)) sv).
Proof.
  intros Hs Hi Hm Ha. destruct (se_members _ _ _ Hs i w Hi) as (Hw & Hq & Hh).
  assert (set_processes (map Some (<[i := pushMessage m w]> ws)) sv =
    set_processes (map Some (<[i := pushMessage m w]> ws)) (set_readQueue (readQueue sv) sv)) as ->
    by done.
  apply (serving_update ws out sv i w _ out _ []); try done.
  - split_and!; [by apply set_sendQueue_ok| |done]. apply Forall_app. by split; [|constructor].
  - apply Hs.
  - apply Hs.
  - assert (held (pushMessage m w) = held w) as ->; [|done]. unfold held, pending. simpl.
    rewrite List.filter_app. simpl. by rewrite Ha, app_nil_r.
  - intros s. apply (tracks_same ws i w); [done|done|by apply Hs].
Qed.

(** A call that queues one request for the worker of [s]. *)
Lemma on_worker_push ws out sv s m : serving ws out sv →
  (∀ i, queued_ok (length ws) i (fd_listening sv) m) → adds m = false →
  ∃ ws', on_worker s (λ w, Ret (pushMessage m w)) sv = Ret (set_processes (map Some ws') sv) ∧
    serving ws' out (set_processes (map Some ws') sv).
Proof.
  intros Hs Hm Ha.
  destruct (on_worker_map ws sv s (λ w, Ret (pushMessage m w))) as (w & Hw & ->);
    [apply Hs|apply Hs|]. simpl.
  eexists. split; [done|]. by apply push_serving.
Qed.

Lemma pushMessage_msg_same m w : pushMessage_msg (msg_s m) m w = pushMessage m w.
Proof. by destruct m. Qed.

Lemma range_not_minus1 s : 0 ≤ s < MAX_CONNECTION_FD → negb (s =? -1) = true.
Proof. intros Hs. destruct (Z.eqb_spec s (-1)); [lia|done]. Qed.

(** A new descriptor moves from the read queue to its worker. *)
Lemma pass_new_serving ws out sv m q w : serving ws out sv → readQueue sv = m :: q →
  msg_opcode m = SM_OPCODE_NEW_SOCKET → ws !! worker_index (length ws) (msg_s m) = Some w →
  let ws' := <[worker_index (length ws) (msg_s m) := pushMessage m w]> ws in
  serving ws' out (set_processes (map Some ws') (set_readQueue q sv)).
Proof.
  intros Hs Hq Ho Hw ws'. destruct (se_members _ _ _ Hs _ w Hw) as (Hwo & Hqs & Hh).
  pose proof (se_arrived _ _ _ Hs) as Ha. rewrite Hq in Ha. apply Forall_cons in Ha as [Ha1 Ha2].
  apply (serving_update ws out sv _ w _ out q []); try done.
  - split_and!; [by apply set_sendQueue_ok| |done]. apply Forall_app. split; [done|].
    constructor; [|constructor]. destruct Ha1 as (? & ? & _). unfold queued_ok. by rewrite Ho.
  - apply Hs.
  - rewrite Hq. unfold held, pending, news. simpl. rewrite List.filter_app. simpl.
    unfold adds at 2, is_new at 2. rewrite Ho. simpl. rewrite map_app. simpl.
    apply Permutation_submseteq. solve_Permutation.
  - intros s. apply (tracks_same ws _ w); [done|done|]. pose proof (se_tracks _ _ _ Hs s) as Ht.
    rewrite Hq in Ht. destruct Ht as (b & Hb & Hb'). exists b. by rewrite life_skip_new in Hb.
Qed.

(** A message is handed to the application. *)
Lemma deliver_serving ws out sv m q : serving ws out sv → readQueue sv = m :: q →
  is_new m = false → serving ws (out ++ [m]) (set_readQueue q sv).
Proof.
  intros [Hp Hne Hr Hm Ha Hn Ht] Hq Ho. rewrite Hq in Ha, Ht. apply Forall_cons in Ha as [_ Ha].
  split; simpl; try done.
  - unfold all_fds, news in *. rewrite Hq in Hn. simpl in *. by rewrite Ho in Hn.
  - intros s. rewrite <-app_assoc. apply Ht.
Qed.

Lemma receive_serving : ∀ q ws out sv, serving ws out sv → readQueue sv = q →
  ∃ r sv' ws', receive_loop q sv = Ret (r, sv') ∧
    serving ws' (out ++ match r with Some m => [m] | None => [] end) sv'.
Proof.
  induction q as [|m q IH]; intros ws out sv Hs Hq.
  { exists None, sv, ws. by rewrite app_nil_r. }
  pose proof (se_arrived _ _ _ Hs) as Ha. rewrite Hq in Ha. apply Forall_cons in Ha as [Ha _].
  destruct Ha as (Hm & Hrange & Ho). simpl. rewrite Hm, range_not_minus1 by done. simpl.
  destruct (is_new m) eqn:En.
  - apply bool_decide_eq_true in En. rewrite En.
    destruct (on_worker_map ws (set_readQueue q sv) (msg_s m)
      (λ w, Ret (pushMessage_msg (msg_s m) m w))) as (w & Hw & ->); [apply Hs|apply Hs|]. simpl.
    rewrite pushMessage_msg_same. eapply IH; [by apply pass_new_serving|done].
  - exists (Some m), (set_readQueue q sv), ws. split; [|by apply deliver_serving].
    apply bool_decide_eq_false in En. by destruct Ho as [->|[->|[->| ?]]].
Qed.

(** What the kernel may report to worker [i]'s thread: it accepts descriptors that are
    not in use. *)
Definition thread_ok (sv : Server B) (ws : list (Worker B)) (ev : event) : Prop :=
  match ev with
  | EvPush _ => False
  | EvHandle ios _ _ => Forall room_ok ios
  | EvPoll s _ rios aios sios _ => 0 ≤ s < MAX_CONNECTION_FD ∧ Forall recv_ok rios ∧
      Forall accept_ok aios ∧ Forall room_ok sios ∧
      NoDup (accept_fds aios) ∧ Forall (λ fd, fd ∉ all_fds sv ws) (accept_fds aios)
  | EvCheck _ => True
  end.

Lemma held_head m q w : sendQueue w = m :: q → adds m = true → NoDup (held w) →
  sockets w !! msg_s m = None.
Proof.
  intros Hq Ha Hn. unfold held, pending in Hn. rewrite Hq in Hn. simpl in Hn. rewrite Ha in Hn.
  apply NoDup_app in Hn as (_ & Hd & _). apply eq_None_not_Some. intros Hl.
  apply (Hd (msg_s m)); [by apply elem_of_elements, elem_of_dom|]. simpl. by left.
Qed.

Lemma serving_nodup_held ws out sv i w : serving ws out sv → ws !! i = Some w → NoDup (held w).
Proof.
  intros Hs Hi. pose proof (se_nodup _ _ _ Hs) as Hn. rewrite (all_fds_split ws i w sv Hi) in Hn.
  apply NoDup_app in Hn as (Hn & _ & _). by apply NoDup_app in Hn as (_ & _ & Hn).
Qed.

(** The head of a queue is a request the worker can serve. *)
Lemma queued_request n i lis w m q : sendQueue w = m :: q → queued_ok n i lis m → NoDup (held w) →
  request_ok w m.
Proof.
  intros Hq (Hm & Hr & Ho) Hn. split; [done|]. right. split; [done|].
  destruct (msg_opcode m) eqn:E; try done; apply (held_head m q); try done;
    unfold adds; rewrite E; done.
Qed.

Lemma thread_event_ok ws out sv i w ev : serving ws out sv → ws !! i = Some w →
  thread_ok sv ws ev → event_ok (all := false) w ev.
Proof.
  intros Hs Hi He. destruct ev; simpl in *; [done| |by destruct He as (? & ? & ? & ? & _)|done].
  split; [done|]. split; [done|]. destruct (sendQueue w) as [|m q] eqn:Eq; [done|].
  destruct (se_members _ _ _ Hs i w Hi) as (_ & Hq & _). rewrite Eq in Hq.
  apply Forall_cons in Hq as [Hq _].
  by apply (queued_request _ _ _ w m q Eq Hq), (serving_nodup_held ws out sv i).
Qed.

(** The descriptors a thread's step leaves with its worker were there before. *)
Lemma step_held w w' ev : NoDup (held w) → sendQueue w' = event_queue w ev →
  (∀ m, ev ≠ EvPush m) →
  (∀ s, live w' s → live w s ∨ event_add w ev = Some s) → held w' ⊆+ held w.
Proof.
  intros Hn Hq He Hl. unfold held. rewrite Hq.
  assert (event_add w ev = None → elements (dom (sockets w')) ⊆+ elements (dom (sockets w))) as Hsub.
  { intros Hnone. apply elements_submseteq. intros s Hs%elem_of_dom.
    destruct (Hl s Hs) as [?|Hs2]; [by apply elem_of_dom|congruence]. }
  destruct ev as [m|ios now|s pe rios aios sios now|now]; [by destruct (He m)| | |];
    try (by apply submseteq_app; [apply Hsub|]).
  simpl. destruct (sendQueue w) as [|m q] eqn:Eq.
  { apply submseteq_app; [|done]. apply Hsub. simpl. by rewrite Eq. }
  simpl in Hsub, Hl. rewrite Eq in Hsub, Hl. unfold add_of in Hsub, Hl.
  destruct (adds m) eqn:Ea; [|by unfold pending; simpl; rewrite Ea; apply submseteq_app; [apply Hsub|]].
  pose proof (held_head m q w Eq Ea Hn) as Hnone.
  assert (elements (dom (sockets w')) ⊆+ msg_s m :: elements (dom (sockets w))) as Hd.
  { rewrite <-elements_union_singleton by (by apply not_elem_of_dom). apply elements_submseteq.
    intros s Hs%elem_of_dom. apply elem_of_union. destruct (Hl s Hs) as [?|[= ->]].
    - right. by apply elem_of_dom.
    - left. by apply elem_of_singleton. }
  unfold pending. simpl. rewrite Ea. simpl. rewrite <-Permutation_middle.
  rewrite app_comm_cons. by apply submseteq_app.
Qed.

Lemma event_add_held w ev s : event_add w ev = Some s → s ∈ held w.
Proof.
  destruct ev as [m|ios now| |]; simpl; try done. destruct (sendQueue w) as [|m q] eqn:Eq; [done|].
  unfold add_of, held, pending. rewrite Eq. simpl. destruct (adds m); [|done]. intros [= <-].
  apply elem_of_app. right. simpl. by left.
Qed.

Lemma event_add_queued n i lis w ev s : Forall (queued_ok n i lis) (sendQueue w) →
  event_add w ev = Some s → home n i lis s.
Proof.
  intros Hq. destruct ev; simpl; try done. destruct (sendQueue w) as [|m q]; [done|].
  apply Forall_cons in Hq as [(_ & _ & Ho) _]. unfold add_of. destruct (adds m) eqn:Ea; [|done].
  intros [= <-]. apply bool_decide_eq_true in Ea. destruct Ea as [Ea|Ea]; rewrite Ea in Ho; [by left|].
  right. by destruct Ho.
Qed.

Lemma event_queue_queued n i lis w ev : (∀ m, ev ≠ EvPush m) →
  Forall (queued_ok n i lis) (sendQueue w) → Forall (queued_ok n i lis) (event_queue w ev).
Proof.
  intros He Hq. destruct ev as [m| | |]; simpl; try done; [by destruct (He m)|].
  destruct Hq; [constructor|done].
Qed.

(** The messages a step pushes keep the descriptors tracked. *)
Lemma step_tracks ws out sv i w w' ms add : serving ws out sv → ws !! i = Some w →
  worker_ok (all := false) w' → recvQueue w' = recvQueue w ++ ms → Forall (reported w w') ms →
  (∀ s, live w' s → live w s ∨ add = Some s) → (∀ s, add = Some s → s ∈ held w) →
  ∀ s, tracks (out ++ readQueue sv ++ ms) (<[i := w']> ws) s.
Proof.
  intros Hs Hi Hw' Hr Hms Hl Hadd s. destruct (se_members _ _ _ Hs i w Hi) as (Hw & _ & _).
  destruct (se_tracks _ _ _ Hs s) as (b & Hb & Hown).
  pose proof (owned_insert ws i w w s Hi) as Hold. rewrite (list_insert_id ws i w Hi) in Hold.
  pose proof (owned_insert ws i w w' s Hi) as Hnew. rewrite app_assoc. unfold tracks.
  destruct (decide (is_Some (sockets w !! s) ∨ is_Some (sockets w' !! s))) as [Hin|Hout].
  - assert (s ∈ held w) as Hheld.
    { destruct Hin as [Hin|Hin]; [by apply held_live|].
      destruct (Hl s Hin) as [?|?]; [by apply held_live|by apply Hadd]. }
    assert (¬ ∃ j w2, j ≠ i ∧ ws !! j = Some w2 ∧ live w2 s) as Hno.
    { intros (j & w2 & Hne & Hj & Hl2). apply Hne. by apply (held_unique ws out sv i w s j w2). }
    exists (bool_decide (is_Some (sockets w' !! s))). split.
    + rewrite life_fold, Hb. rewrite <-(wo_life w' Hw' s), Hr, life_fold, (wo_life w Hw s).
      f_equal. f_equal. apply eq_bool_prop_intro. rewrite Is_true_true, Hown, Hold, bool_decide_spec.
      unfold live. tauto.
    + rewrite bool_decide_eq_true, Hnew. unfold live. tauto.
  - exists b. split.
    + rewrite life_other; [done|]. eapply Forall_impl; [exact Hms|].
      intros m [_ [[Hm _]|[_ Hm]]]; [by right|]. left. intros <-. tauto.
    + rewrite Hown, Hold, Hnew. unfold live. tauto.
Qed.

Lemma reported_arrived w w' ms : worker_ok (all := false) w → worker_ok (all := false) w' → Forall (reported w w') ms →
  Forall arrived ms.
Proof.
  intros Hw Hw' Hms. eapply Forall_impl; [exact Hms|]. intros m [Hm [[Ho Hr]|[Ho Hl]]].
  - split; [done|]. split; [done|]. tauto.
  - assert (0 ≤ msg_s m < MAX_CONNECTION_FD) by (destruct Hl as [[so Hl]|[so Hl]];
      [by apply (lookup_range (all := false) _ so w)|by apply (lookup_range (all := false) _ so w')]).
    split; [done|]. split; [done|]. tauto.
Qed.

Lemma worker_step_serving ws out sv i ev : serving ws out sv → thread_ok sv ws ev →
  ∃ sv' ws', worker_step split i ev sv = Ret sv' ∧ serving ws' out sv'.
Proof.
  intros Hs He. unfold worker_step. rewrite (se_processes _ _ _ Hs), list_lookup_fmap.
  destruct (ws !! i) as [w|] eqn:Hi; simpl; [|by exists sv, ws].
  assert (∀ m, ev ≠ EvPush m) as Hne by (by intros m ->).
  destruct (se_members _ _ _ Hs i w Hi) as (Hw & Hq & Hh).
  destruct (step_ok split ev w Hw (thread_event_ok ws out sv i w ev Hs Hi He))
    as (w' & acc & -> & (Hw' & Hl & ms & Hr & Hms & Hacc) & Ha & Hq'). simpl.
  rewrite Hr, drop_app_length, <-list_fmap_insert. eexists _, _. split; [done|].
  pose proof (serving_nodup_held ws out sv i w Hs Hi) as Hnh.
  apply (serving_update ws out sv i w w' out _ acc); try done.
  - split_and!; [done|rewrite Hq'; by apply event_queue_queued|].
    intros s Hs'. destruct (Hl s Hs') as [?|?]; [by apply Hh|by apply (event_add_queued _ _ _ w ev)].
  - apply Forall_app. split; [apply Hs|]. by apply (reported_arrived w w').
  - pose proof (se_nodup _ _ _ Hs) as Hn. destruct Ha as [->| ->]; [done|].
    destruct ev as [| |s pe rios aios sios now|]; simpl in *; try done.
    destruct He as (_ & _ & _ & _ & Hnd & Hfresh). rewrite Forall_forall in Hfresh.
    apply NoDup_app. by split_and!.
  - rewrite news_app, Hacc. rewrite <-!app_assoc. rewrite Permutation_app_swap_app.
    apply submseteq_app; [done|]. apply submseteq_app; [done|]. by apply (step_held w w' ev).
  - by apply (step_tracks ws out sv i w w' ms (event_add w ev)), event_add_held.
Qed.

(** The calls an application may make while the server runs, and what the kernel may
    report to the threads. *)
Definition sv_event_ok (sv : Server B) (ev : sv_event) : Prop :=
  match ev with
  | SvReceive | SvSetopt _ _ _ | SvStart _ => True
  | SvStop => False
  | SvSend s bytes => 0 ≤ s < MAX_CONNECTION_FD ∧ bytes ≠ [] ∧ Z.of_nat (length bytes) < 2 ^ 32
  | SvForward s m => 0 ≤ s < MAX_CONNECTION_FD ∧ magic m = MAGIC ∧
      msg_opcode m = SM_OPCODE_MESSAGE ∧ 0 < payload_len m ∧ sendable m
  | SvClose s => 0 ≤ s < MAX_CONNECTION_FD
  | SvWorker _ ev => thread_ok sv (omap id (processes sv)) ev
  end.

Fixpoint sv_trace_ok (sv : Server B) (evs : list sv_event) : Prop :=
  match evs with
  | [] => True
  | ev :: evs => sv_event_ok sv ev ∧
      ∀ out sv', sv_step split ev sv = Ret (out, sv') → sv_trace_ok sv' evs
  end.

Lemma omap_map_Some ws : omap id (map Some ws) = ws.
Proof. induction ws as [|w ws IH]; [done|]. change (w :: omap id (map Some ws) = w :: ws). by rewrite IH. Qed.

Lemma live_workers_map ws : live_workers (map Some ws) = Ret ws.
Proof. induction ws as [|w ws IH]; simpl; [done|]. by rewrite IH. Qed.

Lemma allocate_sendable s bytes : bytes ≠ [] → Z.of_nat (length bytes) < 2 ^ 32 →
  let m := allocateMessage s SM_OPCODE_MESSAGE bytes in 0 < payload_len m ∧ sendable m.
Proof.
  intros Hb Hl. unfold allocateMessage, sendable, message_bytes. cbn [payload_len payload].
  assert (u32 (Z.of_nat (length bytes)) = Z.of_nat (length bytes)) as ->
    by (apply (wrap_id 32); unfold fits; lia).
  rewrite Nat2Z.id, firstn_all. destruct bytes; [done|]. simpl. split; [lia|done].
Qed.

Lemma push_msg_serving ws out sv s m : serving ws out sv → 0 ≤ s < MAX_CONNECTION_FD →
  (∀ i, queued_ok (length ws) i (fd_listening sv) m) → adds m = false →
  ∃ ws' sv', (_ ← cxx_assert (negb (s =? -1)); on_worker s (λ w, Ret (pushMessage m w)) sv) = Ret sv' ∧
    serving ws' out sv'.
Proof.
  intros Hs Hr Hm Ha. rewrite range_not_minus1 by done. simpl.
  destruct (on_worker_push ws out sv s m Hs Hm Ha) as (ws' & -> & Hs'). by eexists _, _.
Qed.

(** A request to every worker: [setsockopt]. *)
Lemma push_all_serving ws out sv f (m : Socketmessage) : serving ws out sv →
  (∀ w, f w = pushMessage m w) → adds m = false →
  (∀ i, queued_ok (length ws) i (fd_listening sv) m) →
  serving (map f ws) out (set_processes (map Some (map f ws)) sv).
Proof.
  intros [Hp Hne Hr Hm Ha Hn Ht] Hf Hadd Hq. split; simpl; try done.
  - by destruct ws.
  - intros i w. rewrite list_lookup_fmap, length_map, fmap_Some. intros (w0 & Hi & ->).
    destruct (Hm i w0 Hi) as (Hw & Hqs & Hh). rewrite Hf.
    split_and!; [by apply set_sendQueue_ok| |done]. apply Forall_app. by split; [|constructor].
  - unfold all_fds in *. simpl. rewrite map_map.
    replace (map (λ x, held (f x)) ws) with (map held ws); [done|]. apply map_ext. intros w.
    rewrite Hf. unfold held, pending. simpl. rewrite List.filter_app. simpl.
    by rewrite Hadd, app_nil_r.
  - intros s. destruct (Ht s) as (b & Hb & Ho). exists b. split; [done|]. rewrite Ho.
    split; intros (i & w & Hi & Hl).
    + exists i, (f w). rewrite list_lookup_fmap, Hi. split; [done|]. by rewrite Hf.
    + rewrite list_lookup_fmap in Hi. apply fmap_Some in Hi as (w0 & Hi & ->).
      exists i, w0. rewrite Hf in Hl. by split.
Qed.

Lemma setopt_serving ws out sv o v len : serving ws out sv →
  ∃ r sv' ws', server_setsockopt o v len sv = Ret (r, sv') ∧ serving ws' out sv'.
Proof.
  intros Hs. unfold server_setsockopt. destruct ((0 <? o) && (o <? Z.of_nat BUNDLE_SOL_MAX)) eqn:Eo;
    [|by exists false, sv, ws].
  destruct v as [v|]; [|by exists false, sv, ws]. destruct (len <=? 8) eqn:El; [|by exists false, sv, ws].
  rewrite (se_processes _ _ _ Hs), live_workers_map. simpl. eexists _, _, _. split; [done|].
  set (f := λ w, snd (setsockopt o (Some v) len w)).
  replace (map (λ w, Some (snd (setsockopt o (Some v) len w))) ws) with (map Some (map f ws))
    by (by rewrite map_map).
  pose (m := allocateMessageLen o SM_OPCODE_SOL (v mod 2 ^ (8 * len)) []).
  assert (serving (map f ws) out (set_processes (map Some (map f ws)) sv)) as [? ? ? ? ? ? ?].
  { apply (push_all_serving ws out sv f m); [done| |done|].
    - intros w. unfold f, setsockopt. rewrite Eo, El. done.
    - apply andb_true_iff in Eo as [E1%Z.ltb_lt E2%Z.ltb_lt]. intros i.
      assert (Z.of_nat BUNDLE_SOL_MAX = 128) as E128 by done.
      assert (MAX_CONNECTION_FD = 65536) as Emax by done.
      unfold queued_ok, m. simpl. lia. }
  by split.
Qed.

Lemma sv_step_serving ws out sv ev : serving ws out sv → sv_event_ok sv ev →
  ∃ o sv' ws', sv_step split ev sv = Ret (o, sv') ∧ serving ws' (out ++ o) sv'.
Proof.
  intros Hs He. destruct ev as [|s bytes|s m|s|o v len|k| |i ev]; cbn [sv_step sv_event_ok] in *.
  - destruct (receive_serving (readQueue sv) ws out sv Hs eq_refl) as (r & sv' & ws' & E & Hs').
    unfold receiveMessage. rewrite E. by eexists _, _, _.
  - destruct He as (Hr & Hb & Hl). destruct (allocate_sendable s bytes Hb Hl) as [Hp Hsb].
    destruct (push_msg_serving ws out sv s (allocateMessage s SM_OPCODE_MESSAGE bytes))
      as (ws' & sv' & E & Hs'); [done|done|by intros i|done|].
    eexists [], sv', ws'. rewrite app_nil_r. split; [|done]. unfold quietly, sendMessage.
    replace (pushMessage_bytes s bytes) with (λ w, Ret (pushMessage (allocateMessage s SM_OPCODE_MESSAGE bytes) w))
      by (unfold pushMessage_bytes; by rewrite bool_decide_eq_false_2). by rewrite E.
  - destruct He as (Hr & Hm & Ho & Hp & Hsb).
    destruct (push_msg_serving ws out sv s (MkMessage (magic m) s (msg_opcode m) (payload_len m) (payload m)))
      as (ws' & sv' & E & Hs'); [done|done|by intros i; unfold queued_ok; simpl; rewrite Ho| |].
    { unfold adds. simpl. by rewrite Ho. }
    eexists [], sv', ws'. rewrite app_nil_r. split; [|done]. unfold quietly, sendMessage_msg.
    by setoid_rewrite E.
  - destruct (push_msg_serving ws out sv s (allocateMessage0 s SM_OPCODE_CLOSE))
      as (ws' & sv' & E & Hs'); [done|done|by intros i|done|].
    eexists [], sv', ws'. rewrite app_nil_r. split; [|done]. unfold quietly, close.
    by setoid_rewrite E.
  - destruct (setopt_serving ws out sv o v len Hs) as (r & sv' & ws' & -> & Hs').
    eexists [], sv', ws'. by rewrite app_nil_r.
  - unfold start. rewrite (se_running _ _ _ Hs). eexists [], sv, ws. by rewrite app_nil_r.
  - done.
  - rewrite (se_processes _ _ _ Hs), omap_map_Some in He.
    destruct (worker_step_serving ws out sv i ev Hs He) as (sv' & ws' & E & Hs').
    eexists [], sv', ws'. rewrite app_nil_r. split; [|done]. unfold quietly. by rewrite E.
Qed.

(** The number of connections of all workers. *)
Definition connections (ws : list (Worker B)) : nat := sum_list (map (λ w, size (sockets w)) ws).

Lemma live_fds_sub ws : concat (map (λ w, elements (dom (sockets w))) ws) ⊆+ concat (map held ws).
Proof.
  induction ws as [|w ws IH]; simpl; [done|]. unfold held at 1. rewrite <-app_assoc.
  apply submseteq_app; [done|]. etransitivity; [exact IH|]. apply submseteq_inserts_l. done.
Qed.

Lemma connections_length ws :
  connections ws = length (concat (map (λ w, elements (dom (sockets w))) ws)).
Proof.
  induction ws as [|w ws IH]; [done|]. unfold connections in *. simpl. rewrite length_app, IH.
  f_equal. by rewrite <-size_dom.
Qed.

Lemma connections_bound ws out sv : serving ws out sv →
  Z.of_nat (connections ws) ≤ MAX_CONNECTION_FD.
Proof.
  intros Hs. rewrite connections_length. set (l := concat _).
  assert (NoDup l) as Hl.
  { pose proof (se_nodup _ _ _ Hs) as Hn. apply NoDup_app in Hn as (_ & _ & Hn).
    eapply submseteq_NoDup; [exact Hn|apply live_fds_sub]. }
  rewrite <-(size_list_to_set (C := gset Z) l Hl). apply range_size; [done|].
  intros s Hin%elem_of_list_to_set. apply list_elem_of_In, in_concat in Hin as (els & Hels & Hin).
  apply in_map_iff in Hels as (w & <- & Hw). apply list_elem_of_In in Hin, Hw.
  apply list_elem_of_lookup in Hw as [i Hi]. apply elem_of_elements, elem_of_dom in Hin as [so Hso].
  apply (lookup_range (all := false) s so w); [|done]. by apply (se_members _ _ _ Hs i w Hi).
Qed.

Lemma size_fold ws v : 0 ≤ v → v + Z.of_nat (connections ws) < 2 ^ 32 →
  Forall (λ w, totalConnections w = Z.of_nat (size (sockets w))) ws →
  fold_left (λ v w, u32 (v + totalConnections w)) ws v = v + Z.of_nat (connections ws).
Proof.
  revert v. induction ws as [|w ws IH]; intros v Hv Hb Hf; [by rewrite Z.add_0_r|].
  apply Forall_cons in Hf as [Hw Hf]. unfold connections in *. simpl in *.
  unfold u32 at 2. rewrite wrap_id by (unfold fits; lia). rewrite IH by (done || lia). lia.
Qed.

Lemma server_size_serving ws out sv : serving ws out sv →
  server_size sv = Ret (Z.of_nat (connections ws)).
Proof.
  intros Hs. unfold server_size. rewrite (se_processes _ _ _ Hs), live_workers_map. simpl. f_equal.
  pose proof (connections_bound ws out sv Hs) as Hb. unfold MAX_CONNECTION_FD in Hb.
  apply (size_fold ws 0); [done|lia|].
  apply Forall_forall. intros w [i Hi]%list_elem_of_lookup.
  eapply (wo_total (all := false)), (se_members _ _ _ Hs i w Hi).
Qed.

Lemma sv_run_serving evs : ∀ ws out sv, serving ws out sv → sv_trace_ok sv evs →
  ∃ out' sv' ws', sv_run split evs out sv = Ret (out', sv') ∧ serving ws' out' sv'.
Proof.
  induction evs as [|ev evs IH]; intros ws out sv Hs Ht; simpl; [by exists out, sv, ws|].
  destruct Ht as [He Ht]. destruct (sv_step_serving ws out sv ev Hs He) as (o & sv1 & ws1 & E & Hs1).
  rewrite E. simpl. apply (IH ws1); [done|by apply (Ht o)].
Qed.

Lemma start_serving k n lis o cl sv0 : 0 ≤ k_socket k < MAX_CONNECTION_FD →
  start k (MkServer n [] [] lis true o cl) = Ret (true, sv0) →
  serving (addSocket (k_socket k) true new_Worker :: replicate (Z.to_nat n) new_Worker) [] sv0.
Proof.
  intros Hk. unfold start, close_listening. cbn [isstop negb set_isstop fd_listening].
  intros E. assert (sv0 = MkServer n [] (map Some (addSocket (k_socket k) true new_Worker ::
    replicate (Z.to_nat n) new_Worker)) (k_socket k) false o (sclosed sv0)) as ->.
  { revert E. destruct (0 <? lis); repeat case_match; try done; simpl; intros [= <-];
      rewrite fmap_replicate; reflexivity. }
  clear E. split; simpl; try done.
  - intros [|i] w Hi; simpl in Hi.
    + injection Hi as <-. split_and!; [by apply set_sendQueue_ok, worker_ok_new| |intros s []; done].
      constructor; [|constructor]. split; [done|]. split; [exact Hk|done].
    + apply lookup_replicate in Hi as [-> _].
      split_and!; [apply worker_ok_new|constructor|intros s []; done].
  - unfold all_fds. simpl. assert (concat (map held (replicate (Z.to_nat n) new_Worker)) = []) as ->;
      [|by apply NoDup_singleton].
    induction (Z.to_nat n) as [|m IH]; [done|]. simpl. by rewrite IH.
  - intros s. exists false. split; [done|]. split; [done|]. intros (i & w & Hi & [so Hl]).
    destruct i as [|i]; simpl in Hi; [by injection Hi as <-|].
    by apply lookup_replicate in Hi as [-> _].
Qed.

(** C1 (invariant): the running server.  After [start], whatever the application calls
    (with descriptors below 65536 and non-empty payloads) and however the worker threads
    interleave, with the kernel accepting only descriptors not in use: nothing fails an
    assertion, touches a deleted worker or leaves a table.  Every connection is served by
    the one worker [getWorkerProcess] names, so [close] and [sendMessage] reach it; no
    descriptor has two owners; for each descriptor the delivered and waiting messages
    alternate ESTABLISH, messages, CLOSE, and are open exactly while a worker has the
    socket; [size] is the number of connections. *)
Theorem server_serves k n lis o cl sv0 evs :
  0 ≤ k_socket k < MAX_CONNECTION_FD →
  start k (MkServer n [] [] lis true o cl) = Ret (true, sv0) → sv_trace_ok sv0 evs →
  ∃ out sv ws, sv_run split evs [] sv0 = Ret (out, sv) ∧ processes sv = map Some ws ∧
    (∀ i w s, ws !! i = Some w → live w s → home (length ws) i (fd_listening sv) s) ∧
    (∀ i j w w' s, ws !! i = Some w → ws !! j = Some w' → live w s → live w' s → i = j) ∧
    (∀ s, tracks (out ++ readQueue sv) ws s) ∧
    server_size sv = Ret (Z.of_nat (connections ws)).
Proof.
  intros Hk Hst Ht. destruct (sv_run_serving evs _ [] sv0 (start_serving _ _ _ _ _ _ Hk Hst) Ht)
    as (out & sv & ws & E & Hs).
  exists out, sv, ws. split_and!; [done|apply Hs| | |apply Hs|by apply (server_size_serving ws out)].
  - intros i w s Hi. by apply (se_members _ _ _ Hs).
  - intros i j w w' s Hi Hj Hl Hl'. symmetry. apply (held_unique ws out sv i w s j w'); try done.
    by apply held_live.
Qed.

(** ** Stopping *)

(** The descriptors a worker closes when it is deleted. *)
Definition closes_of (w : Worker B) : list Z :=
  merge_sort Z.le (elements (dom (sockets w))) ++
  map msg_s (List.filter (λ m, bool_decide (msg_opcode m = SM_OPCODE_NEW_SOCKET)) (sendQueue w)).

Lemma stop_worker_member n i lis w : member_ok n i lis w → WorkerProcess.stop w = false →
  stop_worker w = Ret (closes_of w).
Proof.
  intros (_ & Hq & _) Hst. unfold stop_worker, cxx_assert. rewrite Hst.
  assert (forallb (λ m, magic m =? MAGIC) (sendQueue w) = true) as ->; [|done].
  apply forallb_forall. intros m Hm%list_elem_of_In. rewrite Forall_forall in Hq.
  destruct (Hq m Hm) as (-> & _). done.
Qed.

Lemma delete_workers_all (ws : list (Worker B)) :
  Forall (λ w, stop_worker w = Ret (closes_of w)) ws →
  delete_workers (map Some ws) = Ret (concat (map closes_of ws)).
Proof.
  induction 1 as [|w ws Hw Hws IH]; simpl; [done|]. rewrite Hw. simpl. by rewrite IH.
Qed.

(** The server [stop] leaves: every pointer dangles. *)
Definition stopped (ws : list (Worker B)) (sv : Server B) : Server B :=
  MkServer (workerNumber sv) [] (map (λ _, None) ws) (-1) true (sopts sv)
    (sclosed sv ++ concat (map closes_of ws) ++ [fd_listening sv]).

Lemma stop_serving ws out sv : serving ws out sv → Forall (λ w, WorkerProcess.stop w = false) ws →
  0 < fd_listening sv → do_stop sv = Ret (stopped ws sv).
Proof.
  intros Hs Hst Hl. unfold do_stop. rewrite (se_running _ _ _ Hs), (se_processes _ _ _ Hs).
  rewrite delete_workers_all.
  - simpl. unfold close_listening, stopped. simpl. rewrite (proj2 (Z.ltb_lt 0 _) Hl).
    unfold set_fd_listening, add_sclosed. simpl. by rewrite <-app_assoc, map_map.
  - apply Forall_forall. intros w [i Hi]%list_elem_of_lookup.
    apply (stop_worker_member (length ws) i (fd_listening sv)); [by apply (se_members _ _ _ Hs)|].
    rewrite Forall_lookup in Hst. by apply (Hst i).
Qed.

Lemma on_worker_dangling ws s f sv : ws ≠ [] → processes sv = map (λ _, None) ws →
  on_worker s f sv = Undef.
Proof.
  intros Hne Hp. unfold on_worker. rewrite Hp, length_map.
  assert (0 < length ws)%nat as Hlen by (destruct ws; [done|simpl; lia]).
  destruct (Nat.eqb_spec (length ws) 0); [lia|]. simpl.
  destruct (lookup_lt_is_Some_2 ws (worker_index (length ws) s)) as [w Hw];
    [by apply worker_index_lt|].
  by rewrite list_lookup_fmap, Hw.
Qed.

(** Whatever [start] answers after [stop], the workers are deleted again. *)
Lemma start_stopped ws sv k : ws ≠ [] →
  start k (stopped ws sv) = Undef ∨
  ∃ sv2, start k (stopped ws sv) = Ret (false, sv2) ∧ do_stop sv2 = Undef.
Proof.
  intros Hne. unfold start, stopped. cbn. destruct ws as [|w ws]; [done|]. cbn.
  repeat case_match; try (by left); right; eexists; (split; [reflexivity|]); reflexivity.
Qed.

(** [stop] leaves the pointers to the deleted workers in [_processes].  After
    it a [start] that gets its socket deletes them a second time, [sendMessage], [close]
    and [size] use them, and after a [start] that fails, which leaves the server marked as
    running, the next [stop] deletes them again: all undefined.  While the master has the
    listening socket, [stop] closes that descriptor twice. *)
Theorem stopped_server_dangles ws out sv :
  serving ws out sv → Forall (λ w, WorkerProcess.stop w = false) ws → 0 < fd_listening sv →
  ∃ sv' cl, do_stop sv = Ret sv' ∧ isstop sv' = true ∧ readQueue sv' = [] ∧
    sclosed sv' = sclosed sv ++ cl ++ [fd_listening sv] ∧
    (∀ w, ws !! 0%nat = Some w → live w (fd_listening sv) → fd_listening sv ∈ cl) ∧
    (∀ k, start k sv' = Undef ∨ ∃ sv2, start k sv' = Ret (false, sv2) ∧ do_stop sv2 = Undef) ∧
    (∀ k, 0 ≤ k_socket k → k_reuse k = true → k_nonblock k = true → k_bind k = 0 → k_listen k = 0 →
       start k sv' = Undef) ∧
    (∀ s bytes, s ≠ -1 → sendMessage s bytes sv' = Undef ∧ close s sv' = Undef) ∧
    server_size sv' = Undef.
Proof.
  intros Hs Hst Hl. exists (stopped ws sv), (concat (map closes_of ws)).
  pose proof (se_nonempty _ _ _ Hs) as Hne. pose proof (stop_serving ws out sv Hs Hst Hl) as E.
  destruct ws as [|w0 ws]; [done|]. split_and!; [exact E|done|done|done|..].
  - intros w [= ->] Hlive. simpl. apply elem_of_app. left. apply elem_of_app. left.
    rewrite merge_sort_Permutation. by apply elem_of_elements, elem_of_dom.
  - intros k. by apply start_stopped.
  - intros k H1 H2 H3 H4 H5. unfold start, stopped. cbn.
    by rewrite (proj2 (Z.ltb_ge _ 0)), H2, H3, H4, H5 by done.
  - intros s bytes Hs1. unfold sendMessage, close. rewrite (proj2 (Z.eqb_neq s (-1))) by done. simpl.
    by split; apply (on_worker_dangling (w0 :: ws)).
  - done.
Qed.
End ServerProofs.

(** A server with two workers: it listens on 5, accepts 7, reads a message from it,
    answers, and delivers the listener's ESTABLISH first. *)
Definition demo_start : start_io := StartIo 5 true true 0 0.
Definition demo_events : list sv_event :=
  [SvWorker 0 (EvHandle [] true 100);
   SvWorker 0 (EvPoll 5 (PollReady true false) [] [AFd 7; AAgain] [] 101);
   SvReceive; SvReceive; SvWorker 2 (EvHandle [] true 102);
   SvWorker 2 (EvPoll 7 (PollReady true true) [RData [2; 9]; RAgain] [] [] 103);
   SvReceive; SvSend 7 [4]; SvReceive].

Definition demo_server : Server (list Z) :=
  match start demo_start (MkServer 2 [] [] (-1) true [] []) with Ret (_, sv) => sv | _ => new_Server 0 end.

Ltac demo_event := cbn [sv_event_ok thread_ok];
  repeat match goal with
  | |- True => exact I
  | |- _ ∧ _ => split
  | |- Forall recv_ok _ => apply Forall_cons; split; [unfold recv_ok, readlen; simpl; lia|]
  | |- Forall (λ fd, fd ∉ _) _ => apply (bool_decide_unpack _); vm_compute; exact I
  | |- Forall accept_ok _ => repeat constructor; lia
  | |- Forall _ _ => constructor
  | |- NoDup _ => apply (bool_decide_unpack _); vm_compute; exact I
  | |- _ => done
  end.
Ltac demo_next := let E := fresh in intros ? ? E; vm_compute in E; injection E as <- <-.

Lemma demo_trace_ok : sv_trace_ok byte_split demo_server demo_events.
Proof. repeat (split; [demo_event|demo_next]). exact I. Qed.

Lemma server_serves_witness :
  ∃ out sv ws, sv_run byte_split demo_events [] demo_server = Ret (out, sv) ∧
    processes sv = map Some ws ∧ server_size sv = Ret (Z.of_nat (connections ws)).
Proof.
  destruct (server_serves byte_split demo_start 2 (-1) [] [] demo_server demo_events)
    as (out & sv & ws & E & Hp & _ & _ & _ & Hz).
  - unfold MAX_CONNECTION_FD. simpl. lia.
  - vm_compute. reflexivity.
  - exact demo_trace_ok.
  - exists out, sv, ws. split; [exact E|]. split; [exact Hp|exact Hz].
Defined.

Lemma stopped_server_dangles_witness :
  ∃ sv', do_stop demo_server = Ret sv' ∧ start demo_start sv' = Undef.
Proof.
  destruct (stopped_server_dangles
    (addSocket 5 true new_Worker :: replicate 2 new_Worker) [] demo_server)
    as (sv' & cl & E & _ & _ & _ & _ & _ & Hk & _).
  - apply (start_serving demo_start 2 (-1) [] []); [unfold MAX_CONNECTION_FD; simpl; lia|].
    vm_compute. reflexivity.
  - repeat constructor.
  - vm_compute. reflexivity.
  - exists sv'. split; [exact E|]. apply Hk; try reflexivity. simpl. lia.
Defined.

(** ** What the protocol servers use of a SocketServer *)

Class SocketServerApi (T : Type) := {
  api_receive : T → outcome (option Socketmessage * T);
  api_send : Z → list Z → T → outcome T;
  api_close : Z → T → outcome T;
  api_stop : T → outcome T;
  api_pending : T → nat                (* the messages waiting to be received *)
}.

(** Receiving takes a message off, the other calls add none: loops that receive until
    there is no message end. *)
Class SocketServerLaws (T : Type) `{SocketServerApi T} : Prop := {
  api_receive_less sv m sv' : api_receive sv = Ret (Some m, sv') → (api_pending sv' < api_pending sv)%nat;
  api_receive_none sv sv' : api_receive sv = Ret (None, sv') → api_pending sv' = 0%nat;
  api_send_same s bytes sv sv' : api_send s bytes sv = Ret sv' → api_pending sv' = api_pending sv;
  api_close_same s sv sv' : api_close s sv = Ret sv' → api_pending sv' = api_pending sv;
  api_stop_less sv sv' : api_stop sv = Ret sv' → (api_pending sv' ≤ api_pending sv)%nat
}.

#[export] Instance Server_api {B} `{ByteQueue B} : SocketServerApi (Server B) := {|
  api_receive := receiveMessage; api_send := sendMessage; api_close := close; api_stop := do_stop;
  api_pending sv := length (readQueue sv)
|}.

Lemma on_worker_queue {B} s f (sv sv' : Server B) : on_worker s f sv = Ret sv' → readQueue sv' = readQueue sv.
Proof.
  intros (u & _ & E)%bind_Ret. repeat case_match; try done.
  apply bind_Ret in E as (w' & _ & E). by injection E as <-.
Qed.

Lemma receive_loop_less {B} `{ByteQueue B} : ∀ q (sv : Server B) m sv', receive_loop q sv = Ret (Some m, sv') →
  (length (readQueue sv') < length q)%nat.
Proof.
  induction q as [|x q IH]; intros sv m sv'; simpl; [done|].
  intros (u & _ & (u' & _ & E)%bind_Ret)%bind_Ret.
  destruct (msg_opcode x); try done; try (injection E as _ <-; simpl; lia).
  apply bind_Ret in E as (sv1 & _ & E). apply IH in E. lia.
Qed.

Lemma receive_loop_none {B} `{ByteQueue B} : ∀ q (sv sv' : Server B), receive_loop q sv = Ret (None, sv') →
  readQueue sv = q → readQueue sv' = [].
Proof.
  induction q as [|x q IH]; intros sv sv'; simpl; [by intros [= <-]|].
  intros (u & _ & (u' & _ & E)%bind_Ret)%bind_Ret Hq. destruct (msg_opcode x); try done.
  apply bind_Ret in E as (sv1 & E1 & E). apply (IH sv1); [done|]. by rewrite (on_worker_queue _ _ _ _ E1).
Qed.

#[export] Instance Server_laws {B} `{ByteQueue B} : SocketServerLaws (Server B).
Proof.
  split; simpl.
  - intros sv m sv'. apply receive_loop_less.
  - intros sv sv' E. by rewrite (receive_loop_none _ _ _ E eq_refl).
  - intros s bytes sv sv' (u & _ & E)%bind_Ret. by rewrite (on_worker_queue _ _ _ _ E).
  - intros s sv sv' (u & _ & E)%bind_Ret. by rewrite (on_worker_queue _ _ _ _ E).
  - intros sv sv'. unfold do_stop. destruct (isstop sv); [by intros [= <-]|].
    intros (cl & _ & [= <-])%bind_Ret. unfold close_listening. destruct (0 <? _); simpl; lia.
Qed.

(** A server that delivers given messages and records the calls. *)
Inductive call := CallSend (s : Z) (bytes : list Z) | CallClose (s : Z) | CallStop.
Record recorder := MkRecorder { inbox : list Socketmessage; calls : list call }.

#[export] Instance recorder_api : SocketServerApi recorder := {|
  api_receive r := match inbox r with
    | [] => Ret (None, r)
    | m :: l => Ret (Some m, MkRecorder l (calls r))
    end;
  api_send s bytes r := Ret (MkRecorder (inbox r) (calls r ++ [CallSend s bytes]));
  api_close s r := Ret (MkRecorder (inbox r) (calls r ++ [CallClose s]));
  api_stop r := Ret (MkRecorder [] (calls r ++ [CallStop]));
  api_pending r := length (inbox r)
|}.

#[export] Instance recorder_laws : SocketServerLaws recorder.
Proof.
  split; [| |by intros s bytes sv sv' [= <-]|by intros s sv sv' [= <-]|intros sv sv' [= <-]; simpl; lia].
  - intros [[|x l] c] m sv'; simpl; [done|]. intros [= _ <-]. simpl. lia.
  - intros [[|x l] c] sv'; simpl; [by intros [= <-]|done].
Qed.

(** What a running server promises to the code that receives from it: calls with valid
    arguments succeed, and the messages delivered so far, [out], follow the life of each
    descriptor.  [ok] is what is known of every message that waits. *)
Class SocketServerServes {T : Type} `{SocketServerApi T}
    (ok : Socketmessage → Prop) (serves : list Socketmessage → T → Prop) : Prop := {
  serves_receive out sv : serves out sv → ∃ r sv', api_receive sv = Ret (r, sv') ∧
    serves (out ++ match r with Some m => [m] | None => [] end) sv' ∧
    (∀ m, r = Some m → ok m ∧ arrived m ∧ is_new m = false);
  serves_send out sv s bytes : serves out sv → 0 ≤ s < MAX_CONNECTION_FD → bytes ≠ [] →
    Z.of_nat (length bytes) < 2 ^ 32 → ∃ sv', api_send s bytes sv = Ret sv' ∧ serves out sv';
  serves_close out sv s : serves out sv → 0 ≤ s < MAX_CONNECTION_FD →
    ∃ sv', api_close s sv = Ret sv' ∧ serves out sv';
  serves_life out sv s : serves out sv → is_Some (life s out)
}.

Definition server_running {B} `{ByteQueue B} (ok : Socketmessage → Prop)
    (out : list Socketmessage) (sv : Server B) : Prop :=
  (∃ ws, serving ws out sv) ∧ Forall ok (readQueue sv).

Lemma receive_loop_from {B} `{ByteQueue B} (P : Socketmessage → Prop) : ∀ q (sv : Server B) r sv',
  receive_loop q sv = Ret (r, sv') → readQueue sv = q → Forall P q →
  Forall P (readQueue sv') ∧ ∀ m, r = Some m → P m ∧ is_new m = false.
Proof.
  induction q as [|x q IH]; intros sv r sv'; simpl.
  { intros [= <- <-] -> _. split; [constructor|done]. }
  intros (u & _ & (u' & _ & E)%bind_Ret)%bind_Ret Hq [Hx HP]%Forall_cons. unfold is_new.
  destruct (msg_opcode x) eqn:Ex; try done;
    try (injection E as <- <-; split; [done|intros m [= <-]; split; [done|by rewrite Ex]]).
  apply bind_Ret in E as (sv1 & E1 & E). apply (IH sv1); [done| |done].
  by rewrite (on_worker_queue _ _ _ _ E1).
Qed.

Lemma life_prefix s l1 l2 : is_Some (life s (l1 ++ l2)) → is_Some (life s l1).
Proof.
  rewrite life_fold. destruct (life s l1); [done|]. induction l2 as [|m l2 IH]; simpl; [done|exact IH].
Qed.

#[export] Instance Server_serves {B} `{ByteQueueLaws B} ok :
  SocketServerServes (T := Server B) ok (server_running ok).
Proof.
  split; unfold server_running.
  - intros out sv [[ws Hs] Hok].
    destruct (sv_step_serving (λ _, 0) ws out sv SvReceive Hs I) as (o & sv' & ws' & E & Hs').
    simpl in E. apply bind_Ret in E as ([r sv1] & E & [= <- <-]). exists r, sv1. split; [exact E|].
    simpl in Hs'. pose proof (receive_loop_from _ _ _ _ _ E eq_refl Hok) as [H1 H2].
    pose proof (receive_loop_from _ _ _ _ _ E eq_refl (se_arrived _ _ _ Hs)) as [_ H3].
    split; [split; [by exists ws'|done]|]. intros m Hr. destruct (H2 m Hr), (H3 m Hr). done.
  - intros out sv s bytes [[ws Hs] Hok] Hr Hb Hl.
    destruct (sv_step_serving (λ _, 0) ws out sv (SvSend s bytes) Hs) as (o & sv' & ws' & E & Hs'); [done|].
    simpl in E. apply bind_Ret in E as (sv1 & E & [= <- <-]). rewrite app_nil_r in Hs'.
    exists sv1. split; [exact E|]. split; [by exists ws'|].
    apply bind_Ret in E as (u & _ & E). by rewrite (on_worker_queue _ _ _ _ E).
  - intros out sv s [[ws Hs] Hok] Hr.
    destruct (sv_step_serving (λ _, 0) ws out sv (SvClose s) Hs) as (o & sv' & ws' & E & Hs'); [done|].
    simpl in E. apply bind_Ret in E as (sv1 & E & [= <- <-]). rewrite app_nil_r in Hs'.
    exists sv1. split; [exact E|]. split; [by exists ws'|].
    apply bind_Ret in E as (u & _ & E). by rewrite (on_worker_queue _ _ _ _ E).
  - intros out sv s [[ws Hs] _]. destruct (se_tracks _ _ _ Hs s) as (b & Hb & _).
    apply (life_prefix s out (readQueue sv)). by rewrite Hb.
Qed.

(** The recorder serves when its inbox continues what was delivered. *)
Definition recorder_serves (ok : Socketmessage → Prop) (out : list Socketmessage) (r : recorder) : Prop :=
  Forall (λ m, ok m ∧ arrived m ∧ is_new m = false) (inbox r) ∧ ∀ s, is_Some (life s (out ++ inbox r)).

#[export] Instance Recorder_serves ok : SocketServerServes ok (recorder_serves ok).
Proof.
  split; unfold recorder_serves.
  - intros out [[|m l] c] [Hok Hl]; simpl in *.
    + eexists None, _. split; [done|]. rewrite app_nil_r. split; [by split|done].
    + apply Forall_cons in Hok as [Hm Hok]. eexists (Some m), _. split; [done|]. cbn [inbox].
      split; [|by intros m2 [= <-]]. split; [done|]. intros s. rewrite <-app_assoc. apply Hl.
  - intros out r s bytes Hs _ _ _. eexists. split; [reflexivity|exact Hs].
  - intros out r s Hs _. eexists. split; [reflexivity|exact Hs].
  - intros out r s [_ Hl]. by apply (life_prefix s out (inbox r)).
Qed.
