(* ===== verification/SocketClient.v ===== *)
(** SocketClient (socket/SocketClient.cpp): one worker, one connection, and a thread
    that retries the connection. *)

From S2P Require Import Prelude ByteQueue Socket WorkerProcess.

(** What the kernel answers to one attempt: [socket] and [connectSignal]. *)
Record connect_io := ConnectIo { c_socket : Z; c_connect : bool }.

Section Client.
Context {B : Type} `{ByteQueue B}.

(** [slotWorker] is [None] when the pointer is null; [retrying] when [_retry_thread] runs;
    [cclosed] lists the descriptors the client closed. *)
Record Client := MkClient {
  slotWorker : option (Worker B);
  cqueue : list Socketmessage;             (* _readQueue *)
  cfd : Z;
  cstop : bool;
  active : bool;
  connect_in_progress : bool;
  retrying : bool;
  cclosed : list Z
}.

Definition new_Client : Client := MkClient (Some new_Worker) [] (-1) true false false false [].

Definition set_worker v c := MkClient v (cqueue c) (cfd c) (cstop c) (active c) (connect_in_progress c) (retrying c) (cclosed c).
Definition set_queue q c := MkClient (slotWorker c) q (cfd c) (cstop c) (active c) (connect_in_progress c) (retrying c) (cclosed c).
Definition set_cfd s c := MkClient (slotWorker c) (cqueue c) s (cstop c) (active c) (connect_in_progress c) (retrying c) (cclosed c).
Definition set_cstop b c := MkClient (slotWorker c) (cqueue c) (cfd c) b (active c) (connect_in_progress c) (retrying c) (cclosed c).
Definition set_active b c := MkClient (slotWorker c) (cqueue c) (cfd c) (cstop c) b (connect_in_progress c) (retrying c) (cclosed c).
Definition set_in_progress b c := MkClient (slotWorker c) (cqueue c) (cfd c) (cstop c) (active c) b (retrying c) (cclosed c).
Definition set_retrying b c := MkClient (slotWorker c) (cqueue c) (cfd c) (cstop c) (active c) (connect_in_progress c) b (cclosed c).

(** [SafeClose(this->_fd)] *)
Definition close_fd (c : Client) : Client :=
  if 0 <? cfd c
  then MkClient (slotWorker c) (cqueue c) (-1) (cstop c) (active c) (connect_in_progress c)
         (retrying c) (cclosed c ++ [cfd c])
  else c.

(** A call through [_slotWorker]. *)
Definition on_slot (f : Worker B → outcome (Worker B)) (c : Client) : outcome Client :=
  match slotWorker c with
  | None => Undef
  | Some w => w ← f w; Ret (set_worker (Some w) c)
  end.

(** [connectServer] *)
Definition connectServer (io : connect_io) (c : Client) : bool * Client :=
  if active c then (true, c)
  else if connect_in_progress c then (false, c)
  else
    let c := set_cfd (c_socket io) (set_in_progress true c) in
    if c_socket io <? 0 then (false, c)
    else (c_connect io, set_in_progress false c).

(** The end of the retry thread: the connection goes to the worker. *)
Definition establish (c : Client) : outcome Client :=
  on_slot (λ w, Ret (addSocket (cfd c) false w)) c.

(** One turn of the retry thread, and the thread run on the answers of the kernel; it is
    still running when they are used up. *)
Definition retry_once (io : connect_io) (c : Client) : Client :=
  let '(rc, c) := connectServer io (close_fd c) in if rc then set_active true c else c.
Fixpoint retry_loop (ios : list connect_io) (c : Client) : outcome Client :=
  if cstop c || active c
  then c ← (if active c then establish c else Ret c); Ret (set_retrying false c)
  else match ios with
  | [] => Ret c
  | io :: ios => retry_loop ios (retry_once io c)
  end.

(** [connectAsync]: the previous thread is joined first, which waits for it. *)
Definition connectAsync (c : Client) : bool * Client := (true, set_retrying true c).

(** [connect]; the address and the port only go to the kernel. *)
Definition connect (timeout : Z) (io : connect_io) (c : Client) : outcome (bool * Client) :=
  if negb (cstop c) then Ret (false, c)
  else
    let c := set_cstop false c in
    if active c then Ret (false, c)
    else
      let c := set_active false c in
      if 0 <? timeout then
        let '(rc, c) := connectServer io c in
        let c := set_active rc c in
        if rc then c ← establish c; Ret (true, c) else Ret (false, c)
      else Ret (connectAsync c).

(** [receiveMessage]: a CLOSE of the client's own descriptor restarts the retry thread. *)
Definition client_receive (c : Client) : outcome (option Socketmessage * Client) :=
  match cqueue c with
  | [] => Ret (None, c)
  | msg :: q =>
      let c := set_queue q c in
      _ ← cxx_assert (magic msg =? MAGIC);
      _ ← cxx_assert (negb (msg_s msg =? -1));
      match msg_opcode msg with
      | SM_OPCODE_CLOSE =>
          Ret (Some msg, if msg_s msg =? cfd c then snd (connectAsync (set_active false c)) else c)
      | SM_OPCODE_ESTABLISH | SM_OPCODE_MESSAGE => Ret (Some msg, c)
      | _ => Aborted
      end
  end.

Definition client_send (bytes : list Z) (c : Client) : outcome Client :=
  on_slot (pushMessage_bytes (cfd c) bytes) c.
Definition client_send_msg (msg : Socketmessage) (c : Client) : outcome Client :=
  on_slot (λ w, Ret (pushMessage_msg (cfd c) msg w)) c.

(** [stop]: [_slotWorker] is deleted and set to null, [_active] is kept. *)
Definition client_stop (c : Client) : Client :=
  if cstop c then c
  else close_fd (set_queue [] (set_worker None (set_retrying false (set_cstop true c)))).
End Client.

Arguments Client B : clear implicits.

(** ** Properties *)

Section ClientProofs.
Context {B : Type} `{ByteQueue B}.
Implicit Types (c : Client B).

(** An attempt that gets no socket, or one that is connected. *)
Definition no_socket (io : connect_io) : Prop := c_socket io < 0.
Definition refused (io : connect_io) : Prop := 0 ≤ c_socket io ∧ c_connect io = false.
Definition accepted (io : connect_io) : Prop := 0 ≤ c_socket io ∧ c_connect io = true.

(** A client whose retry thread is at work. *)
Definition trying (c : Client B) : Prop :=
  cstop c = false ∧ active c = false ∧ retrying c = true ∧ is_Some (slotWorker c).

Lemma retry_once_refused io c : trying c → connect_in_progress c = false → refused io →
  trying (retry_once io c) ∧ connect_in_progress (retry_once io c) = false ∧
  slotWorker (retry_once io c) = slotWorker c.
Proof.
  intros (H1 & H2 & H3 & H4) H5 [Hs Hc]. destruct c as [w q fd st a p r cl]; simpl in *; subst.
  unfold retry_once, connectServer, close_fd. simpl.
  destruct (0 <? fd); simpl; rewrite (proj2 (Z.ltb_ge _ 0) Hs), Hc; done.
Qed.

Lemma retry_once_accepted io c : trying c → connect_in_progress c = false → accepted io →
  active (retry_once io c) = true ∧ cfd (retry_once io c) = c_socket io ∧
  slotWorker (retry_once io c) = slotWorker c.
Proof.
  intros (H1 & H2 & H3 & H4) H5 [Hs Hc]. destruct c as [w q fd st a p r cl]; simpl in *; subst.
  unfold retry_once, connectServer, close_fd. simpl.
  destruct (0 <? fd); simpl; rewrite (proj2 (Z.ltb_ge _ 0) Hs), Hc; done.
Qed.

Lemma retry_once_stuck io c : trying c → connect_in_progress c = true →
  trying (retry_once io c) ∧ connect_in_progress (retry_once io c) = true.
Proof.
  intros (H1 & H2 & H3 & H4) H5. destruct c as [w q fd st a p r cl]; simpl in *; subst.
  unfold retry_once, connectServer, close_fd. simpl. by destruct (0 <? fd).
Qed.

Lemma retry_once_no_socket io c : trying c → connect_in_progress c = false → no_socket io →
  trying (retry_once io c) ∧ connect_in_progress (retry_once io c) = true.
Proof.
  intros (H1 & H2 & H3 & H4) H5 Hs. destruct c as [w q fd st a p r cl]; simpl in *; subst.
  unfold retry_once, connectServer, close_fd. simpl.
  destruct (0 <? fd); simpl; rewrite (proj2 (Z.ltb_lt _ 0) Hs); done.
Qed.

Lemma retry_loop_unfold io ios c : trying c → retry_loop (io :: ios) c = retry_loop ios (retry_once io c).
Proof. intros (H1 & H2 & _). simpl. by rewrite H1, H2. Qed.

Lemma retry_stuck ios : ∀ c, trying c → connect_in_progress c = true →
  ∃ c', retry_loop ios c = Ret c' ∧ trying c'.
Proof.
  induction ios as [|io ios IH]; intros c Ht Hp.
  - exists c. pose proof Ht as (H1 & H2 & _). simpl. by rewrite H1, H2.
  - rewrite retry_loop_unfold by done. destruct (retry_once_stuck io c Ht Hp). by apply IH.
Qed.

Lemma retry_refused ios ios2 : ∀ c, trying c → connect_in_progress c = false → Forall refused ios →
  ∃ c', retry_loop (ios ++ ios2) c = retry_loop ios2 c' ∧ trying c' ∧
    connect_in_progress c' = false ∧ slotWorker c' = slotWorker c.
Proof.
  induction ios as [|io ios IH]; intros c Ht Hp Hf; [by exists c|].
  apply Forall_cons in Hf as [Hio Hf]. simpl app. rewrite retry_loop_unfold by done.
  destruct (retry_once_refused io c Ht Hp Hio) as (Ht' & Hp' & Hw').
  destruct (IH _ Ht' Hp' Hf) as (c' & E & ? & ? & Hw). exists c'. split_and!; try done. by rewrite Hw.
Qed.

(** The retry thread.  However often the server refuses, the first attempt
    that is accepted ends the thread with the client active and the descriptor queued,
    once, for its worker.  But a [socket] call that fails leaves [_connect_in_progress]
    set: from then on every attempt gives up at once and the thread runs until [stop],
    whatever the kernel would answer. *)
Theorem retry_outcome c w ios io rest :
  trying c → connect_in_progress c = false → slotWorker c = Some w → Forall refused ios →
  (accepted io → ∃ c', retry_loop (ios ++ io :: rest) c = Ret c' ∧ active c' = true ∧
     retrying c' = false ∧ cfd c' = c_socket io ∧
     slotWorker c' = Some (addSocket (c_socket io) false w)) ∧
  (no_socket io → ∃ c', retry_loop (ios ++ io :: rest) c = Ret c' ∧ active c' = false ∧
     retrying c' = true).
Proof.
  intros Ht Hp Hw Hf. destruct (retry_refused ios (io :: rest) c Ht Hp Hf) as (c1 & -> & Ht1 & Hp1 & Hw1).
  rewrite retry_loop_unfold by done. split; intros Hio.
  - destruct (retry_once_accepted io c1 Ht1 Hp1 Hio) as (Ha & Hfd & Hw2).
    assert (∀ l, retry_loop l (retry_once io c1) =
      (c ← establish (retry_once io c1); Ret (set_retrying false c))) as ->.
    { intros l. destruct l; simpl; by rewrite Ha, orb_true_r. }
    unfold establish, on_slot. rewrite Hw2, Hw1, Hw. simpl. eexists. split; [done|]. simpl.
    by rewrite Hfd.
  - destruct (retry_once_no_socket io c1 Ht1 Hp1 Hio) as (Ht2 & Hp2).
    destruct (retry_stuck rest _ Ht2 Hp2) as (c' & -> & (_ & ? & ? & _)). by exists c'.
Qed.

(** The calls of the application after a [stop]: connects and stops. *)
Inductive client_call := CallConnect (timeout : Z) (io : connect_io) | CallStop.
Definition client_do (call : client_call) (c : Client B) : outcome (list bool * Client B) :=
  match call with
  | CallConnect t io => r ← connect t io c; Ret ([fst r], snd r)
  | CallStop => Ret ([], client_stop c)
  end.
Fixpoint client_calls (calls : list client_call) (c : Client B) : outcome (list bool * Client B) :=
  match calls with
  | [] => Ret ([], c)
  | call :: calls => r ← client_do call c; r' ← client_calls calls (snd r); Ret (fst r ++ fst r', snd r')
  end.

Lemma active_calls calls : ∀ c, active c = true → ∃ rs c', client_calls calls c = Ret (rs, c') ∧
  Forall (eq false) rs ∧ active c' = true.
Proof.
  induction calls as [|call calls IH]; intros c Ha; [by exists [], c|].
  assert (∃ rs c1, client_do call c = Ret (rs, c1) ∧ Forall (eq false) rs ∧ active c1 = true)
    as (rs & c1 & E & Hrs & Ha1).
  { destruct call as [t io|]; simpl.
    - unfold connect. destruct (negb (cstop c)); [|simpl; rewrite Ha]; simpl;
        (eexists _, _; split; [done|]; by split; [repeat constructor|]).
    - eexists [], _. split; [done|]. split; [constructor|]. unfold client_stop, close_fd.
      by repeat case_match. }
  destruct (IH c1 Ha1) as (rs' & c' & E' & Hrs' & Ha'). exists (rs ++ rs'), c'.
  simpl. rewrite E. simpl. rewrite E'. simpl. split; [done|]. by split; [apply Forall_app|].
Qed.

(** A client does not survive its [stop].  [stop] closes the connection and
    empties the queue but keeps [_active] and leaves the worker pointer null: if the client
    was active every later [connect] returns false; if it was not, a later [connect] that
    is accepted uses the null pointer; and any send does. *)
Theorem stopped_client_dead c : cstop c = false →
  let c' := client_stop c in
  cstop c' = true ∧ cqueue c' = [] ∧ (0 < cfd c → cfd c' = -1 ∧ cclosed c' = cclosed c ++ [cfd c]) ∧
  (active c = true → ∀ calls, ∃ rs c2, client_calls calls c' = Ret (rs, c2) ∧ Forall (eq false) rs) ∧
  (active c = false → connect_in_progress c = false → ∀ t io, 0 < t → accepted io → connect t io c' = Undef) ∧
  (∀ bytes msg, client_send bytes c' = Undef ∧ client_send_msg msg c' = Undef).
Proof.
  intros Hst c'. assert (active c' = active c ∧ connect_in_progress c' = connect_in_progress c ∧
    slotWorker c' = None ∧ cstop c' = true ∧ cqueue c' = []) as (Ha & Hp & Hw & Hs & Hq).
  { unfold c', client_stop, close_fd. rewrite Hst. simpl. by destruct (0 <? cfd c). }
  split_and!; [done|done|..].
  - intros Hf. unfold c', client_stop, close_fd. rewrite Hst. simpl.
    by rewrite (proj2 (Z.ltb_lt 0 _) Hf).
  - intros Hact calls. destruct (active_calls calls c') as (rs & c2 & ? & ? & _); [congruence|]. by exists rs, c2.
  - intros Hact Hpr t io Ht [Hio1 Hio2]. unfold connect. rewrite Hs. simpl. rewrite Ha, Hact.
    rewrite (proj2 (Z.ltb_lt 0 t) Ht). unfold connectServer. simpl. rewrite Hp, Hpr. simpl.
    rewrite (proj2 (Z.ltb_ge _ 0) Hio1), Hio2. unfold establish, on_slot. simpl. by rewrite Hw.
  - intros bytes msg. unfold client_send, client_send_msg, on_slot. by rewrite Hw.
Qed.
End ClientProofs.

Lemma retry_outcome_witness :
  ∃ c', retry_loop [ConnectIo 5 false; ConnectIo (-1) false; ConnectIo 6 true]
    (set_retrying true (set_cstop false (new_Client (B := list Z)))) = Ret c' ∧ active c' = false.
Proof.
  destruct (retry_outcome (set_retrying true (set_cstop false (new_Client (B := list Z)))) new_Worker
    [ConnectIo 5 false] (ConnectIo (-1) false) [ConnectIo 6 true]) as [_ H].
  - by split_and!.
  - done.
  - done.
  - repeat constructor. done.
  - destruct H as (c' & E & Ha & _); [unfold no_socket; simpl; lia|]. exists c'. by split.
Defined.

Lemma stopped_client_dead_witness :
  connect 3 (ConnectIo 5 true) (client_stop (set_cstop false (new_Client (B := list Z)))) = Undef.
Proof.
  destruct (stopped_client_dead (set_cstop false (new_Client (B := list Z))) eq_refl)
    as (_ & _ & _ & _ & H & _).
  apply H; [reflexivity|reflexivity|lia|by split].
Defined.
