(* ===== verification/Connect.v ===== *)
(** * Connecting with a time limit: src/socket/Helper.cpp

    [connectSignal], which SocketClient uses, and [connectSelect].  The kernel's answers are
    arguments; what is kept is the blocking mode of the socket, the alarm and the handler of
    SIGALRM. *)

From S2P Require Import Prelude.

Definition EINTR : Z := 4.
Definition EINPROGRESS : Z := 115.

(** Of the socket, and of the process: the seconds of the alarm, and whether SIGALRM has the
    handler of before. *)
Record connect_state := MkConnect { non_blocking : bool; alarm_seconds : Z; old_handler : bool }.
Definition blocking (st : connect_state) : connect_state := MkConnect false (alarm_seconds st) (old_handler st).
Definition nonblocking (st : connect_state) : connect_state := MkConnect true (alarm_seconds st) (old_handler st).

(** [connect] is done, or fails with an errno. *)
Definition connectSignal (seconds : Z) (connect : option Z) (st : connect_state) : bool * connect_state :=
  let st := MkConnect (non_blocking st) seconds false in
  let st := blocking st in
  let rc := match connect with None => true | Some errno => if errno =? EINTR then false else false end in
  let st := nonblocking st in
  (rc, MkConnect (non_blocking st) 0 true).

(** [select] gives the number of descriptors, whether the socket is among those to be read
    or written; [so_error] is what [getsockopt] finds, or fails. *)
Definition connectSelect (milliseconds : Z) (connect : option Z) (select : Z) (isset : bool) (so_error : option Z) (st : connect_state)
    : bool * connect_state :=
  let st := nonblocking st in
  match connect with
  | None => (true, st)
  | Some errno =>
      if negb (errno =? EINPROGRESS) then (false, st)
      else if select <? 0 then (false, st)
      else if select =? 0 then (true, st)
      else if isset then
        match so_error with
        | None => (false, st)
        | Some error => if negb (error =? 0) then (false, st) else (true, nonblocking st)
        end
      else (true, st)
  end.

(** The connection is there, in blocking terms: at once, or when [select] and [so_error] say so. *)
Definition established (connect : option Z) (select : Z) (isset : bool) (so_error : option Z) : bool :=
  match connect with
  | None => true
  | Some errno => (errno =? EINPROGRESS) && (0 <? select) && isset && bool_decide (so_error = Some 0)
  end.

(** [connectSignal] tells whether the connection is there and cleans up after itself;
    [connectSelect] also says so after a timeout, and when [select] names no socket. *)
Lemma connect_results seconds ms connect select isset so_error st :
  connectSignal seconds connect st = (bool_decide (connect = None), MkConnect true 0 true) ∧
  snd (connectSelect ms connect select isset so_error st) = nonblocking st ∧
  fst (connectSelect ms connect select isset so_error st) =
    established connect select isset so_error || (bool_decide (connect = Some EINPROGRESS) && ((select =? 0) || ((0 <? select) && negb isset))).
Proof.
  split; [destruct connect as [e|]; [rewrite bool_decide_eq_false_2 by done; unfold connectSignal; by destruct (e =? EINTR)|by rewrite bool_decide_eq_true_2]|].
  unfold connectSelect, established. destruct connect as [e|]; [|by split].
  destruct (Z.eqb_spec e EINPROGRESS) as [->|He]; cbn [negb andb].
  - rewrite (bool_decide_eq_true_2 (Some EINPROGRESS = _)) by done. destruct (Z.ltb_spec select 0).
    + rewrite (proj2 (Z.ltb_ge 0 select)), (proj2 (Z.eqb_neq select 0)) by lia. done.
    + destruct (Z.eqb_spec select 0) as [->|Hs]; [done|].
      rewrite (proj2 (Z.ltb_lt 0 select)) by lia. destruct isset; [|done].
      destruct so_error as [e|]; [|done]. split; [by destruct (e =? 0)|].
      destruct (Z.eqb_spec e 0) as [->|Hz]; [done|]. by rewrite (bool_decide_eq_false_2 (Some e = Some 0)) by congruence.
  - by rewrite (bool_decide_eq_false_2 (Some e = _)) by congruence.
Qed.
