(* ===== verification/WebSocket.v ===== *)
(** WebSocketServer (socket/WebSocketServer.cpp): the handshake, and the frames of
    RFC 6455 as the server builds and reads them. *)

From S2P Require Import Prelude CLib Base64 Sha1 ByteQueue Socket WorkerProcess SocketServer.

Definition MAGIC_KEY : list Z := str "258EAFA5-E914-47DA-95CA-C5AB0DC85B11".

(** [struct WS_HEADER]: bit fields from the low bit up. *)
Record WS_HEADER := MkHeader {
  ws_opcode : Z; RSV3 : Z; RSV2 : Z; RSV1 : Z; FIN : Z; ws_len : Z; MASK : Z
}.

Definition header_size : nat := 2.
Definition header_bytes (h : WS_HEADER) : list Z :=
  [ws_opcode h + 16 * RSV3 h + 32 * RSV2 h + 64 * RSV1 h + 128 * FIN h; ws_len h + 128 * MASK h].
Definition header_of (b0 b1 : Z) : WS_HEADER :=
  MkHeader (b0 mod 16) (b0 / 16 mod 2) (b0 / 32 mod 2) (b0 / 64 mod 2) (b0 / 128 mod 2)
    (b1 mod 128) (b1 / 128 mod 2).

Definition WS_OPCODE_CONTINUE : Z := 0x0.
Definition WS_OPCODE_TEXT : Z := 0x1.
Definition WS_OPCODE_BINARY : Z := 0x2.
Definition WS_OPCODE_CLOSE : Z := 0x8.
Definition WS_OPCODE_PING : Z := 0x9.
Definition WS_OPCODE_PONG : Z := 0xa.

(** [n] bytes at [off], [None] past the end of the allocation. *)
Definition bytes_at (buf : list Z) (off n : nat) : outcome (list Z) :=
  if (off + n <=? length buf)%nat then Ret (take n (drop off buf)) else Undef.

(** ** Sending *)

Definition control_frame (op : Z) : list Z := header_bytes (MkHeader op 0 0 0 1 0 0).

(** The buffer [sendMessage] fills: the length goes in as the host stores it. *)
Definition ws_frame (data : list Z) : list Z :=
  let datasize := Z.of_nat (length data) in
  let payload_len := if datasize <? 126 then datasize else if datasize <? 65025 then 126 else 127 in
  header_bytes (MkHeader WS_OPCODE_TEXT 0 0 0 1 payload_len 0) ++
  (if payload_len =? 126 then le_bytes 2 datasize
   else if payload_len =? 127 then le_bytes 8 datasize else []) ++
  data.

(** ** Receiving *)

(** The reserved bits and FIN. *)
Definition header_legal (h : WS_HEADER) : bool :=
  (RSV1 h =? 0) && (RSV2 h =? 0) && (RSV3 h =? 0) && (FIN h =? 1).

(** [ntohs] of a 16-bit load, and [ntohl] of a 64-bit load cut to 32 bits. *)
Definition ntohs_at (bytes : list Z) : Z := be_val (take 2 bytes).
Definition ntohl_at (bytes : list Z) : Z := be_val (take 4 bytes).

(** [parsePackage(buffer, len)]: the splitter; 0 asks for more, -1 is an error. *)
Definition parsePackage (buffer : list Z) : Z :=
  let len := length buffer in
  match buffer with
  | b0 :: b1 :: rest =>
      let h := header_of b0 b1 in
      if negb (header_legal h) then -1
      else
        let more := if ws_len h =? 126 then 2%nat else if ws_len h =? 127 then 8%nat else 0%nat in
        if (len <? header_size + more)%nat then 0
        else
          let payload_len := if ws_len h =? 126 then ntohs_at rest
                             else if ws_len h =? 127 then ntohl_at rest else ws_len h in
          let offset := (header_size + more)%nat in
          if (MASK h =? 1) && (len <? offset + 4)%nat then 0
          else
            let offset := if MASK h =? 1 then (offset + 4)%nat else offset in
            if Z.of_nat len <? Z.of_nat offset + payload_len then 0
            else s32 (Z.of_nat offset + payload_len)
  | _ => 0
  end.

(** [data[i] ^= mask[i % 4]] *)
Fixpoint unmask (mask : list Z) (i : nat) (data : list Z) : list Z :=
  match data with
  | [] => []
  | b :: data => Z.lxor b (mask !!! (i mod 4)%nat) :: unmask mask (S i) data
  end.

(** ** The handshake *)

(** [std::getline] over the whole stream: the text between newlines, the last one too
    when it is not empty. *)
Fixpoint getlines (s cur : list Z) : list (list Z) :=
  match s with
  | [] => match cur with [] => [] | _ => [cur] end
  | c :: s => if c =? 10 then cur :: getlines s [] else getlines s (cur ++ [c])
  end.

(** [header.find(": ")] *)
Fixpoint split_colon (s : list Z) : option (list Z * list Z) :=
  match s with
  | c :: ((d :: s') as t) =>
      if (c =? 58) && (d =? 32) then Some ([], s')
      else match split_colon t with Some (k, v) => Some (c :: k, v) | None => None end
  | _ => None
  end.

(** The loop over the header lines.  [header[header.size()-1]] of an empty line is an
    access at [(size_t) -1]. *)
Fixpoint read_headers (ls : list (list Z)) (headers : gmap (list Z) (list Z))
    : outcome (gmap (list Z) (list Z)) :=
  match ls with
  | [] => Ret headers
  | l :: ls =>
      if bool_decide (l = [13]) then Ret headers
      else match last l with
      | None => Undef
      | Some c =>
          if negb (c =? 13) then read_headers ls headers
          else match split_colon (removelast l) with
          | Some (key, value) => read_headers ls (<[key := value]> headers)
          | None => read_headers ls headers
          end
      end
  end.

Definition required_keys : list (list Z) :=
  [str "Host"; str "Upgrade"; str "Connection"; str "Sec-WebSocket-Key"; str "Sec-WebSocket-Version"].

(** [parse_handshake_request]; [past] are the bytes in memory after the buffer, which the
    stream reads up to the first NUL. *)
Definition parse_handshake_request (buffer past : list Z) : outcome (Z * list Z) :=
  headers ← read_headers (tail (getlines (c_str (buffer ++ past)) [])) ∅;
  if forallb (λ k, bool_decide (is_Some (headers !! k))) required_keys
  then Ret (s32 (Z.of_nat (length buffer)), default [] (headers !! str "Sec-WebSocket-Key"))
  else Ret (0, []).

Definition is_GET (buffer : list Z) : bool :=
  match buffer with
  | a :: b :: c :: _ => (a =? ch "G") && (b =? ch "E") && (c =? ch "T")
  | _ => false
  end.

(** The splitter given to the SocketServer. *)
Definition ws_split (past buffer : list Z) : outcome Z :=
  if is_GET buffer then r ← parse_handshake_request buffer past; Ret (fst r)
  else Ret (parsePackage buffer).

(** The value of Sec-WebSocket-Accept; [sha] and [junk] are uninitialised locals.  The
    digest words are stored in network order. *)
Definition accept_key (sha : SHA1) (junk : arr3) (key : list Z) : outcome (list Z) :=
  let sha := input_cstr (Reset sha) (key ++ MAGIC_KEY) in
  match snd (Result sha) with
  | Some digest => base64_encode junk (concat (map (be_bytes 4) digest)) 20
  | None => Undef
  end.

Definition CRLF : list Z := [13; 10].
Definition handshake_response (accept : list Z) : list Z :=
  str "HTTP/1.1 101 Switching Protocols" ++ CRLF ++ str "Connection: upgrade" ++ CRLF ++
  str "Sec-WebSocket-Accept: " ++ accept ++ CRLF ++ str "Upgrade: websocket" ++ CRLF ++ CRLF.

Section WebSocketServer.
Context {T : Type} `{SocketServerApi T}.
Context (sha : SHA1) (junk : arr3).

Definition sendPing (s : Z) (sv : T) : outcome T := api_send s (control_frame WS_OPCODE_PING) sv.
Definition sendPong (s : Z) (sv : T) : outcome T := api_send s (control_frame WS_OPCODE_PONG) sv.
Definition ws_sendMessage (s : Z) (data : list Z) (sv : T) : outcome T := api_send s (ws_frame data) sv.

Definition send_handshake_response (s : Z) (key : list Z) (sv : T) : outcome T :=
  accept ← accept_key sha junk key;
  api_send s (handshake_response accept) sv.

(** [parsePackage(s, msg, forward)]: [Some msg] when the message is forwarded. *)
Definition parsePackage_msg (s : Z) (msg : Socketmessage) (sv : T)
    : outcome (bool * option Socketmessage * T) :=
  let buf := payload msg in
  let len := payload_len msg in
  if len <? Z.of_nat header_size then Ret (false, None, sv)
  else
    hb ← bytes_at buf 0 2;
    let h := header_of (hb !!! 0%nat) (hb !!! 1%nat) in
    if negb (header_legal h) then Ret (false, None, sv)
    else
      let more := if ws_len h =? 126 then 2%nat else if ws_len h =? 127 then 8%nat else 0%nat in
      if len <? Z.of_nat (header_size + more) then Ret (false, None, sv)
      else
        ext ← bytes_at buf header_size more;
        let payload_len := if ws_len h =? 126 then ntohs_at ext
                           else if ws_len h =? 127 then ntohl_at ext else ws_len h in
        let offset := (header_size + more)%nat in
        if (MASK h =? 1) && (len <? Z.of_nat (offset + 4)) then Ret (false, None, sv)
        else
          mask ← (if MASK h =? 1 then bytes_at buf offset 4 else Ret []);
          let offset := if MASK h =? 1 then (offset + 4)%nat else offset in
          if len <? Z.of_nat offset + payload_len then Ret (false, None, sv)
          else
            data ← bytes_at buf offset (Z.to_nat payload_len);
            let data := if MASK h =? 1 then unmask mask 0 data else data in
            if bool_decide (ws_opcode h = WS_OPCODE_BINARY ∨ ws_opcode h = WS_OPCODE_TEXT ∨
                            ws_opcode h = WS_OPCODE_CONTINUE)
            then Ret (true, Some (allocateMessage s SM_OPCODE_MESSAGE data), sv)
            else if ws_opcode h =? WS_OPCODE_CLOSE then Ret (false, None, sv)
            else if ws_opcode h =? WS_OPCODE_PING then sv ← sendPong s sv; Ret (true, None, sv)
            else if ws_opcode h =? WS_OPCODE_PONG then Ret (true, None, sv)
            else Ret (false, None, sv).

(** [receiveMessage]; [past] is the memory after the payload of the message. *)
Definition ws_receiveMessage (past : list Z) (sv : T) : outcome (option Socketmessage * T) :=
  r ← api_receive sv;
  let '(msg, sv) := r : option Socketmessage * T in
  match msg with
  | None => Ret (None, sv)
  | Some msg =>
      let s := msg_s msg in
      match msg_opcode msg with
      | SM_OPCODE_ESTABLISH => Ret (None, sv)
      | SM_OPCODE_CLOSE => Ret (Some msg, sv)
      | _ =>
          if (3 <=? payload_len msg) && is_GET (payload msg) then
            r ← parse_handshake_request (message_bytes msg) past;
            let '(len, key) := r : Z * list Z in
            _ ← cxx_assert ((0 <? len) && (len =? payload_len msg));
            sv ← send_handshake_response s key sv;
            Ret (Some msg, sv)
          else
            r ← parsePackage_msg s msg sv;
            let '(rc, fwd, sv) := r : bool * option Socketmessage * T in
            if rc then Ret (fwd, sv) else sv ← api_close s sv; Ret (None, sv)
      end
  end.
End WebSocketServer.

(** ** Frames as RFC 6455 defines them *)

(** The 7-bit length field and the extended length, in network byte order. *)
Definition rfc_len (n : Z) : Z * list Z :=
  if n <? 126 then (n, []) else if n <? 65536 then (126, be_bytes 2 n) else (127, be_bytes 8 n).

(** Byte [i] of the payload is combined with byte [i mod 4] of the key. *)
Definition rfc_mask (mask data : list Z) : list Z :=
  imap (λ i b, Z.lxor b (mask !!! (i mod 4)%nat)) data.

(** A final frame; [mask] is empty or the four bytes of a masking key. *)
Definition rfc_frame (op : Z) (mask data : list Z) : list Z :=
  let n := Z.of_nat (length data) in
  [128 + op; (if decide (mask = []) then 0 else 128) + fst (rfc_len n)] ++
  snd (rfc_len n) ++ mask ++ (if decide (mask = []) then data else rfc_mask mask data).

Lemma unmask_rfc mask data : ∀ i,
  unmask mask i data = imap (λ j b, Z.lxor b (mask !!! ((i + j) mod 4)%nat)) data.
Proof.
  induction data as [|b data IH]; intros i; simpl; [done|]. rewrite Nat.add_0_r, IH. f_equal.
  apply imap_ext. intros j x _. simpl. by rewrite Nat.add_succ_r.
Qed.

(** The same bytes from the code's header and masking loop. *)
Lemma rfc_frame_bytes op mask data : rfc_frame op mask data =
  let n := Z.of_nat (length data) in
  header_bytes (MkHeader op 0 0 0 1 (fst (rfc_len n)) ((if decide (mask = []) then 0 else 1))) ++
  snd (rfc_len n) ++ mask ++ (if decide (mask = []) then data else unmask mask 0 data).
Proof.
  unfold rfc_frame, header_bytes, rfc_mask. rewrite unmask_rfc. cbn zeta. f_equal.
  cbn [ws_opcode RSV1 RSV2 RSV3 FIN ws_len MASK]. f_equal; [lia|]. f_equal. case_decide; lia.
Qed.

(** The payload length a reader of a frame finds. *)
Definition rfc_length (frame : list Z) : option Z :=
  match frame with
  | _ :: b1 :: rest =>
      if b1 mod 128 =? 126 then Some (be_val (take 2 rest))
      else if b1 mod 128 =? 127 then Some (be_val (take 8 rest)) else Some (b1 mod 128)
  | _ => None
  end.

Definition mask_ok (mask : list Z) : Prop := mask = [] ∨ length mask = 4%nat.

Lemma header_of_bytes op l m : 0 ≤ op < 16 → 0 ≤ l < 128 → m = 0 ∨ m = 1 →
  header_of (op + 16 * 0 + 32 * 0 + 64 * 0 + 128 * 1) (l + 128 * m) = MkHeader op 0 0 0 1 l m.
Proof. intros. unfold header_of. f_equal; dlia. Qed.

Lemma header_decoded op l m : 0 ≤ op < 16 → 0 ≤ l < 128 → m = 0 ∨ m = 1 →
  let h := header_bytes (MkHeader op 0 0 0 1 l m) in
  header_of (h !!! 0%nat) (h !!! 1%nat) = MkHeader op 0 0 0 1 l m.
Proof. intros. by apply header_of_bytes. Qed.

Lemma unmask_involutive mask data : ∀ i, unmask mask i (unmask mask i data) = data.
Proof.
  induction data as [|b data IH]; intros i; simpl; [done|].
  rewrite IH, Z.lxor_assoc, Z.lxor_nilpotent, Z.lxor_0_r. done.
Qed.

Lemma length_unmask mask data : ∀ i, length (unmask mask i data) = length data.
Proof. induction data as [|b data IH]; intros i; simpl; [done|]. by rewrite IH. Qed.

Lemma bytes_at_app a b c : bytes_at (a ++ b ++ c) (length a) (length b) = Ret b.
Proof.
  unfold bytes_at. rewrite (proj2 (Nat.leb_le _ _)) by (rewrite !length_app; lia).
  by rewrite drop_app_length, take_app_length.
Qed.

Lemma rfc_len_range n : 0 ≤ n → 0 ≤ fst (rfc_len n) < 128.
Proof. intros. unfold rfc_len. repeat case_match; simpl; lia. Qed.

Lemma rfc_len_more n : 0 ≤ n →
  (if fst (rfc_len n) =? 126 then 2%nat else if fst (rfc_len n) =? 127 then 8%nat else 0%nat)
  = length (snd (rfc_len n)).
Proof.
  intros Hn. unfold rfc_len. destruct (Z.ltb_spec n 126); simpl; [|by destruct (n <? 65536)].
  destruct (Z.eqb_spec n 126); [lia|]. destruct (Z.eqb_spec n 127); [lia|]. done.
Qed.

Lemma be_bytes_8 n : be_bytes 8 n = be_bytes 4 (n / 2 ^ 32) ++ be_bytes 4 n.
Proof. unfold be_bytes. change 8%nat with (4 + 4)%nat. by rewrite le_bytes_add, reverse_app. Qed.

(** The payload length the server reads: right below 2^16, 0 from there to 2^32. *)
Lemma server_len n body : 0 ≤ n < 2 ^ 32 →
  (if fst (rfc_len n) =? 126 then ntohs_at (snd (rfc_len n) ++ body)
   else if fst (rfc_len n) =? 127 then ntohl_at (snd (rfc_len n) ++ body) else fst (rfc_len n))
  = if n <? 65536 then n else 0.
Proof.
  intros Hn. unfold rfc_len. destruct (Z.ltb_spec n 126).
  { simpl. destruct (Z.eqb_spec n 126); [lia|]. destruct (Z.eqb_spec n 127); [lia|].
    by destruct (Z.ltb_spec n 65536); [|lia]. }
  destruct (Z.ltb_spec n 65536); cbn [fst snd]; rewrite Z.eqb_refl.
  - unfold ntohs_at. rewrite (take_app_length' (be_bytes 2 n)) by (by rewrite length_be_bytes).
    rewrite be_val_be_bytes. apply Z.mod_small. simpl. lia.
  - change (127 =? 126) with false. cbv iota. unfold ntohl_at. rewrite be_bytes_8, <-app_assoc.
    rewrite (take_app_length' (be_bytes 4 (n / 2 ^ 32))) by (by rewrite length_be_bytes).
    rewrite be_val_be_bytes, (Z.div_small n) by lia. done.
Qed.

(** What the splitter answers on a header followed by [body]. *)
Lemma parsePackage_header op l m body : 0 ≤ op < 16 → 0 ≤ l < 128 → m = 0 ∨ m = 1 →
  parsePackage (header_bytes (MkHeader op 0 0 0 1 l m) ++ body) =
  let more := if l =? 126 then 2%nat else if l =? 127 then 8%nat else 0%nat in
  let pl := if l =? 126 then ntohs_at body else if l =? 127 then ntohl_at body else l in
  let off := (2 + more + (if (m =? 1)%Z then 4 else 0))%nat in
  if (2 + length body <? 2 + more)%nat then 0
  else if (m =? 1) && (2 + length body <? 2 + more + 4)%nat then 0
  else if Z.of_nat (2 + length body) <? Z.of_nat off + pl then 0 else s32 (Z.of_nat off + pl).
Proof.
  intros Hop Hl Hm. unfold header_bytes. cbn [ws_opcode RSV1 RSV2 RSV3 FIN ws_len MASK app].
  unfold parsePackage. rewrite header_of_bytes by done.
  cbn [ws_opcode RSV1 RSV2 RSV3 FIN ws_len MASK length]. unfold header_size. simpl negb. cbv iota zeta.
  set (more := if l =? 126 then 2%nat else _).
  change (S (S (length body))) with (2 + length body)%nat.
  destruct (Nat.ltb_spec (2 + length body) (2 + more)); [done|].
  destruct Hm as [->| ->]; [by rewrite Nat.add_0_r|done].
Qed.

(** The part of a frame after its first two bytes. *)
Definition frame_body (mask data : list Z) : list Z :=
  snd (rfc_len (Z.of_nat (length data))) ++ mask ++ (if decide (mask = []) then data else unmask mask 0 data).
Lemma rfc_ext_le n : (length (snd (rfc_len n)) ≤ 8)%nat.
Proof. unfold rfc_len. repeat case_match; simpl snd; rewrite ?length_be_bytes; simpl; lia. Qed.

Lemma mask_le (mask : list Z) : mask_ok mask → (length mask ≤ 4)%nat.
Proof. intros [->|Hm]; [simpl|]; lia. Qed.

(** The length the server reads, and how many bytes of the frame it takes. *)
Definition seen_len (data : list Z) : Z :=
  let n := Z.of_nat (length data) in if n <? 65536 then n else 0.
Definition seen_size (mask data : list Z) : Z :=
  2 + Z.of_nat (length (snd (rfc_len (Z.of_nat (length data)))) + length mask) + seen_len data.

Lemma mask_flag (mask : list Z) : mask_ok mask →
  (if (if decide (mask = []) then 0 else 1) =? 1 then 4%nat else 0%nat) = length mask.
Proof. intros [->|Hm]; [done|]. rewrite decide_False; [done|]. intros ->. done. Qed.

Lemma seen_size_range mask data : mask_ok mask → Z.of_nat (length data) < 2 ^ 32 →
  2 ≤ seen_size mask data < 2 ^ 31.
Proof.
  intros Hm Hn. pose proof (mask_le mask Hm). pose proof (rfc_ext_le (Z.of_nat (length data))).
  unfold seen_size, seen_len. destruct (Z.ltb_spec (Z.of_nat (length data)) 65536); lia.
Qed.

(** The splitter on the header and a body that has at least the extended length. *)
Lemma parsePackage_seen op mask data body : 0 ≤ op < 16 → mask_ok mask →
  Z.of_nat (length data) < 2 ^ 32 → let n := Z.of_nat (length data) in
  parsePackage (header_bytes (MkHeader op 0 0 0 1 (fst (rfc_len n)) (if decide (mask = []) then 0 else 1))
    ++ snd (rfc_len n) ++ body) =
  if Z.of_nat (2 + length (snd (rfc_len n) ++ body)) <? seen_size mask data then 0 else seen_size mask data.
Proof.
  intros Hop Hm Hn n. rewrite parsePackage_header; [|done|apply rfc_len_range; lia|case_decide; auto].
  cbv zeta. rewrite rfc_len_more, server_len by lia. rewrite mask_flag by done.
  pose proof (seen_size_range mask data Hm Hn) as Hr.
  assert (Z.of_nat (2 + length (snd (rfc_len n)) + length mask) +
    (if n <? 65536 then n else 0) = seen_size mask data) as ->
    by (unfold seen_size, seen_len; fold n; destruct (n <? 65536); lia).
  assert (0 ≤ seen_len data) by (unfold seen_len; case_match; lia).
  rewrite (proj2 (Nat.ltb_ge (2 + length (snd (rfc_len n) ++ body)) (2 + length (snd (rfc_len n)))))
    by (rewrite length_app; lia).
  replace (s32 (seen_size mask data)) with (seen_size mask data)
    by (symmetry; apply (swrap_id 32); [done|unfold sfits; simpl; lia]).
  destruct (_ && _) eqn:E; [|done].
  apply andb_true_iff in E as [Em E%Nat.ltb_lt]. pose proof (mask_flag mask Hm) as Hf. rewrite Em in Hf.
  rewrite (proj2 (Z.ltb_lt _ _)); [done|]. unfold seen_size. fold n. lia.
Qed.

(** A prefix of a frame shorter than what the server takes asks for more. *)
Lemma parsePackage_prefix op mask data k : 0 ≤ op < 16 → mask_ok mask →
  Z.of_nat (length data) < 2 ^ 32 → (k < Z.to_nat (seen_size mask data))%nat →
  parsePackage (take k (rfc_frame op mask data)) = 0.
Proof.
  intros Hop Hm Hn Hk. rewrite rfc_frame_bytes. cbn zeta. set (n := Z.of_nat (length data)).
  set (h := header_bytes _). set (body := mask ++ _). destruct (decide (k < 2)%nat) as [Hk2|Hk2].
  { destruct k as [|[|k]]; [done|done|lia]. }
  rewrite (take_app_ge h) by (unfold h; simpl; lia). replace (length h) with 2%nat by done.
  destruct (decide (k - 2 < length (snd (rfc_len n)))%nat) as [Hs|Hs].
  - rewrite (take_app_le (snd (rfc_len n))) by lia. unfold h.
    rewrite parsePackage_header; [|done|apply rfc_len_range; lia|case_decide; auto].
    cbv zeta. rewrite rfc_len_more by lia. rewrite (proj2 (Nat.ltb_lt _ _)); [done|].
    rewrite length_take. lia.
  - rewrite (take_app_ge (snd (rfc_len n))) by lia. unfold h, n. rewrite parsePackage_seen by done.
    rewrite (proj2 (Z.ltb_lt _ _)); [done|]. fold n. rewrite length_app, length_take. lia.
Qed.

Lemma parsePackage_frame op mask data rest : 0 ≤ op < 16 → mask_ok mask →
  Z.of_nat (length data) < 2 ^ 32 → parsePackage (rfc_frame op mask data ++ rest) = seen_size mask data.
Proof.
  intros Hop Hm Hn. rewrite rfc_frame_bytes. cbn zeta. list_norm. rewrite parsePackage_seen by done.
  rewrite (proj2 (Z.ltb_ge _ _)); [done|]. unfold seen_size, seen_len.
  destruct (decide (mask = [])); rewrite !length_app, ?length_unmask; case_match; lia.
Qed.

Lemma bytes_at_app' a b c off n : length a = off → length b = n →
  bytes_at (a ++ b ++ c) off n = Ret b.
Proof. intros <- <-. apply bytes_at_app. Qed.

Definition data_opcode (op : Z) : Prop := op = WS_OPCODE_CONTINUE ∨ op = WS_OPCODE_TEXT ∨ op = WS_OPCODE_BINARY.

Lemma length_allocate s bytes : Z.of_nat (length bytes) < 2 ^ 32 →
  payload_len (allocateMessage s SM_OPCODE_MESSAGE bytes) = Z.of_nat (length bytes).
Proof. intros Hl. apply (wrap_id 32). unfold fits. lia. Qed.

Section Receive.
Context {T : Type} `{SocketServerApi T}.
Context (sha : SHA1) (junk : arr3).

(** A message whose payload is the header and as many data bytes as the server sees. *)
Lemma parsePackage_msg_data op mask data d s (sv : T) : data_opcode op → mask_ok mask →
  Z.of_nat (length data) < 2 ^ 32 → Z.of_nat (length d) = seen_len data →
  let n := Z.of_nat (length data) in
  let hdr := header_bytes (MkHeader op 0 0 0 1 (fst (rfc_len n)) (if decide (mask = []) then 0 else 1)) in
  parsePackage_msg s (allocateMessage s SM_OPCODE_MESSAGE (hdr ++ snd (rfc_len n) ++ mask ++ d)) sv
  = Ret (true, Some (allocateMessage s SM_OPCODE_MESSAGE
           (if decide (mask = []) then d else unmask mask 0 d)), sv).
Proof.
  intros Hop Hm Hn Hd n hdr. pose proof (mask_flag mask Hm) as Hflag.
  assert (0 ≤ op < 16) as Hopr by (destruct Hop as [->|[->| ->]]; by split).
  assert (seen_len data < 2 ^ 16) by (unfold seen_len; destruct (Z.ltb_spec (Z.of_nat (length data)) 65536); lia).
  pose proof (rfc_ext_le n). pose proof (mask_le mask Hm).
  set (buf := hdr ++ _).
  assert (length buf = 2 + length (snd (rfc_len n)) + length mask + length d)%nat as Hbuf
    by (unfold buf; rewrite !length_app; simpl; lia).
  unfold parsePackage_msg. rewrite length_allocate by lia. cbn [payload allocateMessage]. rewrite Hbuf.
  rewrite (proj2 (Z.ltb_ge _ _)) by (unfold header_size; lia).
  replace (bytes_at buf 0 2) with (Ret hdr) by (symmetry; by apply (bytes_at_app' [])).
  cbn [mbind outcome_bind]. unfold hdr.
  rewrite header_decoded; [|done|apply rfc_len_range; lia|case_decide; auto].
  cbn [ws_opcode RSV1 RSV2 RSV3 FIN ws_len MASK]. simpl negb. cbv iota zeta.
  rewrite rfc_len_more by lia. rewrite (proj2 (Z.ltb_ge _ _)) by (unfold header_size; lia).
  replace (bytes_at buf header_size _) with (Ret (snd (rfc_len n))) by (symmetry; by apply bytes_at_app').
  cbn [mbind outcome_bind]. pose proof (server_len n [] ltac:(lia)) as Hlen. rewrite app_nil_r in Hlen.
  rewrite Hlen. fold (seen_len data). clear Hlen.
  assert (bytes_at buf (2 + length (snd (rfc_len n)) + length mask) (Z.to_nat (seen_len data)) = Ret d) as Hdata.
  { replace buf with ((hdr ++ snd (rfc_len n) ++ mask) ++ d ++ [])
      by (unfold buf; by rewrite app_nil_r, <-!app_assoc).
    apply bytes_at_app'; [rewrite !length_app; simpl; lia|lia]. }
  rewrite bool_decide_eq_true_2 by (destruct Hop as [->|[->| ->]]; auto).
  change (if n <? 65536 then n else 0) with (seen_len data). unfold header_size.
  destruct (decide (mask = [])) as [->|Hne]; simpl andb; cbv iota.
  - cbn [mbind outcome_bind]. rewrite (proj2 (Z.ltb_ge _ _)) by (simpl in *; lia).
    replace (bytes_at buf _ _) with (Ret d) by (rewrite <-Hdata; f_equal; simpl; lia). done.
  - simpl in Hflag. rewrite (proj2 (Z.ltb_ge _ _)) by lia.
    replace (bytes_at buf _ 4) with (Ret mask)
      by (symmetry; unfold buf; rewrite app_assoc; apply bytes_at_app'; [rewrite length_app; simpl; lia|lia]).
    cbn [mbind outcome_bind]. change (1 =? 1) with true. cbv iota. rewrite (proj2 (Z.ltb_ge _ _)) by lia.
    replace (bytes_at buf _ _) with (Ret d) by (rewrite <-Hdata; f_equal; simpl; lia). done.
Qed.

Lemma rfc_frame_take_not_GET k op mask data : 0 ≤ op < 16 →
  is_GET (take k (rfc_frame op mask data)) = false.
Proof.
  intros Hop. destruct k as [|[|[|k]]]; try done. rewrite rfc_frame_bytes. unfold header_bytes, is_GET.
  cbn [app ws_opcode RSV1 RSV2 RSV3 FIN take].
  destruct (_ ++ _ ++ _); [done|]. cbn [take]. rewrite (proj2 (Z.eqb_neq _ (ch "G"))); [done|].
  change (ch "G") with 71. lia.
Qed.

Lemma rfc_frame_not_GET op mask data : 0 ≤ op < 16 → is_GET (rfc_frame op mask data) = false.
Proof. intros Hop. rewrite <-(firstn_all (rfc_frame op mask data)). by apply rfc_frame_take_not_GET. Qed.

(** The header of a frame with a 64-bit length. *)
Lemma rfc_frame_head op mask data : mask_ok mask → 65536 ≤ Z.of_nat (length data) →
  let n := Z.of_nat (length data) in
  take (10 + length mask) (rfc_frame op mask data) =
  header_bytes (MkHeader op 0 0 0 1 (fst (rfc_len n)) ((if decide (mask = []) then 0 else 1))) ++
  snd (rfc_len n) ++ mask ++ [].
Proof.
  intros Hm Hn n. rewrite rfc_frame_bytes. cbn zeta. fold n.
  assert (length (snd (rfc_len n)) = 8%nat) as Hl.
  { unfold rfc_len. rewrite (proj2 (Z.ltb_ge n 126)), (proj2 (Z.ltb_ge n 65536)) by lia.
    apply length_be_bytes. }
  set (h := header_bytes _). set (d := if decide (mask = []) then data else _).
  replace (h ++ snd (rfc_len n) ++ mask ++ d) with ((h ++ snd (rfc_len n) ++ mask ++ []) ++ d)
    by (rewrite app_nil_r; by list_norm).
  apply take_app_length'. rewrite !length_app, Hl. simpl. lia.
Qed.

(** A data message read from the server, once its payload is parsed. *)
Lemma ws_receive_data past s buf m (sv sv1 : T) : is_GET buf = false →
  api_receive sv = Ret (Some (allocateMessage s SM_OPCODE_MESSAGE buf), sv1) →
  parsePackage_msg s (allocateMessage s SM_OPCODE_MESSAGE buf) sv1 = Ret (true, Some m, sv1) →
  ws_receiveMessage sha junk past sv = Ret (Some m, sv1).
Proof.
  intros Hg Hr Hp. unfold ws_receiveMessage. rewrite Hr. cbn [mbind outcome_bind msg_opcode allocateMessage payload msg_s].
  rewrite Hg, andb_false_r. by rewrite Hp.
Qed.

(** C28 (roundtrip): what a peer following RFC 6455 sends, masked or not.  A text, binary or
    continuation frame of less than 65536 bytes is cut out of the stream exactly (every
    shorter prefix asks for more, whatever follows is left) and delivered as its unmasked
    payload.  From 65536 to 2^32 - 1 bytes the [ntohl] of the 64-bit length reads its high
    half, which is 0: only the frame's header is consumed, an empty message is delivered,
    and the payload is then parsed as if it were frames. *)
Theorem ws_reads_frames op mask data rest s past (sv sv1 : T) :
  data_opcode op → mask_ok mask → Z.of_nat (length data) < 2 ^ 32 →
  let frame := rfc_frame op mask data in
  let taken := Z.to_nat (parsePackage (frame ++ rest)) in
  (∀ k, (k < taken)%nat → parsePackage (take k frame) = 0) ∧
  (Z.of_nat (length data) < 65536 → taken = length frame) ∧
  (65536 ≤ Z.of_nat (length data) → taken = (10 + length mask)%nat) ∧
  (api_receive sv = Ret (Some (allocateMessage s SM_OPCODE_MESSAGE (take taken frame)), sv1) →
   ws_receiveMessage sha junk past sv = Ret (Some (allocateMessage s SM_OPCODE_MESSAGE
     (if Z.of_nat (length data) <? 65536 then data else [])), sv1)).
Proof.
  intros Hop Hm Hn frame taken. assert (0 ≤ op < 16) as Hopr by (destruct Hop as [->|[->| ->]]; by split).
  pose proof (seen_size_range mask data Hm Hn) as Hr.
  assert (taken = Z.to_nat (seen_size mask data)) as Ht by (unfold taken, frame; by rewrite parsePackage_frame).
  assert (Z.of_nat (length data) < 65536 → taken = length frame) as Hsmall.
  { intros Hs. rewrite Ht. unfold frame, seen_size, seen_len. rewrite rfc_frame_bytes. rewrite (proj2 (Z.ltb_lt _ _) Hs).
    rewrite !length_app. destruct (decide (mask = [])); rewrite ?length_unmask; simpl; lia. }
  assert (65536 ≤ Z.of_nat (length data) → taken = (10 + length mask)%nat) as Hbig.
  { intros Hs. rewrite Ht. unfold seen_size, seen_len, rfc_len.
    rewrite (proj2 (Z.ltb_ge _ 65536) Hs), (proj2 (Z.ltb_ge _ 126)) by lia. simpl snd.
    rewrite length_be_bytes. lia. }
  split_and!; [|done|done|].
  - intros k Hk. apply parsePackage_prefix; [done..|lia].
  - intros Hrc. destruct (Z.ltb_spec (Z.of_nat (length data)) 65536) as [Hs|Hs].
    + rewrite (Hsmall Hs), firstn_all in Hrc. apply (ws_receive_data past s frame); [by apply rfc_frame_not_GET|done|].
      unfold frame. rewrite rfc_frame_bytes. rewrite (parsePackage_msg_data op mask data); try done.
      * by destruct (decide (mask = [])); rewrite ?unmask_involutive.
      * unfold seen_len. rewrite (proj2 (Z.ltb_lt _ _) Hs).
        by destruct (decide (mask = [])); rewrite ?length_unmask.
    + apply (ws_receive_data past s (take taken frame)); [|done|].
      { rewrite (Hbig Hs). by apply rfc_frame_take_not_GET. }
      rewrite (Hbig Hs). unfold frame. rewrite rfc_frame_head by done.
      rewrite (parsePackage_msg_data op mask data); try done; [by destruct (decide (mask = []))|].
      unfold seen_len. by rewrite (proj2 (Z.ltb_ge _ 65536) Hs).
Qed.
End Receive.

(** ** The frames the server sends *)

Lemma ws_frame_header data : ∃ b0 l ext, ws_frame data = b0 :: (l + 128 * 0) :: ext ++ data ∧
  l = (if Z.of_nat (length data) <? 126 then Z.of_nat (length data)
       else if Z.of_nat (length data) <? 65025 then 126 else 127) ∧
  ext = (if l =? 126 then le_bytes 2 (Z.of_nat (length data))
         else if l =? 127 then le_bytes 8 (Z.of_nat (length data)) else []).
Proof. by eexists _, _, _. Qed.

Lemma be_val_le_2 n : 0 ≤ n < 65536 → be_val (le_bytes 2 n) = 256 * (n mod 256) + n / 256.
Proof. intros Hn. unfold be_val. cbn [le_bytes reverse rev_append le_val]. dlia. Qed.

Lemma be_val_le_8 n : 0 < n < 2 ^ 32 → 2 ^ 32 ≤ be_val (le_bytes 8 n).
Proof.
  intros Hn. unfold be_val. change 8%nat with (4 + 4)%nat. rewrite le_bytes_add, reverse_app.
  rewrite (Z.div_small n) by (simpl; lia). change (reverse (le_bytes 4 0)) with [0; 0; 0; 0].
  rewrite le_val_app. change (le_val [0; 0; 0; 0]) with 0. change (256 ^ Z.of_nat (length [0; 0; 0; 0])) with (2 ^ 32).
  assert (1 ≤ le_val (reverse (le_bytes 4 n))); [|lia].
  cbn [le_bytes reverse rev_append le_val]. unfold reverse. cbn [rev_append le_val]. dlia.
Qed.

Section Send.
Context {T : Type} `{SocketServerApi T}.

(** What the server sends.  Below 126 bytes the frame is the unmasked
    text frame of RFC 6455.  The extended lengths are stored as the host has them, low
    byte first: a reader finds 256 * (n mod 256) + n / 256 for 126 to 65024 bytes, which is
    right only for the multiples of 257, and at least 2^32 for every longer message, so
    never the right length; and from 65025 to 65535 bytes the wrong form is used. *)
Theorem ws_sends_frames data : Z.of_nat (length data) < 2 ^ 32 →
  let n := Z.of_nat (length data) in
  (∀ s (sv : T), ws_sendMessage s data sv = api_send s (ws_frame data) sv) ∧
  (n < 126 → ws_frame data = rfc_frame WS_OPCODE_TEXT [] data) ∧
  (126 ≤ n < 65025 → ∃ v, rfc_length (ws_frame data) = Some v ∧
     v = 256 * (n mod 256) + n / 256 ∧ (v = n ↔ n mod 257 = 0)) ∧
  (65025 ≤ n → ∃ v, rfc_length (ws_frame data) = Some v ∧ 2 ^ 32 ≤ v).
Proof.
  intros Hlt n. split_and!; [done|..].
  - intros Hn. rewrite rfc_frame_bytes. unfold ws_frame, rfc_len. fold n. rewrite (proj2 (Z.ltb_lt _ _) Hn).
    by rewrite (proj2 (Z.eqb_neq _ 126)), (proj2 (Z.eqb_neq _ 127)) by lia.
  - intros Hn. destruct (ws_frame_header data) as (b0 & l & ext & -> & -> & ->). fold n.
    rewrite (proj2 (Z.ltb_ge _ 126)), (proj2 (Z.ltb_lt _ 65025)) by lia. cbn [Z.eqb Pos.eqb].
    unfold rfc_length. change ((126 + 128 * 0) mod 128 =? 126) with true. cbv iota.
    rewrite (take_app_length' (le_bytes 2 n)) by (by rewrite length_le_bytes).
    rewrite be_val_le_2 by lia. eexists. split_and!; [done|done|]. dlia.
  - intros Hn. destruct (ws_frame_header data) as (b0 & l & ext & -> & -> & ->). fold n.
    rewrite (proj2 (Z.ltb_ge _ 126)), (proj2 (Z.ltb_ge _ 65025)) by lia. cbn [Z.eqb Pos.eqb].
    unfold rfc_length. change ((127 + 128 * 0) mod 128 =? 126) with false.
    change ((127 + 128 * 0) mod 128 =? 127) with true. cbv iota.
    rewrite (take_app_length' (le_bytes 8 n)) by (by rewrite length_le_bytes).
    eexists. split; [done|]. apply be_val_le_8. lia.
Qed.
End Send.

(** ** The handshake *)

(** Text without line ends and NULs. *)
Definition plain_text (s : list Z) : Prop := bytes_ok s ∧ (10 ∉ s) ∧ (0 ∉ s).
#[export] Instance plain_text_dec s : Decision (plain_text s).
Proof. unfold plain_text. apply _. Defined.

Definition field_ok (kv : list Z * list Z) : Prop := plain_text (fst kv) ∧ (58 ∉ fst kv) ∧ plain_text (snd kv).
#[export] Instance field_ok_dec kv : Decision (field_ok kv).
Proof. unfold field_ok. apply _. Defined.

(** A request: its first line, and the header lines, without the blank line. *)
Definition field_line (kv : list Z * list Z) : list Z := fst kv ++ [58; 32] ++ snd kv ++ [13].
Definition request (first : list Z) (hs : list (list Z * list Z)) : list Z :=
  first ++ [10] ++ concat (map (λ kv, (field_line kv ++ [10])) hs).
Definition headers_of (hs : list (list Z * list Z)) : gmap (list Z) (list Z) :=
  fold_left (λ m kv, <[fst kv := snd kv]> m) hs ∅.

Lemma getlines_line l s : 10 ∉ l → ∀ cur, getlines (l ++ 10 :: s) cur = (cur ++ l) :: getlines s [].
Proof.
  induction l as [|c l IH]; intros Hl cur; simpl; [by rewrite app_nil_r|].
  apply not_elem_of_cons in Hl as [Hc Hl]. destruct (Z.eqb_spec c 10); [lia|].
  rewrite IH by done. by rewrite <-app_assoc.
Qed.

Lemma getlines_last l : 10 ∉ l → ∀ cur, getlines l cur = match cur ++ l with [] => [] | x => [x] end.
Proof.
  induction l as [|c l IH]; intros Hl cur; simpl; [rewrite app_nil_r; by destruct cur|].
  apply not_elem_of_cons in Hl as [Hc Hl]. destruct (Z.eqb_spec c 10); [lia|].
  rewrite IH by done. by rewrite <-app_assoc.
Qed.

Lemma split_colon_field k v : 58 ∉ k → split_colon (k ++ 58 :: 32 :: v) = Some (k, v).
Proof.
  induction k as [|c k IH]; [done|]. intros [Hc Hk]%not_elem_of_cons. specialize (IH Hk).
  cbn [app]. destruct (k ++ 58 :: 32 :: v) as [|d t] eqn:E; [by destruct k|].
  change (split_colon (c :: d :: t)) with
    (if (c =? 58) && (d =? 32) then Some ([], t)
     else match split_colon (d :: t) with Some (k, v) => Some (c :: k, v) | None => None end).
  destruct (Z.eqb_spec c 58); [lia|]. simpl andb. cbv iota. by rewrite IH.
Qed.

Lemma field_line_no_newline kv : field_ok kv → (10 ∉ field_line kv) ∧ no_nul (field_line kv).
Proof.
  intros ((_ & H1 & H2) & _ & (_ & H3 & H4)). unfold field_line, no_nul.
  rewrite !not_elem_of_app. split; split_and!; try done; apply (bool_decide_unpack _); done.
Qed.

Lemma read_field kv ls m : field_ok kv →
  read_headers (field_line kv :: ls) m = read_headers ls (<[fst kv := snd kv]> m).
Proof.
  intros (_ & Hk & _). simpl. assert (field_line kv = (fst kv ++ [58; 32] ++ snd kv) ++ [13]) as E
    by (unfold field_line; by list_norm).
  rewrite bool_decide_eq_false_2.
  2:{ rewrite E. intros E2. apply (f_equal length) in E2. rewrite !length_app in E2. simpl in E2. lia. }
  rewrite E, last_snoc. simpl. rewrite removelast_last. by rewrite split_colon_field.
Qed.

Lemma read_fields hs ls : Forall field_ok hs → ∀ m,
  read_headers (map field_line hs ++ ls) m =
  read_headers ls (fold_left (λ m kv, <[fst kv := snd kv]> m) hs m).
Proof.
  induction 1 as [|kv hs Hkv Hhs IH]; intros m; [done|]. cbn [map app fold_left].
  by rewrite read_field, IH.
Qed.

Lemma getlines_fields hs t : Forall field_ok hs →
  getlines (concat (map (λ kv, (field_line kv ++ [10])) hs) ++ t) [] = map field_line hs ++ getlines t [].
Proof.
  induction 1 as [|kv hs Hkv Hhs IH]; [done|]. cbn [map concat]. list_norm.
  rewrite getlines_line by (by apply field_line_no_newline). by rewrite IH.
Qed.

Lemma request_no_nul first hs : plain_text first → Forall field_ok hs → no_nul (request first hs).
Proof.
  intros (_ & _ & Hf) Hhs. unfold no_nul, request. rewrite !not_elem_of_app. split_and!; [done|by apply (bool_decide_unpack _)|].
  induction Hhs as [|kv hs Hkv Hhs IH]; [by apply not_elem_of_nil|]. simpl.
  rewrite !not_elem_of_app. split_and!; [by apply field_line_no_newline|by apply (bool_decide_unpack _)|done].
Qed.

(** The header lines of a request followed by [t]. *)
Lemma read_request first hs t : plain_text first → Forall field_ok hs →
  read_headers (tail (getlines (c_str (request first hs ++ t)) [])) ∅ =
  read_headers (getlines (c_str t) []) (headers_of hs).
Proof.
  intros Hf Hhs. rewrite c_str_app by (by apply request_no_nul). unfold request. list_norm.
  rewrite getlines_line by apply Hf. simpl tail. rewrite getlines_fields by done. by apply read_fields.
Qed.

Lemma headers_of_In hs k v : headers_of hs !! k = Some v → (k, v) ∈ hs.
Proof.
  unfold headers_of. assert (∀ m : gmap (list Z) (list Z), fold_left (λ m kv, <[fst kv := snd kv]> m) hs m !! k = Some v →
    (k, v) ∈ hs ∨ m !! k = Some v) as Hgen.
  { induction hs as [|[k' v'] hs IH]; intros m Hm; [by right|]. simpl in Hm.
    destruct (IH _ Hm) as [Hin|Hin]; [left; by apply list_elem_of_further|].
    destruct (decide (k' = k)) as [->|Hne].
    - rewrite lookup_insert_eq in Hin. injection Hin as ->. left. by apply list_elem_of_here.
    - rewrite lookup_insert_ne in Hin by done. by right. }
  intros Hm. by destruct (Hgen ∅ Hm).
Qed.

(** The digest of a key in the response. *)
Definition accept_spec (key : list Z) : list Z :=
  b64_spec (concat (map (be_bytes 4) (Fips.sha1 (key ++ MAGIC_KEY)))).

Lemma input_singletons l : ∀ s, fold_left (λ s b, Input s [b]) l s = fold_left Input (map (λ b, [b]) l) s.
Proof. induction l as [|b l IH]; intros s; [done|]. apply IH. Qed.

Lemma concat_singletons (l : list Z) : concat (map (λ b, [b]) l) = l.
Proof. induction l as [|b l IH]; simpl; [done|]. by rewrite IH. Qed.

Lemma accept_key_spec sha junk key : length (Message_Block sha) = 64%nat → bytes_ok (Message_Block sha) →
  bytes_ok key → no_nul key → Z.of_nat (length key) < 2 ^ 32 →
  accept_key sha junk key = Ret (accept_spec key).
Proof.
  intros Hl Hb Hk Hn Hlen. assert (no_nul (key ++ MAGIC_KEY)) as Hn2.
  { unfold no_nul. rewrite not_elem_of_app. split; [done|]. apply (bool_decide_unpack _). vm_compute. exact I. }
  assert (bytes_ok (key ++ MAGIC_KEY)) as Hb2 by (apply Forall_app; split; [done|apply bytes_ok_str]).
  assert (8 * Z.of_nat (length (key ++ MAGIC_KEY)) < 2 ^ 64) as Hlen2.
  { rewrite length_app. change (length MAGIC_KEY) with 36%nat. lia. }
  unfold accept_key, input_cstr. rewrite c_str_id by done.
  rewrite input_singletons. pose proof (concat_singletons (key ++ MAGIC_KEY)) as Hc.
  assert (Forall bytes_ok (map (λ b, [b]) (key ++ MAGIC_KEY))) as Hch.
  { apply Forall_fmap. eapply Forall_impl; [exact Hb2|]. intros b Hbk. by constructor. }
  pose proof (Inputs_absorbed _ (Reset sha) [] (absorbed_Reset sha Hl Hb) Hch) as Ha.
  cbn [app] in Ha. rewrite Hc in Ha.
  rewrite (Result_absorbed _ (key ++ MAGIC_KEY)); [|by apply Ha|done].
  set (d := concat _). assert (length d = 20%nat) as Hd.
  { unfold d. assert (length (Fips.sha1 (key ++ MAGIC_KEY)) = 5%nat) as H5 by apply hash_blocks_ok.
    by destruct (Fips.sha1 _) as [|x1 [|x2 [|x3 [|x4 [|x5 [|x6 xs]]]]]]. }
  replace 20 with (Z.of_nat (length d)) by (by rewrite Hd). apply base64_encode_spec; [|by rewrite Hd].
  apply Forall_concat, Forall_fmap, Forall_true. intros z. apply be_bytes_ok.
Qed.

(** What [parse_handshake_request] answers from the headers it read. *)
Definition handshake_answer (n : nat) (hs : list (list Z * list Z)) : Z * list Z :=
  if forallb (λ k, bool_decide (is_Some (headers_of hs !! k))) required_keys
  then (s32 (Z.of_nat n), default [] (headers_of hs !! str "Sec-WebSocket-Key")) else (0, []).

(** The blank line ends the reading, whatever follows. *)
Lemma parse_complete first hs rest past : plain_text first → Forall field_ok hs →
  parse_handshake_request (request first hs ++ CRLF ++ rest) past =
  Ret (handshake_answer (length (request first hs ++ CRLF ++ rest)) hs).
Proof.
  intros Hf Hhs. unfold parse_handshake_request, handshake_answer. rewrite <-!(app_assoc _ _ past).
  rewrite read_request by done.
  change (c_str (CRLF ++ rest ++ past)) with (13 :: 10 :: c_str (rest ++ past)).
  change (getlines (13 :: 10 :: c_str (rest ++ past)) []) with ([13] :: getlines (c_str (rest ++ past)) []).
  cbn [read_headers]. rewrite bool_decide_eq_true_2 by done. cbn [mbind outcome_bind].
  by destruct (forallb _ _).
Qed.

(** Without it, a last line that is not complete is skipped. *)
Lemma parse_partial first hs part past : plain_text first → Forall field_ok hs →
  plain_text part → last part ≠ Some 13 →
  parse_handshake_request (request first hs ++ part) (0 :: past) =
  Ret (handshake_answer (length (request first hs ++ part)) hs).
Proof.
  intros Hf Hhs (_ & Hp1 & Hp2) Hl. unfold parse_handshake_request, handshake_answer.
  rewrite <-(app_assoc _ _ (0 :: past)), read_request by done.
  rewrite c_str_app by done. cbn [c_str Z.eqb]. rewrite app_nil_r, getlines_last by done. cbn [app].
  assert (read_headers match part with [] => [] | b :: l => [b :: l] end (headers_of hs) = Ret (headers_of hs)) as ->.
  { destruct (last part) as [c|] eqn:El; [|by apply last_None in El as ->].
    destruct part as [|b part]; [done|]. cbn [read_headers]. rewrite El.
    rewrite bool_decide_eq_false_2 by (intros E; rewrite E in El; simpl in El; congruence).
    destruct (Z.eqb_spec c 13); [congruence|]. done. }
  cbn [mbind outcome_bind]. by destruct (forallb _ _).
Qed.

Section Handshake.
Context {T : Type} `{SocketServerApi T}.
Context (sha : SHA1) (junk : arr3).

Lemma ws_receive_handshake past s whole key (sv sv1 : T) :
  length (Message_Block sha) = 64%nat → bytes_ok (Message_Block sha) →
  is_GET whole = true → 3 ≤ Z.of_nat (length whole) < 2 ^ 31 → plain_text key → Z.of_nat (length key) < 2 ^ 32 →
  parse_handshake_request whole past = Ret (Z.of_nat (length whole), key) →
  api_receive sv = Ret (Some (allocateMessage s SM_OPCODE_MESSAGE whole), sv1) →
  ws_receiveMessage sha junk past sv =
    (sv2 ← api_send s (handshake_response (accept_spec key)) sv1;
     Ret (Some (allocateMessage s SM_OPCODE_MESSAGE whole), sv2)).
Proof.
  intros Hl Hb HG Hlen (Hk1 & _ & Hk2) Hklen Hp Hr. unfold ws_receiveMessage. rewrite Hr.
  cbn [mbind outcome_bind].
  assert (payload_len (allocateMessage s SM_OPCODE_MESSAGE whole) = Z.of_nat (length whole)) as Hpl
    by (apply length_allocate; lia).
  assert (message_bytes (allocateMessage s SM_OPCODE_MESSAGE whole) = whole) as Hmb
    by (unfold message_bytes; rewrite Hpl, Nat2Z.id; apply firstn_all).
  rewrite Hpl, Hmb. cbn [msg_opcode allocateMessage payload msg_s].
  rewrite HG, (proj2 (Z.leb_le 3 _)) by lia. cbn [andb]. rewrite Hp. cbn [mbind outcome_bind].
  rewrite (proj2 (Z.ltb_lt 0 _)), Z.eqb_refl by lia. cbn [andb cxx_assert mbind outcome_bind].
  unfold send_handshake_response. by rewrite accept_key_spec.
Qed.

(** A field is no longer than its request. *)
Lemma field_length first hs kv : kv ∈ hs → (length (snd kv) ≤ length (request first hs))%nat.
Proof.
  intros Hin. unfold request. rewrite !length_app.
  assert (length (snd kv) ≤ length (concat (map (λ kv, (field_line kv ++ [10%Z])) hs)))%nat; [|simpl; lia].
  induction Hin as [kv hs|kv kv' hs Hin IH]; simpl; rewrite length_app; [|lia].
  unfold field_line. rewrite !length_app. simpl. lia.
Qed.

(** C33 (functional): the handshake.  A request whose header lines include the five
    required ones is answered, when its message arrives, with the RFC 6455 response: the
    base64 of the SHA-1 of the key and the GUID, whatever the uninitialised locals hold.
    The splitter takes a request as complete as soon as the five lines are there, before
    the blank line has come, and always takes all the bytes received, including what
    follows the blank line; without one of the five it waits for more. *)
Theorem ws_handshake first hs rest part past key s (sv sv1 : T) :
  length (Message_Block sha) = 64%nat → bytes_ok (Message_Block sha) →
  plain_text first → Forall field_ok hs → plain_text part → last part ≠ Some 13 →
  Z.of_nat (length (request first hs ++ CRLF ++ rest ++ part)) < 2 ^ 31 →
  is_GET first = true → headers_of hs !! str "Sec-WebSocket-Key" = Some key →
  let whole := request first hs ++ CRLF ++ rest in
  let early := request first hs ++ part in
  if forallb (λ k, bool_decide (is_Some (headers_of hs !! k))) required_keys then
    ws_split past whole = Ret (Z.of_nat (length whole)) ∧
    ws_split (0 :: past) early = Ret (Z.of_nat (length early)) ∧
    (api_receive sv = Ret (Some (allocateMessage s SM_OPCODE_MESSAGE whole), sv1) →
     ws_receiveMessage sha junk past sv =
       (sv2 ← api_send s (handshake_response (accept_spec key)) sv1;
        Ret (Some (allocateMessage s SM_OPCODE_MESSAGE whole), sv2)))
  else ws_split past whole = Ret 0 ∧ ws_split (0 :: past) early = Ret 0.
Proof.
  intros Hl Hb Hf Hhs Hp Hlast Hlen HG Hkey whole early.
  assert (∀ t, is_GET (request first hs ++ t) = true) as HG2.
  { intros t. unfold request. destruct first as [|? [|? [|? ?]]]; try discriminate HG. exact HG. }
  assert (length whole ≤ length (request first hs ++ CRLF ++ rest ++ part))%nat
    by (unfold whole; rewrite !length_app; lia).
  assert (length early ≤ length (request first hs ++ CRLF ++ rest ++ part))%nat
    by (unfold early; rewrite !length_app; lia).
  assert (∀ n, (n ≤ length (request first hs ++ CRLF ++ rest ++ part))%nat → s32 (Z.of_nat n) = Z.of_nat n) as Hs32.
  { intros n Hn. apply (swrap_id 32); [done|]. unfold sfits. simpl. lia. }
  unfold ws_split, whole, early. rewrite !HG2. rewrite parse_complete, parse_partial by done.
  fold whole early. unfold handshake_answer.
  destruct (forallb _ _) eqn:Ereq; cbn [mbind outcome_bind fst]; [|done].
  split_and!; [f_equal; by apply Hs32|f_equal; by apply Hs32|].
  intros Hr. apply (ws_receive_handshake past s whole key sv sv1); try done; [apply HG2|..].
  - unfold whole. rewrite !length_app in *. simpl in *. split; [|lia].
    unfold request in *. rewrite !length_app. destruct first as [|? [|? ?]]; try discriminate HG. simpl. lia.
  - apply headers_of_In in Hkey. rewrite Forall_forall in Hhs. by destruct (Hhs _ Hkey) as (_ & _ & ?).
  - apply headers_of_In, (field_length first) in Hkey. rewrite length_app in Hlen. simpl in Hkey. lia.
  - unfold whole. rewrite parse_complete by done. unfold handshake_answer.
    by rewrite Ereq, Hkey, Hs32 by done.
Qed.
End Handshake.

Definition sha_blank : SHA1 := MkSHA1 [] 0 0 (replicate 64 0) 0 false false.

Lemma ws_reads_frames_witness :
  let frame := rfc_frame WS_OPCODE_TEXT [1; 2; 3; 4] (str "hello") in
  ws_receiveMessage sha_blank (0, 0, 0) []
    (MkRecorder [allocateMessage 7 SM_OPCODE_MESSAGE (take (Z.to_nat (parsePackage (frame ++ [9; 9]))) frame)] [])
  = Ret (Some (allocateMessage 7 SM_OPCODE_MESSAGE (str "hello")), MkRecorder [] []).
Proof.
  cbv zeta. apply (ws_reads_frames sha_blank (0, 0, 0) WS_OPCODE_TEXT [1; 2; 3; 4] (str "hello") [9; 9] 7 []).
  - right. left. reflexivity.
  - right. reflexivity.
  - vm_compute. reflexivity.
  - reflexivity.
Defined.

Lemma ws_sends_frames_witness :
  ∃ v, rfc_length (ws_frame (replicate 130 7)) = Some v ∧ v = 33280.
Proof.
  destruct (ws_sends_frames (T := recorder) (replicate 130 7)) as (_ & _ & H & _); [vm_compute; reflexivity|].
  destruct H as (v & Hv & E & _); [split; vm_compute; [discriminate|reflexivity]|].
  exists v. split; [exact Hv|exact E].
Defined.

(** The sample handshake of RFC 6455, section 1.3. *)
Definition rfc_fields : list (list Z * list Z) :=
  [(str "Host", str "server.example.com"); (str "Upgrade", str "websocket"); (str "Connection", str "Upgrade");
   (str "Sec-WebSocket-Key", str "dGhlIHNhbXBsZSBub25jZQ=="); (str "Sec-WebSocket-Version", str "13")].
Definition rfc_request : list Z := request (str "GET /chat HTTP/1.1") rfc_fields ++ CRLF ++ [].

Lemma rfc_accept : accept_spec (str "dGhlIHNhbXBsZSBub25jZQ==") = str "s3pPLMBiTxaQ9kYGzzhZRbK+xOo=".
Proof.
  assert (accept_key sha_blank (0, 0, 0) (str "dGhlIHNhbXBsZSBub25jZQ==") =
    Ret (str "s3pPLMBiTxaQ9kYGzzhZRbK+xOo=")) as E by (vm_compute; reflexivity).
  rewrite accept_key_spec in E; [congruence|reflexivity|apply (bool_decide_unpack _); vm_compute; exact I..|].
  vm_compute. reflexivity.
Qed.

Lemma ws_handshake_witness :
  ws_split [] rfc_request = Ret (Z.of_nat (length rfc_request)) ∧
  ws_receiveMessage sha_blank (0, 0, 0) [] (MkRecorder [allocateMessage 7 SM_OPCODE_MESSAGE rfc_request] [])
  = Ret (Some (allocateMessage 7 SM_OPCODE_MESSAGE rfc_request),
         MkRecorder [] [CallSend 7 (handshake_response (str "s3pPLMBiTxaQ9kYGzzhZRbK+xOo="))]).
Proof.
  rewrite <-rfc_accept.
  pose proof (ws_handshake (T := recorder) sha_blank (0, 0, 0) (str "GET /chat HTTP/1.1") rfc_fields [] [] []
    (str "dGhlIHNhbXBsZSBub25jZQ==") 7
    (MkRecorder [allocateMessage 7 SM_OPCODE_MESSAGE rfc_request] []) (MkRecorder [] [])) as H.
  assert (forallb (λ k, bool_decide (is_Some (headers_of rfc_fields !! k))) required_keys = true) as E
    by (vm_compute; reflexivity).
  rewrite E in H. destruct H as (H1 & _ & H2).
  - reflexivity.
  - apply (bool_decide_unpack _). vm_compute. exact I.
  - apply (bool_decide_unpack _). vm_compute. exact I.
  - apply (bool_decide_unpack _). vm_compute. exact I.
  - apply (bool_decide_unpack _). vm_compute. exact I.
  - discriminate.
  - vm_compute. reflexivity.
  - vm_compute. reflexivity.
  - vm_compute. reflexivity.
  - split; [exact H1|]. revert H2. generalize (accept_spec (str "dGhlIHNhbXBsZSBub25jZQ==")).
    intros a H2. apply H2. reflexivity.
Defined.
