(* ===== verification/Calendar.v ===== *)
(** * Dates: [timestamp] and [timestamp_gmt] of src/tools/Tools.cpp

    [gmtime_r] and [strftime] of the C library, for times from 1970 on, and the two
    functions that print with them.  [CONVERT_CST_TIME] is defined in the source. *)

From S2P Require Import Prelude CLib.

(** ** [gmtime_r] *)

Record tm := MkTm { tm_sec : Z; tm_min : Z; tm_hour : Z; tm_mday : Z; tm_mon : Z; tm_year : Z; tm_wday : Z }.

Definition leap (y : Z) : bool := (y mod 4 =? 0) && (negb (y mod 100 =? 0) || (y mod 400 =? 0)).
Definition year_days (y : Z) : Z := if leap y then 366 else 365.
Definition month_lengths (y : Z) : list Z := [31; if leap y then 29 else 28; 31; 30; 31; 30; 31; 31; 30; 31; 30; 31].
(** The year and the day in it; the month and the day in it. *)
Fixpoint year_of (fuel : nat) (y d : Z) : Z * Z :=
  match fuel with
  | O => (y, d)
  | S fuel => if d <? year_days y then (y, d) else year_of fuel (y + 1) (d - year_days y)
  end.
Fixpoint month_of (lengths : list Z) (m d : Z) : Z * Z :=
  match lengths with
  | [] => (m, d)
  | len :: lengths => if d <? len then (m, d) else month_of lengths (m + 1) (d - len)
  end.
(** Year, month from 0 and day from 1 of a day counted from 1970-01-01. *)
Definition civil (day : Z) : Z * Z * Z :=
  let '(y, yd) := year_of (Z.to_nat (day / 365)) 1970 day in
  let '(m, md) := month_of (month_lengths y) 0 yd in
  (y, m, md + 1).
Definition gmtime_r (t : Z) : tm :=
  let '(y, m, d) := civil (t / 86400) in
  MkTm (t mod 60) (t / 60 mod 60) (t / 3600 mod 24) d m (y - 1900) ((t / 86400 + 4) mod 7).

(** ** [strftime], for the conversions the code uses *)

Definition pad2 (z : Z) : list Z := [48 + z / 10 mod 10; 48 + z mod 10].
Definition day_names : list (list Z) := [str "Sun"; str "Mon"; str "Tue"; str "Wed"; str "Thu"; str "Fri"; str "Sat"].
Definition month_names : list (list Z) :=
  [str "Jan"; str "Feb"; str "Mar"; str "Apr"; str "May"; str "Jun"; str "Jul"; str "Aug"; str "Sep"; str "Oct"; str "Nov"; str "Dec"].
Definition conversion (c : Z) (t : tm) : list Z :=
  if c =? ch "Y" then dec_int (tm_year t + 1900)
  else if c =? ch "y" then pad2 (tm_year t mod 100)
  else if c =? ch "m" then pad2 (tm_mon t + 1)
  else if c =? ch "d" then pad2 (tm_mday t)
  else if c =? ch "H" then pad2 (tm_hour t)
  else if c =? ch "M" then pad2 (tm_min t)
  else if c =? ch "S" then pad2 (tm_sec t)
  else if c =? ch "a" then nth (Z.to_nat (tm_wday t)) day_names []
  else if c =? ch "b" then nth (Z.to_nat (tm_mon t)) month_names []
  else [].
(** A conversion is %, perhaps the width 02, which changes none of these, and its letter. *)
Fixpoint strftime_text (format : list Z) (t : tm) : list Z :=
  match format with
  | [] => []
  | 37 :: 48 :: 50 :: c :: format => conversion c t ++ strftime_text format t
  | 37 :: c :: format => conversion c t ++ strftime_text format t
  | c :: format => c :: strftime_text format t
  end.
(** A text that does not fit leaves the buffer undefined. *)
Definition strftime (max : Z) (format : list Z) (t : tm) : outcome (list Z) :=
  let s := strftime_text format t in
  if Z.of_nat (length s) <? max then Ret s else Undef.

(** ** The source *)

(** The time zone the code adds: 8 hours. *)
Definition CST : Z := 8 * 3600.
(** [now] is what [gettimeofday] says when [seconds] is 0. *)
Definition default_format : list Z := str "%y/%02m/%02d %02H:%02M:%02S".
Definition timestamp (len seconds : Z) (time_format : option (list Z)) (now : Z) : outcome (list Z) :=
  let tv_sec := if seconds =? 0 then now else seconds in
  strftime len (default default_format time_format) (gmtime_r (tv_sec + CST)).
Definition timestamp_gmt (len seconds now : Z) : outcome (list Z) :=
  let tv_sec := if seconds =? 0 then now else seconds in
  strftime len (str "%a, %d %b %Y %H:%M:%S GMT") (gmtime_r (tv_sec + CST)).

Example timestamp_ex : timestamp 64 1530284658 None 0 = Ret (str "18/06/29 23:04:18").
Proof. vm_compute. reflexivity. Qed.
Example timestamp_gmt_ex : timestamp_gmt 64 1489268991 0 = Ret (str "Sun, 12 Mar 2017 05:49:51 GMT").
Proof. vm_compute. reflexivity. Qed.

(** ** The calendar counts days *)

(** The days before a year, from 1970 on: one leap day in 4 years, but 97 in 400. *)
Definition days_before_year (y : Z) : Z := 365 * (y - 1970) + ((y - 1) / 4 - (y - 1) / 100 + (y - 1) / 400 - 477).
Definition days_before_month (y m : Z) : Z := foldr Z.add 0 (take (Z.to_nat m) (month_lengths y)).
Definition day_number (y m d : Z) : Z := days_before_year y + days_before_month y m + d - 1.

Lemma year_days_cases y : year_days y = 365 ∨ year_days y = 366.
Proof. unfold year_days. destruct (leap y); lia. Qed.

Lemma days_before_year_next y : days_before_year (y + 1) = days_before_year y + year_days y.
Proof.
  unfold days_before_year, year_days, leap. replace (y + 1 - 1) with y by lia.
  destruct (Z.eqb_spec (y mod 4) 0), (Z.eqb_spec (y mod 100) 0), (Z.eqb_spec (y mod 400) 0); cbn; dlia.
Qed.

Lemma year_of_spec fuel : ∀ y d y' d', 0 ≤ d < 365 * Z.of_nat fuel + 365 → year_of fuel y d = (y', d') →
  y ≤ y' ∧ 0 ≤ d' < year_days y' ∧ days_before_year y + d = days_before_year y' + d'.
Proof.
  induction fuel as [|fuel IH]; intros y d y' d' Hd; cbn [year_of].
  - intros [= <- <-]. pose proof (year_days_cases y). lia.
  - destruct (Z.ltb_spec d (year_days y)); [intros [= <- <-]; lia|].
    pose proof (year_days_cases y). intros E. apply IH in E; [|lia]. pose proof (days_before_year_next y). lia.
Qed.

Lemma month_of_spec ls : ∀ m d m' d', 0 ≤ d < foldr Z.add 0 ls → month_of ls m d = (m', d') →
  ∃ k len, m' = m + Z.of_nat k ∧ ls !! k = Some len ∧ 0 ≤ d' < len ∧ foldr Z.add 0 (take k ls) + d' = d.
Proof.
  induction ls as [|len ls IH]; intros m d m' d' Hd; cbn [month_of foldr] in *; [lia|].
  destruct (Z.ltb_spec d len).
  - intros [= <- <-]. exists 0%nat, len. split_and!; [lia|done|lia|lia|done].
  - intros (k & len' & -> & Hk & Hr & Hs)%IH; [|lia]. exists (S k), len'.
    split_and!; [lia|done|lia|lia|cbn; lia].
Qed.

Lemma month_lengths_sum y : foldr Z.add 0 (month_lengths y) = year_days y.
Proof. unfold month_lengths, year_days. by destruct (leap y). Qed.

Lemma month_length_range y m len : month_lengths y !! m = Some len → (m < 12)%nat ∧ 28 ≤ len ≤ 31.
Proof.
  unfold month_lengths. intros Hm. split; [by apply lookup_lt_Some in Hm|].
  apply (Forall_lookup_1 (λ len, 28 ≤ len ≤ 31) _ _ _) in Hm; [done|]. destruct (leap y); repeat constructor; lia.
Qed.

Lemma civil_spec day y m d : 0 ≤ day → civil day = (y, m, d) →
  1970 ≤ y ∧ 0 ≤ m < 12 ∧ (∃ len, month_lengths y !! Z.to_nat m = Some len ∧ 1 ≤ d ≤ len) ∧ day = day_number y m d.
Proof.
  intros Hd. unfold civil. destruct (year_of _ 1970 day) as [y' yd] eqn:Ey. apply year_of_spec in Ey as (Hy & Hyd & Eq); [|dlia].
  destruct (month_of _ 0 yd) as [m' md] eqn:Em. rewrite <-month_lengths_sum in Hyd.
  apply month_of_spec in Em as (k & len & -> & Hk & Hmd & Hs); [|done]. intros [= <- <- <-].
  destruct (month_length_range _ _ _ Hk) as [H12 _]. split_and!; [lia..|exists len; split; [|lia]|].
  - by rewrite Z.add_0_l, Nat2Z.id.
  - unfold day_number, days_before_month. rewrite Z.add_0_l, Nat2Z.id. change (days_before_year 1970) with 0 in Eq. lia.
Qed.

(** The first day of a month. *)
Definition month_start (y m : Z) : Z := days_before_year y + days_before_month y m.

Lemma days_before_month_next y m : 0 ≤ m < 12 → days_before_month y m + 28 ≤ days_before_month y (m + 1).
Proof.
  intros Hm. unfold days_before_month, month_lengths. replace (Z.to_nat (m + 1)) with (S (Z.to_nat m)) by lia.
  assert (Z.to_nat m < 12)%nat as Hn by lia. revert Hn. generalize (Z.to_nat m) as k. clear. intros k Hk.
  do 12 (destruct k as [|k]; [cbn; destruct (leap y); lia|]). lia.
Qed.

Lemma days_before_month_le y m m' : 0 ≤ m → m < m' → m' ≤ 12 → days_before_month y m + 28 ≤ days_before_month y m'.
Proof.
  intros H0 H1 H2. assert (∃ k, m' = m + 1 + Z.of_nat k) as [k ->] by (exists (Z.to_nat (m' - m - 1)); lia).
  clear H1. induction k as [|k IH].
  - replace (m + 1 + Z.of_nat 0) with (m + 1) by lia. apply days_before_month_next. lia.
  - specialize (IH ltac:(lia)). pose proof (days_before_month_next y (m + 1 + Z.of_nat k)) as Hn.
    replace (m + 1 + Z.of_nat (S k)) with (m + 1 + Z.of_nat k + 1) by lia. lia.
Qed.

Lemma days_before_year_le y y' : y < y' → days_before_year y + year_days y ≤ days_before_year y'.
Proof.
  intros Hy. rewrite <-days_before_year_next. assert (∃ k, y' = y + 1 + Z.of_nat k) as [k ->] by (exists (Z.to_nat (y' - y - 1)); lia).
  clear Hy. induction k as [|k IH]; [by rewrite Z.add_0_r|].
  replace (y + 1 + Z.of_nat (S k)) with (y + 1 + Z.of_nat k + 1) by lia. rewrite (days_before_year_next (y + 1 + Z.of_nat k)).
  pose proof (year_days_cases (y + 1 + Z.of_nat k)). lia.
Qed.

Lemma days_before_month_12 y : days_before_month y 12 = year_days y.
Proof. unfold days_before_month. apply month_lengths_sum. Qed.

Lemma month_start_lt y m y' m' : 0 ≤ m < 12 → 0 ≤ m' < 12 → y < y' ∨ (y = y' ∧ m < m') → month_start y m + 28 ≤ month_start y' m'.
Proof.
  unfold month_start. intros Hm Hm' [Hy|[<- Hlt]].
  - pose proof (days_before_year_le y y' Hy). pose proof (days_before_month_le y m 12) as H12. rewrite days_before_month_12 in H12.
    assert (0 ≤ days_before_month y' m'); [|lia].
    destruct (Z.eq_dec m' 0) as [->|Hne]; [done|]. pose proof (days_before_month_le y' 0 m') as H0. change (days_before_month y' 0) with 0 in H0. lia.
  - pose proof (days_before_month_le y m m'). lia.
Qed.

(** Days less than 28 apart have different numbers in their months. *)
Lemma mday_differs a b : 0 ≤ a → a < b → b < a + 28 → (civil a).2 ≠ (civil b).2.
Proof.
  intros Ha Hab Hb. destruct (civil a) as [[y m] d] eqn:Ea, (civil b) as [[y' m'] d'] eqn:Eb. cbn. intros <-.
  apply civil_spec in Ea as (_ & Hm & _ & Ea); [|done]. apply civil_spec in Eb as (_ & Hm' & _ & Eb); [|lia].
  unfold day_number in *. pose proof (month_start_lt y m y' m' Hm Hm') as H1. pose proof (month_start_lt y' m' y m Hm' Hm) as H2.
  unfold month_start in *. destruct (Z.lt_trichotomy y y') as [|[<-|]]; [lia| |lia].
  destruct (Z.lt_trichotomy m m') as [|[<-|]]; lia.
Qed.

(** The last day that has four digits for its year. *)
Definition last_day : Z := 2932896.

Lemma civil_year day y m d : 0 ≤ day ≤ last_day → civil day = (y, m, d) → 1970 ≤ y < 10000.
Proof.
  intros Hday Ec. apply civil_spec in Ec as (Hy & Hm & (len & Hlen & Hd) & E); [|lia]. split; [done|].
  destruct (Z.lt_ge_cases y 10000) as [|Hge]; [done|]. unfold day_number in E.
  assert (days_before_year 10000 ≤ days_before_year y) as Hle.
  { destruct (Z.eq_dec y 10000) as [->|]; [done|]. pose proof (days_before_year_le 10000 y). pose proof (year_days_cases 10000). lia. }
  change (days_before_year 10000) with 2932897 in Hle. unfold last_day in Hday.
  assert (0 ≤ days_before_month y m); [|lia]. destruct (Z.eq_dec m 0) as [->|]; [done|].
  pose proof (days_before_month_le y 0 m) as H2. change (days_before_month y 0) with 0 in H2. lia.
Qed.

(** ** Reading an HTTP date *)

Definition two (a b : Z) : Z := 10 * (a - 48) + (b - 48).
Definition month_index (name : list Z) : option Z :=
  (λ p, Z.of_nat (fst p)) <$> list_find (λ n, n = name) month_names.
(** The seconds since 1970 of an IMF-fixdate of RFC 7231. *)
Definition read_imf (s : list Z) : option Z :=
  match s with
  | _ :: _ :: _ :: 44 :: 32 :: d1 :: d2 :: 32 :: m1 :: m2 :: m3 :: 32 :: y1 :: y2 :: y3 :: y4 :: 32 ::
      h1 :: h2 :: 58 :: i1 :: i2 :: 58 :: s1 :: s2 :: zone =>
      if bool_decide (zone = str " GMT") then
        m ← month_index [m1; m2; m3];
        Some (day_number (100 * two y1 y2 + two y3 y4) m (two d1 d2) * 86400 + two h1 h2 * 3600 + two i1 i2 * 60 + two s1 s2)
      else None
  | _ => None
  end.

Lemma dec4 y : 1000 ≤ y < 10000 → dec_int y = [48 + y / 1000; 48 + y / 100 mod 10; 48 + y / 10 mod 10; 48 + y mod 10].
Proof.
  intros Hy. unfold dec_int, dec. rewrite (proj2 (Z.ltb_ge y 0)) by lia.
  assert (9 ≤ Z.log2 y) as Hl by (change 9 with (Z.log2 1000); apply Z.log2_le_mono; lia).
  replace (Z.to_nat (Z.log2 y + 1)) with (S (S (S (S (Z.to_nat (Z.log2 y - 3)))))) by lia. cbn [dec_rev].
  rewrite (proj2 (Z.ltb_ge y 10)), (proj2 (Z.ltb_ge (y / 10) 10)), (proj2 (Z.ltb_ge (y / 10 / 10) 10)) by dlia.
  rewrite (proj2 (Z.ltb_lt (y / 10 / 10 / 10) 10)) by dlia. unfold reverse. cbn [rev_append].
  by rewrite !Z.div_div by lia.
Qed.

Lemma two_pad2 z : 0 ≤ z < 100 → two (48 + z / 10 mod 10) (48 + z mod 10) = z.
Proof. unfold two. intros Hz. dlia. Qed.

Lemma month_index_name m : 0 ≤ m < 12 → ∃ a b c, nth (Z.to_nat m) month_names [] = [a; b; c] ∧ month_index [a; b; c] = Some m.
Proof.
  intros Hm. assert (m = 0 ∨ m = 1 ∨ m = 2 ∨ m = 3 ∨ m = 4 ∨ m = 5 ∨ m = 6 ∨ m = 7 ∨ m = 8 ∨ m = 9 ∨ m = 10 ∨ m = 11) as Hc by lia.
  repeat (destruct Hc as [->|Hc]; [by eexists _, _, _|]). subst. by eexists _, _, _.
Qed.

Lemma day_name w : 0 ≤ w < 7 → ∃ a b c, nth (Z.to_nat w) day_names [] = [a; b; c].
Proof.
  intros Hw. assert (w = 0 ∨ w = 1 ∨ w = 2 ∨ w = 3 ∨ w = 4 ∨ w = 5 ∨ w = 6) as Hc by lia.
  repeat (destruct Hc as [->|Hc]; [by eexists _, _, _|]). subst. by eexists _, _, _.
Qed.

Lemma gmtime_seconds t : 0 ≤ t → t = t / 86400 * 86400 + t / 3600 mod 24 * 3600 + t / 60 mod 60 * 60 + t mod 60.
Proof. intros Ht. dlia. Qed.

(** What [timestamp_gmt] leaves in its buffer reads as the time 8 hours later. *)
Lemma timestamp_gmt_date seconds now : 0 < seconds → seconds + CST < 253402300800 →
  ∃ text, timestamp_gmt 64 seconds now = Ret text ∧ length text = 29%nat ∧ read_imf text = Some (seconds + CST).
Proof.
  intros H0 H1. unfold timestamp_gmt. rewrite (proj2 (Z.eqb_neq seconds 0)) by lia.
  set (t := seconds + CST). assert (0 ≤ t) as Ht by (unfold t, CST; lia).
  unfold gmtime_r. destruct (civil (t / 86400)) as [[y m] d] eqn:Ec.
  assert (0 ≤ t / 86400 ≤ last_day) as Hr by (fold t in H1; unfold last_day; clearbody t; dlia).
  destruct (civil_year _ _ _ _ Hr Ec) as [Hy Hy'].
  apply civil_spec in Ec as (_ & Hm & (len & Hlen & Hd) & Hday); [|dlia].
  destruct (month_length_range _ _ _ Hlen) as [_ Hlr].
  destruct (month_index_name m Hm) as (m1 & m2 & m3 & Em & Ei), (day_name ((t / 86400 + 4) mod 7)) as (w1 & w2 & w3 & Ew); [dlia|].
  pose proof (dec4 y ltac:(lia)) as Ey. unfold strftime.
  set (T := MkTm _ _ _ _ _ _ _).
  assert (strftime_text (str "%a, %d %b %Y %H:%M:%S GMT") T =
    [w1; w2; w3; 44; 32] ++ pad2 d ++ [32; m1; m2; m3; 32] ++ dec_int y ++ [32] ++ pad2 (t / 3600 mod 24) ++ [58] ++
    pad2 (t / 60 mod 60) ++ [58] ++ pad2 (t mod 60) ++ str " GMT") as ->.
  { transitivity (nth (Z.to_nat (tm_wday T)) day_names [] ++ [44; 32] ++ pad2 d ++ [32] ++ nth (Z.to_nat m) month_names [] ++ [32] ++
      dec_int (tm_year T + 1900) ++ [32] ++ pad2 (tm_hour T) ++ [58] ++ pad2 (tm_min T) ++ [58] ++ pad2 (tm_sec T) ++ str " GMT");
      [reflexivity|]. cbn [T tm_wday tm_year tm_hour tm_min tm_sec]. rewrite Ew, Em. by replace (y - 1900 + 1900) with y by lia. }
  rewrite Ey. cbn [app pad2 length str]. eexists. split; [done|]. split; [done|].
  unfold read_imf. cbn -[Z.mul Z.div Z.modulo day_number month_index]. rewrite Ei. cbn -[Z.mul Z.div Z.modulo day_number].
  rewrite (two_pad2 d), (two_pad2 (t / 3600 mod 24)), (two_pad2 (t / 60 mod 60)), (two_pad2 (t mod 60)) by (lia || dlia).
  f_equal. replace (100 * two (48 + y / 1000) (48 + y / 100 mod 10) + two (48 + y / 10 mod 10) (48 + y mod 10)) with y
    by (unfold two; dlia).
  rewrite <-Hday. symmetry. by apply gmtime_seconds.
Qed.

(** [timestamp_gmt] is 8 hours ahead.  For every time from the second second of 1970
    up to 9999 the buffer holds an HTTP date, and a reader of HTTP dates gets the time plus
    8 hours from it, since it is labelled GMT but printed for China; with 0 it prints the
    present time in the same way. *)
Theorem timestamp_gmt_ahead seconds now : 0 < seconds → seconds + CST < 253402300800 →
  (∃ text, timestamp_gmt 64 seconds now = Ret text ∧ length text = 29%nat ∧ read_imf text = Some (seconds + CST)) ∧
  timestamp_gmt 64 0 seconds = timestamp_gmt 64 seconds now.
Proof.
  intros H0 H1. split; [by apply timestamp_gmt_date|]. unfold timestamp_gmt. by rewrite (proj2 (Z.eqb_neq seconds 0)) by lia.
Qed.

Lemma timestamp_gmt_ahead_witness :
  timestamp_gmt 64 1489268991 0 = Ret (str "Sun, 12 Mar 2017 05:49:51 GMT") ∧
  ∃ text, timestamp_gmt 64 1489268991 0 = Ret text ∧ read_imf text = Some (1489268991 + 28800).
Proof.
  split; [vm_compute; reflexivity|].
  destruct (timestamp_gmt_ahead 1489268991 0) as [(text & Et & _ & Er) _]; [reflexivity|reflexivity|].
  exists text. by split.
Defined.

(** ** Dates in file names *)

Definition date_text (day : Z) : list Z :=
  let '(y, m, d) := civil day in dec_int y ++ [45] ++ pad2 (m + 1) ++ [45] ++ pad2 d.

Lemma pad2_inj a b : 0 ≤ a < 100 → 0 ≤ b < 100 → pad2 a = pad2 b → a = b.
Proof. unfold pad2. intros Ha Hb [= E1 E2]. dlia. Qed.

Lemma length_date_text day : 0 ≤ day ≤ last_day → length (date_text day) = 10%nat.
Proof.
  intros Hd. unfold date_text. destruct (civil day) as [[y m] d] eqn:E. pose proof (civil_year _ _ _ _ Hd E).
  by rewrite dec4 by lia.
Qed.

Lemma date_text_inj a b : 0 ≤ a ≤ last_day → 0 ≤ b ≤ last_day → date_text a = date_text b → a = b.
Proof.
  intros Ha Hb. unfold date_text. destruct (civil a) as [[y m] d] eqn:Ea, (civil b) as [[y' m'] d'] eqn:Eb.
  pose proof (civil_year _ _ _ _ Ha Ea). pose proof (civil_year _ _ _ _ Hb Eb).
  apply civil_spec in Ea as (_ & Hm & (len & Hlen & Hd) & Ea); [|lia].
  apply civil_spec in Eb as (_ & Hm' & (len' & Hlen' & Hd') & Eb); [|lia].
  destruct (month_length_range _ _ _ Hlen), (month_length_range _ _ _ Hlen'). rewrite !dec4 by lia.
  cbn [app pad2]. intros [= E1 E2 E3 E4 E5 E6 E7 E8].
  assert (y = y') as -> by dlia. assert (m = m') as -> by dlia. assert (d = d') as -> by dlia. congruence.
Qed.

(** The suffixes of the log files: the date, and the date and the hour, in China. *)
Lemma timestamp_date seconds now : 0 < now → (now + CST) / 86400 ≤ last_day → seconds = 0 ∨ seconds = now →
  timestamp 64 seconds (Some (str ".%Y-%02m-%02d")) now = Ret ([46] ++ date_text ((now + CST) / 86400)).
Proof.
  intros H0 Hl Hs. unfold timestamp. replace (if seconds =? 0 then now else seconds) with now by (destruct Hs as [-> | ->]; [done|by destruct (now =? 0)]).
  set (t := now + CST) in *. assert (0 ≤ t / 86400) as Ht by (unfold t, CST; dlia).
  unfold strftime. cbn [default]. replace (strftime_text _ _) with ([46] ++ date_text (t / 86400)).
  - rewrite length_app, length_date_text by done. done.
  - unfold date_text, gmtime_r. destruct (civil (t / 86400)) as [[y m] d]. symmetry.
    transitivity ([46] ++ dec_int (y - 1900 + 1900) ++ [45] ++ pad2 (m + 1) ++ [45] ++ pad2 d); [reflexivity|].
    by replace (y - 1900 + 1900) with y by lia.
Qed.

Lemma timestamp_hour seconds now : 0 < now → (now + CST) / 86400 ≤ last_day → seconds = 0 ∨ seconds = now →
  timestamp 64 seconds (Some (str ".%Y-%02m-%02d.%02H")) now
  = Ret ([46] ++ date_text ((now + CST) / 86400) ++ [46] ++ pad2 ((now + CST) / 3600 mod 24)).
Proof.
  intros H0 Hl Hs. unfold timestamp. replace (if seconds =? 0 then now else seconds) with now by (destruct Hs as [-> | ->]; [done|by destruct (now =? 0)]).
  set (t := now + CST) in *. assert (0 ≤ t / 86400) as Ht by (unfold t, CST; dlia).
  unfold strftime. cbn [default]. replace (strftime_text _ _) with ([46] ++ date_text (t / 86400) ++ [46] ++ pad2 (t / 3600 mod 24)).
  - rewrite !length_app, length_date_text by done. done.
  - unfold date_text, gmtime_r. destruct (civil (t / 86400)) as [[y m] d]. symmetry.
    transitivity ([46] ++ (dec_int (y - 1900 + 1900) ++ [45] ++ pad2 (m + 1) ++ [45] ++ pad2 d) ++ [46] ++ pad2 (t / 3600 mod 24)).
    + cbn -[dec_int pad2 Z.div Z.modulo Z.sub Z.add]. by list_norm.
    + by replace (y - 1900 + 1900) with y by lia.
Qed.
