(* ===== verification/CgiServer.v ===== *)
(** CgiServer (socket/CgiServer.cpp): FastCGI records, requests assembled from PARAMS and
    STDIN records, and the response stream. *)

From S2P Require Import Prelude CLib Strings Calendar ByteQueue Socket WorkerProcess SocketServer.

(** ** Records *)

Definition FASTCGI_BEGIN_REQUEST : Z := 1.
Definition FASTCGI_END_REQUEST : Z := 3.
Definition FASTCGI_PARAMS : Z := 4.
Definition FASTCGI_STDIN : Z := 5.
Definition FASTCGI_STDOUT : Z := 6.
Definition FASTCGI_DATA : Z := 8.
Definition FASTCGI_RESPONDER : Z := 1.
Definition FASTCGI_REQUEST_COMPLETE : Z := 0.
Definition FASTCGI_VERSION : Z := 1.
Definition FASTCGI_KEEP_ALIVE : Z := 1.

Record fastcgi_header := MkFcgi {
  version : Z; type : Z; requestid_high : Z; requestid_low : Z;
  content_length_high : Z; content_length_low : Z; padding_length : Z; reserved : Z
}.
Definition fcgi_size : nat := 8.

Definition requestid (h : fastcgi_header) : Z := requestid_high h * 256 + requestid_low h.
Definition content_length (h : fastcgi_header) : Z := content_length_high h * 256 + content_length_low h.
Definition package_length (h : fastcgi_header) : Z := 8 + content_length h + padding_length h.

(** The setters [requestid(value)] and [content_length(len)] on a new header. *)
Definition make_header (ty id len : Z) : fastcgi_header :=
  MkFcgi FASTCGI_VERSION ty (id / 256 mod 256) (id mod 256) (len / 256 mod 256) (len mod 256)
    (if 0 <? len mod 8 then 8 - len mod 8 else 0) 0.

Definition fcgi_bytes (h : fastcgi_header) : list Z :=
  [version h; type h; requestid_high h; requestid_low h; content_length_high h;
   content_length_low h; padding_length h; reserved h].
(** The header at the start of a buffer. *)
Definition fcgi_of (buffer : list Z) : option fastcgi_header :=
  match buffer with
  | a :: b :: c :: d :: e :: f :: g :: h :: _ => Some (MkFcgi a b c d e f g h)
  | _ => None
  end.

(** [requestString]: the table has 12 pointers, and the test compares the type with its
    size in bytes, 96. *)
Definition typestring : list (list Z) :=
  [str "NONE"; str "BEGIN_REQUEST"; str "ABORT_REQUEST"; str "END_REQUEST"; str "PARAMS"; str "STDIN";
   str "STDOUT"; str "STDERR"; str "DATA"; str "GET_VALUES"; str "GET_VALUES_RESULT"; str "UNKNOWN_TYPE"].
Definition requestString (ty : Z) : outcome (list Z) :=
  if ty <? 8 * Z.of_nat (length typestring) then
    match typestring !! Z.to_nat ty with Some s => Ret s | None => Undef end
  else Ret (str "NONE").

(** The splitter given to the SocketServer. *)
Definition cgi_split (buffer : list Z) : Z :=
  match fcgi_of buffer with
  | None => 0
  | Some h => if package_length h <=? Z.of_nat (length buffer) then package_length h else 0
  end.

(** ** Requests *)

Inductive HTTP_COMMAND := GET | POST.

Record CgiRequest := MkRequest {
  rid : Z;
  rsocket : Z;
  keepalive : bool;
  recv_params_done : bool;
  recv_stdin_done : bool;
  url : list Z;
  cmd : HTTP_COMMAND;
  role : Z;
  input_headers : gmap (list Z) (list Z);
  input_variables : gmap (list Z) (list Z);
  cookies : gmap (list Z) (list Z);
  output_headers : gmap (list Z) (list Z);
  output_content : list Z
}.

(** [addHeader] keeps the first value of a name. *)
Definition addHeader (name value : list Z) (r : CgiRequest) : CgiRequest :=
  MkRequest (rid r) (rsocket r) (keepalive r) (recv_params_done r) (recv_stdin_done r) (url r) (cmd r)
    (role r) (input_headers r) (input_variables r) (cookies r)
    (match output_headers r !! name with Some _ => output_headers r | None => <[name := value]> (output_headers r) end)
    (output_content r).
(** The two [setCookie]; [now] is [currentSecond()]. *)
Definition set_cookie_header (cookie : list Z) (seconds now : Z) (r : CgiRequest) : outcome CgiRequest :=
  time ← timestamp_gmt 64 (u64 (now + seconds)) now;
  Ret (addHeader (str "Set-Cookie") (cookie ++ str ";" ++ str "expires=" ++ time) r).
Definition setCookie_name (name : list Z) := set_cookie_header (c_str name).
Definition setCookie (name value : list Z) := set_cookie_header (c_str name ++ str "=" ++ c_str value).
Definition new_request (id s : Z) : CgiRequest :=
  addHeader (str "Content-type") (str "text/html")
    (MkRequest id s false false false [] GET FASTCGI_RESPONDER ∅ ∅ ∅ ∅ []).

Definition set_keepalive k r := MkRequest (rid r) (rsocket r) k (recv_params_done r) (recv_stdin_done r) (url r)
  (cmd r) (role r) (input_headers r) (input_variables r) (cookies r) (output_headers r) (output_content r).
Definition set_role v r := MkRequest (rid r) (rsocket r) (keepalive r) (recv_params_done r) (recv_stdin_done r) (url r)
  (cmd r) v (input_headers r) (input_variables r) (cookies r) (output_headers r) (output_content r).
Definition receiveParamsDone r := MkRequest (rid r) (rsocket r) (keepalive r) true (recv_stdin_done r) (url r)
  (cmd r) (role r) (input_headers r) (input_variables r) (cookies r) (output_headers r) (output_content r).
Definition set_stdin_done r := MkRequest (rid r) (rsocket r) (keepalive r) (recv_params_done r) true (url r)
  (cmd r) (role r) (input_headers r) (input_variables r) (cookies r) (output_headers r) (output_content r).
Definition set_url v r := MkRequest (rid r) (rsocket r) (keepalive r) (recv_params_done r) (recv_stdin_done r) v
  (cmd r) (role r) (input_headers r) (input_variables r) (cookies r) (output_headers r) (output_content r).
Definition set_cmd v r := MkRequest (rid r) (rsocket r) (keepalive r) (recv_params_done r) (recv_stdin_done r) (url r)
  v (role r) (input_headers r) (input_variables r) (cookies r) (output_headers r) (output_content r).
Definition addInputHeader k v r := MkRequest (rid r) (rsocket r) (keepalive r) (recv_params_done r) (recv_stdin_done r)
  (url r) (cmd r) (role r) (<[k := v]> (input_headers r)) (input_variables r) (cookies r) (output_headers r) (output_content r).
Definition addInputVariable k v r := MkRequest (rid r) (rsocket r) (keepalive r) (recv_params_done r) (recv_stdin_done r)
  (url r) (cmd r) (role r) (input_headers r) (<[k := v]> (input_variables r)) (cookies r) (output_headers r) (output_content r).
Definition addInputCookie k v r := MkRequest (rid r) (rsocket r) (keepalive r) (recv_params_done r) (recv_stdin_done r)
  (url r) (cmd r) (role r) (input_headers r) (input_variables r) (<[k := v]> (cookies r)) (output_headers r) (output_content r).
(** [addString(data, len)] streams [data] as a C string: [len] is not used. *)
Definition addString (data : list Z) (r : CgiRequest) : CgiRequest :=
  MkRequest (rid r) (rsocket r) (keepalive r) (recv_params_done r) (recv_stdin_done r) (url r)
    (cmd r) (role r) (input_headers r) (input_variables r) (cookies r) (output_headers r) (output_content r ++ c_str data).

(** ** The end of the input: [receiveStdinDone]

    The four parts in their order; [false] is an early return. *)

Definition splitter_fields (s : list Z) (sc : Z) : outcome (bool * list (list Z)) := splitString s sc [].

(** [for (auto& s : fields) ...] over the cookies: at most one '=' in each. *)
Fixpoint add_cookies (fields : list (list Z)) (r : CgiRequest) : outcome (bool * CgiRequest) :=
  match fields with
  | [] => Ret (true, r)
  | s :: fields =>
      v ← splitter_fields s (ch "=");
      match v : bool * list (list Z) with
      | (true, [k]) => add_cookies fields (addInputCookie k [] r)
      | (true, [k; x]) => add_cookies fields (addInputCookie k x r)
      | _ => Ret (false, r)
      end
  end.
Definition read_cookies (r : CgiRequest) : outcome (bool * CgiRequest) :=
  match input_headers r !! str "HTTP_COOKIE" with
  | None => Ret (false, r)
  | Some value =>
      fs ← splitter_fields value (ch ";");
      let '(rc, fields) := fs : bool * list (list Z) in
      if rc then add_cookies fields r else Ret (false, r)
  end.

Definition read_method (r : CgiRequest) : bool * CgiRequest :=
  match input_headers r !! str "REQUEST_METHOD" with
  | None => (false, r)
  | Some value =>
      let h := hashString value in
      (true, if h =? hashString (str "GET") then set_cmd GET r
             else if h =? hashString (str "POST") then set_cmd POST r else r)
  end.

Definition read_url (r : CgiRequest) : bool * CgiRequest :=
  match input_headers r !! str "SCRIPT_NAME" with
  | None => (false, r)
  | Some value => (true, set_url value r)
  end.

Section Decode.
(** [curl_easy_unescape] *)
Context (unescape : list Z → option (list Z)).

Definition url_decode (s : list Z) : bool * list Z :=
  let d := default [] (unescape s) in (negb (bool_decide (d = [])), d).

Fixpoint add_variables (fields : list (list Z)) (r : CgiRequest) : outcome CgiRequest :=
  match fields with
  | [] => Ret r
  | s :: fields =>
      v ← splitter_fields s (ch "=");
      match v : bool * list (list Z) with
      | (true, [k; x]) => add_variables fields (addInputVariable k x r)
      | _ => Ret r
      end
  end.
Definition read_query (r : CgiRequest) : outcome CgiRequest :=
  match input_headers r !! str "QUERY_STRING" with
  | None => Ret r
  | Some value =>
      let '(rc, decoded) := url_decode value in
      if rc then
        fs ← splitter_fields decoded (ch "&");
        let '(rc, fields) := fs : bool * list (list Z) in
        if rc then add_variables fields r else Ret r
      else Ret r
  end.

Definition receiveStdinDone (r : CgiRequest) : outcome CgiRequest :=
  c ← read_cookies (set_stdin_done r);
  let '(go, r) := c : bool * CgiRequest in
  if go then
    let '(go, r) := read_method r in
    if go then let '(go, r) := read_url r in if go then read_query r else Ret r
    else Ret r
  else Ret r.
End Decode.

(** ** PARAMS *)

Definition byte_at (data : list Z) (i : nat) : outcome Z :=
  match data !! i with Some b => Ret b | None => Undef end.

(** A length: one byte, or four with the top bit set; the new index and the length.  The
    three low bytes are read without a check. *)
Definition read_length (data : list Z) (i : nat) : outcome (nat * Z * bool) :=
  b ← byte_at data i;
  Ret (S i, b, 128 <=? b).
Definition read_length4 (data : list Z) (i : nat) (b : Z) : outcome (nat * Z) :=
  v1 ← byte_at data i; v2 ← byte_at data (i + 1); v3 ← byte_at data (i + 2);
  Ret ((i + 3)%nat, b mod 128 * 2 ^ 24 + v1 * 2 ^ 16 + v2 * 2 ^ 8 + v3).

(** [key.assign(&data[i], n)]: the bytes must be in the message. *)
Definition assign (data : list Z) (i : nat) (n : Z) : outcome (list Z) :=
  if Z.of_nat i + n <=? Z.of_nat (length data) then Ret (take (Z.to_nat n) (drop i data)) else Undef.

(** The loop of [readParams] from index [i]; every turn moves it. *)
Fixpoint params_loop (fuel : nat) (data : list Z) (realen i : nat) (r : CgiRequest)
    : outcome (bool * CgiRequest) :=
  match fuel with
  | O => Ret (true, r)
  | S fuel =>
      if negb (i <? realen)%nat then Ret (true, r)
      else
        x ← read_length data i;
        let '(i, len_key, long) := x : nat * Z * bool in
        if negb (i <? realen)%nat then Ret (false, r)
        else
          y ← (if long then read_length4 data i len_key else Ret (i, len_key));
          let '(i, len_key) := y : nat * Z in
          if long && negb (i <? realen)%nat then Ret (false, r)
          else
            x ← read_length data i;
            let '(i, len_value, long) := x : nat * Z * bool in
            if negb (i <? realen)%nat then Ret (false, r)
            else
              y ← (if long then read_length4 data i len_value else Ret (i, len_value));
              let '(i, len_value) := y : nat * Z in
              if long && negb (i <=? realen)%nat then Ret (false, r)
              else
                key ← assign data i len_key;
                let i := (i + Z.to_nat len_key)%nat in
                value ← assign data i len_value;
                let i := (i + Z.to_nat len_value)%nat in
                if negb (i <=? realen)%nat then Ret (false, r)
                else params_loop fuel data realen i (addInputHeader (c_str key) (c_str value) r)
  end.

(** [readParams], [readStdin], [readData] and [beginRequest]; [data] is the message after
    its header. *)
Definition readParams (h : fastcgi_header) (data : list Z) (r : CgiRequest) : outcome (bool * CgiRequest) :=
  if Nat.eqb (length data) 0 then Ret (true, receiveParamsDone r)
  else if Z.of_nat (length data) <? padding_length h then Ret (false, r)
  else params_loop (S (length data)) data (length data - Z.to_nat (padding_length h)) 0 r.

Section Server.
Context (unescape : list Z → option (list Z)).

Definition readStdin (h : fastcgi_header) (data : list Z) (r : CgiRequest) : outcome (bool * CgiRequest) :=
  if Nat.eqb (length data) 0 then r ← receiveStdinDone unescape r; Ret (true, r)
  else
    _ ← cxx_assert (content_length h <=? Z.of_nat (length data));
    Ret (true, addInputHeader (str "QUERY_STRING") (c_str (take (Z.to_nat (content_length h)) data)) r).

Definition beginRequest (data : list Z) (r : CgiRequest) : outcome (bool * CgiRequest) :=
  _ ← cxx_assert (8 <=? length data)%nat;
  let r := set_role (data !!! 0%nat * 256 + data !!! 1%nat) r in
  let r := set_keepalive (negb (Z.land (data !!! 2%nat) FASTCGI_KEEP_ALIVE =? 0)) r in
  Ret (role r =? FASTCGI_RESPONDER, r).

(** The switch over the type of a record. *)
Definition dispatch (h : fastcgi_header) (data : list Z) (r : CgiRequest) : outcome (bool * CgiRequest) :=
  if type h =? FASTCGI_BEGIN_REQUEST then beginRequest data r
  else if type h =? FASTCGI_PARAMS then readParams h data r
  else if type h =? FASTCGI_STDIN then readStdin h data r
  else if type h =? FASTCGI_DATA then Ret (true, r)
  else Ret (false, r).

(** ** The server *)

Context {T : Type} `{SocketServerLaws T}.
(** The order in which an [unordered_map] of requests is walked. *)
Context (order : gmap Z CgiRequest → list (Z * CgiRequest)).

(** [socketServer] is [None] after [stop] deleted it; [dangling] then holds the requests
    whose deleted pointers the table still has. *)
Record CgiServer := MkCgi {
  socketServer : option T;
  requests : gmap Z CgiRequest;
  dangling : bool
}.

Definition new_Cgi (sv : T) : CgiServer := MkCgi (Some sv) ∅ false.
Definition set_requests t c := MkCgi (socketServer c) t (dangling c).
Definition set_server sv c := MkCgi (Some sv) (requests c) (dangling c).

(** Deleting a request closes its connection. *)
Definition delete_request (r : CgiRequest) (c : CgiServer) : outcome CgiServer :=
  match socketServer c with
  | None => Undef
  | Some sv => sv ← api_close (rsocket r) sv; Ret (set_server sv c)
  end.

(** [releaseRequest] *)
Definition releaseRequest (r : CgiRequest) (c : CgiServer) : outcome CgiServer :=
  delete_request r (set_requests (delete (rid r) (requests c)) c).

(** [getCompleteRequest]: without a complete request the id looked up is 0. *)
Definition complete (r : CgiRequest) : bool := recv_params_done r && recv_stdin_done r.
Definition getCompleteRequest (c : CgiServer) : option CgiRequest * CgiServer :=
  if bool_decide (requests c = ∅) then (None, c)
  else
    let requestid := match List.find (λ kr, complete (snd kr)) (order (requests c)) with
      | Some kr => fst kr | None => 0 end in
    match requests c !! requestid with
    | Some r => (Some r, set_requests (delete requestid (requests c)) c)
    | None => (None, c)
    end.

(** [parsePackage] *)
Definition parsePackage (s : Z) (buffer : list Z) (c : CgiServer) : outcome (bool * CgiServer) :=
  match fcgi_of buffer with
  | None => Aborted
  | Some h =>
      _ ← cxx_assert (Z.of_nat (length buffer) =? package_length h);
      _ ← requestString (type h);
      let data := drop fcgi_size buffer in
      let r := match requests c !! requestid h with
        | Some r => r | None => new_request (requestid h) s end in
      let c := set_requests (<[requestid h := r]> (requests c)) c in
      _ ← cxx_assert (rsocket r =? s);
      x ← dispatch h data r;
      let '(rc, r) := x : bool * CgiRequest in
      let c := set_requests (<[requestid h := r]> (requests c)) c in
      if rc then Ret (true, c) else c ← releaseRequest r c; Ret (false, c)
  end.

(** [getRequest]: the messages waiting bound the turns. *)
Fixpoint get_loop (fuel : nat) (c : CgiServer) : outcome (option CgiRequest * CgiServer) :=
  match fuel, socketServer c with
  | _, None => Undef
  | O, _ => Ret (None, c)
  | S fuel, Some sv =>
      x ← api_receive sv;
      let '(msg, sv) := x : option Socketmessage * T in
      let c := set_server sv c in
      match msg with
      | None => Ret (getCompleteRequest c)
      | Some msg =>
          match msg_opcode msg with
          | SM_OPCODE_ESTABLISH | SM_OPCODE_CLOSE => get_loop fuel c
          | _ =>
              x ← parsePackage (msg_s msg) (message_bytes msg) c;
              let '(_, c) := x : bool * CgiServer in get_loop fuel c
          end
      end
  end.
Definition getRequest (c : CgiServer) : outcome (option CgiRequest * CgiServer) :=
  get_loop (S (match socketServer c with Some sv => api_pending sv | None => 0%nat end)) c.

(** [stop] deletes the requests and the server but keeps the table; the destructor calls
    it again. *)
Fixpoint delete_all (rs : list (Z * CgiRequest)) (c : CgiServer) : outcome CgiServer :=
  match rs with
  | [] => Ret c
  | kr :: rs => c ← delete_request (snd kr) c; delete_all rs c
  end.
Definition cgi_stop (c : CgiServer) : outcome CgiServer :=
  if dangling c && negb (bool_decide (requests c = ∅)) then Undef
  else c ← delete_all (order (requests c)) c; Ret (MkCgi None (requests c) true).

(** ** The response *)

(** [order_headers] is the order in which the header table is walked, [junk] the
    uninitialised padding and body bytes. *)
Context (order_headers : gmap (list Z) (list Z) → list (list Z * list Z)).

Definition send_record (ty : Z) (content junk : list Z) (r : CgiRequest) (sv : T) : outcome T :=
  let h := make_header ty (rid r) (u32 (Z.of_nat (length content))) in
  sv ← api_send (rsocket r) (fcgi_bytes h) sv;
  sv ← api_send (rsocket r) content sv;
  if 0 <? padding_length h
  then api_send (rsocket r) (take (Z.to_nat (padding_length h)) junk) sv else Ret sv.

Definition header_text (r : CgiRequest) : list Z :=
  concat (map (λ kv, fst kv ++ str ": " ++ snd kv ++ [13; 10]) (order_headers (output_headers r))) ++ [13; 10].

Definition send (junk1 junk2 junk3 : list Z) (r : CgiRequest) (sv : T) : outcome T :=
  sv ← send_record FASTCGI_STDOUT (header_text r) junk1 r sv;
  sv ← (if bool_decide (output_content r = []) then Ret sv
        else send_record FASTCGI_STDOUT (output_content r) junk2 r sv);
  sv ← api_send (rsocket r) (fcgi_bytes (make_header FASTCGI_STDOUT (rid r) 0)) sv;
  sv ← api_send (rsocket r) (fcgi_bytes (make_header FASTCGI_END_REQUEST (rid r) 8)) sv;
  api_send (rsocket r) (<[4%nat := FASTCGI_REQUEST_COMPLETE]> (take 8 junk3)) sv.
End Server.

(** ** The fuel of [getRequest] is enough *)

Section Fuel.
Context {T : Type} `{SocketServerLaws T}.
Context (unescape : list Z → option (list Z)).
Context (order : gmap Z CgiRequest → list (Z * CgiRequest)).

Definition waiting (c : CgiServer (T := T)) : nat :=
  match socketServer c with Some sv => api_pending sv | None => 0%nat end.

Lemma parsePackage_waiting s buffer (c c' : CgiServer (T := T)) rc :
  parsePackage unescape s buffer c = Ret (rc, c') → waiting c' = waiting c.
Proof.
  unfold parsePackage. destruct (fcgi_of buffer) as [h|]; [|done].
  intros (u & _ & (t & _ & (u' & _ & ([rc' r'] & _ & E)%bind_Ret)%bind_Ret)%bind_Ret)%bind_Ret.
  destruct rc'; [by injection E as _ <-|].
  apply bind_Ret in E as (c1 & E1 & E). injection E as _ <-.
  unfold releaseRequest, delete_request in E1. cbn [socketServer set_requests] in E1. unfold waiting.
  destruct (socketServer c) as [sv|]; [|done]. apply bind_Ret in E1 as (sv1 & Ec & E1).
  injection E1 as <-. by apply (api_close_same (rsocket r') sv).
Qed.

(** More fuel than messages waiting changes nothing. *)
Lemma get_loop_fuel : ∀ fuel (c : CgiServer (T := T)), (waiting c < fuel)%nat →
  get_loop unescape order fuel c = getRequest unescape order c.
Proof.
  assert (∀ fuel1 fuel2 (c : CgiServer (T := T)), (waiting c < fuel1)%nat → (waiting c < fuel2)%nat →
    get_loop unescape order fuel1 c = get_loop unescape order fuel2 c) as Hgen.
  { induction fuel1 as [|f1 IH]; intros [|f2] c H1 H2; [lia..|]. simpl.
    unfold waiting in H1, H2. destruct (socketServer c) as [sv|] eqn:Es; [|done].
    destruct (api_receive sv) as [[[m|] sv1]| |] eqn:Er; simpl; try done.
    pose proof (api_receive_less sv m sv1 Er) as Hless.
    assert (∀ c', waiting c' = api_pending sv1 → get_loop unescape order f1 c' = get_loop unescape order f2 c')
      as Hnext by (intros c' Hc'; apply IH; lia).
    destruct (msg_opcode m); try (by apply Hnext);
      destruct (parsePackage unescape (msg_s m) (message_bytes m) (set_server sv1 c)) as [[rc c']| |] eqn:Ep;
      simpl; try done; apply Hnext; by apply parsePackage_waiting in Ep. }
  intros fuel c Hf. unfold getRequest. apply Hgen; [done|]. unfold waiting. lia.
Qed.
End Fuel.

(** ** PARAMS records round trip *)

(** The encoding of the FastCGI specification, 3.4. *)
Definition encode_len (n : Z) : list Z := if n <? 128 then [n] else be_bytes 4 (n + 2 ^ 31).
Definition encode_pair (kv : list Z * list Z) : list Z :=
  encode_len (Z.of_nat (length (fst kv))) ++ encode_len (Z.of_nat (length (snd kv))) ++ fst kv ++ snd kv.
Definition encode_params (ps : list (list Z * list Z)) : list Z := concat (map encode_pair ps).

Definition pair_ok (kv : list Z * list Z) : Prop := fst kv ≠ [] ∧ no_nul (fst kv) ∧ no_nul (snd kv).
#[export] Instance pair_ok_dec kv : Decision (pair_ok kv).
Proof. unfold pair_ok, no_nul. apply _. Defined.

Definition add_all (ps : list (list Z * list Z)) (r : CgiRequest) : CgiRequest :=
  fold_left (λ r kv, addInputHeader (fst kv) (snd kv) r) ps r.

Lemma byte_at_app pre l i k b : l !! k = Some b → i = (length pre + k)%nat → byte_at (pre ++ l) i = Ret b.
Proof. intros Hb ->. unfold byte_at. rewrite lookup_app_r by lia. by rewrite Nat.add_comm, Nat.add_sub, Hb. Qed.

Lemma be_bytes_4 n : be_bytes 4 n = [n / 2 ^ 24 mod 256; n / 2 ^ 16 mod 256; n / 2 ^ 8 mod 256; n mod 256].
Proof.
  unfold be_bytes. cbn [le_bytes]. rewrite !Z.div_div by done. reflexivity.
Qed.

Lemma encode_len_length n : (1 ≤ length (encode_len n) ≤ 4)%nat.
Proof. unfold encode_len. destruct (n <? 128); [simpl; lia|]. rewrite length_be_bytes. lia. Qed.

(** Reading an encoded length, one byte or four. *)
Lemma read_encoded pre n rest : 0 ≤ n < 2 ^ 31 →
  let data := pre ++ encode_len n ++ rest in
  ∃ b long, read_length data (length pre) = Ret (S (length pre), b, long) ∧
    (if long then read_length4 data (S (length pre)) b else Ret (S (length pre), b))
    = Ret ((length pre + length (encode_len n))%nat, n).
Proof.
  intros Hn data. unfold data, encode_len. destruct (Z.ltb_spec n 128) as [Hs|Hs].
  - exists n, false. unfold read_length. rewrite (byte_at_app _ _ _ 0 n) by (done || lia). cbn [mbind outcome_bind].
    rewrite (proj2 (Z.leb_gt 128 n)) by lia. split; [done|]. f_equal. f_equal. simpl. lia.
  - rewrite be_bytes_4. unfold read_length, read_length4. cbn [app].
    eexists _, true. erewrite (byte_at_app _ _ _ 0); [|reflexivity|lia]. cbn [mbind outcome_bind].
    split; [f_equal; f_equal; apply Z.leb_le; dlia|].
    erewrite (byte_at_app _ _ (S (length pre)) 1); [|reflexivity|lia]. cbn [mbind outcome_bind].
    erewrite (byte_at_app _ _ (S (length pre) + 1) 2); [|reflexivity|lia]. cbn [mbind outcome_bind].
    erewrite (byte_at_app _ _ (S (length pre) + 2) 3); [|reflexivity|lia]. cbn [mbind outcome_bind].
    f_equal. f_equal; [simpl; lia|dlia].
Qed.

Lemma assign_app pre x rest n i : Z.of_nat (length x) = n → i = length pre → assign (pre ++ x ++ rest) i n = Ret x.
Proof.
  intros <- ->. unfold assign. rewrite (proj2 (Z.leb_le _ _)) by (rewrite !length_app; lia).
  by rewrite drop_app_length, Nat2Z.id, take_app_length.
Qed.

(** One pair, from its first byte. *)
Lemma params_pair fuel pre kv rest realen r : pair_ok kv →
  Z.of_nat (length (encode_pair kv)) < 2 ^ 31 → (length pre + length (encode_pair kv) ≤ realen)%nat →
  params_loop (S fuel) (pre ++ encode_pair kv ++ rest) realen (length pre) r =
  params_loop fuel (pre ++ encode_pair kv ++ rest) realen (length pre + length (encode_pair kv))
    (addInputHeader (fst kv) (snd kv) r).
Proof.
  destruct kv as [k v]. intros (Hk & Hk0 & Hv0) Hlen Hre. cbn [fst snd] in *.
  set (nk := Z.of_nat (length k)). set (nv := Z.of_nat (length v)).
  pose proof (encode_len_length nk) as Lk. pose proof (encode_len_length nv) as Lv.
  assert (length (encode_pair (k, v)) = length (encode_len nk) + length (encode_len nv) + length k + length v)%nat as Hl
    by (unfold encode_pair; cbn [fst snd]; rewrite !length_app; unfold nk, nv; lia).
  assert (0 < length k)%nat by (destruct k; [done|simpl; lia]).
  set (data := pre ++ encode_pair (k, v) ++ rest).
  assert (data = pre ++ encode_len nk ++ (encode_len nv ++ k ++ v ++ rest)) as E1
    by (unfold data, encode_pair; cbn [fst snd]; by list_norm).
  assert (data = (pre ++ encode_len nk) ++ encode_len nv ++ (k ++ v ++ rest)) as E2 by (rewrite E1; by list_norm).
  assert (data = (pre ++ encode_len nk ++ encode_len nv) ++ k ++ (v ++ rest)) as E3 by (rewrite E1; by list_norm).
  assert (data = (pre ++ encode_len nk ++ encode_len nv ++ k) ++ v ++ rest) as E4 by (rewrite E1; by list_norm).
  destruct (read_encoded pre nk (encode_len nv ++ k ++ v ++ rest)) as (b & long & R1 & R2); [lia|].
  destruct (read_encoded (pre ++ encode_len nk) nv (k ++ v ++ rest)) as (b' & long' & R3 & R4); [lia|].
  rewrite <-E1 in R1, R2. rewrite <-E2 in R3, R4. rewrite length_app in R3, R4.
  cbn [params_loop]. rewrite (proj2 (Nat.ltb_lt (length pre) realen)) by lia. cbn [negb].
  rewrite R1. cbn [mbind outcome_bind]. rewrite (proj2 (Nat.ltb_lt (S (length pre)) realen)) by lia. cbn [negb].
  rewrite R2. cbn [mbind outcome_bind]. rewrite (proj2 (Nat.ltb_lt _ realen)) by lia. rewrite andb_false_r.
  rewrite R3. cbn [mbind outcome_bind]. rewrite (proj2 (Nat.ltb_lt _ realen)) by lia. cbn [negb].
  rewrite R4. cbn [mbind outcome_bind]. rewrite (proj2 (Nat.leb_le _ realen)) by lia. rewrite andb_false_r.
  rewrite E3 at 1. rewrite assign_app by (done || (rewrite !length_app; lia)). cbn [mbind outcome_bind].
  rewrite E4 at 1. rewrite assign_app by (done || (rewrite !length_app; lia)). cbn [mbind outcome_bind].
  rewrite (proj2 (Nat.leb_le _ realen)) by lia. cbn [negb]. rewrite !c_str_id by done.
  f_equal. lia.
Qed.

Lemma params_pairs ps : ∀ fuel pre rest r, Forall pair_ok ps →
  Z.of_nat (length (encode_params ps)) < 2 ^ 31 → (length ps < fuel)%nat →
  params_loop fuel (pre ++ encode_params ps ++ rest) (length pre + length (encode_params ps)) (length pre) r
  = Ret (true, add_all ps r).
Proof.
  induction ps as [|kv ps IH]; intros fuel pre rest r Hok Hl Hf; (destruct fuel as [|fuel]; [simpl in Hf; lia|]).
  - simpl. by rewrite Nat.add_0_r, Nat.ltb_irrefl.
  - apply Forall_cons in Hok as [Hkv Hok]. change (encode_params (kv :: ps)) with (encode_pair kv ++ encode_params ps) in *.
    rewrite length_app in *. rewrite <-app_assoc. rewrite params_pair by (done || lia).
    rewrite (app_assoc pre), Nat.add_assoc, <-(length_app pre (encode_pair kv)).
    apply IH; [done|lia|simpl in Hf; lia].
Qed.

(** A record as the web server sends it. *)
Definition record_header (ty id : Z) (content padding : list Z) : fastcgi_header :=
  MkFcgi 1 ty (id / 256) (id mod 256) (Z.of_nat (length content) / 256)
    (Z.of_nat (length content) mod 256) (Z.of_nat (length padding)) 0.
Definition record_bytes (ty id : Z) (content padding : list Z) : list Z :=
  fcgi_bytes (record_header ty id content padding) ++ content ++ padding.

Lemma content_of_record n : n / 256 * 256 + n mod 256 = n.
Proof. dlia. Qed.

Lemma fcgi_of_record ty id content padding rest :
  fcgi_of (record_bytes ty id content padding ++ rest) = Some (record_header ty id content padding).
Proof. done. Qed.

Lemma package_of_record ty id content padding :
  package_length (record_header ty id content padding) = Z.of_nat (length (record_bytes ty id content padding)).
Proof.
  unfold package_length, content_length, record_header. cbn [content_length_high content_length_low padding_length].
  rewrite content_of_record. unfold record_bytes. cbn [fcgi_bytes app length]. rewrite length_app. lia.
Qed.

Lemma cgi_split_record ty id content padding rest :
  cgi_split (record_bytes ty id content padding ++ rest) = Z.of_nat (length (record_bytes ty id content padding)).
Proof.
  unfold cgi_split. rewrite fcgi_of_record, package_of_record.
  rewrite (proj2 (Z.leb_le _ _)); [done|]. rewrite length_app. lia.
Qed.

Lemma readParams_pairs ps padding id r : Forall pair_ok ps → ps ≠ [] →
  Z.of_nat (length (encode_params ps)) < 65536 →
  readParams (record_header FASTCGI_PARAMS id (encode_params ps) padding) (encode_params ps ++ padding) r
  = Ret (true, add_all ps r).
Proof.
  intros Hok Hne Hl. unfold readParams, record_header. cbn [padding_length]. rewrite length_app.
  assert (length ps ≤ length (encode_params ps))%nat as Hlen.
  { clear. induction ps as [|kv ps IH]; [done|].
    change (encode_params (kv :: ps)) with (encode_pair kv ++ encode_params ps). unfold encode_pair.
    pose proof (encode_len_length (Z.of_nat (length (fst kv)))). rewrite !length_app. simpl length. lia. }
  assert (0 < length ps)%nat by (destruct ps; [done|simpl; lia]).
  rewrite (proj2 (Nat.eqb_neq _ 0)) by lia. rewrite (proj2 (Z.ltb_ge _ _)) by lia.
  rewrite Nat2Z.id, Nat.add_sub. apply (params_pairs ps _ [] padding r); [done|lia|lia].
Qed.

Section Params.
Context {T : Type} `{SocketServerLaws T}.
Context (unescape : list Z → option (list Z)).

Lemma requestString_known ty : 0 ≤ ty < 12 → ∃ t, requestString ty = Ret t.
Proof.
  intros Hty. unfold requestString. change (8 * Z.of_nat (length typestring)) with 96.
  rewrite (proj2 (Z.ltb_lt ty 96)) by lia.
  destruct (lookup_lt_is_Some_2 typestring (Z.to_nat ty)) as [t ->]; [simpl; lia|]. by exists t.
Qed.

(** The record of a request that has begun on its own connection. *)
Lemma parsePackage_record ty id content padding s r (c : CgiServer (T := T)) :
  requests c !! id = Some r → rsocket r = s → 0 ≤ ty < 12 →
  parsePackage unescape s (record_bytes ty id content padding) c =
  (x ← dispatch unescape (record_header ty id content padding) (content ++ padding) r;
   let '(rc, r') := x : bool * CgiRequest in
   let c := set_requests (<[id := r']> (<[id := r]> (requests c))) c in
   if rc then Ret (true, c) else c ← releaseRequest r' c; Ret (false, c)).
Proof.
  intros Hr Hs Hty. unfold parsePackage.
  change (fcgi_of (record_bytes ty id content padding)) with (Some (record_header ty id content padding)).
  cbv beta iota. rewrite package_of_record, Z.eqb_refl. cbn [cxx_assert mbind outcome_bind].
  change (type (record_header ty id content padding)) with ty.
  destruct (requestString_known ty Hty) as [t ->]. cbn [mbind outcome_bind].
  assert (requestid (record_header ty id content padding) = id) as -> by (apply content_of_record).
  rewrite Hr, Hs, Z.eqb_refl. done.
Qed.

(** A PARAMS record encoded as the FastCGI specification says, with any
    names and values without NULs (names not empty), any padding and any lengths that fit
    a record, is cut out of the stream exactly, read without leaving the message, and sets
    every pair as a header of the request of its connection; an empty one ends them. *)
Theorem params_roundtrip ps padding rest id s (r : CgiRequest) (c : CgiServer (T := T)) :
  Forall pair_ok ps → ps ≠ [] → Z.of_nat (length (encode_params ps)) < 65536 → (length padding < 256)%nat →
  requests c !! id = Some r → rsocket r = s →
  let record := record_bytes FASTCGI_PARAMS id (encode_params ps) padding in
  let last := record_bytes FASTCGI_PARAMS id [] [] in
  cgi_split (record ++ rest) = Z.of_nat (length record) ∧
  parsePackage unescape s record c =
    Ret (true, set_requests (<[id := add_all ps r]> (requests c)) c) ∧
  parsePackage unescape s last c =
    Ret (true, set_requests (<[id := receiveParamsDone r]> (requests c)) c).
Proof.
  intros Hok Hne Hl Hp Hr Hs record last. split_and!; [apply cgi_split_record|..].
  - unfold record. rewrite (parsePackage_record _ _ _ _ _ r) by done.
    change (dispatch unescape _ _ r) with (readParams (record_header FASTCGI_PARAMS id (encode_params ps) padding)
      (encode_params ps ++ padding) r).
    rewrite readParams_pairs by done. cbn [mbind outcome_bind]. by rewrite insert_insert_eq.
  - unfold last. rewrite (parsePackage_record _ _ _ _ _ r) by done. cbn. by rewrite insert_insert_eq.
Qed.
End Params.

(** ** The response stream *)

(** What a FastCGI peer reads: the type, the id and the content of the next record. *)
Definition next_record (s : list Z) : option (Z * Z * list Z * list Z) :=
  match fcgi_of s with
  | None => None
  | Some h =>
      let body := drop fcgi_size s in
      let n := Z.to_nat (content_length h) in let p := Z.to_nat (padding_length h) in
      if (length body <? n + p)%nat then None
      else Some (type h, requestid h, take n body, drop (n + p) body)
  end.

Definition pad_of (n : Z) : nat := Z.to_nat (if 0 <? n mod 8 then 8 - n mod 8 else 0).
(** The bytes of one [send_record]. *)
Definition sent_bytes (ty id : Z) (content junk : list Z) : list Z :=
  let n := Z.of_nat (length content) in
  fcgi_bytes (make_header ty id (u32 n)) ++ content ++ take (pad_of n) junk.

Lemma pad_of_u32 n : padding_length (make_header 0 0 (u32 n)) = Z.of_nat (pad_of n).
Proof.
  unfold make_header, pad_of. cbn [padding_length]. unfold u32, wrap. rewrite Z.mod_mod_divide by (by exists (2 ^ 29)).
  destruct (Z.ltb_spec 0 (n mod 8)); [|done]. dlia.
Qed.

Lemma next_sent ty id content junk rest : 0 ≤ id < 65536 → (8 ≤ length junk)%nat →
  let n := Z.of_nat (length content) in
  next_record (sent_bytes ty id content junk ++ rest) =
  Some (ty, id, take (Z.to_nat (n mod 65536)) content,
        drop (Z.to_nat (n mod 65536) + pad_of n) (content ++ take (pad_of n) junk) ++ rest).
Proof.
  intros Hid Hj n. unfold next_record, sent_bytes. fold n. set (h := make_header ty id (u32 n)).
  change (fcgi_of ((fcgi_bytes h ++ content ++ take (pad_of n) junk) ++ rest)) with (Some h). cbv beta iota.
  change (drop fcgi_size ((fcgi_bytes h ++ content ++ take (pad_of n) junk) ++ rest))
    with ((content ++ take (pad_of n) junk) ++ rest).
  assert (content_length h = n mod 65536) as ->.
  { unfold h, make_header, content_length. cbn [content_length_high content_length_low].
    assert (0 ≤ n) by lia. unfold u32, wrap. dlia. }
  assert (padding_length h = Z.of_nat (pad_of n)) as -> by apply pad_of_u32.
  assert (requestid h = id) as -> by (unfold h, make_header, requestid; cbn [requestid_high requestid_low]; dlia).
  rewrite Nat2Z.id. assert (pad_of n ≤ 8)%nat by (unfold pad_of; case_match; dlia).
  assert (Z.to_nat (n mod 65536) ≤ length content)%nat by (assert (0 ≤ n) by lia; dlia).
  rewrite (proj2 (Nat.ltb_ge _ _)) by (rewrite !length_app, length_take; lia).
  rewrite <-app_assoc, take_app_le by lia. rewrite app_assoc, drop_app_le; [done|].
  rewrite !length_app, length_take. lia.
Qed.

(** The records [send] ends with. *)
Definition end_bytes (id : Z) (junk3 : list Z) : list Z :=
  fcgi_bytes (make_header FASTCGI_STDOUT id 0) ++ fcgi_bytes (make_header FASTCGI_END_REQUEST id 8) ++
  <[4%nat := FASTCGI_REQUEST_COMPLETE]> (take 8 junk3).

Lemma end_bytes_sent id junk junk3 : length junk3 = 8%nat → end_bytes id junk3 =
  sent_bytes FASTCGI_STDOUT id [] junk ++
  sent_bytes FASTCGI_END_REQUEST id (<[4%nat := FASTCGI_REQUEST_COMPLETE]> junk3) junk ++ [].
Proof.
  intros Hj. unfold end_bytes, sent_bytes. rewrite length_insert, Hj, (take_ge junk3) by lia.
  rewrite !app_nil_r. done.
Qed.

Section Response.
Context (order_headers : gmap (list Z) (list Z) → list (list Z * list Z)).

Definition said (s : Z) (bytes : list (list Z)) (rec : recorder) : recorder :=
  MkRecorder (inbox rec) (calls rec ++ map (CallSend s) bytes).

Lemma send_record_said ty content junk r rec : ∃ bytes,
  send_record ty content junk r rec = Ret (said (rsocket r) bytes rec) ∧
  concat bytes = sent_bytes ty (rid r) content junk.
Proof.
  unfold send_record, sent_bytes, said. set (h := make_header ty (rid r) _).
  assert (padding_length h = Z.of_nat (pad_of (Z.of_nat (length content)))) as -> by apply pad_of_u32.
  rewrite Nat2Z.id. destruct (Z.ltb_spec 0 (Z.of_nat (pad_of (Z.of_nat (length content))))).
  - exists [fcgi_bytes h; content; take (pad_of (Z.of_nat (length content))) junk]. simpl.
    by rewrite <-!app_assoc, app_nil_r.
  - exists [fcgi_bytes h; content]. simpl. rewrite <-!app_assoc.
    replace (pad_of (Z.of_nat (length content))) with 0%nat by lia. by rewrite !app_nil_r.
Qed.

Lemma said_said s b1 b2 rec : said s b2 (said s b1 rec) = said s (b1 ++ b2) rec.
Proof. unfold said. simpl. by rewrite map_app, app_assoc. Qed.

Lemma send_said junk1 junk2 junk3 r rec : ∃ bytes,
  send order_headers junk1 junk2 junk3 r rec = Ret (said (rsocket r) bytes rec) ∧
  concat bytes = sent_bytes FASTCGI_STDOUT (rid r) (header_text order_headers r) junk1 ++
    (if bool_decide (output_content r = []) then []
     else sent_bytes FASTCGI_STDOUT (rid r) (output_content r) junk2) ++ end_bytes (rid r) junk3.
Proof.
  unfold send. destruct (send_record_said FASTCGI_STDOUT (header_text order_headers r) junk1 r rec)
    as (b1 & -> & E1). cbn [mbind outcome_bind].
  assert (∃ b2, (if bool_decide (output_content r = []) then Ret (said (rsocket r) b1 rec)
    else send_record FASTCGI_STDOUT (output_content r) junk2 r (said (rsocket r) b1 rec))
    = Ret (said (rsocket r) (b1 ++ b2) rec) ∧
    concat b2 = if bool_decide (output_content r = []) then []
      else sent_bytes FASTCGI_STDOUT (rid r) (output_content r) junk2) as (b2 & -> & E2).
  { destruct (bool_decide _); [exists []; by rewrite app_nil_r|].
    destruct (send_record_said FASTCGI_STDOUT (output_content r) junk2 r (said (rsocket r) b1 rec))
      as (b2 & -> & E2). exists b2. by rewrite said_said. }
  cbn [mbind outcome_bind].
  eexists ((b1 ++ b2) ++ [fcgi_bytes (make_header FASTCGI_STDOUT (rid r) 0);
    fcgi_bytes (make_header FASTCGI_END_REQUEST (rid r) 8); _]). split.
  - rewrite <-said_said. unfold said at 3. cbn [map api_send recorder_api mbind outcome_bind inbox calls].
    unfold said. cbn [inbox calls]. rewrite !map_app, <-!app_assoc. reflexivity.
  - rewrite !concat_app, E1, E2. simpl. by rewrite app_nil_r, <-!app_assoc.
Qed.

(** C29 (roundtrip): the response, as a FastCGI peer reads it, whatever the uninitialised
    bytes are and the order of the headers is: the header text, the content if there is
    any, the empty STDOUT record and the END_REQUEST record with status complete.  A
    header text or content of 65536 bytes or more announces its length modulo 65536: the
    peer gets that part of it, and reads the rest as the next record. *)
Theorem response_stream junk1 junk2 junk3 r rec :
  0 ≤ rid r < 65536 → (8 ≤ length junk1)%nat → (8 ≤ length junk2)%nat → length junk3 = 8%nat →
  Z.of_nat (length (header_text order_headers r)) < 65536 →
  let n := Z.of_nat (length (output_content r)) in
  let tail := end_bytes (rid r) junk3 in
  ∃ bytes rest, send order_headers junk1 junk2 junk3 r rec = Ret (said (rsocket r) bytes rec) ∧
    next_record (concat bytes) = Some (FASTCGI_STDOUT, rid r, header_text order_headers r, rest) ∧
    (n = 0 → rest = tail) ∧
    (0 < n < 65536 → next_record rest = Some (FASTCGI_STDOUT, rid r, output_content r, tail)) ∧
    (65536 ≤ n → ∃ left, left ≠ [] ∧
       next_record rest = Some (FASTCGI_STDOUT, rid r, take (Z.to_nat (n mod 65536)) (output_content r), left ++ tail)) ∧
    ∃ rest2, next_record tail = Some (FASTCGI_STDOUT, rid r, [], rest2) ∧
      next_record rest2 = Some (FASTCGI_END_REQUEST, rid r, <[4%nat := FASTCGI_REQUEST_COMPLETE]> junk3, []).
Proof.
  intros Hid Hj1 Hj2 Hj3 Hh n tail. destruct (send_said junk1 junk2 junk3 r rec) as (bytes & E & Eb).
  set (mid := if bool_decide (output_content r = []) then [] else sent_bytes FASTCGI_STDOUT (rid r) (output_content r) junk2) in *.
  exists bytes, (mid ++ tail). rewrite Eb. split_and!; [done|..].
  - rewrite next_sent by done. rewrite Z.mod_small, Nat2Z.id by lia. rewrite firstn_all, drop_app_ge by lia.
    rewrite Nat.add_comm, Nat.add_sub, drop_ge; [done|]. rewrite length_take. lia.
  - intros Hn. unfold mid. destruct (output_content r); [done|]. unfold n in Hn. simpl in Hn. lia.
  - intros Hn. unfold mid. rewrite bool_decide_eq_false_2 by (intros E0; unfold n in Hn; rewrite E0 in Hn; simpl in Hn; lia).
    rewrite next_sent by done. fold n. rewrite Z.mod_small by lia. unfold n at 1. rewrite Nat2Z.id, firstn_all.
    rewrite drop_app_ge by (unfold n; lia). rewrite drop_ge; [done|]. rewrite length_take. unfold n. lia.
  - intros Hn. unfold mid. rewrite bool_decide_eq_false_2 by (intros E0; unfold n in Hn; rewrite E0 in Hn; simpl in Hn; lia).
    rewrite next_sent by done. fold n. eexists. split; [|done].
    intros E0. apply (f_equal length) in E0. rewrite length_drop, length_app, length_take in E0. simpl in E0.
    assert (pad_of n ≤ 8)%nat by (unfold pad_of; case_match; dlia). unfold n in *. dlia.
  - unfold tail. rewrite (end_bytes_sent _ junk1), (next_sent _ _ [] junk1) by done.
    set (body := <[4%nat := FASTCGI_REQUEST_COMPLETE]> junk3).
    assert (length body = 8%nat) as Hb by (unfold body; by rewrite length_insert).
    exists (sent_bytes FASTCGI_END_REQUEST (rid r) body junk1 ++ []). split; [done|].
    rewrite next_sent by done. rewrite Hb. change (Z.to_nat (Z.of_nat 8 mod 65536)) with 8%nat.
    change (pad_of (Z.of_nat 8)) with 0%nat. rewrite (take_ge body) by lia.
    rewrite drop_ge; [done|]. rewrite length_app, Hb. simpl. lia.
Qed.
End Response.

(** ** The end of the input *)

Definition item (kv : list Z * list Z) : list Z := fst kv ++ [ch "="] ++ snd kv.
(** Text that holds neither '=', nor the separator [sc], nor a NUL. *)
Definition item_text (sc : Z) (s : list Z) : Prop := (ch "=" ∉ s) ∧ (sc ∉ s) ∧ no_nul s.
Definition item_ok (sc : Z) (kv : list Z * list Z) : Prop := item_text sc (fst kv) ∧ item_text sc (snd kv).
#[export] Instance item_ok_dec sc kv : Decision (item_ok sc kv).
Proof. unfold item_ok, item_text, no_nul. apply _. Defined.

Lemma item_fields sc kv : item_ok sc kv → splitter_fields (item kv) (ch "=") = Ret (true, [fst kv; snd kv]).
Proof.
  intros [(Hk & _ & Hk0) (Hv & _ & Hv0)]. unfold splitter_fields.
  change (item kv) with (join (ch "=") [fst kv; snd kv]). apply splitString_fields; try done.
  - by repeat constructor.
  - unfold no_nul. simpl. rewrite not_elem_of_app, not_elem_of_cons. by split_and!.
Qed.

Lemma items_fields sc kvs : sc ≠ 0 → sc ≠ ch "=" → kvs ≠ [] → Forall (item_ok sc) kvs →
  splitter_fields (join sc (map item kvs)) sc = Ret (true, map item kvs).
Proof.
  intros Hsc Hse Hne Hok. apply splitString_fields; [done|by destruct kvs|..].
  - apply Forall_fmap. eapply Forall_impl; [exact Hok|]. intros kv [(_ & H1 & _) (_ & H2 & _)].
    simpl. unfold item. rewrite !not_elem_of_app, list_elem_of_singleton. by split_and!.
  - apply join_no_nul; [done|]. apply Forall_fmap. eapply Forall_impl; [exact Hok|].
    intros kv [(_ & _ & H1) (_ & _ & H2)]. simpl. unfold no_nul, item in *.
    rewrite !not_elem_of_app. split_and!; [done|by apply (bool_decide_unpack _)|done].
Qed.

Lemma add_cookies_items sc kvs : Forall (item_ok sc) kvs → ∀ r,
  add_cookies (map item kvs) r = Ret (true, fold_left (λ r kv, addInputCookie (fst kv) (snd kv) r) kvs r).
Proof.
  induction 1 as [|kv kvs Hkv Hkvs IH]; intros r; [done|]. cbn [map add_cookies].
  rewrite (item_fields sc) by done. cbn [mbind outcome_bind]. apply IH.
Qed.

Lemma add_variables_items sc kvs : Forall (item_ok sc) kvs → ∀ r,
  add_variables (map item kvs) r = Ret (fold_left (λ r kv, addInputVariable (fst kv) (snd kv) r) kvs r).
Proof.
  induction 1 as [|kv kvs Hkv Hkvs IH]; intros r; [done|]. cbn [map add_variables].
  rewrite (item_fields sc) by done. cbn [mbind outcome_bind]. apply IH.
Qed.

Definition insert_all (kvs : list (list Z * list Z)) (m : gmap (list Z) (list Z)) : gmap (list Z) (list Z) :=
  fold_left (λ m kv, <[fst kv := snd kv]> m) kvs m.
Definition set_cookies m r := MkRequest (rid r) (rsocket r) (keepalive r) (recv_params_done r) (recv_stdin_done r)
  (url r) (cmd r) (role r) (input_headers r) (input_variables r) m (output_headers r) (output_content r).
Definition set_variables m r := MkRequest (rid r) (rsocket r) (keepalive r) (recv_params_done r) (recv_stdin_done r)
  (url r) (cmd r) (role r) (input_headers r) m (cookies r) (output_headers r) (output_content r).

Lemma cookies_fold kvs : ∀ r, fold_left (λ r kv, addInputCookie (fst kv) (snd kv) r) kvs r =
  set_cookies (insert_all kvs (cookies r)) r.
Proof. induction kvs as [|kv kvs IH]; intros r; simpl; [by destruct r|]. by rewrite IH. Qed.

Lemma variables_fold kvs : ∀ r, fold_left (λ r kv, addInputVariable (fst kv) (snd kv) r) kvs r =
  set_variables (insert_all kvs (input_variables r)) r.
Proof. induction kvs as [|kv kvs IH]; intros r; simpl; [by destruct r|]. by rewrite IH. Qed.

Section StdinDone.
Context (unescape : list Z → option (list Z)).

(** What [receiveStdinDone] makes of a request.  With cookies, a GET or
    POST method, a script name and a query whose unescaped text is a list of
    assignments, it sets the cookies, the command, the URL and the variables, later values
    replacing earlier ones.  A request without a cookie header gets none of them: only
    [_recv_stdin_done] is set, the URL stays empty and the command GET. *)
Theorem stdin_done_spec r cks (post : bool) script q vars :
  Forall (item_ok (ch ";")) cks → cks ≠ [] → Forall (item_ok (ch "&")) vars → vars ≠ [] →
  input_headers r !! str "HTTP_COOKIE" = Some (join (ch ";") (map item cks)) →
  input_headers r !! str "REQUEST_METHOD" = Some (if post then str "POST" else str "GET") →
  input_headers r !! str "SCRIPT_NAME" = Some script →
  input_headers r !! str "QUERY_STRING" = Some q →
  unescape q = Some (join (ch "&") (map item vars)) →
  receiveStdinDone unescape r =
    Ret (set_variables (insert_all vars (input_variables r)) (set_url script
      (set_cmd (if post then POST else GET) (set_cookies (insert_all cks (cookies r)) (set_stdin_done r))))) ∧
  ∀ r0, input_headers r0 !! str "HTTP_COOKIE" = None →
    receiveStdinDone unescape r0 = Ret (set_stdin_done r0).
Proof.
  intros Hc Hcn Hv Hvn H1 H2 H3 H4 Hq. split.
  - unfold receiveStdinDone, read_cookies. cbn [input_headers set_stdin_done]. rewrite H1.
    rewrite items_fields by done. cbn [mbind outcome_bind]. rewrite (add_cookies_items (ch ";")) by done.
    rewrite cookies_fold. cbn [mbind outcome_bind]. unfold read_method. cbn [input_headers set_cookies set_stdin_done].
    rewrite H2. replace (hashString (if post then str "POST" else str "GET") =? hashString (str "GET")) with (negb post)
      by (destruct post; vm_compute; reflexivity).
    assert (∀ x, (if negb post then set_cmd GET x
      else if hashString (if post then str "POST" else str "GET") =? hashString (str "POST") then set_cmd POST x else x)
      = set_cmd (if post then POST else GET) x) as -> by (intros x; by destruct post).
    unfold read_url. cbn [input_headers set_cookies set_stdin_done set_cmd]. rewrite H3.
    unfold read_query. cbn [input_headers set_cookies set_stdin_done set_cmd set_url]. rewrite H4.
    unfold url_decode. rewrite Hq. change (default [] (Some ?x)) with x. cbv zeta.
    assert (join (ch "&") (map item vars) ≠ []) as Hj.
    { destruct vars as [|kv vars]; [done|]. destruct vars; simpl; unfold item; by destruct (fst kv). }
    rewrite bool_decide_eq_false_2 by done. cbn [negb]. rewrite items_fields by done. cbn [mbind outcome_bind].
    rewrite (add_variables_items (ch "&")) by done. by rewrite variables_fold.
  - intros r0 Hr0. unfold receiveStdinDone, read_cookies. cbn [input_headers set_stdin_done]. by rewrite Hr0.
Qed.
End StdinDone.

(** ** The table of requests *)

Section Table.
Context {T : Type} `{SocketServerLaws T}.
Context (unescape : list Z → option (list Z)).
Context (order : gmap Z CgiRequest → list (Z * CgiRequest)).
Hypothesis order_all : ∀ m, order m ≡ₚ map_to_list m.

Lemma order_lookup m k r : (k, r) ∈ order m ↔ m !! k = Some r.
Proof. rewrite (order_all m). apply elem_of_map_to_list. Qed.

(** Request ids are kept for the whole server, though each connection numbers
    its own.  A record whose id is in use by a request of another connection fails an
    assertion: the process aborts.  A record of a type from 12 to 95 reads past the table
    of type names.  [getCompleteRequest] takes a complete request
    off the table when there is one; when there is none it takes the request with id 0,
    complete or not. *)
Theorem request_table_spec (c : CgiServer (T := T)) :
  (∀ id r s ty content padding, requests c !! id = Some r → rsocket r ≠ s → 0 ≤ ty < 12 →
     parsePackage unescape s (record_bytes ty id content padding) c = Aborted) ∧
  (∀ id s ty content padding, 12 ≤ ty < 96 →
     parsePackage unescape s (record_bytes ty id content padding) c = Undef) ∧
  (∀ id r, requests c !! id = Some r → complete r = true → ∃ id' r',
     getCompleteRequest order c = (Some r', set_requests (delete id' (requests c)) c) ∧
     requests c !! id' = Some r' ∧ complete r' = true) ∧
  ((∀ id r, requests c !! id = Some r → complete r = false) →
     getCompleteRequest order c =
       (requests c !! 0, set_requests (delete 0 (requests c)) c)).
Proof.
  split_and!.
  - intros id r s ty content padding Hr Hs Hty. unfold parsePackage.
    change (fcgi_of (record_bytes ty id content padding)) with (Some (record_header ty id content padding)).
    cbv beta iota. rewrite package_of_record, Z.eqb_refl. cbn [cxx_assert mbind outcome_bind].
    change (type (record_header ty id content padding)) with ty.
    destruct (requestString_known ty Hty) as [t ->]. cbn [mbind outcome_bind].
    assert (requestid (record_header ty id content padding) = id) as -> by (apply content_of_record).
    rewrite Hr. by rewrite (proj2 (Z.eqb_neq _ _) Hs).
  - intros id s ty content padding Hty. unfold parsePackage.
    change (fcgi_of (record_bytes ty id content padding)) with (Some (record_header ty id content padding)).
    cbv beta iota. rewrite package_of_record, Z.eqb_refl. cbn [cxx_assert mbind outcome_bind].
    change (type (record_header ty id content padding)) with ty. unfold requestString.
    change (8 * Z.of_nat (length typestring)) with 96. rewrite (proj2 (Z.ltb_lt ty 96)) by lia.
    by rewrite lookup_ge_None_2 by (simpl; lia).
  - intros id r Hr Hc. unfold getCompleteRequest. rewrite bool_decide_eq_false_2 by (intros E; by rewrite E in Hr).
    destruct (List.find _ (order (requests c))) as [[id' r']|] eqn:Ef.
    + apply List.find_some in Ef as [Hin Hc']. apply list_elem_of_In, order_lookup in Hin.
      exists id', r'. cbn [fst snd] in *. by rewrite Hin.
    + exfalso. apply order_lookup in Hr. apply list_elem_of_In in Hr.
      pose proof (List.find_none _ _ Ef _ Hr) as Hn. simpl in Hn. congruence.
  - intros Hno. unfold getCompleteRequest. destruct c as [sv reqs d]. cbn [requests set_requests socketServer dangling] in *.
    unfold set_requests. cbn [requests socketServer dangling]. case_bool_decide as He.
    { subst reqs. by rewrite lookup_empty, delete_empty. }
    destruct (List.find _ (order reqs)) as [[id' r']|] eqn:Ef.
    + exfalso. apply List.find_some in Ef as [Hin Hc']. apply list_elem_of_In, order_lookup in Hin.
      cbn [snd] in Hc'. rewrite (Hno _ _ Hin) in Hc'. done.
    + destruct (reqs !! 0) eqn:E0; [done|]. by rewrite delete_id.
Qed.
End Table.

Definition demo_request : CgiRequest := new_request 1 7.
Definition demo_cgi : CgiServer (T := recorder) := set_requests {[1 := demo_request]} (new_Cgi (MkRecorder [] [])).

Lemma params_roundtrip_witness :
  parsePackage (λ s, Some s) 7 (record_bytes FASTCGI_PARAMS 1
    (encode_params [(str "REQUEST_METHOD", str "GET"); (str "X", replicate 200 65)]) [0; 0]) demo_cgi
  = Ret (true, set_requests (<[1 := add_all [(str "REQUEST_METHOD", str "GET"); (str "X", replicate 200 65)] demo_request]>
      (requests demo_cgi)) demo_cgi).
Proof.
  pose proof (params_roundtrip (λ s, Some s) [(str "REQUEST_METHOD", str "GET"); (str "X", replicate 200 65)]
    [0; 0] [] 1 7 demo_request demo_cgi) as H.
  destruct H as (_ & H & _); [..|exact H].
  - apply (bool_decide_unpack _). vm_compute. exact I.
  - discriminate.
  - vm_compute. reflexivity.
  - simpl. lia.
  - vm_compute. reflexivity.
  - reflexivity.
Defined.

Lemma response_stream_witness :
  ∃ bytes rest, send map_to_list (replicate 8 1) (replicate 8 2) (replicate 8 3)
    (addString (str "hello") demo_request) (MkRecorder [] [])
    = Ret (said 7 bytes (MkRecorder [] [])) ∧
  next_record (concat bytes) = Some (FASTCGI_STDOUT, 1, header_text map_to_list demo_request, rest) ∧
  next_record rest = Some (FASTCGI_STDOUT, 1, str "hello", end_bytes 1 (replicate 8 3)).
Proof.
  destruct (response_stream map_to_list (replicate 8 1) (replicate 8 2) (replicate 8 3)
    (addString (str "hello") demo_request) (MkRecorder [] [])) as (bytes & rest & H1 & H2 & _ & H4 & _).
  - vm_compute. split; [discriminate|reflexivity].
  - vm_compute. lia.
  - vm_compute. lia.
  - reflexivity.
  - vm_compute. reflexivity.
  - exists bytes, rest. split; [exact H1|]. split; [exact H2|]. apply H4. vm_compute. split; reflexivity.
Defined.

Lemma stdin_done_spec_witness :
  let r := add_all [(str "HTTP_COOKIE", str "u=x"); (str "REQUEST_METHOD", str "POST");
                    (str "SCRIPT_NAME", str "/do"); (str "QUERY_STRING", str "a=1&b=2")] demo_request in
  ∃ r', receiveStdinDone (λ s, Some s) r = Ret r' ∧ cmd r' = POST ∧ url r' = str "/do" ∧
    input_variables r' !! str "b" = Some (str "2").
Proof.
  intros r. destruct (stdin_done_spec (λ s, Some s) r [(str "u", str "x")] true (str "/do") (str "a=1&b=2")
    [(str "a", str "1"); (str "b", str "2")]) as [E _];
    [first [discriminate|vm_compute; reflexivity|apply (bool_decide_unpack _); vm_compute; exact I]..|].
  eexists. split; [exact E|]. split; [reflexivity|]. split; [reflexivity|]. vm_compute. reflexivity.
Defined.

Lemma request_table_spec_witness :
  parsePackage (λ s, Some s) 8 (record_bytes FASTCGI_BEGIN_REQUEST 1 [0; 1; 0; 0; 0; 0; 0; 0] []) demo_cgi = Aborted.
Proof.
  apply (proj1 (request_table_spec (λ s, Some s) map_to_list (λ m, Permutation_refl _) demo_cgi)
    1 demo_request); [vm_compute; reflexivity|discriminate|unfold FASTCGI_BEGIN_REQUEST; lia].
Defined.

(** ** Cookies *)

(** A request holds one cookie, and it expires 8 hours late: the header is the one of the
    first call, with a date that reads as 8 hours after the time asked for; later calls
    change nothing. *)
Lemma setCookie_once name value seconds now r : output_headers r !! str "Set-Cookie" = None →
  0 < now → 0 ≤ seconds → now + seconds + CST < 253402300800 → ∃ time r',
  setCookie name value seconds now r = Ret r' ∧
  output_headers r' !! str "Set-Cookie" = Some (c_str name ++ str "=" ++ c_str value ++ str ";expires=" ++ time) ∧
  read_imf time = Some (now + seconds + CST) ∧
  ∀ name2 value2 seconds2 now2, 0 < now2 → 0 ≤ seconds2 → now2 + seconds2 + CST < 253402300800 →
    setCookie name2 value2 seconds2 now2 r' = Ret r'.
Proof.
  intros Hr Hn Hs Hm. unfold setCookie, set_cookie_header. unfold CST in *.
  assert (∀ a b, 0 < a → 0 ≤ b → a + b + 8 * 3600 < 253402300800 → u64 (a + b) = a + b) as Hu
    by (intros; unfold u64; rewrite wrap_id by (unfold fits; lia); done).
  rewrite Hu by done. destruct (timestamp_gmt_date (now + seconds) now) as (time & -> & _ & Hd); [lia|unfold CST; lia|].
  cbn [mbind outcome_bind]. eexists time, _. split; [done|]. cbn [output_headers addHeader]. rewrite Hr.
  split_and!; [by rewrite lookup_insert_eq, <-app_assoc|done|].
  intros name2 value2 seconds2 now2 Hn2 Hs2 Hm2. rewrite Hu by done.
  destruct (timestamp_gmt_date (now2 + seconds2) now2) as (time2 & -> & _); [lia|unfold CST; lia|].
  cbn [mbind outcome_bind]. unfold addHeader at 1. cbn [output_headers addHeader]. rewrite Hr, lookup_insert_eq. unfold addHeader. by rewrite Hr.
Qed.
