(* ===== verification/RapidXml.v ===== *)
(** * RapidXml: the XML parser the configuration is read with

    deps/rapidxml-1.13/rapidxml.hpp, the instance [xml_document<char>::parse<0>] that
    XmlParser calls.  The parser works in place: names and values are pointers into the text,
    which it ends with NULs and in which it replaces entities.  Here the text is a list of
    bytes that is read and written by index, a pointer is an index, an access outside the
    text is [Undef], and a [parse_error] is caught with its [what()]. *)

From S2P Require Import Prelude CLib.

(** ** The text and the exceptions *)

Inductive parsed (A : Type) := Parsed (a : A) (m : list Z) | Threw (what : list Z).
Arguments Parsed {A} a m.
Arguments Threw {A} what.
Definition parser (A : Type) : Type := list Z → outcome (parsed A).
#[export] Instance parser_ret : MRet parser := λ A a m, Ret (Parsed a m).
#[export] Instance parser_bind : MBind parser := λ A B f p m,
  match p m with Ret (Parsed a m) => f a m | Ret (Threw w) => Ret (Threw w) | Aborted => Aborted | Undef => Undef end.

Definition get (i : nat) : parser Z := λ m, match m !! i with Some c => Ret (Parsed c m) | None => Undef end.
Definition put (i : nat) (c : Z) : parser unit := λ m, match m !! i with Some _ => Ret (Parsed tt (<[i := c]> m)) | None => Undef end.
Definition throw {A} (what : list Z) : parser A := λ m, Ret (Threw what).
(** A loop that is cut off: excluded by [parse_in_place]. *)
Definition lost {A} : parser A := λ m, Undef.
(** A loop over the text, with one turn for each byte. *)
Definition each_byte {A} (loop : nat → parser A) : parser A := λ m, loop (length m) m.

(** ** The tables *)

Definition one_of (s : list Z) (c : Z) : bool := bool_decide (c ∈ s).
(** Space, newline, carriage return and tab. *)
Definition white : list Z := [9; 10; 13; 32].
Definition whitespace_pred : Z → bool := one_of white.
Definition node_name_pred (c : Z) : bool := negb (one_of (0 :: white ++ str "/>?") c).
Definition attribute_name_pred (c : Z) : bool := negb (one_of (0 :: white ++ str "!/<=>?") c).
Definition text_pred (c : Z) : bool := negb (one_of (0 :: str "<") c).
Definition text_pure_no_ws_pred (c : Z) : bool := negb (one_of (0 :: str "&<") c).
Definition attribute_value_pred (quote : Z) (c : Z) : bool := negb (one_of [0; quote] c).
Definition attribute_value_pure_pred (quote : Z) (c : Z) : bool := negb (one_of (0 :: quote :: str "&") c).
(** 255 is no digit. *)
Definition lookup_digits (c : Z) : Z :=
  if (ch "0" <=? c) && (c <=? ch "9") then c - ch "0"
  else if (ch "A" <=? c) && (c <=? ch "F") then c - ch "A" + 10
  else if (ch "a" <=? c) && (c <=? ch "f") then c - ch "a" + 10 else 255.

(** ** Character level *)

Fixpoint skip_loop (pred : Z → bool) (text n : nat) : parser nat :=
  match n with O => lost | S n => c ← get text; if pred c then skip_loop pred (S text) n else mret text end.
Definition skip (pred : Z → bool) (text : nat) : parser nat := each_byte (skip_loop pred text).

(** [text[0] == w[0] && text[1] == w[1] && ...] *)
Fixpoint matches (text : nat) (w : list Z) : parser bool :=
  match w with
  | [] => mret true
  | x :: w => c ← get text; if c =? x then matches (S text) w else mret false
  end.

Definition continuation (code : Z) : Z := u8 (Z.land (Z.lor code 128) 191).
Definition insert_coded_character (text : nat) (code : Z) : parser nat :=
  if code <? 128 then _ ← put text (u8 code); mret (text + 1)%nat
  else if code <? 2048 then
    _ ← put (text + 1) (continuation code); let code := Z.shiftr code 6 in
    _ ← put text (u8 (Z.lor code 192)); mret (text + 2)%nat
  else if code <? 65536 then
    _ ← put (text + 2) (continuation code); let code := Z.shiftr code 6 in
    _ ← put (text + 1) (continuation code); let code := Z.shiftr code 6 in
    _ ← put text (u8 (Z.lor code 224)); mret (text + 3)%nat
  else if code <? 1114112 then
    _ ← put (text + 3) (continuation code); let code := Z.shiftr code 6 in
    _ ← put (text + 2) (continuation code); let code := Z.shiftr code 6 in
    _ ← put (text + 1) (continuation code); let code := Z.shiftr code 6 in
    _ ← put text (u8 (Z.lor code 240)); mret (text + 4)%nat
  else throw (str "invalid numeric character entity").

(** The number after "&#" or "&#x", an [unsigned long]. *)
Fixpoint code_loop (base code : Z) (src n : nat) : parser (Z * nat) :=
  match n with
  | O => lost
  | S n => c ← get src; let digit := lookup_digits c in
           if digit =? 255 then mret (code, src) else code_loop base (u64 (code * base + digit)) (S src) n
  end.
(** The named entities: the character and the length of the entity. *)
Definition named_entity (src : nat) (c : Z) : parser (option (Z * nat)) :=
  if c =? ch "a" then
    b ← matches (src + 2) (str "mp;"); if (b : bool) then mret (Some (ch "&", 5%nat))
    else b ← matches (src + 2) (str "pos;"); mret (if (b : bool) then Some (ch "'", 6%nat) else None)
  else if c =? ch "q" then b ← matches (src + 2) (str "uot;"); mret (if (b : bool) then Some (34, 6%nat) else None)
  else if c =? ch "g" then b ← matches (src + 2) (str "t;"); mret (if (b : bool) then Some (ch ">", 4%nat) else None)
  else if c =? ch "l" then b ← matches (src + 2) (str "t;"); mret (if (b : bool) then Some (ch "<", 4%nat) else None)
  else mret None.

Fixpoint expand_loop (pred : Z → bool) (src dest n : nat) : parser (nat * nat) :=
  match n with
  | O => lost
  | S n =>
      c ← get src;
      if pred c then
        if c =? ch "&" then
          c1 ← get (src + 1);
          if c1 =? ch "#" then
            c2 ← get (src + 2);
            '(code, src) ← (if c2 =? ch "x" then each_byte (code_loop 16 0 (src + 3)) else each_byte (code_loop 10 0 (src + 2)));
            dest ← insert_coded_character dest code;
            c ← get src;
            if c =? ch ";" then expand_loop pred (S src) dest n else throw (str "expected ;")
          else
            e ← named_entity src c1;
            match e with
            | Some (x, k) => _ ← put dest x; expand_loop pred (src + k) (S dest) n
            | None => _ ← put dest c; expand_loop pred (S src) (S dest) n
            end
        else _ ← put dest c; expand_loop pred (S src) (S dest) n
      else mret (src, dest)
  end.
(** The new [text], and the end of what it was replaced by. *)
Definition skip_and_expand_character_refs (pred pure_pred : Z → bool) (text : nat) : parser (nat * nat) :=
  text ← skip pure_pred text; each_byte (expand_loop pred text text).

(** ** Nodes

    A name or a value is a pointer into the text with a size, or null.  The pointers between
    nodes and siblings are the lists of children and attributes. *)

Inductive node_type := node_document | node_element | node_data | node_cdata | node_comment | node_declaration | node_doctype | node_pi.
#[export] Instance node_type_eq_dec : EqDecision node_type.
Proof. solve_decision. Defined.

Abbreviation span := (option (nat * nat)).
Record xml_attribute := MkAttribute { attr_name : span; attr_value : span }.
#[warnings="-register-all"]
Inductive xml_node := MkNode { node_kind : node_type; node_name : span; node_value : span; node_attributes : list xml_attribute; nodes : list xml_node }.
Definition allocate_node (t : node_type) : xml_node := MkNode t None None [] [].
Definition set_name (p size : nat) (x : xml_node) := MkNode (node_kind x) (Some (p, size)) (node_value x) (node_attributes x) (nodes x).
Definition set_value (p size : nat) (x : xml_node) := MkNode (node_kind x) (node_name x) (Some (p, size)) (node_attributes x) (nodes x).
Definition set_attributes (l : list xml_attribute) (x : xml_node) := MkNode (node_kind x) (node_name x) (node_value x) l (nodes x).
Definition append_node (child x : xml_node) := MkNode (node_kind x) (node_name x) (node_value x) (node_attributes x) (nodes x ++ [child]).
(** [append_node] behind a test for null. *)
Definition append_some (child : option xml_node) (x : xml_node) : xml_node := match child with Some c => append_node c x | None => x end.

(** ** Parsing *)

Definition parse_bom (text : nat) : parser nat :=
  b ← matches text [239; 187; 191]; mret (if (b : bool) then (text + 3)%nat else text).

(** The loops that look for the end of a construct [w], and fail at the end of the text. *)
Fixpoint find_loop (w : list Z) (text n : nat) : parser nat :=
  match n with
  | O => lost
  | S n => b ← matches text w; if (b : bool) then mret text
           else c ← get text; if c =? 0 then throw (str "unexpected end of data") else find_loop w (S text) n
  end.
Definition find (w : list Z) (text : nat) : parser nat := each_byte (find_loop w text).

Definition parse_xml_declaration (text : nat) : parser (option xml_node * nat) := text ← find (str "?>") text; mret (None, (text + 2)%nat).
Definition parse_comment (text : nat) : parser (option xml_node * nat) := text ← find (str "-->") text; mret (None, (text + 3)%nat).
Definition parse_pi (text : nat) : parser (option xml_node * nat) := text ← find (str "?>") text; mret (None, (text + 2)%nat).
Definition parse_cdata (text : nat) : parser (option xml_node * nat) :=
  let value := text in
  text ← find (str "]]>") text;
  let cdata := set_value value (text - value) (allocate_node node_cdata) in
  _ ← put text 0; mret (Some cdata, (text + 3)%nat).

Fixpoint brackets_loop (depth text n : nat) : parser nat :=
  match n with
  | O => lost
  | S n =>
      match depth with
      | O => mret text
      | S d => c ← get text;
               if c =? ch "[" then brackets_loop (S depth) (S text) n
               else if c =? ch "]" then brackets_loop d (S text) n
               else if c =? 0 then throw (str "unexpected end of data") else brackets_loop depth (S text) n
      end
  end.
Fixpoint doctype_loop (text n : nat) : parser nat :=
  match n with
  | O => lost
  | S n => c ← get text;
           if c =? ch ">" then mret text
           else if c =? ch "[" then text ← each_byte (brackets_loop 1 (S text)); doctype_loop text n
           else if c =? 0 then throw (str "unexpected end of data") else doctype_loop (S text) n
  end.
Definition parse_doctype (text : nat) : parser (option xml_node * nat) := text ← each_byte (doctype_loop text); mret (None, S text).

(** The message of the source ends with a double quote. *)
Definition expected_quote : list Z := str "expected ' or " ++ [34].
Fixpoint attributes_loop (l : list xml_attribute) (text n : nat) : parser (list xml_attribute * nat) :=
  match n with
  | O => lost
  | S n =>
      c ← get text;
      if attribute_name_pred c then
        let name := text in
        text ← skip attribute_name_pred (S text);
        if (text =? name)%nat then throw (str "expected attribute name")
        else
          let name_end := text in
          text ← skip whitespace_pred text;
          c ← get text;
          if c =? ch "=" then
            _ ← put name_end 0;
            text ← skip whitespace_pred (S text);
            quote ← get text;
            if one_of [39; 34] quote then
              let value := S text in
              '(text, value_end) ← skip_and_expand_character_refs (attribute_value_pred quote) (attribute_value_pure_pred quote) value;
              c ← get text;
              if c =? quote then
                _ ← put value_end 0;
                text ← skip whitespace_pred (S text);
                attributes_loop (l ++ [MkAttribute (Some (name, name_end - name)%nat) (Some (value, value_end - value)%nat)]) text n
              else throw expected_quote
            else throw expected_quote
          else throw (str "expected =")
      else mret (l, text)
  end.
Definition parse_node_attributes (text : nat) : parser (list xml_attribute * nat) := each_byte (attributes_loop [] text).

(** [*node->value()]; a null value reads as an empty string. *)
Definition first_char (value : span) : parser Z := match value with Some (p, _) => get p | None => mret 0 end.
(** The node with the data, the new [text], and the character that ends the data. *)
Definition parse_and_append_data (x : xml_node) (contents_start : nat) : parser (xml_node * nat * Z) :=
  let value := contents_start in
  '(text, value_end) ← skip_and_expand_character_refs text_pred text_pure_no_ws_pred value;
  let x := append_node (set_value value (value_end - value) (allocate_node node_data)) x in
  c ← first_char (node_value x);
  let x := if c =? 0 then set_value value (value_end - value) x else x in
  ch ← get text;
  _ ← put value_end 0;
  mret (x, text, ch).

(** [parse_node], around [parse_element]. *)
Definition parse_node (parse_element : nat → parser (option xml_node * nat)) (text : nat) : parser (option xml_node * nat) :=
  c ← get text;
  if c =? ch "?" then
    let text := S text in
    c0 ← get text;
    decl ← (if one_of (str "xX") c0 then
              c1 ← get (text + 1);
              if one_of (str "mM") c1 then
                c2 ← get (text + 2);
                if one_of (str "lL") c2 then c3 ← get (text + 3); mret (whitespace_pred c3) else mret false
              else mret false
            else mret false);
    if (decl : bool) then parse_xml_declaration (text + 4) else parse_pi text
  else if c =? ch "!" then
    c1 ← get (text + 1);
    comment ← (if c1 =? ch "-" then matches (text + 2) (str "-") else mret false);
    if (comment : bool) then parse_comment (text + 3)
    else
      cdata ← (if c1 =? ch "[" then matches (text + 2) (str "CDATA[") else mret false);
      if (cdata : bool) then parse_cdata (text + 8)
      else
        doctype ← (if c1 =? ch "D" then b ← matches (text + 2) (str "OCTYPE"); if (b : bool) then c8 ← get (text + 8); mret (whitespace_pred c8) else mret false
                   else mret false);
        if (doctype : bool) then parse_doctype (text + 9)
        else text ← find (str ">") (S text); mret (None, S text)
  else parse_element text.

(** [parse_node_contents] from its label [after_data_node] on, and [parse_element]. *)
Fixpoint contents_loop (x : xml_node) (contents_start text : nat) (next_char : Z) (n : nat) : parser (xml_node * nat) :=
  match n with
  | O => lost
  | S n =>
      if next_char =? ch "<" then
        c1 ← get (text + 1);
        if c1 =? ch "/" then
          text ← skip node_name_pred (text + 2);
          text ← skip whitespace_pred text;
          c ← get text;
          if c =? ch ">" then mret (x, S text) else throw (str "expected >")
        else
          '(child, text) ← parse_node (λ text, parse_element text n) (S text);
          let contents_start := text in
          text ← skip whitespace_pred text;
          next_char ← get text;
          contents_loop (append_some child x) contents_start text next_char n
      else if next_char =? 0 then throw (str "unexpected end of data")
      else
        '(x, text, next_char) ← parse_and_append_data x contents_start;
        contents_loop x contents_start text next_char n
  end
with parse_element (text n : nat) : parser (option xml_node * nat) :=
  match n with
  | O => lost
  | S n =>
      let name := text in
      text ← skip node_name_pred text;
      if (text =? name)%nat then throw (str "expected element name")
      else
        let name_end := text in
        let element := set_name name (name_end - name) (allocate_node node_element) in
        text ← skip whitespace_pred text;
        '(attributes, text) ← parse_node_attributes text;
        let element := set_attributes attributes element in
        c ← get text;
        if c =? ch ">" then
          let contents_start := S text in
          text ← skip whitespace_pred (S text);
          next_char ← get text;
          '(element, text) ← contents_loop element contents_start text next_char n;
          _ ← put name_end 0; mret (Some element, text)
        else if c =? ch "/" then
          c ← get (S text);
          if c =? ch ">" then _ ← put name_end 0; mret (Some element, (text + 2)%nat) else throw (str "expected >")
        else throw (str "expected >")
  end.

(** [parse]: the children of the document, one turn for each; [n] bounds the depth. *)
Fixpoint document_loop (doc : xml_node) (text depth n : nat) : parser xml_node :=
  match n with
  | O => lost
  | S n =>
      text ← skip whitespace_pred text;
      c ← get text;
      if c =? 0 then mret doc
      else if c =? ch "<" then
        '(child, text) ← parse_node (λ text, parse_element text depth) (S text);
        document_loop (append_some child doc) text depth n
      else throw (str "expected <")
  end.
Definition parse : parser xml_node := λ m,
  (text ← parse_bom 0; each_byte (document_loop (allocate_node node_document) text (S (S (2 * length m))))) m.

