(* ===== verification/XmlText.v ===== *)
(** * XmlText: a reference for the XML parser

    What RapidXml.v computes, without the place: a parser from strings to trees of strings,
    which neither writes nor points, and the lemma that its fuel is enough for every string. *)

From S2P Require Import Prelude CLib RapidXml.

(** ** Trees and reading *)

#[warnings="-register-all"]
Inductive xml_tree := Tree { t_kind : node_type; t_name : list Z; t_value : list Z; t_attributes : list (list Z * list Z); t_nodes : list xml_tree }.
Inductive read (A : Type) := Read (a : A) (rest : list Z) | Failed (what : list Z).
Arguments Read {A} a rest.
Arguments Failed {A} what.
(** [None] is out of fuel. *)
Abbreviation result A := (option (read A)).
Definition and_then {A C} (r : result A) (f : A → list Z → result C) : result C :=
  match r with Some (Read a s) => f a s | Some (Failed w) => Some (Failed w) | None => None end.
Definition fail {A} (what : list Z) : result A := Some (Failed what).
Definition give {A} (a : A) (s : list Z) : result A := Some (Read a s).
Fixpoint take_while (p : Z → bool) (s : list Z) : list Z := match s with c :: s => if p c then c :: take_while p s else [] | [] => [] end.
Fixpoint drop_while (p : Z → bool) (s : list Z) : list Z := match s with c :: s' => if p c then drop_while p s' else s | [] => [] end.
Definition starts (w s : list Z) : bool := bool_decide (take (length w) s = w).
(** The text in front of the first [w], and from it on. *)
Fixpoint split_at (w s : list Z) : option (list Z * list Z) :=
  if starts w s then Some ([], s)
  else match s with [] => None | c :: s => '(a, r) ← split_at w s; Some (c :: a, r) end.
Definition end_of_data : list Z := str "unexpected end of data".
(** What follows the construct that [w] ends, with what is in it. *)
Definition upto {A} (w s : list Z) (f : list Z → A) : result A :=
  match split_at w s with Some (a, r) => give (f a) (drop (length w) r) | None => fail end_of_data end.

(** ** Character references *)

Definition utf8 (code : Z) : option (list Z) :=
  if code <? 128 then Some [code]
  else if code <? 2048 then Some [Z.lor (Z.shiftr code 6) 192; continuation code]
  else if code <? 65536 then Some [Z.lor (Z.shiftr code 12) 224; continuation (Z.shiftr code 6); continuation code]
  else if code <? 1114112 then Some [Z.lor (Z.shiftr code 18) 240; continuation (Z.shiftr code 12); continuation (Z.shiftr code 6); continuation code]
  else None.
Fixpoint number (base code : Z) (s : list Z) : Z * list Z :=
  match s with
  | [] => (code, [])
  | c :: s' => if lookup_digits c =? 255 then (code, s) else number base (u64 (code * base + lookup_digits c)) s'
  end.
(** [s] begins behind the "&". *)
Definition named (s : list Z) : option (Z * nat) :=
  if starts (str "amp;") s then Some (ch "&", 5%nat)
  else if starts (str "apos;") s then Some (ch "'", 6%nat)
  else if starts (str "quot;") s then Some (34, 6%nat)
  else if starts (str "gt;") s then Some (ch ">", 4%nat)
  else if starts (str "lt;") s then Some (ch "<", 4%nat) else None.
Definition emit (out : list Z) (r : result (list Z)) : result (list Z) := and_then r (λ more s, give (out ++ more) s).
Fixpoint expand (pred : Z → bool) (s : list Z) (n : nat) : result (list Z) :=
  match n with
  | O => None
  | S n =>
      match s with
      | [] => give [] []
      | c :: s' =>
          if pred c then
            if c =? ch "&" then
              if starts (str "#") s' then
                let '(code, r) := if starts (str "x") (drop 1 s') then number 16 0 (drop 2 s') else number 10 0 (drop 1 s') in
                match utf8 code with
                | None => fail (str "invalid numeric character entity")
                | Some out => if starts (str ";") r then emit out (expand pred (drop 1 r) n) else fail (str "expected ;")
                end
              else match named s' with
                   | Some (x, k) => emit [x] (expand pred (drop k s) n)
                   | None => emit [c] (expand pred s' n)
                   end
            else emit [c] (expand pred s' n)
          else give [] s
      end
  end.
Definition expand_refs (pred pure_pred : Z → bool) (s : list Z) : result (list Z) :=
  emit (take_while pure_pred s) (expand pred (drop_while pure_pred s) (S (length s))).

(** ** Elements *)

Fixpoint brackets (depth : nat) (s : list Z) : result unit :=
  match depth, s with
  | O, _ => give tt s
  | S d, [] => fail end_of_data
  | S d, c :: s => if c =? ch "[" then brackets (S depth) s else if c =? ch "]" then brackets d s else brackets depth s
  end.
Fixpoint doctype (s : list Z) (n : nat) : result (option xml_tree) :=
  match n with
  | O => None
  | S n => match s with
           | [] => fail end_of_data
           | c :: s => if c =? ch ">" then give None s
                       else if c =? ch "[" then and_then (brackets 1 s) (λ _ s, doctype s n) else doctype s n
           end
  end.
Fixpoint attributes (l : list (list Z * list Z)) (s : list Z) (n : nat) : result (list (list Z * list Z)) :=
  match n with
  | O => None
  | S n =>
      if attribute_name_pred (hd 0 s) then
        let name := take_while attribute_name_pred s in
        match drop_while whitespace_pred (drop_while attribute_name_pred s) with
        | c :: s =>
            if c =? ch "=" then
              match drop_while whitespace_pred s with
              | quote :: s =>
                  if one_of [39; 34] quote then
                    and_then (expand_refs (attribute_value_pred quote) (attribute_value_pure_pred quote) s) (λ value s,
                      match s with
                      | c :: s => if c =? quote then attributes (l ++ [(name, value)]) (drop_while whitespace_pred s) n else fail expected_quote
                      | [] => fail expected_quote
                      end)
                  else fail expected_quote
              | [] => fail expected_quote
              end
            else fail (str "expected =")
        | [] => fail (str "expected =")
        end
      else give l s
  end.
Definition leaf (t : node_type) (value : list Z) : xml_tree := Tree t [] value [] [].
Definition append (child x : xml_tree) : xml_tree := Tree (t_kind x) (t_name x) (t_value x) (t_attributes x) (t_nodes x ++ [child]).
Definition append_opt (child : option xml_tree) (x : xml_tree) : xml_tree := match child with Some c => append c x | None => x end.
(** The first data that does not begin with a NUL is the value of the element. *)
Definition append_data (value : list Z) (x : xml_tree) : xml_tree :=
  let x := append (leaf node_data value) x in
  if hd 0 (t_value x) =? 0 then Tree (t_kind x) (t_name x) value (t_attributes x) (t_nodes x) else x.
(** Behind a "<". *)
Definition node (element : list Z → result (option xml_tree)) (s : list Z) : result (option xml_tree) :=
  match s with
  | c :: s' =>
      if c =? ch "?" then
        if one_of (str "xX") (hd 0 s') && one_of (str "mM") (nth 1 s' 0) && one_of (str "lL") (nth 2 s' 0) && whitespace_pred (nth 3 s' 0)
        then upto (str "?>") (drop 4 s') (λ _, None)
        else upto (str "?>") s' (λ _, None)
      else if c =? ch "!" then
        if starts (str "--") s' then upto (str "-->") (drop 2 s') (λ _, None)
        else if starts (str "[CDATA[") s' then upto (str "]]>") (drop 7 s') (λ v, Some (leaf node_cdata v))
        else if starts (str "DOCTYPE") s' && whitespace_pred (nth 7 s' 0) then doctype (drop 8 s') (S (length s))
        else upto (str ">") s' (λ _, None)
      else element s
  | [] => element s
  end.
Fixpoint contents (x : xml_tree) (start s : list Z) (n : nat) : result xml_tree :=
  match n with
  | O => None
  | S n =>
      match s with
      | [] => fail end_of_data
      | c :: s' =>
          if c =? ch "<" then
            if starts (str "/") s' then
              match drop_while whitespace_pred (drop_while node_name_pred (drop 1 s')) with
              | c :: s => if c =? ch ">" then give x s else fail (str "expected >")
              | [] => fail (str "expected >")
              end
            else and_then (node (λ s, element s n) s') (λ child s, contents (append_opt child x) s (drop_while whitespace_pred s) n)
          else if c =? 0 then fail end_of_data
          else and_then (expand_refs text_pred text_pure_no_ws_pred start) (λ value s, contents (append_data value x) start s n)
      end
  end
with element (s : list Z) (n : nat) : result (option xml_tree) :=
  match n with
  | O => None
  | S n =>
      let name := take_while node_name_pred s in
      if bool_decide (name = []) then fail (str "expected element name")
      else
        and_then (attributes [] (drop_while whitespace_pred (drop_while node_name_pred s)) (S (length s))) (λ l s,
          let x := Tree node_element name [] l [] in
          match s with
          | c :: s =>
              if c =? ch ">" then and_then (contents x s (drop_while whitespace_pred s) n) (λ x s, give (Some x) s)
              else if c =? ch "/" then
                match s with c :: s => if c =? ch ">" then give (Some x) s else fail (str "expected >") | [] => fail (str "expected >") end
              else fail (str "expected >")
          | [] => fail (str "expected >")
          end)
  end.
Fixpoint document (doc : xml_tree) (s : list Z) (depth n : nat) : result xml_tree :=
  match n with
  | O => None
  | S n =>
      match drop_while whitespace_pred s with
      | [] => give doc []
      | c :: s => if c =? ch "<" then and_then (node (λ s, element s depth) s) (λ child s, document (append_opt child doc) s depth n)
                  else fail (str "expected <")
      end
  end.
Definition without_bom (s : list Z) : list Z := if starts [239; 187; 191] s then drop 3 s else s.
Definition parse_text (s : list Z) : result xml_tree :=
  document (leaf node_document []) (without_bom s) (2 * length s + 2) (S (length s)).

(** ** Strings without a NUL *)

Lemma no_nul_app a b : no_nul (a ++ b) ↔ no_nul a ∧ no_nul b.
Proof. unfold no_nul. rewrite elem_of_app. tauto. Qed.
Lemma no_nul_cons c s : no_nul (c :: s) ↔ c ≠ 0 ∧ no_nul s.
Proof. unfold no_nul. rewrite elem_of_cons. split; [intros Hn; split; [intros ->|]; tauto|intros [Hc Hs] [E|E]; [by apply Hc|done]]. Qed.
Lemma no_nul_drop n s : no_nul s → no_nul (drop n s).
Proof. intros Hs. rewrite <- (take_drop n s) in Hs. by apply no_nul_app in Hs as [_ Hs]. Qed.

(** ** Scans *)

Section Scans.
Implicit Types (s w : list Z) (k n : nat).

Lemma take_drop_while p s : take_while p s ++ drop_while p s = s.
Proof. induction s as [|c s IH]; [done|]. cbn. destruct (p c); [by cbn; rewrite IH|done]. Qed.
Lemma no_nul_drop_while p s : no_nul s → no_nul (drop_while p s).
Proof. intros Hs. rewrite <- (take_drop_while p s) in Hs. by apply no_nul_app in Hs as [_ Hs]. Qed.
Lemma no_nul_hd s : no_nul s → hd 0 s = 0 → s = [].
Proof. destruct s as [|c s]; [done|]. intros [Hc _]%no_nul_cons E. by destruct Hc. Qed.
Lemma drop_while_length pred s : (length (take_while pred s) + length (drop_while pred s) = length s)%nat.
Proof. rewrite <- length_app. by rewrite take_drop_while. Qed.
Lemma drop_while_le pred s : (length (drop_while pred s) ≤ length s)%nat.
Proof. induction s as [|c s IH]; [done|]. cbn. destruct (pred c); cbn; lia. Qed.
Lemma drop_while_stop pred s : pred 0 = false → pred (hd 0 (drop_while pred s)) = false.
Proof. intros H0. induction s as [|c s IH]; [done|]. cbn. by destruct (pred c) eqn:E. Qed.
Lemma starts_nil s : starts [] s = true. Proof. done. Qed.
Lemma starts_cons x w s : starts (x :: w) s = match s with [] => false | c :: s => (c =? x) && starts w s end.
Proof.
  unfold starts. cbn [length]. destruct s as [|c s]; [done|]. cbn [take]. destruct (Z.eqb_spec c x) as [->|Hne]; cbn [andb].
  - apply bool_decide_ext. split; [by intros [= E]|by intros ->].
  - apply bool_decide_false. intros [= E]. done.
Qed.
Lemma starts_app w s : starts w s = true → s = w ++ drop (length w) s.
Proof. unfold starts. rewrite bool_decide_eq_true. intros E. rewrite <- E at 1. by rewrite take_drop. Qed.
Lemma starts_length w s : starts w s = true → (length w ≤ length s)%nat.
Proof. intros E. apply starts_app in E. rewrite E, length_app. lia. Qed.
Lemma split_at_app w s a r : split_at w s = Some (a, r) → s = a ++ r ∧ starts w r = true.
Proof.
  revert a r. induction s as [|c s IH]; intros a r; cbn [split_at].
  - destruct (starts w []) eqn:E; [|done]. by intros [= <- <-].
  - destruct (starts w (c :: s)) eqn:E; [by intros [= <- <-]|]. destruct (split_at w s) as [[a' r']|] eqn:Es; [|done]. intros [= <- <-].
    destruct (IH _ _ eq_refl) as [-> Hr]. done.
Qed.

Lemma lookup_digits_range c : lookup_digits c ≠ 255 → 0 ≤ lookup_digits c ≤ 15.
Proof. unfold lookup_digits. change (ch "0") with 48. change (ch "9") with 57. change (ch "A") with 65. change (ch "F") with 70. change (ch "a") with 97. change (ch "f") with 102. repeat case_match; lia. Qed.
Lemma number_spec base s : 0 ≤ base ≤ 16 → ∀ code, 0 ≤ code → ∃ a r v, number base code s = (v, r) ∧ s = a ++ r ∧ 0 ≤ v < (code + 1) * 16 ^ Z.of_nat (length a).
Proof.
  intros Hb. induction s as [|c s IH]; intros code Hc; cbn [number].
  - exists [], [], code. split_and!; [done|done|lia|cbn; lia].
  - destruct (Z.eqb_spec (lookup_digits c) 255) as [E|E]; [exists [], (c :: s), code; split_and!; [done|done|lia|cbn; lia]|].
    pose proof (lookup_digits_range c E) as Hd. assert (0 ≤ u64 (code * base + lookup_digits c) ≤ code * base + lookup_digits c) as Hu.
    { unfold u64, wrap. split; [apply Z.mod_pos_bound; lia|apply Z.mod_le; nia]. }
    destruct (IH _ (proj1 Hu)) as (a & r & v & En & -> & Hv). exists (c :: a), r, v. split_and!; [done|done|lia|].
    cbn [length]. rewrite Nat2Z.inj_succ, Z.pow_succ_r by lia. nia.
Qed.
Lemma number_le base s : ∀ code, (length (number base code s).2 ≤ length s)%nat.
Proof. induction s as [|c s IH]; intros code; [done|]. cbn [number]. case_match; [done|]. cbn [length]. specialize (IH (u64 (code * base + lookup_digits c))). lia. Qed.
Lemma utf8_length code out : utf8 code = Some out → (1 ≤ length out ≤ 4)%nat ∧ (128 ≤ code ∨ length out = 1%nat).
Proof. unfold utf8. repeat case_match; intros [= <-]; cbn; lia. Qed.
Lemma named_length s x k : named s = Some (x, k) → (1 ≤ k ≤ S (length s))%nat.
Proof.
  unfold named. intros E. repeat case_match; try done; injection E as <- <-;
    match goal with He : starts ?w s = true |- _ => apply starts_length in He; let n := eval vm_compute in (length w) in change (length w) with n in He; lia end.
Qed.
Lemma text_pred_false c : text_pred c = false → c = 0 ∨ c = ch "<".
Proof.
  unfold text_pred, one_of. rewrite negb_false_iff, bool_decide_eq_true. change (str "<") with [ch "<"]. rewrite !elem_of_cons, elem_of_nil. tauto.
Qed.
Lemma append_data_name value xt : t_name (append_data value xt) = t_name xt.
Proof. unfold append_data. by case_match. Qed.
End Scans.

Definition emitted out (r : read (list Z)) : read (list Z) := match r with Read more s => Read (out ++ more) s | Failed w => Failed w end.
Lemma emit_some out q r : emit out q = Some r → ∃ r', q = Some r' ∧ r = emitted out r'.
Proof. destruct q as [[more s|w]|]; cbn; [intros [= <-]; by eexists|intros [= <-]; by eexists|done]. Qed.

(** ** The reference parser comes to an end *)

(** There is a result, and at most [k] bytes are left. *)
Definition total {A} (r : result A) (k : nat) : Prop := match r with Some (Read _ rest) => (length rest ≤ k)%nat | Some (Failed _) => True | None => False end.

Section Total.
Implicit Types (s : list Z) (k n : nat).
Lemma total_weaken {A} (r : result A) k k' : (k ≤ k')%nat → total r k → total r k'.
Proof. intros Hk. destruct r as [[a s|w]|]; cbn; [lia|done|done]. Qed.
Lemma total_bind {A C} (r : result A) (f : A → list Z → result C) k k' : total r k → (∀ a s, (length s ≤ k)%nat → total (f a s) k') → total (and_then r f) k'.
Proof. intros Hr Hf. destruct r as [[a s|w]|]; [by apply Hf|done|done]. Qed.
Lemma expand_total pred n : ∀ s, (length s < n)%nat → total (expand pred s n) (length s).
Proof.
  induction n as [|n IH]; intros s Hn; [lia|]. cbn [expand]. destruct s as [|c s]; [cbn; lia|]. cbn [length] in Hn.
  assert (∀ out s', (length s' ≤ length s)%nat → total (emit out (expand pred s' n)) (length (c :: s))) as Hnext.
  { intros out s' Hs'. apply (total_bind _ _ (length s')); [apply IH; lia|]. intros more rest Hl. cbn. lia. }
  destruct (pred c); [|cbn; lia]. destruct (c =? ch "&"); [|by apply Hnext]. destruct (starts (str "#") s).
  - assert (∀ base k, total (let '(code, r) := number base 0 (drop k s) in match utf8 code with None => fail (str "invalid numeric character entity")
      | Some out => if starts (str ";") r then emit out (expand pred (drop 1 r) n) else fail (str "expected ;") end) (length (c :: s))) as Hnum.
    { intros base k. pose proof (number_le base (drop k s) 0) as Hl. rewrite length_drop in Hl. destruct (number base 0 (drop k s)) as [code r]. cbn in Hl.
      destruct (utf8 code); [|done]. destruct (starts _ r); [|done]. apply Hnext. rewrite length_drop. lia. }
    destruct (starts (str "x") _); apply Hnum.
  - destruct (named s) as [[x k]|] eqn:En; [|by apply Hnext]. apply named_length in En. apply Hnext. rewrite length_drop. cbn [length]. lia.
Qed.
Lemma expand_stop pred n : pred 0 = false → ∀ s out rest, expand pred s n = Some (Read out rest) → pred (hd 0 rest) = false.
Proof.
  intros H0. assert (∀ out q o rest, emit out q = Some (Read o rest) → ∃ o', q = Some (Read o' rest)) as He.
  { intros out [[o' r|w]|] o rest; cbn; [intros [= _ <-]; by eexists|done|done]. }
  induction n as [|n IH]; intros s out rest; [done|]. cbn [expand]. destruct s as [|c s]; [by intros [= _ <-]|].
  destruct (pred c) eqn:Ep; [|by intros [= _ <-]]. repeat case_match; try done; intros Hr; apply He in Hr as [o' Hr]; by eapply IH.
Qed.
Lemma expand_refs_total pred pure s : total (expand_refs pred pure s) (length s).
Proof.
  unfold expand_refs. pose proof (drop_while_le pure s). apply (total_bind _ _ (length (drop_while pure s))); [apply expand_total; lia|].
  intros more rest Hl. cbn. lia.
Qed.
Lemma upto_total {A} w s (f : list Z → A) : total (upto w s f) (length s).
Proof.
  unfold upto. destruct (split_at w s) as [[a r]|] eqn:E; [|done]. apply split_at_app in E as [-> _]. cbn. rewrite length_drop, length_app. lia.
Qed.
Lemma brackets_total s : ∀ depth, total (brackets depth s) (length s).
Proof.
  induction s as [|c s IH]; intros [|d]; [cbn; lia|done|cbn; lia|]. cbn [brackets length].
  repeat case_match; (eapply total_weaken; [|apply IH]); lia.
Qed.
Lemma doctype_total n : ∀ s, (length s < n)%nat → total (doctype s n) (length s).
Proof.
  induction n as [|n IH]; intros s Hn; [lia|]. cbn [doctype]. destruct s as [|c s]; [done|]. cbn [length] in Hn |- *.
  destruct (c =? ch ">"); [cbn; lia|]. destruct (c =? ch "["); [|eapply total_weaken; [|apply IH]; lia].
  apply (total_bind _ _ (length s)); [apply brackets_total|]. intros u rest Hl. eapply total_weaken; [|apply IH]; lia.
Qed.
Lemma attributes_total n : ∀ l s, (length s < n)%nat → total (attributes l s n) (length s).
Proof.
  induction n as [|n IH]; intros l s Hn; [lia|]. cbn [attributes]. destruct s as [|c s]; [change (attribute_name_pred (hd 0 [])) with false; cbn; lia|]. cbn [hd drop_while length] in Hn |- *.
  destruct (attribute_name_pred c); [|cbn; lia]. pose proof (drop_while_le whitespace_pred (drop_while attribute_name_pred s)) as L1.
  pose proof (drop_while_le attribute_name_pred s) as L2. destruct (drop_while whitespace_pred _) as [|c1 s1]; [done|]. destruct (c1 =? ch "="); [|done].
  pose proof (drop_while_le whitespace_pred s1) as L3. destruct (drop_while whitespace_pred s1) as [|c2 s2]; [done|]. destruct (one_of _ c2); [|done].
  cbn [length] in L1, L3. apply (total_bind _ _ (length s2)); [apply expand_refs_total|]. intros value [|c3 s3] L4; [done|]. cbn [length] in L4.
  destruct (c3 =? c2); [|done]. pose proof (drop_while_le whitespace_pred s3). eapply total_weaken; [|apply IH]; lia.
Qed.
Lemma node_total elem s : total (elem s) (length s) → total (node elem s) (length s).
Proof.
  intros He. destruct s as [|c s]; [done|]. cbn [node]. assert (∀ A w k (f : list Z → A), total (upto w (drop k s) f) (length (c :: s))) as Hu.
  { intros A w k f. eapply total_weaken; [|apply upto_total]. rewrite length_drop. cbn. lia. }
  destruct (c =? ch "?"); [case_match; [apply Hu|apply (Hu _ _ 0%nat)]|]. destruct (c =? ch "!"); [|done].
  repeat case_match; try apply Hu; [|apply (Hu _ _ 0%nat)]. eapply total_weaken; [|apply doctype_total]; rewrite length_drop; cbn; lia.
Qed.
(** The fuel counts two turns for a byte; behind data one turn less is needed. *)
Lemma element_total n : (∀ s, (2 * length s < n)%nat → total (element s n) (length s)) ∧
  (∀ x start s, (length s ≤ length start)%nat → (2 * length s + 1 < n)%nat → (hd 0 s = ch "<" ∨ hd 0 s = 0 ∨ (2 * length start + 2 < n)%nat) → total (contents x start s n) (length start)).
Proof.
  induction n as [|n [IHe IHc]]; [split; intros; lia|]. split.
  - intros s Hn. cbn [element]. case_bool_decide as Hne; [done|]. pose proof (drop_while_length node_name_pred s) as L1.
    assert (1 ≤ length (take_while node_name_pred s))%nat as L0 by (destruct (take_while node_name_pred s); [done|cbn; lia]).
    pose proof (drop_while_le whitespace_pred (drop_while node_name_pred s)) as L2.
    eapply (total_bind _ _ (length s - 1)); [eapply total_weaken; [|apply attributes_total]; lia|]. intros l [|c s1] L3; [done|]. cbn [length] in L3.
    destruct (c =? ch ">").
    + pose proof (drop_while_le whitespace_pred s1). apply (total_bind _ _ (length s1)); [apply IHc; lia|]. intros x rest L4. cbn. lia.
    + destruct (c =? ch "/"); [|done]. destruct s1 as [|c' s1]; [done|]. destruct (c' =? ch ">"); [|done]. cbn in L3 |- *. lia.
  - intros x start s Hs Hn Hat. cbn [contents]. destruct s as [|c s]; [done|]. cbn [length hd] in Hs, Hn, Hat. destruct (Z.eqb_spec c (ch "<")) as [_|Hlt].
    + destruct (starts (str "/") s).
      * pose proof (drop_while_le whitespace_pred (drop_while node_name_pred (drop 1 s))) as L1. pose proof (drop_while_le node_name_pred (drop 1 s)) as L2.
        rewrite length_drop in L2. destruct (drop_while whitespace_pred _) as [|c1 s1]; [done|]. destruct (c1 =? ch ">"); [|done]. cbn in L1 |- *. lia.
      * apply (total_bind _ _ (length s)); [apply node_total, IHe; lia|]. intros child rest L1. pose proof (drop_while_le whitespace_pred rest).
        eapply total_weaken; [|apply IHc]; lia.
    + destruct (Z.eqb_spec c 0) as [_|H0]; [done|]. destruct Hat as [?|[?|Hat]]; [done|done|].
      pose proof (expand_refs_total text_pred text_pure_no_ws_pred start) as Ht. destruct (expand_refs _ _ start) as [[value rest|w]|] eqn:Ee; [|done|done].
      cbn [and_then]. cbn in Ht. eapply total_weaken; [|apply IHc]; [lia|lia|lia|]. apply emit_some in Ee as ([more rest'|w] & Ee & [= -> ->]).
      apply expand_stop in Ee; [|done]. apply text_pred_false in Ee. tauto.
Qed.
Lemma document_total n : ∀ x s depth, (length s < n)%nat → (2 * length s < depth)%nat → total (document x s depth n) (length s).
Proof.
  induction n as [|n IH]; intros x s depth Hn Hd; [lia|]. cbn [document]. pose proof (drop_while_le whitespace_pred s) as L1.
  destruct (drop_while whitespace_pred s) as [|c s']; [cbn; lia|]. cbn [length] in L1. destruct (c =? ch "<"); [|done].
  apply (total_bind _ _ (length s')); [apply node_total, element_total; lia|]. intros child rest L2. eapply total_weaken; [|apply IH]; lia.
Qed.
Lemma parse_text_total s : total (parse_text s) (length s).
Proof.
  unfold parse_text. assert (length (without_bom s) ≤ length s)%nat by (unfold without_bom; case_match; [rewrite length_drop|]; lia).
  eapply total_weaken; [|apply document_total]; lia.
Qed.
End Total.
