(* ===== verification/XmlPlace.v ===== *)
(** * XmlPlace: the XML parser in place

    The proof that the parser of RapidXml.v agrees with the reference of XmlText.v on every
    text: it stays inside the text, comes to an end, throws what the reference throws, and its
    pointers lead to the strings of the reference's tree, each with a NUL behind it. *)

From S2P Require Import Prelude CLib RapidXml XmlText.


(** ** Reading the text in place *)

Lemma run_then {A C} (p : parser A) (f : A → parser C) m a m' : p m = Ret (Parsed a m') → (x ← p; f x) m = f a m'.
Proof. intros E. unfold mbind, parser_bind. by rewrite E. Qed.
Lemma run_threw {A C} (p : parser A) (f : A → parser C) m w : p m = Ret (Threw w) → (x ← p; f x) m = Ret (Threw w).
Proof. intros E. unfold mbind, parser_bind. by rewrite E. Qed.
(** The string [s] with a NUL behind it at [p]. *)
Definition holds (m : list Z) (p : nat) (s : list Z) : Prop := ∀ k c, (s ++ [0]) !! k = Some c → m !! (p + k)%nat = Some c.
(** The memory is the same from [lo] on, or in front of [hi]. *)
Definition same_from (lo : nat) (m m' : list Z) : Prop := length m' = length m ∧ ∀ j, (lo ≤ j)%nat → m' !! j = m !! j.
Definition same_below (hi : nat) (m m' : list Z) : Prop := length m' = length m ∧ ∀ j, (j < hi)%nat → m' !! j = m !! j.
Section Holds.
Implicit Types (m s : list Z) (p : nat).
Lemma holds_first m p s : holds m p s → m !! p = Some (hd 0 s).
Proof. intros Hh. specialize (Hh 0%nat (hd 0 s)). rewrite Nat.add_0_r in Hh. apply Hh. by destruct s. Qed.
Lemma holds_tail m p c s : holds m p (c :: s) → holds m (S p) s.
Proof. intros Hh k x Hk. specialize (Hh (S k) x Hk). by rewrite Nat.add_succ_r in Hh. Qed.
Lemma holds_app m p a s : holds m p (a ++ s) → holds m (p + length a) s.
Proof.
  revert p. induction a as [|c a IH]; intros p Hh; cbn [length]; [by rewrite Nat.add_0_r|]. rewrite Nat.add_succ_r. apply (IH (S p)). by eapply holds_tail.
Qed.
Lemma holds_drop m p n s : (n ≤ length s)%nat → holds m p s → holds m (p + n) (drop n s).
Proof. intros Hn Hh. rewrite <- (take_drop n s) in Hh. apply holds_app in Hh. by rewrite length_take_le in Hh. Qed.
Lemma holds_inside m p s : holds m p s → (p + length s < length m)%nat.
Proof. intros Hh. eapply lookup_lt_Some, (Hh (length s) 0). rewrite lookup_app_r by lia. by rewrite Nat.sub_diag. Qed.
Lemma holds_nth m p s k : holds m p s → (k ≤ length s)%nat → m !! (p + k)%nat = Some (nth k s 0).
Proof.
  intros Hh Hk. apply Hh. destruct (decide (k < length s)%nat) as [Hl|Hl].
  - rewrite lookup_app_l, nth_lookup by done. by destruct (lookup_lt_is_Some_2 s k Hl) as [c ->].
  - rewrite lookup_app_r by lia. rewrite (nth_overflow s) by lia. by replace (k - length s)%nat with 0%nat by lia.
Qed.
Lemma holds_same m m' p s : holds m p s → (∀ j, (p ≤ j ≤ p + length s)%nat → m' !! j = m !! j) → holds m' p s.
Proof.
  intros Hh Hs k c Hk. rewrite Hs; [by apply Hh|]. apply lookup_lt_Some in Hk. rewrite length_app in Hk. cbn in Hk. lia.
Qed.
Lemma holds_from m m' lo p s : same_from lo m m' → (lo ≤ p)%nat → holds m p s → holds m' p s.
Proof. intros [_ Hs] Hp Hh. apply (holds_same m); [done|]. intros j Hj. apply Hs. lia. Qed.
Lemma holds_below m m' hi p s : same_below hi m m' → (p + length s < hi)%nat → holds m p s → holds m' p s.
Proof. intros [_ Hs] Hp Hh. apply (holds_same m); [done|]. intros j Hj. apply Hs. lia. Qed.
Lemma same_from_refl lo m : same_from lo m m. Proof. by split. Qed.
Lemma same_below_refl hi m : same_below hi m m. Proof. by split. Qed.
Lemma same_from_trans lo lo' m m1 m2 : (lo ≤ lo')%nat → same_from lo m m1 → same_from lo' m1 m2 → same_from lo' m m2.
Proof. intros Hl [L1 S1] [L2 S2]. split; [congruence|]. intros j Hj. rewrite S2, S1 by lia. done. Qed.
Lemma same_below_trans hi hi' m m1 m2 : (hi ≤ hi')%nat → same_below hi m m1 → same_below hi' m1 m2 → same_below hi m m2.
Proof. intros Hl [L1 S1] [L2 S2]. split; [congruence|]. intros j Hj. rewrite S2, S1 by lia. done. Qed.
Lemma put_run i c m : (i < length m)%nat → put i c m = Ret (Parsed tt (<[i := c]> m)).
Proof. intros Hi. unfold put. by destruct (lookup_lt_is_Some_2 m i Hi) as [x ->]. Qed.
Lemma put_same_from i c m : same_from (S i) m (<[i := c]> m).
Proof. split; [by rewrite length_insert|]. intros j Hj. by rewrite list_lookup_insert_ne by lia. Qed.
Lemma put_same_below i c m : same_below i m (<[i := c]> m).
Proof. split; [by rewrite length_insert|]. intros j Hj. by rewrite list_lookup_insert_ne by lia. Qed.
Lemma get_run m p s : holds m p s → get p m = Ret (Parsed (hd 0 s) m).
Proof. intros Hh. unfold get. by rewrite (holds_first _ _ _ Hh). Qed.
Lemma get_nth m p s k : holds m p s → (k ≤ length s)%nat → get (p + k) m = Ret (Parsed (nth k s 0) m).
Proof. intros Hh Hk. unfold get. by rewrite (holds_nth _ _ _ _ Hh). Qed.
End Holds.

(** ** The scanners *)

Section Scan.
Implicit Types (m s : list Z) (p : nat).
Lemma skip_loop_run pred s : pred 0 = false → ∀ m p n, holds m p s → (length s < n)%nat →
  skip_loop pred p n m = Ret (Parsed (p + length (take_while pred s))%nat m).
Proof.
  intros H0. induction s as [|c s IH]; intros m p [|n] Hh Hn; cbn [length] in Hn; try lia; cbn [skip_loop];
    rewrite (run_then _ _ _ _ _ (get_run _ _ _ Hh)); cbn [hd take_while].
  - rewrite H0. cbn. by rewrite Nat.add_0_r.
  - destruct (pred c); [|cbn; by rewrite Nat.add_0_r]. rewrite IH by (by eapply holds_tail || lia). cbn [length]. do 2 f_equal. lia.
Qed.
Lemma skip_run pred m p s : pred 0 = false → holds m p s → skip pred p m = Ret (Parsed (p + length (take_while pred s))%nat m).
Proof. intros H0 Hh. unfold skip, each_byte. apply skip_loop_run; [done..|]. pose proof (holds_inside _ _ _ Hh). lia. Qed.
Lemma holds_drop_while pred m p s : holds m p s → holds m (p + length (take_while pred s)) (drop_while pred s).
Proof. intros Hh. rewrite <- (take_drop_while pred s) in Hh. by apply holds_app in Hh. Qed.
Lemma matches_run w : no_nul w → ∀ m p s, holds m p s → matches p w m = Ret (Parsed (starts w s) m).
Proof.
  induction w as [|x w IH]; intros Hw m p s Hh; [done|]. apply no_nul_cons in Hw as [Hx Hw]. cbn [matches].
  rewrite (run_then _ _ _ _ _ (get_run _ _ _ Hh)), starts_cons. destruct s as [|c s]; cbn [hd].
  - by rewrite (proj2 (Z.eqb_neq 0 x)) by done.
  - destruct (c =? x); [|done]. cbn [andb]. apply IH; [done|by eapply holds_tail].
Qed.
Lemma find_loop_run w : w ≠ [] → no_nul w → ∀ s m p n, no_nul s → holds m p s → (length s < n)%nat →
  find_loop w p n m = match split_at w s with Some (a, r) => Ret (Parsed (p + length a)%nat m) | None => Ret (Threw end_of_data) end.
Proof.
  intros Hne Hw. induction s as [|c s IH]; intros m p [|n] Hs Hh Hn; cbn [length] in Hn; try lia; cbn [find_loop split_at];
    rewrite (run_then _ _ _ _ _ (matches_run w Hw _ _ _ Hh)).
  - destruct w as [|x w]; [done|]. rewrite starts_cons. by rewrite (run_then _ _ _ _ _ (get_run _ _ _ Hh)).
  - destruct (starts w (c :: s)); [cbn; by rewrite Nat.add_0_r|]. apply no_nul_cons in Hs as [Hc Hs].
    rewrite (run_then _ _ _ _ _ (get_run _ _ _ Hh)). cbn [hd]. rewrite (proj2 (Z.eqb_neq c 0)) by done.
    rewrite IH by (done || lia || by eapply holds_tail). destruct (split_at w s) as [[a r]|]; [|done]. cbn. do 2 f_equal. lia.
Qed.
Lemma find_run w m p s : w ≠ [] → no_nul w → no_nul s → holds m p s →
  find w p m = match split_at w s with Some (a, r) => Ret (Parsed (p + length a)%nat m) | None => Ret (Threw end_of_data) end.
Proof. intros Hne Hw Hs Hh. unfold find, each_byte. apply find_loop_run; [done..|]. pose proof (holds_inside _ _ _ Hh). lia. Qed.
End Scan.

(** ** Character references in place *)

(** Bytes that were written. *)
Definition bytes_at (m : list Z) (p : nat) (s : list Z) : Prop := ∀ k c, s !! k = Some c → m !! (p + k)%nat = Some c.
Lemma bytes_at_join m p a b : bytes_at m p a → bytes_at m (p + length a) b → bytes_at m p (a ++ b).
Proof.
  intros Ha Hb k c [Hk|[Hl Hk]]%lookup_app_Some; [by apply Ha|]. replace (p + k)%nat with (p + length a + (k - length a))%nat by lia. by apply Hb.
Qed.
Lemma bytes_at_same m m' p s : (∀ j, (p ≤ j < p + length s)%nat → m' !! j = m !! j) → bytes_at m p s → bytes_at m' p s.
Proof. intros Hs Hb k c Hk. rewrite Hs; [by apply Hb|]. apply lookup_lt_Some in Hk. lia. Qed.
Lemma bytes_at_put m p c : (p < length m)%nat → bytes_at (<[p := c]> m) p [c].
Proof. intros Hp [|k] x Hk; [|done]. injection Hk as <-. rewrite Nat.add_0_r. by rewrite list_lookup_insert_eq. Qed.
Lemma holds_bytes m p s : holds m p s ↔ bytes_at m p (s ++ [0]).
Proof. done. Qed.
Lemma code_loop_run base s : ∀ code m p n, holds m p s → (length s < n)%nat →
  code_loop base code p n m = let '(v, r) := number base code s in Ret (Parsed (v, (p + (length s - length r))%nat) m).
Proof.
  induction s as [|c s IH]; intros code m p [|n] Hh Hn; cbn [length] in Hn; try lia; cbn [code_loop number]; rewrite (run_then _ _ _ _ _ (get_run _ _ _ Hh)); cbn [hd].
  - change (lookup_digits 0 =? 255) with true. cbn. by rewrite Nat.add_0_r.
  - destruct (lookup_digits c =? 255); [cbn [mret parser_ret]; unfold mret, parser_ret; by rewrite Nat.sub_diag, Nat.add_0_r|].
    rewrite IH by (by eapply holds_tail || lia). destruct (number base _ s) as [v r] eqn:En. do 3 f_equal. cbn [length].
    assert (length r ≤ length s)%nat; [|lia]. clear -En. revert En. generalize (u64 (code * base + lookup_digits c)). revert v r.
    induction s as [|x s IH]; intros v r code0; cbn [number]; [by intros [= <- <-]|]. case_match; [by intros [= <- <-]|]. intros En%IH. cbn. lia.
Qed.
Lemma lead_byte b : byte_ok b → u8 (Z.lor b 192) = Z.lor b 192 ∧ u8 (Z.lor b 224) = Z.lor b 224 ∧ u8 (Z.lor b 240) = Z.lor b 240.
Proof. intros Hb. split_and!; byte_brute b. Qed.
(** Looks up what a few writes left. *)
Ltac look_up :=
  repeat first [rewrite list_lookup_insert_ne by lia | rewrite list_lookup_insert_eq by (rewrite ?length_insert; lia)].
Ltac put_bytes :=
  repeat match goal with |- context [mbind ?f (put ?i ?c) ?m] =>
    rewrite (run_then (put i c) f m tt _ (put_run i c m ltac:(rewrite ?length_insert; lia))) end.
(** A coded character is written where there is room, and nothing else is. *)
Lemma insert_run code p m : 0 ≤ code → match utf8 code with
  | None => insert_coded_character p code m = Ret (Threw (str "invalid numeric character entity"))
  | Some out => (p + length out ≤ length m)%nat → ∃ m', insert_coded_character p code m = Ret (Parsed (p + length out)%nat m') ∧
      bytes_at m' p out ∧ same_below p m m' ∧ same_from (p + length out) m m'
  end.
Proof.
  intros Hc. unfold utf8, insert_coded_character. rewrite !Z.shiftr_shiftr by lia. cbn [Z.add Pos.add Pos.succ].
  assert (∀ k, 0 ≤ k → code < 2 ^ (k + 8) → byte_ok (Z.shiftr code k)) as Hbyte.
  { intros k Hk Hlt. rewrite Z.shiftr_div_pow2 by done. rewrite Z.add_comm, Z.pow_add_r in Hlt by lia. split; [apply Z.div_pos; lia|].
    apply Z.div_lt_upper_bound; lia. }
  destruct (Z.ltb_spec code 128); [|destruct (Z.ltb_spec code 2048); [|destruct (Z.ltb_spec code 65536); [|destruct (Z.ltb_spec code 1114112); [|done]]]];
    cbn [length]; intros Hlen; put_bytes. all: eexists; (split; [done|]);
    (split; [intros [|[|[|[|k]]]] x; cbn [lookup list_lookup]; intros [= <-]; rewrite ?Nat.add_0_r; look_up; f_equal|
     split; (split; [by rewrite !length_insert|intros j Hj; by look_up])]).
  - unfold u8. apply wrap_id. unfold fits. lia.
  - apply lead_byte, Hbyte; lia.
  - apply lead_byte, Hbyte; lia.
  - apply lead_byte, Hbyte; lia.
Qed.

(** ** Expansion in place *)

Section Expand.
Context (pred : Z → bool) (Hpred : pred 0 = false).
Implicit Types (m s out : list Z) (src dest : nat).
(** What the loop that reads [s] at [src] and writes at [dest] returns. *)
Definition expanded src dest s (r : read (list Z)) m (res : outcome (parsed (nat * nat))) : Prop :=
  match r with
  | Failed w => res = Ret (Threw w)
  | Read out rest => ∃ pre m', s = pre ++ rest ∧ res = Ret (Parsed (src + length pre, dest + length out)%nat m') ∧
      (dest + length out ≤ src + length pre)%nat ∧ bytes_at m' dest out ∧ same_below dest m m' ∧ same_from (src + length pre) m m' ∧
      pred (hd 0 rest) = false
  end.
Lemma expanded_emit out pre s r src dest m m1 res : (dest + length out ≤ src + length pre)%nat → bytes_at m1 dest out → same_below dest m m1 →
  same_from (src + length pre) m m1 → expanded (src + length pre) (dest + length out) s r m1 res → expanded src dest (pre ++ s) (emitted out r) m res.
Proof using Type.
  intros Hle Hb Hbelow Hfrom. destruct r as [more rest|w]; [|done]. intros (pre2 & m' & -> & -> & Hle2 & Hb2 & Hbelow2 & Hfrom2 & Hp).
  exists (pre ++ pre2), m'. rewrite !length_app, !Nat.add_assoc. split_and!; [by rewrite app_assoc|done|done| | | |done].
  - apply bytes_at_join; [|done]. eapply bytes_at_same; [|exact Hb]. intros j Hj. apply Hbelow2. lia.
  - eapply same_below_trans; [|exact Hbelow|exact Hbelow2]. lia.
  - eapply same_from_trans; [|exact Hfrom|exact Hfrom2]. lia.
Qed.
(** A character that is written and a number of bytes that are passed. *)
Lemma expanded_put c pre s r src dest m res : (S dest ≤ src + length pre)%nat → (dest < length m)%nat →
  expanded (src + length pre) (S dest) s r (<[dest := c]> m) res → expanded src dest (pre ++ s) (emitted [c] r) m res.
Proof using Type.
  intros Hle Hlen He. apply (expanded_emit _ _ _ _ _ _ _ (<[dest := c]> m)); cbn [length]; [lia|by apply bytes_at_put|apply put_same_below| |by rewrite Nat.add_1_r].
  split; [by rewrite length_insert|]. intros j Hj. by rewrite list_lookup_insert_ne by lia.
Qed.
Lemma named_run m src s : holds m (S src) s → named_entity src (hd 0 s) m = Ret (Parsed (named s) m).
Proof using Type.
  intros Hh. destruct s as [|c s]; [reflexivity|]. apply holds_tail in Hh. replace (S (S src)) with (src + 2)%nat in Hh by lia.
  assert (∀ w, bool_decide (0 ∉ w) = true → matches (src + 2) w m = Ret (Parsed (starts w s) m)) as Hm.
  { intros w Hw. apply bool_decide_eq_true in Hw. by apply matches_run. }
  unfold named_entity, named. change (str "amp;") with (ch "a" :: str "mp;"). change (str "apos;") with (ch "a" :: str "pos;").
  change (str "quot;") with (ch "q" :: str "uot;"). change (str "gt;") with (ch "g" :: str "t;"). change (str "lt;") with (ch "l" :: str "t;").
  rewrite !starts_cons. cbn [hd].
  destruct (Z.eqb_spec c (ch "a")) as [->|]; [|destruct (Z.eqb_spec c (ch "q")) as [->|]; [|destruct (Z.eqb_spec c (ch "g")) as [->|]; [|destruct (Z.eqb_spec c (ch "l")) as [->|]; [|done]]]];
    match goal with |- context [matches _ ?w] => rewrite (run_then _ _ _ _ _ (Hm w eq_refl)) end.
  - destruct (starts (str "mp;") s); [done|]. rewrite (run_then _ _ _ _ _ (Hm (str "pos;") eq_refl)). by destruct (starts (str "pos;") s).
  - by destruct (starts (str "uot;") s).
  - by destruct (starts (str "t;") s).
  - by destruct (starts (str "t;") s).
Qed.
(** A numeric reference: [pre] is "&#" or "&#x", [body] what follows it. *)
Lemma number_run n : (∀ s r m src dest k, expand pred s n = Some r → no_nul s → holds m src s → (dest ≤ src)%nat → (n ≤ k)%nat →
    expanded src dest s r m (expand_loop pred src dest k m)) →
  ∀ pre base body r m src dest k, 0 ≤ base ≤ 16 →
  (let '(code, rest) := number base 0 body in
   match utf8 code with
   | None => fail (str "invalid numeric character entity")
   | Some out => if starts (str ";") rest then emit out (expand pred (drop 1 rest) n) else fail (str "expected ;")
   end) = Some r → no_nul body → holds m (src + length pre) body → (2 ≤ length pre)%nat → (dest ≤ src)%nat → (n ≤ k)%nat → (src + length pre + length body < length m)%nat →
  expanded src dest (pre ++ body) r m
    (('(code, src) ← each_byte (code_loop base 0 (src + length pre)); dest ← insert_coded_character dest code; c ← get src;
      if c =? ch ";" then expand_loop pred (S src) dest k else throw (str "expected ;")) m).
Proof using Hpred.
  intros IH pre base body r m src dest k Hbase Hr Hs Hh Hpre Hd Hk Hlen.
  destruct (number_spec base body Hbase 0 ltac:(lia)) as (a & rest & v & En & -> & Hv). rewrite En in Hr.
  assert (each_byte (code_loop base 0 (src + length pre)) m = Ret (Parsed (v, (src + length pre + length a)%nat) m)) as Ec.
  { unfold each_byte. rewrite (code_loop_run base (a ++ rest)) by (done || lia). rewrite En, length_app. do 3 f_equal. lia. }
  rewrite (run_then _ _ _ _ _ Ec). apply holds_app in Hh. apply no_nul_app in Hs as [_ Hs]. rewrite length_app in Hlen.
  pose proof (insert_run v dest m (proj1 Hv)) as Hi. destruct (utf8 v) as [out|] eqn:Eu; [|injection Hr as <-; by rewrite (run_threw _ _ _ _ Hi)].
  assert (length out ≤ 2 + length a)%nat as Ho.
  { destruct (utf8_length _ _ Eu) as [Hl [Hb|Hb]]; [|lia]. destruct a as [|x [|y a]]; cbn in Hv |- *; lia. }
  destruct Hi as (m1 & E1 & Hb1 & Hbelow & Hfrom); [lia|]. rewrite (run_then _ _ _ _ _ E1).
  assert (holds m1 (src + length pre + length a) rest) as Hh1 by (eapply holds_from; [exact Hfrom|lia|done]).
  rewrite (run_then _ _ _ _ _ (get_run _ _ _ Hh1)). change (str ";") with [ch ";"] in Hr. rewrite starts_cons in Hr.
  destruct rest as [|c rest]; cbn [hd]; [by injection Hr as <-|]. destruct (c =? ch ";") eqn:Esemi; [|by injection Hr as <-]. cbn [andb starts] in Hr.
  change (drop 1 (c :: rest)) with rest in Hr. rewrite starts_nil in Hr. apply emit_some in Hr as (r' & Hr' & ->).
  replace (pre ++ a ++ c :: rest) with ((pre ++ a ++ [c]) ++ rest) by by list_norm.
  assert (src + length (pre ++ a ++ [c]) = S (src + length pre + length a))%nat as El by (rewrite !length_app; cbn; lia).
  eapply (expanded_emit _ _ _ _ _ _ _ m1); [lia|done|done| |].
  - destruct Hfrom as [L Hf]. split; [done|]. intros j Hj. apply Hf. lia.
  - rewrite El. apply IH; [done|by apply no_nul_cons in Hs as [_ Hs]|by eapply holds_tail|lia|lia].
Qed.
Lemma expand_run n : ∀ s r m src dest k, expand pred s n = Some r → no_nul s → holds m src s → (dest ≤ src)%nat → (n ≤ k)%nat →
  expanded src dest s r m (expand_loop pred src dest k m).
Proof using Hpred.
  induction n as [|n IH]; intros s r m src dest k; [done|]. cbn [expand]. intros Hr Hs Hh Hd Hk. destruct k as [|k]; [lia|]. cbn [expand_loop].
  rewrite (run_then _ _ _ _ _ (get_run _ _ _ Hh)). pose proof (holds_inside _ _ _ Hh) as Hlen.
  assert (∀ rest, expanded src dest rest (Read [] rest) m (Ret (Parsed (src, dest) m)) ∨ pred (hd 0 rest) = true) as Hnone.
  { intros rest. destruct (pred (hd 0 rest)) eqn:E; [by right|left]. exists [], m. cbn. rewrite !Nat.add_0_r. split_and!; [done..|intros j c|apply same_below_refl|apply same_from_refl|done]. by rewrite lookup_nil. }
  destruct s as [|c s]; cbn [hd].
  { injection Hr as <-. rewrite Hpred. destruct (Hnone []) as [?|E]; [done|]. cbn in E. congruence. }
  destruct (pred c) eqn:Ep; [|injection Hr as <-; destruct (Hnone (c :: s)) as [?|E]; [done|cbn in E; congruence]].
  apply no_nul_cons in Hs as [Hc Hs]. pose proof (holds_tail _ _ _ _ Hh) as Ht. cbn [length] in Hlen.
  (* one character is copied *)
  assert (emit [c] (expand pred s n) = Some r → expanded src dest (c :: s) r m ((_ ← put dest c; expand_loop pred (S src) (S dest) k) m)) as Hcopy.
  { intros (r' & Hr' & ->)%emit_some. rewrite (run_then _ _ _ _ _ (put_run dest c m ltac:(lia))).
    apply (expanded_put c [c] s); cbn [length]; [lia|lia|]. rewrite Nat.add_1_r. apply IH; [done|done| |lia|lia].
    eapply holds_from; [apply put_same_from|lia|done]. }
  destruct (Z.eqb_spec c (ch "&")) as [->|Hne]; [|by apply Hcopy].
  assert (get (src + 1) m = Ret (Parsed (hd 0 s) m)) as Hg1 by (rewrite Nat.add_1_r; by apply get_run).
  rewrite (run_then _ _ _ _ _ Hg1). change (str "#") with [ch "#"] in Hr. rewrite starts_cons in Hr.
  assert (match s with [] => false | c0 :: s0 => (c0 =? ch "#") && starts [] s0 end = (hd 0 s =? ch "#")) as Eh by (destruct s; [done|apply andb_true_r]).
  rewrite Eh in Hr. clear Eh. destruct (Z.eqb_spec (hd 0 s) (ch "#")) as [E1|_].
  - destruct s as [|c1 s]; [done|]. cbn [hd] in E1. subst c1. change (drop 1 (ch "#" :: s)) with s in Hr. change (drop 2 (ch "#" :: s)) with (drop 1 s) in Hr.
    assert (get (src + 2) m = Ret (Parsed (hd 0 s) m)) as Hg2 by (apply get_run; replace (src + 2)%nat with (S (S src)) by lia; by eapply holds_tail).
    rewrite (run_then _ _ _ _ _ Hg2). apply no_nul_cons in Hs as [_ Hs].
    assert (match s with [] => false | c0 :: s0 => (c0 =? ch "x") && starts [] s0 end = (hd 0 s =? ch "x")) as Eh by (destruct s; [done|apply andb_true_r]).
    change (str "x") with [ch "x"] in Hr. rewrite starts_cons, Eh in Hr. clear Eh. cbn [length] in Hlen.
    destruct (Z.eqb_spec (hd 0 s) (ch "x")) as [E2|_].
    + destruct s as [|c2 s]; [done|]. cbn [hd] in E2. subst c2. change (drop 1 (ch "x" :: s)) with s in Hr. cbn [length] in Hlen.
      apply (number_run n IH [ch "&"; ch "#"; ch "x"] 16 s); [lia|done|by apply no_nul_cons in Hs as [_ Hs]| |cbn; lia|lia|lia|cbn; lia].
      cbn [length]. replace (src + 3)%nat with (S (S (S src))) by lia. by do 2 eapply holds_tail.
    + change (drop 1 (ch "#" :: s)) with s in Hr. apply (number_run n IH [ch "&"; ch "#"] 10 s); [lia|done|done| |cbn; lia|lia|lia|cbn; lia].
      cbn [length]. replace (src + 2)%nat with (S (S src)) by lia. by eapply holds_tail.
  - rewrite (run_then _ _ _ _ _ (named_run _ _ _ Ht)). destruct (named s) as [[x k0]|] eqn:En; [|by apply Hcopy].
    apply named_length in En. apply emit_some in Hr as (r' & Hr' & ->). rewrite (run_then _ _ _ _ _ (put_run dest x m ltac:(lia))).
    rewrite <- (take_drop k0 (ch "&" :: s)) at 1. assert (length (take k0 (ch "&" :: s)) = k0) as El by (apply length_take_le; cbn; lia).
    apply expanded_put; rewrite ?El; [lia|lia|]. apply IH; [done| | |lia|lia].
    + apply no_nul_drop, no_nul_cons. by split.
    + eapply holds_from; [apply put_same_from|lia|]. apply holds_drop; [cbn; lia|done].
Qed.
End Expand.
Lemma expand_refs_run pred pure m p s r : pred 0 = false → pure 0 = false → expand_refs pred pure s = Some r → no_nul s → holds m p s →
  expanded pred p p s r m (skip_and_expand_character_refs pred pure p m).
Proof.
  intros Hpred Hpure (r' & Hr & ->)%emit_some Hs Hh. unfold skip_and_expand_character_refs.
  rewrite (run_then _ _ _ _ _ (skip_run _ _ _ _ Hpure Hh)). pose proof (holds_inside _ _ _ Hh). unfold each_byte.
  rewrite <- (take_drop_while pure s) at 1.
  apply (expanded_emit _ _ _ _ _ _ _ _ m); [lia| |apply same_below_refl|apply same_from_refl|].
  - intros k c Hk. apply Hh. rewrite lookup_app_l by (apply lookup_lt_Some in Hk; pose proof (f_equal length (take_drop_while pure s)) as E; rewrite length_app in E; lia).
    rewrite <- (take_drop_while pure s). apply lookup_app_l_Some. done.
  - eapply expand_run; [done|exact Hr|by apply no_nul_drop_while|by apply holds_drop_while|lia|lia].
Qed.

(** ** Trees in place *)

(** A pointer and a size stand for the string [s]; [P] says what the pointer leads to. *)
Definition span_ok (P : nat → list Z → Prop) (sp : span) (s : list Z) : Prop :=
  match sp with Some (p, size) => size = length s ∧ P p s | None => s = [] end.
Definition attribute_ok P (a : xml_attribute) (t : list Z * list Z) : Prop := span_ok P (attr_name a) t.1 ∧ span_ok P (attr_value a) t.2.
#[warnings="-register-all"]
Inductive node_ok P (x : xml_node) (t : xml_tree) : Prop :=
  NodeOk (_ : span_ok P (node_name x) (t_name t)) (_ : node_kind x = t_kind t) (_ : span_ok P (node_value x) (t_value t))
    (_ : Forall2 (attribute_ok P) (node_attributes x) (t_attributes t)) (_ : Forall2 (node_ok P) (nodes x) (t_nodes t))
    (_ : node_name x ≠ None → t_name t ≠ []).
(** All of a node but its name, which the parser ends last. *)
Definition body_ok P (x : xml_node) (t : xml_tree) : Prop :=
  node_kind x = t_kind t ∧ span_ok P (node_value x) (t_value t) ∧ Forall2 (attribute_ok P) (node_attributes x) (t_attributes t) ∧
  Forall2 (node_ok P) (nodes x) (t_nodes t).
Definition child_ok P (x : option xml_node) (t : option xml_tree) : Prop :=
  match x, t with Some x, Some t => node_ok P x t | None, None => True | _, _ => False end.
(** A string between [lo] and [hi]. *)
Definition within (lo hi : nat) (m : list Z) (p : nat) (s : list Z) : Prop := (lo ≤ p)%nat ∧ (p + length s < hi)%nat ∧ holds m p s.
Section Mono.
Context (P Q : nat → list Z → Prop) (HPQ : ∀ p s, P p s → Q p s).
Lemma span_mono sp s : span_ok P sp s → span_ok Q sp s.
Proof using HPQ. destruct sp as [[p n]|]; [|done]. intros [-> Hp]. split; [done|by apply HPQ]. Qed.
Lemma attributes_mono l la : Forall2 (attribute_ok P) l la → Forall2 (attribute_ok Q) l la.
Proof using HPQ. intros Hl. eapply Forall2_impl; [exact Hl|]. intros a t [Hn Hv]. split; by apply span_mono. Qed.
Lemma node_mono : ∀ x t, node_ok P x t → node_ok Q x t.
Proof using HPQ.
  fix IH 3. intros x t [Hn Hk Hv Ha Hc Hne]. split; [by apply span_mono|done|by apply span_mono|by apply attributes_mono| |done].
  clear -IH Hc. induction Hc as [|y u l k Hy Hl IHl]; constructor; [apply IH, Hy|apply IHl].
Qed.
Lemma body_mono x t : body_ok P x t → body_ok Q x t.
Proof using HPQ.
  intros (Hk & Hv & Ha & Hc). split_and!; [done|by apply span_mono|by apply attributes_mono|]. eapply Forall2_impl; [exact Hc|apply node_mono].
Qed.
Lemma child_mono x t : child_ok P x t → child_ok Q x t.
Proof using HPQ. destruct x, t; try done. apply node_mono. Qed.
End Mono.
Lemma within_mono lo lo' hi hi' m m' p s : (lo' ≤ lo)%nat → (hi ≤ hi')%nat → (∀ j, (lo ≤ j < hi)%nat → m' !! j = m !! j) →
  within lo hi m p s → within lo' hi' m' p s.
Proof. intros Hlo Hhi Hs (Hp & Hl & Hh). split_and!; [lia|lia|]. apply (holds_same m); [done|]. intros j Hj. apply Hs. lia. Qed.
(** What was in front of [hi] stays when the writes are behind it. *)
Lemma within_below lo lo' hi hi' m m' p s : (lo' ≤ lo)%nat → (hi ≤ hi')%nat → same_below hi m m' → within lo hi m p s → within lo' hi' m' p s.
Proof. intros Hlo Hhi [_ Hs]. apply within_mono; [done..|]. intros j Hj. apply Hs. lia. Qed.
(** The in-place parser returned what the reference did: the rest of the text is in place,
    nothing in front of [hi] has changed, and the results are related. *)
Definition agrees {A B} (R : list Z → nat → B → A → Prop) (hi : nat) (m : list Z) (r : read A) (res : outcome (parsed (B * nat))) : Prop :=
  match r with
  | Failed w => res = Ret (Threw w)
  | Read a rest => ∃ b i m', res = Ret (Parsed (b, i) m') ∧ holds m' i rest ∧ no_nul rest ∧ (hi ≤ i)%nat ∧ same_below hi m m' ∧ R m' i b a
  end.
Lemma agrees_mono {A B} (R R' : list Z → nat → B → A → Prop) hi hi' m m0 r res : (hi' ≤ hi)%nat → same_below hi' m0 m →
  (∀ m' i b a, same_below hi m m' → (hi ≤ i)%nat → R m' i b a → R' m' i b a) → agrees R hi m r res → agrees R' hi' m0 r res.
Proof.
  intros Hhi Hm HR. destruct r as [a rest|w]; [|done]. intros (b & i & m' & -> & Hh & Hs & Hi & Hb & Hr). exists b, i, m'.
  split_and!; [done|done|done|lia|by eapply same_below_trans|by eapply HR].
Qed.
Lemma agrees_bind {A B C D} (R : list Z → nat → B → A → Prop) (R' : list Z → nat → D → C → Prop) hi m q r
    (f : A → list Z → result C) (p : parser (B * nat)) (g : B * nat → parser (D * nat)) : and_then q f = Some r →
  (∀ r0, q = Some r0 → agrees R hi m r0 (p m)) →
  (∀ a rest b i m', q = Some (Read a rest) → f a rest = Some r → holds m' i rest → no_nul rest → (hi ≤ i)%nat → same_below hi m m' → R m' i b a →
    agrees R' hi m r (g (b, i) m')) →
  agrees R' hi m r ((y ← p; g y) m).
Proof.
  intros Hq Hp Hg. destruct q as [[a rest|w]|]; [| |done]; cbn in Hq.
  - destruct (Hp _ eq_refl) as (b & i & m' & E & Hh & Hs & Hi & Hb & Hr). rewrite (run_then _ _ _ _ _ E). by eapply Hg.
  - injection Hq as <-. by rewrite (run_threw _ _ _ _ (Hp _ eq_refl)).
Qed.
Lemma agrees_ret {A B} (R : list Z → nat → B → A → Prop) hi m a rest b i : holds m i rest → no_nul rest → (hi ≤ i)%nat → R m i b a →
  agrees R hi m (Read a rest) (Ret (Parsed (b, i) m)).
Proof. intros ????. exists b, i, m. split_and!; try done. Qed.

(** ** The parts of an element in place *)

Section Parts.
Implicit Types (m s : list Z) (i lo k n : nat).
(** A string and a NUL behind it, from what the memory holds and a write. *)
Lemma holds_ended m p a : bytes_at m p a → (p + length a < length m)%nat → holds (<[(p + length a)%nat := 0]> m) p a.
Proof.
  intros Hb Hl. apply holds_bytes, bytes_at_join; [|by apply bytes_at_put]. eapply bytes_at_same; [|exact Hb].
  intros j Hj. by rewrite list_lookup_insert_ne by lia.
Qed.
Lemma same_below_le hi hi' m m' : (hi ≤ hi')%nat → same_below hi' m m' → same_below hi m m'.
Proof. intros Hle. apply same_below_trans; [done|apply same_below_refl]. Qed.
Lemma holds_take m p s a rest : s = a ++ rest → holds m p s → bytes_at m p a.
Proof. intros -> Hh k c Hk. apply Hh. rewrite <- app_assoc. by apply lookup_app_l_Some. Qed.
Lemma get_then {C} m p s (f : Z → parser C) : holds m p s → (c ← get p; f c) m = f (hd 0 s) m.
Proof. intros Hh. by rewrite (run_then _ _ _ _ _ (get_run _ _ _ Hh)). Qed.
Lemma put_then {C} m p c (f : unit → parser C) : (p < length m)%nat → (y ← put p c; f y) m = f tt (<[p := c]> m).
Proof. intros Hp. by rewrite (run_then _ _ _ _ _ (put_run _ _ _ Hp)). Qed.
(** Where a scan ends, and what it leaves. *)
Lemma skip_to pred m p s : pred 0 = false → no_nul s → holds m p s →
  ∃ q, q = (p + length (take_while pred s))%nat ∧ (p ≤ q)%nat ∧ holds m q (drop_while pred s) ∧ no_nul (drop_while pred s) ∧
    ∀ C (f : nat → parser C), (text ← skip pred p; f text) m = f q m.
Proof.
  intros H0 Hs Hh. eexists. split; [done|]. split_and!; [lia|by apply holds_drop_while|by apply no_nul_drop_while|].
  intros C f. by rewrite (run_then _ _ _ _ _ (skip_run _ _ _ _ H0 Hh)).
Qed.
Lemma holds_next m p c s : holds m p (c :: s) → no_nul (c :: s) → holds m (S p) s ∧ no_nul s ∧ (S p < length m)%nat.
Proof.
  intros Hh Hs. apply no_nul_cons in Hs as [_ Hs]. apply holds_tail in Hh. split_and!; [done|done|]. pose proof (holds_inside _ _ _ Hh). lia.
Qed.
(** Data or a value with its references expanded, before and after it is ended. *)
Lemma refs_run pred pure m v s r : pred 0 = false → pure 0 = false → expand_refs pred pure s = Some r → no_nul s → holds m v s →
  match r with
  | Failed w => skip_and_expand_character_refs pred pure v m = Ret (Threw w)
  | Read value rest => ∃ text m', skip_and_expand_character_refs pred pure v m = Ret (Parsed (text, v + length value)%nat m') ∧
      holds m' text rest ∧ no_nul rest ∧ (v + length value ≤ text < length m')%nat ∧ pred (hd 0 rest) = false ∧
      bytes_at m' v value ∧ same_below v m m' ∧
      let m'' := <[(v + length value)%nat := 0]> m' in holds m'' v value ∧ same_below v m m'' ∧ same_from (S text) m' m''
  end.
Proof.
  intros H0 H1 He Hs Hh. eapply expand_refs_run in He; [|done..|exact Hh]. destruct r as [value rest|w]; [|done].
  destruct He as (pre & m' & -> & E & Hle & Hv & Hb & Hf & Hp). apply holds_app in Hh. apply no_nul_app in Hs as [_ Hs].
  eapply (holds_from _ m') in Hh; [|done|lia]. pose proof (holds_inside _ _ _ Hh) as Hl. exists (v + length pre)%nat, m'.
  split_and!; [done|done|done|lia|lia|done|done|done|]. split_and!.
  - apply holds_ended; [done|lia].
  - eapply same_below_trans; [|exact Hb|apply put_same_below]. lia.
  - split; [by rewrite length_insert|]. intros j Hj. by rewrite list_lookup_insert_ne by lia.
Qed.
Lemma value_preds quote : attribute_value_pred quote 0 = false ∧ attribute_value_pure_pred quote 0 = false.
Proof. unfold attribute_value_pred, attribute_value_pure_pred, one_of. by rewrite !bool_decide_true by (left). Qed.
Lemma attributes_run n : ∀ la s r m i l lo k, attributes la s n = Some r → no_nul s → holds m i s → (n ≤ k)%nat → (lo ≤ i)%nat →
  Forall2 (attribute_ok (within lo i m)) l la →
  agrees (λ m' j l' la', Forall2 (attribute_ok (within lo j m')) l' la') i m r (attributes_loop l i k m).
Proof.
  induction n as [|n IH]; intros la s r m i l lo k; [done|]. cbn [attributes]. intros Hr Hs Hh Hk Hlo Hl. destruct k as [|k]; [lia|]. cbn [attributes_loop].
  rewrite (get_then _ _ _ _ Hh). destruct (attribute_name_pred (hd 0 s)) eqn:Ep; [|injection Hr as <-; by apply agrees_ret].
  destruct s as [|c0 s]; [done|]. cbn [hd take_while drop_while] in Hr, Ep. rewrite Ep in Hr. pose proof Hh as Hname.
  apply holds_next in Hh as (Hh & Hs' & _); [|done]. destruct (skip_to attribute_name_pred _ _ _ eq_refl Hs' Hh) as (e & -> & _ & Hh1 & Hs1 & ->).
  eapply (holds_take _ _ _ (c0 :: take_while attribute_name_pred s) (drop_while attribute_name_pred s)) in Hname; [|cbn; by rewrite take_drop_while].
  replace (S i + length (take_while attribute_name_pred s))%nat with (i + length (c0 :: take_while attribute_name_pred s))%nat in * by (cbn; lia).
  set (name := c0 :: take_while attribute_name_pred s) in *. rewrite (proj2 (Nat.eqb_neq _ _)) by (cbn; lia).
  destruct (skip_to whitespace_pred _ _ _ eq_refl Hs1 Hh1) as (q & _ & Hq & Hh2 & Hs2 & ->). rewrite (get_then _ _ _ _ Hh2).
  destruct (drop_while whitespace_pred _) as [|c s2]; cbn [hd]; [by injection Hr as <-|]. destruct (c =? ch "="); [|by injection Hr as <-].
  apply holds_next in Hh2 as (Hh2 & Hs3 & Hlen); [|done]. rewrite put_then by lia.
  apply holds_ended in Hname; [|lia]. pose proof (put_same_below (i + length name) 0 m) as Hb1. eapply holds_from in Hh2; [|apply (put_same_from (i + length name) 0)|lia].
  set (m1 := <[(i + length name)%nat := 0]> m) in *.
  destruct (skip_to whitespace_pred _ _ _ eq_refl Hs3 Hh2) as (v & _ & Hv & Hh4 & Hs4 & ->). rewrite (get_then _ _ _ _ Hh4).
  destruct (drop_while whitespace_pred s2) as [|quote s3]; cbn [hd]; [by injection Hr as <-|]. destruct (one_of [39; 34] quote) eqn:Equote; [|by injection Hr as <-].
  apply holds_next in Hh4 as (Hh4 & Hs5 & _); [|done]. destruct (value_preds quote) as [Hp0 Hp1].
  destruct (expand_refs _ _ s3) as [r1|] eqn:Ee; [|done]. eapply refs_run in Ee; [|done|done|done|exact Hh4].
  destruct r1 as [value rest|w]; [|injection Hr as <-; by rewrite (run_threw _ _ _ _ Ee)].
  destruct Ee as (text & m2 & Ee & Hh5 & Hs6 & Hle & Hend & _ & _ & Hval & Hb2 & Hf). rewrite (run_then _ _ _ _ _ Ee), (get_then _ _ _ _ Hh5).
  cbn [and_then] in Hr. destruct rest as [|c' rest]; cbn [hd] in Hend |- *.
  { destruct (Z.eqb_spec 0 quote) as [E|_]; [by subst|by injection Hr as <-]. }
  destruct (c' =? quote); [|by injection Hr as <-]. apply holds_next in Hh5 as (Hh5 & Hs7 & _); [|done]. rewrite put_then by lia.
  eapply holds_from in Hh5; [|exact Hf|lia]. destruct (skip_to whitespace_pred _ _ _ eq_refl Hs7 Hh5) as (j & _ & Hj & Hh6 & Hs8 & ->).
  set (m3 := <[(S v + length value)%nat := 0]> m2) in *.
  assert (same_below i m m3) as Hb by (eapply same_below_trans; [|eapply same_below_trans; [|apply same_below_refl|exact Hb1]|exact Hb2]; lia).
  eapply agrees_mono; [|exact Hb| |eapply (IH _ _ _ _ _ _ lo); [exact Hr|done|exact Hh6|lia|lia|]]; [lia|done|].
  apply Forall2_app; [|apply Forall2_cons; split; [|done]].
  - eapply attributes_mono; [|exact Hl]. intros p t Hp. eapply within_below; [..|exact Hp]; [lia|lia|done].
  - split; cbn; (split; [lia|]); split_and!; [lia|lia| |lia|lia|exact Hval]. eapply holds_below; [exact Hb2|lia|done].
Qed.
Lemma brackets_run s : ∀ depth r m i k, brackets depth s = Some r → no_nul s → holds m i s → (length s < k)%nat →
  match r with
  | Failed w => brackets_loop depth i k m = Ret (Threw w)
  | Read _ rest => ∃ j, brackets_loop depth i k m = Ret (Parsed j m) ∧ holds m j rest ∧ no_nul rest ∧ (i ≤ j)%nat ∧ (length rest ≤ length s)%nat
  end.
Proof.
  assert (∀ s m i, no_nul s → holds m i s → ∃ j, Ret (Parsed i m) = Ret (Parsed j m) ∧ holds m j s ∧ no_nul s ∧ (i ≤ j)%nat ∧ (length s ≤ length s)%nat) as H0
    by (intros s' m i ??; exists i; by split_and!).
  induction s as [|c s IH]; intros [|d] r m i [|k] Hr Hs Hh Hk; cbn [length] in Hk; try lia; cbn [brackets brackets_loop] in Hr |- *;
    try (injection Hr as <-; cbn [give]; by apply H0); rewrite (get_then _ _ _ _ Hh); cbn [hd]; [by injection Hr as <-|].
  assert (c ≠ 0) as Hc by (apply no_nul_cons in Hs; tauto). apply holds_next in Hh as (Hh & Hs' & _); [|done].
  assert (∀ d, brackets d s = Some r → match r with Failed w => brackets_loop d (S i) k m = Ret (Threw w)
    | Read _ rest => ∃ j, brackets_loop d (S i) k m = Ret (Parsed j m) ∧ holds m j rest ∧ no_nul rest ∧ (i ≤ j)%nat ∧ (length rest ≤ length (c :: s))%nat end) as Hnext.
  { intros d' Hd. specialize (IH _ _ m (S i) k Hd Hs' Hh ltac:(lia)). destruct r as [u rest|w]; [|done].
    destruct IH as (j & E & H1 & H2 & H3 & H4). exists j. cbn [length]. split_and!; [done|done|done|lia|lia]. }
  destruct (c =? ch "["); [by apply Hnext|]. destruct (c =? ch "]"); [by apply Hnext|]. rewrite (proj2 (Z.eqb_neq c 0)) by done. by apply Hnext.
Qed.
Lemma doctype_run n : ∀ s r m i k, doctype s n = Some r → no_nul s → holds m i s → (n ≤ k)%nat →
  match r with
  | Failed w => doctype_loop i k m = Ret (Threw w)
  | Read x rest => x = None ∧ ∃ j, doctype_loop i k m = Ret (Parsed j m) ∧ holds m (S j) rest ∧ no_nul rest ∧ (i ≤ j)%nat
  end.
Proof.
  induction n as [|n IH]; intros s r m i [|k] Hr Hs Hh Hk; try lia; [done..|]. cbn [doctype doctype_loop] in Hr |- *. rewrite (get_then _ _ _ _ Hh).
  destruct s as [|c s]; cbn [hd]; [by injection Hr as <-|]. assert (c ≠ 0) as Hc by (apply no_nul_cons in Hs; tauto).
  pose proof (holds_inside _ _ _ Hh) as Hlen. apply holds_next in Hh as (Hh & Hs' & _); [|done].
  assert (∀ s j, doctype s n = Some r → no_nul s → holds m j s → (i ≤ j)%nat → match r with Failed w => doctype_loop j k m = Ret (Threw w)
    | Read x rest => x = None ∧ ∃ j', doctype_loop j k m = Ret (Parsed j' m) ∧ holds m (S j') rest ∧ no_nul rest ∧ (i ≤ j')%nat end) as Hnext.
  { intros s' j Hd Hs2 Hh2 Hj. specialize (IH _ _ m j k Hd Hs2 Hh2 ltac:(lia)). destruct r as [x rest|w]; [|done].
    destruct IH as (-> & j' & E & H1 & H2 & H3). split; [done|]. exists j'. split_and!; [done|done|done|lia]. }
  destruct (c =? ch ">"); [injection Hr as <-; split; [done|]; exists i; by split_and!|].
  destruct (c =? ch "["); [|rewrite (proj2 (Z.eqb_neq c 0)) by done; eapply Hnext; (eassumption || lia)].
  destruct (brackets 1 s) as [r1|] eqn:Eb; [|done]. eapply (brackets_run _ _ _ m (S i) (length m)) in Eb; [|done|done|cbn [length] in Hlen; lia].
  destruct r1 as [u rest|w]; [|injection Hr as <-; by apply run_threw]. destruct Eb as (j & E & H1 & H2 & H3 & _).
  rewrite (run_then (each_byte _) _ _ _ _ E). cbn [and_then] in Hr. eapply Hnext; (eassumption || lia).
Qed.
Lemma upto_run {A} w (f : list Z → A) s r m i : w ≠ [] → no_nul w → upto w s f = Some r → no_nul s → holds m i s →
  match r with
  | Failed x => find w i m = Ret (Threw x)
  | Read x rest => ∃ a, x = f a ∧ find w i m = Ret (Parsed (i + length a)%nat m) ∧ bytes_at m i a ∧ holds m (i + length a + length w) rest ∧ no_nul rest
  end.
Proof.
  intros Hne Hw Hr Hs Hh. pose proof (find_run w m i s Hne Hw Hs Hh) as Hf. unfold upto in Hr. destruct (split_at w s) as [[a q]|] eqn:E; injection Hr as <-; [|done].
  apply split_at_app in E as [-> Hq]. apply starts_app in Hq. exists a. split_and!; [done|done|by eapply (holds_take m i (a ++ q) a q)| |].
  - apply holds_app in Hh. rewrite Hq in Hh. by apply holds_app in Hh.
  - by apply no_nul_drop; apply no_nul_app in Hs as [_ Hs].
Qed.
(** A construct that is passed over. *)
Lemma upto_none w (g : nat → nat) s r m i p lo : w ≠ [] → no_nul w → (∀ t, g t = (t + length w)%nat) → upto w s (λ _, @None xml_tree) = Some r →
  no_nul s → holds m p s → (i ≤ p)%nat → agrees (λ m' j, child_ok (within lo j m')) i m r ((text ← find w p; mret (None, g text)) m).
Proof.
  intros Hne Hw Hg Hr Hs Hh Hi. apply (upto_run _ _ _ _ m p) in Hr; [|done..]. destruct r as [x rest|x]; [|by apply run_threw].
  destruct Hr as (a & -> & E & _ & Hh' & Hs'). rewrite (run_then _ _ _ _ _ E), Hg. apply agrees_ret; [done|done|lia|done].
Qed.
Lemma cdata_run s r m i p lo : upto (str "]]>") s (λ v, Some (leaf node_cdata v)) = Some r → no_nul s → holds m p s → (i ≤ p)%nat → (lo ≤ p)%nat →
  agrees (λ m' j, child_ok (within lo j m')) i m r (parse_cdata p m).
Proof.
  intros Hr Hs Hh Hi Hlo. unfold parse_cdata. apply (upto_run _ _ _ _ m p) in Hr; [|done|by apply (bool_decide_unpack _)|done|done].
  destruct r as [x rest|x]; [|by apply run_threw]. destruct Hr as (a & -> & E & Ha & Hh' & Hs'). rewrite (run_then _ _ _ _ _ E).
  pose proof (holds_inside _ _ _ Hh') as Hlen. change (length (str "]]>")) with 3%nat in *. rewrite put_then by lia.
  replace (p + length a - p)%nat with (length a) by lia. eexists _, _, _. split; [done|]. split_and!; [|done|lia| |].
  - eapply holds_from; [apply put_same_from|lia|done].
  - split; [by rewrite length_insert|]. intros j Hj. by rewrite list_lookup_insert_ne by lia.
  - split; cbn; [done|done| |constructor|constructor|done]. split; [done|]. split_and!; [lia|lia|]. apply holds_ended; [done|lia].
Qed.
(** The first characters decide which construct it is. *)
Lemma marked_run x w m i s : x ≠ 0 → no_nul w → holds m i s → (if hd 0 s =? x then matches (S i) w else mret false) m = Ret (Parsed (starts (x :: w) s) m).
Proof.
  intros Hx Hw Hh. rewrite starts_cons. destruct s as [|c s]; cbn [hd]; [by rewrite (proj2 (Z.eqb_neq 0 x)) by done|].
  destruct (c =? x); [|done]. cbn [andb]. apply matches_run; [done|by eapply holds_tail].
Qed.
Lemma one_of_longer k s l : one_of l (nth k s 0) = true → 0 ∉ l → (S k ≤ length s)%nat.
Proof. unfold one_of. rewrite bool_decide_eq_true. intros Hk H0. destruct (decide (S k ≤ length s)%nat) as [|Hn]; [done|]. rewrite nth_overflow in Hk by lia. done. Qed.
Lemma declaration_run m i s : holds m i s →
  (if one_of (str "xX") (hd 0 s) then c1 ← get (i + 1); if one_of (str "mM") c1 then c2 ← get (i + 2); if one_of (str "lL") c2 then c3 ← get (i + 3);
     mret (whitespace_pred c3) else mret false else mret false else mret false) m =
  Ret (Parsed (one_of (str "xX") (hd 0 s) && one_of (str "mM") (nth 1 s 0) && one_of (str "lL") (nth 2 s 0) && whitespace_pred (nth 3 s 0)) m).
Proof.
  intros Hh. assert (hd 0 s = nth 0 s 0) as -> by (by destruct s).
  assert (∀ l k, bool_decide (0 ∉ l) = true → one_of l (nth k s 0) = true → (S k ≤ length s)%nat) as Hk by (intros l k Hl%bool_decide_eq_true E; by eapply one_of_longer).
  destruct (one_of (str "xX") _) eqn:E0; [|done]. rewrite (run_then _ _ _ _ _ (get_nth _ _ _ 1 Hh (Hk (str "xX") 0%nat eq_refl E0))).
  destruct (one_of (str "mM") _) eqn:E1; [|done]. rewrite (run_then _ _ _ _ _ (get_nth _ _ _ 2 Hh (Hk (str "mM") 1%nat eq_refl E1))).
  destruct (one_of (str "lL") _) eqn:E2; [|done]. by rewrite (run_then _ _ _ _ _ (get_nth _ _ _ 3 Hh (Hk (str "lL") 2%nat eq_refl E2))).
Qed.
Abbreviation node_agrees i m := (agrees (λ m' j, child_ok (within i j m')) i m).
Lemma bang_run pe s r m i : (if starts (str "--") s then upto (str "-->") (drop 2 s) (λ _, None)
    else if starts (str "[CDATA[") s then upto (str "]]>") (drop 7 s) (λ v, Some (leaf node_cdata v))
    else if starts (str "DOCTYPE") s && whitespace_pred (nth 7 s 0) then doctype (drop 8 s) (S (S (length s)))
    else upto (str ">") s (λ _, None)) = Some r → no_nul s → holds m (S i) s → holds m i (ch "!" :: s) → node_agrees i m r (parse_node pe i m).
Proof.
  intros Hr Hs Hh Hh0. unfold parse_node. rewrite (get_then _ _ _ _ Hh0). cbn [hd Z.eqb]. change (ch "!" =? ch "?") with false. change (ch "!" =? ch "!") with true. cbn iota.
  rewrite Nat.add_1_r, (get_then _ _ _ _ Hh). replace (i + 2)%nat with (S (S i)) by lia.
  assert (∀ x w, bool_decide (0 ∉ x :: w) = true → (if hd 0 s =? x then matches (S (S i)) w else mret false) m = Ret (Parsed (starts (x :: w) s) m)) as Hmark.
  { intros x w Hw%bool_decide_eq_true. apply no_nul_cons in Hw as [Hx Hw]. by apply marked_run. }
  assert (∀ k, (k ≤ length s)%nat → holds m (i + S k) (drop k s)) as Hdrop.
  { intros k Hk. replace (i + S k)%nat with (S i + k)%nat by lia. by apply holds_drop. }
  rewrite (run_then _ _ _ _ _ (Hmark (ch "-") (str "-") eq_refl)). change (ch "-" :: str "-") with (str "--").
  destruct (starts (str "--") s) eqn:E1.
  { apply starts_length in E1. apply (upto_none (str "-->") (λ t, (t + 3)%nat) (drop 2 s)); [done|by apply (bool_decide_unpack _)|done|done|by apply no_nul_drop|by apply Hdrop|lia]. }
  rewrite (run_then _ _ _ _ _ (Hmark (ch "[") (str "CDATA[") eq_refl)). change (ch "[" :: str "CDATA[") with (str "[CDATA[").
  destruct (starts (str "[CDATA[") s) eqn:E2.
  { apply starts_length in E2. apply (cdata_run (drop 7 s)); [done|by apply no_nul_drop|by apply Hdrop|lia|lia]. }
  match goal with |- context [mbind ?f ?p m] => assert (p m = Ret (Parsed (starts (str "DOCTYPE") s && whitespace_pred (nth 7 s 0)) m)) as Hd end.
  { pose proof (Hmark (ch "D") (str "OCTYPE") eq_refl) as Hm. change (ch "D" :: str "OCTYPE") with (str "DOCTYPE") in Hm. destruct (hd 0 s =? ch "D"); [|by injection Hm as <-].
    rewrite (run_then _ _ _ _ _ Hm). destruct (starts (str "DOCTYPE") s) eqn:E3; [|done]. apply starts_length in E3.
    replace (i + 8)%nat with (S i + 7)%nat by lia. by rewrite (run_then _ _ _ _ _ (get_nth _ _ _ 7 Hh E3)). }
  rewrite (run_then _ _ _ _ _ Hd). clear Hd. destruct (starts (str "DOCTYPE") s && _) eqn:E3.
  - apply andb_true_iff in E3 as [_ E3%one_of_longer]; [|by apply (bool_decide_unpack _)].
    pose proof (holds_inside _ _ _ (Hdrop 8%nat E3)) as Hl. pose proof (holds_inside _ _ _ Hh) as Hl'.
    eapply (doctype_run _ _ _ m (i + 9) (length m)) in Hr; [|by apply no_nul_drop|by apply Hdrop|lia]. unfold parse_doctype.
    destruct r as [x rest|w]; [|by apply run_threw]. destruct Hr as (-> & j & E & Hj & Hs' & Hle). rewrite (run_then (each_byte _) _ _ _ _ E). apply agrees_ret; [done|done|lia|done].
  - apply (upto_none (str ">") S s); [done|by apply (bool_decide_unpack _)|intros t; apply eq_sym, Nat.add_1_r|done|done|done|lia].
Qed.
Lemma node_run elem pe s r m i : node elem s = Some r → no_nul s → holds m i s → (∀ r, elem s = Some r → node_agrees i m r (pe i m)) →
  node_agrees i m r (parse_node pe i m).
Proof.
  intros Hr Hs Hh He. destruct s as [|c s]; cbn [node] in Hr.
  { unfold parse_node. rewrite (get_then _ _ _ _ Hh). by apply He. }
  pose proof (holds_next _ _ _ _ Hh Hs) as (Hh' & Hs' & _). destruct (Z.eqb_spec c (ch "?")) as [->|Hne].
  - unfold parse_node. rewrite (get_then _ _ _ _ Hh). cbn [hd]. change (ch "?" =? ch "?") with true. cbn iota zeta.
    pose proof (declaration_run _ _ _ Hh') as Hd. match type of Hr with (if ?b then _ else _) = _ => destruct b eqn:Eb end.
    + apply andb_true_iff in Eb as [_ Eb]. apply one_of_longer in Eb; [|by apply (bool_decide_unpack _)].
      rewrite (get_then _ _ _ _ Hh'), (run_then _ _ _ _ _ Hd). apply (upto_none (str "?>") (λ t, (t + 2)%nat) (drop 4 s));
        [done|by apply (bool_decide_unpack _)|done|done|by apply no_nul_drop|by apply holds_drop|lia].
    + rewrite (get_then _ _ _ _ Hh'), (run_then _ _ _ _ _ Hd).
      apply (upto_none (str "?>") (λ t, (t + 2)%nat) s); [done|by apply (bool_decide_unpack _)|done|done|done|done|lia].
  - destruct (Z.eqb_spec c (ch "!")) as [->|Hne']; [by apply (bang_run _ s)|].
    unfold parse_node. rewrite (get_then _ _ _ _ Hh). cbn [hd]. rewrite !(proj2 (Z.eqb_neq c _)) by done. by apply He.
Qed.
(** Data is appended, and ended where the "<" may have been. *)
Lemma data_run x xt cs start m r lo hi : expand_refs text_pred text_pure_no_ws_pred start = Some r → no_nul start → holds m cs start →
  body_ok (within lo hi m) x xt → (hi ≤ cs)%nat → (lo ≤ cs)%nat →
  match r with
  | Failed w => parse_and_append_data x cs m = Ret (Threw w)
  | Read value rest => ∃ x' text m', parse_and_append_data x cs m = Ret (Parsed (x', text, hd 0 rest) m') ∧ node_name x' = node_name x ∧
      body_ok (within lo (S text) m') x' (append_data value xt) ∧ same_below cs m m' ∧ no_nul rest ∧ (cs ≤ text < length m')%nat ∧
      text_pred (hd 0 rest) = false ∧ ∀ c s, rest = c :: s → holds m' (S text) s
  end.
Proof.
  intros Hr Hs Hh Hx Hhi Hlo. eapply refs_run in Hr; [|done|done|done|exact Hh]. unfold parse_and_append_data.
  destruct r as [value rest|w]; [|by rewrite (run_threw _ _ _ _ Hr)]. destruct Hr as (text & m' & E & Hh' & Hs' & Hle & Hp & Hb & Hsame & Hv & Hsame' & Hf).
  rewrite (run_then _ _ _ _ _ E). cbn [node_value append_node].
  assert (first_char (node_value x) m' = Ret (Parsed (hd 0 (t_value xt)) m')) as Ef.
  { destruct Hx as (_ & Hv0 & _). destruct (node_value x) as [[p n]|]; [|cbn in Hv0; by rewrite Hv0]. destruct Hv0 as (-> & Hp1 & Hp2 & Hp3).
    apply get_run. eapply holds_below; [exact Hsame|lia|done]. }
  rewrite (run_then _ _ _ _ _ Ef), (get_then _ _ _ _ Hh'), put_then by lia. replace (cs + length value - cs)%nat with (length value) by lia.
  set (m2 := <[(cs + length value)%nat := 0]> m') in *.
  assert (body_ok (within lo (S text) m2) x xt) as (Hk & Hv0 & Ha & Hc).
  { eapply body_mono; [|exact Hx]. intros p s Hps. eapply within_below; [..|exact Hps]; [lia|lia|]. by eapply same_below_le. }
  assert (within lo (S text) m2 cs value) as Hw by (split_and!; [lia|lia|done]).
  assert (Forall2 (node_ok (within lo (S text) m2)) (nodes x ++ [set_value cs (length value) (allocate_node node_data)]) (t_nodes xt ++ [leaf node_data value])) as Hc'.
  { apply Forall2_app; [done|]. apply Forall2_cons. split; [|done]. by split. }
  eexists _, text, m2. split; [done|]. unfold append_data. cbn [t_value append t_kind t_name t_attributes t_nodes].
  assert (length m2 = length m') as -> by apply length_insert.
  assert (∀ c s, rest = c :: s → holds m2 (S text) s) as Hrest by (intros c s ->; eapply holds_from; [exact Hf|lia|]; by eapply holds_tail).
  destruct (hd 0 (t_value xt) =? 0); split_and!; done || lia.
Qed.
(** Where the contents stand: at the white space behind a tag, or behind data that ended at [i]. *)
Definition at_contents m (cs i : nat) (start s : list Z) : Prop :=
  holds m cs start ∧ no_nul start ∧ i = (cs + length (take_while whitespace_pred start))%nat ∧ s = drop_while whitespace_pred start.
Definition behind_data m (i : nat) (s : list Z) : Prop := no_nul s ∧ text_pred (hd 0 s) = false ∧ ∀ c s', s = c :: s' → holds m (S i) s'.
Lemma append_some_ok P x xt child ct : body_ok P x xt → child_ok P child ct → body_ok P (append_some child x) (append_opt ct xt).
Proof.
  intros (Hk & Hv & Ha & Hc) Hct. destruct child as [y|], ct as [u|]; try done. split_and!; try done. apply Forall2_app; [done|].
  apply Forall2_cons. by split.
Qed.
Lemma append_some_name child ct x xt : node_name (append_some child x) = node_name x ∧ t_name (append_opt ct xt) = t_name xt.
Proof. by destruct child, ct. Qed.
(** The name of the element is not among what its contents may say. *)
Definition contents_agrees lo hi m (x : xml_node) (xt : xml_tree) (r : read xml_tree) res : Prop :=
  agrees (λ m' j x' xt', node_name x' = node_name x ∧ t_name xt' = t_name xt ∧ body_ok (within lo j m') x' xt') hi m r res.
Lemma contents_mono lo hi hi' m m0 x x' xt xt' r res : (hi' ≤ hi)%nat → same_below hi' m0 m → node_name x' = node_name x → t_name xt' = t_name xt →
  contents_agrees lo hi m x' xt' r res → contents_agrees lo hi' m0 x xt r res.
Proof. intros Hhi Hm Hx Ht. apply agrees_mono; [done..|]. intros m' j y yt _ _ (-> & -> & Hy). done. Qed.
Lemma attributes_from n s r m i lo : attributes [] s n = Some r → (n ≤ length m)%nat → no_nul s → holds m i s → (lo ≤ i)%nat ∨ attribute_name_pred (hd 0 s) = false →
  agrees (λ m' j l' la', Forall2 (attribute_ok (within lo j m')) l' la') i m r (parse_node_attributes i m).
Proof.
  intros Hr Hn Hs Hh Hlo. unfold parse_node_attributes, each_byte. destruct Hlo as [Hlo|Hp].
  - by eapply attributes_run.
  - destruct n as [|n]; [done|]. cbn [attributes] in Hr. rewrite Hp in Hr. injection Hr as <-. destruct (length m) eqn:E; [lia|]. cbn [attributes_loop].
    rewrite (get_then _ _ _ _ Hh), Hp. by apply agrees_ret.
Qed.
(** The name is ended when the element is complete. *)
Lemma element_done m name i j x xt : bytes_at m i name → (i + length name < j ≤ length m)%nat → node_name x = Some (i, length name) → t_name xt = name → name ≠ [] →
  body_ok (within (S (i + length name)) j m) x xt → child_ok (within i j (<[(i + length name)%nat := 0]> m)) (Some x) (Some xt).
Proof.
  intros Hn Hj Hx Ht Hne Hb. eapply (body_mono _ (within i j (<[(i + length name)%nat := 0]> m))) in Hb as (Hk & Hv & Ha & Hc).
  - split; [|done..|by rewrite Ht]. rewrite Hx, Ht. split; [done|]. split_and!; [lia|lia|]. apply holds_ended; [done|lia].
  - intros p s. apply within_mono; [lia|lia|]. intros q Hq. by rewrite list_lookup_insert_ne by lia.
Qed.
Lemma closing_run s r m p xt x lo hi : match drop_while whitespace_pred (drop_while node_name_pred s) with
    | c :: s => if c =? ch ">" then give xt s else fail (str "expected >") | [] => fail (str "expected >") end = Some r →
  no_nul s → holds m p s → (hi ≤ p)%nat → body_ok (within lo hi m) x xt →
  contents_agrees lo hi m x xt r ((text ← skip node_name_pred p; text ← skip whitespace_pred text; c ← get text;
    if c =? ch ">" then mret (x, S text) else throw (str "expected >")) m).
Proof.
  intros Hr Hs Hh Hhi Hx. destruct (skip_to node_name_pred _ _ _ eq_refl Hs Hh) as (q & _ & Hq & Hh1 & Hs1 & ->).
  destruct (skip_to whitespace_pred _ _ _ eq_refl Hs1 Hh1) as (q' & _ & Hq' & Hh2 & Hs2 & ->). rewrite (get_then _ _ _ _ Hh2).
  destruct (drop_while whitespace_pred _) as [|c s']; cbn [hd]; [by injection Hr as <-|]. destruct (c =? ch ">"); injection Hr as <-; [|done].
  apply holds_next in Hh2 as (Hh2 & Hs3 & _); [|done]. apply agrees_ret; [done|done|lia|]. split_and!; [done|done|].
  eapply body_mono; [|exact Hx]. intros y u Hy. eapply within_below; [..|exact Hy]; [lia|lia|apply same_below_refl].
Qed.
Definition element_goal n : Prop := ∀ s r m i k, element s n = Some r → no_nul s → holds m i s → (n ≤ k)%nat → node_agrees i m r (parse_element i k m).
Definition contents_goal n : Prop := ∀ xt start s r m cs i x lo hi k, contents xt start s n = Some r → (n ≤ k)%nat → (lo ≤ hi)%nat → body_ok (within lo hi m) x xt →
  ((hi ≤ cs)%nat ∧ at_contents m cs i start s) ∨ ((hi ≤ S i)%nat ∧ behind_data m i s) → contents_agrees lo hi m x xt r (contents_loop x cs i (hd 0 s) k m).
Lemma child_step n : element_goal n → contents_goal n → ∀ xt s r m i x lo hi k,
  and_then (node (λ s, element s n) s) (λ child s, contents (append_opt child xt) s (drop_while whitespace_pred s) n) = Some r →
  no_nul s → holds m i s → (n ≤ k)%nat → (lo ≤ hi ≤ i)%nat → body_ok (within lo hi m) x xt →
  contents_agrees lo hi m x xt r (('(child, text) ← parse_node (λ text, parse_element text k) i; let contents_start := text in
    text ← skip whitespace_pred text; next_char ← get text; contents_loop (append_some child x) contents_start text next_char k) m).
Proof.
  intros IHe IHc xt s r m i x lo hi k Hr Hs Hh Hk Hlo Hx. eapply agrees_bind; [exact Hr| |]; clear Hr.
  - intros r0 Hr0. eapply agrees_mono; [| | |eapply node_run; [exact Hr0|done|done|]]; [|apply same_below_refl|by intros ????? _ ?|]; [lia|].
    intros r1 Hr1. eapply IHe; [exact Hr1|done..].
  - intros ct rest child j m' _ Hr Hh' Hs' Hj Hb Hc. cbn beta iota zeta.
    destruct (skip_to whitespace_pred _ _ _ eq_refl Hs' Hh') as (q & Hq & Hle & Hh1 & _ & ->). rewrite (get_then _ _ _ _ Hh1).
    destruct (append_some_name child ct x xt) as [En Et].
    eapply (contents_mono _ j _ m' _ _ (append_some child x) _ (append_opt ct xt)); [lia|done|done|done|].
    eapply IHc; [exact Hr|done|lia| |left; by split_and!]. apply append_some_ok.
    + eapply body_mono; [|exact Hx]. intros y u. apply within_below; [done|lia|done].
    + eapply child_mono; [|exact Hc]. intros y u. apply within_mono; [lia|done|done].
Qed.
Lemma name_preds c : node_name_pred c = false → attribute_name_pred c = false.
Proof.
  unfold node_name_pred, attribute_name_pred, one_of. rewrite !negb_false_iff, !bool_decide_eq_true.
  assert (Forall (λ c, c ∈ 0 :: white ++ str "!/<=>?") (0 :: white ++ str "/>?")) as Hall by by apply (bool_decide_unpack _).
  apply (proj1 (Forall_forall _ _) Hall).
Qed.
Lemma agrees_more {A B} (R : list Z → nat → B → A → Prop) hi hi' m r res : (hi' ≤ hi)%nat → agrees R hi m r res →
  agrees (λ m' j b a, (hi ≤ j)%nat ∧ same_below hi m m' ∧ R m' j b a) hi' m r res.
Proof. intros Hhi. apply agrees_mono; [done|apply same_below_refl|done]. Qed.
Lemma agrees_put m m1 name i j x xt rest : bytes_at m1 i name → (i + length name < j)%nat → node_name x = Some (i, length name) → t_name xt = name → name ≠ [] →
  body_ok (within (S (i + length name)) j m1) x xt → holds m1 j rest → no_nul rest → same_below i m m1 →
  node_agrees i m (Read (Some xt) rest) ((_ ← put (i + length name) 0; mret (Some x, j)) m1).
Proof.
  intros Hn Hj Hx Ht Hne Hb Hh Hs Hm. pose proof (holds_inside _ _ _ Hh). rewrite put_then by lia. eexists _, _, _. split; [done|]. split_and!; [|done|lia| |].
  - eapply holds_from; [apply put_same_from|lia|done].
  - eapply same_below_trans; [|exact Hm|apply put_same_below]. lia.
  - apply element_done; done || lia.
Qed.
(** What follows the attributes. *)
Lemma element_tail n name la s r m i l j k : contents_goal n →
  (let x := Tree node_element name [] la [] in
   match s with
   | c :: s =>
       if c =? ch ">" then and_then (contents x s (drop_while whitespace_pred s) n) (λ x s, give (Some x) s)
       else if c =? ch "/" then
         match s with c :: s => if c =? ch ">" then give (Some x) s else fail (str "expected >") | [] => fail (str "expected >") end
       else fail (str "expected >")
   | [] => fail (str "expected >")
   end) = Some r →
  holds m j s → no_nul s → name ≠ [] → (i + length name ≤ j)%nat → (n ≤ k)%nat → bytes_at m i name → Forall2 (attribute_ok (within (S (i + length name)) j m)) l la →
  node_agrees i m r ((c ← get j; let element := set_attributes l (set_name i (length name) (allocate_node node_element)) in
    if c =? ch ">" then let contents_start := S j in text ← skip whitespace_pred (S j); next_char ← get text;
      '(element, text) ← contents_loop element contents_start text next_char k; _ ← put (i + length name) 0; mret (Some element, text)
    else if c =? ch "/" then c ← get (S j); if c =? ch ">" then _ ← put (i + length name) 0; mret (Some element, (j + 2)%nat) else throw (str "expected >")
    else throw (str "expected >")) m).
Proof.
  intros IHc Hr Hh Hs Hne Hj Hk Hn Hl. cbn zeta in Hr |- *. rewrite (get_then _ _ _ _ Hh). destruct s as [|c s]; cbn [hd]; [by injection Hr as <-|].
  pose proof (holds_next _ _ _ _ Hh Hs) as (Hh1 & Hs1 & Hlen). set (x := set_attributes l _). set (xt := Tree node_element name [] la []) in *.
  assert (∀ hi, (j ≤ hi)%nat → body_ok (within (S (i + length name)) hi m) x xt) as Hx.
  { intros hi Hhi. split_and!; [done|done| |done]. eapply attributes_mono; [|exact Hl]. intros p u Hp. by eapply within_below; [done|exact Hhi|apply same_below_refl|]. }
  destruct (c =? ch ">").
  - destruct (skip_to whitespace_pred _ _ _ eq_refl Hs1 Hh1) as (q & Hq & Hle & Hh2 & _ & ->). rewrite (get_then _ _ _ _ Hh2).
    eapply agrees_bind; [exact Hr|intros r0 Hr0; eapply (agrees_more _ (S j)); [lia|]; eapply (IHc _ _ _ _ _ _ _ _ (S (i + length name))); [exact Hr0|done| |by apply Hx; lia|left]; [lia|by split_and!]|].
    intros xt' rest x' text m1 _ [= <-] Hh3 Hs3 _ _ (Ht & Hb & En & Et & Hx'). cbn beta iota.
    apply agrees_put; [|lia|done|done|done|done|done|done|eapply same_below_le; [|exact Hb]; lia].
    eapply bytes_at_same; [|exact Hn]. intros p Hp. apply Hb. lia.
  - destruct (c =? ch "/"); [|by injection Hr as <-]. rewrite (get_then _ _ _ _ Hh1). destruct s as [|c' s]; cbn [hd]; [by injection Hr as <-|].
    destruct (c' =? ch ">"); injection Hr as <-; [|done]. apply holds_next in Hh1 as (Hh2 & Hs2 & Hlen2); [|done]. replace (j + 2)%nat with (S (S j)) by lia.
    apply agrees_put; [done|lia|done|done|done|apply Hx; lia|done|done|apply same_below_refl].
Qed.
Lemma element_step n : contents_goal n → element_goal (S n).
Proof.
  intros IHc s r m i k Hr Hs Hh Hk. destruct k as [|k]; [lia|]. cbn [element parse_element] in Hr |- *.
  destruct (skip_to node_name_pred _ _ _ eq_refl Hs Hh) as (e & He & Hie & Hh1 & Hs1 & ->).
  pose proof (holds_take _ _ _ _ _ (eq_sym (take_drop_while node_name_pred s)) Hh) as Hname. pose proof (holds_inside _ _ _ Hh) as Hlen. set (name := take_while node_name_pred s) in *.
  assert (node_name_pred (hd 0 (drop_while node_name_pred s)) = false) as Hstop by apply drop_while_stop, eq_refl. clearbody name. clear Hh Hs.
  case_bool_decide as Hne.
  { rewrite (proj2 (Nat.eqb_eq e i)) by (rewrite Hne in He; cbn in He; lia). by injection Hr as <-. }
  rewrite (proj2 (Nat.eqb_neq e i)) by (destruct name; [done|cbn in He; lia]). cbn beta zeta. replace (e - i)%nat with (length name) by lia.
  destruct (skip_to whitespace_pred _ _ _ eq_refl Hs1 Hh1) as (q & Hq & Heq & Hh2 & Hs2 & ->).
  eapply agrees_bind; [exact Hr|intros r0 Hr0; eapply (agrees_more _ q); [lia|]; eapply (attributes_from _ _ _ _ _ (S e)); [exact Hr0|lia|done|exact Hh2|]|]; clear Hr.
  - destruct (drop_while node_name_pred s) as [|c s']; [by right|]. cbn in Hq, Hstop |- *. destruct (whitespace_pred c); [left; cbn in Hq; lia|right].
    by apply name_preds.
  - intros la rest l j m1 _ Hr Hh3 Hs3 _ _ (Hj & Hb & Hl). cbn beta iota zeta. subst e.
    eapply agrees_mono; [| | |eapply (element_tail n name la rest _ _ _ l); [exact IHc|exact Hr|done|done|done|lia|lia| |done]]; [done|eapply same_below_le; [|exact Hb]; lia|done|].
    eapply bytes_at_same; [|exact Hname]. intros p Hp. apply Hb. lia.
Qed.
Lemma element_run n : element_goal n ∧ contents_goal n.
Proof.
  induction n as [|n [IHe IHc]]; [done|]. split.
  - by apply element_step.
  - intros xt start s r m cs i x lo hi k Hr Hk Hlo Hx Hat. destruct k as [|k]; [lia|]. cbn [contents contents_loop] in Hr |- *.
    assert (no_nul s ∧ ∀ c s', s = c :: s' → holds m (S i) s' ∧ (hi ≤ S i)%nat) as [Hs Hnext].
    { destruct Hat as [(Hhi & Hh & Hs & -> & ->)|(Hhi & Hs & _ & Hh)]; (split; [try done; by apply no_nul_drop_while|]).
      - intros c s' E. split; [|lia]. apply (holds_drop_while whitespace_pred) in Hh. rewrite E in Hh. by eapply holds_tail.
      - intros c s' E. split; [by eapply Hh|lia]. }
    destruct s as [|c s]; cbn [hd]; [injection Hr as <-; done|]. destruct (Hnext _ _ eq_refl) as [Hh Hhi]. clear Hnext.
    assert (c ≠ 0) as Hc0 by (apply no_nul_cons in Hs; tauto). pose proof Hs as Hs1. apply no_nul_cons in Hs1 as [_ Hs1].
    destruct (Z.eqb_spec c (ch "<")) as [->|Hlt].
    + clear Hat. rewrite Nat.add_1_r, (get_then _ _ _ _ Hh). change (str "/") with [ch "/"] in Hr. rewrite starts_cons in Hr.
      replace (i + 2)%nat with (S (S i)) by lia. destruct s as [|c1 s]; cbn [hd]; [change (0 =? ch "/") with false; eapply (child_step n IHe IHc); [exact Hr|done|done|lia|lia|exact Hx]|].
      rewrite starts_nil, andb_true_r in Hr. destruct (c1 =? ch "/"); [|eapply (child_step n IHe IHc); [exact Hr|done|done|lia|lia|exact Hx]].
      apply holds_next in Hh as (Hh & Hs2 & _); [|done]. eapply closing_run; [exact Hr|done|exact Hh|lia|exact Hx].
    + rewrite (proj2 (Z.eqb_neq c 0)) in Hr |- * by done. destruct Hat as [(Hhi' & Hh0 & Hs0 & _)|(_ & _ & Hp%text_pred_false & _)]; [|cbn in Hp; tauto].
      destruct (expand_refs _ _ start) as [r1|] eqn:Ee; [|done]. eapply data_run in Ee; [|done|exact Hh0|exact Hx|lia|lia].
      destruct r1 as [value rest|w]; [|injection Hr as <-; by apply run_threw].
      destruct Ee as (x' & text & m' & E & Hn & Hx' & Hb & Hs' & Hle & Hp & Hr'). rewrite (run_then _ _ _ _ _ E). cbn [and_then] in Hr.
      eapply (contents_mono _ (S text) _ m' _ _ x' _ (append_data value xt)); [lia|by eapply same_below_le, Hb|done|apply append_data_name|].
      eapply IHc; [exact Hr|lia|lia|exact Hx'|right]. by split_and!.
Qed.

(** ** The document *)

Lemma append_node_ok P x xt child ct : node_ok P x xt → child_ok P child ct → node_ok P (append_some child x) (append_opt ct xt).
Proof.
  intros [Hn Hk Hv Ha Hc Hne] Hct. destruct child as [y|], ct as [u|]; try done. split; try done. apply Forall2_app; [done|].
  apply Forall2_cons. by split.
Qed.
Lemma document_run n : ∀ xt s r m i x depth kd k, document xt s depth n = Some r → no_nul s → holds m i s → (n ≤ k)%nat → (depth ≤ kd)%nat →
  node_ok (within 0 i m) x xt →
  match r with
  | Failed w => document_loop x i kd k m = Ret (Threw w)
  | Read t _ => ∃ x' m', document_loop x i kd k m = Ret (Parsed x' m') ∧ node_ok (holds m') x' t ∧ length m' = length m
  end.
Proof.
  induction n as [|n IH]; [done|]. intros xt s r m i x depth kd k Hr Hs Hh Hk Hd Hx. destruct k as [|k]; [lia|]. cbn [document document_loop] in Hr |- *.
  destruct (skip_to whitespace_pred _ _ _ eq_refl Hs Hh) as (q & _ & Hq & Hh1 & Hs1 & ->). rewrite (get_then _ _ _ _ Hh1).
  destruct (drop_while whitespace_pred s) as [|c s']; cbn [hd].
  { injection Hr as <-. exists x, m. split_and!; [done| |done]. eapply node_mono; [|exact Hx]. by intros p u (_ & _ & ?). }
  rewrite (proj2 (Z.eqb_neq c 0)) by (apply no_nul_cons in Hs1; tauto). destruct (c =? ch "<"); [|by injection Hr as <-].
  apply holds_next in Hh1 as (Hh1 & Hs2 & _); [|done]. destruct (node _ s') as [r1|] eqn:En; [|done].
  eapply (node_run _ (λ text, parse_element text kd)) in En; [|done|exact Hh1|intros r2 Hr2; eapply element_run; [exact Hr2|done..]].
  destruct r1 as [ct rest|w]; [|injection Hr as <-; by rewrite (run_threw _ _ _ _ En)].
  destruct En as (child & j & m' & E & Hh2 & Hs3 & Hj & Hb & Hc). rewrite (run_then _ _ _ _ _ E).
  rewrite <- (proj1 Hb). eapply IH; [exact Hr|done|exact Hh2|lia|done|]. apply append_node_ok.
  - eapply node_mono; [|exact Hx]. intros p u. apply within_below; [done|lia|]. eapply same_below_le; [|exact Hb]. lia.
  - eapply child_mono; [|exact Hc]. intros p u. apply within_mono; [lia|done|done].
Qed.
End Parts.
(** The parser, at work on the [s] that ends with the first NUL of the memory, is the
    reference parser: it reads and writes inside the memory, terminates, throws what the
    reference throws, and its pointers lead to the reference's strings, each with a NUL behind it. *)
Theorem parse_in_place s m : no_nul s → holds m 0 s →
  match parse_text s with
  | Some (Read t _) => ∃ x m', parse m = Ret (Parsed x m') ∧ node_ok (holds m') x t ∧ length m' = length m
  | Some (Failed w) => parse m = Ret (Threw w)
  | None => False
  end.
Proof.
  intros Hs Hh. pose proof (parse_text_total s) as Ht. destruct (parse_text s) as [r|] eqn:E; [|done]. clear Ht.
  pose proof (holds_inside _ _ _ Hh) as Hlen. unfold parse, parse_bom.
  assert (matches 0 [239; 187; 191] m = Ret (Parsed (starts [239; 187; 191] s) m)) as Hm by (apply matches_run; [by apply (bool_decide_unpack _)|done]).
  set (i := if starts [239; 187; 191] s then 3%nat else 0%nat). assert (holds m i (without_bom s) ∧ no_nul (without_bom s)) as [Hh1 Hs1].
  { unfold without_bom, i. destruct (starts _ s) eqn:Eb; [|done]. apply starts_length in Eb. split; [by apply (holds_drop m 0)|by apply no_nul_drop]. }
  eapply (document_run _ _ _ _ m i (allocate_node node_document) _ (S (S (2 * length m))) (length m)) in E; [|done|done|lia|lia|by split].
  assert (∀ C (f : nat → parser C), ((text ← (b ← matches 0 [239; 187; 191]; mret (if (b : bool) then (0 + 3)%nat else 0%nat)); f text) m) = f i m) as ->.
  { intros C f. unfold mbind, parser_bind. rewrite Hm. unfold i. by destruct (starts _ s). }
  destruct r as [t rest|w]; exact E.
Qed.
