(* ===== verification/XmlPrint.v ===== *)
(** * XmlPrint: printing a document, and reading it back

    deps/rapidxml-1.13/rapidxml_print.hpp on trees of strings: [copy_chars] from a name with its
    size is the name.  The output iterator is the list of the bytes that are written. *)

From S2P Require Import Prelude CLib RapidXml XmlText.

(** ** Characters *)

Definition expand_char (noexpand c : Z) : list Z :=
  if c =? noexpand then [c]
  else if c =? ch "<" then str "&lt;"
  else if c =? ch ">" then str "&gt;"
  else if c =? ch "'" then str "&apos;"
  else if c =? 34 then str "&quot;"
  else if c =? ch "&" then str "&amp;" else [c].
Definition copy_and_expand_chars (noexpand : Z) (s : list Z) : list Z := flat_map (expand_char noexpand) s.
Definition find_char (c : Z) (s : list Z) : bool := existsb (Z.eqb c) s.

(** ** Nodes *)

Definition print_no_indenting : Z := 1.
Definition indents (flags : Z) : bool := Z.land flags print_no_indenting =? 0.
(** [fill_chars(out, indent, '\t')] and the line break, unless indenting is disabled. *)
Definition fill (flags : Z) (indent : nat) : list Z := if indents flags then repeat 9 indent else [].
Definition line_break (flags : Z) : list Z := if indents flags then [10] else [].

Definition print_attribute (a : list Z * list Z) : list Z :=
  str " " ++ a.1 ++ str "=" ++
  if find_char 34 a.2 then [39] ++ copy_and_expand_chars 34 a.2 ++ [39]
  else [34] ++ copy_and_expand_chars 39 a.2 ++ [34].
Definition print_attributes (l : list (list Z * list Z)) : list Z := flat_map print_attribute l.

Definition print_data_node (value : list Z) (flags : Z) (indent : nat) : list Z := fill flags indent ++ copy_and_expand_chars 0 value.
Definition print_cdata_node (value : list Z) (flags : Z) (indent : nat) : list Z := fill flags indent ++ str "<![CDATA[" ++ value ++ str "]]>".
Definition print_declaration_node (l : list (list Z * list Z)) (flags : Z) (indent : nat) : list Z :=
  fill flags indent ++ str "<?xml" ++ print_attributes l ++ str "?>".
Definition print_comment_node (value : list Z) (flags : Z) (indent : nat) : list Z := fill flags indent ++ str "<!--" ++ value ++ str "-->".
Definition print_doctype_node (value : list Z) (flags : Z) (indent : nat) : list Z := fill flags indent ++ str "<!DOCTYPE " ++ value ++ str ">".
Definition print_pi_node (name value : list Z) (flags : Z) (indent : nat) : list Z := fill flags indent ++ str "<?" ++ name ++ str " " ++ value ++ str "?>".
(** [children] prints the children at an indent. *)
Definition print_element_node (x : xml_tree) (children : nat → list Z) (flags : Z) (indent : nat) : list Z :=
  fill flags indent ++ str "<" ++ t_name x ++ print_attributes (t_attributes x) ++
  if bool_decide (t_value x = []) && bool_decide (t_nodes x = []) then str "/>"
  else
    str ">" ++
    match t_nodes x with
    | [] => copy_and_expand_chars 0 (t_value x)
    | child :: next =>
        if bool_decide (next = []) && bool_decide (t_kind child = node_data) then copy_and_expand_chars 0 (t_value child)
        else line_break flags ++ children (S indent) ++ fill flags indent
    end ++
    str "</" ++ t_name x ++ str ">".

Fixpoint print_node (flags : Z) (x : xml_tree) (indent : nat) : list Z :=
  let print_children indent := flat_map (λ child, print_node flags child indent) (t_nodes x) in
  match t_kind x with
  | node_document => print_children indent
  | node_element => print_element_node x print_children flags indent
  | node_data => print_data_node (t_value x) flags indent
  | node_cdata => print_cdata_node (t_value x) flags indent
  | node_comment => print_comment_node (t_value x) flags indent
  | node_declaration => print_declaration_node (t_attributes x) flags indent
  | node_doctype => print_doctype_node (t_value x) flags indent
  | node_pi => print_pi_node (t_name x) (t_value x) flags indent
  end ++ line_break flags.
Definition print (x : xml_tree) (flags : Z) : list Z := print_node flags x 0.

(** ** What can be read back

    A name that the parser reads as one, values without a NUL, and text as the only child
    of its element, where it is more than white space and is the value of the element. *)

Definition name_ok (pred : Z → bool) (name : list Z) : bool := negb (bool_decide (name = [])) && forallb pred name.
Definition attribute_printable (a : list Z * list Z) : bool := name_ok attribute_name_pred a.1 && bool_decide (0 ∉ a.2).
Definition text_printable (v : list Z) : bool := existsb (λ c, negb (whitespace_pred c)) v && bool_decide (0 ∉ v).
Definition is_data (x : xml_tree) : bool := bool_decide (t_kind x = node_data).
Fixpoint printable (x : xml_tree) : bool :=
  match x with
  | Tree node_element name value l nodes =>
      name_ok node_name_pred name && negb (one_of (str "?!") (hd 0 name)) && forallb attribute_printable l &&
      match nodes with
      | [Tree node_data [] v [] []] => text_printable v && bool_decide (value = v)
      | _ => bool_decide (value = []) && forallb printable nodes
      end
  | Tree node_cdata [] value [] [] => bool_decide (split_at (str "]]>") (value ++ str "]]>") = Some (value, str "]]>")) && bool_decide (0 ∉ value)
  | _ => false
  end.
Definition document_printable (x : xml_tree) : bool :=
  match x with Tree node_document [] [] [] nodes => forallb printable nodes | _ => false end.

(** ** Characters are read back *)

Section Characters.
Implicit Types (c noexpand : Z) (s v rest : list Z) (n : nat).

Lemma expand_char_cases noexpand c : expand_char noexpand c = [c] ∧ (c = noexpand ∨ c ∉ 34 :: str "<>'&") ∨
  ∃ w, expand_char noexpand c = ch "&" :: w ∧ starts (str "#") w = false ∧ ∀ rest, named (w ++ rest) = Some (c, length (expand_char noexpand c)).
Proof.
  unfold expand_char. destruct (Z.eqb_spec c noexpand); [left; by split; [|left]|].
  destruct (Z.eqb_spec c (ch "<")) as [->|]; [right; by eexists|]. destruct (Z.eqb_spec c (ch ">")) as [->|]; [right; by eexists|].
  destruct (Z.eqb_spec c (ch "'")) as [->|]; [right; by eexists|]. destruct (Z.eqb_spec c 34) as [->|]; [right; by eexists|].
  destruct (Z.eqb_spec c (ch "&")) as [->|]; [right; by eexists|]. left. split; [done|right].
  change (str "<>'&") with [ch "<"; ch ">"; ch "'"; ch "&"]. rewrite !not_elem_of_cons. split_and!; try done. apply not_elem_of_nil.
Qed.

Context (pred pure : Z → bool) (noexpand : Z).
Context (Hpure : ∀ c, pure c = true → pred c = true) (Hamp : pred (ch "&") = true) (Hstop : pure (ch "&") = false).
(** The characters that are copied are skipped by the parser. *)
Definition copied v : Prop := Forall (λ c, expand_char noexpand c = [c] → pure c = true) v.

Lemma expand_copied v rest : copied v → pred (hd 0 rest) = false → ∀ n, (length v < n)%nat →
  expand pred (copy_and_expand_chars noexpand v ++ rest) n = Some (Read v rest).
Proof using Hpure Hamp Hstop.
  intros Hv Hr. induction Hv as [|c v Hc Hv IH]; intros [|n] Hn; cbn [length] in Hn; try lia; cbn [copy_and_expand_chars flat_map].
  - cbn. destruct rest as [|x rest]; [done|]. cbn in Hr. by rewrite Hr.
  - rewrite <- app_assoc. change (flat_map (expand_char noexpand) v) with (copy_and_expand_chars noexpand v).
    destruct (expand_char_cases noexpand c) as [[E _]|(w & E & E1 & E2)].
    + rewrite E. cbn [app expand]. rewrite (Hpure _ (Hc E)). destruct (Z.eqb_spec c (ch "&")) as [->|_]; [by rewrite (Hc E) in Hstop|].
      by rewrite IH by lia.
    + rewrite E. cbn [app expand]. rewrite Hamp, Z.eqb_refl. assert (starts (str "#") (w ++ copy_and_expand_chars noexpand v ++ rest) = false) as ->.
      { change (str "#") with [ch "#"] in E1 |- *. rewrite starts_cons in E1 |- *. specialize (E2 []). rewrite app_nil_r in E2. destruct w as [|x w]; [by vm_compute in E2|]. cbn [app]. by rewrite !starts_nil in *. }
      rewrite E2, E. rewrite app_comm_cons, drop_app_length. by rewrite IH by lia.
Qed.
Lemma expand_refs_copied v rest : copied v → pred (hd 0 rest) = false → expand_refs pred pure (copy_and_expand_chars noexpand v ++ rest) = Some (Read v rest).
Proof using Hpure Hamp Hstop.
  intros Hv Hr. unfold expand_refs.
  assert (∀ n, (length v < n)%nat → emit (take_while pure (copy_and_expand_chars noexpand v ++ rest)) (expand pred (drop_while pure (copy_and_expand_chars noexpand v ++ rest)) n) = Some (Read v rest)) as H.
  { induction Hv as [|c v Hc Hv IH]; intros n Hn; cbn [length] in Hn.
    - assert (pure (hd 0 rest) = false) as E by (destruct (pure (hd 0 rest)) eqn:E; [apply Hpure in E; congruence|done]).
      cbn [copy_and_expand_chars flat_map app]. assert (take_while pure rest = [] ∧ drop_while pure rest = rest) as [-> ->].
      { destruct rest as [|x rest]; [done|]. cbn in E |- *. by rewrite E. }
      pose proof (expand_copied [] rest ltac:(constructor) Hr n Hn) as He. cbn [copy_and_expand_chars flat_map app] in He. by rewrite He.
    - destruct (expand_char_cases noexpand c) as [[E _]|(w & E & _)].
      + cbn [copy_and_expand_chars flat_map]. rewrite E. cbn [app take_while drop_while]. rewrite (Hc E). specialize (IH n ltac:(lia)).
        unfold copy_and_expand_chars in IH. unfold emit in IH |- *. destruct (expand pred _ n) as [[o s|x]|]; [|done|done]. cbn [and_then app] in IH |- *.
        injection IH as IH1 IH2. unfold give. by rewrite IH1, IH2.
      + assert (copied (c :: v)) as Hcv by by constructor. pose proof (expand_copied (c :: v) rest Hcv Hr n Hn) as He.
        cbn [copy_and_expand_chars flat_map] in He |- *. rewrite E in He |- *. cbn [app take_while drop_while] in He |- *. rewrite Hstop, He. done. }
  apply H. rewrite length_app. assert (length v ≤ length (copy_and_expand_chars noexpand v))%nat; [|lia]. clear.
  unfold copy_and_expand_chars. induction v as [|c v IH]; [done|]. cbn. rewrite length_app. destruct (expand_char_cases noexpand c) as [[E _]|(w & E & _)]; rewrite E; cbn; lia.
Qed.
End Characters.

(** ** Nodes are read back *)

Section Reading.
Implicit Types (name s v w rest : list Z) (n indent : nat) (x child : xml_tree).

Lemma scan_app pred a s : forallb pred a = true → pred (hd 0 s) = false → take_while pred (a ++ s) = a ∧ drop_while pred (a ++ s) = s.
Proof.
  intros Ha Hs. induction a as [|c a IH]; cbn in Ha |- *.
  - destruct s as [|c s]; [done|]. cbn in Hs |- *. by rewrite Hs.
  - apply andb_true_iff in Ha as [-> Ha]. by destruct (IH Ha) as [-> ->].
Qed.
Lemma scan_stop pred s : pred (hd 0 s) = false → drop_while pred s = s.
Proof. intros Hs. by apply (scan_app pred []). Qed.
Lemma white_fill flags indent : forallb whitespace_pred (fill flags indent) = true.
Proof. unfold fill. destruct (indents flags); [|done]. by induction indent. Qed.
Lemma white_line_break flags : forallb whitespace_pred (line_break flags) = true.
Proof. unfold line_break. by destruct (indents flags). Qed.
Lemma name_ok_spec pred name : name_ok pred name = true → name ≠ [] ∧ forallb pred name = true.
Proof. unfold name_ok. rewrite andb_true_iff, negb_true_iff, bool_decide_eq_false. done. Qed.
Lemma name_not_white pred c : (∀ c, c ∈ white → pred c = false) → pred c = true → whitespace_pred c = false.
Proof. intros Hp Hc. apply bool_decide_eq_false. intros Hw%Hp. congruence. Qed.
Lemma names_not_white c : (attribute_name_pred c = true → whitespace_pred c = false) ∧ (node_name_pred c = true → whitespace_pred c = false).
Proof.
  split; apply name_not_white; intros x Hx; (unfold attribute_name_pred, node_name_pred, one_of; rewrite bool_decide_true; [done|]);
    apply elem_of_cons; right; apply elem_of_app; by left.
Qed.

Lemma value_read quote noexpand v rest : (quote = 39 ∧ noexpand = 34) ∨ (quote = 34 ∧ noexpand = 39) → no_nul v →
  expand_refs (attribute_value_pred quote) (attribute_value_pure_pred quote) (copy_and_expand_chars noexpand v ++ quote :: rest) = Some (Read v (quote :: rest)).
Proof.
  intros Hq Hv. assert (∀ l c, negb (one_of l c) = true ↔ c ∉ l) as Hone by (intros l c; unfold one_of; rewrite negb_true_iff, bool_decide_eq_false; done).
  apply expand_refs_copied.
  - intros c. unfold attribute_value_pred, attribute_value_pure_pred. rewrite !Hone. intros Hc Hin. apply Hc. rewrite elem_of_cons in Hin |- *. rewrite list_elem_of_singleton in Hin.
    destruct Hin as [->|Hin]; [by left|right]. subst. by left.
  - by destruct Hq as [[-> ->]|[-> ->]].
  - by destruct Hq as [[-> ->]|[-> ->]].
  - apply Forall_forall. intros c Hc E. unfold attribute_value_pure_pred. apply Hone. assert (c ≠ 0) as H0 by by intros ->.
    destruct (expand_char_cases noexpand c) as [[_ Hcase]|(w & E' & _ & Hn)].
    + change (str "&") with [ch "&"]. rewrite !not_elem_of_cons. destruct Hcase as [->|Hcase].
      * destruct Hq as [[-> ->]|[-> ->]]; split_and!; try done; apply not_elem_of_nil.
      * change (str "<>'&") with [ch "<"; ch ">"; 39; ch "&"] in Hcase. rewrite !not_elem_of_cons in Hcase. destruct Hcase as (H1 & _ & _ & H2 & H3 & _).
        split_and!; [done| |done|apply not_elem_of_nil]. by destruct Hq as [[-> _]|[-> _]].
    + rewrite E in E'. injection E' as -> <-. specialize (Hn []). by vm_compute in Hn.
  - cbn. unfold attribute_value_pred, one_of. by rewrite bool_decide_true by (right; left).
Qed.
Lemma attributes_read l : forallb attribute_printable l = true → ∀ acc rest n, (length l < n)%nat → attribute_name_pred (hd 0 rest) = false → whitespace_pred (hd 0 rest) = false →
  attributes acc (drop_while whitespace_pred (print_attributes l ++ rest)) n = Some (Read (acc ++ l) rest).
Proof.
  induction l as [|[name v] l IH]; intros Hl acc rest [|n] Hn Hr Hw; cbn [length] in Hn; try lia.
  - cbn [print_attributes flat_map app]. rewrite scan_stop by done. cbn [attributes]. rewrite Hr. by rewrite app_nil_r.
  - cbn [forallb] in Hl. apply andb_true_iff in Hl as [Ha Hl]. unfold attribute_printable in Ha. cbn [fst snd] in Ha. apply andb_true_iff in Ha as [Hname Hv].
    apply bool_decide_eq_true in Hv. apply name_ok_spec in Hname as [Hne Hname].
    assert (∃ quote noexpand, ((quote = 39 ∧ noexpand = 34) ∨ (quote = 34 ∧ noexpand = 39)) ∧ print_attributes ((name, v) :: l) ++ rest =
      32 :: name ++ ch "=" :: quote :: copy_and_expand_chars noexpand v ++ quote :: print_attributes l ++ rest) as (quote & noexpand & Hq & ->).
    { cbn [print_attributes flat_map]. unfold print_attribute. cbn [fst snd]. destruct (find_char 34 v); [exists 39, 34|exists 34, 39]; (split; [tauto|]);
        change (str " ") with [32]; change (str "=") with [ch "="]; repeat (rewrite <- app_assoc || cbn [app]); done. }
    destruct name as [|c name]; [done|]. cbn [forallb] in Hname. apply andb_true_iff in Hname as [Hc Hname]. pose proof (proj1 (names_not_white c) Hc) as Hcw.
    change (drop_while whitespace_pred (32 :: (c :: name) ++ ?s)) with (drop_while whitespace_pred (c :: name ++ s)). rewrite scan_stop by done. cbn [attributes hd]. rewrite Hc.
    cbn [take_while drop_while]. rewrite Hc. destruct (scan_app attribute_name_pred name (ch "=" :: quote :: copy_and_expand_chars noexpand v ++ quote :: print_attributes l ++ rest) Hname eq_refl) as [-> ->].
    rewrite (scan_stop _ (ch "=" :: _)) by done. rewrite Z.eqb_refl. rewrite scan_stop by by destruct Hq as [[-> _]|[-> _]].
    assert (one_of [39; 34] quote = true) as -> by by destruct Hq as [[-> _]|[-> _]]. rewrite value_read by done. cbn [and_then]. rewrite Z.eqb_refl.
    rewrite IH by (done || lia). by rewrite <- app_assoc.
Qed.

(** What a node is read back from, behind its "<". *)
Definition readable flags x : Prop := ∀ indent, ∃ b, print_node flags x indent = fill flags indent ++ ch "<" :: b ++ line_break flags ∧
  b ≠ [] ∧ starts (str "/") b = false ∧ ∀ n rest, (2 * length (b ++ rest) < n)%nat → node (λ s, element s n) (b ++ rest) = Some (Read (Some x) rest).

Lemma closing_read x start name rest n : forallb node_name_pred name = true →
  contents x start (ch "<" :: ch "/" :: name ++ ch ">" :: rest) (S n) = Some (Read x rest).
Proof.
  intros Hn. cbn [contents]. rewrite Z.eqb_refl. change (starts (str "/") (ch "/" :: ?s)) with (starts (str "/") (ch "/" :: s)).
  change (str "/") with [ch "/"]. rewrite starts_cons, Z.eqb_refl, starts_nil. cbn [andb drop]. rewrite drop_0.
  destruct (scan_app node_name_pred name (ch ">" :: rest) Hn eq_refl) as [_ ->]. by rewrite scan_stop.
Qed.
Lemma contents_read flags nodes : Forall (readable flags) nodes → ∀ x w indent w' name rest n, forallb whitespace_pred w = true → forallb whitespace_pred w' = true →
  forallb node_name_pred name = true → let s := w ++ flat_map (λ c, print_node flags c indent) nodes ++ w' ++ ch "<" :: ch "/" :: name ++ ch ">" :: rest in
  (2 * length s < n)%nat → contents x s (drop_while whitespace_pred s) n = Some (Read (fold_left (λ x c, append c x) nodes x) rest).
Proof.
  induction 1 as [|c nodes Hc Hcs IH]; intros x w indent w' name rest [|n] Hw Hw' Hname s Hn; try lia.
  - assert (drop_while whitespace_pred s = ch "<" :: ch "/" :: name ++ ch ">" :: rest) as -> by (unfold s; cbn [flat_map app]; rewrite app_assoc; apply scan_app; [by rewrite forallb_app, Hw, Hw'|done]).
    by apply closing_read.
  - destruct (Hc indent) as (b & E & Hb & Hs & Hread).
    set (tail := line_break flags ++ flat_map (λ c, print_node flags c indent) nodes ++ w' ++ ch "<" :: ch "/" :: name ++ ch ">" :: rest).
    assert (s = (w ++ fill flags indent) ++ ch "<" :: b ++ tail) as Es.
    { unfold s, tail. cbn [flat_map]. rewrite E. by repeat (rewrite <- app_assoc || cbn [app]). }
    assert (drop_while whitespace_pred s = ch "<" :: b ++ tail) as -> by (rewrite Es; apply scan_app; [by rewrite forallb_app, Hw, white_fill|done]).
    cbn [contents]. rewrite Z.eqb_refl. assert (starts (str "/") (b ++ tail) = false) as ->.
    { change (str "/") with [ch "/"] in Hs |- *. rewrite starts_cons in Hs |- *. by destruct b. }
    assert (length s = length (w ++ fill flags indent) + S (length (b ++ tail)))%nat as Hlen by (rewrite Es, length_app; cbn [length]; lia).
    rewrite Hread by lia. cbn [and_then append_opt fold_left]. apply IH; [apply white_line_break|done|done|]. fold tail. rewrite length_app in Hlen. rewrite length_app in Hlen. lia.
Qed.

Lemma attributes_length l : (length l ≤ length (print_attributes l))%nat.
Proof.
  unfold print_attributes. induction l as [|a l IH]; [done|]. cbn [flat_map length]. rewrite length_app.
  assert (1 ≤ length (print_attribute a))%nat; [|lia]. unfold print_attribute. rewrite length_app. cbn [length str]. apply Nat.le_add_r.
Qed.
Lemma element_read name l c s n : name_ok node_name_pred name = true → forallb attribute_printable l = true → c = ch ">" ∨ c = ch "/" →
  element (name ++ print_attributes l ++ c :: s) (S n) =
    let x := Tree node_element name [] l [] in
    if c =? ch ">" then and_then (contents x s (drop_while whitespace_pred s) n) (λ x s, give (Some x) s)
    else match s with c :: s => if c =? ch ">" then give (Some x) s else fail (str "expected >") | [] => fail (str "expected >") end.
Proof.
  intros [Hne Hname]%name_ok_spec Hl Hc. cbn [element].
  assert (node_name_pred (hd 0 (print_attributes l ++ c :: s)) = false) as Hend by (destruct l; [by destruct Hc as [-> | ->]|done]).
  destruct (scan_app node_name_pred name (print_attributes l ++ c :: s) Hname Hend) as [-> ->]. rewrite bool_decide_eq_false_2 by done.
  rewrite attributes_read; [|done| |by destruct Hc as [-> | ->]..].
  - cbn [and_then app]. by destruct Hc as [-> | ->].
  - pose proof (attributes_length l). rewrite !length_app. lia.
Qed.

Lemma one_of_cons (d : Z) l c : one_of (d :: l) c = (c =? d) || one_of l c.
Proof.
  unfold one_of. destruct (Z.eqb_spec c d) as [->|Hne]; cbn [orb]; [by apply bool_decide_eq_true_2; left|].
  apply bool_decide_ext. rewrite elem_of_cons. tauto.
Qed.
Lemma text_preds c : text_pure_no_ws_pred c = negb ((c =? 0) || (c =? ch "&") || (c =? ch "<")) ∧ text_pred c = negb ((c =? 0) || (c =? ch "<")).
Proof.
  unfold text_pure_no_ws_pred, text_pred. change (str "&<") with [ch "&"; ch "<"]. change (str "<") with [ch "<"]. rewrite !one_of_cons.
  change (one_of [] c) with false. by rewrite !orb_false_r, orb_assoc.
Qed.
(** Text between the tags. *)
Lemma text_begins v s : text_printable v = true → ∃ c s', drop_while whitespace_pred (copy_and_expand_chars 0 v ++ s) = c :: s' ∧ c ≠ ch "<" ∧ c ≠ 0.
Proof.
  unfold text_printable. rewrite andb_true_iff, bool_decide_eq_true. intros [He Hv]. induction v as [|c v IH]; [done|].
  apply not_elem_of_cons in Hv as [Hc Hv]. cbn [existsb copy_and_expand_chars flat_map] in He |- *. rewrite <- app_assoc.
  destruct (expand_char_cases 0 c) as [[-> Hcase]|(w & -> & _)]; [|by eexists _, _; split; [reflexivity|]]. cbn [app drop_while].
  destruct (whitespace_pred c); [by apply IH|]. exists c. eexists. split; [done|]. split; [|done]. destruct Hcase as [->|Hcase]; [done|].
  intros ->. apply Hcase. right. left.
Qed.
Lemma text_read x v name rest n : text_printable v = true → forallb node_name_pred name = true → let s := copy_and_expand_chars 0 v ++ ch "<" :: ch "/" :: name ++ ch ">" :: rest in
  contents x s (drop_while whitespace_pred s) (S (S n)) = Some (Read (append_data v x) rest).
Proof.
  intros Hv Hname s. destruct (text_begins v (ch "<" :: ch "/" :: name ++ ch ">" :: rest) Hv) as (c & s' & E & Hlt & H0). fold s in E. rewrite E.
  set (k := S n). cbn [contents]. rewrite (proj2 (Z.eqb_neq c (ch "<"))), (proj2 (Z.eqb_neq c 0)) by done. unfold s at 1. rewrite expand_refs_copied; [by apply (closing_read _ _ _ _ n)| | | | |done].
  - intros y. destruct (text_preds y) as [-> ->]. by destruct (y =? 0), (y =? ch "&"), (y =? ch "<").
  - done.
  - done.
  - apply andb_true_iff in Hv as [_ Hv%bool_decide_eq_true]. apply Forall_forall. intros y Hy Ey. destruct (text_preds y) as [-> _].
    assert (y ≠ 0) as Hy0 by by intros ->. destruct (expand_char_cases 0 y) as [[_ [->|Hcase]]|(w & Ew & _ & Hn)]; [done| |].
    + rewrite (proj2 (Z.eqb_neq y 0)) by done. rewrite (proj2 (Z.eqb_neq y _)) by (intros ->; apply Hcase; by repeat (left || right)).
      by rewrite (proj2 (Z.eqb_neq y _)) by (intros ->; apply Hcase; by repeat (left || right)).
    + rewrite Ey in Ew. injection Ew as -> <-. specialize (Hn []). by vm_compute in Hn.
Qed.

Lemma split_at_eq w s : split_at w s = if starts w s then Some ([], s) else match s with [] => None | c :: s => '(a, r) ← split_at w s; Some (c :: a, r) end.
Proof. by destruct s. Qed.
Lemma split_at_more w a rest : split_at w (a ++ w) = Some (a, w) → split_at w (a ++ w ++ rest) = Some (a, w ++ rest).
Proof.
  assert (∀ s, (length w ≤ length s)%nat → starts w (s ++ rest) = starts w s) as Hmore by (intros s Hs; unfold starts; by rewrite take_app_le).
  induction a as [|c a IH]; cbn [app]; rewrite split_at_eq.
  - rewrite (split_at_eq _ (w ++ rest)), Hmore by done. destruct (starts w w) eqn:E; [done|]. unfold starts in E. rewrite take_ge in E by done. by rewrite bool_decide_eq_true_2 in E.
  - destruct (starts w (c :: a ++ w)) eqn:E; [by intros [=]|]. destruct (split_at w (a ++ w)) as [[a' r']|] eqn:Ea; [|done]. intros [= -> ->].
    rewrite (split_at_eq _ (c :: a ++ w ++ rest)). assert (c :: a ++ w ++ rest = (c :: a ++ w) ++ rest) as Eq by (cbn; by rewrite app_assoc).
    rewrite Eq, Hmore, E by (cbn; rewrite length_app; lia). by rewrite IH.
Qed.

Lemma printable_cases x : printable x = true →
  (∃ value, x = leaf node_cdata value ∧ split_at (str "]]>") (value ++ str "]]>") = Some (value, str "]]>") ∧ no_nul value) ∨
  (∃ name value l nodes, x = Tree node_element name value l nodes ∧ name_ok node_name_pred name = true ∧ one_of (str "?!") (hd 0 name) = false ∧
    forallb attribute_printable l = true ∧
    ((nodes = [leaf node_data value] ∧ text_printable value = true) ∨ (value = [] ∧ forallb printable nodes = true))).
Proof.
  destruct x as [[] name value l nodes]; try done; cbn [printable]; intros Hp.
  - right. exists name, value, l, nodes. split; [done|]. rewrite !andb_true_iff, negb_true_iff in Hp. destruct Hp as [[[H1 H2] H3] H4]. split_and!; [done..|].
    assert (bool_decide (value = []) && forallb printable nodes = true → value = [] ∧ forallb printable nodes = true) as Hgen by by rewrite andb_true_iff, bool_decide_eq_true.
    repeat case_match; try (right; apply Hgen; exact H4). left. apply andb_true_iff in H4 as [H4 E%bool_decide_eq_true]. by subst.
  - left. destruct name, l, nodes; try done. exists value. by rewrite andb_true_iff, !bool_decide_eq_true in Hp.
Qed.
Lemma cdata_readable flags value : split_at (str "]]>") (value ++ str "]]>") = Some (value, str "]]>") → readable flags (leaf node_cdata value).
Proof.
  intros Hv indent. exists (str "![CDATA[" ++ value ++ str "]]>"). split_and!; [|done|done|].
  - unfold leaf. cbn [print_node t_kind t_value]. unfold print_cdata_node. repeat (rewrite <- app_assoc || cbn [app]). done.
  - intros n rest _. change (upto (str "]]>") ((value ++ str "]]>") ++ rest) (λ v, Some (leaf node_cdata v)) = give (Some (leaf node_cdata value)) rest).
    unfold upto. rewrite <- (app_assoc value), split_at_more by done. done.
Qed.
Lemma fold_append nodes x : fold_left (λ x c, append c x) nodes x = Tree (t_kind x) (t_name x) (t_value x) (t_attributes x) (t_nodes x ++ nodes).
Proof. revert x. induction nodes as [|c nodes IH]; intros x; cbn; [rewrite app_nil_r; by destruct x|]. rewrite IH. cbn. by rewrite <- app_assoc. Qed.
Lemma node_element_read elem name s : name ≠ [] → one_of (str "?!") (hd 0 name) = false → node elem (name ++ s) = elem (name ++ s).
Proof.
  intros Hne Hn. destruct name as [|c name]; [done|]. cbn [hd] in Hn. change (str "?!") with [ch "?"; ch "!"] in Hn. rewrite !one_of_cons in Hn.
  cbn [app node]. by destruct (c =? ch "?"), (c =? ch "!").
Qed.

(** What is between the tags, and what the element becomes of it. *)
Lemma inner_read flags name value l nodes indent : forallb node_name_pred name = true →
  (nodes = [leaf node_data value] ∧ text_printable value = true) ∨ (value = [] ∧ forallb printable nodes = true ∧ Forall (readable flags) nodes) →
  let x := Tree node_element name value l nodes in
  (value = [] ∧ nodes = []) ∨
  ∃ inner, print_element_node x (λ i, flat_map (λ c, print_node flags c i) nodes) flags indent =
      fill flags indent ++ str "<" ++ name ++ print_attributes l ++ ch ">" :: inner ++ ch "<" :: ch "/" :: name ++ [ch ">"] ∧
    ∀ n rest, let s := inner ++ ch "<" :: ch "/" :: name ++ ch ">" :: rest in (2 * length s < n)%nat →
      contents (Tree node_element name [] l []) s (drop_while whitespace_pred s) n = Some (Read x rest).
Proof.
  intros Hname Hnodes x. unfold print_element_node, x. cbn [t_name t_attributes t_value t_nodes].
  destruct Hnodes as [[-> Hv]|(-> & Hp & Hr)].
  - right. exists (copy_and_expand_chars 0 value). split.
    + rewrite (bool_decide_eq_false_2 ([_] = [])), andb_false_r by done. change (bool_decide _ && bool_decide (t_kind _ = _)) with true. cbn iota. by repeat (rewrite <- app_assoc || cbn [app]).
    + intros [|[|n]] rest; cbn zeta; intros Hn; [lia|rewrite length_app in Hn; cbn [length] in Hn; lia|]. rewrite (text_read (Tree node_element name [] l []) value) by done. done.
  - destruct nodes as [|child next]; [by left|right]. set (nodes := child :: next) in *.
    exists (line_break flags ++ flat_map (λ c, print_node flags c (S indent)) nodes ++ fill flags indent). split.
    + rewrite (bool_decide_eq_false_2 (nodes = [])), andb_false_r by done. assert (bool_decide (next = []) && bool_decide (t_kind child = node_data) = false) as ->.
      { apply andb_false_iff. right. apply bool_decide_eq_false. cbn in Hp. apply andb_true_iff in Hp as [Hp _]. destruct (printable_cases _ Hp) as [(v & -> & _)|(? & ? & ? & ? & -> & _)]; done. }
      by repeat (rewrite <- app_assoc || cbn [app]).
    + intros n rest. rewrite <- !(app_assoc (line_break flags)), <- !(app_assoc (flat_map _ _)). intros Hn.
      rewrite (contents_read flags nodes Hr) by (done || apply white_line_break || apply white_fill). by rewrite fold_append.
Qed.
Lemma element_readable flags name value l nodes : name_ok node_name_pred name = true → one_of (str "?!") (hd 0 name) = false → forallb attribute_printable l = true →
  (nodes = [leaf node_data value] ∧ text_printable value = true) ∨ (value = [] ∧ forallb printable nodes = true ∧ Forall (readable flags) nodes) →
  readable flags (Tree node_element name value l nodes).
Proof.
  intros Hn H1 Hl Hnodes indent. destruct (name_ok_spec _ _ Hn) as [Hne Hname].
  assert (∀ s, starts (str "/") (name ++ s) = false) as Hslash.
  { intros s. change (str "/") with [ch "/"]. destruct name as [|c name]; [done|]. cbn [app]. rewrite starts_cons. cbn in Hname. apply andb_true_iff in Hname as [Hc _].
    destruct (Z.eqb_spec c (ch "/")) as [->|_]; [by vm_compute in Hc|done]. }
  destruct (inner_read flags name value l nodes indent Hname Hnodes) as [[-> ->]|(inner & E & Hread)].
  - exists (name ++ print_attributes l ++ str "/>"). split_and!; [|by destruct name|done|].
    + cbn [print_node t_kind]. unfold print_element_node. cbn [t_name t_attributes t_value t_nodes]. change (bool_decide _ && bool_decide _) with true. by repeat (rewrite <- app_assoc || cbn [app]).
    + intros [|n] rest Hlen; [lia|]. rewrite <- !app_assoc. rewrite node_element_read by done. change (str "/>" ++ rest) with (ch "/" :: ch ">" :: rest). rewrite element_read by tauto. done.
  - exists (name ++ print_attributes l ++ ch ">" :: inner ++ ch "<" :: ch "/" :: name ++ [ch ">"]). split_and!; [|by destruct name|done|].
    + cbn [print_node t_kind t_nodes]. rewrite E. by repeat (rewrite <- app_assoc || cbn [app]).
    + intros [|n] rest Hlen; [lia|]. repeat (rewrite <- app_assoc in Hlen |- * || cbn [app] in Hlen |- *). rewrite node_element_read by done. rewrite element_read by tauto. cbn zeta. rewrite Z.eqb_refl.
      rewrite Hread; [done|]. rewrite !length_app in Hlen. cbn [length] in Hlen. destruct name; [done|]. cbn [length] in Hlen. rewrite !length_app in Hlen |- *. cbn [length] in Hlen |- *. rewrite !length_app in Hlen |- *. cbn [length] in Hlen |- *. lia.
Qed.
Lemma tree_induction (P : xml_tree → Prop) : (∀ k name value l nodes, Forall P nodes → P (Tree k name value l nodes)) → ∀ x, P x.
Proof. intros Hstep. fix IH 1. intros [k name value l nodes]. apply Hstep. induction nodes as [|c nodes IHn]; constructor; [apply IH|apply IHn]. Qed.
Lemma printable_readable flags x : printable x = true → readable flags x.
Proof.
  induction x as [k name value l nodes IH] using tree_induction. intros Hp.
  destruct (printable_cases _ Hp) as [(v & [= -> -> -> -> ->] & Hv & _)|(name' & value' & l' & nodes' & [= -> -> -> -> ->] & Hn & H1 & Hl & Hnodes)]; [by apply cdata_readable|].
  apply element_readable; [done..|]. destruct Hnodes as [?|[-> Hnodes]]; [by left|right]. split_and!; [done|done|].
  rewrite forallb_forall in Hnodes. apply Forall_forall. intros c Hc. eapply Forall_forall in IH; [|exact Hc]. apply IH, Hnodes. by apply list_elem_of_In.
Qed.

Lemma document_read flags nodes : Forall (readable flags) nodes → ∀ x w indent w' depth n, forallb whitespace_pred w = true → forallb whitespace_pred w' = true →
  let s := w ++ flat_map (λ c, print_node flags c indent) nodes ++ w' in (length s < n)%nat → (2 * length s < depth)%nat →
  document x s depth n = Some (Read (fold_left (λ x c, append c x) nodes x) []).
Proof.
  induction 1 as [|c nodes Hc Hcs IH]; intros x w indent w' depth [|n] Hw Hw' s Hn Hd; try lia; cbn [document].
  - assert (drop_while whitespace_pred s = []) as ->; [|done]. unfold s. cbn [flat_map app]. rewrite <- (app_nil_r (w ++ w')). apply scan_app; [by rewrite forallb_app, Hw, Hw'|done].
  - destruct (Hc indent) as (b & E & _ & _ & Hread). set (tail := line_break flags ++ flat_map (λ c, print_node flags c indent) nodes ++ w').
    assert (s = (w ++ fill flags indent) ++ ch "<" :: b ++ tail) as Es.
    { unfold s, tail. cbn [flat_map]. rewrite E. by repeat (rewrite <- app_assoc || cbn [app]). }
    assert (drop_while whitespace_pred s = ch "<" :: b ++ tail) as -> by (rewrite Es; apply scan_app; [by rewrite forallb_app, Hw, white_fill|done]).
    assert (length s = length (w ++ fill flags indent) + S (length (b ++ tail)))%nat as Hlen by (rewrite Es, length_app; cbn [length]; lia).
    rewrite Z.eqb_refl, Hread by lia. cbn [and_then append_opt fold_left]. rewrite (length_app b) in Hlen.
    apply IH; [apply white_line_break|done|change (length tail < n)%nat; lia|change (2 * length tail < depth)%nat; lia].
Qed.
End Reading.

(** ** What is printed has no NUL *)

Definition clean s : Prop := Forall (λ c, c ≠ 0) s.
Lemma clean_no_nul s : clean s ↔ no_nul s.
Proof. unfold clean, no_nul. rewrite Forall_forall. split; [intros H H0; by apply (H 0)|intros H c Hc ->; done]. Qed.
Lemma clean_name pred name : pred 0 = false → forallb pred name = true → clean name.
Proof. intros H0 Hn. apply Forall_forall. intros c Hc ->. rewrite forallb_forall in Hn. rewrite Hn in H0; [done|]. by apply list_elem_of_In. Qed.
Lemma clean_flat_map {A} (f : A → list Z) l : Forall (λ a, clean (f a)) l → clean (flat_map f l).
Proof. induction 1 as [|a l Ha Hl IH]; [constructor|]. cbn. by apply Forall_app. Qed.
Lemma clean_str a : bool_decide (0 ∉ a) = true → clean a.
Proof. intros H%bool_decide_eq_true. by apply clean_no_nul. Qed.
Lemma clean_copy noexpand v : clean v → clean (copy_and_expand_chars noexpand v).
Proof.
  intros Hv. apply clean_flat_map. eapply Forall_impl; [exact Hv|]. intros c Hc. unfold expand_char. repeat case_match; by repeat constructor.
Qed.
Lemma clean_fill flags indent : clean (fill flags indent) ∧ clean (line_break flags).
Proof. unfold fill, line_break. destruct (indents flags); split; repeat constructor; [|done]. induction indent; by constructor. Qed.
Lemma clean_attributes l : forallb attribute_printable l = true → clean (print_attributes l).
Proof.
  intros Hl. apply clean_flat_map, Forall_forall. intros [name v] Ha. rewrite forallb_forall in Hl. apply list_elem_of_In, Hl in Ha. unfold attribute_printable in Ha.
  cbn [fst snd] in Ha. apply andb_true_iff in Ha as [[_ Hn]%name_ok_spec Hv]. apply clean_str in Hv. pose proof (clean_name _ _ eq_refl Hn) as Hc.
  unfold print_attribute. cbn [fst snd]. pose proof (λ ne, clean_copy ne v Hv) as Hcopy. unfold clean in *. rewrite !Forall_app. split_and!; [by repeat constructor|done|by repeat constructor|].
  destruct (find_char 34 v); rewrite !Forall_app; split_and!; try by repeat constructor.
Qed.
Lemma clean_node flags x : printable x = true → ∀ indent, clean (print_node flags x indent).
Proof.
  induction x as [k name value l nodes IH] using tree_induction. intros Hp indent. pose proof (clean_fill flags) as Hfill. unfold clean in *.
  destruct (printable_cases _ Hp) as [(v & [= -> -> -> -> ->] & _ & Hv)|(name' & value' & l' & nodes' & [= -> -> -> -> ->] & Hn & _ & Hl & Hnodes)].
  - apply clean_no_nul in Hv. unfold clean in Hv. cbn [print_node t_kind t_value]. unfold print_cdata_node. rewrite !Forall_app. split_and!; (apply (Hfill indent) || done || by apply clean_str).
  - apply name_ok_spec in Hn as [_ Hn]. pose proof (clean_name _ _ eq_refl Hn) as Hname. pose proof (clean_attributes _ Hl) as Ha. unfold clean in *.
    cbn [print_node t_kind t_nodes]. unfold print_element_node. cbn [t_name t_attributes t_value t_nodes]. rewrite !Forall_app. split_and!; try (apply (Hfill indent) || done || by apply clean_str).
    destruct (bool_decide (value' = []) && _) eqn:Eb; [by apply clean_str|]. rewrite !Forall_app. split_and!; try (done || by apply clean_str).
    destruct Hnodes as [[-> Hv]|[-> Hnodes]].
    + apply andb_true_iff in Hv as [_ Hv]. by apply clean_copy, clean_str.
    + assert (∀ i, Forall (λ c, c ≠ 0) (flat_map (λ c, print_node flags c i) nodes')) as Hkids.
      { intros i. apply clean_flat_map. rewrite forallb_forall in Hnodes. eapply Forall_impl; [apply Forall_and; split; [exact IH|apply Forall_forall; intros c Hc; by apply Hnodes, list_elem_of_In]|].
        cbn. intros c [H1 H2]. by apply H1. }
      destruct nodes' as [|child next]; [by constructor|]. destruct (bool_decide (next = []) && _) eqn:Ed.
      * apply andb_true_iff in Ed as [_ Ed%bool_decide_eq_true]. cbn in Hnodes. apply andb_true_iff in Hnodes as [Hc _].
        destruct (printable_cases _ Hc) as [(v & -> & _)|(? & ? & ? & ? & -> & _)]; done.
      * rewrite !Forall_app. split_and!; try apply (Hfill indent). apply Hkids.
Qed.

(** What is printed, with or without indentation, is read back as the same document, where
    text stands alone in its element. *)
Lemma print_no_nul x flags : document_printable x = true → no_nul (print x flags).
Proof.
  destruct x as [[] [] [] [] nodes]; try done. cbn [document_printable]. intros Hp. apply clean_no_nul. unfold print. cbn [print_node t_kind t_nodes]. apply Forall_app.
  split; [|apply (clean_fill flags 0)]. apply clean_flat_map, Forall_forall. intros c Hc. rewrite forallb_forall in Hp. by apply clean_node, Hp, list_elem_of_In.
Qed.
Lemma print_read x flags : document_printable x = true → parse_text (print x flags) = Some (Read x []).
Proof.
  destruct x as [[] [] [] [] nodes]; try done. cbn [document_printable]. intros Hp.
  assert (Forall (readable flags) nodes) as Hr.
  { rewrite forallb_forall in Hp. apply Forall_forall. intros c Hc. by apply printable_readable, Hp, list_elem_of_In. }
  unfold print. cbn [print_node t_kind t_nodes]. set (s := flat_map _ nodes ++ line_break flags). unfold parse_text.
  assert (without_bom s = s) as ->.
  { assert (hd 0 s ≠ 239) as Hs.
    { unfold s. destruct Hr as [|c nodes Hc Hcs]; [unfold line_break; by destruct (indents flags)|]. destruct (Hc 0%nat) as (b & E & _). cbn [flat_map]. rewrite E.
      unfold fill. by destruct (indents flags). }
    unfold without_bom. rewrite starts_cons. destruct s as [|c s']; [done|]. cbn in Hs. by rewrite (proj2 (Z.eqb_neq c 239)). }
  unfold s. rewrite (document_read flags nodes Hr (leaf node_document []) [] 0 (line_break flags)); cbn [app]; [by rewrite fold_append|done|apply white_line_break|lia|lia].
Qed.
