(* ===== verification/Registry.v ===== *)
(** Registry (tools/Registry.cpp), the configuration store, and its loading from an XML
    document: XmlParser::makeRegistry (xml/XmlParser.cpp) and Config::loadconf
    (config/Config.cpp).  The float and double overloads are left out. *)

From S2P Require Import Prelude CLib Strings.

(** ** The store: [unordered_map<string, string>] *)

Abbreviation Registry := (gmap (list Z) (list Z)).

(** [insert(std::make_pair(key, value)).second]: a key that is present keeps its value. *)
Definition setValue (key value : list Z) (r : Registry) : bool * Registry :=
  match r !! c_str key with
  | Some _ => (false, r)
  | None => (true, <[c_str key := c_str value]> r)
  end.

(** [SET_VALUE]: [snprintf] into [char buf[1024]]. *)
Definition SET_VALUE (key text : list Z) (r : Registry) : bool * Registry :=
  setValue key (take 1023 text) r.

Definition set_bool key (b : bool) := SET_VALUE key (if b then str "true" else str "false").
Definition set_u8 key (v : Z) := SET_VALUE key (dec v).
Definition set_u16 key (v : Z) := SET_VALUE key (dec v).
Definition set_u32 key (v : Z) := SET_VALUE key (dec v).
Definition set_u64 key (v : Z) := SET_VALUE key (dec v).
Definition set_s8 key (v : Z) := SET_VALUE key (dec_int v).
Definition set_s16 key (v : Z) := SET_VALUE key (dec_int v).
Definition set_s32 key (v : Z) := SET_VALUE key (dec_int v).
Definition set_s64 key (v : Z) := SET_VALUE key (dec_int v).
Definition set_charp key (v : list Z) := SET_VALUE key (c_str v).
Definition set_const_charp key (v : list Z) := SET_VALUE key (c_str v).
Definition set_string key (v : list Z) := SET_VALUE key (c_str v).
Definition set_const_string key (v : list Z) := SET_VALUE key (c_str v).

Definition getValue (key : list Z) (r : Registry) : option (list Z) := r !! c_str key.

(** [value ? conversion(value) : defaultValue] *)
Definition get_with {A} (conv : list Z → A) (key : list Z) (defaultValue : A) (r : Registry) : A :=
  match getValue key r with Some value => conv value | None => defaultValue end.

Definition get_bool : list Z → bool → Registry → bool := get_with (λ v, strcaseeq v (str "true")).
Definition get_u8 : list Z → Z → Registry → Z := get_with (λ v, u8 (strtoul v)).
Definition get_u16 : list Z → Z → Registry → Z := get_with (λ v, u16 (strtoul v)).
Definition get_u32 : list Z → Z → Registry → Z := get_with (λ v, u32 (strtoul v)).
Definition get_u64 : list Z → Z → Registry → Z := get_with strtoul.
Definition get_s8 : list Z → Z → Registry → Z := get_with (λ v, s8 (strtol v)).
Definition get_s16 : list Z → Z → Registry → Z := get_with (λ v, s16 (strtol v)).
Definition get_s32 : list Z → Z → Registry → Z := get_with (λ v, s32 (strtol v)).
Definition get_s64 : list Z → Z → Registry → Z := get_with strtol.
Definition get_charp : list Z → list Z → Registry → list Z := get_with id.
Definition get_const_charp : list Z → list Z → Registry → list Z := get_with id.

Definition findKey (key : list Z) (r : Registry) : bool :=
  match r !! c_str key with Some _ => true | None => false end.
Definition removeKey (key : list Z) (r : Registry) : Registry := delete (c_str key) r.
Definition clear (r : Registry) : Registry := ∅.

(** ** From an XML document

    A rapidxml node as the code walks it: tag, attributes, [first_node()] and
    [next_sibling()].  XmlParser.cpp:20 frees the text that a document points into; the tree
    here is what the parser found in it. *)
Inductive xml :=
| Null
| Node (tag : list Z) (attrs : list (list Z * list Z)) (child next : xml).

(** [snprintf(buf, sizeof(buf), "%s.%s.%s", ...)], or ["%s.%s"] without a name. *)
Definition attr_key (name tag attr : list Z) : list Z :=
  take 1023 (if decide (name = []) then c_str tag ++ str "." ++ c_str attr
             else c_str name ++ str "." ++ c_str tag ++ str "." ++ c_str attr).
Definition add_attr (name tag : list Z) (r : Registry) (attr : list Z * list Z) : Registry :=
  snd (set_charp (attr_key name tag (fst attr)) (snd attr) r).

(** The [name] the children get. *)
Definition child_name (is_root : bool) (name tag : list Z) : list Z :=
  if is_root then [] else if decide (name = []) then c_str tag else name ++ str "." ++ c_str tag.

(** [makeRegistry(registry, xmlNode, name)]; no node but the first of the document is
    [getRootNode()]. *)
Fixpoint makeNode (is_root : bool) (name : list Z) (xmlNode : xml) (r : Registry) : Registry :=
  match xmlNode with
  | Null => r
  | Node tag attrs child next =>
      let r := fold_left (add_attr name tag) attrs r in
      let r := makeNode false (child_name is_root name tag) child r in
      makeNode false name next r
  end.
Definition makeRegistry (doc : xml) (prefix : list Z) (r : Registry) : Registry :=
  makeNode true prefix doc r.

(** [Config::loadconf]: [None] is a file that cannot be read or parsed. *)
Definition loadconf (doc : option xml) (r : Registry) : bool * Registry :=
  match doc with
  | None => (false, r)
  | Some doc => (true, makeRegistry doc [] (clear r))
  end.

(** ** What is stored is read back *)

Lemma dec_as_int z : 0 ≤ z → dec z = dec_int z.
Proof. intros. unfold dec_int. destruct (Z.ltb_spec z 0); [lia|done]. Qed.

Lemma take_no_nul n s : no_nul s → no_nul (take n s).
Proof. unfold no_nul. intros Hs Hin. apply Hs. rewrite <-(take_drop n s). apply elem_of_app. by left. Qed.

(** A get after a set of a new key converts what fits in the buffer. *)
Lemma get_set {A} (conv : list Z → A) key text d r : findKey key r = false → no_nul text →
  get_with conv key d (snd (SET_VALUE key text r)) = conv (take 1023 text).
Proof.
  unfold get_with, getValue, SET_VALUE, setValue, findKey. intros Hk Ht.
  destruct (r !! c_str key); [done|]. simpl. rewrite lookup_insert_eq.
  by rewrite c_str_id by by apply take_no_nul.
Qed.

Lemma get_set_int {A} (conv : list Z → A) key z d r : findKey key r = false → sfits 64 z →
  get_with conv key d (snd (SET_VALUE key (dec_int z) r)) = conv (dec_int z).
Proof.
  intros Hk Hz. rewrite get_set by (done || apply dec_int_no_nul).
  rewrite take_ge; [done|]. pose proof (dec_int_length z Hz). lia.
Qed.

Lemma get_set_nat {A} (conv : list Z → A) key z d r : findKey key r = false → fits 64 z →
  get_with conv key d (snd (SET_VALUE key (dec z) r)) = conv (dec z).
Proof.
  intros Hk Hz. unfold fits in Hz. rewrite get_set; [|done|rewrite dec_as_int by lia; apply dec_int_no_nul].
  rewrite take_ge; [done|]. pose proof (dec_length z Hz). lia.
Qed.

Lemma strtol_dec_int z : sfits 64 z → strtol (dec_int z) = z.
Proof.
  intros Hz. unfold strtol, clamp. rewrite <-(app_nil_r (dec_int z)), strtol10_dec_int by done.
  unfold sfits in Hz. simpl in *. lia.
Qed.

Lemma strtoul_dec z : fits 64 z → strtoul (dec z) = z.
Proof.
  intros Hz. destruct Hz as [H1 H2]. unfold strtoul. rewrite dec_as_int by lia.
  rewrite <-(app_nil_r (dec_int z)), strtol10_dec_int by done. change (default 0 (Some z)) with z.
  destruct (Z.leb_spec (2 ^ 64) (Z.abs z)); [lia|]. by apply wrap_id.
Qed.

Lemma strcaseeq_bool (b : bool) : strcaseeq (if b then str "true" else str "false") (str "true") = b.
Proof. by destruct b. Qed.

Lemma fits_64 w z : 0 ≤ w ≤ 64 → fits w z → fits 64 z.
Proof. unfold fits. intros Hw Hz. pose proof (Z.pow_le_mono_r 2 w 64 ltac:(lia) ltac:(lia)). lia. Qed.

Lemma sfits_64 w z : 0 < w ≤ 64 → sfits w z → sfits 64 z.
Proof.
  unfold sfits. intros Hw Hz. pose proof (Z.pow_le_mono_r 2 (w - 1) (64 - 1) ltac:(lia) ltac:(lia)). lia.
Qed.

(** A new key is stored, kept by later sets, and dropped by [removeKey] and [clear]. *)
Lemma set_value_store key text r : findKey key r = false →
  fst (SET_VALUE key text r) = true ∧ findKey key (snd (SET_VALUE key text r)) = true ∧
  (∀ text2, SET_VALUE key text2 (snd (SET_VALUE key text r)) = (false, snd (SET_VALUE key text r))) ∧
  findKey key (removeKey key (snd (SET_VALUE key text r))) = false ∧
  findKey key (clear (snd (SET_VALUE key text r))) = false ∧
  (∀ key2, c_str key2 ≠ c_str key → getValue key2 (snd (SET_VALUE key text r)) = getValue key2 r).
Proof.
  unfold findKey, SET_VALUE, setValue, removeKey, clear, getValue.
  destruct (r !! c_str key) eqn:E; [done|]. intros _. cbn [fst snd].
  rewrite lookup_insert_eq, lookup_delete_eq, lookup_empty. split_and!; try done.
  intros key2 Hne. by rewrite lookup_insert_ne.
Qed.

(** [get] reads back what [set] stored under a new key, for every integer
    type and bool; a string comes back cut at 1023 bytes and at a NUL.  Reading an integer
    at another width wraps it.  A key that is present is not changed by [set], which says
    so, until [removeKey] or [clear]. *)
Theorem registry_roundtrip key r : findKey key r = false →
  (∀ b d, get_bool key d (snd (set_bool key b r)) = b) ∧
  (∀ v d, fits 8 v → get_u8 key d (snd (set_u8 key v r)) = v) ∧
  (∀ v d, fits 16 v → get_u16 key d (snd (set_u16 key v r)) = v) ∧
  (∀ v d, fits 32 v → get_u32 key d (snd (set_u32 key v r)) = v) ∧
  (∀ v d, fits 64 v → get_u64 key d (snd (set_u64 key v r)) = v) ∧
  (∀ v d, sfits 8 v → get_s8 key d (snd (set_s8 key v r)) = v) ∧
  (∀ v d, sfits 16 v → get_s16 key d (snd (set_s16 key v r)) = v) ∧
  (∀ v d, sfits 32 v → get_s32 key d (snd (set_s32 key v r)) = v) ∧
  (∀ v d, sfits 64 v → get_s64 key d (snd (set_s64 key v r)) = v) ∧
  (∀ v d, fits 64 v → get_u8 key d (snd (set_u64 key v r)) = u8 v) ∧
  (∀ v d, get_const_charp key d (snd (set_const_charp key v r)) = take 1023 (c_str v)) ∧
  (∀ text, let r' := snd (SET_VALUE key text r) in
     fst (SET_VALUE key text r) = true ∧ findKey key r' = true ∧
     (∀ text2, SET_VALUE key text2 r' = (false, r')) ∧
     findKey key (removeKey key r') = false ∧ findKey key (clear r') = false ∧
     (∀ key2, c_str key2 ≠ c_str key → getValue key2 r' = getValue key2 r)).
Proof.
  intros Hk. split_and!; intros v; try intros d.
  - unfold get_bool, set_bool. rewrite get_set by (done || by destruct v; apply (bool_decide_unpack _)).
    by destruct v.
  - intros Hv. unfold get_u8, set_u8. pose proof (fits_64 8 v ltac:(lia) Hv).
    rewrite get_set_nat, strtoul_dec by done. by apply wrap_id.
  - intros Hv. unfold get_u16, set_u16. pose proof (fits_64 16 v ltac:(lia) Hv).
    rewrite get_set_nat, strtoul_dec by done. by apply wrap_id.
  - intros Hv. unfold get_u32, set_u32. pose proof (fits_64 32 v ltac:(lia) Hv).
    rewrite get_set_nat, strtoul_dec by done. by apply wrap_id.
  - intros Hv. unfold get_u64, set_u64. by rewrite get_set_nat, strtoul_dec.
  - intros Hv. unfold get_s8, set_s8. pose proof (sfits_64 8 v ltac:(lia) Hv).
    rewrite get_set_int, strtol_dec_int by done. by apply swrap_id.
  - intros Hv. unfold get_s16, set_s16. pose proof (sfits_64 16 v ltac:(lia) Hv).
    rewrite get_set_int, strtol_dec_int by done. by apply swrap_id.
  - intros Hv. unfold get_s32, set_s32. pose proof (sfits_64 32 v ltac:(lia) Hv).
    rewrite get_set_int, strtol_dec_int by done. by apply swrap_id.
  - intros Hv. unfold get_s64, set_s64. by rewrite get_set_int, strtol_dec_int.
  - intros Hv. unfold get_u8, set_u64. by rewrite get_set_nat, strtoul_dec.
  - unfold get_const_charp, set_const_charp. apply (get_set id); [done|apply c_str_no_nul].
  - by apply set_value_store.
Qed.

(** ** What a document puts into the registry *)

(** The attributes in document order, each under the tags from the root's children down;
    the attributes of the root are under its own tag. *)
Fixpoint entries (path : list (list Z)) (x : xml) : list (list (list Z) * list Z) :=
  match x with
  | Null => []
  | Node tag attrs child next =>
      map (λ kv, (path ++ [tag; fst kv], snd kv)) attrs ++ entries (path ++ [tag]) child ++ entries path next
  end.
Definition doc_entries (doc : xml) : list (list (list Z) * list Z) :=
  match doc with
  | Null => []
  | Node tag attrs child next =>
      map (λ kv, ([tag; fst kv], snd kv)) attrs ++ entries [] child ++ entries [] next
  end.

(** The key of a path: its parts joined with dots, in 1023 bytes. *)
Definition key_of (path : list (list Z)) : list Z := take 1023 (join (ch ".") path).

(** The first value in the list whose key is [k]. *)
Fixpoint first_value (k : list Z) (es : list (list (list Z) * list Z)) : option (list Z) :=
  match es with
  | [] => None
  | (path, v) :: es => if decide (key_of path = k) then Some (take 1023 (c_str v)) else first_value k es
  end.

(** Names are C strings, and only text, which has no attributes and no children, has an
    empty one. *)
Fixpoint xml_ok (x : xml) : Prop :=
  match x with
  | Null => True
  | Node tag attrs child next =>
      no_nul tag ∧ Forall (λ kv, no_nul (fst kv)) attrs ∧ (tag = [] → child = Null) ∧
      xml_ok child ∧ xml_ok next
  end.

Lemma join_snoc sc fs f : fs ≠ [] → join sc (fs ++ [f]) = join sc fs ++ sc :: f.
Proof.
  induction fs as [|g fs IH]; [done|]. intros _. destruct fs as [|h fs]; [done|].
  change ((g :: h :: fs) ++ [f]) with (g :: h :: (fs ++ [f])). rewrite !join_cons.
  change (h :: fs ++ [f]) with ((h :: fs) ++ [f]). rewrite IH by done. by rewrite <-app_assoc.
Qed.

Lemma join_path sc fs : Forall (.≠ []) fs → join sc fs = [] → fs = [].
Proof.
  intros Hfs. destruct fs as [|f fs]; [done|]. apply Forall_cons in Hfs as [Hf _].
  destruct fs as [|g fs]; [done|]. rewrite join_cons. by intros [? _]%app_eq_nil.
Qed.

Definition path_ok (path : list (list Z)) : Prop := Forall (λ f, f ≠ [] ∧ no_nul f) path.

Lemma join_path_ok path : path_ok path → (join (ch ".") path = [] → path = []) ∧ no_nul (join (ch ".") path).
Proof.
  intros Hp. split.
  - apply join_path. eapply Forall_impl; [exact Hp|]. by intros f [? _].
  - apply join_no_nul; [done|]. eapply Forall_impl; [exact Hp|]. by intros f [_ ?].
Qed.

(** The key [makeRegistry] builds is the path's. *)
Lemma attr_key_path path tag attr : path_ok path → no_nul tag → no_nul attr →
  attr_key (join (ch ".") path) tag attr = key_of (path ++ [tag; attr]).
Proof.
  intros Hp Ht Ha. destruct (join_path_ok path Hp) as [Hn Hc].
  unfold attr_key, key_of. f_equal. rewrite !(c_str_id tag), !(c_str_id attr), c_str_id by done.
  case_decide as E.
  - by rewrite (Hn E).
  - change [tag; attr] with ([tag] ++ [attr]). rewrite (app_assoc path [tag]).
    rewrite !join_snoc by (try (by intros [_ ?]%app_eq_nil); by intros ->).
    by rewrite <-!app_assoc.
Qed.

Lemma child_name_path path tag : path_ok path → no_nul tag →
  child_name false (join (ch ".") path) tag = join (ch ".") (path ++ [tag]).
Proof.
  intros Hp Ht. destruct (join_path_ok path Hp) as [Hn _]. unfold child_name.
  rewrite c_str_id by done. case_decide as E.
  - by rewrite (Hn E).
  - by rewrite join_snoc by by intros ->.
Qed.

Definition put_entry (r : Registry) (e : list (list Z) * list Z) : Registry :=
  snd (set_charp (key_of (fst e)) (snd e) r).

Lemma fold_add_attr path tag attrs : path_ok path → no_nul tag → Forall (λ kv, no_nul (fst kv)) attrs →
  ∀ r, fold_left (add_attr (join (ch ".") path) tag) attrs r
    = fold_left put_entry
        (map (λ kv : list Z * list Z, (path ++ [tag; fst kv], snd kv)) attrs) r.
Proof.
  intros Hp Ht. induction 1 as [|kv attrs Ha Has IH]; intros r; simpl; [done|].
  rewrite IH. unfold add_attr. by rewrite attr_key_path.
Qed.

Lemma makeNode_entries x : ∀ path r, path_ok path → xml_ok x →
  makeNode false (join (ch ".") path) x r = fold_left put_entry (entries path x) r.
Proof.
  induction x as [|tag attrs child IHc next IHn]; intros path r Hp Hx; cbn [makeNode entries]; [done|].
  destruct Hx as (Ht & Ha & Hempty & Hc & Hn). rewrite !fold_left_app.
  rewrite fold_add_attr, child_name_path, IHn by done. f_equal.
  destruct (decide (tag = [])) as [E|Hne].
  - by rewrite (Hempty E).
  - apply IHc; [|done]. apply Forall_app. split; [done|]. by repeat constructor.
Qed.

Lemma makeRegistry_entries doc r : xml_ok doc →
  makeRegistry doc [] r = fold_left put_entry (doc_entries doc) r.
Proof.
  intros Hx. destruct doc as [|tag attrs child next]; [done|].
  destruct Hx as (Ht & Ha & _ & Hc & Hn). unfold makeRegistry. cbn [makeNode doc_entries child_name].
  rewrite !fold_left_app. change [] with (join (ch ".") []) at 1 2 3.
  rewrite fold_add_attr, !makeNode_entries by (done || constructor). done.
Qed.

(** The first value of a key stays. *)
Lemma fold_put_lookup es : Forall (λ e, no_nul (key_of (fst e))) es → ∀ k r,
  fold_left put_entry es r !! k
  = match r !! k with Some v => Some v | None => first_value k es end.
Proof.
  induction 1 as [|[path v] es Hk Hes IH]; intros k r; simpl; [by destruct (r !! k)|].
  rewrite IH. unfold put_entry, set_charp, SET_VALUE, setValue. simpl in *.
  rewrite (c_str_id (key_of path)), (c_str_id (take 1023 _)) by (done || apply take_no_nul; auto with bundle).
  case_decide as E.
  - subst k. destruct (r !! key_of path) eqn:E; simpl; [by rewrite E|]. by rewrite lookup_insert_eq.
  - destruct (r !! key_of path) eqn:E2; simpl; [done|]. by rewrite lookup_insert_ne.
Qed.

Lemma entries_no_nul x : ∀ path, Forall no_nul path → xml_ok x →
  Forall (λ e, no_nul (key_of (fst e))) (entries path x).
Proof.
  induction x as [|tag attrs child IHc next IHn]; intros path Hp Hx; cbn [entries]; [constructor|].
  destruct Hx as (Ht & Ha & _ & Hc & Hn). rewrite !Forall_app. split_and!; [|apply IHc; [|done]|by apply IHn].
  - apply Forall_fmap. eapply Forall_impl; [exact Ha|]. intros kv Hkv. simpl.
    apply take_no_nul, join_no_nul; [done|]. apply Forall_app. split; [done|by repeat constructor].
  - apply Forall_app. split; [done|by repeat constructor].
Qed.

Lemma doc_entries_no_nul doc : xml_ok doc → Forall (λ e, no_nul (key_of (fst e))) (doc_entries doc).
Proof.
  destruct doc as [|tag attrs child next]; [constructor|]. intros (Ht & Ha & _ & Hc & Hn).
  unfold doc_entries. rewrite !Forall_app. split_and!; [|by apply entries_no_nul..].
  apply Forall_fmap. eapply Forall_impl; [exact Ha|]. intros kv Hkv. simpl.
  apply take_no_nul, join_no_nul; [done|]. by repeat constructor.
Qed.


(** [<config><service><security maxsize="4096"/></service>text<a b="1"/><a b="2"/></config>] *)
Definition demo_config : xml :=
  Node (str "config") [(str "v", str "3")]
    (Node (str "service") []
       (Node (str "security") [(str "maxsize", str "4096")] Null Null)
       (Node [] [] Null
          (Node (str "a") [(str "b", str "1")] Null (Node (str "a") [(str "b", str "2")] Null Null))))
    Null.


Lemma registry_roundtrip_witness :
  get_s16 (str "port") 1 (snd (set_s16 (str "port") (-5) (snd (set_bool (str "on") true ∅)))) = -5.
Proof.
  destruct (registry_roundtrip (str "port") (snd (set_bool (str "on") true ∅)))
    as (_ & _ & _ & _ & _ & _ & H & _); [vm_compute; reflexivity|].
  apply H. unfold sfits. simpl. lia.
Defined.
