(* ===== verification/XmlFile.v ===== *)
(** * XmlFile: from the bytes of a file to the registry

    [rapidxml::file] (deps/rapidxml-1.13/rapidxml_utils.hpp) and XmlParser::open
    (xml/XmlParser.cpp), and how XmlParser::makeRegistry reads the names and values of a document
    through its pointers.  They point into the text of the file, which the parser keeps while it
    works, and which [open] frees when it returns: reading through them is then undefined.  The file
    system is a parameter. *)

From S2P Require Import Prelude CLib RapidXml XmlText XmlPlace XmlPrint Registry.

(** ** XmlParser *)

(** The document, and the text its pointers lead into: [None] when it has been freed. *)
Record XmlParser := MkXml { doc : xml_node; text : option (list Z) }.

(** [name()] and [value()], as C strings: the [nullstr()] of a null pointer is empty. *)
Definition chars (text : option (list Z)) (sp : span) : outcome (list Z) :=
  match sp with
  | None => Ret []
  | Some (p, _) => match text with Some m => Ret (c_str (drop p m)) | None => Undef end
  end.

(** A loop over siblings. *)
Definition each {X S} (f : X → S → outcome S) : list X → S → outcome S :=
  fix each l s := match l with [] => Ret s | x :: l => s ← f x s; each l s end.
Lemma each_cons {X S} (f : X → S → outcome S) x l s : each f (x :: l) s = (s ← f x s; each f l s).
Proof. done. Qed.

Section Walks.
Context (text : option (list Z)).

(** A turn of the loop over the attributes of [x]. *)
Definition set_attribute (name : list Z) (x : xml_node) (a : xml_attribute) (r : Registry) : outcome Registry :=
  tag ← chars text (node_name x); attr ← chars text (attr_name a); value ← chars text (attr_value a);
  Ret (add_attr name tag r (attr, value)).

(** [makeRegistry(registry, xmlNode, name)] of a node; the call for its next sibling is the next turn of
    [each]. *)
Fixpoint make_node (is_root : bool) (name : list Z) (x : xml_node) (r : Registry) : outcome Registry :=
  r ← each (set_attribute name x) (node_attributes x) r;
  child ← (if is_root then Ret [] else tag ← chars text (node_name x); Ret (child_name false name tag));
  each (make_node false child) (nodes x) r.

(** [XmlParser::dump]: the texts that are logged. *)
Definition tabs (depth : nat) : list (list Z) := repeat [9] depth.
Fixpoint dump_node (depth : nat) (x : xml_node) (out : list (list Z)) : outcome (list (list Z)) :=
  tag ← chars text (node_name x);
  out ← each (λ a out, attr ← chars text (attr_name a); value ← chars text (attr_value a);
                       Ret (out ++ [str " " ++ attr ++ str "=" ++ [34] ++ value ++ [34]]))
          (node_attributes x) (out ++ tabs depth ++ [str "<" ++ tag]);
  match nodes x with
  | [] => Ret (out ++ [str " />" ++ [10]])
  | l => out ← each (dump_node (S depth)) l (out ++ [str ">" ++ [10]]);
         Ret (out ++ tabs depth ++ [str "</" ++ tag ++ str ">" ++ [10]])
  end.
End Walks.

(** [makeRegistry(registry, prefix)], and [dump()]: from [doc.first_node()] on. *)
Definition makeRegistry (x : XmlParser) (prefix : list Z) (r : Registry) : outcome Registry :=
  match nodes (doc x) with
  | [] => Ret r
  | root :: next => r ← make_node (text x) true prefix root r; each (make_node (text x) false prefix) next r
  end.
Definition dump (x : XmlParser) : outcome (list (list Z)) := each (dump_node (text x) 0) (nodes (doc x)) [].

Section Files.
Context (files : list Z → option (list Z)).

(** [file(filename)]: the bytes and a NUL, or an exception. *)
Definition file (filename : list Z) : list Z + list Z :=
  match files filename with Some data => inl (data ++ [0]) | None => inr (str "cannot open file " ++ filename) end.

(** The try block of [XmlParser::open], while [fileDoc] is there. *)
Definition parse_file (xmlfile : list Z) : outcome (parsed XmlParser) :=
  match file (c_str xmlfile) with
  | inr what => Ret (Threw what)
  | inl data => match parse data with
                | Ret (Parsed d m) => Ret (Parsed (MkXml d (Some m)) m)
                | Ret (Threw what) => Ret (Threw what)
                | Aborted => Aborted
                | Undef => Undef
                end
  end.
(** The end of the block: [fileDoc] frees the text. *)
Definition close_file (x : XmlParser) : XmlParser := MkXml (doc x) None.

Inductive opened := Opened (x : XmlParser) | Refused (what : list Z).
(** [XmlParser::open]: what [catch (std::exception& e)] reports is kept. *)
Definition open (xmlfile : list Z) : outcome opened :=
  r ← parse_file xmlfile;
  match r with Parsed x _ => Ret (Opened (close_file x)) | Threw what => Ret (Refused what) end.

(** [Config::loadconf] *)
Definition loadconf (xmlfile : list Z) (r : Registry) : outcome (bool * Registry) :=
  o ← open xmlfile;
  match o with
  | Refused _ => Ret (false, r)
  | Opened x => r ← makeRegistry x [] (clear r); Ret (true, r)
  end.

(** What the parser is to find: the reference parser's tree of the text in front of the first NUL. *)
Definition reading (xmlfile : list Z) : list Z + xml_tree :=
  match files (c_str xmlfile) with
  | None => inl (str "cannot open file " ++ c_str xmlfile)
  | Some data => match parse_text (c_str data) with
                 | Some (Read t _) => inr t
                 | Some (Failed what) => inl what
                 | None => inl []
                 end
  end.

(** ** The document is the tree *)

Lemma data_holds data : holds (data ++ [0]) 0 (c_str data).
Proof using Type.
  intros k c. cbn [Nat.add]. revert k. induction data as [|x data IH]; intros k; [done|]. cbn. destruct (Z.eqb_spec x 0) as [->|Hx].
  - destruct k; [by intros [= <-]|done].
  - destruct k; [done|]. apply IH.
Qed.

(** The document of every file is read inside its text, and is the tree of the reference. *)
Lemma parse_file_reading xmlfile : match reading xmlfile with
  | inl what => parse_file xmlfile = Ret (Threw what)
  | inr t => ∃ d m, parse_file xmlfile = Ret (Parsed (MkXml d (Some m)) m) ∧ node_ok (holds m) d t
  end.
Proof using Type.
  unfold reading, parse_file, file. destruct (files (c_str xmlfile)) as [data|]; [|done].
  pose proof (parse_in_place (c_str data) (data ++ [0]) (c_str_no_nul _) (data_holds _)) as Hp.
  destruct (parse_text (c_str data)) as [[t rest|what]|]; [|by rewrite Hp|done]. destruct Hp as (d & m & -> & Hok & _). by exists d, m.
Qed.
End Files.

(** A tree of strings as Registry.v takes it. *)
Fixpoint tree_xml (t : xml_tree) (next : xml) : xml :=
  Node (c_str (t_name t)) (map (λ a, (c_str a.1, c_str a.2)) (t_attributes t)) (foldr tree_xml Null (t_nodes t)) next.
Definition root_xml (t : xml_tree) : xml := foldr tree_xml Null (t_nodes t).

Lemma tree_node t next : tree_xml t next = Node (c_str (t_name t)) (map (λ a, (c_str a.1, c_str a.2)) (t_attributes t)) (foldr tree_xml Null (t_nodes t)) next.
Proof. by destruct t. Qed.

(** ** While the text is there *)

Lemma holds_chars m s : ∀ p, holds m p s → c_str (drop p m) = c_str s.
Proof.
  induction s as [|c s IH]; intros p Hh; rewrite (drop_S _ _ _ (holds_first _ _ _ Hh)); [done|]. cbn [hd c_str].
  destruct (c =? 0); [done|]. by rewrite IH by by eapply holds_tail.
Qed.
Lemma span_chars m sp s : span_ok (holds m) sp s → chars (Some m) sp = Ret (c_str s).
Proof. destruct sp as [[p n]|]; [|by intros ->]. intros [_ Hh]. cbn. by rewrite (holds_chars _ s). Qed.

Lemma set_attribute_run text name x a r : set_attribute text name x a r =
  (tag ← chars text (node_name x); attr ← chars text (attr_name a); value ← chars text (attr_value a); Ret (add_attr name tag r (attr, value))).
Proof. done. Qed.
Lemma attributes_alive m name x t : node_ok (holds m) x t → ∀ r,
  each (set_attribute (Some m) name x) (node_attributes x) r =
  Ret (fold_left (add_attr name (c_str (t_name t))) (map (λ a, (c_str a.1, c_str a.2)) (t_attributes t)) r).
Proof.
  intros [Hn _ _ Ha _ _]. induction Ha as [|a b l la [H1 H2] Hl IH]; intros r; [done|].
  rewrite each_cons, set_attribute_run, (span_chars _ _ _ Hn), (span_chars _ _ _ H1), (span_chars _ _ _ H2).
  cbn [mbind outcome_bind map fold_left]. apply IH.
Qed.
(** A node and the siblings behind it. *)
Lemma make_node_next is_root name t next r :
  makeNode is_root name (tree_xml t next) r = makeNode false name next (makeNode is_root name (tree_xml t Null) r).
Proof. by rewrite !tree_node. Qed.
Lemma make_node_alive m : ∀ x t, node_ok (holds m) x t → ∀ is_root name r,
  make_node (Some m) is_root name x r = Ret (makeNode is_root name (tree_xml t Null) r).
Proof.
  fix IH 3. intros x t Hok is_root name r. rewrite tree_node. cbn [makeNode].
  transitivity (r ← each (set_attribute (Some m) name x) (node_attributes x) r;
    child ← (if is_root then Ret [] else tag ← chars (Some m) (node_name x); Ret (child_name false name tag));
    each (make_node (Some m) false child) (nodes x) r); [by destruct x|].
  rewrite (attributes_alive m name x t Hok). destruct Hok as [Hn _ _ _ Hc _]. rewrite (span_chars _ _ _ Hn). cbn [mbind outcome_bind].
  set (r1 := fold_left _ _ r). clearbody r1.
  assert (∀ child, each (make_node (Some m) false child) (nodes x) r1 = Ret (makeNode false child (foldr tree_xml Null (t_nodes t)) r1)) as Hl.
  { intros child. clear Hn. revert r1. induction Hc as [|y u l ts Hy Hl IHl]; intros r1; [done|]. rewrite each_cons. cbn [foldr].
    rewrite (IH _ _ Hy), (make_node_next _ _ u (foldr tree_xml Null ts)). cbn [mbind outcome_bind]. apply IHl. }
  destruct is_root; cbn [mbind outcome_bind]; rewrite Hl; [done|].
  unfold child_name. by rewrite (c_str_id (c_str _)) by apply c_str_no_nul.
Qed.
Lemma make_siblings_alive m l ts : Forall2 (node_ok (holds m)) l ts → ∀ name r,
  each (make_node (Some m) false name) l r = Ret (makeNode false name (foldr tree_xml Null ts) r).
Proof.
  induction 1 as [|y u l ts Hy Hl IHl]; intros name r; [done|]. rewrite each_cons. cbn [foldr].
  rewrite (make_node_alive _ _ _ Hy), (make_node_next _ _ u (foldr tree_xml Null ts)). apply IHl.
Qed.
(** What [makeRegistry] does while the text is there is what Registry.v says of the tree. *)
Lemma makeRegistry_alive m d t prefix r : node_ok (holds m) d t →
  makeRegistry (MkXml d (Some m)) prefix r = Ret (Registry.makeRegistry (root_xml t) prefix r).
Proof.
  intros [_ _ _ _ Hc _]. unfold makeRegistry, Registry.makeRegistry, root_xml. cbn [doc text]. destruct Hc as [|y u l ts Hy Hl]; [done|].
  cbn [foldr]. rewrite (make_node_alive _ _ _ Hy), (make_node_next _ _ u (foldr tree_xml Null ts)). by apply make_siblings_alive.
Qed.

(** ** Every document that is read can be looked up *)

(** A name is a C string, and a node without one has no attributes and no children. *)
Fixpoint tree_ok (t : xml_tree) : Prop :=
  no_nul (t_name t) ∧ (t_name t = [] → t_nodes t = [] ∧ t_attributes t = []) ∧ Forall id (map tree_ok (t_nodes t)).
Definition forest_ok (l : list xml_tree) : Prop := Forall id (map tree_ok l).
Definition opt_tree_ok (t : option xml_tree) : Prop := match t with Some t => tree_ok t | None => True end.
Definition reads {A} (P : A → Prop) (r : result A) : Prop := match r with Some (Read a _) => P a | _ => True end.

Lemma reads_bind {A C} (P : C → Prop) (r : result A) f : (∀ a s, reads P (f a s)) → reads P (and_then r f).
Proof. intros Hf. destruct r as [[a s|w]|]; cbn; done. Qed.
Lemma reads_then {A C} (P : A → Prop) (Q : C → Prop) (r : result A) f : reads P r → (∀ a s, P a → reads Q (f a s)) → reads Q (and_then r f).
Proof. intros Hr Hf. destruct r as [[a s|w]|]; cbn; [by apply Hf|done..]. Qed.
Lemma forest_snoc child l : opt_tree_ok child → forest_ok l → forest_ok (match child with Some c => l ++ [c] | None => l end).
Proof. intros Hc Hl. destruct child as [c|]; [|done]. unfold forest_ok. rewrite map_app. apply Forall_app. split; [done|]. by constructor. Qed.
Lemma upto_reads {A} (P : A → Prop) w s f : (∀ a, P (f a)) → reads P (upto w s f).
Proof. intros Hf. unfold upto. destruct (split_at w s) as [[a r]|]; [apply Hf|done]. Qed.
Lemma doctype_reads n : ∀ s, reads opt_tree_ok (doctype s n).
Proof. induction n as [|n IH]; intros [|c s]; cbn [doctype]; try done. repeat case_match; [done| |apply IH]. by apply reads_bind. Qed.
Lemma node_reads elem s : reads opt_tree_ok (elem s) → reads opt_tree_ok (node elem s).
Proof.
  intros He. destruct s as [|c s]; cbn [node]; [done|].
  repeat case_match; try (by apply upto_reads); try apply doctype_reads; [|done]. apply upto_reads. intros a. split_and!; [apply not_elem_of_nil|done|constructor].
Qed.
Lemma name_no_nul s : no_nul (take_while node_name_pred s).
Proof.
  induction s as [|c s IH]; cbn; [apply not_elem_of_nil|]. destruct (node_name_pred c) eqn:E; [|apply not_elem_of_nil].
  apply no_nul_cons. split; [|done]. by intros ->.
Qed.
Lemma element_reads n : (∀ s, reads opt_tree_ok (element s n)) ∧
  (∀ x start s, t_name x ≠ [] → no_nul (t_name x) → forest_ok (t_nodes x) → reads (λ x, tree_ok x) (contents x start s n)).
Proof.
  induction n as [|n [IHe IHc]]; [done|]. split.
  - intros s. cbn [element]. case_bool_decide as Hn; [done|]. apply reads_bind. intros l s'. destruct s' as [|c s']; [done|].
    assert (tree_ok (Tree node_element (take_while node_name_pred s) [] l [])) as Hx by (split_and!; [apply name_no_nul|done|constructor]).
    destruct (c =? ch ">").
    + eapply reads_then; [apply IHc; [done|apply name_no_nul|constructor]|]. by intros x rest Hx'.
    + destruct (c =? ch "/"); [|done]. destruct s' as [|c' s']; [done|]. by destruct (c' =? ch ">").
  - intros x start s Hne Hn Hf. cbn [contents]. destruct s as [|c s]; [done|]. destruct (c =? ch "<").
    + destruct (starts (str "/") s).
      * destruct (drop_while _ _) as [|c' s']; [done|]. destruct (c' =? ch ">"); [|done]. destruct x. by split_and!.
      * eapply reads_then; [apply node_reads, IHe|]. intros child rest Hc. apply IHc; [by destruct child..|].
        pose proof (forest_snoc child (t_nodes x) Hc Hf) as Hs. by destruct child.
    + destruct (c =? 0); [done|]. apply reads_bind. intros value rest. rewrite <- (append_data_name value x) in Hne, Hn. apply IHc; [done|done|].
      assert (t_nodes (append_data value x) = t_nodes x ++ [leaf node_data value]) as -> by (unfold append_data; by destruct (_ =? 0)).
      apply (forest_snoc (Some _)); [|done]. split_and!; [apply not_elem_of_nil|done|constructor].
Qed.
Lemma document_reads n : ∀ x s depth, forest_ok (t_nodes x) → reads (λ x, forest_ok (t_nodes x)) (document x s depth n).
Proof.
  induction n as [|n IH]; intros x s depth Hf; [done|]. cbn [document]. destruct (drop_while _ s) as [|c s']; [done|]. destruct (c =? ch "<"); [|done].
  eapply reads_then; [apply node_reads, element_reads|]. intros child rest Hc. apply IH.
  pose proof (forest_snoc child (t_nodes x) Hc Hf) as Hs. by destruct child.
Qed.

Lemma tree_xml_ok : ∀ t next, tree_ok t → xml_ok next → xml_ok (tree_xml t next).
Proof.
  fix IH 1. intros [k n v la ts] next (Hn & Hnil & Hts) Hnext. cbn in Hn, Hnil, Hts |- *. split_and!; [apply c_str_no_nul| | | |done].
  - apply Forall_fmap, Forall_forall. intros a _. apply c_str_no_nul.
  - rewrite c_str_id by done. intros E. by rewrite (proj1 (Hnil E)).
  - clear -IH Hts. induction ts as [|t ts IHts]; [done|]. cbn in Hts |- *. apply Forall_cons in Hts as [H1 H2]. apply IH; [done|by apply IHts].
Qed.
Lemma root_xml_ok t : forest_ok (t_nodes t) → xml_ok (root_xml t).
Proof.
  unfold forest_ok, root_xml. induction (t_nodes t) as [|u l IH]; [done|]. cbn. intros [H1 H2]%Forall_cons. apply tree_xml_ok; [done|by apply IH].
Qed.

(** ** When the text is gone *)

(** Nothing of the tree is read: the root has no attributes, and what stands in it and behind it has
    no name. *)
Definition unread (t : xml_tree) : bool :=
  match t_nodes t with
  | [] => true
  | root :: next => bool_decide (t_attributes root = []) && forallb (λ y, bool_decide (t_name y = [])) (t_nodes root ++ next)
  end.

Lemma named m x t : node_ok (holds m) x t → t_name t ≠ [] → chars None (node_name x) = Undef.
Proof. intros [Hn _ _ _ _ _] Hne. by destruct (node_name x) as [[p n]|]. Qed.
Lemma unnamed m x t : node_ok (holds m) x t → t_name t = [] → chars None (node_name x) = Ret [].
Proof. intros [_ _ _ _ _ Hne] Hn. destruct (node_name x); [by destruct Hne|done]. Qed.

Lemma make_node_freed m x t name r : node_ok (holds m) x t → tree_ok t →
  make_node None false name x r = if bool_decide (t_name t = []) then Ret r else Undef.
Proof.
  intros Hok Hx. transitivity (r ← each (set_attribute None name x) (node_attributes x) r;
    child ← (tag ← chars None (node_name x); Ret (child_name false name tag)); each (make_node None false child) (nodes x) r); [by destruct x|].
  case_bool_decide as Hn.
  - rewrite (unnamed _ _ _ Hok Hn). assert (t_nodes t = [] ∧ t_attributes t = []) as [H1 H2] by (destruct t; by apply Hx).
    destruct Hok as [_ _ _ Ha Hc _]. rewrite H1 in Hc. rewrite H2 in Ha. inversion Ha. by inversion Hc.
  - pose proof (named _ _ _ Hok Hn) as Hu. destruct (node_attributes x) as [|a l].
    + cbn. by rewrite Hu.
    + by rewrite each_cons, set_attribute_run, Hu.
Qed.
Lemma siblings_freed m l ts name : Forall2 (node_ok (holds m)) l ts → forest_ok ts → ∀ r,
  each (make_node None false name) l r = if forallb (λ y, bool_decide (t_name y = [])) ts then Ret r else Undef.
Proof.
  induction 1 as [|y u l ts Hy Hl IH]; intros Hf r; [done|]. apply Forall_cons in Hf as [Hu Hf].
  rewrite each_cons. cbn [forallb]. rewrite (make_node_freed m y u) by done. case_bool_decide; cbn [mbind outcome_bind andb]; [by apply IH|done].
Qed.
(** [makeRegistry] of a freed text is undefined as soon as there is a name to be read. *)
Lemma makeRegistry_freed m d t r : node_ok (holds m) d t → forest_ok (t_nodes t) →
  makeRegistry (MkXml d None) [] r = if unread t then Ret r else Undef.
Proof.
  intros [_ _ _ _ Hc _] Hf. unfold makeRegistry, unread. cbn [doc text]. destruct Hc as [|y u l ts Hy Hl]; [done|].
  apply Forall_cons in Hf as [Hu Hf].
  transitivity (r ← (r ← each (set_attribute None [] y) (node_attributes y) r; each (make_node None false []) (nodes y) r);
    each (make_node None false []) l r); [by destruct y|].
  destruct (decide (t_attributes u = [])) as [Ea|Ea].
  - rewrite bool_decide_eq_true_2 by done. destruct Hy as [_ _ _ Ha Hy _]. rewrite Ea in Ha. inversion Ha. cbn [each mbind outcome_bind andb].
    rewrite (siblings_freed m (nodes y) (t_nodes u)) by (done || by destruct u as [? ? ? ? ?], Hu as (_ & _ & ?)). rewrite forallb_app.
    destruct (forallb _ (t_nodes u)); cbn [andb]; [|done]. by apply (siblings_freed m).
  - rewrite bool_decide_eq_false_2 by done. assert (t_name u ≠ []) as Hne by (intros E; apply Ea; destruct u; by apply Hu).
    pose proof (named _ _ _ Hy Hne) as Hun. destruct Hy as [_ _ _ Ha _ _]. inversion Ha as [|a b la lb H1 H2 E1 E2]; [congruence|].
    by rewrite each_cons, set_attribute_run, Hun.
Qed.

(** The registry that a tree of the parser is made into. *)
Lemma registry_parsed s t rest : parse_text s = Some (Read t rest) →
  forest_ok (t_nodes t) ∧ ∀ r k, Registry.makeRegistry (root_xml t) [] (clear r) !! k = first_value k (doc_entries (root_xml t)).
Proof.
  intros E. assert (reads (λ x, forest_ok (t_nodes x)) (parse_text s)) as Hr by (apply document_reads; constructor). rewrite E in Hr.
  pose proof (root_xml_ok _ Hr) as Hx. split; [exact Hr|]. intros r k. rewrite makeRegistry_entries, fold_put_lookup by (done || by apply doc_entries_no_nul).
  unfold clear. by rewrite lookup_empty.
Qed.

(** What becomes of a file in which the reference finds a tree. *)
Definition loaded files xmlfile r (t : xml_tree) : Prop := ∃ d m r',
  parse_file files xmlfile = Ret (Parsed (MkXml d (Some m)) m) ∧ node_ok (holds m) d t ∧
  makeRegistry (MkXml d (Some m)) [] (clear r) = Ret r' ∧ (∀ k, r' !! k = first_value k (doc_entries (root_xml t))) ∧
  open files xmlfile = Ret (Opened (MkXml d None)) ∧
  loadconf files xmlfile r = if unread t then Ret (true, ∅) else Undef.
Lemma reading_loaded files xmlfile r t : reading files xmlfile = inr t → loaded files xmlfile r t.
Proof.
  intros E. pose proof (parse_file_reading files xmlfile) as Ho. rewrite E in Ho. destruct Ho as (d & m & Ho & Hok).
  unfold reading in E. destruct (files (c_str xmlfile)) as [data|]; [|done]. destruct (parse_text (c_str data)) as [[t' rest|what]|] eqn:Ep; [|done..].
  injection E as ->. destruct (registry_parsed _ _ _ Ep) as [Hf Hl]. exists d, m. eexists.
  split; [done|]. split; [done|]. split; [by apply makeRegistry_alive|]. split; [apply Hl|].
  assert (open files xmlfile = Ret (Opened (MkXml d None))) as Hop by (unfold open; by rewrite Ho). split; [done|].
  unfold loadconf. rewrite Hop. cbn [mbind outcome_bind]. rewrite (makeRegistry_freed m d t) by done. by destruct (unread t).
Qed.

(** C8 (equivalence): what becomes of any file, whatever its bytes.  The in-place parser neither
    leaves its text nor runs for ever; a file that cannot be opened or that the reference parser
    refuses is refused with the same message and changes nothing.  Of any other file every pointer of
    the document leads to the string of the reference's tree, with a NUL behind it, while the text is
    there, and from it makeRegistry would make the registry in which each key holds the first
    attribute with that dotted path, in document order.  But [open] frees the text before it returns:
    [loadconf] runs into undefined behaviour for every document with an attribute on its root or
    another element, and gives an empty registry for the rest. *)
Theorem open_config files xmlfile r :
  match reading files xmlfile with
  | inl what => open files xmlfile = Ret (Refused what) ∧ loadconf files xmlfile r = Ret (false, r)
  | inr t => loaded files xmlfile r t
  end.
Proof.
  destruct (reading files xmlfile) as [what|t] eqn:E; [|by apply reading_loaded].
  pose proof (parse_file_reading files xmlfile) as Ho. rewrite E in Ho.
  assert (open files xmlfile = Ret (Refused what)) as Hop by (unfold open; by rewrite Ho). split; [done|]. unfold loadconf. by rewrite Hop.
Qed.

(** C19 (roundtrip): a document that is printed into a file, with or without indentation, is what the
    parser finds in the file, and while the text is there its attributes are what makeRegistry makes
    the registry of; what [loadconf] makes of it, when the text is freed, is undefined unless there is
    nothing to read. *)
Theorem config_roundtrip files xmlfile x flags r : document_printable x = true → files (c_str xmlfile) = Some (print x flags) →
  loaded files xmlfile r x.
Proof.
  intros Hx Hf. pose proof (print_read _ flags Hx) as E. apply reading_loaded.
  unfold reading. rewrite Hf, c_str_id by by apply print_no_nul. by rewrite E.
Qed.

(** [<config v="a&lt;b &amp; c'" w='"&apos;"'><service port="80">x &gt; y</service><![CDATA[<raw>]]><e/></config>] *)
Definition demo_tree : xml_tree :=
  Tree node_document [] [] []
    [Tree node_element (str "config") [] [(str "v", str "a<b & c'"); (str "w", [34; 39; 34])]
       [Tree node_element (str "service") (str "x > y") [(str "port", str "80")] [leaf node_data (str "x > y")];
        leaf node_cdata (str "<raw>"); Tree node_element (str "e") [] [] []]].
Lemma config_roundtrip_witness : ∃ d m r', parse_file (λ _, Some (print demo_tree 0)) (str "a.xml") = Ret (Parsed (MkXml d (Some m)) m) ∧
  makeRegistry (MkXml d (Some m)) [] (clear ∅) = Ret r' ∧
  r' !! str "service.port" = Some (str "80") ∧ r' !! str "config.w" = Some [34; 39; 34] ∧
  loadconf (λ _, Some (print demo_tree 0)) (str "a.xml") ∅ = Undef.
Proof.
  destruct (config_roundtrip (λ _, Some (print demo_tree 0)) (str "a.xml") demo_tree 0 ∅) as (d & m & r' & E & _ & Er & Hl & _ & Hu); [reflexivity..|].
  exists d, m, r'. split; [exact E|]. split; [exact Er|]. rewrite !Hl. split; [vm_compute; reflexivity|]. split; [vm_compute; reflexivity|exact Hu].
Defined.

Definition demo_text : list Z := str "<?xml version='1.0'?><config><!-- c --><s p='8&#48;'>x &gt; y</s></config>".
Example reads_demo : match parse_file (λ _, Some demo_text) [] with Ret (Parsed x _) => makeRegistry x [] ∅ | _ => Undef end
  = Ret {[str "s.p" := str "80"]}.
Proof. vm_compute. reflexivity. Qed.
Example loads_demo : loadconf (λ _, Some demo_text) [] ∅ = Undef.
Proof. vm_compute. reflexivity. Qed.
Example loads_empty : loadconf (λ _, Some (str "<config/>")) [] {[str "k" := str "v"]} = Ret (true, ∅).
Proof. vm_compute. reflexivity. Qed.
Example refuses_text : open (λ _, Some (str "<config><s p='80'</config>")) [] = Ret (Refused (str "expected >")).
Proof. vm_compute. reflexivity. Qed.
