(* ===== verification/Net.v ===== *)
(** NetworkService (net/NetworkService.cpp) and the Netmessage frame (net/Netmessage.h): a
    SocketServer whose messages become callbacks with one NetworkTask per connection. *)

From stdpp Require Import fin_maps.
From S2P Require Import Prelude ByteQueue Socket WorkerProcess SocketServer Registry.
Open Scope Z_scope.

(** ** Netmessage: u32 len, u16 id, u16 flags, u32 timestamp, then the payload *)

Definition netmessage_size : Z := 12.

(** The bytes of the buffer [NetworkTask::sendMessage(msgid, msg)] fills in. *)
Definition make_netmsg (msgid : Z) (payload : list Z) : list Z :=
  le_bytes 4 (u32 (netmessage_size + Z.of_nat (length payload))) ++ le_bytes 2 (u16 msgid) ++
  le_bytes 2 0 ++ le_bytes 4 0 ++ payload.

(** Reading [netmsg->len]; fewer than four bytes are an access outside the message. *)
Definition netmsg_len (netmsg : list Z) : outcome Z :=
  if Nat.ltb (length netmsg) 4 then Undef else Ret (le_val (take 4 netmsg)).

(** The splitter given to the SocketServer; the [u32] length becomes an [int]. *)
Definition net_split (buffer : list Z) : Z :=
  if Z.of_nat (length buffer) <? netmessage_size then 0
  else
    let len := le_val (take 4 buffer) in
    if Z.of_nat (length buffer) <? len then 0 else s32 len.

(** ** The service *)

(** A callback invocation, with the task pointer it is given ([None] is null). *)
Inductive callback :=
| CbEstablish (task : option nat)
| CbLost (task : option nat)
| CbMessage (task : option nat) (netmsg : list Z).

(** What the application calls from a callback: the three [sendMessage] of a task, where
    [ok] is the result of [SerializeToArray], and [close] and [stop] of the service. *)
Inductive app_call :=
| CallMessage (task : nat) (netmsg : list Z)
| CallProto (task : nat) (msgid : Z) (payload : list Z) (ok : bool)
| CallPayload (task : nat) (bytes : list Z)
| CallCloseTask (task : nat)
| CallStopService.

Section Service.
Context {T : Type} `{SocketServerApi T} {A : Type}.
(** The application: its state is passed through the callbacks; [None] is a null
    [std::function].  The parser also says whether the message is no longer used. *)
Context (establishConnection lostConnection : option (A → option nat → A * list app_call)).
Context (msgParser : option (A → option nat → list Z → A * list app_call * bool)).

(** [heap] holds the NetworkTask objects that exist, by address, with their [_socket];
    [released] the messages given back to [releaseMessage]. *)
Record NetworkService := MkNet {
  net_stop : bool;
  socketServer : option T;
  tasks : gmap Z nat;
  heap : gmap nat Z;
  next_task : nat;
  released : list Socketmessage
}.

Definition set_server sv ns := MkNet (net_stop ns) sv (tasks ns) (heap ns) (next_task ns) (released ns).
Definition set_tasks t ns := MkNet (net_stop ns) (socketServer ns) t (heap ns) (next_task ns) (released ns).
Definition release m ns := MkNet (net_stop ns) (socketServer ns) (tasks ns) (heap ns) (next_task ns) (released ns ++ [m]).

Definition getNetworkInterface (s : Z) (ns : NetworkService) : option nat := tasks ns !! s.

(** [spawnConnection]: the task is deleted again when the descriptor has one. *)
Definition spawnConnection (s : Z) (ns : NetworkService) : option nat * NetworkService :=
  let t := next_task ns in
  match tasks ns !! s with
  | Some _ => (None, MkNet (net_stop ns) (socketServer ns) (tasks ns) (heap ns) (S t) (released ns))
  | None => (Some t, MkNet (net_stop ns) (socketServer ns) (<[s := t]> (tasks ns)) (<[t := s]> (heap ns))
                      (S t) (released ns))
  end.

(** [closeConnection] erases the pointer; the task is not deleted. *)
Definition closeConnection (s : Z) (ns : NetworkService) : NetworkService :=
  set_tasks (delete s (tasks ns)) ns.

(** Uses of a task and of the server through pointers. *)
Definition task_fd (t : nat) (ns : NetworkService) : outcome Z :=
  match heap ns !! t with Some s => Ret s | None => Undef end.
Definition on_server (f : T → outcome T) (ns : NetworkService) : outcome NetworkService :=
  match socketServer ns with
  | None => Undef
  | Some sv => sv ← f sv; Ret (set_server (Some sv) ns)
  end.

(** [NetworkTask::sendMessage], three times. *)
Definition task_send (t : nat) (bytes : list Z) (ns : NetworkService) : outcome NetworkService :=
  s ← task_fd t ns; on_server (api_send s bytes) ns.
Definition task_send_netmsg (t : nat) (netmsg : list Z) (ns : NetworkService) : outcome NetworkService :=
  len ← netmsg_len netmsg;
  if Z.of_nat (length netmsg) <? len then Undef
  else task_send t (take (Z.to_nat len) netmsg) ns.
Definition task_send_proto (t : nat) (msgid : Z) (payload : list Z) (ok : bool) (ns : NetworkService)
    : outcome NetworkService :=
  if ok then task_send t (make_netmsg msgid payload) ns else _ ← task_fd t ns; Ret ns.

(** [close(task)] *)
Definition net_close (t : nat) (ns : NetworkService) : outcome NetworkService :=
  match socketServer ns with
  | None => Ret ns
  | Some _ => s ← task_fd t ns; on_server (api_close s) ns
  end.

(** [stop]: the tasks of [_tasks] are deleted. *)
Definition net_do_stop (ns : NetworkService) : outcome NetworkService :=
  if net_stop ns then Ret ns
  else
    let ns := MkNet true (socketServer ns) ∅
      (filter (λ '(t, _), t ∉ (map_to_list (tasks ns)).*2) (heap ns)) (next_task ns) (released ns) in
    match socketServer ns with
    | None => Ret ns
    | Some _ => on_server api_stop ns
    end.

Definition do_call (c : app_call) (ns : NetworkService) : outcome NetworkService :=
  match c with
  | CallMessage t netmsg => task_send_netmsg t netmsg ns
  | CallProto t msgid payload ok => task_send_proto t msgid payload ok ns
  | CallPayload t bytes => task_send t bytes ns
  | CallCloseTask t => net_close t ns
  | CallStopService => net_do_stop ns
  end.
Fixpoint do_calls (cs : list app_call) (ns : NetworkService) : outcome NetworkService :=
  match cs with
  | [] => Ret ns
  | c :: cs => ns ← do_call c ns; do_calls cs ns
  end.

(** A callback that takes the task only. *)
Definition call_back (f : option (A → option nat → A * list app_call)) (cb : option nat → callback)
    (task : option nat) (a : A) (ns : NetworkService) : outcome (NetworkService * A * list callback) :=
  match f with
  | None => Ret (ns, a, [])
  | Some f => let '(a, cs) := f a task in ns ← do_calls cs ns; Ret (ns, a, [cb task])
  end.

(** The body of the loop of [update] after [receiveMessage]; the first component is [rc]. *)
Definition handle_message (m : Socketmessage) (ns : NetworkService) (a : A)
    : outcome (bool * NetworkService * A * list callback) :=
  let s := msg_s m in
  match msg_opcode m with
  | SM_OPCODE_ESTABLISH =>
      let '(task, ns) := spawnConnection s ns in
      r ← call_back establishConnection CbEstablish task a ns;
      let '(ns, a, cbs) := r : NetworkService * A * list callback in Ret (true, ns, a, cbs)
  | SM_OPCODE_CLOSE =>
      match tasks ns !! s with
      | Some t =>
          r ← call_back lostConnection CbLost (Some t) a ns;
          let '(ns, a, cbs) := r : NetworkService * A * list callback in
          Ret (true, closeConnection s ns, a, cbs)
      | None => Ret (true, ns, a, [])
      end
  | _ =>
      match tasks ns !! s, msgParser with
      | Some t, Some f =>
          len ← netmsg_len (payload m);
          _ ← cxx_assert (payload_len m =? len);
          let '(a, cs, rc) := f a (Some t) (payload m) in
          ns ← do_calls cs ns; Ret (rc, ns, a, [CbMessage (Some t) (payload m)])
      | _, _ => Ret (true, ns, a, [])
      end
  end.

(** The loop of [update].  Other threads push messages while it runs: [workers] says what they do to
    the server before each turn, and [None] is a loop that has not ended after these turns. *)
Fixpoint update_loop (workers : list (T → T)) (ns : NetworkService) (a : A) (cbs : list callback)
    : outcome (option (bool * NetworkService * A * list callback)) :=
  match workers with
  | [] => Ret None
  | worker :: workers =>
      let ns := set_server (worker <$> socketServer ns) ns in
      if net_stop ns then Ret (Some (false, ns, a, cbs))
      else match socketServer ns with
      | None => Undef
      | Some sv =>
          r ← api_receive sv;
          let '(msg, sv) := r : option Socketmessage * T in
          let ns := set_server (Some sv) ns in
          match msg with
          | None => Ret (Some (true, ns, a, cbs))
          | Some m =>
              r ← handle_message m ns a;
              let '(rc, ns, a, new) := r : bool * NetworkService * A * list callback in
              _ ← (if rc then cxx_assert (magic m =? MAGIC) else Ret tt);
              update_loop workers (if rc then release m ns else ns) a (cbs ++ new)
          end
      end
  end.

(** [update] while no other thread pushes: a turn for each waiting message and one more, after which
    the loop has ended ([update_quiet]). *)
Definition quiet (sv : T) : list (T → T) := replicate (S (api_pending sv)) (λ sv, sv).
Definition update (ns : NetworkService) (a : A) : outcome (bool * NetworkService * A * list callback) :=
  match socketServer ns with
  | None => Ret (false, ns, a, [])
  | Some sv => r ← update_loop (quiet sv) ns a []; match r with Some r => Ret r | None => Undef end
  end.
End Service.

Arguments NetworkService T : clear implicits.

(** [start]; the server's own [start] binds the address.  The old server is deleted, and
    so is the new one when it does not start. *)
Section Start.
Context {B : Type} `{ByteQueue B}.

Definition delete_server (sv : option (Server B)) : outcome unit :=
  match sv with None => Ret tt | Some sv => _ ← do_stop sv; Ret tt end.

Definition security_options : list (nat * list Z) :=
  [(BUNDLE_SOL_MAXSIZE, str "service.security.maxsize");
   (BUNDLE_SOL_SILENCE_SECOND, str "service.security.silence_second");
   (BUNDLE_SOL_THRESHOLD_INTERVAL, str "service.security.threshold_interval");
   (BUNDLE_SOL_THRESHOLD_MESSAGE, str "service.security.threshold_message")].

Definition set_security (cfg : Registry) (sv : Server B) (o : nat * list Z) : outcome (Server B) :=
  let v := get_u32 (snd o) 0 cfg in
  if 0 <? v
  then r ← server_setsockopt (Z.of_nat (fst o)) (Some v) 8 sv; Ret (snd r : Server B)
  else Ret sv.
Fixpoint set_all_security (cfg : Registry) (os : list (nat * list Z)) (sv : Server B) : outcome (Server B) :=
  match os with
  | [] => Ret sv
  | o :: os => sv ← set_security cfg sv o; set_all_security cfg os sv
  end.

Definition net_start (cpus : Z) (k : start_io) (cfg : Registry) (worker : Z) (ns : NetworkService (Server B))
    : outcome (bool * NetworkService (Server B)) :=
  _ ← delete_server (socketServer ns);
  let '(rc, sv) := setWorkerNumber cpus worker (new_Server cpus) in
  r ← (if rc then start k sv else Ret (false, sv));
  let '(rc, sv) := r : bool * Server B in
  if rc then
    sv ← set_all_security cfg security_options sv; Ret (true, set_server (Some sv) ns)
  else
    _ ← delete_server (Some sv); Ret (false, set_server None ns).
End Start.

(** ** [update] ends, whatever the application does *)

Section Termination.
Context {T : Type} `{SocketServerLaws T} {A : Type}.
Context (est lost : option (A → option nat → A * list app_call)).
Context (parser : option (A → option nat → list Z → A * list app_call * bool)).
Implicit Types (ns : NetworkService T).

(** The messages that wait at the server. *)
Definition net_waiting ns : nat := match socketServer ns with Some sv => api_pending sv | None => 0%nat end.

Lemma on_server_waiting (f : T → outcome T) ns ns' : (∀ sv sv', f sv = Ret sv' → (api_pending sv' ≤ api_pending sv)%nat) →
  on_server f ns = Ret ns' → (net_waiting ns' ≤ net_waiting ns)%nat.
Proof.
  intros Hf. unfold on_server, net_waiting. destruct (socketServer ns) as [sv|]; [|done].
  intros (sv' & E & [= <-])%bind_Ret. simpl. by apply Hf.
Qed.

Lemma api_send_less s bytes sv sv' : api_send s bytes sv = Ret sv' → (api_pending sv' ≤ api_pending sv)%nat.
Proof. intros E. by rewrite (api_send_same _ _ _ _ E). Qed.
Lemma api_close_less s sv sv' : api_close s sv = Ret sv' → (api_pending sv' ≤ api_pending sv)%nat.
Proof. intros E. by rewrite (api_close_same _ _ _ E). Qed.

Lemma task_send_waiting t bytes ns ns' : task_send t bytes ns = Ret ns' → (net_waiting ns' ≤ net_waiting ns)%nat.
Proof. intros (s & _ & E)%bind_Ret. eapply on_server_waiting; [|exact E]. apply api_send_less. Qed.

Lemma do_call_waiting c ns ns' : do_call c ns = Ret ns' → (net_waiting ns' ≤ net_waiting ns)%nat.
Proof.
  destruct c as [t m|t id p ok|t b|t|]; simpl.
  - intros (len & _ & E)%bind_Ret. destruct (_ <? _); [done|]. by eapply task_send_waiting.
  - unfold task_send_proto. destruct ok; [apply task_send_waiting|]. by intros (u & _ & [= <-])%bind_Ret.
  - apply task_send_waiting.
  - unfold net_close. destruct (socketServer ns); [|by intros [= <-]]. intros (s & _ & E)%bind_Ret.
    eapply on_server_waiting; [|exact E]. apply api_close_less.
  - unfold net_do_stop. destruct (net_stop ns); [by intros [= <-]|].
    destruct (socketServer ns) as [sv|] eqn:Es; [|intros [= <-]; unfold net_waiting; by rewrite Es].
    intros E. apply on_server_waiting in E; [|apply api_stop_less]. unfold net_waiting in *. simpl in E. by rewrite Es.
Qed.

Lemma do_calls_waiting cs : ∀ ns ns', do_calls cs ns = Ret ns' → (net_waiting ns' ≤ net_waiting ns)%nat.
Proof.
  induction cs as [|c cs IH]; intros ns ns'; simpl; [by intros [= <-]|].
  intros (ns1 & E1%do_call_waiting & E2%IH)%bind_Ret. lia.
Qed.

Lemma call_back_waiting f cb t (a : A) ns ns' a' cbs :
  call_back f cb t a ns = Ret (ns', a', cbs) → (net_waiting ns' ≤ net_waiting ns)%nat.
Proof.
  unfold call_back. destruct f as [f|]; [|by intros [= <- _ _]]. destruct (f a t) as [a1 cs].
  intros (ns1 & E%do_calls_waiting & [= <- _ _])%bind_Ret. done.
Qed.

Lemma spawn_waiting s ns : net_waiting (snd (spawnConnection s ns)) = net_waiting ns.
Proof. unfold spawnConnection. by destruct (tasks ns !! s). Qed.

Lemma handle_message_waiting m ns a rc ns' a' cbs : handle_message est lost parser m ns a = Ret (rc, ns', a', cbs) →
  (net_waiting ns' ≤ net_waiting ns)%nat.
Proof.
  unfold handle_message. destruct (msg_opcode m);
    try (destruct (tasks ns !! msg_s m) as [t|]; [|by intros [= _ <- _ _]]; destruct parser as [f|]; [|by intros [= _ <- _ _]];
      intros (len & _ & (u & _ & E)%bind_Ret)%bind_Ret; destruct (f a (Some t) (payload m)) as [[a1 cs] rc1];
      by apply bind_Ret in E as (ns1 & E%do_calls_waiting & [= _ <- _ _])).
  - pose proof (spawn_waiting (msg_s m) ns) as Hs. destruct (spawnConnection (msg_s m) ns) as [t ns1]. simpl in Hs.
    intros ([[ns2 a2] cbs2] & E%call_back_waiting & [= _ <- _ _])%bind_Ret. lia.
  - destruct (tasks ns !! msg_s m) as [t|]; [|by intros [= _ <- _ _]].
    intros ([[ns2 a2] cbs2] & E%call_back_waiting & [= _ <- _ _])%bind_Ret. done.
Qed.

(** At most [k] messages come in. *)
Definition brings (k : nat) (worker : T → T) : Prop := ∀ sv, (api_pending (worker sv) ≤ api_pending sv + k)%nat.

(** With more turns than messages, waiting ones and those that come in, the loop ends, whatever the
    callbacks do. *)
Lemma update_loop_ends ks workers : Forall2 brings ks workers → ∀ ns a cbs,
  (net_waiting ns + sum_list ks < length workers)%nat → update_loop est lost parser workers ns a cbs ≠ Ret None.
Proof.
  induction 1 as [|k worker ks workers Hw Hws IH]; intros ns a cbs Hlen; [cbn in Hlen; lia|].
  cbn [update_loop sum_list_with length id] in *. change (net_stop (set_server _ ns)) with (net_stop ns). destruct (net_stop ns); [done|].
  unfold net_waiting in Hlen. cbn [socketServer set_server]. destruct (socketServer ns) as [sv|]; cbn [fmap option_fmap option_map]; [|done].
  specialize (Hw sv). destruct (api_receive (worker sv)) as [[[m|] sv1]| |] eqn:Er; cbn [mbind outcome_bind]; [|done..].
  pose proof (api_receive_less _ m sv1 Er) as Hless.
  match goal with |- context [handle_message _ _ _ m ?n a] => set (ns1 := n); destruct (handle_message est lost parser m ns1 a) as [[[[rc ns2] a2] new]| |] eqn:Eh end;
    cbn [mbind outcome_bind]; [|done..].
  apply handle_message_waiting in Eh. change (net_waiting ns1) with (api_pending sv1) in Eh.
  destruct (if rc then cxx_assert _ else Ret tt) as [u| |]; cbn [mbind outcome_bind]; [|done..].
  assert (net_waiting (if rc then release m ns2 else ns2) = net_waiting ns2) as E by by destruct rc.
  apply IH. rewrite E. lia.
Qed.

Lemma brings_quiet sv : Forall2 brings (replicate (S (api_pending sv)) 0%nat) (quiet sv) ∧
  (api_pending sv + sum_list (replicate (S (api_pending sv)) 0) < length (quiet sv))%nat.
Proof.
  unfold quiet. rewrite length_replicate, sum_list_replicate. split; [|lia]. apply Forall2_replicate. intros sv'. lia.
Qed.

(** The turns of [update] are enough. *)
Lemma update_quiet ns sv a : socketServer ns = Some sv → update_loop est lost parser (quiet sv) ns a [] ≠ Ret None.
Proof.
  intros Hsv. destruct (brings_quiet sv) as [Hb Hl]. eapply update_loop_ends; [exact Hb|]. unfold net_waiting. by rewrite Hsv.
Qed.

(** What the result says. *)
Lemma update_loop_done workers : ∀ ns a cbs b ns' a' cbs', update_loop est lost parser workers ns a cbs = Ret (Some (b, ns', a', cbs')) →
  if (b : bool) then net_waiting ns' = 0%nat else net_stop ns' = true.
Proof.
  induction workers as [|worker workers IH]; intros ns a cbs b ns' a' cbs'; [done|]. cbn [update_loop].
  change (net_stop (set_server _ ns)) with (net_stop ns).
  destruct (net_stop ns) eqn:Es; [by intros [= <- <- _ _]|]. cbn [socketServer set_server].
  destruct (socketServer ns) as [sv|]; cbn [fmap option_fmap option_map]; [|done].
  intros ([[m|] sv1] & Er & E)%bind_Ret.
  - apply bind_Ret in E as ([[[rc ns2] a2] new] & _ & (u & _ & E)%bind_Ret). by eapply IH.
  - injection E as <- <- _ _. by apply api_receive_none in Er.
Qed.
End Termination.

(** ** The callbacks of a running service *)

(** What the callbacks are to be for the messages received: one per message, in order; an
    ESTABLISH gets a task of its own, the rest the task of their connection. *)
Definition route_step (m : Socketmessage) (st : gmap Z nat * nat) : option (callback * (gmap Z nat * nat)) :=
  let '(ts, next) := st in
  match msg_opcode m with
  | SM_OPCODE_ESTABLISH => Some (CbEstablish (Some next), (<[msg_s m := next]> ts, S next))
  | SM_OPCODE_CLOSE => t ← ts !! msg_s m; Some (CbLost (Some t), (delete (msg_s m) ts, next))
  | SM_OPCODE_MESSAGE => t ← ts !! msg_s m; Some (CbMessage (Some t) (payload m), (ts, next))
  | _ => None
  end.
Fixpoint route (ms : list Socketmessage) (st : gmap Z nat * nat) : option (list callback) :=
  match ms with
  | [] => Some []
  | m :: ms => r ← route_step m st; cbs ← route ms (snd r); Some (fst r :: cbs)
  end.

(** Messages whose payload starts with its own length, as [net_split] cuts them. *)
Definition net_payload (p : list Z) : Prop :=
  4 ≤ Z.of_nat (length p) < 2 ^ 31 ∧ le_val (take 4 p) = Z.of_nat (length p).
Definition net_framed (m : Socketmessage) : Prop :=
  msg_opcode m = SM_OPCODE_MESSAGE →
  net_payload (payload m) ∧ payload_len m = Z.of_nat (length (payload m)).

(** Calls on tasks that exist, with something to send. *)
Definition call_ok (h : gmap nat Z) (c : app_call) : Prop :=
  match c with
  | CallMessage t netmsg => is_Some (h !! t) ∧ (4 ≤ length netmsg)%nat ∧
      0 < le_val (take 4 netmsg) ≤ Z.of_nat (length netmsg) ∧ le_val (take 4 netmsg) < 2 ^ 32
  | CallProto t _ payload _ => is_Some (h !! t) ∧ netmessage_size + Z.of_nat (length payload) < 2 ^ 32
  | CallPayload t bytes => is_Some (h !! t) ∧ bytes ≠ [] ∧ Z.of_nat (length bytes) < 2 ^ 32
  | CallCloseTask t => is_Some (h !! t)
  | CallStopService => False
  end.

(** The task table follows the messages [log]. *)
Record tasks_ok {T} (log : list Socketmessage) (ns : NetworkService T) : Prop := {
  tk_life : ∀ s, life s log = Some (bool_decide (is_Some (tasks ns !! s)));
  tk_live : ∀ s t, tasks ns !! s = Some t → heap ns !! t = Some s;
  tk_heap : ∀ t s, heap ns !! t = Some s → (t < next_task ns)%nat ∧ 0 ≤ s < MAX_CONNECTION_FD
}.

Section NetProofs.
Context {T : Type} `{SocketServerLaws T} (serves : list Socketmessage → T → Prop)
  `{!SocketServerServes net_framed serves} {A : Type}.
Context (est lost : option (A → option nat → A * list app_call)).
Context (parser : option (A → option nat → list Z → A * list app_call * bool)).

Implicit Types (ns : NetworkService T) (sv : T).

Definition heard (cb : callback) : bool :=
  match cb with
  | CbEstablish _ => bool_decide (is_Some est)
  | CbLost _ => bool_decide (is_Some lost)
  | CbMessage _ _ => bool_decide (is_Some parser)
  end.

Definition calls_ok (I : gmap nat Z → A → Prop) (h : gmap nat Z) (r : A * list app_call) : Prop :=
  I h (fst r) ∧ Forall (call_ok h) (snd r).

(** The application uses only tasks it can have been given: [I h a] relates its state to
    the tasks [h] created so far. *)
Record well_behaved (I : gmap nat Z → A → Prop) : Prop := {
  wb_more h h' a : I h a → h ⊆ h' → I h' a;
  wb_est f h a t : est = Some f → I h a → is_Some (h !! t) → calls_ok I h (f a (Some t));
  wb_lost f h a t : lost = Some f → I h a → is_Some (h !! t) → calls_ok I h (f a (Some t));
  wb_parser f h a t p : parser = Some f → I h a → is_Some (h !! t) → net_payload p → calls_ok I h (fst (f a (Some t) p))
}.

(** The service runs on [sv], which has delivered [out]. *)
Definition runs (out : list Socketmessage) ns sv : Prop :=
  net_stop ns = false ∧ socketServer ns = Some sv ∧ serves out sv.

Lemma task_send_ok out log ns sv t bytes : runs out ns sv → tasks_ok log ns → is_Some (heap ns !! t) →
  bytes ≠ [] → Z.of_nat (length bytes) < 2 ^ 32 →
  ∃ sv', task_send t bytes ns = Ret (set_server (Some sv') ns) ∧ serves out sv' ∧ api_pending sv' = api_pending sv.
Proof.
  intros (_ & Hsv & Hs) Ht [s Hh] Hb Hl. destruct (tk_heap _ _ Ht t s Hh) as [_ Hr].
  destruct (serves_send out sv s bytes Hs Hr Hb Hl) as (sv' & E & Hs'). exists sv'.
  unfold task_send, task_fd, on_server. rewrite Hh, Hsv. simpl. rewrite E.
  split_and!; [done..|]. by apply (api_send_same _ _ _ _ E).
Qed.

Lemma do_call_ok out log ns sv c : runs out ns sv → tasks_ok log ns → call_ok (heap ns) c →
  ∃ sv', do_call c ns = Ret (set_server (Some sv') ns) ∧ serves out sv' ∧ api_pending sv' = api_pending sv.
Proof.
  intros Hr Ht Hc. destruct c as [t nm|t id p ok|t bytes|t|]; cbn [do_call call_ok] in *.
  - destruct Hc as (Hh & H4 & Hlen & Hmax). unfold task_send_netmsg, netmsg_len.
    rewrite (proj2 (Nat.ltb_ge (length nm) 4) H4). simpl mbind.
    rewrite (proj2 (Z.ltb_ge (Z.of_nat (length nm)) (le_val (take 4 nm)))) by lia.
    apply (task_send_ok out log); [done..| |].
    + intros E. apply (f_equal length) in E. rewrite length_take in E. cbn [length] in E. lia.
    + rewrite length_take. lia.
  - destruct Hc as (Hh & Hlen). unfold task_send_proto. destruct ok.
    + apply (task_send_ok out log); [done..|]. unfold make_netmsg.
      rewrite !length_app, !length_le_bytes. unfold netmessage_size in Hlen. lia.
    + destruct Hr as (_ & Hsv & Hs), Hh as [s Hh]. exists sv. unfold task_fd. rewrite Hh.
      split_and!; [|done..]. destruct ns. simpl in *. by subst.
  - destruct Hc as (Hh & Hb & Hl). by apply (task_send_ok out log).
  - destruct Hr as (_ & Hsv & Hs), Hc as [s Hh]. destruct (tk_heap _ _ Ht t s Hh) as [_ Hr].
    destruct (serves_close out sv s Hs Hr) as (sv' & E & Hs'). exists sv'.
    unfold net_close, task_fd, on_server. rewrite Hsv, Hh. simpl. rewrite E.
    split_and!; [done..|]. by apply (api_close_same _ _ _ E).
  - done.
Qed.

Lemma do_calls_ok out log cs : ∀ ns sv, runs out ns sv → tasks_ok log ns → Forall (call_ok (heap ns)) cs →
  ∃ sv', do_calls cs ns = Ret (set_server (Some sv') ns) ∧ serves out sv' ∧ api_pending sv' = api_pending sv.
Proof.
  induction cs as [|c cs IH]; intros ns sv Hr Ht Hcs.
  - exists sv. destruct Hr as (_ & Hsv & Hs). split_and!; [|done..].
    destruct ns. simpl in *. by subst.
  - apply Forall_cons in Hcs as [Hc Hcs].
    destruct (do_call_ok out log ns sv c Hr Ht Hc) as (sv1 & E & Hs1 & P1).
    destruct (IH (set_server (Some sv1) ns) sv1) as (sv' & E' & Hs' & P').
    + by destruct Hr.
    + by destruct Ht.
    + done.
    + exists sv'. simpl. rewrite E. simpl. rewrite E'. split_and!; [done..|lia].
Qed.

(** What one message does. *)
Definition handled (I : gmap nat Z → A → Prop) out log ns sv m (r : bool * NetworkService T * A * list callback) : Prop :=
  let '(rc, ns', a', cbs) := r in ∃ cb sv',
  route_step m (tasks ns, next_task ns) = Some (cb, (tasks ns', next_task ns')) ∧
  cbs = List.filter heard [cb] ∧ runs out ns' sv' ∧ tasks_ok (log ++ [m]) ns' ∧
  heap ns ⊆ heap ns' ∧ I (heap ns') a' ∧ released ns' = released ns ∧ api_pending sv' = api_pending sv.

Lemma life_snoc_step log ns m s : tasks_ok log ns →
  life s (log ++ [m]) = life_step s (Some (bool_decide (is_Some (tasks ns !! s)))) m.
Proof. intros Ht. rewrite life_app. by rewrite (tk_life _ _ Ht). Qed.

(** The table after [log ++ [m]], from the table after [log]. *)
Lemma life_step_other s b m : msg_s m ≠ s → life_step s (Some b) m = Some b.
Proof. intros Hne. simpl. by rewrite (proj2 (Z.eqb_neq _ _)). Qed.

Lemma life_step_self s b m : msg_s m = s → life_step s (Some b) m =
  match msg_opcode m with
  | SM_OPCODE_NEW_SOCKET => Some b
  | SM_OPCODE_ESTABLISH => if b then None else Some true
  | SM_OPCODE_MESSAGE => if b then Some true else None
  | SM_OPCODE_CLOSE => if b then Some false else None
  | _ => None
  end.
Proof. intros <-. simpl. by rewrite Z.eqb_refl. Qed.

Lemma tasks_ok_server log ns sv : tasks_ok log ns → tasks_ok log (set_server (Some sv) ns).
Proof. by intros []. Qed.

Lemma runs_server out ns sv sv' : runs out ns sv → serves out sv' → runs out (set_server (Some sv') ns) sv'.
Proof. by intros (? & ? & ?) ?. Qed.

Lemma spawn_ok log ns m : tasks_ok log ns → 0 ≤ msg_s m < MAX_CONNECTION_FD →
  msg_opcode m = SM_OPCODE_ESTABLISH → is_Some (life (msg_s m) (log ++ [m])) →
  ∃ ns', spawnConnection (msg_s m) ns = (Some (next_task ns), ns') ∧ tasks_ok (log ++ [m]) ns' ∧
    heap ns ⊆ heap ns' ∧ is_Some (heap ns' !! next_task ns) ∧ tasks ns' = <[msg_s m := next_task ns]> (tasks ns) ∧
    next_task ns' = S (next_task ns) ∧ net_stop ns' = net_stop ns ∧ socketServer ns' = socketServer ns ∧
    released ns' = released ns.
Proof.
  intros Ht Hr Ho Hl. rewrite (life_snoc_step log ns) in Hl by done.
  rewrite life_step_self, Ho in Hl by done. case_bool_decide as E; [by destruct Hl|].
  unfold spawnConnection. destruct (tasks ns !! msg_s m) eqn:Es; [by destruct E|].
  assert (heap ns !! next_task ns = None) as Hfree.
  { destruct (heap ns !! next_task ns) eqn:Eh; [|done]. apply (tk_heap _ _ Ht) in Eh. lia. }
  eexists. split; [reflexivity|]. cbn [tasks heap next_task net_stop socketServer released].
  split_and!; try done; [|by apply insert_subseteq|rewrite lookup_insert_eq; by eexists].
  split; cbn [tasks heap next_task].
  - intros s. rewrite (life_snoc_step log ns) by done. destruct (decide (msg_s m = s)) as [<-|Hne].
    + rewrite life_step_self, Ho, Es, lookup_insert_eq by done. rewrite bool_decide_eq_false_2 by done.
      by rewrite bool_decide_eq_true_2 by by eexists.
    + by rewrite life_step_other, lookup_insert_ne.
  - intros s t. destruct (decide (msg_s m = s)) as [<-|Hne].
    + rewrite lookup_insert_eq. intros [= <-]. by rewrite lookup_insert_eq.
    + rewrite lookup_insert_ne by done. intros Hs. pose proof (tk_live _ _ Ht _ _ Hs) as Hh.
      rewrite lookup_insert_ne; [done|]. intros <-. by rewrite Hfree in Hh.
  - intros t s. destruct (decide (t = next_task ns)) as [->|Hne].
    + rewrite lookup_insert_eq. intros [= <-]. lia.
    + rewrite lookup_insert_ne by done. intros Hs. apply (tk_heap _ _ Ht) in Hs. lia.
Qed.

Lemma close_ok log ns m : tasks_ok log ns → msg_opcode m = SM_OPCODE_CLOSE →
  is_Some (life (msg_s m) (log ++ [m])) → tasks_ok (log ++ [m]) (closeConnection (msg_s m) ns).
Proof.
  intros Ht Ho Hl. rewrite (life_snoc_step log ns), life_step_self, Ho in Hl by done.
  case_bool_decide as E; [|by destruct Hl]. split; cbn [closeConnection set_tasks tasks heap next_task].
  - intros s. rewrite (life_snoc_step log ns) by done. destruct (decide (msg_s m = s)) as [<-|Hne].
    + rewrite life_step_self, Ho, lookup_delete_eq, bool_decide_eq_true_2 by done.
      by rewrite bool_decide_eq_false_2 by by intros [].
    + by rewrite life_step_other, lookup_delete_ne.
  - intros s t [_ Hs]%lookup_delete_Some. by apply (tk_live _ _ Ht).
  - apply Ht.
Qed.

Lemma message_ok log ns m : tasks_ok log ns → msg_opcode m = SM_OPCODE_MESSAGE →
  is_Some (life (msg_s m) (log ++ [m])) → is_Some (tasks ns !! msg_s m) ∧ tasks_ok (log ++ [m]) ns.
Proof.
  intros Ht Ho Hl. rewrite (life_snoc_step log ns), life_step_self, Ho in Hl by done.
  case_bool_decide as E; [|by destruct Hl]. split; [done|]. split; [|by apply Ht..].
  intros s. rewrite (life_snoc_step log ns) by done. destruct (decide (msg_s m = s)) as [<-|Hne].
  - by rewrite life_step_self, Ho, bool_decide_eq_true_2.
  - by rewrite life_step_other.
Qed.

(** A callback with one task runs, if there is one. *)
Lemma call_back_ok I f cb out log ns sv a t : runs out ns sv → tasks_ok log ns → I (heap ns) a →
  (∀ g, f = Some g → calls_ok I (heap ns) (g a (Some t))) →
  ∃ a' sv', call_back f cb (Some t) a ns =
      Ret (set_server (Some sv') ns, a', if bool_decide (is_Some f) then [cb (Some t)] else []) ∧
    I (heap ns) a' ∧ serves out sv' ∧ api_pending sv' = api_pending sv.
Proof.
  intros Hr Ht Ha Hf. unfold call_back. destruct f as [g|].
  - destruct (Hf g eq_refl) as [Hi Hcs]. destruct (g a (Some t)) as [a' cs].
    destruct (do_calls_ok out log cs ns sv Hr Ht Hcs) as (sv' & E & Hs & Hp).
    exists a', sv'. rewrite E. done.
  - exists a, sv. destruct Hr as (_ & Hsv & Hs). split_and!; [|done..]. destruct ns. simpl in *. by subst.
Qed.

Lemma handle_message_ok I out log ns sv m a : well_behaved I → runs out ns sv → tasks_ok log ns →
  I (heap ns) a → net_framed m → arrived m → is_new m = false → is_Some (life (msg_s m) (log ++ [m])) →
  ∃ r, handle_message est lost parser m ns a = Ret r ∧ handled I out log ns sv m r.
Proof.
  intros HI Hr Ht Ha Hfr (Hmag & Hrange & Hop) Hnew Hl. unfold handle_message, handled.
  unfold is_new in Hnew. apply bool_decide_eq_false in Hnew.
  destruct Hop as [Ho|[Ho|[Ho|Ho]]]; [| | |done]; rewrite Ho.
  - destruct (spawn_ok log ns m Ht Hrange Ho Hl) as (ns1 & -> & Ht1 & Hsub & Hh & E1 & E2 & E3 & E4 & E5).
    assert (runs out ns1 sv) as Hr1 by (unfold runs; by rewrite E3, E4).
    assert (I (heap ns1) a) as Ha1 by by apply (wb_more _ HI (heap ns)).
    destruct (call_back_ok I est CbEstablish out (log ++ [m]) ns1 sv a (next_task ns))
      as (a' & sv' & -> & Ha' & Hs' & Hp'); [done..|by intros g Hg; apply (wb_est _ HI)|].
    eexists. split; [reflexivity|]. simpl. rewrite E1, E2. eexists _, sv'. unfold route_step. rewrite Ho.
    split_and!; try done; [by apply (runs_server out _ sv)|by apply tasks_ok_server].
  - pose proof (close_ok log ns m Ht Ho Hl) as Ht'.
    pose proof Hl as Hl2. rewrite (life_snoc_step log ns), life_step_self, Ho in Hl2 by done.
    case_bool_decide as E; [destruct E as [t Et]|by destruct Hl2]. rewrite Et.
    destruct (call_back_ok I lost CbLost out log ns sv a t) as (a' & sv' & -> & Ha' & Hs' & Hp'); [done..| |].
    { intros g Hg. apply (wb_lost _ HI); [done..|]. eexists. by apply (tk_live _ _ Ht). }
    eexists. split; [reflexivity|]. simpl. eexists _, sv'. unfold route_step. rewrite Ho, Et.
    split_and!; try done; [by destruct Hr|by destruct Ht'].
  - destruct (message_ok log ns m Ht Ho Hl) as [[t Et] Ht']. rewrite Et.
    destruct (Hfr Ho) as [Hp4 Hlen]. destruct parser as [f|] eqn:Ef.
    + unfold netmsg_len. rewrite (proj2 (Nat.ltb_ge _ _)) by (destruct Hp4; lia).
      cbn [mbind outcome_bind]. rewrite Hlen, (proj2 Hp4), Z.eqb_refl. cbn [mbind outcome_bind cxx_assert].
      destruct (wb_parser _ HI f (heap ns) a t (payload m)) as [Hi Hcs]; [done..| |done|].
      { eexists. by apply (tk_live _ _ Ht). }
      destruct (f a (Some t) (payload m)) as [[a' cs] rc]. simpl in *.
      destruct (do_calls_ok out log cs ns sv Hr Ht Hcs) as (sv' & -> & Hs & Hp).
      eexists. split; [reflexivity|]. exists (CbMessage (Some t) (payload m)), sv'.
      unfold route_step. rewrite Ho, Et. cbn [List.filter heard]. rewrite Ef.
      split_and!; try done; [by apply (runs_server out _ sv)|by apply tasks_ok_server].
    + eexists. split; [reflexivity|]. exists (CbMessage (Some t) (payload m)), sv.
      unfold route_step. rewrite Ho, Et. cbn [List.filter heard]. by rewrite Ef.
Qed.

(** The whole loop: [ms] are the messages it takes. *)
Definition updated (I : gmap nat Z → A → Prop) (out : list Socketmessage) ns (cbs0 : list callback)
    (r : bool * NetworkService T * A * list callback) : Prop :=
  let '(rc, ns', a', cbs) := r in ∃ ms expected sv',
  rc = true ∧ route ms (tasks ns, next_task ns) = Some expected ∧
  cbs = cbs0 ++ List.filter heard expected ∧ runs (out ++ ms) ns' sv' ∧ tasks_ok (out ++ ms) ns' ∧
  heap ns ⊆ heap ns' ∧ I (heap ns') a' ∧ api_pending sv' = 0%nat.

(** Other threads that keep the server's promise, and push at most [k] messages; and such that leave
    a message for the application. *)
Definition pushes (k : nat) (worker : T → T) : Prop :=
  ∀ out sv, serves out sv → serves out (worker sv) ∧ (api_pending (worker sv) ≤ api_pending sv + k)%nat.
Definition busy (worker : T → T) : Prop :=
  ∀ out sv, serves out sv → serves out (worker sv) ∧ ∃ m sv', api_receive (worker sv) = Ret (Some m, sv').

(** One turn that takes a message. *)
Lemma update_turn I out ns sv a m sv1 : well_behaved I → net_stop ns = false → serves out sv → tasks_ok out ns → I (heap ns) a →
  api_receive sv = Ret (Some m, sv1) →
  ∃ rc ns2 a2 cb ns3 sv2,
    handle_message est lost parser m (set_server (Some sv1) ns) a = Ret (rc, ns2, a2, List.filter heard [cb]) ∧
    (if rc then cxx_assert (magic m =? MAGIC) else Ret tt) = Ret tt ∧
    ns3 = (if rc then release m ns2 else ns2) ∧
    route_step m (tasks ns, next_task ns) = Some (cb, (tasks ns3, next_task ns3)) ∧
    runs (out ++ [m]) ns3 sv2 ∧ tasks_ok (out ++ [m]) ns3 ∧ heap ns ⊆ heap ns3 ∧ I (heap ns3) a2 ∧
    (api_pending sv2 < api_pending sv)%nat.
Proof.
  intros HI Hstop Hs Ht Ha E. destruct (serves_receive out sv Hs) as (r & sv1' & E' & Hs1 & Hm). rewrite E in E'. injection E' as <- <-.
  destruct (Hm m eq_refl) as (Hfr & Harr & Hnew). pose proof (api_receive_less _ _ _ E) as Hless.
  assert (runs (out ++ [m]) (set_server (Some sv1) ns) sv1) as Hr1 by done.
  destruct (handle_message_ok I (out ++ [m]) out _ sv1 m a HI Hr1 (tasks_ok_server out ns sv1 Ht) Ha Hfr Harr Hnew)
    as ([[[rc ns2] a2] new] & Eh & cb & sv2 & E2 & -> & Hr2 & Ht2 & Hsub & Ha2 & Hrel & Hp).
  { by apply (serves_life _ sv1). }
  exists rc, ns2, a2, cb, (if rc then release m ns2 else ns2), sv2. split; [exact Eh|]. split.
  { destruct rc; [|done]. unfold cxx_assert. by destruct Harr as (-> & _). }
  split; [done|]. split; [by destruct rc|]. split; [by destruct rc|]. split; [by destruct rc; destruct Ht2|].
  split; [by destruct rc|]. split; [by destruct rc|lia].
Qed.

Lemma update_loop_ok I ks workers : well_behaved I → Forall2 pushes ks workers → ∀ out ns sv a cbs,
  runs out ns sv → tasks_ok out ns → I (heap ns) a → (api_pending sv + sum_list ks < length workers)%nat →
  ∃ r, update_loop est lost parser workers ns a cbs = Ret (Some r) ∧ updated I out ns cbs r.
Proof.
  intros HI. induction 1 as [|k worker ks workers Hw Hws IH]; intros out ns sv a cbs Hr Ht Ha Hlen; [cbn in Hlen; lia|].
  cbn [update_loop sum_list_with length id] in *. destruct Hr as (Hstop & Hsv & Hs). destruct (Hw out sv Hs) as [Hs0 Hk].
  cbn [net_stop socketServer set_server]. rewrite Hstop, Hsv. cbn [fmap option_fmap option_map].
  set (ns0 := set_server (Some (worker sv)) ns). change (set_server (Some ?x) ns0) with (set_server (Some x) ns).
  destruct (serves_receive out (worker sv) Hs0) as ([m|] & sv1 & E & Hs1 & _); rewrite E; cbn [mbind outcome_bind].
  - destruct (update_turn I out ns (worker sv) a m sv1 HI Hstop Hs0 Ht Ha E) as (rc & ns2 & a2 & cb & ns3 & sv2 & Eh & Em & -> & Er & Hr3 & Ht3 & Hsub & Ha3 & Hless).
    change (set_server (Some sv1) ns0) with (set_server (Some sv1) ns). rewrite Eh. cbn [mbind outcome_bind]. rewrite Em. cbn [mbind outcome_bind].
    destruct (IH _ _ sv2 a2 (cbs ++ List.filter heard [cb]) Hr3 Ht3 Ha3) as (r & -> & Hu); [lia|].
    exists r. split; [done|]. destruct r as [[[rc' ns'] a'] cbs'].
    destruct Hu as (ms & expected & sv' & -> & Hroute & -> & Hr' & Ht' & Hsub' & Ha' & Hdone).
    exists (m :: ms), (cb :: expected), sv'. rewrite <-app_assoc in Hr', Ht'. split_and!; try done.
    + cbn [route]. rewrite Er. cbn [mbind option_bind snd fst]. by rewrite Hroute.
    + rewrite <-app_assoc. simpl. by destruct (heard cb).
    + by etransitivity.
  - eexists. split; [reflexivity|]. simpl in Hs1. rewrite app_nil_r in Hs1.
    exists [], [], sv1. rewrite !app_nil_r. split_and!; try done; [by destruct Ht|].
    by apply (api_receive_none _ _ E).
Qed.

(** While a message waits before every turn, the loop does not end. *)
Lemma update_loop_busy I workers : well_behaved I → Forall busy workers → ∀ out ns sv a cbs,
  runs out ns sv → tasks_ok out ns → I (heap ns) a → update_loop est lost parser workers ns a cbs = Ret None.
Proof.
  intros HI. induction 1 as [|worker workers Hw Hws IH]; intros out ns sv a cbs Hr Ht Ha; [done|].
  cbn [update_loop]. destruct Hr as (Hstop & Hsv & Hs). destruct (Hw out sv Hs) as (Hs0 & m & sv1 & E).
  cbn [net_stop socketServer set_server]. rewrite Hstop, Hsv. cbn [fmap option_fmap option_map]. rewrite E. cbn [mbind outcome_bind].
  destruct (update_turn I out ns (worker sv) a m sv1 HI Hstop Hs0 Ht Ha E) as (rc & ns2 & a2 & cb & ns3 & sv2 & Eh & Em & -> & _ & Hr3 & Ht3 & _ & Ha3 & _).
  change (set_server (Some sv1) (set_server (Some (worker sv)) ns)) with (set_server (Some sv1) ns).
  rewrite Eh. cbn [mbind outcome_bind]. rewrite Em. cbn [mbind outcome_bind]. by eapply IH.
Qed.

(** C10 (safety): one [update] of a service on a running server, with an application that
    uses only tasks it was given.  The call returns true with every waiting message taken;
    each message received leads to exactly one callback, in order, if that callback is set:
    ESTABLISH with a new task, messages and CLOSE with the task of their own connection,
    never a null or deleted one; the task table then holds exactly the open connections.
    Every task ever created still exists: those of closed connections are never deleted. *)
Theorem update_dispatches I out ns sv a : well_behaved I → runs out ns sv → tasks_ok out ns → I (heap ns) a →
  ∃ ns' a' cbs ms expected sv', update est lost parser ns a = Ret (true, ns', a', cbs) ∧
    route ms (tasks ns, next_task ns) = Some expected ∧ cbs = List.filter heard expected ∧
    runs (out ++ ms) ns' sv' ∧ api_pending sv' = 0%nat ∧
    (∀ s, life s (out ++ ms) = Some (bool_decide (is_Some (getNetworkInterface s ns')))) ∧
    tasks_ok (out ++ ms) ns' ∧ heap ns ⊆ heap ns' ∧ I (heap ns') a'.
Proof.
  intros HI Hr Ht Ha. unfold update. destruct (id Hr) as (_ & Hsv & _). rewrite Hsv.
  destruct (brings_quiet sv) as [_ Hl].
  assert (Forall2 pushes (replicate (S (api_pending sv)) 0%nat) (quiet sv)) as Hq
    by (apply Forall2_replicate; intros o v Hv; split; [done|lia]).
  destruct (update_loop_ok I _ _ HI Hq out ns sv a []) as ([[[rc ns'] a'] cbs] & -> & Hu); [done..|].
  destruct Hu as (ms & expected & sv' & -> & Hroute & -> & Hr' & Ht' & Hsub & Ha' & Hp).
  exists ns', a', (List.filter heard expected), ms, expected, sv'.
  split_and!; try done. apply Ht'.
Qed.

(** C26 (termination): whether [update] comes back, when other threads push messages before each of its
    turns.  Whatever the callbacks do, stopping the service included, the loop ends within the turns
    given if these are more than the messages that wait and come in during them.  With an application
    that uses only tasks it was given it then ends by returning true, having called back for every
    message it took, also those that came in meanwhile, with none waiting.  But if the other threads
    leave a message before every turn it does not end, for any number of turns: [update] has no limit
    of its own, and a busy server keeps the application out of its own loop. *)
Theorem update_terminates ns a (ks : list nat) (workers : list (T → T)) :
  (Forall2 brings ks workers → (net_waiting ns + sum_list ks < length workers)%nat →
     update_loop est lost parser workers ns a [] ≠ Ret None) ∧
  ∀ I out sv, well_behaved I → runs out ns sv → tasks_ok out ns → I (heap ns) a →
    (Forall2 pushes ks workers → (api_pending sv + sum_list ks < length workers)%nat →
       ∃ ns' a' ms expected sv',
         update_loop est lost parser workers ns a [] = Ret (Some (true, ns', a', List.filter heard expected)) ∧
         route ms (tasks ns, next_task ns) = Some expected ∧
         runs (out ++ ms) ns' sv' ∧ api_pending sv' = 0%nat ∧ tasks_ok (out ++ ms) ns') ∧
    (Forall busy workers → update_loop est lost parser workers ns a [] = Ret None).
Proof.
  split; [intros Hb Hl; by eapply update_loop_ends|]. intros I out sv HI Hr Ht Ha. split.
  - intros Hp Hl. destruct (update_loop_ok I ks workers HI Hp out ns sv a []) as ([[[rc ns'] a'] cbs] & -> & Hu); [done..|].
    destruct Hu as (ms & expected & sv' & -> & Hroute & -> & Hr' & Ht' & Hsub & Ha' & Hp').
    by exists ns', a', ms, expected, sv'.
  - intros Hb. by eapply update_loop_busy.
Qed.
End NetProofs.

(** ** What [net_split] makes of a stream *)

Definition net_frame (f : list Z) : Prop :=
  netmessage_size ≤ Z.of_nat (length f) < 2 ^ 31 ∧ le_val (take 4 f) = Z.of_nat (length f).

Lemma take4_app (f r : list Z) : (4 ≤ length f)%nat → take 4 (f ++ r) = take 4 f.
Proof. intros. by rewrite take_app_le. Qed.

(** Frames with their own length in front, as [make_netmsg] builds them, satisfy the
    contract of a splitter, so [read_all_frames] holds of a NetworkService's sockets. *)
#[export] Instance net_splitter : Splitter net_split net_frame.
Proof.
  unfold net_frame, netmessage_size, net_split. split.
  - intros f [Hl _] ->. simpl in Hl. lia.
  - intros f rest [Hl E]. rewrite take4_app, E, length_app, s32_small by lia.
    destruct (Z.ltb_spec (Z.of_nat (length f + length rest)) netmessage_size); [unfold netmessage_size in *; lia|].
    destruct (Z.ltb_spec (Z.of_nat (length f + length rest)) (Z.of_nat (length f))); lia.
  - intros f p s [Hl E] -> Hs. destruct s as [|c s]; [done|].
    destruct (Z.ltb_spec (Z.of_nat (length p)) netmessage_size) as [|Hp]; [done|]. unfold netmessage_size in Hp.
    rewrite take4_app, length_app in E by lia. cbn [length] in E. rewrite E.
    destruct (Z.ltb_spec (Z.of_nat (length p)) (Z.of_nat (length p + S (length s)))); lia.
Qed.

Lemma make_netmsg_frame msgid payload : netmessage_size + Z.of_nat (length payload) < 2 ^ 31 →
  net_frame (make_netmsg msgid payload).
Proof.
  unfold net_frame, make_netmsg, netmessage_size. intros Hl. rewrite !length_app, !length_le_bytes.
  split; [lia|]. rewrite take_app_le, take_ge by (rewrite length_le_bytes; lia).
  rewrite le_val_le_bytes. unfold u32, wrap. rewrite Z.mod_mod by done.
  change (8 * Z.of_nat 4) with 32. rewrite Z.mod_small; lia.
Qed.

(** Every stream, by the length [n] its first four bytes announce.  With fewer
    than 12 bytes, or fewer than [n], the socket waits; with [n = 0] it waits whatever
    arrives.  A complete message with 4 <= n < 2^31 is delivered with a payload that
    [update] accepts, even when [n] is below the 12 bytes of a header; with n >= 2^31 the
    connection fails; with 1 <= n <= 3 the message delivered is shorter than its length
    field, which [update] reads past the end of the allocation. *)
Theorem net_split_cases {B} `{ByteQueueLaws B} (s : Socket B) q n :
  bq_holds (rbuffer s) q → n = le_val (take 4 q) → bytes_ok q →
  (Z.of_nat (length q) < netmessage_size ∨ Z.of_nat (length q) < n ∨ n = 0 →
     splitMessage net_split s = Ret (true, None, s)) ∧
  (netmessage_size ≤ Z.of_nat (length q) → 2 ^ 31 ≤ n ≤ Z.of_nat (length q) →
     splitMessage net_split s = Ret (false, None, s)) ∧
  (netmessage_size ≤ Z.of_nat (length q) → 0 < n < 2 ^ 31 → n ≤ Z.of_nat (length q) →
     ∃ b m, splitMessage net_split s = Ret (true, Some m, set_rbuffer b s) ∧
       bq_holds b (drop (Z.to_nat n) q) ∧ m = to_message s (take (Z.to_nat n) q) ∧
       (4 ≤ n → net_framed m) ∧
       (n < 4 → ∀ (T : Type) (api : SocketServerApi T) (A : Type) est lost f (ns : NetworkService T) t (a : A),
          tasks ns !! msg_s m = Some t → handle_message est lost (Some f) m ns a = Undef)).
Proof.
  intros Hq Hn Hb. unfold splitMessage. rewrite (bq_contents_holds _ _ Hq). cbn [mbind outcome_bind].
  assert (0 ≤ n < 2 ^ 32) as Hn32.
  { subst n. pose proof (le_val_bound (take 4 q) ltac:(by apply Forall_take)) as Hb4. unfold fits in Hb4.
    rewrite length_take in Hb4. assert (2 ^ (8 * Z.of_nat (Nat.min 4 (length q))) ≤ 2 ^ 32)
      by (apply Z.pow_le_mono_r; lia). lia. }
  unfold net_split. rewrite <-Hn. split_and!.
  - intros Hc. destruct (Z.ltb_spec (Z.of_nat (length q)) netmessage_size); [done|].
    destruct (Z.ltb_spec (Z.of_nat (length q)) n); [done|]. assert (n = 0) as -> by lia. done.
  - intros Hl Hc. rewrite (proj2 (Z.ltb_ge (Z.of_nat (length q)) netmessage_size)) by lia.
    rewrite (proj2 (Z.ltb_ge (Z.of_nat (length q)) n)) by lia.
    assert (s32 n < 0) as Hneg.
    { unfold s32, swrap. change (2 ^ (32 - 1)) with (2 ^ 31). rewrite <-(Z_mod_plus_full _ (-1)), Z.mod_small; lia. }
    rewrite (proj2 (Z.eqb_neq (s32 n) 0)) by lia. by rewrite (proj2 (Z.ltb_lt (s32 n) 0)).
  - intros Hl Hpos Hc. rewrite (proj2 (Z.ltb_ge (Z.of_nat (length q)) netmessage_size)) by lia.
    rewrite (proj2 (Z.ltb_ge (Z.of_nat (length q)) n)) by lia. rewrite s32_small by lia.
    rewrite (proj2 (Z.eqb_neq n 0)), (proj2 (Z.ltb_ge n 0)) by lia.
    rewrite (proj2 (Z.ltb_ge (Z.of_nat (length q)) n)) by lia.
    destruct (bq_consume_holds (Z.to_nat n) _ _ Hq) as (b & -> & Hh); [lia|].
    exists b, (to_message s (take (Z.to_nat n) q)). split_and!; [done|done|done|..].
    + intros H4 _. cbn [to_message allocateMessage payload payload_len]. unfold net_payload.
      rewrite take_take, length_take, !Nat.min_l, Z2Nat.id, <-Hn by lia.
      split_and!; [lia..|]. by apply (wrap_id 32).
    + intros H4 T HT A est lost f ns t a Ht. unfold handle_message. simpl in *. rewrite Ht. unfold netmsg_len.
      rewrite length_take. by rewrite (proj2 (Nat.ltb_lt _ _)) by lia.
Qed.

(** ** A started service satisfies the hypotheses of [update_dispatches] *)

Lemma set_all_security_running {B} `{ByteQueueLaws B} cfg ok os : ∀ (sv sv' : Server B),
  set_all_security cfg os sv = Ret sv' → server_running ok [] sv → readQueue sv = [] →
  server_running ok [] sv' ∧ readQueue sv' = [].
Proof.
  induction os as [|o os IH]; intros sv sv'; simpl; [by intros [= ->]|].
  intros (sv1 & E1 & E)%bind_Ret [[ws Hs] Hok] Hq. unfold set_security in E1. destruct (0 <? get_u32 _ _ _).
  - apply bind_Ret in E1 as ([rc sv2] & E2 & [= <-]).
    assert (readQueue sv2 = []) as Hq2.
    { unfold server_setsockopt in E2. repeat case_match; try (by injection E2 as _ <-).
      apply bind_Ret in E2 as (l & _ & [= _ <-]). done. }
    destruct (sv_step_serving (λ _, 0) ws [] sv (SvSetopt (Z.of_nat (fst o)) (Some (get_u32 (snd o) 0 cfg)) 8) Hs I)
      as (out & sv3 & ws3 & E3 & Hs3). cbn [sv_step] in E3. rewrite E2 in E3. injection E3 as <- <-.
    apply (IH sv2); [done| |done]. split; [by exists ws3|by rewrite Hq2].
  - injection E1 as <-. apply (IH sv); [done| |done]. by split; [exists ws|].
Qed.

Lemma net_start_runs {B} `{ByteQueueLaws B} cpus k cfg worker (ns ns' : NetworkService (Server B)) :
  0 ≤ k_socket k < MAX_CONNECTION_FD → net_stop ns = false →
  net_start cpus k cfg worker ns = Ret (true, ns') →
  ∃ sv, runs (server_running net_framed) [] ns' sv ∧ tasks ns' = tasks ns ∧ heap ns' = heap ns.
Proof.
  intros Hk Hst. unfold net_start. intros (u & _ & E)%bind_Ret.
  unfold setWorkerNumber, new_Server in E. cbn [isstop] in E.
  destruct (worker <? u32 (cpus * 8)); cycle 1.
  { cbn [mbind outcome_bind] in E. by apply bind_Ret in E as (u' & _ & [= ?]). }
  apply bind_Ret in E as ([rc sv] & E1 & E). destruct rc; [|by apply bind_Ret in E as (u' & _ & [= ?])].
  apply bind_Ret in E as (sv' & E2 & [= <-]). pose proof (start_serving k _ _ _ _ sv Hk E1) as Hs.
  assert (readQueue sv = []) as Hq.
  { revert E1. unfold start, close_listening. simpl. repeat case_match; try done.
    by intros [= <-]. }
  destruct (set_all_security_running cfg net_framed _ sv sv' E2) as [Hr _]; [|done|].
  { split; [by eexists|by rewrite Hq]. }
  by exists sv'.
Qed.

(** An application that greets a connection, answers a message with itself and closes. *)
Definition greet (a : list nat) (t : option nat) : list nat * list app_call :=
  match t with Some t => (a ++ [t], [CallProto t 7 [1; 2] true]) | None => (a, []) end.
Definition forget (a : list nat) (t : option nat) : list nat * list app_call := (a, []).
Definition answer (a : list nat) (t : option nat) (p : list Z) : list nat * list app_call * bool :=
  match t with Some t => (a, [CallMessage t p; CallCloseTask t], true) | None => (a, [], true) end.

Lemma greeter_well_behaved : well_behaved (Some greet) (Some forget) (Some answer) (λ _ _, True).
Proof.
  split; [done|..].
  - intros f h a t [= <-] _ Ht. split; [done|]. by repeat constructor.
  - intros f h a t [= <-] _ Ht. split; [done|constructor].
  - intros f h a t p [= <-] _ Ht [Hl E]. split; [done|]. repeat constructor; try done; rewrite ?E; lia.
Qed.

Definition demo_payload : list Z := make_netmsg 9 [5].
Definition demo_inbox : list Socketmessage :=
  [allocateMessage0 4 SM_OPCODE_ESTABLISH; allocateMessage0 7 SM_OPCODE_ESTABLISH;
   allocateMessage 7 SM_OPCODE_MESSAGE demo_payload; allocateMessage0 7 SM_OPCODE_CLOSE;
   allocateMessage0 7 SM_OPCODE_ESTABLISH].
Definition demo_service : NetworkService recorder :=
  MkNet false (Some (MkRecorder demo_inbox [])) ∅ ∅ 0 [].

Lemma demo_inbox_ok : Forall (λ m, net_framed m ∧ arrived m ∧ is_new m = false) demo_inbox.
Proof.
  assert (∀ s op, 0 ≤ s < MAX_CONNECTION_FD → op = SM_OPCODE_ESTABLISH ∨ op = SM_OPCODE_CLOSE →
    net_framed (allocateMessage0 s op) ∧ arrived (allocateMessage0 s op) ∧ is_new (allocateMessage0 s op) = false) as H0.
  { intros s op Hs [-> | ->]; split_and!; try done; (split; [done|split; [exact Hs|tauto]]). }
  unfold demo_inbox, MAX_CONNECTION_FD in *.
  repeat (apply Forall_cons; split; [try (apply H0; [lia|by (left + right)])|]); [|constructor].
  split_and!; [|split; [done|split; [unfold MAX_CONNECTION_FD; simpl; lia|simpl; tauto]]|done].
  intros _. split; [split; [simpl; lia|reflexivity]|reflexivity].
Qed.

Lemma update_dispatches_witness : ∃ ns' a' cbs ms expected,
  update (Some greet) (Some forget) (Some answer) demo_service [] = Ret (true, ns', a', cbs) ∧
  route ms (∅, 0%nat) = Some expected ∧ cbs = List.filter (λ _, true) expected.
Proof.
  destruct (update_dispatches (recorder_serves net_framed) (Some greet) (Some forget) (Some answer)
    (λ _ _, True) [] demo_service (MkRecorder demo_inbox []) [])
    as (ns' & a' & cbs & ms & expected & sv' & E & Hr & Hc & _).
  - exact greeter_well_behaved.
  - split; [done|]. split; [done|]. split.
    + exact demo_inbox_ok.
    + intros s. destruct (Z.eq_dec s 4) as [->|H4]; [by eexists|].
      destruct (Z.eq_dec s 7) as [->|H7]; [by eexists|]. exists false.
      apply (life_other s [] demo_inbox). repeat constructor; simpl; congruence.
  - by split.
  - exact I.
  - exists ns', a', cbs, ms, expected. split_and!; [exact E|exact Hr|]. rewrite Hc. apply List.filter_ext.
    by intros [].
Defined.

Lemma net_split_cases_witness :
  splitMessage net_split (set_rbuffer [3; 0; 0; 0; 1; 1; 1; 1; 1; 1; 1; 1] (new_Socket (B := list Z) 5 0))
  = Ret (true, Some (to_message (new_Socket (B := list Z) 5 0) [3; 0; 0]),
         set_rbuffer [0; 1; 1; 1; 1; 1; 1; 1; 1] (new_Socket (B := list Z) 5 0)).
Proof.
  destruct (net_split_cases (set_rbuffer [3; 0; 0; 0; 1; 1; 1; 1; 1; 1; 1; 1] (new_Socket (B := list Z) 5 0))
    [3; 0; 0; 0; 1; 1; 1; 1; 1; 1; 1; 1] 3) as (_ & _ & Hs); [done|done| |].
  - apply (bool_decide_unpack _). vm_compute. exact I.
  - destruct Hs as (b & m & E & Hb & Hm & _); [vm_compute; congruence|lia|simpl; lia|].
    rewrite E, Hm. inversion Hb. reflexivity.
Defined.

(** Other threads that open and close connection 9 before a turn. *)
Definition flicker (r : recorder) : recorder :=
  MkRecorder (inbox r ++ [allocateMessage0 9 SM_OPCODE_ESTABLISH; allocateMessage0 9 SM_OPCODE_CLOSE]) (calls r).
Definition flicker_serves (out : list Socketmessage) (r : recorder) : Prop :=
  recorder_serves net_framed out r ∧ life 9 (out ++ inbox r) = Some false.

#[export] Instance flicker_server : SocketServerServes net_framed flicker_serves.
Proof.
  split; unfold flicker_serves.
  - intros out r [Hs Hl]. destruct (serves_receive out r Hs) as (m & r' & E & Hs' & Hm). exists m, r'.
    split; [done|]. split; [|done]. split; [done|]. rewrite <-Hl. destruct r as [[|x l] c]; cbn in E; injection E as <- <-; cbn [inbox].
    + by rewrite app_nil_r.
    + by rewrite <-app_assoc.
  - intros out r s bytes [Hs Hl] _ _ _. eexists. split; [reflexivity|]. by split.
  - intros out r s [Hs Hl] _. eexists. split; [reflexivity|]. by split.
  - intros out r s [Hs _]. by apply (serves_life (serves := recorder_serves net_framed) out r).
Qed.

Lemma flicker_pushes : pushes flicker_serves 2 flicker ∧ busy flicker_serves flicker.
Proof.
  assert (∀ out r, flicker_serves out r → flicker_serves out (flicker r)) as Hk.
  { intros out r [[Hok Hl] H9]. split; [split|]; cbn [flicker inbox].
    - apply Forall_app. split; [done|].
      repeat (apply Forall_cons; split; [split_and!; [done|split; [done|split; [done|cbn; tauto]]|done]|]). constructor.
    - intros s. rewrite app_assoc. destruct (decide (s = 9)) as [->|Hne].
      + rewrite life_fold, H9. by eexists.
      + rewrite life_other; [apply Hl|]. repeat constructor; cbn; congruence.
    - by rewrite app_assoc, life_fold, H9. }
  split; intros out r Hr; (split; [by apply Hk|]).
  - cbn [flicker api_pending recorder_api inbox]. rewrite length_app. cbn [length]. lia.
  - cbn [flicker api_receive recorder_api inbox]. destruct (inbox r); eexists _, _; reflexivity.
Qed.

Lemma demo_runs : runs flicker_serves [] demo_service (MkRecorder demo_inbox []).
Proof.
  split; [done|]. split; [done|]. split; [split|reflexivity].
  - exact demo_inbox_ok.
  - intros s. destruct (Z.eq_dec s 4) as [->|H4]; [by eexists|].
    destruct (Z.eq_dec s 7) as [->|H7]; [by eexists|]. exists false.
    apply (life_other s [] demo_inbox). repeat constructor; simpl; congruence.
Qed.

Definition callbacks_made {X} (r : outcome (option (X * list callback))) : nat :=
  match r with Ret (Some (_, cbs)) => length cbs | _ => 0%nat end.

(** The other threads push before the first two turns, and then no more; or before each of 40. *)
Lemma update_terminates_witness :
  (∃ ns' a' cbs, update_loop (Some greet) (Some forget) (Some answer) ([flicker; flicker] ++ replicate 10 (λ r, r)) demo_service [] []
     = Ret (Some (true, ns', a', cbs)) ∧ length cbs = 9%nat) ∧
  update_loop (Some greet) (Some forget) (Some answer) (replicate 40 flicker) demo_service [] [] = Ret None.
Proof.
  split.
  - destruct (update_terminates flicker_serves (Some greet) (Some forget) (Some answer) demo_service [] ([2; 2] ++ replicate 10 0)%nat
      ([flicker; flicker] ++ replicate 10 (λ r, r))) as [_ H].
    destruct (H (λ _ _, True) [] (MkRecorder demo_inbox [])) as [(ns' & a' & ms & expected & sv' & E & _) _];
      [exact greeter_well_behaved|exact demo_runs|by split|exact I| | |].
    + repeat (apply Forall2_cons; split; [first [apply flicker_pushes|intros out r Hr; split; [exact Hr|cbn; lia]]|]). constructor.
    + apply (bool_decide_unpack _). vm_compute. exact I.
    + exists ns', a', (List.filter (heard (Some greet) (Some forget) (Some answer)) expected). split; [exact E|].
      apply (f_equal callbacks_made) in E. revert E. vm_compute. intros E. symmetry. exact E.
  - destruct (update_terminates flicker_serves (Some greet) (Some forget) (Some answer) demo_service [] (replicate 40 2%nat) (replicate 40 flicker)) as [_ H].
    destruct (H (λ _ _, True) [] (MkRecorder demo_inbox [])) as [_ Hb]; [exact greeter_well_behaved|exact demo_runs|by split|exact I|].
    apply Hb. apply Forall_replicate, flicker_pushes.
Defined.
