(* ===== verification/Dispatch.v ===== *)
(** * Message tables and the services made of them

    The macros of deps/bundle-0.01/include/net/Netmessage.h, which send each message to the
    handler of its number; entry/Manager.h; and the parsers of the gateway and log servers
    (src/server/gatewayserver/src, src/server/logserver/src). *)

From S2P Require Import Prelude Net.

(** ** DECLARE_MESSAGE, ON_MSG, DISPATCH_MESSAGE *)

Definition MAX_MESSAGE_ID : Z := 65535.

(** A handler: the task, and the message as bytes; it says whether it could read it. *)
Abbreviation MESSAGE_ROUTINE A := (A → nat → list Z → outcome (A * list app_call * bool)).
Abbreviation MessageTable A := (gmap Z (MESSAGE_ROUTINE A)).

Section Dispatch.
Context {A : Type}.

Definition declare_message : MessageTable A := ∅.

(** ON_MSG: a number out of range fails an assertion, one that is taken aborts. *)
Definition on_msg (msgid : Z) (r : MESSAGE_ROUTINE A) (t : MessageTable A) : outcome (MessageTable A) :=
  _ ← cxx_assert ((0 <=? msgid) && (msgid <? MAX_MESSAGE_ID));
  match t !! msgid with Some _ => Aborted | None => Ret (<[msgid := r]> t) end.
Fixpoint on_msgs (l : list (Z * MESSAGE_ROUTINE A)) (t : MessageTable A) : outcome (MessageTable A) :=
  match l with
  | [] => Ret t
  | (msgid, r) :: l => t ← on_msg msgid r t; on_msgs l t
  end.

(** [onMessage_raw]: [parse] is ParseFromArray of the message's structure.  With a length
    below 12 it gets a negative size. *)
Definition onMessage_raw {M} (parse : list Z → option M) (onMessage : A → nat → M → list Z → A * list app_call) : MESSAGE_ROUTINE A :=
  λ a task netmsg,
    len ← netmsg_len netmsg;
    if (len <? netmessage_size) || (Z.of_nat (length netmsg) <? len) then Undef
    else match parse (take (Z.to_nat (len - netmessage_size)) (drop (Z.to_nat netmessage_size) netmsg)) with
         | None => Ret (a, [], false)
         | Some msg => let '(a, cs) := onMessage a task msg netmsg in Ret (a, cs, true)
         end.

(** [netmsg->id] *)
Definition netmsg_id (netmsg : list Z) : outcome Z :=
  if Nat.ltb (length netmsg) 6 then Undef else Ret (le_val (take 2 (drop 4 netmsg))).
Definition dispatch_message (t : MessageTable A) (a : A) (task : nat) (netmsg : list Z) : outcome (A * list app_call * bool) :=
  id ← netmsg_id netmsg;
  if (id <? 0) || (MAX_MESSAGE_ID <=? id) then Ret (a, [], false)
  else match t !! id with
       | Some r => r a task netmsg
       | None => Ret (a, [], true)
       end.

(** The parser of GatewayService and LogService: a message that can not be handled closes its
    connection. *)
Definition service_parser (t : MessageTable A) (a : A) (task : nat) (netmsg : list Z) : outcome (A * list app_call * bool) :=
  '(a, cs, rc) ← dispatch_message t a task netmsg;
  Ret (a, if (rc : bool) then cs else cs ++ [CallCloseTask task], true).
(** Neither of them declares a handler. *)
Definition gateway_parser : A → nat → list Z → outcome (A * list app_call * bool) := service_parser declare_message.
End Dispatch.


(** ** Manager: entries by their id, which is also in the entry *)

Section Manager.
Context {E : Type} (id : E → Z).
Definition manager_add (e : E) (m : gmap Z E) : bool * gmap Z E :=
  match m !! id e with Some _ => (false, m) | None => (true, <[id e := e]> m) end.
Definition manager_remove (e : E) (m : gmap Z E) : gmap Z E := delete (id e) m.
Definition manager_clear (m : gmap Z E) : gmap Z E := ∅.
Definition manager_find (i : Z) (m : gmap Z E) : option E := m !! i.
Definition manager_size (m : gmap Z E) : nat := size m.
Definition manager_empty (m : gmap Z E) : bool := bool_decide (size m = 0%nat).
(** [order] is the order in which the unordered_map is walked. *)
Fixpoint manager_traverse (invoke : E → bool) (order : list E) : list E * bool :=
  match order with
  | [] => ([], true)
  | e :: order => if invoke e then let '(es, b) := manager_traverse invoke order in (e :: es, b) else ([e], false)
  end.
(** [first] is its first entry; there is none in an empty map. *)
Definition manager_pop_front (first : Z) (m : gmap Z E) : outcome (E * gmap Z E) :=
  match m !! first with Some e => Ret (e, delete first m) | None => Undef end.
End Manager.

(** ** Messages reach the handler of their number *)

Section Reach.
Context {A : Type}.
Implicit Types (t : MessageTable A) (l : list (Z * MESSAGE_ROUTINE A)).

Lemma on_msg_Ret i r t t' : on_msg i r t = Ret t' → 0 ≤ i < MAX_MESSAGE_ID ∧ t !! i = None ∧ t' = <[i := r]> t.
Proof.
  unfold on_msg. intros (u & Hu & E)%bind_Ret. destruct (t !! i) eqn:Et; [done|]. injection E as <-.
  unfold cxx_assert in Hu. destruct ((0 <=? i) && _) eqn:Eb; [|done].
  apply andb_true_iff in Eb as [H1%Z.leb_le H2%Z.ltb_lt]. done.
Qed.

(** The table holds what was there and what was declared, each number once and in range. *)
Lemma on_msgs_lookup l : ∀ t t', on_msgs l t = Ret t' →
  NoDup (map fst l) ∧ (∀ i r, (i, r) ∈ l → 0 ≤ i < MAX_MESSAGE_ID ∧ t !! i = None ∧ t' !! i = Some r) ∧
  ∀ i, i ∉ map fst l → t' !! i = t !! i.
Proof.
  induction l as [|[i r] l IH]; intros t t'; cbn [on_msgs map].
  - intros [= <-]. split_and!; [constructor|by intros i r ?%elem_of_nil|done].
  - intros (t1 & (Hi & Ht & ->)%on_msg_Ret & (Hn & Hin & Hout)%IH)%bind_Ret.
    assert (i ∉ map fst l) as Hil.
    { intros ((i', r') & -> & Hx)%list_elem_of_fmap. destruct (Hin _ _ Hx) as (_ & Hno & _). by rewrite lookup_insert_eq in Hno. }
    split_and!.
    + by constructor.
    + intros j s [[= -> ->]|Hx]%elem_of_cons.
      * split_and!; [lia|lia|done|]. rewrite Hout by done. apply lookup_insert_eq.
      * destruct (Hin _ _ Hx) as (H1 & H2 & H3). split_and!; [lia|lia| |done].
        by apply lookup_insert_None in H2 as [H2 _].
    + intros j [Hne Hj]%not_elem_of_cons. rewrite Hout, lookup_insert_ne by done. done.
Qed.

(** The bytes of a message that [sendMessage(msgid, msg)] makes. *)
Lemma make_netmsg_parts msgid payload : netmessage_size + Z.of_nat (length payload) < 2 ^ 31 →
  netmsg_len (make_netmsg msgid payload) = Ret (Z.of_nat (length (make_netmsg msgid payload))) ∧
  Z.of_nat (length (make_netmsg msgid payload)) = netmessage_size + Z.of_nat (length payload) ∧
  netmsg_id (make_netmsg msgid payload) = Ret (u16 msgid) ∧
  drop (Z.to_nat netmessage_size) (make_netmsg msgid payload) = payload.
Proof.
  intros Hl. pose proof (make_netmsg_frame msgid payload Hl) as [Hn Hv].
  assert (Z.of_nat (length (make_netmsg msgid payload)) = netmessage_size + Z.of_nat (length payload)) as Hlen.
  { unfold make_netmsg. rewrite !length_app, !length_le_bytes. unfold netmessage_size. lia. }
  unfold netmsg_len, netmsg_id. unfold netmessage_size in *.
  rewrite (proj2 (Nat.ltb_ge _ 4)), (proj2 (Nat.ltb_ge _ 6)), Hv by lia. split_and!; [done|done| |].
  - unfold make_netmsg. rewrite drop_app_length' by by rewrite length_le_bytes.
    rewrite take_app_length', le_val_le_bytes by by rewrite length_le_bytes. change (2 ^ (8 * Z.of_nat 2)) with (2 ^ 16).
    unfold u16. f_equal. apply Z.mod_mod. done.
  - unfold make_netmsg. by rewrite !app_assoc, drop_app_length' by by rewrite !length_app, !length_le_bytes.
Qed.

Lemma u16_bound z : 0 ≤ u16 z < 65536.
Proof. apply (wrap_fits 16 z). lia. Qed.

(** What the parser of a service does with a message that was made by [sendMessage]. *)
Lemma service_message t a task msgid payload : netmessage_size + Z.of_nat (length payload) < 2 ^ 31 →
  service_parser t a task (make_netmsg msgid payload) =
  if u16 msgid =? MAX_MESSAGE_ID then Ret (a, [CallCloseTask task], true)
  else match t !! u16 msgid with
       | None => Ret (a, [], true)
       | Some r => '(a, cs, rc) ← r a task (make_netmsg msgid payload); Ret (a, if (rc : bool) then cs else cs ++ [CallCloseTask task], true)
       end.
Proof.
  intros Hl. destruct (make_netmsg_parts msgid payload Hl) as (_ & _ & Eid & _). pose proof (u16_bound msgid) as Hu.
  unfold service_parser, dispatch_message. rewrite Eid. cbn [mbind outcome_bind].
  rewrite (proj2 (Z.ltb_ge _ 0)) by lia. cbn [orb]. unfold MAX_MESSAGE_ID.
  destruct (Z.leb_spec 65535 (u16 msgid)).
  - by rewrite (proj2 (Z.eqb_eq (u16 msgid) 65535)) by lia.
  - rewrite (proj2 (Z.eqb_neq (u16 msgid) 65535)) by lia. by destruct (t !! u16 msgid).
Qed.

Lemma onMessage_raw_message {M} (parse : list Z → option M) f (a : A) task msgid payload :
  netmessage_size + Z.of_nat (length payload) < 2 ^ 31 →
  onMessage_raw parse f a task (make_netmsg msgid payload) =
  match parse payload with
  | None => Ret (a, [], false)
  | Some msg => Ret (f a task msg (make_netmsg msgid payload), true)
  end.
Proof.
  intros Hl. destruct (make_netmsg_parts msgid payload Hl) as (El & Elen & _ & Ed). unfold onMessage_raw. rewrite El.
  cbn [mbind outcome_bind]. rewrite Ed, Elen.
  rewrite (proj2 (Z.ltb_ge _ _)), (proj2 (Z.ltb_ge _ _)) by lia. cbn [orb].
  rewrite take_ge by (unfold netmessage_size; lia). destruct (parse payload) as [msg|]; [|done].
  by destruct (f a task msg (make_netmsg msgid payload)).
Qed.
End Reach.

(** C17 (functional): messages reach the handler of their number.  When the declarations of a service
    do not abort, their numbers are distinct and below 65535.  A message that a peer sends
    with sendMessage(msgid, msg) then goes to the handler declared for msgid modulo 65536,
    with the contents parsed; without a handler it is dropped; when its contents can not be
    parsed, or the number is 65535, its connection is closed.  The gateway and the log
    server, which declare none, drop or close; a message of 4 or 5 bytes, which the
    framing lets through, they read past its end. *)
Theorem messages_reach_handlers {A} (l : list (Z * MESSAGE_ROUTINE A)) (t : MessageTable A) a task msgid payload :
  on_msgs l declare_message = Ret t → netmessage_size + Z.of_nat (length payload) < 2 ^ 31 →
  NoDup (map fst l) ∧ Forall (λ i, 0 ≤ i < MAX_MESSAGE_ID) (map fst l) ∧
  (∀ M (parse : list Z → option M) f, (u16 msgid, onMessage_raw parse f) ∈ l →
     service_parser t a task (make_netmsg msgid payload) =
     match parse payload with
     | Some msg => Ret (f a task msg (make_netmsg msgid payload), true)
     | None => Ret (a, [CallCloseTask task], true)
     end) ∧
  (u16 msgid ∉ map fst l → ∀ cs, cs = (if u16 msgid =? MAX_MESSAGE_ID then [CallCloseTask task] else []) →
     service_parser t a task (make_netmsg msgid payload) = Ret (a, cs, true) ∧
     gateway_parser a task (make_netmsg msgid payload) = Ret (a, cs, true)) ∧
  ∀ m, (length m < 6)%nat → gateway_parser a task m = Undef.
Proof.
  intros Ht Hl. destruct (on_msgs_lookup l _ _ Ht) as (Hn & Hin & Hout). split; [done|]. split; [|split; [|split]].
  - apply Forall_forall. intros i ((j & r) & -> & Hx)%list_elem_of_fmap. by destruct (Hin _ _ Hx).
  - intros M parse f Hx. destruct (Hin _ _ Hx) as (Hr & _ & Hlook). rewrite service_message by done.
    rewrite (proj2 (Z.eqb_neq (u16 msgid) _)) by (unfold MAX_MESSAGE_ID in *; lia). rewrite Hlook, onMessage_raw_message by done.
    destruct (parse payload) as [msg|]; [|done]. cbn [mbind outcome_bind]. by destruct (f a task msg _).
  - intros Hx cs ->. unfold gateway_parser. rewrite !service_message by done. rewrite (Hout _ Hx). unfold declare_message. rewrite lookup_empty.
    by destruct (u16 msgid =? MAX_MESSAGE_ID).
  - intros m Hm. unfold gateway_parser, service_parser, dispatch_message, netmsg_id. by rewrite (proj2 (Nat.ltb_lt _ 6)) by lia.
Qed.

(** ** The manager *)

(** Traversal is by the entries up to the first that stops it. *)
Lemma manager_traverse_all {E} (invoke : E → bool) order : forallb invoke order = true → manager_traverse invoke order = (order, true).
Proof.
  induction order as [|e order IH]; [done|]. cbn. rewrite andb_true_iff. intros [-> Ho]. by rewrite (IH Ho).
Qed.
Lemma manager_traverse_stop {E} (invoke : E → bool) es e rest : forallb invoke es = true → invoke e = false →
  manager_traverse invoke (es ++ e :: rest) = (es ++ [e], false).
Proof.
  intros Hes He. induction es as [|x es IH]; cbn; [by rewrite He|]. cbn in Hes. apply andb_true_iff in Hes as [-> Hes].
  by rewrite (IH Hes).
Qed.

(** An entry is added once; [remove] goes by the id and also removes another entry that has it. *)
Lemma manager_add_remove {E} (id : E → Z) (e e' : E) (m : gmap Z E) : id e = id e' → m !! id e = None →
  manager_add id e m = (true, <[id e := e]> m) ∧
  fst (manager_add id e' (snd (manager_add id e m))) = false ∧
  manager_remove id e' (snd (manager_add id e m)) = m.
Proof.
  intros Hid Hm. unfold manager_add, manager_remove. rewrite Hm. cbn [snd]. split; [done|].
  rewrite <- Hid, lookup_insert_eq. split; [done|]. by rewrite delete_insert_id.
Qed.

(** ** A service with two handlers *)

Definition demo_parse (s : list Z) : option Z := match s with [x] => Some x | _ => None end.
Definition demo_table : list (Z * MESSAGE_ROUTINE Z) :=
  [(5, onMessage_raw demo_parse (λ a t x m, (a + x, [CallMessage t m]))); (6, onMessage_raw demo_parse (λ a t x m, (a - x, [])))].
Definition demo_declared : MessageTable Z := match on_msgs demo_table declare_message with Ret t => t | _ => ∅ end.

Lemma messages_reach_handlers_witness :
  service_parser demo_declared 10 2%nat (make_netmsg (65536 + 5) [7]) = Ret (17, [CallMessage 2 (make_netmsg (65536 + 5) [7])], true) ∧
  service_parser demo_declared 10 2%nat (make_netmsg 5 [7; 7]) = Ret (10, [CallCloseTask 2], true).
Proof.
  assert (on_msgs demo_table declare_message = Ret demo_declared) as E by reflexivity. split.
  - apply (messages_reach_handlers demo_table demo_declared 10 2%nat (65536 + 5) [7] E ltac:(done)) with (parse := demo_parse)
      (f := λ a t x m, (a + x, [CallMessage t m])). left.
  - apply (messages_reach_handlers demo_table demo_declared 10 2%nat 5 [7; 7] E ltac:(done)) with (parse := demo_parse)
      (f := λ a t x m, (a + x, [CallMessage t m])). left.
Defined.
