(* ===== verification/Json.v ===== *)
(** * Json: RapidJSON's reader and the document it fills

    deps/rapidjson-1.1.0: [document.Parse(str, length)] with the default flags, as Entity.cpp
    calls it.  The text is a [MemoryStream] behind an [EncodedInputStream] of UTF-8, the
    reader calls a [GenericDocument], which keeps a stack of values.  A [double] is a
    [spec_float] of 53 bits, rounded to nearest, so the reader computes here. *)

From Stdlib Require Import SpecFloat.
From S2P Require Import Prelude CLib.

(** ** [double] and [float] *)

Abbreviation double := spec_float (only parsing).
Definition dmul : double → double → double := SFmul 53 1024.
Definition ddiv : double → double → double := SFdiv 53 1024.
Definition dadd : double → double → double := SFadd 53 1024.
(** [static_cast<double>] of an integer; a literal whose value is an integer. *)
Definition double_of (z : Z) : double := binary_normalize 53 1024 z 0 false.
(** [static_cast<float>] *)
Definition float_of (d : double) : spec_float :=
  match d with
  | S754_finite s m e => binary_round 24 128 s m e
  | _ => d
  end.

(** ** Values: [GenericValue] *)

(** [data_.n]: an integer in its eight bytes, or a [double]. *)
Inductive number := Whole (bits : Z) | Real (d : double).
(** [name] of a [Member] is a value too. *)
#[warnings="-register-all"]
Inductive value :=
| NullValue
| BoolValue (b : bool)
| NumberValue (flags : Z) (n : number)
| StringValue (s : list Z)
| ObjectValue (members : list (value * value))
| ArrayValue (elements : list value).

Definition kNumberType : Z := 6.
Definition kNumberFlag : Z := 16.
Definition kIntFlag : Z := 32.
Definition kUintFlag : Z := 64.
Definition kInt64Flag : Z := 128.
Definition kUint64Flag : Z := 256.
Definition kDoubleFlag : Z := 512.
Definition any_of : list Z → Z := foldr Z.lor 0.
Definition kNumberIntFlag := any_of [kNumberType; kNumberFlag; kIntFlag; kInt64Flag].
Definition kNumberUintFlag := any_of [kNumberType; kNumberFlag; kUintFlag; kUint64Flag; kInt64Flag].
Definition kNumberInt64Flag := any_of [kNumberType; kNumberFlag; kInt64Flag].
Definition kNumberUint64Flag := any_of [kNumberType; kNumberFlag; kUint64Flag].
Definition kNumberDoubleFlag := any_of [kNumberType; kNumberFlag; kDoubleFlag].

(** The constructors from a number.  [data_] is cleared, then the member is set. *)
Definition value_of_int (i : Z) : value :=
  NumberValue (if 0 <=? i then any_of [kNumberIntFlag; kUintFlag; kUint64Flag] else kNumberIntFlag) (Whole (u64 i)).
Definition value_of_unsigned (u : Z) : value :=
  NumberValue (if Z.land u 0x80000000 =? 0 then any_of [kNumberUintFlag; kIntFlag; kInt64Flag] else kNumberUintFlag) (Whole u).
Definition high_32 : Z := 0xFFFFFFFF00000000.
Definition high_33 : Z := 0xFFFFFFFF80000000.
Definition flag_if (b : bool) (flag : Z) : Z := if b then flag else 0.
Definition value_of_int64 (i64 : Z) : value :=
  NumberValue
    (Z.lor kNumberInt64Flag
       (if 0 <=? i64 then
          any_of [kNumberUint64Flag; flag_if (Z.land (u64 i64) high_32 =? 0) kUintFlag; flag_if (Z.land (u64 i64) high_33 =? 0) kIntFlag]
        else flag_if (s64 high_33 <=? i64) kIntFlag))
    (Whole (u64 i64)).
Definition value_of_uint64 (u : Z) : value :=
  NumberValue
    (any_of [kNumberUint64Flag; flag_if (Z.land u 0x8000000000000000 =? 0) kInt64Flag; flag_if (Z.land u high_32 =? 0) kUintFlag;
             flag_if (Z.land u high_33 =? 0) kIntFlag])
    (Whole u).
Definition value_of_double (d : double) : value := NumberValue kNumberDoubleFlag (Real d).

(** The tests, and the getters with their assertions.  An integer of the union is read from
    its low bytes; a [double] is not read as an integer. *)
Definition has_flag (flag : Z) (v : value) : bool :=
  match v with NumberValue flags _ => negb (Z.land flags flag =? 0) | _ => false end.
Definition IsNumber := has_flag kNumberFlag.
Definition IsInt := has_flag kIntFlag.
Definition IsUint := has_flag kUintFlag.
Definition IsInt64 := has_flag kInt64Flag.
Definition IsUint64 := has_flag kUint64Flag.
Definition IsDouble := has_flag kDoubleFlag.
Definition IsNull (v : value) : bool := match v with NullValue => true | _ => false end.
Definition IsBool (v : value) : bool := match v with BoolValue _ => true | _ => false end.
Definition IsTrue (v : value) : bool := match v with BoolValue b => b | _ => false end.
Definition IsString (v : value) : bool := match v with StringValue _ => true | _ => false end.
Definition IsObject (v : value) : bool := match v with ObjectValue _ => true | _ => false end.
Definition IsArray (v : value) : bool := match v with ArrayValue _ => true | _ => false end.
Definition bits_of (v : value) : outcome Z := match v with NumberValue _ (Whole bits) => Ret bits | _ => Undef end.
Definition GetInt (v : value) : outcome Z := _ ← cxx_assert (IsInt v); bits ← bits_of v; Ret (s32 bits).
Definition GetUint (v : value) : outcome Z := _ ← cxx_assert (IsUint v); bits ← bits_of v; Ret (u32 bits).
Definition GetInt64 (v : value) : outcome Z := _ ← cxx_assert (IsInt64 v); bits ← bits_of v; Ret (s64 bits).
Definition GetUint64 (v : value) : outcome Z := _ ← cxx_assert (IsUint64 v); bits_of v.
Definition GetDouble (v : value) : outcome double :=
  _ ← cxx_assert (IsNumber v);
  if IsDouble v then match v with NumberValue _ (Real d) => Ret d | _ => Undef end
  else if IsInt v then bits ← bits_of v; Ret (double_of (s32 bits))
  else if IsUint v then bits ← bits_of v; Ret (double_of (u32 bits))
  else if IsInt64 v then bits ← bits_of v; Ret (double_of (s64 bits))
  else _ ← cxx_assert (IsUint64 v); bits ← bits_of v; Ret (double_of bits).
Definition GetFloat (v : value) : outcome spec_float := d ← GetDouble v; Ret (float_of d).
(** The bytes of the string, with its length; a C string ends at the first NUL of them. *)
Definition GetString (v : value) : outcome (list Z) := match v with StringValue s => Ret s | _ => Aborted end.

(** [FindMember(const Ch* name)]: [None] is [MemberEnd()]. *)
Fixpoint find_member (name : list Z) (ms : list (value * value)) : option value :=
  match ms with
  | [] => None
  | (StringValue n, v) :: ms => if bool_decide (name = n) then Some v else find_member name ms
  | _ :: ms => find_member name ms
  end.
Definition FindMember (name : list Z) (v : value) : outcome (option value) :=
  match v with ObjectValue ms => Ret (find_member (c_str name) ms) | _ => Aborted end.
Definition HasMember (name : list Z) (v : value) : outcome bool := m ← FindMember name v; Ret (bool_decide (is_Some m)).
(** [operator[]] *)
Definition member_at (name : list Z) (v : value) : outcome value :=
  m ← FindMember name v; match m with Some v => Ret v | None => Aborted end.

(** ** The streams, the stack of the document, and parse errors *)

Inductive ParseErrorCode :=
| DocumentEmpty | DocumentRootNotSingular | ValueInvalid
| ObjectMissName | ObjectMissColon | ObjectMissCommaOrCurlyBracket | ArrayMissCommaOrSquareBracket
| StringUnicodeEscapeInvalidHex | StringUnicodeSurrogateInvalid | StringEscapeInvalid | StringMissQuotationMark
| StringInvalidEncoding | NumberTooBig | NumberMissFraction | NumberMissExponent | Termination | UnspecificSyntaxError.

(** [Tell()], the bytes from [src_] to [end_], and the stack with its top in front. *)
Record reading := Reading { tell : Z; src : list Z; stack : list value }.
(** The error is set once, and every caller returns early: it is an exception. *)
Inductive parsed (A : Type) := Parsed (a : A) (r : reading) | Failed (code : ParseErrorCode) (offset : Z).
Arguments Parsed {A} a r.
Arguments Failed {A} code offset.
Definition reader (A : Type) : Type := reading → outcome (parsed A).
#[export] Instance reader_ret : MRet reader := λ A a r, Ret (Parsed a r).
#[export] Instance reader_bind : MBind reader := λ A B f m r,
  match m r with Ret (Parsed a r) => f a r | Ret (Failed c o) => Ret (Failed c o) | Aborted => Aborted | Undef => Undef end.
Definition fail {A} (code : ParseErrorCode) (offset : Z) : reader A := λ r, Ret (Failed code offset).
(** A loop that is cut off: excluded by [Parse_sound]. *)
Definition lost {A} : reader A := λ r, Undef.
Definition lift {A} (x : outcome A) : reader A :=
  λ r, match x with Ret a => Ret (Parsed a r) | Aborted => Aborted | Undef => Undef end.
Definition assert (b : bool) : reader unit := lift (cxx_assert b).
(** A signed [int] that was computed. *)
Definition int (z : Z) : outcome Z := if bool_decide (sfits 32 z) then Ret z else Undef.

(** [MemoryStream] *)
Definition Peek : reader Z := λ r, Ret (Parsed (hd 0 (src r)) r).
Definition Take : reader Z := λ r,
  match src r with [] => Ret (Parsed 0 r) | c :: s => Ret (Parsed c (Reading (tell r + 1) s (stack r))) end.
Definition Tell : reader Z := λ r, Ret (Parsed (tell r) r).
Definition fail_here {A} (code : ParseErrorCode) : reader A := o ← Tell; fail code o.
Definition Consume (expect : Z) : reader bool := c ← Peek; if c =? expect then _ ← Take; mret true else mret false.
(** [Consume(is, w[0]) && Consume(is, w[1]) && ...] *)
Fixpoint consume_all (w : list Z) : reader bool :=
  match w with [] => mret true | c :: w => b ← Consume c; if b : bool then consume_all w else mret false end.
(** A loop that reads at least one byte in every turn but the last. *)
Definition each_byte {A} (loop : nat → reader A) : reader A := λ r, loop (S (length (src r))) r.

(** ** The handler: [GenericDocument] *)

Definition push (v : value) : reader unit := λ r, Ret (Parsed tt (Reading (tell r) (src r) (v :: stack r))).
(** [Pop<ValueType>(count)]: the elements in the order they were pushed. *)
Definition pop (count : Z) : reader (list value) := λ r,
  if count <=? Z.of_nat (length (stack r))
  then Ret (Parsed (reverse (take (Z.to_nat count) (stack r))) (Reading (tell r) (src r) (drop (Z.to_nat count) (stack r))))
  else Aborted.
(** [*Top() = v] *)
Definition set_top (v : value) : reader unit := λ r,
  match stack r with [] => Aborted | _ :: k => Ret (Parsed tt (Reading (tell r) (src r) (v :: k))) end.
(** [Pop<Member>]: a member is two values. *)
Fixpoint members_of_values (vs : list value) : list (value * value) :=
  match vs with n :: v :: vs => (n, v) :: members_of_values vs | _ => [] end.

Definition Null : reader unit := push NullValue.
Definition Bool (b : bool) : reader unit := push (BoolValue b).
Definition Int (i : Z) : reader unit := push (value_of_int i).
Definition Uint (i : Z) : reader unit := push (value_of_unsigned i).
Definition Int64 (i : Z) : reader unit := push (value_of_int64 i).
Definition Uint64 (i : Z) : reader unit := push (value_of_uint64 i).
Definition Double (d : double) : reader unit := push (value_of_double d).
Definition String (s : list Z) (length : Z) : reader unit := push (StringValue (take (Z.to_nat length) s)).
Definition Key : list Z → Z → reader unit := String.
Definition StartObject : reader unit := push (ObjectValue []).
Definition EndObject (memberCount : Z) : reader unit :=
  vs ← pop (2 * memberCount); set_top (ObjectValue (members_of_values vs)).
Definition StartArray : reader unit := push (ArrayValue []).
Definition EndArray (elementCount : Z) : reader unit := vs ← pop elementCount; set_top (ArrayValue vs).

(** ** White space and literals *)

Definition is_space (c : Z) : bool := (c =? 32) || (c =? 10) || (c =? 13) || (c =? 9).
Fixpoint skip_loop (n : nat) : reader unit :=
  match n with O => lost | S n => c ← Peek; if is_space c then _ ← Take; skip_loop n else mret tt end.
Definition SkipWhitespace : reader unit := each_byte skip_loop.

Definition ParseNull : reader unit :=
  c ← Peek; _ ← assert (c =? ch "n"); _ ← Take;
  b ← consume_all (str "ull"); if b : bool then Null else fail_here ValueInvalid.
Definition ParseTrue : reader unit :=
  c ← Peek; _ ← assert (c =? ch "t"); _ ← Take;
  b ← consume_all (str "rue"); if b : bool then Bool true else fail_here ValueInvalid.
Definition ParseFalse : reader unit :=
  c ← Peek; _ ← assert (c =? ch "f"); _ ← Take;
  b ← consume_all (str "alse"); if b : bool then Bool false else fail_here ValueInvalid.

(** ** Strings *)

(** [UTF8::Encode]: what it puts. *)
Definition Encode (codepoint : Z) : outcome (list Z) :=
  if codepoint <=? 0x7F then Ret [u8 (Z.land codepoint 0xFF)]
  else if codepoint <=? 0x7FF then
    Ret [u8 (Z.lor 0xC0 (Z.land (Z.shiftr codepoint 6) 0xFF)); u8 (Z.lor 0x80 (Z.land codepoint 0x3F))]
  else if codepoint <=? 0xFFFF then
    Ret [u8 (Z.lor 0xE0 (Z.land (Z.shiftr codepoint 12) 0xFF)); u8 (Z.lor 0x80 (Z.land (Z.shiftr codepoint 6) 0x3F));
         u8 (Z.lor 0x80 (Z.land codepoint 0x3F))]
  else
    _ ← cxx_assert (codepoint <=? 0x10FFFF);
    Ret [u8 (Z.lor 0xF0 (Z.land (Z.shiftr codepoint 18) 0xFF)); u8 (Z.lor 0x80 (Z.land (Z.shiftr codepoint 12) 0x3F));
         u8 (Z.lor 0x80 (Z.land (Z.shiftr codepoint 6) 0x3F)); u8 (Z.lor 0x80 (Z.land codepoint 0x3F))].

(** The digits may be upper or lower case; [None] is no digit. *)
Definition hex_digit (c : Z) : option Z :=
  if (ch "0" <=? c) && (c <=? ch "9") then Some (ch "0")
  else if (ch "A" <=? c) && (c <=? ch "F") then Some (ch "A" - 10)
  else if (ch "a" <=? c) && (c <=? ch "f") then Some (ch "a" - 10) else None.
Fixpoint hex_loop (escapeOffset : Z) (i : nat) (codepoint : Z) : reader Z :=
  match i with
  | O => mret codepoint
  | S i =>
      c ← Peek;
      let codepoint := u32 (u32 (Z.shiftl codepoint 4) + c) in
      match hex_digit c with
      | Some base => _ ← Take; hex_loop escapeOffset i (u32 (codepoint - base))
      | None => fail StringUnicodeEscapeInvalidHex escapeOffset
      end
  end.
Definition ParseHex4 (escapeOffset : Z) : reader Z := hex_loop escapeOffset 4 0.

(** The table [escape]: 0 is no escape. *)
Definition escape (e : Z) : Z :=
  if e =? 34 then 34 else if e =? ch "/" then ch "/" else if e =? 92 then 92
  else if e =? ch "b" then 8 else if e =? ch "f" then 12 else if e =? ch "n" then 10
  else if e =? ch "r" then 13 else if e =? ch "t" then 9 else 0.

(** The second half of a surrogate pair. *)
Definition ParseSurrogate (escapeOffset codepoint : Z) : reader Z :=
  if (0xD800 <=? codepoint) && (codepoint <=? 0xDBFF) then
    b ← consume_all [92; ch "u"];
    if negb b then fail StringUnicodeSurrogateInvalid escapeOffset
    else
      codepoint2 ← ParseHex4 escapeOffset;
      if (codepoint2 <? 0xDC00) || (0xDFFF <? codepoint2) then fail StringUnicodeSurrogateInvalid escapeOffset
      else mret (u32 (Z.lor (u32 (Z.shiftl (codepoint - 0xD800) 10)) (codepoint2 - 0xDC00) + 0x10000))
  else mret codepoint.
(** What an escape puts; the cursor is on the backslash. *)
Definition ParseEscape : reader (list Z) :=
  escapeOffset ← Tell; _ ← Take; e ← Peek;
  if negb (escape e =? 0) then _ ← Take; mret [escape e]
  else if e =? ch "u" then
    _ ← Take; codepoint ← ParseHex4 escapeOffset; codepoint ← ParseSurrogate escapeOffset codepoint; lift (Encode codepoint)
  else fail StringEscapeInvalid escapeOffset.

(** The bytes put on the stream, the NUL at the end with them.  [Ch] is signed, so a byte
    from 128 on is no control character as an [unsigned]. *)
Fixpoint string_loop (n : nat) (os : list Z) : reader (list Z) :=
  match n with
  | O => lost
  | S n =>
      c ← Peek;
      if c =? 92 then out ← ParseEscape; string_loop n (os ++ out)
      else if c =? 34 then _ ← Take; mret (os ++ [0])
      else if u32 (s8 c) <? 0x20 then
        if c =? 0 then fail_here StringMissQuotationMark else fail_here StringEscapeInvalid
      else _ ← Take; string_loop n (os ++ [c])
  end.
Definition ParseStringToStream : reader (list Z) := each_byte (λ n, string_loop n []).
Definition ParseString (isKey : bool) : reader unit :=
  c ← Peek; _ ← assert (c =? 34); _ ← Take;
  os ← ParseStringToStream;
  let length := u32 (u32 (Z.of_nat (length os)) - 1) in
  if isKey then Key os length else String os length.

(** ** Numbers *)

(** A turn of [while (s.Peek() >= '0' && s.Peek() <= '9')]: the digit is taken and the loop
    goes on or ends, or the loop ends in front of it, or the number is an error. *)
Inductive turn (A : Type) := Next (a : A) | Last (a : A) | Break (a : A) | Error (code : ParseErrorCode) (offset : Z).
Arguments Next {A} a.
Arguments Last {A} a.
Arguments Break {A} a.
Arguments Error {A} code offset.
Fixpoint digits_from {A} (body : A → Z → outcome (turn A)) (a : A) (t : Z) (s : list Z) (k : list value) : outcome (parsed A) :=
  match s with
  | c :: s' =>
      if isdigit c then
        r ← body a c;
        match r with
        | Next a => digits_from body a (t + 1) s' k
        | Last a => Ret (Parsed a (Reading (t + 1) s' k))
        | Break a => Ret (Parsed a (Reading t s k))
        | Error code offset => Ret (Failed code offset)
        end
      else Ret (Parsed a (Reading t s k))
  | [] => Ret (Parsed a (Reading t [] k))
  end.
Definition while_digit {A} (body : A → Z → outcome (turn A)) (a : A) : reader A :=
  λ r, digits_from body a (tell r) (src r) (stack r).
Definition digit_of (c : Z) : Z := c - ch "0".

(** A significand of [w] bits: [limit] followed by [last] is the largest number. *)
Record significand := Significand { i_ : Z; significandDigit : Z; overflows : bool }.
Definition whole_body (w limit last : Z) (s : significand) (c : Z) : outcome (turn significand) :=
  Ret (if (limit <=? i_ s) && (negb (i_ s =? limit) || (last <? c)) then Break (Significand (i_ s) (significandDigit s) true)
       else Next (Significand (wrap w (i_ s * 10 + digit_of c)) (significandDigit s + 1) (overflows s))).
(** ["DBL_MAX / 10.0"] *)
Definition too_big : double := double_of (17976931348623157 * 10 ^ 291).
Definition big_body (startOffset : Z) (d : double) (c : Z) : outcome (turn double) :=
  Ret (if SFleb too_big d then Error NumberTooBig startOffset else Next (dadd (dmul d (double_of 10)) (double_of (digit_of c)))).

(** The integer: [use64bit] with [i64], or [i]; [useDouble] with [d]. *)
Record integer := Integer { n_i : Z; n_i64 : Z; n_d : double; n_use64bit : bool; n_useDouble : bool; n_digits : Z }.
Definition positive_zero : double := S754_zero false.
(** The digits that fit an [unsigned]. *)
Definition ParseWord (minus : bool) : reader significand :=
  c ← Peek;
  if c =? ch "0" then _ ← Take; mret (Significand 0 0 false)
  else if (ch "1" <=? c) && (c <=? ch "9") then
    _ ← Take;
    while_digit (if minus then whole_body 32 214748364 (ch "8") else whole_body 32 429496729 (ch "5"))
      (Significand (digit_of c) 0 false)
  else fail_here ValueInvalid.
Definition ParseInteger (startOffset : Z) (minus : bool) : reader integer :=
  s ← ParseWord minus;
  if overflows s then
    s64 ← while_digit (if minus then whole_body 64 0x0CCCCCCCCCCCCCCC (ch "8") else whole_body 64 0x1999999999999999 (ch "5"))
            (Significand (i_ s) (significandDigit s) false);
    if overflows s64 then
      d ← while_digit (big_body startOffset) (double_of (i_ s64));
      mret (Integer (i_ s) (i_ s64) d true true (significandDigit s64))
    else mret (Integer (i_ s) (i_ s64) positive_zero true false (significandDigit s64))
  else mret (Integer (i_ s) 0 positive_zero false false (significandDigit s)).

(** The fraction: up to 53 bits of the significand in [i64], then up to 17 digits in [d]. *)
Record fraction := Fraction { f_d : double; f_expFrac : Z; f_useDouble : bool }.
Definition fast_body (st : Z * Z * Z) (c : Z) : outcome (turn (Z * Z * Z)) :=
  let '(i64, expFrac, digits) := st in
  if 0x1FFFFFFFFFFFFF <? i64 then Ret (Break st)
  else
    let i64 := u64 (i64 * 10 + digit_of c) in
    expFrac ← int (expFrac - 1);
    Ret (Next (i64, expFrac, if negb (i64 =? 0) then digits + 1 else digits)).
Definition slow_body (st : double * Z * Z) (c : Z) : outcome (turn (double * Z * Z)) :=
  let '(d, expFrac, digits) := st in
  if digits <? 17 then
    let d := dadd (dmul d (double_of 10)) (double_of (digit_of c)) in
    expFrac ← int (expFrac - 1);
    Ret (Next (d, expFrac, if SFltb positive_zero d then digits + 1 else digits))
  else Ret (Next st).
Definition ParseFraction (n : integer) : reader fraction :=
  dot ← Consume (ch ".");
  if dot : bool then
    c ← Peek;
    if negb (isdigit c) then fail_here NumberMissFraction
    else
      st ← (if n_useDouble n then mret (n_d n, 0, n_digits n)
            else
              st ← while_digit fast_body (if n_use64bit n then n_i64 n else n_i n, 0, n_digits n);
              let '(i64, expFrac, digits) := st in mret (double_of i64, expFrac, digits));
      st ← while_digit slow_body st;
      let '(d, expFrac, _) := st in mret (Fraction d expFrac true)
  else mret (Fraction (n_d n) 0 (n_useDouble n)).

(** The exponent. *)
Definition minus_body (exp : Z) (c : Z) : outcome (turn Z) :=
  exp ← int (exp * 10 + digit_of c); Ret (if 214748364 <=? exp then Last exp else Next exp).
Definition rest_body (st : unit) (c : Z) : outcome (turn unit) := Ret (Next st).
Definition plus_body (startOffset maxExp : Z) (exp : Z) (c : Z) : outcome (turn Z) :=
  exp ← int (exp * 10 + digit_of c); Ret (if maxExp <? exp then Error NumberTooBig startOffset else Next exp).
Record exponent := Exponent { e_d : double; e_exp : Z; e_useDouble : bool }.
Definition ParseExponent (startOffset : Z) (n : integer) (f : fraction) : reader exponent :=
  e ← Consume (ch "e"); e ← (if e : bool then mret true else Consume (ch "E"));
  if e : bool then
    let d := if f_useDouble f then f_d f else double_of (if n_use64bit n then n_i64 n else n_i n) in
    plus ← Consume (ch "+"); expMinus ← (if plus : bool then mret false else Consume (ch "-"));
    c ← Peek;
    if isdigit c then
      _ ← Take;
      exp ← (if expMinus : bool then
               exp ← while_digit minus_body (digit_of c); _ ← while_digit rest_body tt; mret (M := reader) exp
             else maxExp ← lift (int (308 - f_expFrac f)); while_digit (plus_body startOffset maxExp) (digit_of c));
      mret (Exponent d (if expMinus : bool then - exp else exp) true)
    else fail_here NumberMissExponent
  else mret (Exponent (f_d f) 0 (f_useDouble f)).

(** [internal::Pow10]: the table of literals. *)
Definition Pow10 (n : Z) : outcome double := _ ← cxx_assert ((0 <=? n) && (n <=? 308)); Ret (double_of (10 ^ n)).
Definition FastPath (significand : double) (exp : Z) : outcome double :=
  if exp <? -308 then Ret positive_zero
  else if 0 <=? exp then p ← Pow10 exp; Ret (dmul significand p)
  else p ← Pow10 (- exp); Ret (ddiv significand p).
Definition StrtodNormalPrecision (d : double) (p : Z) : outcome double :=
  if p <? -308 then d ← FastPath d (-308); FastPath d (p + 308) else FastPath d p.

Definition ParseNumber : reader unit :=
  startOffset ← Tell; minus ← Consume (ch "-");
  n ← ParseInteger startOffset minus;
  f ← ParseFraction n;
  e ← ParseExponent startOffset n f;
  if e_useDouble e then
    p ← lift (int (e_exp e + f_expFrac f));
    d ← lift (StrtodNormalPrecision (e_d e) p);
    Double (if minus : bool then SFopp d else d)
  else if n_use64bit n then
    if minus : bool then Int64 (s64 (u64 (Z.lnot (n_i64 n) + 1))) else Uint64 (n_i64 n)
  else if minus : bool then Int (s32 (u32 (Z.lnot (n_i n) + 1))) else Uint (n_i n).

(** ** Objects, arrays and the document *)

Section Values.
(** [ParseValue], one level further down. *)
Context (ParseValue : reader unit).

(** [memberCount] is a [SizeType]. *)
Fixpoint member_loop (n : nat) (memberCount : Z) : reader unit :=
  match n with
  | O => lost
  | S n =>
      c ← Peek;
      if negb (c =? 34) then fail_here ObjectMissName
      else
        _ ← ParseString true; _ ← SkipWhitespace;
        colon ← Consume (ch ":");
        if negb (colon : bool) then fail_here ObjectMissColon
        else
          _ ← SkipWhitespace; _ ← ParseValue; _ ← SkipWhitespace;
          let memberCount := u32 (memberCount + 1) in
          c ← Peek;
          if c =? ch "," then _ ← Take; _ ← SkipWhitespace; member_loop n memberCount
          else if c =? ch "}" then _ ← Take; EndObject memberCount
          else fail_here ObjectMissCommaOrCurlyBracket
  end.
Definition ParseObject : reader unit :=
  c ← Peek; _ ← assert (c =? ch "{"); _ ← Take; _ ← StartObject; _ ← SkipWhitespace;
  b ← Consume (ch "}"); if b : bool then EndObject 0 else each_byte (λ n, member_loop n 0).

Fixpoint element_loop (n : nat) (elementCount : Z) : reader unit :=
  match n with
  | O => lost
  | S n =>
      _ ← ParseValue;
      let elementCount := u32 (elementCount + 1) in
      _ ← SkipWhitespace;
      comma ← Consume (ch ",");
      if comma : bool then _ ← SkipWhitespace; element_loop n elementCount
      else
        b ← Consume (ch "]"); if b : bool then EndArray elementCount else fail_here ArrayMissCommaOrSquareBracket
  end.
Definition ParseArray : reader unit :=
  c ← Peek; _ ← assert (c =? ch "["); _ ← Take; _ ← StartArray; _ ← SkipWhitespace;
  b ← Consume (ch "]"); if b : bool then EndArray 0 else each_byte (λ n, element_loop n 0).
End Values.

(** [n] bounds the nesting. *)
Fixpoint ParseValue (n : nat) : reader unit :=
  match n with
  | O => lost
  | S n =>
      c ← Peek;
      if c =? ch "n" then ParseNull
      else if c =? ch "t" then ParseTrue
      else if c =? ch "f" then ParseFalse
      else if c =? 34 then ParseString false
      else if c =? ch "{" then ParseObject (ParseValue n)
      else if c =? ch "[" then ParseArray (ParseValue n)
      else ParseNumber
  end.

(** [GenericReader::Parse] *)
Definition ParseStream : reader unit :=
  _ ← SkipWhitespace; c ← Peek;
  if c =? 0 then fail_here DocumentEmpty
  else
    _ ← each_byte ParseValue; _ ← SkipWhitespace;
    c ← Peek; if negb (c =? 0) then fail_here DocumentRootNotSingular else mret tt.

(** The constructor of [EncodedInputStream]: a byte order mark, or a part of one. *)
Definition TakeBOM : reader unit := _ ← Consume 0xEF; _ ← Consume 0xBB; _ ← Consume 0xBF; mret tt.

(** [document.Parse(str, length)] on a new document: the root, or the error it has. *)
Inductive document := Root (v : value) | HasParseError (code : ParseErrorCode) (offset : Z).
Definition Parse (text : list Z) : outcome document :=
  match (_ ← TakeBOM; ParseStream) (Reading 0 text []) with
  | Ret (Parsed _ r) => match stack r with [v] => Ret (Root v) | _ => Aborted end
  | Ret (Failed code offset) => Ret (HasParseError code offset)
  | Aborted => Aborted
  | Undef => Undef
  end.
