(* ===== verification/JsonReader.v ===== *)
(** * JsonReader: what a reader of JSON does, in three judgements

    [runs]: it returns, with its cursor inside the text and its errors at positions of it.
    [extends]: what follows a token does not change how the token is read.  [shifted]: nor do
    the position of the token and the values below on the stack.  Each has a rule for the
    streams, for sequences and for the loop over digits. *)

From S2P Require Import Prelude CLib Json.

(** ** Texts *)

Definition len (s : list Z) : Z := Z.of_nat (length s).
(** "e-" with ten digits or more: the one thing that RapidJSON computes with and that is not
    bounded by the length of the text. *)
Definition far_exponent (s : list Z) : Prop :=
  ∃ a e ds b, s = a ++ [e; ch "-"] ++ ds ++ b ∧ e ∈ str "eE" ∧ all_digits ds ∧ (10 ≤ length ds)%nat.
(** What may follow a value. *)
Definition stop (rest : list Z) : Prop := hd 0 rest ∈ 0 :: 9 :: 10 :: 13 :: 32 :: str ",]}".

Lemma len_nil : len [] = 0.
Proof. done. Qed.
Lemma len_cons c s : len (c :: s) = len s + 1.
Proof. unfold len. cbn [length]. lia. Qed.
Lemma len_app a b : len (a ++ b) = len a + len b.
Proof. unfold len. rewrite length_app. lia. Qed.
Lemma len_nonneg s : 0 ≤ len s.
Proof. unfold len. lia. Qed.

(** A test of the next byte that no byte in front of [rest] passes. *)
Lemma stop_hd rest (P : Z → bool) : stop rest → forallb (λ c, negb (P c)) (0 :: 9 :: 10 :: 13 :: 32 :: str ",]}") = true → P (hd 0 rest) = false.
Proof. intros Hr Hf. rewrite forallb_forall in Hf. apply negb_true_iff, Hf, list_elem_of_In, Hr. Qed.
Lemma stop_digit rest : stop rest → isdigit (hd 0 rest) = false.
Proof. intros Hr. by apply stop_hd. Qed.

(** Running a sequence. *)
Lemma bind_parsed {A B} (m : reader A) (f : A → reader B) r a r' : m r = Ret (Parsed a r') → (m ≫= f) r = f a r'.
Proof. intros E. unfold mbind, reader_bind. by rewrite E. Qed.
Lemma bind_Peek {B} (f : Z → reader B) r : (Peek ≫= f) r = f (hd 0 (src r)) r.
Proof. done. Qed.
Lemma bind_Take {B} (f : Z → reader B) t c s k : (Take ≫= f) (Reading t (c :: s) k) = f c (Reading (t + 1) s k).
Proof. done. Qed.
Lemma Consume_true c t s k : Consume c (Reading t (c :: s) k) = Ret (Parsed true (Reading (t + 1) s k)).
Proof. unfold Consume, mbind, reader_bind, Peek. cbn [src hd]. by rewrite Z.eqb_refl. Qed.
Lemma Consume_false c r : hd 0 (src r) ≠ c → Consume c r = Ret (Parsed false r).
Proof. intros Hc. unfold Consume, mbind, reader_bind, Peek. by rewrite (proj2 (Z.eqb_neq _ _) Hc). Qed.

(** ** [runs] *)

Section Runs.
Context (whole : list Z).
Definition at_ (r : reading) : Prop := ∃ before, whole = before ++ src r ∧ tell r = len before.
Definition runs {A} (m : reader A) (r : reading) (Q : A → list Z → reading → Prop) : Prop :=
  at_ r →
  match m r with
  | Ret (Parsed a r') => at_ r' ∧ ∃ w, src r = w ++ src r' ∧ Q a w r'
  | Ret (Failed _ o) => 0 ≤ o ≤ len whole
  | Undef => far_exponent whole
  | Aborted => False
  end.

Lemma at_tell r : at_ r → 0 ≤ tell r ≤ len whole.
Proof. intros (b & -> & ->). rewrite len_app. pose proof (len_nonneg b). pose proof (len_nonneg (src r)). lia. Qed.
Lemma at_src r : at_ r → len (src r) ≤ len whole.
Proof. intros (b & -> & _). rewrite len_app. pose proof (len_nonneg b). lia. Qed.

Lemma runs_ret {A} (a : A) r Q : Q a [] r → runs (mret a) r Q.
Proof. intros HQ Hr. split; [done|]. by exists []. Qed.
Lemma runs_bind {A B} (m : reader A) (f : A → reader B) r P Q :
  runs m r P → (∀ a w r', at_ r' → src r = w ++ src r' → P a w r' → runs (f a) r' (λ b w', Q b (w ++ w'))) → runs (m ≫= f) r Q.
Proof.
  intros Hm Hf Hr. specialize (Hm Hr). unfold mbind, reader_bind.
  destruct (m r) as [[a r'|c o]| |]; [|done..]. destruct Hm as (Hr' & w & Hw & HP).
  specialize (Hf _ _ _ Hr' Hw HP Hr'). destruct (f a r') as [[b r''|c o]| |]; [|done..].
  destruct Hf as (H2 & w2 & Hw2 & HQ). split; [done|]. exists (w ++ w2). split; [by rewrite Hw, Hw2, app_assoc|done].
Qed.
Lemma runs_mono {A} (m : reader A) r P Q : runs m r P → (∀ a w r', at_ r' → src r = w ++ src r' → P a w r' → Q a w r') → runs m r Q.
Proof.
  intros Hm HPQ Hr. specialize (Hm Hr). destruct (m r) as [[a r'|c o]| |]; [|done..].
  destruct Hm as (Hr' & w & Hw & HP). split; [done|]. exists w. auto.
Qed.
(** What was known of the state. *)
Lemma runs_at {A} (m : reader A) r Q : (at_ r → runs m r Q) → runs m r Q.
Proof. intros H Hr. by apply H. Qed.
Lemma runs_fail {A} c o r (Q : A → list Z → reading → Prop) : 0 ≤ o ≤ len whole → runs (fail c o) r Q.
Proof. by intros Ho Hr. Qed.
Lemma runs_fail_here {A} c r (Q : A → list Z → reading → Prop) : runs (fail_here c) r Q.
Proof. intros Hr. by apply at_tell. Qed.
Lemma runs_Peek {B} (f : Z → reader B) r Q : runs (f (hd 0 (src r))) r Q → runs (Peek ≫= f) r Q.
Proof. done. Qed.
Lemma runs_Tell {B} (f : Z → reader B) r Q : (0 ≤ tell r ≤ len whole → runs (f (tell r)) r Q) → runs (Tell ≫= f) r Q.
Proof. intros H Hr. apply H; [by apply at_tell|done]. Qed.
Lemma runs_lift {A} (x : outcome A) a r Q : x = Ret a → Q a [] r → runs (lift x) r Q.
Proof. intros -> HQ Hr. split; [done|]. by exists []. Qed.
Lemma runs_assert b r (Q : unit → list Z → reading → Prop) : b = true → Q tt [] r → runs (assert b) r Q.
Proof. intros ->. by apply runs_lift. Qed.
Lemma runs_push v r (Q : unit → list Z → reading → Prop) : Q tt [] (Reading (tell r) (src r) (v :: stack r)) → runs (push v) r Q.
Proof. intros HQ Hr. split; [done|]. by exists []. Qed.

Lemma at_step r c s : src r = c :: s → at_ r → at_ (Reading (tell r + 1) s (stack r)).
Proof.
  intros Hs (b & Hb & Ht). exists (b ++ [c]). rewrite Hb, Hs, Ht. split; [by rewrite <-app_assoc|].
  by rewrite len_app, len_cons.
Qed.
(** Taking a byte that is there. *)
Lemma runs_Take {B} (f : Z → reader B) r c s Q : src r = c :: s →
  runs (f c) (Reading (tell r + 1) s (stack r)) (λ b w', Q b (c :: w')) → runs (Take ≫= f) r Q.
Proof.
  intros Hs Hf Hr. pose proof (at_step _ _ _ Hs Hr) as H1. specialize (Hf H1). unfold mbind, reader_bind, Take. rewrite Hs.
  destruct (f c _) as [[b r''|e o]| |]; [|done..]. destruct Hf as (H2 & w2 & Hw2 & HQ). split; [done|].
  exists (c :: w2). simpl in *. by rewrite Hw2.
Qed.
Lemma runs_Consume c r (Q : bool → list Z → reading → Prop) : c ≠ 0 →
  (∀ s, src r = c :: s → Q true [c] (Reading (tell r + 1) s (stack r))) → (hd 0 (src r) ≠ c → Q false [] r) → runs (Consume c) r Q.
Proof.
  intros Hc Ht Hf. unfold Consume. apply runs_Peek. destruct (Z.eqb_spec (hd 0 (src r)) c) as [He|He].
  - destruct (src r) as [|c' s] eqn:Es; simpl in He; [done|]. subst c'. eapply runs_Take; [done|].
    apply runs_ret. by apply Ht.
  - apply runs_ret. by apply Hf.
Qed.

(** A loop over digits keeps an invariant [I] of the digits it has taken, and has [J] at its
    end. *)
Lemma runs_while_digit {A} (body : A → Z → outcome (turn A)) (I J : list Z → A → Prop) a r : I [] a → (∀ w a, I w a → J w a) →
  (∀ w a c, I w a → all_digits w → isdigit c = true → len w < len whole →
    match body a c with
    | Ret (Next a') => I (w ++ [c]) a'
    | Ret (Last a') => J (w ++ [c]) a'
    | Ret (Break a') => J w a'
    | Ret (Error _ o) => 0 ≤ o ≤ len whole
    | Undef => far_exponent whole
    | Aborted => False
    end) →
  runs (while_digit body a) r (λ a w r', J w a ∧ all_digits w ∧ r' = Reading (tell r + len w) (src r') (stack r)).
Proof.
  intros Ha HIJ Hb. destruct r as [t s k]. unfold while_digit, runs. cbn [tell src stack].
  assert (∀ s t w a, I w a → all_digits w → len w + len s ≤ len whole → at_ (Reading t s k) →
    match digits_from body a t s k with
    | Ret (Parsed a r') => at_ r' ∧ ∃ w', s = w' ++ src r' ∧ J (w ++ w') a ∧ all_digits w' ∧ r' = Reading (t + len w') (src r') k
    | Ret (Failed _ o) => 0 ≤ o ≤ len whole
    | Undef => far_exponent whole
    | Aborted => False
    end) as Hloop.
  { clear -HIJ Hb. induction s as [|c s IH]; intros t w a Ha Hw Hl Hr; cbn [digits_from].
    - split; [done|]. exists []. rewrite (app_nil_r w), len_nil, Z.add_0_r. repeat split; [by apply HIJ|constructor].
    - destruct (isdigit c) eqn:Ec; [|split; [done|]; exists []; rewrite (app_nil_r w), len_nil, Z.add_0_r; repeat split; [by apply HIJ|constructor]].
      rewrite len_cons in Hl. pose proof (len_nonneg s).
      specialize (Hb w a c Ha Hw Ec ltac:(lia)). pose proof (at_step (Reading t (c :: s) k) c s eq_refl Hr) as H1. cbn [tell stack] in H1.
      cbn [mbind outcome_bind]. destruct (body a c) as [[a'|a'|a'|e o]| |]; cbn [mbind outcome_bind]; try done.
      + specialize (IH (t + 1) (w ++ [c]) a' Hb ltac:(by apply Forall_app; repeat constructor)
          ltac:(rewrite len_app, len_cons, len_nil; lia) H1).
        destruct (digits_from body a' (t + 1) s k) as [[a2 r2|e o]| |]; try done.
        destruct IH as (Hr2 & w2 & -> & HI & Hw2 & Er).
        split; [done|]. exists (c :: w2). split_and!; [done|by rewrite <-app_assoc in HI|by constructor|].
        rewrite Er at 1. rewrite len_cons. f_equal. lia.
      + split; [done|]. exists [c]. split_and!; [done|done|by repeat constructor|done].
      + split; [done|]. exists []. rewrite (app_nil_r w), len_nil, Z.add_0_r. repeat split; [done|constructor]. }
  intros Hr. pose proof (at_src _ Hr). specialize (Hloop s t [] a Ha ltac:(constructor) ltac:(rewrite len_nil; simpl in *; lia) Hr).
  destruct (digits_from body a t s k) as [[a' r'|e o]| |]; done.
Qed.
End Runs.

(** ** [extends] *)

Definition longer {A} (rest : list Z) (p : outcome (parsed A)) : outcome (parsed A) :=
  match p with Ret (Parsed a r) => Ret (Parsed a (Reading (tell r) (src r ++ rest) (stack r))) | _ => p end.
Definition extends {A} (m : reader A) : Prop :=
  ∀ rest t s k, stop rest → m (Reading t (s ++ rest) k) = longer rest (m (Reading t s k)).

Lemma extends_ret {A} (a : A) : extends (mret a).
Proof. done. Qed.
Lemma extends_fail {A} c o : extends (fail (A := A) c o).
Proof. done. Qed.
Lemma extends_fail_here {A} c : extends (fail_here (A := A) c).
Proof. done. Qed.
Lemma extends_push v : extends (push v).
Proof. done. Qed.
Lemma extends_lift {A} (x : outcome A) : extends (lift x).
Proof. intros rest t s k _. by destruct x. Qed.
Lemma extends_bind {A B} (m : reader A) (f : A → reader B) : extends m → (∀ a, extends (f a)) → extends (m ≫= f).
Proof.
  intros Hm Hf rest t s k Hr. unfold mbind, reader_bind. rewrite Hm by done.
  destruct (m (Reading t s k)) as [[a [t1 s1 k1]|c o]| |]; [|done..]. cbn [longer tell src stack]. by apply Hf.
Qed.
Lemma extends_Tell {B} (f : Z → reader B) : (∀ o, extends (f o)) → extends (Tell ≫= f).
Proof. intros Hf rest t s k Hr. by apply Hf. Qed.
Lemma extends_Consume c : negb (bool_decide (c ∈ 0 :: 9 :: 10 :: 13 :: 32 :: str ",]}")) = true → extends (Consume c).
Proof.
  intros Hc%negb_true_iff%bool_decide_eq_false rest t [|c' s] k Hr; unfold Consume, Peek, mbind, reader_bind; cbn [src app hd].
  - rewrite (proj2 (Z.eqb_neq _ _)) by (intros E; rewrite <-E in Hc; by apply Hc).
    by rewrite (proj2 (Z.eqb_neq _ _)) by (intros E; rewrite <-E in Hc; apply Hc; left).
  - by destruct (c' =? c).
Qed.
Lemma extends_while_digit {A} (body : A → Z → outcome (turn A)) a : extends (while_digit body a).
Proof.
  intros rest t s k Hr. unfold while_digit. cbn [tell src stack]. revert t a. induction s as [|c s IH]; intros t a; cbn [app digits_from].
  - pose proof (stop_digit _ Hr) as Hd. destruct rest as [|c rest]; [done|]. cbn [hd] in Hd. cbn [digits_from]. by rewrite Hd.
  - destruct (isdigit c); [|done]. destruct (body a c) as [[a'|a'|a'|e o]| |]; try done. apply IH.
Qed.
Lemma extends_if {A} (b : bool) (m m' : reader A) : extends m → extends m' → extends (if b then m else m').
Proof. by destruct b. Qed.

(** Looking whether a digit follows. *)
Lemma extends_digit {A} (m m' : reader A) : extends m → extends m' → extends (c ← Peek; if negb (isdigit c) then m else m').
Proof.
  intros Hm Hm' rest t s k Hr. unfold mbind, reader_bind, Peek. cbn [src].
  assert (isdigit (hd 0 (s ++ rest)) = isdigit (hd 0 s)) as -> by (destruct s; [by apply stop_digit|done]).
  destruct (negb _); auto.
Qed.
Lemma extends_digit_Take {A} (f : Z → reader A) m : (∀ c, extends (f c)) → extends m →
  extends (c ← Peek; if isdigit c then _ ← Take; f c else m).
Proof.
  intros Hf Hm rest t [|c s] k Hr; unfold mbind, reader_bind, Peek; cbn [src hd app].
  - rewrite stop_digit by done. by apply (Hm rest t []).
  - destruct (isdigit c); [|by apply (Hm rest t (c :: s))]. by apply (Hf c rest (t + 1) s k).
Qed.

(** ** [shifted]: the text a reader takes, its answer and what it pushes *)

Definition shifted {A} (m m' : reader A) (s : list Z) (Q : A → list Z → list value → Prop) : Prop :=
  ∀ t k, match m (Reading t s k) with
         | Ret (Parsed a r) => ∃ w p, s = w ++ src r ∧ r = Reading (t + len w) (src r) (p ++ k) ∧ Q a w p ∧
             ∀ t' k', m' (Reading t' s k') = Ret (Parsed a (Reading (t' + len w) (src r) (p ++ k')))
         | _ => True
         end.

Lemma shifted_ret {A} (a : A) s (Q : A → list Z → list value → Prop) : Q a [] [] → shifted (mret a) (mret a) s Q.
Proof.
  intros HQ t k. exists [], []. cbn [app src]. rewrite len_nil, Z.add_0_r. repeat split; [done|].
  intros t' k'. by rewrite Z.add_0_r.
Qed.
Lemma shifted_fail {A} c o m' s (Q : A → list Z → list value → Prop) : shifted (fail c o) m' s Q.
Proof. intros t k. exact I. Qed.
Lemma shifted_fail_here {A} c m' s (Q : A → list Z → list value → Prop) : shifted (fail_here c) m' s Q.
Proof. intros t k. exact I. Qed.
Lemma shifted_lift {A} (x : outcome A) s (Q : A → list Z → list value → Prop) :
  (∀ a, x = Ret a → Q a [] []) → shifted (lift x) (lift x) s Q.
Proof. intros HQ. destruct x as [a| |]; [exact (shifted_ret a s Q (HQ a eq_refl))|by intros t k..]. Qed.
Lemma shifted_push v s (Q : unit → list Z → list value → Prop) : Q tt [] [v] → shifted (push v) (push v) s Q.
Proof.
  intros HQ t k. exists [], [v]. cbn [app src tell stack push]. rewrite len_nil, Z.add_0_r. repeat split; [done|].
  intros t' k'. by rewrite Z.add_0_r.
Qed.
Lemma shifted_mono {A} (m m' : reader A) s (P Q : A → list Z → list value → Prop) :
  shifted m m' s P → (∀ a w p, P a w p → Q a w p) → shifted m m' s Q.
Proof.
  intros Hm HPQ t k. specialize (Hm t k). destruct (m _) as [[a r|]| |]; [|done..].
  destruct Hm as (w & p & Hs & Er & HP & Hm'). exists w, p. auto.
Qed.
Lemma shifted_bind {A B} (m m' : reader A) (f f' : A → reader B) s (P : A → list Z → list value → Prop) Q :
  shifted m m' s P → (∀ a w p s', s = w ++ s' → P a w p → shifted (f a) (f' a) s' (λ b w' p', Q b (w ++ w') (p' ++ p))) →
  shifted (m ≫= f) (m' ≫= f') s Q.
Proof.
  intros Hm Hf t k. specialize (Hm t k). unfold mbind, reader_bind. destruct (m (Reading t s k)) as [[a r|c o]| |]; [|done..].
  destruct Hm as (w & p & Hs & Er & HP & Hm'). rewrite Er. specialize (Hf a w p (src r) Hs HP (t + len w) (p ++ k)).
  destruct (f a _) as [[b r2|c o]| |]; [|done..]. destruct Hf as (w2 & p2 & Hs2 & Er2 & HQ & Hf').
  exists (w ++ w2), (p2 ++ p). rewrite len_app, Z.add_assoc, <-!app_assoc. split_and!; [by rewrite Hs, Hs2|done|done|].
  intros t' k'. by rewrite Hm', Hf', Z.add_assoc, <-app_assoc.
Qed.
Lemma shifted_Tell {B} (f f' : Z → reader B) s Q : (∀ o o', shifted (f o) (f' o') s Q) → shifted (Tell ≫= f) (Tell ≫= f') s Q.
Proof.
  intros Hf t k. unfold mbind, reader_bind, Tell. cbn [tell]. pose proof (Hf t t t k) as H0.
  destruct (f t (Reading t s k)) as [[b r|c o]| |] eqn:E; [|done..]. destruct H0 as (w & p & Hs & Er & HQ & _).
  exists w, p. split_and!; [done|done|done|]. intros t' k'. pose proof (Hf t t' t k) as H'. rewrite E in H'.
  destruct H' as (w' & p' & Hs' & Er' & _ & H'). rewrite H'.
  assert (w' = w) as -> by (rewrite Hs in Hs'; by apply app_inv_tail in Hs'). repeat f_equal.
  rewrite Er in Er'. injection Er' as E2. by apply app_inv_tail in E2.
Qed.
Lemma shifted_Peek {B} (f f' : Z → reader B) s Q : shifted (f (hd 0 s)) (f' (hd 0 s)) s Q → shifted (Peek ≫= f) (Peek ≫= f') s Q.
Proof. done. Qed.
Lemma shifted_Take {B} (f f' : Z → reader B) c s Q : shifted (f c) (f' c) s (λ b w, Q b (c :: w)) → shifted (Take ≫= f) (Take ≫= f') (c :: s) Q.
Proof.
  intros Hf t k. unfold mbind, reader_bind, Take. cbn [src tell stack]. specialize (Hf (t + 1) k).
  destruct (f c _) as [[b r|e o]| |]; [|done..]. destruct Hf as (w & p & Hs & Er & HQ & Hf'). exists (c :: w), p.
  rewrite len_cons. replace (t + (len w + 1)) with (t + 1 + len w) by lia. split_and!; [by rewrite Hs|done|done|].
  intros t' k'. rewrite Hf'. by replace (t' + 1 + len w) with (t' + (len w + 1)) by lia.
Qed.
Lemma shifted_Consume c s (Q : bool → list Z → list value → Prop) : c ≠ 0 → (hd 0 s = c → Q true [c] []) → Q false [] [] → shifted (Consume c) (Consume c) s Q.
Proof.
  intros Hc Ht Hf. unfold Consume. apply shifted_Peek. destruct (Z.eqb_spec (hd 0 s) c) as [He|He]; [|by apply shifted_ret].
  destruct s as [|c' s]; simpl in *; [done|]. subst c'. apply shifted_Take, shifted_ret. by apply Ht.
Qed.
(** Two bodies that differ in where their errors are. *)
Definition same_turn {A} (x x' : outcome (turn A)) : Prop :=
  match x with Ret (Error _ _) => True | Ret r => x' = Ret r | _ => True end.
Lemma shifted_while_digit {A} (body body' : A → Z → outcome (turn A)) a s (I : A → Prop) : I a →
  (∀ a c, same_turn (body a c) (body' a c)) →
  (∀ a c, I a → isdigit c = true → match body a c with Ret (Next a' | Last a' | Break a') => I a' | _ => True end) →
  shifted (while_digit body a) (while_digit body' a) s (λ a w p, all_digits w ∧ p = [] ∧ I a).
Proof.
  intros Ha Hb HI t k. unfold while_digit. cbn [tell src stack]. revert t a Ha.
  assert (∀ a t s, I a → ∃ w p, s = w ++ s ∧ Reading t s k = Reading (t + len w) s (p ++ k) ∧ (all_digits w ∧ p = [] ∧ I a) ∧
    ∀ t' k', Ret (Parsed a (Reading t' s k')) = Ret (Parsed a (Reading (t' + len w) s (p ++ k')))) as Hhere.
  { intros a t s0 Ha. exists [], []. rewrite len_nil, Z.add_0_r. cbn [app]. repeat split; [constructor|done|].
    intros t' k'. by rewrite Z.add_0_r. }
  induction s as [|c s IH]; intros t a Ha; cbn [digits_from]; [by apply Hhere|].
  destruct (isdigit c) eqn:Ec; [|by apply Hhere]. specialize (Hb a c). specialize (HI a c Ha Ec). cbn [mbind outcome_bind].
  destruct (body a c) as [[a'|a'|a'|e o]| |]; cbn [mbind outcome_bind]; try done; simpl in Hb; rewrite Hb; cbn [mbind outcome_bind].
  - specialize (IH (t + 1) a' HI). destruct (digits_from body a' (t + 1) s k) as [[a2 r|e o]| |]; try done.
    destruct IH as (w & p & Hs & Er & (Hw & -> & Ha2) & H'). exists (c :: w), []. rewrite len_cons.
    replace (t + (len w + 1)) with (t + 1 + len w) by lia. split_and!; [by rewrite Hs|done|by constructor|done|done|].
    intros t' k'. rewrite H'. by replace (t' + 1 + len w) with (t' + (len w + 1)) by lia.
  - exists [c], []. cbn [src]. split_and!; [done|done|by repeat constructor|done|done|done].
  - by apply Hhere.
Qed.
(** The first turn of a loop that takes its digit. *)
Lemma shifted_while_first {A} (body : A → Z → outcome (turn A)) a c s (Q : A → list Z → list value → Prop) : isdigit c = true →
  (∀ r, body a c = Ret r → ∃ a', r = Next a' ∧ shifted (while_digit body a') (while_digit body a') s (λ b w, Q b (c :: w))) →
  shifted (while_digit body a) (while_digit body a) (c :: s) Q.
Proof.
  intros Hc Hb t k. unfold while_digit. cbn [tell src stack digits_from]. rewrite Hc. destruct (body a c) as [r| |]; [|done..].
  destruct (Hb r eq_refl) as (a' & -> & H). specialize (H (t + 1) k). unfold while_digit in H. cbn [mbind outcome_bind tell src stack] in *.
  destruct (digits_from body a' (t + 1) s k) as [[b r2|e o]| |]; try done. destruct H as (w & p & Hs & Er & HQ & H').
  exists (c :: w), p. rewrite len_cons. replace (t + (len w + 1)) with (t + 1 + len w) by lia. split_and!; [by rewrite Hs|done|done|].
  intros t' k'. rewrite H'. by replace (t' + 1 + len w) with (t' + (len w + 1)) by lia.
Qed.
