(* ===== verification/JsonNumber.v ===== *)
(** * JsonNumber: the numbers RapidJSON reads

    Reading a number ends without an error of the program, with one exception that the text
    shows; what is read depends on the number alone, and is the value that [numeral_value] gives
    to its sign, digits, fraction and exponent; and an integer is read as itself. *)

From Stdlib Require Import SpecFloat.
From S2P Require Import Prelude CLib Json JsonReader.

(** ** Reading a number always ends *)

Lemma int_id z : - 2 ^ 31 ≤ z < 2 ^ 31 → int z = Ret z.
Proof. intros Hz. unfold int. by rewrite bool_decide_true. Qed.
Lemma digit_range c : isdigit c = true → 0 ≤ digit_of c ≤ 9.
Proof. intros Hc%isdigit_spec. unfold digit_of. change (ch "0") with 48. lia. Qed.

Lemma Strtod_total d p : p ≤ 308 → ∃ d', StrtodNormalPrecision d p = Ret d'.
Proof.
  intros Hp. assert (∀ d p, p ≤ 308 → ∃ d', FastPath d p = Ret d') as Hf.
  { clear. intros d p Hp. unfold FastPath, Pow10. destruct (Z.ltb_spec p (-308)); [by eexists|].
    destruct (Z.leb_spec 0 p).
    - rewrite (proj2 (Z.leb_le p 308)) by lia. by eexists.
    - rewrite (proj2 (Z.leb_le 0 (- p))), (proj2 (Z.leb_le (- p) 308)) by lia. by eexists. }
  unfold StrtodNormalPrecision. destruct (Z.ltb_spec p (-308)); [|by apply Hf].
  destruct (Hf d (-308) ltac:(lia)) as [d1 ->]. apply Hf. lia.
Qed.

Section Total.
Context (whole : list Z) (Hlen : len whole < 2 ^ 27).
Let runs {A} := @runs whole A.
Arguments runs {A} m r Q.

Lemma runs_whole_body w limit last s r : runs (while_digit (whole_body w limit last) s) r (λ _ _ _, True).
Proof.
  eapply runs_mono; [apply (runs_while_digit _ _ (λ _ _, True) (λ _ _, True)); [done..|]|done].
  intros w0 a c _ _ _ _. unfold whole_body. by destruct (_ && _).
Qed.
Lemma runs_ParseInteger o minus r : 0 ≤ o ≤ len whole → runs (ParseInteger o minus) r (λ _ _ _, True).
Proof.
  intros Ho. unfold ParseInteger.
  eapply (runs_bind _ _ _ _ (λ _ _ _, True)).
  - apply runs_Peek. destruct (src r) as [|c s] eqn:Es; [by apply runs_fail_here|]. cbn [hd].
    destruct (c =? ch "0"); [eapply runs_Take; [done|]; by apply runs_ret|].
    destruct (_ && _); [|by apply runs_fail_here]. eapply runs_Take; [done|]. destruct minus; apply runs_whole_body.
  - intros s w r' _ _ _. destruct (overflows s); [|by apply runs_ret].
    eapply runs_bind; [destruct minus; apply runs_whole_body|]. intros s64 w2 r2 _ _ _.
    destruct (overflows s64); [|by apply runs_ret].
    eapply runs_bind; [|by intros; apply runs_ret].
    apply (runs_while_digit _ _ (λ _ _, True) (λ _ _, True)); [done..|]. intros w3 d c _ _ _ _. unfold big_body. by destruct (SFleb _ _).
Qed.

(** The exponent of the fraction is at most the number of its digits. *)
Lemma runs_ParseFraction n r : runs (ParseFraction n) r (λ f _ _, - len whole ≤ f_expFrac f ≤ 0).
Proof.
  pose proof (len_nonneg whole). apply runs_at. intros Hr. unfold ParseFraction.
  eapply (runs_bind _ _ _ _ (λ _ _ _, True)); [by apply runs_Consume|]. intros [] w0 r0 Hr0 _ _; [|apply runs_ret; simpl; lia].
  apply runs_Peek. destruct (negb _); [by apply runs_fail_here|].
  eapply (runs_bind _ _ _ _ (λ st w r', - len w ≤ snd (fst st) ≤ 0 ∧ tell r' = tell r0 + len w)).
  { destruct (n_useDouble n); [apply runs_ret; rewrite len_nil; simpl; lia|].
    eapply runs_bind.
    - apply (runs_while_digit _ _ (λ w st, - len w ≤ snd (fst st) ≤ 0) (λ w st, - len w ≤ snd (fst st) ≤ 0)); [done..|].
      intros w [[i64 ef] ds] c Hi Hw Hc Hl. cbn [fst snd] in Hi. unfold fast_body. destruct (_ <? i64); [done|].
      rewrite int_id by lia. cbn [mbind outcome_bind fst snd]. rewrite len_app, len_cons, len_nil. lia.
    - intros [[i64 ef] ds] w r1 _ _ (Hi & _ & ->). apply runs_ret. by rewrite app_nil_r. }
  intros [[d ef] ds] w1 r1 Hr1 _ [He Ht1]. cbn [fst snd] in He.
  eapply runs_bind.
  { apply (runs_while_digit _ _ (λ w st, ef - len w ≤ snd (fst st) ≤ 0) (λ w st, ef - len w ≤ snd (fst st) ≤ 0)).
    - rewrite len_nil. simpl. lia.
    - done.
    - intros w [[d' ef'] ds'] c Hi Hw Hc Hl. cbn [fst snd] in Hi. unfold slow_body. pose proof (len_nonneg w1). pose proof (at_tell _ _ Hr1).
      pose proof (at_tell _ _ Hr0). destruct (ds' <? 17); [|cbn [fst snd]; rewrite len_app, len_cons, len_nil; lia].
      rewrite int_id by lia. cbn [mbind outcome_bind fst snd]. rewrite len_app, len_cons, len_nil. lia. }
  intros [[d' ef'] ds'] w2 r2 Hr2 _ (Hi & _ & Er2). cbn [fst snd] in Hi. apply runs_ret. cbn [f_expFrac].
  apply (f_equal tell) in Er2. cbn [tell] in Er2. pose proof (at_tell _ _ Hr2). pose proof (at_tell _ _ Hr0). lia.
Qed.

Definition small_or_far (e : exponent) (f : fraction) : Prop :=
  - 2147483647 ≤ e_exp e ∧ e_exp e + f_expFrac f ≤ 308 ∧ (e_exp e ≤ - 10 ^ 9 → far_exponent whole).
Lemma runs_minus_digits c r : isdigit c = true → runs (while_digit minus_body (digit_of c)) r
  (λ exp w _, 0 ≤ exp ≤ 2147483647 ∧ exp < 10 ^ (1 + len w) ∧ all_digits w).
Proof.
  intros Hc. pose proof (digit_range _ Hc).
  eapply runs_mono; [apply (runs_while_digit _ _ (λ w exp, 0 ≤ exp < 214748364 ∧ exp < 10 ^ (1 + len w))
    (λ w exp, 0 ≤ exp ≤ 2147483647 ∧ exp < 10 ^ (1 + len w)))|].
  - rewrite len_nil. simpl. lia.
  - intros w a Ha. lia.
  - intros w a d [Ha Hp] _ Hd _. pose proof (digit_range _ Hd). unfold minus_body. rewrite int_id by lia. cbn [mbind outcome_bind].
    assert (a * 10 + digit_of d < 10 ^ (1 + len (w ++ [d]))) as H10.
    { rewrite len_app, len_cons, len_nil, Z.add_assoc, Z.add_0_l, Z.pow_add_r by (pose proof (len_nonneg w); lia). lia. }
    destruct (Z.leb_spec 214748364 (a * 10 + digit_of d)); lia.
  - intros exp w r' _ _ ((H1 & H2) & H3 & _). auto.
Qed.
Lemma runs_plus_digits o maxExp c r : 0 ≤ o ≤ len whole → isdigit c = true → 9 ≤ maxExp ≤ 308 + 2 ^ 27 →
  runs (while_digit (plus_body o maxExp) (digit_of c)) r (λ exp _ _, 0 ≤ exp ≤ maxExp).
Proof.
  intros Ho Hc Hm. pose proof (digit_range _ Hc).
  eapply runs_mono; [apply (runs_while_digit _ _ (λ _ exp, 0 ≤ exp ≤ maxExp) (λ _ exp, 0 ≤ exp ≤ maxExp)); [lia|done|]|].
  - intros w a d Ha _ Hd _. pose proof (digit_range _ Hd). unfold plus_body. rewrite int_id by lia. cbn [mbind outcome_bind].
    destruct (Z.ltb_spec maxExp (a * 10 + digit_of d)); [done|lia].
  - by intros exp w r' _ _ (H1 & _).
Qed.
Lemma runs_ParseExponent o n f r : 0 ≤ o ≤ len whole → - len whole ≤ f_expFrac f ≤ 0 →
  runs (ParseExponent o n f) r (λ e _ _, small_or_far e f).
Proof.
  intros Ho Hf. unfold ParseExponent. apply runs_at. intros (before & Hwhole & _).
  eapply (runs_bind _ _ _ _ (λ e w r', if e : bool then w = [ch "e"] else w = [] ∧ r' = r)); [by apply runs_Consume|].
  intros e w0 r0 _ E0 Hw0.
  eapply (runs_bind _ _ _ _ (λ e w r', e = true → ∃ x, w0 ++ w = [x] ∧ x ∈ str "eE")).
  { destruct e; [apply runs_ret; intros _; exists (ch "e"); subst; split; [done|by left]|]. destruct Hw0 as [-> ->].
    apply runs_Consume; [done| |done]. intros s _ _. exists (ch "E"). split; [done|right; by left]. }
  intros e2 w1 r1 _ E1 Hw1. destruct e2; [|apply runs_ret; unfold small_or_far; cbn [e_exp]; split_and!; lia].
  destruct (Hw1 eq_refl) as (x & Hx & Hxe).
  eapply (runs_bind _ _ _ _ (λ p w r', if p : bool then True else w = [] ∧ r' = r1)); [by apply runs_Consume|].
  intros p w2 r2 _ E2 Hp.
  eapply (runs_bind _ _ _ _ (λ m w r', m = true → w2 ++ w = [ch "-"])).
  { destruct p; [by apply runs_ret|]. destruct Hp as [-> ->]. by apply runs_Consume. }
  intros m w3 r3 _ E3 Hm. apply runs_Peek. destruct (isdigit (hd 0 (src r3))) eqn:Ed; [|by apply runs_fail_here].
  destruct (src r3) as [|c s3] eqn:Es; [done|]. cbn [hd] in *. eapply runs_Take; [done|]. destruct m.
  - eapply runs_bind; [eapply runs_bind; [by apply runs_minus_digits|]|].
    + intros exp w4 r4 _ E4 (H1 & H2 & H3). eapply (runs_bind _ _ _ _ (λ _ _ _, True)).
      { eapply runs_mono; [by apply (runs_while_digit _ _ (λ _ _, True) (λ _ _, True))|done]. }
      intros _ w5 r5 _ _ _. apply runs_ret. rewrite app_nil_r.
      instantiate (1 := λ exp w _, 0 ≤ exp ≤ 2147483647 ∧ (10 ^ 9 ≤ exp → far_exponent whole)). cbn beta. split; [done|]. intros Hbig.
      cbn [src] in E4. exists (before), x, (c :: w4), (src r4). split_and!; [|done|by constructor|].
      * rewrite Hwhole, E0, E1, E2, E3, E4. rewrite !app_assoc. rewrite <-(app_assoc before), Hx, <-(app_assoc (before ++ [x])), (Hm eq_refl).
        rewrite <-!app_assoc. done.
      * assert (9 < 1 + len w4) as Hl; [|unfold len in Hl; simpl; lia]. apply (Z.pow_lt_mono_r_iff 10); [lia|pose proof (len_nonneg w4); lia|lia].
    + intros exp w4 r4 _ _ [H1 H2]. apply runs_ret. unfold small_or_far. cbn [e_exp]. split_and!; [lia|lia|]. intros H3. apply H2. lia.
  - eapply (runs_bind _ _ _ _ (λ exp _ _, 0 ≤ exp ≤ 308 - f_expFrac f)); [eapply (runs_bind _ _ _ _ (λ m _ _, m = 308 - f_expFrac f)); [by eapply runs_lift; [apply int_id; lia|]|]|].
    + intros ? w4 r4 _ _ ->. apply runs_plus_digits; [done..|lia].
    + intros exp w4 r4 _ _ H1. apply runs_ret. unfold small_or_far. cbn [e_exp]. split_and!; lia.
Qed.
Lemma runs_ParseNumber r : runs ParseNumber r (λ _ _ _, True).
Proof.
  unfold ParseNumber. apply runs_Tell. intros Ho. eapply (runs_bind _ _ _ _ (λ _ _ _, True)); [by apply runs_Consume|].
  intros minus w0 r0 _ _ _. eapply runs_bind; [by apply runs_ParseInteger|]. intros n w1 r1 _ _ _.
  eapply runs_bind; [apply runs_ParseFraction|]. intros f w2 r2 _ _ Hf.
  eapply runs_bind; [by apply runs_ParseExponent|]. intros e w3 r3 _ _ (H1 & H2 & H3).
  destruct (e_useDouble e); [|repeat case_match; by apply runs_push].
  destruct (decide (- 2 ^ 31 ≤ e_exp e + f_expFrac f)).
  - eapply (runs_bind _ _ _ _ (λ p _ _, p ≤ 308)); [eapply runs_lift; [apply int_id; lia|done]|].
    intros p w4 r4 _ _ Hp. destruct (Strtod_total (e_d e) p Hp) as [d Hd].
    eapply (runs_bind _ _ _ _ (λ _ _ _, True)); [by eapply runs_lift|]. intros d' w5 r5 _ _ _. by apply runs_push.
  - intros _. unfold mbind, reader_bind, lift, int. rewrite bool_decide_false by (unfold sfits; simpl; lia). apply H3. cbn beta in Hf. lia.
Qed.
End Total.

(** ** The syntax of a number, and what is read *)

(** RFC 8259, section 6. *)
Definition int_text (s : list Z) : Prop :=
  s = str "0" ∨ ∃ c ds, s = c :: ds ∧ 49 ≤ c ≤ 57 ∧ all_digits ds.
Definition frac_text (s : list Z) : Prop := s = [] ∨ ∃ c ds, s = ch "." :: c :: ds ∧ all_digits (c :: ds).
Definition exp_text (s : list Z) : Prop :=
  s = [] ∨ ∃ e sign c ds, s = e :: sign ++ c :: ds ∧ e ∈ str "eE" ∧ sign ∈ [[]; str "+"; str "-"] ∧ all_digits (c :: ds).
Definition number_syntax (s : list Z) : Prop :=
  ∃ minus i f e, s = minus ++ i ++ f ++ e ∧ minus ∈ [[]; str "-"] ∧ int_text i ∧ frac_text f ∧ exp_text e.
(** The same by its parts: the sign, the digits of the integer, those of the fraction, if it has
    one, and the letter, the sign and the digits of the exponent. *)
Record numeral := Numeral { negative : bool; int_digits : list Z; frac_digits : list Z; power : option (Z * list Z * list Z) }.
Definition minus_sign (b : bool) : list Z := if b then str "-" else [].
Definition point (fr : list Z) : list Z := match fr with [] => [] | _ => ch "." :: fr end.
Definition power_text (ex : option (Z * list Z * list Z)) : list Z := match ex with None => [] | Some (e, sign, ds) => e :: sign ++ ds end.
Definition spelled (nu : numeral) : list Z := minus_sign (negative nu) ++ int_digits nu ++ point (frac_digits nu) ++ power_text (power nu).
Definition power_ok (ex : option (Z * list Z * list Z)) : Prop :=
  match ex with None => True | Some (e, sign, ds) => e ∈ str "eE" ∧ sign ∈ [[]; str "+"; str "-"] ∧ all_digits ds ∧ ds ≠ [] end.
Definition well_formed (nu : numeral) : Prop := int_text (int_digits nu) ∧ all_digits (frac_digits nu) ∧ power_ok (power nu).

(** The four kinds of number, in their ranges. *)
Inductive number_value : value → Prop :=
| number_int i : sfits 32 i → number_value (value_of_int i)
| number_unsigned u : fits 32 u → number_value (value_of_unsigned u)
| number_int64 i : sfits 64 i → number_value (value_of_int64 i)
| number_uint64 u : fits 64 u → number_value (value_of_uint64 u)
| number_double d : number_value (value_of_double d).

(** The value of digits, after an integer [i]. *)
Definition digits_after (i : Z) (ds : list Z) : Z := fold_left (λ v c, v * 10 + (c - 48)) ds i.
(** The greatest integers that are kept as one, 32 bits and 64 bits wide. *)
Definition word_max (minus : bool) : Z := if minus then 2 ^ 31 else 2 ^ 32 - 1.
Definition long_max (minus : bool) : Z := if minus then 2 ^ 63 else 2 ^ 64 - 1.
Definition integer_value (minus : bool) (v : Z) : value :=
  if minus then if v <=? word_max true then value_of_int (- v) else value_of_int64 (- v)
  else if v <=? word_max false then value_of_unsigned v else value_of_uint64 v.
(** The longest prefix of the digits that stays up to the limit, and the digits behind it. *)
Fixpoint fitting (limit v : Z) (ds : list Z) : Z * list Z :=
  match ds with
  | [] => (v, [])
  | c :: ds' => if v * 10 + (c - 48) <=? limit then fitting limit (v * 10 + (c - 48)) ds' else (v, ds)
  end.
(** One more digit of a double, each operation rounded. *)
Definition next_digit (d : double) (c : Z) : double := dadd (dmul d (double_of 10)) (double_of (c - 48)).
(** The digits of an integer above 64 bits; from DBL_MAX / 10 on there must be no more. *)
Definition DBL_MAX : double := S754_finite false (2 ^ 53 - 1) 971.
Fixpoint big_digits (d : double) (ds : list Z) : option double :=
  match ds with
  | [] => Some d
  | c :: ds => if SFleb (ddiv DBL_MAX (double_of 10)) d then None else big_digits (next_digit d c) ds
  end.
(** The digits of a fraction: they are added exactly until the significand [m] has 53 bits, and
    then rounded while the count [n] of the digits is below 17; how many were taken. *)
Fixpoint exact_digits (m n : Z) (ds : list Z) : Z * Z * list Z :=
  match ds with
  | [] => (m, n, [])
  | c :: ds' =>
      if m <? 2 ^ 53 then let m := m * 10 + (c - 48) in exact_digits m (if m =? 0 then n else n + 1) ds'
      else (m, n, ds)
  end.
Fixpoint rounded_digits (d : double) (n : Z) (ds : list Z) : double * Z :=
  match ds with
  | [] => (d, 0)
  | c :: ds =>
      if n <? 17 then
        let d := next_digit d c in
        let '(d, taken) := rounded_digits d (if SFltb positive_zero d then n + 1 else n) ds in (d, taken + 1)
      else (d, 0)
  end.
Definition no_digits (ds : list Z) : bool := match ds with [] => true | _ => false end.
(** The significand with the digits of the fraction, and how many of these there are in it. *)
Definition significand_value (minus : bool) (i fr : list Z) : option (double * Z) :=
  let '(v, rest) := fitting (long_max minus) (hd 0 i - 48) (tail i) in
  let n := len (tail i) - len rest in
  if no_digits rest then
    let '(m, n, fr') := exact_digits v n fr in
    let '(d, taken) := rounded_digits (double_of m) n fr' in Some (d, len fr - len fr' + taken)
  else d ← big_digits (double_of v) rest; Some (rounded_digits d n fr).
(** A negative exponent is read until it is far beyond every double. *)
Fixpoint cut_exponent (x : Z) (ds : list Z) : Z :=
  match ds with
  | [] => x
  | c :: ds => let x := x * 10 + (c - 48) in if 214748364 <=? x then x else cut_exponent x ds
  end.
(** The power of ten to scale by: none when the exponent is too large, or not an [int]. *)
Definition power_value (taken : Z) (ex : option (Z * list Z * list Z)) : option Z :=
  match ex with
  | None => Some (- taken)
  | Some (_, sign, ds) =>
      if decide (sign = str "-") then
        let p := - cut_exponent (hd 0 ds - 48) (tail ds) - taken in if p <? - 2 ^ 31 then None else Some p
      else if 308 + taken <? digits_after 0 ds then None else Some (digits_after 0 ds - taken)
  end.
Definition scaled (d : double) (p : Z) : double :=
  if p <? -616 then S754_zero false
  else if p <? -308 then ddiv (ddiv d (double_of (10 ^ 308))) (double_of (10 ^ (- p - 308)))
  else if p <? 0 then ddiv d (double_of (10 ^ (- p)))
  else dmul d (double_of (10 ^ p)).
(** The value of a number: an integer when it has neither fraction nor exponent and is not too
    large, and a double else. *)
Definition numeral_value (nu : numeral) : option value :=
  let '(v, rest) := fitting (long_max (negative nu)) (hd 0 (int_digits nu) - 48) (tail (int_digits nu)) in
  if no_digits rest && no_digits (frac_digits nu) && no_digits (power_text (power nu)) then Some (integer_value (negative nu) v)
  else
    '(d, taken) ← significand_value (negative nu) (int_digits nu) (frac_digits nu);
    p ← power_value taken (power nu);
    Some (value_of_double (if negative nu then SFopp (scaled d p) else scaled d p)).
(** The numbers of the grammar with their values. *)
Definition number_text (s : list Z) (v : value) : Prop :=
  ∃ nu, s = spelled nu ∧ well_formed nu ∧ len s < 2 ^ 27 ∧ numeral_value nu = Some v.

Example numeral_ex : number_text (str "-12.5e-1") (value_of_double (S754_finite true 5629499534213120 (-52))).
Proof.
  exists (Numeral true (str "12") (str "5") (Some (ch "e", str "-", str "1"))).
  split_and!; [done| |by vm_compute|by vm_compute]. split; [|split; [by apply (bool_decide_unpack _)|]].
  - right. exists 49, (str "2"). split; [done|]. split; [done|by apply (bool_decide_unpack _)].
  - split_and!; [by left|by right; right; left|by apply (bool_decide_unpack _)|done].
Qed.

Lemma all_digits_app a b : all_digits a → all_digits b → all_digits (a ++ b).
Proof. intros. by apply Forall_app. Qed.

Lemma shifted_whole_body w limit last st s : 0 ≤ w → fits w (i_ st) →
  shifted (while_digit (whole_body w limit last) st) (while_digit (whole_body w limit last) st) s
    (λ st' ds p, all_digits ds ∧ p = [] ∧ fits w (i_ st')).
Proof.
  intros Hw Hst. apply shifted_while_digit; [done| |].
  - intros a c. unfold whole_body, same_turn. by destruct (_ && _).
  - intros a c Ha _. unfold whole_body. destruct (_ && _); [done|]. by apply wrap_fits.
Qed.
Lemma shifted_ParseInteger o o' minus s :
  shifted (ParseInteger o minus) (ParseInteger o' minus) s
    (λ n w p, int_text w ∧ p = [] ∧ fits 32 (n_i n) ∧ fits 64 (n_i64 n)).
Proof.
  unfold ParseInteger.
  eapply (shifted_bind _ _ _ _ _ (λ st w p, p = [] ∧ fits 32 (i_ st) ∧ int_text w ∧ (overflows st = true → w ≠ str "0"))).
  - unfold ParseWord. apply shifted_Peek. destruct s as [|c s]; [by apply shifted_fail_here|]. cbn [hd].
    destruct (Z.eqb_spec c (ch "0")) as [->|Hc0]; [apply shifted_Take, shifted_ret; split_and!; [done|by vm_compute|by left|done]|].
    destruct ((ch "1" <=? c) && (c <=? ch "9")) eqn:Hc; [|by apply shifted_fail_here].
    apply andb_true_iff in Hc as [H1%Z.leb_le H9%Z.leb_le]. change (ch "1") with 49 in H1. change (ch "9") with 57 in H9.
    apply shifted_Take. eapply shifted_mono.
    + destruct minus; apply shifted_whole_body; [lia|unfold fits, digit_of; change (ch "0") with 48; cbn [i_]; lia..| |];
        [lia|unfold fits, digit_of; change (ch "0") with 48; cbn [i_]; lia].
    + intros st w p (Hw & Hp & Hf). split_and!; [done|done|right; by exists c, w|]. intros _ [=]. by subst.
  - intros st w p s' -> (-> & Hf & Hw & Hov). cbn [app]. destruct (overflows st); [|by apply shifted_ret; rewrite app_nil_r].
    assert (∀ ds, all_digits ds → int_text (w ++ ds)) as Hmore.
    { intros ds Hds. destruct Hw as [->|(c & ds0 & -> & Hc & Hds0)]; [by destruct (Hov eq_refl)|].
      right. exists c, (ds0 ++ ds). split; [done|split; [done|by apply all_digits_app]]. }
    assert (fits 64 (i_ st)) as Hf64 by (unfold fits in *; simpl in *; lia).
    eapply shifted_bind; [destruct minus; by apply shifted_whole_body|]. intros st64 w2 p2 s2 _ (Hw2 & -> & Hf2).
    destruct (overflows st64); [|apply shifted_ret; rewrite !app_nil_r; auto].
    eapply shifted_bind.
    + apply (shifted_while_digit _ _ _ _ (λ _, True)); [done|intros d c; unfold big_body, same_turn; by destruct (SFleb _ _)|].
      intros d c _ _. unfold big_body. by destruct (SFleb _ _).
    + intros d w3 p3 s3 _ (Hw3 & -> & _). apply shifted_ret. rewrite !app_nil_r. split_and!; [|done..].
      apply Hmore. by apply all_digits_app.
Qed.
Lemma shifted_slow st s : shifted (while_digit slow_body st) (while_digit slow_body st) s
  (λ _ w p, all_digits w ∧ p = [] ∧ (isdigit (hd 0 s) = true → w ≠ [])).
Proof.
  assert (∀ st s, shifted (while_digit slow_body st) (while_digit slow_body st) s (λ _ w p, all_digits w ∧ p = [] ∧ True)) as H.
  { clear. intros st s. apply (shifted_while_digit _ _ _ _ (λ _, True)); [done| |].
    - intros a c. unfold same_turn. by destruct (slow_body a c) as [[]| |].
    - intros a c _ _. by destruct (slow_body a c) as [[]| |]. }
  destruct s as [|c s]; [eapply shifted_mono; [apply H|]; intros a w p [Hw [Hp _]]; by split_and!|]. destruct (isdigit c) eqn:Ec.
  - apply shifted_while_first; [done|]. intros r. destruct st as [[d ef] ds]. unfold slow_body, int.
    destruct (ds <? 17); [destruct (bool_decide _); [|done]|]; intros [= <-]; eexists; (split; [done|]);
      (eapply shifted_mono; [apply H|]); intros a w p (Hw & Hp & _); (split; [by constructor|done]).
  - eapply shifted_mono; [apply H|]. cbn [hd]. rewrite Ec. by intros a w p (? & ? & _).
Qed.
Lemma shifted_ParseFraction n s : shifted (ParseFraction n) (ParseFraction n) s (λ _ w p, frac_text w ∧ p = []).
Proof.
  unfold ParseFraction. eapply (shifted_bind _ _ _ _ _ (λ b w p, p = [] ∧ if b : bool then w = str "." else w = []));
    [by apply shifted_Consume|].
  intros [] w p s' _ [-> ->]; [|apply shifted_ret; by split; [left|]].
  apply shifted_Peek. destruct (isdigit (hd 0 s')) eqn:Ed; [|by apply shifted_fail_here]. cbn [negb].
  eapply (shifted_bind _ _ _ _ _ (λ _ w p, all_digits w ∧ p = [])).
  { destruct (n_useDouble n); [by apply shifted_ret; split; [constructor|]|]. eapply shifted_bind.
    - apply (shifted_while_digit _ _ _ _ (λ _, True)); [done| |].
      + intros a c. unfold same_turn. by destruct (fast_body a c) as [[]| |].
      + intros a c _ _. by destruct (fast_body a c) as [[]| |].
    - intros [[i64 ef] ds] w p s2 _ (Hw & -> & _). apply shifted_ret. by rewrite app_nil_r. }
  intros st w p s2 -> (Hw & ->). eapply shifted_bind; [apply shifted_slow|]. intros [[d ef] ds] w2 p2 s3 _ (Hw2 & -> & Hne).
  apply shifted_ret. split; [right|done]. rewrite app_nil_r. destruct (w ++ w2) as [|c ds'] eqn:E.
  - apply app_nil in E as [-> ->]. by destruct (Hne Ed).
  - exists c, ds'. split; [done|]. rewrite <-E. by apply all_digits_app.
Qed.
Lemma shifted_ParseExponent o o' n f s : shifted (ParseExponent o n f) (ParseExponent o' n f) s (λ _ w p, exp_text w ∧ p = []).
Proof.
  unfold ParseExponent. eapply (shifted_bind _ _ _ _ _ (λ b w p, p = [] ∧ if b : bool then w = str "e" else w = []));
    [by apply shifted_Consume|].
  intros e w p s' _ [-> Hw].
  eapply (shifted_bind _ _ _ _ _ (λ b w' p, p = [] ∧ if b : bool then ∃ x, w ++ w' = [x] ∧ x ∈ str "eE" else w ++ w' = [])).
  { destruct e; subst w; [apply shifted_ret; split; [done|]; exists (ch "e"); split; [done|by left]|].
    apply shifted_Consume; [done| |done]. intros _. split; [done|]. exists (ch "E"). split; [done|right; by left]. }
  intros e2 w2 p2 s2 _ [-> Hw2]. destruct e2; [|apply shifted_ret; rewrite app_nil_r, Hw2; by split; [left|]].
  destruct Hw2 as (x & Hx & Hxe).
  eapply (shifted_bind _ _ _ _ _ (λ b w p, p = [] ∧ if b : bool then w = str "+" else w = [])); [by apply shifted_Consume|].
  intros plus w3 p3 s3 _ [-> Hw3].
  eapply (shifted_bind _ _ _ _ _ (λ b w p, p = [] ∧ w3 ++ w ∈ [[]; str "+"; str "-"])).
  { destruct plus; subst w3; [apply shifted_ret; split; [done|]; by right; left|].
    apply shifted_Consume; [done| |]; intros; (split; [done|]); [right; right; by left|by left]. }
  intros m w4 p4 s4 _ [-> Hw4]. apply shifted_Peek. destruct s4 as [|c s4]; [by apply shifted_fail_here|]. cbn [hd].
  destruct (isdigit c) eqn:Ec; [|by apply shifted_fail_here]. apply shifted_Take.
  eapply (shifted_bind _ _ _ _ _ (λ _ w p, all_digits w ∧ p = [])).
  { destruct m.
    - eapply shifted_bind.
      + apply (shifted_while_digit _ _ _ _ (λ _, True)); [done|intros a d; unfold same_turn; by destruct (minus_body a d) as [[]| |]|].
        intros a d _ _. by destruct (minus_body a d) as [[]| |].
      + intros exp w5 p5 s5 _ (Hw5 & -> & _). eapply shifted_bind; [by apply (shifted_while_digit _ _ _ _ (λ _, True))|].
        intros _ w6 p6 s6 _ (Hw6 & -> & _). apply shifted_ret. rewrite app_nil_r. split; [by apply all_digits_app|done].
    - eapply (shifted_bind _ _ _ _ _ (λ _ w p, w = [] ∧ p = [])); [by apply shifted_lift|]. intros maxExp w5 p5 s5 _ [-> ->].
      eapply shifted_mono; [apply (shifted_while_digit _ _ _ _ (λ _, True)); [done| |]|].
      + intros a d. unfold plus_body, same_turn, int. destruct (bool_decide _); [|done]. cbn [mbind outcome_bind]. by destruct (_ <? _).
      + intros a d _ _. unfold plus_body, int. destruct (bool_decide _); [|done]. cbn [mbind outcome_bind]. by destruct (_ <? _).
      + intros a w5 p5 (Hw5 & -> & _). done. }
  intros exp w5 p5 s5 _ [Hw5 ->]. apply shifted_ret. split; [|done]. right. exists x, (w3 ++ w4), c, w5. rewrite app_nil_r.
  split_and!; [|done|done|by constructor]. rewrite (app_assoc w), Hx. cbn [app]. by rewrite <-app_assoc.
Qed.
Lemma s32_range z : sfits 32 (s32 z).
Proof. by apply swrap_fits. Qed.
Lemma s64_range z : sfits 64 (s64 z).
Proof. by apply swrap_fits. Qed.
Lemma shifted_ParseNumber s :
  shifted ParseNumber ParseNumber s (λ _ w p, number_syntax w ∧ ∃ v, p = [v] ∧ number_value v).
Proof.
  unfold ParseNumber. apply shifted_Tell. intros o o'.
  eapply (shifted_bind _ _ _ _ _ (λ b w p, p = [] ∧ w ∈ [[]; str "-"])); [apply shifted_Consume; [done| |]; intros; (split; [done|]); [right; by left|by left]|].
  intros minus w0 p0 s0 _ [-> Hw0]. eapply shifted_bind; [apply shifted_ParseInteger|]. intros n w1 p1 s1 _ (Hw1 & -> & H32 & H64).
  eapply shifted_bind; [apply shifted_ParseFraction|]. intros f w2 p2 s2 _ [Hw2 ->].
  eapply shifted_bind; [apply shifted_ParseExponent|]. intros e w3 p3 s3 _ [Hw3 ->].
  assert (∀ w, w = [] → number_syntax (w0 ++ w1 ++ w2 ++ w3 ++ w)) as Hsyn.
  { intros w ->. rewrite app_nil_r. by exists w0, w1, w2, w3. }
  destruct (e_useDouble e).
  - eapply (shifted_bind _ _ _ _ _ (λ _ w p, w = [] ∧ p = [])); [by apply shifted_lift|]. intros p w4 p4 s4 _ [-> ->].
    eapply (shifted_bind _ _ _ _ _ (λ _ w p, w = [] ∧ p = [])); [by apply shifted_lift|]. intros d w5 p5 s5 _ [-> ->].
    apply shifted_push. cbn [app]. split; [by apply Hsyn|]. eexists. split; [done|constructor].
  - destruct (n_use64bit n), minus; apply shifted_push; cbn [app]; (split; [by apply Hsyn|]); eexists; (split; [done|]);
      constructor; first [apply s64_range|apply s32_range|done].
Qed.

(** ** What follows a number does not matter *)

Lemma extends_ParseWord minus : extends (ParseWord minus).
Proof.
  intros rest t [|c s] k Hr; unfold ParseWord, mbind, reader_bind, Peek; cbn [src app hd].
  - change (0 =? ch "0") with false. change ((ch "1" <=? 0) && (0 <=? ch "9")) with false. cbn match.
    by rewrite (stop_hd rest (λ c, c =? ch "0")), (stop_hd rest (λ c, (ch "1" <=? c) && (c <=? ch "9"))) by done.
  - destruct (c =? ch "0"); [done|]. destruct (_ && _); [|done]. by apply (extends_while_digit _ _ rest (t + 1) s k).
Qed.
Lemma extends_ParseNumber : extends ParseNumber.
Proof.
  unfold ParseNumber. apply extends_Tell. intros o. apply extends_bind; [by apply extends_Consume|]. intros minus.
  apply extends_bind.
  { apply extends_bind; [apply extends_ParseWord|]. intros st. apply extends_if; [|apply extends_ret].
    apply extends_bind; [apply extends_while_digit|]. intros st'. apply extends_if; [|apply extends_ret].
    apply extends_bind; [apply extends_while_digit|]. intros d. apply extends_ret. }
  intros n. apply extends_bind.
  { apply extends_bind; [by apply extends_Consume|]. intros []; [|apply extends_ret].
    apply extends_digit; [apply extends_fail_here|]. apply extends_bind.
    - apply extends_if; [apply extends_ret|]. apply extends_bind; [apply extends_while_digit|]. by intros [[i64 ef] ds].
    - intros st. apply extends_bind; [apply extends_while_digit|]. by intros [[d ef] ds]. }
  intros f. apply extends_bind.
  { apply extends_bind; [by apply extends_Consume|]. intros e. apply extends_bind; [by destruct e; [|apply extends_Consume]|].
    intros []; [|apply extends_ret]. apply extends_bind; [by apply extends_Consume|]. intros plus.
    apply extends_bind; [by destruct plus; [|apply extends_Consume]|]. intros m.
    apply extends_digit_Take; [|apply extends_fail_here]. intros c. apply extends_bind; [|done].
    destruct m; [apply extends_bind; [apply extends_while_digit|]; intros exp; apply extends_bind; [apply extends_while_digit|done]|].
    apply extends_bind; [apply extends_lift|]. intros maxExp. apply extends_while_digit. }
  intros e. destruct (e_useDouble e).
  - apply extends_bind; [apply extends_lift|]. intros p. apply extends_bind; [apply extends_lift|]. intros d. apply extends_push.
  - destruct (n_use64bit n), minus; apply extends_push.
Qed.

(** ** The loops over digits compute the reference's values *)

Lemma digits_after_ge i ds : 0 ≤ i → all_digits ds → i ≤ digits_after i ds.
Proof.
  intros Hi Hds. revert i Hi. induction Hds as [|c ds Hc Hds IH]; intros i Hi; [done|]. unfold digits_after in *. cbn [fold_left].
  apply isdigit_spec in Hc. specialize (IH (i * 10 + (c - 48)) ltac:(lia)). lia.
Qed.
Lemma digits_from_stop {A} (body : A → Z → outcome (turn A)) a t x k : isdigit (hd 0 x) = false →
  digits_from body a t x k = Ret (Parsed a (Reading t x k)).
Proof. destruct x as [|c x]; [done|]. cbn [hd digits_from]. by intros ->. Qed.
(** One turn that takes its digit. *)
Lemma digits_from_next {A} (body : A → Z → outcome (turn A)) a a' c t s k : isdigit c = true → body a c = Ret (Next a') →
  digits_from body a t (c :: s) k = digits_from body a' (t + 1) s k.
Proof. intros Hc E. cbn [digits_from]. by rewrite Hc, E. Qed.

Lemma fitting_all limit v ds : all_digits ds → 0 ≤ v → digits_after v ds ≤ limit → fitting limit v ds = (digits_after v ds, []).
Proof.
  intros Hds. revert v. induction Hds as [|c ds Hc Hds IH]; intros v Hv Hl; [done|]. cbn [fitting]. unfold digits_after in *. cbn [fold_left] in *.
  apply isdigit_spec in Hc. pose proof (digits_after_ge (v * 10 + (c - 48)) ds ltac:(lia) Hds). unfold digits_after in *.
  rewrite (proj2 (Z.leb_le _ _)) by lia. apply IH; lia.
Qed.
Lemma fitting_spec limit v ds : all_digits ds → 0 ≤ v ≤ limit → let '(v', rest) := fitting limit v ds in
  v ≤ v' ≤ limit ∧ all_digits rest ∧ 0 ≤ len rest ≤ len ds ∧ match rest with [] => True | c :: _ => limit < v' * 10 + (c - 48) end.
Proof.
  intros Hds. revert v. induction Hds as [|c ds Hc Hds IH]; intros v Hv; cbn [fitting]; [split_and!; [lia|lia|constructor|done|done|done]|].
  pose proof (proj1 (isdigit_spec c) Hc). destruct (Z.leb_spec (v * 10 + (c - 48)) limit).
  - specialize (IH (v * 10 + (c - 48)) ltac:(lia)). destruct (fitting _ _ ds) as [v' rest]. destruct IH as (H1 & H2 & H3 & H4).
    rewrite len_cons. split_and!; [lia|lia|done|lia|lia|done].
  - pose proof (len_nonneg (c :: ds)). split_and!; [lia|lia|by constructor|lia|lia|lia].
Qed.
(** Looking for a prefix under a limit, and going on from there under a higher one. *)
Lemma fitting_on limit limit' v ds : limit ≤ limit' → fitting limit' v ds = let '(v', rest) := fitting limit v ds in fitting limit' v' rest.
Proof.
  intros Hl. revert v. induction ds as [|c ds IH]; intros v; [done|]. cbn [fitting]. destruct (Z.leb_spec (v * 10 + (c - 48)) limit); [|done].
  rewrite (proj2 (Z.leb_le _ _)) by lia. apply IH.
Qed.

Lemma whole_digits w limit last st ds x t k : all_digits ds → isdigit (hd 0 x) = false → 0 ≤ i_ st ≤ limit * 10 + (last - 48) →
  48 ≤ last ≤ 57 → 0 ≤ limit → limit * 10 + (last - 48) < 2 ^ w →
  let '(v, rest) := fitting (limit * 10 + (last - 48)) (i_ st) ds in
  digits_from (whole_body w limit last) st t (ds ++ x) k =
    Ret (Parsed (Significand v (significandDigit st + (len ds - len rest)) (overflows st || negb (no_digits rest)))
      (Reading (t + (len ds - len rest)) (rest ++ x) k)).
Proof.
  intros Hds Hx Hi Hlast Hlimit Hw. revert st t Hi. induction Hds as [|c ds Hc Hds IH]; intros st t Hi; cbn [fitting app].
  - rewrite digits_from_stop by done. rewrite len_nil, !Z.add_0_r, orb_false_r. by destruct st.
  - cbn [digits_from]. rewrite Hc. apply isdigit_spec in Hc.
    destruct (whole_body w limit last st c) as [r| |] eqn:Er; [|done..]. unfold whole_body in Er. injection Er as <-. change (digit_of c) with (c - 48).
    destruct (Z.leb_spec (i_ st * 10 + (c - 48)) (limit * 10 + (last - 48))) as [Hle|Hgt].
    + assert ((limit <=? i_ st) && (negb (i_ st =? limit) || (last <? c)) = false) as ->.
      { rewrite andb_false_iff, orb_false_iff, negb_false_iff, Z.leb_gt, Z.eqb_eq, Z.ltb_ge. lia. }
      cbn [mbind outcome_bind]. rewrite wrap_id by (unfold fits; lia).
      specialize (IH (Significand (i_ st * 10 + (c - 48)) (significandDigit st + 1) (overflows st)) (t + 1) ltac:(cbn [i_]; lia)).
      cbn [i_ significandDigit overflows] in IH. destruct (fitting _ _ ds) as [v rest]. rewrite IH, len_cons. do 3 f_equal; lia.
    + assert ((limit <=? i_ st) && (negb (i_ st =? limit) || (last <? c)) = true) as ->.
      { rewrite andb_true_iff, orb_true_iff, negb_true_iff, Z.leb_le, Z.eqb_neq, Z.ltb_lt. lia. }
      cbn [mbind outcome_bind no_digits negb]. rewrite orb_true_r, Z.sub_diag, !Z.add_0_r. done.
Qed.

(** What a reader refuses, it does not read. *)
Definition refuses {A} (x : outcome (parsed A)) : Prop := match x with Ret (Parsed _ _) => False | _ => True end.
Lemma refuses_bind {A B} (m : reader A) (f : A → reader B) r : refuses (m r) → refuses ((m ≫= f) r).
Proof. unfold mbind, reader_bind. by destruct (m r) as [[]| |]. Qed.

Lemma too_big_tenth : too_big = ddiv DBL_MAX (double_of 10).
Proof. by vm_compute. Qed.
Lemma big_turn o d c : big_body o d c = Ret (if SFleb (ddiv DBL_MAX (double_of 10)) d then Error NumberTooBig o else Next (next_digit d c)).
Proof. rewrite <-too_big_tenth. reflexivity. Qed.
Lemma big_loop o d ds x t k : all_digits ds → isdigit (hd 0 x) = false →
  match big_digits d ds with
  | Some d' => digits_from (big_body o) d t (ds ++ x) k = Ret (Parsed d' (Reading (t + len ds) x k))
  | None => refuses (digits_from (big_body o) d t (ds ++ x) k)
  end.
Proof.
  intros Hds Hx. revert d t. induction Hds as [|c ds Hc Hds IH]; intros d t; cbn [big_digits app].
  - by rewrite digits_from_stop, len_nil, Z.add_0_r.
  - cbn [digits_from]. rewrite Hc, big_turn. destruct (SFleb _ d); cbn [mbind outcome_bind]; [exact I|].
    specialize (IH (next_digit d c) (t + 1)).
    destruct (big_digits _ ds); [|done]. rewrite IH, len_cons. do 3 f_equal. lia.
Qed.
Lemma fast_loop m n ef ds x t k : all_digits ds → isdigit (hd 0 x) = false → 0 ≤ m → - 2 ^ 31 ≤ ef - len ds → ef ≤ 0 →
  let '(m', n', rest) := exact_digits m n ds in
  digits_from fast_body (m, ef, n) t (ds ++ x) k
    = Ret (Parsed (m', ef - (len ds - len rest), n') (Reading (t + (len ds - len rest)) (rest ++ x) k)).
Proof.
  intros Hds Hx. revert m n ef t. induction Hds as [|c ds Hc Hds IH]; intros m n ef t Hm Hef H0; cbn [exact_digits app].
  - rewrite digits_from_stop by done. by rewrite len_nil, Z.sub_0_r, Z.sub_0_r, Z.add_0_r.
  - rewrite len_cons in Hef. pose proof (len_nonneg ds). pose proof (proj1 (isdigit_spec c) Hc). cbn [digits_from]. rewrite Hc.
    destruct (Z.ltb_spec m (2 ^ 53)).
    + assert (fast_body (m, ef, n) c = Ret (Next (m * 10 + (c - 48), ef - 1, if m * 10 + (c - 48) =? 0 then n else n + 1))) as ->.
      { unfold fast_body. rewrite (proj2 (Z.ltb_ge _ m)) by lia. change (digit_of c) with (c - 48).
        assert (u64 (m * 10 + (c - 48)) = m * 10 + (c - 48)) as -> by (apply wrap_id; unfold fits; lia).
        rewrite int_id by lia. cbn [mbind outcome_bind]. cbn zeta. by destruct (_ =? 0). }
      cbn [mbind outcome_bind]. cbn zeta.
      specialize (IH (m * 10 + (c - 48)) (if m * 10 + (c - 48) =? 0 then n else n + 1) (ef - 1) (t + 1) ltac:(lia) ltac:(lia) ltac:(lia)).
      destruct (exact_digits _ _ ds) as [[m' n'] rest]. rewrite IH, len_cons. do 3 f_equal; [f_equal|]; lia.
    + assert (fast_body (m, ef, n) c = Ret (Break (m, ef, n))) as -> by (unfold fast_body; by rewrite (proj2 (Z.ltb_lt _ m)) by lia).
      cbn [mbind outcome_bind]. by rewrite !Z.sub_diag, Z.sub_0_r, Z.add_0_r.
Qed.
Lemma rounded_taken d n ds : 0 ≤ snd (rounded_digits d n ds) ≤ len ds.
Proof.
  revert d n. induction ds as [|c ds IH]; intros d n; cbn [rounded_digits]; [done|]. rewrite len_cons. pose proof (len_nonneg ds).
  destruct (n <? 17); [|simpl; lia]. cbn zeta. specialize (IH (next_digit d c) (if SFltb positive_zero (next_digit d c) then n + 1 else n)).
  destruct (rounded_digits _ _ ds). simpl in *. lia.
Qed.
Lemma slow_full d n ef ds x t k : all_digits ds → isdigit (hd 0 x) = false → 17 ≤ n →
  digits_from slow_body (d, ef, n) t (ds ++ x) k = Ret (Parsed (d, ef, n) (Reading (t + len ds) x k)).
Proof.
  intros Hds Hx Hn. revert t. induction Hds as [|c ds Hc Hds IH]; intros t; cbn [app].
  - by rewrite digits_from_stop, len_nil, Z.add_0_r.
  - rewrite (digits_from_next _ _ (d, ef, n)); [|done|unfold slow_body; by rewrite (proj2 (Z.ltb_ge n 17))].
    rewrite IH, len_cons. do 3 f_equal. lia.
Qed.
Lemma slow_loop d n ef ds x t k : all_digits ds → isdigit (hd 0 x) = false → - 2 ^ 31 ≤ ef - len ds → ef ≤ 0 →
  ∃ n', digits_from slow_body (d, ef, n) t (ds ++ x) k
    = Ret (Parsed (fst (rounded_digits d n ds), ef - snd (rounded_digits d n ds), n') (Reading (t + len ds) x k)).
Proof.
  intros Hds Hx. revert d n ef t. induction Hds as [|c ds Hc Hds IH]; intros d n ef t Hef H0; cbn [rounded_digits app].
  - exists n. rewrite digits_from_stop by done. by rewrite len_nil, Z.add_0_r, Z.sub_0_r.
  - rewrite len_cons in *. pose proof (len_nonneg ds). destruct (Z.ltb_spec n 17) as [Hn|Hn].
    + destruct (IH (next_digit d c) (if SFltb positive_zero (next_digit d c) then n + 1 else n) (ef - 1) (t + 1) ltac:(lia) ltac:(lia)) as (n' & E).
      exists n'. erewrite digits_from_next; [|done|].
      * rewrite E. cbn zeta. destruct (rounded_digits _ _ ds) as [d' tk]. cbn [fst snd]. do 3 f_equal; [f_equal|]; lia.
      * unfold slow_body. rewrite (proj2 (Z.ltb_lt n 17)), int_id by lia. done.
    + exists n. change (c :: ds ++ x) with ((c :: ds) ++ x). rewrite slow_full by (done || by constructor). cbn [fst snd].
      rewrite Z.sub_0_r, len_cons. done.
Qed.
Lemma minus_loop e ds t k : all_digits ds → 0 ≤ e < 214748364 → ∃ rest, all_digits rest ∧
  digits_from minus_body e t ds k = Ret (Parsed (cut_exponent e ds) (Reading (t + (len ds - len rest)) rest k)) ∧ 0 ≤ cut_exponent e ds < 2 ^ 31.
Proof.
  intros Hds. revert e t. induction Hds as [|c ds Hc Hds IH]; intros e t He; cbn [cut_exponent digits_from].
  - exists []. rewrite Z.sub_diag, Z.add_0_r. split_and!; [constructor|done|lia|lia].
  - rewrite Hc. pose proof (proj1 (isdigit_spec c) Hc). 
    assert (minus_body e c = Ret (if 214748364 <=? e * 10 + (c - 48) then Last (e * 10 + (c - 48)) else Next (e * 10 + (c - 48)))) as ->
      by (unfold minus_body; change (digit_of c) with (c - 48); by rewrite int_id by lia).
    cbn [mbind outcome_bind]. cbn zeta. destruct (Z.leb_spec 214748364 (e * 10 + (c - 48))).
    + exists ds. cbn [mbind outcome_bind]. rewrite len_cons. split_and!; [done|do 3 f_equal; lia|lia|lia].
    + destruct (IH (e * 10 + (c - 48)) (t + 1) ltac:(lia)) as (rest & Hr & E & Hb). exists rest. cbn [mbind outcome_bind].
      rewrite len_cons, E. split_and!; [done|do 3 f_equal; lia|lia|lia].
Qed.
Lemma rest_loop ds t k : all_digits ds → digits_from rest_body tt t ds k = Ret (Parsed tt (Reading (t + len ds) [] k)).
Proof.
  intros Hds. revert t. induction Hds as [|c ds Hc Hds IH]; intros t; cbn [digits_from]; [by rewrite len_nil, Z.add_0_r|].
  rewrite Hc. cbn [rest_body mbind outcome_bind]. rewrite IH, len_cons. do 3 f_equal. lia.
Qed.
Lemma plus_loop o maxExp e ds t k : all_digits ds → 0 ≤ e ≤ maxExp → maxExp < 214748364 →
  if decide (digits_after e ds ≤ maxExp) then digits_from (plus_body o maxExp) e t ds k = Ret (Parsed (digits_after e ds) (Reading (t + len ds) [] k))
  else refuses (digits_from (plus_body o maxExp) e t ds k).
Proof.
  intros Hds. revert e t. induction Hds as [|c ds Hc Hds IH]; intros e t He Hm; cbn [digits_from].
  - rewrite decide_True by apply He. by rewrite len_nil, Z.add_0_r.
  - rewrite Hc. pose proof (proj1 (isdigit_spec c) Hc). 
    assert (plus_body o maxExp e c = Ret (if maxExp <? e * 10 + (c - 48) then Error NumberTooBig o else Next (e * 10 + (c - 48)))) as ->
      by (unfold plus_body; change (digit_of c) with (c - 48); by rewrite int_id by lia).
    cbn [mbind outcome_bind]. change (digits_after e (c :: ds)) with (digits_after (e * 10 + (c - 48)) ds).
    pose proof (digits_after_ge (e * 10 + (c - 48)) ds ltac:(lia) Hds).
    destruct (Z.ltb_spec maxExp (e * 10 + (c - 48))); cbn [mbind outcome_bind].
    + by rewrite decide_False by lia.
    + specialize (IH (e * 10 + (c - 48)) (t + 1) ltac:(lia) Hm). destruct (decide _); [|done]. rewrite IH, len_cons. do 3 f_equal. lia.
Qed.


(** ** The parts of a number *)

(** Two prefixes: up to [word_max] in the first loop, up to [long_max] in the second. *)
Lemma fitting_word minus v ds : all_digits ds → 0 ≤ v ≤ 9 →
  let '(v1, rest1) := fitting (word_max minus) v ds in let '(v2, rest2) := fitting (long_max minus) v ds in
  fitting (long_max minus) v1 rest1 = (v2, rest2) ∧ 0 ≤ v1 ≤ word_max minus ∧ all_digits rest1 ∧ len rest2 ≤ len rest1 ∧
  (v2 <=? word_max minus) = no_digits rest1 ∧ (no_digits rest1 = true → v2 = v1 ∧ rest2 = []).
Proof.
  intros Hds Hv. assert (word_max minus * 10 + 9 ≤ long_max minus ∧ 9 ≤ word_max minus) as [Hwl H9] by (destruct minus; unfold word_max, long_max; lia).
  pose proof (fitting_on (word_max minus) (long_max minus) v ds ltac:(lia)) as E.
  pose proof (fitting_spec (word_max minus) v ds Hds ltac:(lia)) as H1.
  destruct (fitting (word_max minus) v ds) as [v1 rest1]. destruct H1 as (H1 & H2 & H3 & H4).
  pose proof (fitting_spec (long_max minus) v1 rest1 H2 ltac:(lia)) as H5. rewrite E in *.
  destruct (fitting (long_max minus) v1 rest1) as [v2 rest2] eqn:E2. destruct H5 as (H5 & H6 & H7 & H8).
  split_and!; [done|lia|lia|done|lia| |].
  - destruct rest1 as [|c rest1]; cbn [no_digits].
    + injection E2 as <- <-. apply Z.leb_le. lia.
    + apply Forall_cons in H2 as [Hc%isdigit_spec Hr1]. cbn [fitting] in E2. rewrite (proj2 (Z.leb_le _ _)) in E2 by lia.
      pose proof (fitting_spec (long_max minus) (v1 * 10 + (c - 48)) rest1 Hr1 ltac:(lia)) as H9'. rewrite E2 in H9'. apply Z.leb_gt. lia.
  - destruct rest1; [|done]. by injection E2 as <- <-.
Qed.

(** What is known of an integer that has been read: the double, if it is one, or the value. *)
Definition integer_is (minus : bool) (n : integer) (v : Z) (big : option double) (count : Z) : Prop :=
  n_use64bit n = negb (v <=? word_max minus) ∧ (if n_use64bit n then n_i64 n else n_i n) = v ∧ n_digits n = count ∧
  match big with Some d => n_useDouble n = true ∧ n_d n = d | None => n_useDouble n = false end.

Lemma ParseWord_digits minus c ds x t k : 49 ≤ c ≤ 57 → all_digits ds → isdigit (hd 0 x) = false →
  let '(v, rest) := fitting (word_max minus) (c - 48) ds in
  ParseWord minus (Reading t (c :: ds ++ x) k) =
    Ret (Parsed (Significand v (len ds - len rest) (negb (no_digits rest))) (Reading (t + 1 + (len ds - len rest)) (rest ++ x) k)).
Proof.
  intros Hc Hds Hx. unfold ParseWord. rewrite bind_Peek. cbn [src hd]. change (ch "0") with 48. change (ch "1") with 49. change (ch "9") with 57.
  rewrite (proj2 (Z.eqb_neq c 48)), (proj2 (Z.leb_le 49 c)), (proj2 (Z.leb_le c 57)) by lia. cbn [andb]. rewrite bind_Take.
  destruct minus.
  - apply (whole_digits 32 214748364 56 (Significand (c - 48) 0 false)); cbn [i_]; (done || lia).
  - apply (whole_digits 32 429496729 53 (Significand (c - 48) 0 false)); cbn [i_]; (done || lia).
Qed.
Lemma long_digits minus v n ds x t k : all_digits ds → isdigit (hd 0 x) = false → 0 ≤ v ≤ long_max minus →
  let '(v', rest) := fitting (long_max minus) v ds in
  while_digit (if minus then whole_body 64 0x0CCCCCCCCCCCCCCC (ch "8") else whole_body 64 0x1999999999999999 (ch "5")) (Significand v n false) (Reading t (ds ++ x) k) =
    Ret (Parsed (Significand v' (n + (len ds - len rest)) (negb (no_digits rest))) (Reading (t + (len ds - len rest)) (rest ++ x) k)).
Proof.
  intros Hds Hx Hv. destruct minus.
  - apply (whole_digits 64 0x0CCCCCCCCCCCCCCC 56 (Significand v n false)); cbn [i_]; unfold long_max in Hv; (done || lia).
  - apply (whole_digits 64 0x1999999999999999 53 (Significand v n false)); cbn [i_]; unfold long_max in Hv; (done || lia).
Qed.

Lemma ParseInteger_numeral o minus i x t k : int_text i → isdigit (hd 0 x) = false →
  let '(v, rest) := fitting (long_max minus) (hd 0 i - 48) (tail i) in
  let read big := ∃ n, ParseInteger o minus (Reading t (i ++ x) k) = Ret (Parsed n (Reading (t + len i) x k)) ∧
    integer_is minus n v big (len (tail i) - len rest) in
  if no_digits rest then read None
  else match big_digits (double_of v) rest with
       | Some d => read (Some d)
       | None => refuses (ParseInteger o minus (Reading t (i ++ x) k))
       end.
Proof.
  intros [->|(c & ds & -> & Hc & Hds)] Hx.
  { cbn. exists (Integer 0 0 positive_zero false false 0). split; [done|]. by destruct minus. }
  cbn [hd tail app]. pose proof (fitting_word minus (c - 48) ds Hds ltac:(lia)) as H.
  pose proof (ParseWord_digits minus c ds x t k Hc Hds Hx) as Ew.
  destruct (fitting (word_max minus) (c - 48) ds) as [v1 rest1]. destruct (fitting (long_max minus) (c - 48) ds) as [v rest].
  destruct H as (E & Hv1 & Hr1 & Hl & Hw & Hno). cbn zeta. unfold ParseInteger. rewrite len_cons.
  destruct rest1 as [|c1 rest1].
  - destruct (Hno eq_refl) as [-> ->]. cbn [no_digits]. eexists. rewrite (bind_parsed _ _ _ _ _ Ew). cbn [overflows no_digits negb i_ significandDigit app].
    split; [rewrite len_nil; unfold mret, reader_ret; do 3 f_equal; lia|]. unfold integer_is. rewrite Hw. by split_and!.
  - pose proof (long_digits minus v1 (len ds - len (c1 :: rest1)) (c1 :: rest1) x (t + 1 + (len ds - len (c1 :: rest1))) k Hr1 Hx) as E2.
    rewrite E in E2. specialize (E2 ltac:(destruct minus; unfold long_max, word_max in *; lia)).
    assert (all_digits rest) as Hr.
    { pose proof (fitting_spec (long_max minus) v1 (c1 :: rest1) Hr1 ltac:(destruct minus; unfold long_max, word_max in *; lia)) as H. rewrite E in H. apply H. }
    pose proof (λ t0, big_loop o (double_of v) rest x t0 k Hr Hx) as E3.
    destruct rest as [|c2 rest]; cbn [no_digits] in *.
    + eexists. rewrite (bind_parsed _ _ _ _ _ Ew). cbn [overflows no_digits negb i_ significandDigit].
      erewrite bind_parsed; [|exact E2]. cbn [overflows no_digits negb i_ significandDigit app]. rewrite len_nil.
      split; [unfold mret, reader_ret; do 3 f_equal; lia|]. unfold integer_is. cbn [n_use64bit n_i64 n_digits n_useDouble]. rewrite Hw. split_and!; [done|done|lia|done].
    + destruct (big_digits (double_of v) (c2 :: rest)) as [d|]; [eexists|]; rewrite (bind_parsed _ _ _ _ _ Ew);
        cbn [overflows no_digits negb i_ significandDigit]; (erewrite bind_parsed; [|exact E2]); cbn [overflows no_digits negb i_ significandDigit].
      * erewrite bind_parsed; [|apply E3]. split; [unfold mret, reader_ret; do 3 f_equal; cbn [tell]; lia|].
        unfold integer_is. cbn [n_use64bit n_i64 n_digits n_useDouble n_d]. rewrite Hw. split_and!; [done|done|lia|done|done].
      * apply refuses_bind, E3.
Qed.

(** The double of the digits up to the fraction's, and how many of these it has. *)
Definition mantissa (v : Z) (big : option double) (count : Z) (fr : list Z) : double * Z :=
  match big with
  | Some d => rounded_digits d count fr
  | None =>
      let '(m, n, fr') := exact_digits v count fr in
      let '(d, taken) := rounded_digits (double_of m) n fr' in (d, len fr - len fr' + taken)
  end.
Lemma exact_rest m n ds : all_digits ds → let '(_, _, rest) := exact_digits m n ds in all_digits rest ∧ len rest ≤ len ds.
Proof.
  intros Hds. revert m n. induction Hds as [|c ds Hc Hds IH]; intros m n; cbn [exact_digits]; [by split; [constructor|]|].
  destruct (m <? 2 ^ 53); [|by split; [constructor|]]. cbn zeta.
  specialize (IH (m * 10 + (c - 48)) (if m * 10 + (c - 48) =? 0 then n else n + 1)). destruct (exact_digits _ _ ds) as [[m' n'] rest].
  rewrite len_cons. split; [apply IH|]. destruct IH. lia.
Qed.
Lemma mantissa_taken v big count fr : all_digits fr → 0 ≤ snd (mantissa v big count fr) ≤ len fr.
Proof.
  intros Hfr. unfold mantissa. destruct big as [d|]; [apply rounded_taken|]. pose proof (exact_rest v count fr Hfr) as H.
  destruct (exact_digits v count fr) as [[m n] fr']. pose proof (rounded_taken (double_of m) n fr'). destruct (rounded_digits _ n fr'). simpl in *. lia.
Qed.
Lemma ParseFraction_numeral minus n v big count fr x t k : integer_is minus n v big count → all_digits fr → len fr < 2 ^ 27 →
  isdigit (hd 0 x) = false → hd 0 x ≠ ch "." → 0 ≤ v →
  ∃ f, ParseFraction n (Reading t (point fr ++ x) k) = Ret (Parsed f (Reading (t + len (point fr)) x k)) ∧
    f_expFrac f = - snd (mantissa v big count fr) ∧ f_useDouble f = (n_useDouble n || negb (no_digits fr)) ∧
    (if f_useDouble f then f_d f else double_of v) = fst (mantissa v big count fr).
Proof.
  intros (H64 & Hv & Hcount & Hbig) Hfr Hlen Hx Hdot H0. unfold ParseFraction. destruct fr as [|c fr].
  - exists (Fraction (n_d n) 0 (n_useDouble n)). cbn [point app]. rewrite (bind_parsed _ _ _ _ _ (Consume_false (ch ".") (Reading t x k) Hdot)).
    rewrite len_nil, Z.add_0_r. cbn [no_digits negb f_useDouble f_d f_expFrac]. rewrite orb_false_r. split; [done|].
    destruct big as [d|]; cbn; [by destruct Hbig as [-> ->]|by rewrite Hbig].
  - change (point (c :: fr) ++ x) with (ch "." :: (c :: fr) ++ x). rewrite (bind_parsed _ _ _ _ _ (Consume_true (ch ".") t ((c :: fr) ++ x) k)).
    assert (isdigit c = true) as Hc by by apply Forall_cons in Hfr as [? _]. rewrite bind_Peek. cbn [src app hd]. rewrite Hc. cbn [negb].
    change (c :: fr ++ x) with ((c :: fr) ++ x). set (ds := c :: fr) in *. change (no_digits ds) with false. cbn [negb]. rewrite orb_true_r.
    change (point ds) with (ch "." :: ds). rewrite len_cons. pose proof (len_nonneg ds).
    destruct big as [d|]; cbn [mantissa] in *.
    + destruct Hbig as [-> ->]. rewrite Hcount. destruct (slow_loop d count 0 ds x (t + 1) k Hfr Hx ltac:(lia) ltac:(lia)) as (n' & E).
      eexists. erewrite bind_parsed; [|done]. erewrite bind_parsed; [|exact E]. split; [unfold mret, reader_ret; do 3 f_equal; cbn [tell src]; lia|].
      cbn [f_expFrac f_useDouble f_d]. by split_and!.
    + rewrite Hbig. pose proof (fast_loop v count 0 ds x (t + 1) k Hfr Hx H0 ltac:(lia) ltac:(lia)) as E. pose proof (exact_rest v count ds Hfr) as Hr.
      destruct (exact_digits v count ds) as [[m n1] rest]. destruct Hr as [Hr Hle].
      destruct (slow_loop (double_of m) n1 (0 - (len ds - len rest)) rest x (t + 1 + (len ds - len rest)) k Hr Hx ltac:(lia) ltac:(lia)) as (n' & E2).
      destruct (rounded_digits (double_of m) n1 rest) as [d tk]. cbn [fst snd] in *. exists (Fraction d (- (len ds - len rest + tk)) true).
      erewrite bind_parsed; [|rewrite Hv, Hcount; erewrite bind_parsed; [|exact E]; done].
      erewrite bind_parsed; [|exact E2]. split; [|done]. unfold mret, reader_ret. do 3 f_equal; [f_equal|]; cbn [tell src]; lia.
Qed.

Lemma ParseExponent_numeral o n v f ex t k taken : power_ok ex → f_expFrac f = - taken → 0 ≤ taken < 2 ^ 27 →
  (if n_use64bit n then n_i64 n else n_i n) = v →
  let d := if f_useDouble f then f_d f else double_of v in
  match ex with
  | None => ParseExponent o n f (Reading t [] k) = Ret (Parsed (Exponent (f_d f) 0 (f_useDouble f)) (Reading t [] k))
  | Some _ =>
      (power_value taken ex = None ∧ refuses (ParseExponent o n f (Reading t (power_text ex) k))) ∨
      ∃ p, ParseExponent o n f (Reading t (power_text ex) k) = Ret (Parsed (Exponent d p true) (Reading (t + len (power_text ex)) [] k)) ∧
        power_value taken ex = (if p - taken <? - 2 ^ 31 then None else Some (p - taken)) ∧ p - taken ≤ 308
  end.
Proof.
  intros Hok Hf Ht Hv d. destruct ex as [[[e sign] ds]|]; [|done]. destruct Hok as (He & Hs & Hds & Hne).
  destruct ds as [|c ds]; [done|]. pose proof (proj1 (Forall_cons _ _ _) Hds) as [Hc Hds']. pose proof (proj1 (isdigit_spec c) Hc).
  cbn [power_text hd tail]. unfold ParseExponent. rewrite Hv, Hf. fold d. rewrite len_cons, len_app, len_cons.
  set (s1 := sign ++ c :: ds).
  assert ((e' ← Consume (ch "e"); e'' ← (if e' : bool then mret true else Consume (ch "E")); mret (M := reader) e'') (Reading t (e :: s1) k)
    = Ret (Parsed true (Reading (t + 1) s1 k))) as E1.
  { apply elem_of_cons in He as [->|He%list_elem_of_singleton]; [done|subst e; done]. }
  assert (∀ (B : Type) (g : bool → reader B), (e' ← Consume (ch "e"); e'' ← (if e' : bool then mret true else Consume (ch "E")); g e'') (Reading t (e :: s1) k)
    = g true (Reading (t + 1) s1 k)) as E1'.
  { intros B g. apply elem_of_cons in He as [->|He%list_elem_of_singleton]; [done|subst e; done]. }
  rewrite E1'. clear E1 E1'. cbn match.
  assert (∀ (B : Type) (g : bool → reader B), (plus ← Consume (ch "+"); m ← (if plus : bool then mret false else Consume (ch "-")); g m) (Reading (t + 1) s1 k)
    = g (bool_decide (sign = str "-")) (Reading (t + 1 + len sign) (c :: ds) k)) as E2.
  { intros B g. unfold s1. clear - Hs H. apply elem_of_cons in Hs as [->|Hs]; [|apply elem_of_cons in Hs as [->|Hs%list_elem_of_singleton]].
    - cbn [app]. rewrite (bind_parsed _ _ _ _ _ (Consume_false (ch "+") (Reading (t + 1) (c :: ds) k) ltac:(cbn [src hd]; change (ch "+") with 43; lia))).
      rewrite (bind_parsed _ _ _ _ _ (Consume_false (ch "-") (Reading (t + 1) (c :: ds) k) ltac:(cbn [src hd]; change (ch "-") with 45; lia))).
      by rewrite len_nil, Z.add_0_r.
    - rewrite (bind_parsed _ _ _ _ _ (Consume_true (ch "+") (t + 1) (c :: ds) k)). done.
    - subst sign. rewrite (bind_parsed _ _ _ _ _ (Consume_false (ch "+") (Reading (t + 1) (str "-" ++ c :: ds) k) ltac:(done))).
      rewrite (bind_parsed _ _ _ _ _ (Consume_true (ch "-") (t + 1) (c :: ds) k)). done. }
  rewrite E2. clear E2. rewrite bind_Peek. cbn [src hd]. rewrite Hc, bind_Take. cbn [power_value hd tail].
  change (digit_of c) with (c - 48). destruct (decide (sign = str "-")) as [Hm|Hm].
  - rewrite bool_decide_true by done. right. exists (- cut_exponent (c - 48) ds). cbn zeta.
    destruct (minus_loop (c - 48) ds (t + 1 + len sign + 1) k Hds' ltac:(lia)) as (rest & Hr & E & Hb).
    split; [|split; [done|lia]].
    erewrite (bind_parsed (_ ← _; _)); [|erewrite bind_parsed; [|exact E]; erewrite bind_parsed; [|by apply rest_loop]; done].
    unfold mret, reader_ret. do 3 f_equal. cbn [tell src]. lia.
  - rewrite bool_decide_false by done. assert (int (308 - - taken) = Ret (308 + taken)) as Hint by (rewrite int_id by lia; f_equal; lia).
    change (digits_after 0 (c :: ds)) with (digits_after (0 * 10 + (c - 48)) ds). rewrite Z.mul_0_l, Z.add_0_l.
    pose proof (plus_loop o (308 + taken) (c - 48) ds (t + 1 + len sign + 1) k Hds' ltac:(lia) ltac:(lia)) as E.
    pose proof (digits_after_ge (c - 48) ds ltac:(lia) Hds').
    destruct (decide (digits_after (c - 48) ds ≤ 308 + taken)) as [Hle|Hgt].
    + right. exists (digits_after (c - 48) ds). rewrite (proj2 (Z.ltb_ge (308 + taken) _)), (proj2 (Z.ltb_ge _ (- 2 ^ 31))) by lia. split; [|split; [done|lia]].
      erewrite (bind_parsed (_ ← _; _)); [|rewrite Hint; erewrite bind_parsed; [|done]; exact E].
      unfold mret, reader_ret. do 3 f_equal. lia.
    + left. rewrite (proj2 (Z.ltb_lt _ _)) by lia. split; [done|]. apply refuses_bind. rewrite Hint. exact E.
Qed.

Lemma Strtod_scaled d p : p ≤ 308 → StrtodNormalPrecision d p = Ret (scaled d p).
Proof.
  intros Hp. unfold StrtodNormalPrecision, scaled, FastPath, Pow10, positive_zero. destruct (Z.ltb_spec p (-308)).
  - change (-308 <? -308) with false. change (0 <=? -308) with false. cbn match. change (- -308) with 308. cbn [mbind outcome_bind cxx_assert Z.leb andb].
    destruct (Z.ltb_spec p (-616)); [by rewrite (proj2 (Z.ltb_lt _ _)) by lia|].
    rewrite (proj2 (Z.ltb_ge (p + 308) _)), (proj2 (Z.leb_gt 0 (p + 308))) by lia.
    replace (- (p + 308)) with (- p - 308) by lia. by rewrite (proj2 (Z.leb_le 0 _)), (proj2 (Z.leb_le _ 308)) by lia.
  - rewrite (proj2 (Z.ltb_ge p (-616))) by lia. destruct (Z.leb_spec 0 p).
    + rewrite (proj2 (Z.ltb_ge p 0)), (proj2 (Z.leb_le p 308)) by lia. done.
    + rewrite (proj2 (Z.ltb_lt p 0)), (proj2 (Z.leb_le 0 _)), (proj2 (Z.leb_le _ 308)) by lia. done.
Qed.

(** What [ParseNumber] does with the integer. *)
Definition number_from (o : Z) (minus : bool) (n : integer) : reader unit :=
  f ← ParseFraction n;
  e ← ParseExponent o n f;
  if e_useDouble e then
    p ← lift (int (e_exp e + f_expFrac f));
    d ← lift (StrtodNormalPrecision (e_d e) p);
    Double (if minus then SFopp d else d)
  else if n_use64bit n then
    if minus then Int64 (s64 (u64 (Z.lnot (n_i64 n) + 1))) else Uint64 (n_i64 n)
  else if minus then Int (s32 (u32 (Z.lnot (n_i n) + 1))) else Uint (n_i n).
Definition part_value (minus : bool) (v : Z) (big : option double) (count : Z) (fr : list Z) (ex : option (Z * list Z * list Z)) : option value :=
  if negb (match big with Some _ => true | None => false end) && no_digits fr && no_digits (power_text ex) then Some (integer_value minus v)
  else
    p ← power_value (snd (mantissa v big count fr)) ex;
    let d := scaled (fst (mantissa v big count fr)) p in Some (value_of_double (if minus then SFopp d else d)).

Lemma integer_finish minus n v count t k : integer_is minus n v None count → 0 ≤ v ≤ long_max minus →
  (if n_use64bit n then if minus then Int64 (s64 (u64 (Z.lnot (n_i64 n) + 1))) else Uint64 (n_i64 n)
   else if minus then Int (s32 (u32 (Z.lnot (n_i n) + 1))) else Uint (n_i n)) (Reading t [] k) = Ret (Parsed tt (Reading t [] (integer_value minus v :: k))).
Proof.
  intros (E64 & Ev & _) Hv. unfold integer_value. destruct minus; rewrite E64 in *; [destruct (Z.leb_spec v (word_max true))|destruct (Z.leb_spec v (word_max false))];
    cbn [negb] in *; subst v; unfold long_max, word_max in *; [| |done|done].
  - replace (Z.lnot (n_i n) + 1) with (- n_i n) by (unfold Z.lnot; lia). unfold Int, push. cbn [tell src stack]. do 5 f_equal.
    unfold s32, u32. rewrite swrap_wrap by lia. rewrite swrap_id; [done|lia|]. unfold sfits. simpl. lia.
  - replace (Z.lnot (n_i64 n) + 1) with (- n_i64 n) by (unfold Z.lnot; lia). unfold Int64, push. cbn [tell src stack]. do 5 f_equal.
    unfold s64, u64. rewrite swrap_wrap by lia. rewrite swrap_id; [done|lia|]. unfold sfits. simpl. lia.
Qed.

Lemma power_start ex : power_ok ex → isdigit (hd 0 (power_text ex)) = false ∧ hd 0 (power_text ex) ≠ ch ".".
Proof.
  destruct ex as [[[e sign] ds]|]; [|done]. intros [He _]. cbn. by apply elem_of_cons in He as [->|He%list_elem_of_singleton]; [|subst e].
Qed.
Lemma number_from_numeral o minus n v big count fr ex t k : integer_is minus n v big count → all_digits fr → len fr < 2 ^ 27 → power_ok ex →
  0 ≤ v ≤ long_max minus →
  match part_value minus v big count fr ex with
  | Some w => number_from o minus n (Reading t (point fr ++ power_text ex) k) = Ret (Parsed tt (Reading (t + len (point fr) + len (power_text ex)) [] (w :: k)))
  | None => refuses (number_from o minus n (Reading t (point fr ++ power_text ex) k))
  end.
Proof.
  intros Hn Hfr Hlen Hex Hv. destruct (power_start ex Hex) as [Hx Hdot]. pose proof (mantissa_taken v big count fr Hfr) as Htk.
  destruct (ParseFraction_numeral minus n v big count fr (power_text ex) t k Hn Hfr Hlen Hx Hdot ltac:(lia)) as (f & Ef & Hef & Huse & Hd).
  unfold number_from, part_value. rewrite !(bind_parsed _ _ _ _ _ Ef). set (m := mantissa v big count fr) in *.
  assert (n_useDouble n = match big with Some _ => true | None => false end) as Hbig by (destruct Hn as (_ & _ & _ & Hn); destruct big; [apply Hn|done]).
  pose proof (ParseExponent_numeral o n v f ex (t + len (point fr)) k (snd m) Hex Hef ltac:(lia) ltac:(apply Hn)) as Ee. cbn zeta in Ee. rewrite Hd in Ee.
  destruct ex as [e|].
  - assert (no_digits (power_text (Some e)) = false) as -> by by destruct e as [[]]. rewrite andb_false_r.
    destruct Ee as [[-> Hr]|(p & E & -> & Hp)]; [by apply refuses_bind|]. rewrite !(bind_parsed _ _ _ _ _ E). cbn [e_useDouble e_exp e_d]. rewrite Hef.
    replace (p + - snd m) with (p - snd m) by lia. destruct (Z.ltb_spec (p - snd m) (- 2 ^ 31)) as [Hlt|Hge]; cbn [mbind option_bind].
    + apply refuses_bind. unfold lift, int. by rewrite bool_decide_false by (unfold sfits; simpl; lia).
    + rewrite int_id by lia. erewrite bind_parsed; [|done]. rewrite Strtod_scaled by lia. by erewrite bind_parsed; [|done].
  - cbn [power_text no_digits] in *. rewrite len_nil, Z.add_0_r, andb_true_r, !(bind_parsed _ _ _ _ _ Ee). cbn [e_useDouble e_exp e_d]. rewrite Hef, Huse, Hbig.
    destruct big as [d|]; [|destruct (no_digits fr) eqn:Enf]; cbn [negb orb andb power_value mbind option_bind] in *.
    + rewrite Huse, Hbig in Hd. cbn [orb] in Hd. rewrite Hd, Z.add_0_l, int_id by lia. erewrite bind_parsed; [|done]. rewrite Strtod_scaled by lia. by erewrite bind_parsed; [|done].
    + by eapply integer_finish.
    + rewrite Huse, Hbig in Hd. cbn [orb] in Hd. rewrite Hd, Z.add_0_l, int_id by lia. erewrite bind_parsed; [|done]. rewrite Strtod_scaled by lia. by erewrite bind_parsed; [|done].
Qed.

(** Reading a number by its parts: its value, or none. *)
Theorem numeral_run nu t k : well_formed nu → len (spelled nu) < 2 ^ 27 →
  match numeral_value nu with
  | Some v => ParseNumber (Reading t (spelled nu) k) = Ret (Parsed tt (Reading (t + len (spelled nu)) [] (v :: k)))
  | None => refuses (ParseNumber (Reading t (spelled nu) k))
  end.
Proof.
  destruct nu as [minus i fr ex]. unfold well_formed, spelled, numeral_value, significand_value. cbn [negative int_digits frac_digits power].
  intros (Hi & Hfr & Hex) Hlen. rewrite !len_app in *. pose proof (len_nonneg i). pose proof (len_nonneg (minus_sign minus)).
  pose proof (len_nonneg (point fr)). pose proof (len_nonneg (power_text ex)).
  assert (len fr ≤ len (point fr)) as Hfr27 by (destruct fr; cbn [point]; rewrite ?len_cons; unfold len; simpl; lia).
  set (x := point fr ++ power_text ex).
  assert (isdigit (hd 0 x) = false) as Hx by (unfold x; destruct fr; [by apply power_start|by vm_compute]).
  assert (∀ f : bool → reader unit, (Consume (ch "-") ≫= f) (Reading t (minus_sign minus ++ i ++ x) k)
    = f minus (Reading (t + len (minus_sign minus)) (i ++ x) k)) as Em.
  { intros f. destruct minus; [by rewrite (bind_parsed _ _ _ _ _ (Consume_true (ch "-") t (i ++ x) k))|]. cbn [minus_sign app].
    rewrite (bind_parsed _ _ _ _ _ (Consume_false (ch "-") (Reading t (i ++ x) k) ltac:(destruct Hi as [->|(c & ds & -> & Hc & _)]; cbn [src app hd];
      [done|change (ch "-") with 45; lia]))). by rewrite len_nil, Z.add_0_r. }
  set (t1 := t + len (minus_sign minus)) in *.
  assert (ParseNumber (Reading t (minus_sign minus ++ i ++ x) k) = (n ← ParseInteger t minus; number_from t minus n) (Reading t1 (i ++ x) k)) as ->.
  { unfold ParseNumber. rewrite (bind_parsed Tell _ _ t (Reading t (minus_sign minus ++ i ++ x) k)) by done. by rewrite Em. }
  pose proof (ParseInteger_numeral t minus i x t1 k Hi Hx) as Hint.
  assert (all_digits (tail i) ∧ 0 ≤ hd 0 i - 48 ≤ 9) as [Htl Hhd].
  { destruct Hi as [->|(c & ds & -> & Hc & Hds)]; [by split; [constructor|cbn]|]. cbn. split; [done|lia]. }
  pose proof (fitting_spec (long_max minus) (hd 0 i - 48) (tail i) Htl ltac:(destruct minus; unfold long_max; lia)) as Hfit.
  destruct (fitting (long_max minus) (hd 0 i - 48) (tail i)) as [v rest]. destruct Hfit as (Hv & _ & Hlr & _). cbn zeta in Hint.
  pose proof (λ n big Hn, number_from_numeral t minus n v big (len (tail i) - len rest) fr ex (t1 + len i) k Hn Hfr ltac:(lia) Hex ltac:(lia)) as Hfrom.
  replace (t + (len (minus_sign minus) + (len i + (len (point fr) + len (power_text ex))))) with (t1 + len i + len (point fr) + len (power_text ex)) by lia.
  destruct (no_digits rest) eqn:Enr.
  - destruct Hint as (n & E & Hn). specialize (Hfrom n None Hn). rewrite !(bind_parsed _ _ _ _ _ E). unfold part_value, mantissa in Hfrom. cbn [negb andb] in *.
    destruct (exact_digits v (len (tail i) - len rest) fr) as [[m c] fr']. destruct (rounded_digits (double_of m) c fr') as [d tk]. cbn [fst snd mbind option_bind] in *. exact Hfrom.
  - cbn [andb]. destruct (big_digits (double_of v) rest) as [d|]; cbn [mbind option_bind]; [|by apply refuses_bind].
    destruct Hint as (n & E & Hn). specialize (Hfrom n (Some d) Hn). rewrite !(bind_parsed _ _ _ _ _ E). unfold part_value, mantissa in Hfrom. cbn [negb andb] in *.
    destruct (rounded_digits d _ fr) as [d' tk]. exact Hfrom.
Qed.

(** ** The grammar and the reader *)

Lemma syntax_numeral s : number_syntax s ↔ ∃ nu, s = spelled nu ∧ well_formed nu.
Proof.
  split.
  - intros (m & i & f & e & -> & Hm & Hi & Hf & He).
    assert (∃ b, m = minus_sign b) as [b ->] by (apply elem_of_cons in Hm as [->|Hm%list_elem_of_singleton]; [by exists false|by exists true]).
    assert (∃ fr, f = point fr ∧ all_digits fr) as (fr & -> & Hfr).
    { destruct Hf as [->|(c & ds & -> & Hds)]; [by exists []; split; [|constructor]|by exists (c :: ds)]. }
    assert (∃ ex, e = power_text ex ∧ power_ok ex) as (ex & -> & Hex).
    { destruct He as [->|(x & sign & c & ds & -> & H)]; [by exists None|exists (Some (x, sign, c :: ds))]. split; [done|]. by destruct H as (? & ? & ?). }
    by exists (Numeral b i fr ex).
  - intros ([b i fr ex] & -> & Hi & Hfr & Hex). exists (minus_sign b), i, (point fr), (power_text ex). unfold spelled. cbn [negative int_digits frac_digits power] in *.
    split; [done|]. split; [destruct b; [right; by left|by left]|]. split; [done|]. split.
    + destruct fr as [|c fr]; [by left|right]. by exists c, fr.
    + destruct ex as [[[x sign] [|c ds]]|]; [by destruct Hex as (_ & _ & _ & ?)| |by left]. right. destruct Hex as (? & ? & ? & _). by exists x, sign, c, ds.
Qed.

(** A number that is read is a number of the grammar, if what follows may follow one. *)
Lemma read_number t s k rest k' t' : stop rest → len s < 2 ^ 27 → ParseNumber (Reading t s k) = Ret (Parsed tt (Reading t' rest k')) →
  ∃ w v, s = w ++ rest ∧ t' = t + len w ∧ k' = v :: k ∧ number_text w v.
Proof.
  intros Hr Hlen E. pose proof (shifted_ParseNumber s t k) as H. rewrite E in H. cbn [src] in H.
  destruct H as (w & p & -> & Er & (Hsyn & v & -> & Hv) & Hshift). injection Er as -> ->. exists w, v. split_and!; [done..|].
  apply syntax_numeral in Hsyn as (nu & -> & Hnu). rewrite len_app in Hlen. pose proof (len_nonneg rest).
  exists nu. split_and!; [done..|lia|]. specialize (Hshift t k). rewrite (extends_ParseNumber rest t (spelled nu) k Hr) in Hshift.
  pose proof (numeral_run nu t k Hnu ltac:(lia)) as Hrun. destruct (numeral_value nu) as [v'|].
  - rewrite Hrun in Hshift. cbn [longer tell src stack] in Hshift. by injection Hshift as <-.
  - destruct (ParseNumber (Reading t (spelled nu) k)) as [[]| |]; done.
Qed.
Lemma number_read w v t rest k : number_text w v → stop rest →
  ParseNumber (Reading t (w ++ rest) k) = Ret (Parsed tt (Reading (t + len w) rest (v :: k))).
Proof.
  intros (nu & -> & Hnu & Hlen & Hv) Hr. rewrite extends_ParseNumber by done. pose proof (numeral_run nu t k Hnu Hlen) as H. by rewrite Hv in H; rewrite H.
Qed.
Lemma number_text_syntax s v : number_text s v → number_syntax s.
Proof. intros (nu & -> & Hnu & _). apply syntax_numeral. by exists nu. Qed.
Lemma number_text_value s v : number_text s v → number_value v.
Proof.
  intros H. pose proof (number_read s v 0 [] [] H ltac:(by left)) as E. rewrite app_nil_r in E. pose proof (shifted_ParseNumber s 0 []) as Hs. rewrite E in Hs.
  destruct Hs as (w & p & _ & Er & (_ & v' & -> & Hv) & _). by injection Er as _ <-.
Qed.

(** ** Integers are read as themselves *)

Definition whole_value (z : Z) : value :=
  if z <? 0 then if - 2 ^ 31 <=? z then value_of_int z else value_of_int64 z
  else if z <? 2 ^ 32 then value_of_unsigned z else value_of_uint64 z.

Lemma dec_rev_head f z : 0 < z → z < 2 ^ Z.of_nat f → ∃ l c, dec_rev f z = l ++ [c] ∧ 49 ≤ c ≤ 57.
Proof.
  revert z. induction f as [|f IH]; intros z Hz Hf; [simpl in Hf; lia|]. cbn [dec_rev]. destruct (Z.ltb_spec z 10).
  - exists [], (48 + z). split; [done|lia].
  - rewrite Nat2Z.inj_succ, Z.pow_succ_r in Hf by lia. destruct (IH (z / 10)) as (l & c & -> & Hc); [dlia|dlia|].
    by exists ((48 + z mod 10) :: l), c.
Qed.
(** A positive number does not begin with 0. *)
Lemma dec_head z : 0 < z → ∃ c ds, dec z = c :: ds ∧ 49 ≤ c ≤ 57 ∧ all_digits ds ∧ digits_after (c - 48) ds = z.
Proof.
  intros Hz. pose proof (dec_val z ltac:(lia)) as Hv. pose proof (dec_digits z ltac:(lia)) as Hd.
  destruct (dec_rev_head _ z Hz (dec_fuel z ltac:(lia))) as (l & c & E & Hc). unfold dec in *. rewrite E, reverse_app in *.
  exists c, (reverse l). split; [done|]. split; [done|]. split; [by apply Forall_cons in Hd as [_ Hd]|]. exact Hv.
Qed.

(** The decimal text of an integer is one for the grammar. *)
Lemma dec_int_text z : 0 ≤ z → int_text (dec z) ∧ digits_after (hd 0 (dec z) - 48) (tail (dec z)) = z.
Proof.
  intros Hz. destruct (decide (z = 0)) as [->|]; [by split; [left|]|]. destruct (dec_head z ltac:(lia)) as (c & ds & -> & Hc & Hds & Hv).
  split; [|done]. right. by exists c, ds.
Qed.
Lemma fitting_dec limit z : 0 ≤ z ≤ limit → fitting limit (hd 0 (dec z) - 48) (tail (dec z)) = (z, []).
Proof.
  intros Hz. destruct (dec_int_text z ltac:(lia)) as [[E|(c & ds & E & Hc & Hds)] Hv]; rewrite E in *; cbn [hd tail] in *.
  - by rewrite <-Hv.
  - rewrite fitting_all by (done || lia). by rewrite Hv.
Qed.
(** The decimal text of an integer from -2^63 to 2^64-1 is a number that
    RapidJSON reads as that integer: as an [int] or [unsigned] where it fits one, and else as
    an [int64_t] or [uint64_t]. *)
Theorem whole_number z : - 2 ^ 63 ≤ z < 2 ^ 64 → number_text (dec_int z) (whole_value z).
Proof.
  intros Hz. exists (Numeral (z <? 0) (dec (Z.abs z)) [] None). unfold spelled, well_formed, numeral_value. cbn [negative int_digits frac_digits power point power_text].
  pose proof (dec_length (Z.abs z) ltac:(lia)). rewrite !app_nil_r. split; [|split; [|split]].
  - unfold dec_int. destruct (Z.ltb_spec z 0); cbn [minus_sign app]; do 2 f_equal; lia.
  - split; [apply dec_int_text; lia|by split; [constructor|]].
  - unfold dec_int, len. destruct (Z.ltb_spec z 0); [rewrite Z.abs_neq in * by lia; cbn [length]|rewrite Z.abs_eq in * by lia]; lia.
  - rewrite fitting_dec by (destruct (Z.ltb_spec z 0); unfold long_max; lia). cbn [no_digits andb]. f_equal. unfold integer_value, whole_value, word_max.
    destruct (Z.ltb_spec z 0); [rewrite Z.abs_neq, Z.opp_involutive by lia|rewrite Z.abs_eq by lia].
    + destruct (Z.leb_spec (- z) (2 ^ 31)), (Z.leb_spec (- 2 ^ 31) z); (done || lia).
    + destruct (Z.leb_spec z (2 ^ 32 - 1)), (Z.ltb_spec z (2 ^ 32)); (done || lia).
Qed.
