(* ===== verification/JsonString.v ===== *)
(** * JsonString: the strings RapidJSON reads

    The characters between two quotes, as RFC 8259 writes them, and the bytes they stand for.
    Reading a string ends, gives those bytes, and reads every string of the grammar. *)

From S2P Require Import Prelude CLib Json JsonReader.

(** ** UTF-8 and hexadecimal digits, by arithmetic *)

Definition utf8_of (u : Z) : list Z :=
  if u <? 128 then [u]
  else if u <? 2048 then [192 + u / 64; 128 + u mod 64]
  else if u <? 65536 then [224 + u / 4096; 128 + u / 64 mod 64; 128 + u mod 64]
  else [240 + u / 262144; 128 + u / 4096 mod 64; 128 + u / 64 mod 64; 128 + u mod 64].
Definition hex_char (c : Z) : option Z :=
  if bool_decide (48 ≤ c ≤ 57) then Some (c - 48)
  else if bool_decide (65 ≤ c ≤ 70) then Some (c - 55)
  else if bool_decide (97 ≤ c ≤ 102) then Some (c - 87) else None.
Fixpoint hex_value (u : Z) (hs : list Z) : option Z :=
  match hs with [] => Some u | c :: hs => x ← hex_char c; hex_value (u * 16 + x) hs end.
Definition hex4 (hs : list Z) (u : Z) : Prop := length hs = 4%nat ∧ hex_value 0 hs = Some u.

(** [0x80 | x] and the like are sums. *)
Lemma lor_sum base lim x : forallb (λ b, negb (b <? lim) || (u8 (Z.lor base b) =? base + b)) (Z.of_nat <$> seq 0 256) = true →
  0 ≤ x < lim → lim ≤ 256 → u8 (Z.lor base x) = base + x.
Proof.
  intros H Hx Hl. rewrite forallb_forall in H. specialize (H x).
  rewrite orb_true_iff, negb_true_iff, Z.ltb_ge, Z.eqb_eq in H. destruct H as [H|H]; [|lia|done].
  apply list_elem_of_In, list_elem_of_fmap. exists (Z.to_nat x). split; [lia|]. apply elem_of_seq. lia.
Qed.
Lemma tail_byte x : u8 (Z.lor 0x80 (Z.land x 0x3F)) = 128 + x mod 64.
Proof.
  change 0x3F with (Z.ones 6). rewrite Z.land_ones by lia. change (2 ^ 6) with 64.
  apply (lor_sum 0x80 64); [by vm_compute|apply Z.mod_pos_bound; lia|lia].
Qed.
Lemma head_byte base lim x : forallb (λ b, negb (b <? lim) || (u8 (Z.lor base b) =? base + b)) (Z.of_nat <$> seq 0 256) = true →
  0 ≤ x < lim → lim ≤ 256 → u8 (Z.lor base (Z.land x 0xFF)) = base + x.
Proof.
  intros H Hx Hl. change 0xFF with (Z.ones 8). rewrite Z.land_ones, Z.mod_small by (change (2 ^ 8) with 256; lia). by apply (lor_sum base lim).
Qed.
Lemma Encode_utf8 u : 0 ≤ u ≤ 0x10FFFF → Encode u = Ret (utf8_of u).
Proof.
  intros Hu. unfold Encode, utf8_of. rewrite !Z.shiftr_div_pow2 by lia.
  change (2 ^ 6) with 64. change (2 ^ 12) with 4096. change (2 ^ 18) with 262144.
  destruct (Z.leb_spec u 0x7F).
  { rewrite (proj2 (Z.ltb_lt u 128)) by lia. change 0xFF with (Z.ones 8). rewrite Z.land_ones by lia.
    rewrite (Z.mod_small u) by (simpl; lia). unfold u8. by rewrite wrap_id by (unfold fits; lia). }
  rewrite (proj2 (Z.ltb_ge u 128)) by lia. destruct (Z.leb_spec u 0x7FF).
  { rewrite (proj2 (Z.ltb_lt u 2048)) by lia. by rewrite tail_byte, (head_byte 0xC0 32) by (done || dlia). }
  rewrite (proj2 (Z.ltb_ge u 2048)) by lia. destruct (Z.leb_spec u 0xFFFF).
  { rewrite (proj2 (Z.ltb_lt u 65536)) by lia. by rewrite !tail_byte, (head_byte 0xE0 16) by (done || dlia). }
  rewrite (proj2 (Z.ltb_ge u 65536)) by lia. rewrite (proj2 (Z.leb_le u 0x10FFFF)) by lia. cbn [cxx_assert mbind outcome_bind].
  by rewrite !tail_byte, (head_byte 0xF0 8) by (done || dlia).
Qed.

Lemma hex_digit_char c : match hex_digit c with Some base => hex_char c = Some (c - base) ∧ 0 ≤ c - base < 16 ∧ 0 ≤ c < 128 | None => hex_char c = None end.
Proof.
  unfold hex_digit, hex_char. change (ch "0") with 48. change (ch "9") with 57. change (ch "A") with 65. change (ch "F") with 70.
  change (ch "a") with 97. change (ch "f") with 102.
  destruct ((48 <=? c) && (c <=? 57)) eqn:E1; [|destruct ((65 <=? c) && (c <=? 70)) eqn:E2; [|destruct ((97 <=? c) && (c <=? 102)) eqn:E3]];
    rewrite ?andb_true_iff, ?andb_false_iff, ?Z.leb_le, ?Z.leb_gt in *.
  - rewrite bool_decide_true by lia. split; [done|lia].
  - rewrite bool_decide_false, bool_decide_true by lia. split; [f_equal; lia|lia].
  - rewrite !bool_decide_false, bool_decide_true by lia. split; [f_equal; lia|lia].
  - by rewrite !bool_decide_false by lia.
Qed.
(** The next digit of a code point that still fits. *)
Lemma hex_step u c base : 0 ≤ u < 2 ^ 20 → hex_digit c = Some base → u32 (u32 (u32 (Z.shiftl u 4) + c) - base) = u * 16 + (c - base).
Proof.
  intros Hu Hc. pose proof (hex_digit_char c) as H. rewrite Hc in H. destruct H as (_ & Hb & H128).
  rewrite Z.shiftl_mul_pow2 by lia. change (2 ^ 4) with 16. unfold u32. rewrite (wrap_id 32 (u * 16)) by (unfold fits; lia).
  rewrite (wrap_id 32 (u * 16 + c)) by (unfold fits; lia). rewrite wrap_id by (unfold fits; lia). lia.
Qed.
Lemma hex_value_range hs : ∀ u u', 0 ≤ u → hex_value u hs = Some u' → u * 16 ^ Z.of_nat (length hs) ≤ u' < (u + 1) * 16 ^ Z.of_nat (length hs).
Proof.
  induction hs as [|c hs IH]; intros u u' Hu E; [injection E as <-; change (16 ^ Z.of_nat (length [])) with 1; lia|]. cbn [hex_value] in E.
  pose proof (hex_digit_char c) as H. destruct (hex_digit c) as [base|]; [|by rewrite H in E]. destruct H as (Hc & Hb & _).
  rewrite Hc in E. cbn [mbind option_bind] in E. specialize (IH (u * 16 + (c - base)) u' ltac:(lia) E). cbn [length]. rewrite Nat2Z.inj_succ, Z.pow_succ_r by lia.
  assert (0 < 16 ^ Z.of_nat (length hs)) by lia. nia.
Qed.
Lemma hex4_range hs u : hex4 hs u → 0 ≤ u < 65536.
Proof. intros [Hl E]. pose proof (hex_value_range hs 0 u ltac:(lia) E) as H. rewrite Hl in H. simpl in H. lia. Qed.

(** ** The characters of a string *)

Definition escapes : list (Z * Z) :=
  [(34, 34); (92, 92); (47, 47); (98, 8); (102, 12); (110, 10); (114, 13); (116, 9)].
Definition high_surrogate (u : Z) : Prop := 0xD800 ≤ u ≤ 0xDBFF.
Definition low_surrogate (u : Z) : Prop := 0xDC00 ≤ u ≤ 0xDFFF.
#[export] Instance high_surrogate_dec u : Decision (high_surrogate u).
Proof. unfold high_surrogate. apply _. Defined.
#[export] Instance low_surrogate_dec u : Decision (low_surrogate u).
Proof. unfold low_surrogate. apply _. Defined.
(** Bytes from 128 on stand for themselves, whether they are UTF-8 or not, and a low
    surrogate may stand alone. *)
Inductive chars : list Z → list Z → Prop :=
| chars_end : chars [] []
| chars_plain c s out : 32 ≤ c < 256 → c ≠ 34 → c ≠ 92 → chars s out → chars (c :: s) (c :: out)
| chars_escape e x s out : (e, x) ∈ escapes → chars s out → chars (92 :: e :: s) (x :: out)
| chars_unicode hs u s out : hex4 hs u → ¬ high_surrogate u → chars s out → chars (92 :: ch "u" :: hs ++ s) (utf8_of u ++ out)
| chars_pair hs u hs2 u2 s out : hex4 hs u → high_surrogate u → hex4 hs2 u2 → low_surrogate u2 → chars s out →
    chars (92 :: ch "u" :: hs ++ 92 :: ch "u" :: hs2 ++ s) (utf8_of (65536 + (u - 0xD800) * 1024 + (u2 - 0xDC00)) ++ out).

Lemma length_utf8_of u : (length (utf8_of u) ≤ 4)%nat.
Proof. unfold utf8_of. repeat case_match; simpl; lia. Qed.
Lemma length_utf8_of_bmp u : u < 65536 → (length (utf8_of u) ≤ 3)%nat.
Proof. intros Hu. unfold utf8_of. rewrite (proj2 (Z.ltb_lt u 65536)) by lia. repeat case_match; simpl; lia. Qed.
Lemma chars_length s out : chars s out → (length out ≤ length s)%nat.
Proof.
  induction 1 as [|c s out _ _ _ _ IH|e x s out _ _ IH|hs u s out Hh _ _ IH|hs u hs2 u2 s out [Hl _] _ [Hl2 _] _ _ IH];
    cbn [length]; rewrite ?length_app; cbn [length]; rewrite ?length_app; try lia.
  - pose proof (hex4_range _ _ Hh). pose proof (length_utf8_of_bmp u ltac:(lia)). destruct Hh as [-> _]. lia.
  - pose proof (length_utf8_of (65536 + (u - 0xD800) * 1024 + (u2 - 0xDC00))). lia.
Qed.
Lemma pair_code u u2 : high_surrogate u → low_surrogate u2 →
  u32 (Z.lor (u32 (Z.shiftl (u - 0xD800) 10)) (u2 - 0xDC00) + 0x10000) = 65536 + (u - 0xD800) * 1024 + (u2 - 0xDC00).
Proof.
  unfold high_surrogate, low_surrogate. intros Hu Hu2.
  unfold u32. rewrite (wrap_id 32 (Z.shiftl _ _)) by (rewrite Z.shiftl_mul_pow2 by lia; unfold fits; lia).
  rewrite lor_shift_add by lia. rewrite wrap_id by (unfold fits; lia). lia.
Qed.

(** ** Reading what the grammar says *)

Lemma hex_room u hs : 0 ≤ u → (u + 1) * 16 ^ Z.of_nat (S hs) ≤ 65536 → u < 2 ^ 20 ∧ ∀ x, 0 ≤ x < 16 → (u * 16 + x + 1) * 16 ^ Z.of_nat hs ≤ 65536.
Proof.
  intros Hu H. rewrite Nat2Z.inj_succ, Z.pow_succ_r in H by lia. assert (0 < 16 ^ Z.of_nat hs) by lia. split; [simpl; nia|]. intros x Hx. nia.
Qed.
Lemma hex_loop_reads o hs : ∀ u u' t rest k, 0 ≤ u → (u + 1) * 16 ^ Z.of_nat (length hs) ≤ 65536 → hex_value u hs = Some u' →
  hex_loop o (length hs) u (Reading t (hs ++ rest) k) = Ret (Parsed u' (Reading (t + len hs) rest k)).
Proof.
  induction hs as [|c hs IH]; intros u u' t rest k Hu Hroom E; cbn [length hex_loop app].
  - injection E as <-. by rewrite len_nil, Z.add_0_r.
  - cbn [hex_value] in E. pose proof (hex_digit_char c) as Hc. rewrite bind_Peek. cbn [src hd].
    destruct (hex_room u _ Hu Hroom) as [H20 Hnext]. destruct (hex_digit c) as [base|] eqn:Ed; [|by rewrite Hc in E].
    destruct Hc as (Hc & Hb & _). rewrite Hc in E. cbn [mbind option_bind] in E. rewrite bind_Take, hex_step by (done || lia).
    rewrite (IH _ u') by (done || lia || by apply Hnext). by rewrite len_cons, <-Z.add_assoc, (Z.add_comm 1).
Qed.
Lemma ParseHex4_reads o hs u t rest k : hex4 hs u → ParseHex4 o (Reading t (hs ++ rest) k) = Ret (Parsed u (Reading (t + len hs) rest k)).
Proof. intros [Hl E]. unfold ParseHex4. rewrite <-Hl. apply hex_loop_reads; [lia|by rewrite Hl|done]. Qed.
Lemma consume_all_reads w t rest k : consume_all w (Reading t (w ++ rest) k) = Ret (Parsed true (Reading (t + len w) rest k)).
Proof.
  revert t. induction w as [|c w IH]; intros t; cbn [consume_all app]; [by rewrite len_nil, Z.add_0_r|].
  rewrite (bind_parsed _ _ _ _ _ (Consume_true _ _ _ _)), IH. by rewrite len_cons, <-Z.add_assoc, (Z.add_comm 1).
Qed.
Lemma escapes_escape e x : (e, x) ∈ escapes → escape e = x ∧ x ≠ 0.
Proof. intros H. repeat (apply elem_of_cons in H as [[= -> ->]|H]; [done|]). by apply elem_of_nil in H. Qed.
Lemma escape_escapes e : escape e ≠ 0 → (e, escape e) ∈ escapes.
Proof.
  unfold escape. change (ch "/") with 47. change (ch "b") with 98. change (ch "f") with 102. change (ch "n") with 110.
  change (ch "r") with 114. change (ch "t") with 116. intros H. repeat (case_match; [rewrite Z.eqb_eq in *; subst; by apply (bool_decide_unpack _)|]).
  by destruct H.
Qed.
Lemma plain_byte c : 32 ≤ c < 256 → (u32 (s8 c) <? 0x20) = false.
Proof.
  intros Hc. assert (negb (32 <=? c) || negb (u32 (s8 c) <? 0x20) = true) as H by (assert (byte_ok c) by (unfold byte_ok; lia); byte_brute c).
  rewrite (proj2 (Z.leb_le 32 c)) in H by lia. by destruct (u32 (s8 c) <? 0x20).
Qed.
Lemma control_byte c : 0 ≤ c < 32 → (u32 (s8 c) <? 0x20) = true.
Proof.
  intros Hc. assert (negb (c <? 32) || (u32 (s8 c) <? 0x20) = true) as H by (assert (byte_ok c) by (unfold byte_ok; lia); byte_brute c).
  by rewrite (proj2 (Z.ltb_lt c 32)) in H by lia.
Qed.

(** What follows a backslash, and what it puts. *)
Definition escape_text (e out : list Z) : Prop :=
  (∃ c x, e = [c] ∧ (c, x) ∈ escapes ∧ out = [x]) ∨
  (∃ hs u, e = ch "u" :: hs ∧ hex4 hs u ∧ ¬ high_surrogate u ∧ out = utf8_of u) ∨
  (∃ hs u hs2 u2, e = ch "u" :: hs ++ 92 :: ch "u" :: hs2 ∧ hex4 hs u ∧ high_surrogate u ∧ hex4 hs2 u2 ∧ low_surrogate u2 ∧
     out = utf8_of (65536 + (u - 0xD800) * 1024 + (u2 - 0xDC00))).
Lemma chars_escape_text e out s more : escape_text e out → chars s more → chars (92 :: e ++ s) (out ++ more).
Proof.
  intros [(c & x & -> & Hx & ->)|[(hs & u & -> & Hu & Hh & ->)|(hs & u & hs2 & u2 & -> & Hu & Hh & Hu2 & Hl & ->)]] Hs; list_norm.
  - by apply chars_escape.
  - by apply chars_unicode.
  - by apply chars_pair.
Qed.
Lemma ParseEscape_reads e out t rest k :
  escape_text e out →
  ParseEscape (Reading t (92 :: e ++ rest) k) = Ret (Parsed out (Reading (t + 1 + len e) rest k)).
Proof.
  assert (∀ u, 0 ≤ u ≤ 0x10FFFF → ∀ r, lift (Encode u) r = Ret (Parsed (utf8_of u) r)) as Henc by (intros u Hu r; by rewrite Encode_utf8).
  intros [(c & x & -> & Hx & ->)|[(hs & u & -> & Hu & Hh & ->)|(hs & u & hs2 & u2 & -> & Hu & Hh & Hu2 & Hl & ->)]];
    unfold ParseEscape; rewrite (bind_parsed Tell _ _ t (Reading t _ k)) by done; cbn beta; rewrite bind_Take, bind_Peek; cbn [src hd app].
  - destruct (escapes_escape _ _ Hx) as [-> H0]. rewrite (proj2 (Z.eqb_neq _ _) H0). cbn [negb]. by rewrite bind_Take.
  - change (negb (escape (ch "u") =? 0)) with false. rewrite Z.eqb_refl. cbn match. rewrite bind_Take.
    rewrite (bind_parsed _ _ _ _ _ (ParseHex4_reads _ _ _ _ _ _ Hu)). pose proof (hex4_range _ _ Hu).
    assert (ParseSurrogate t u (Reading (t + 1 + 1 + len hs) rest k) = Ret (Parsed u (Reading (t + 1 + 1 + len hs) rest k))) as E.
    { unfold ParseSurrogate, high_surrogate in *. destruct (_ && _) eqn:E; [|done]. rewrite andb_true_iff, !Z.leb_le in E. lia. }
    rewrite (bind_parsed _ _ _ _ _ E), Henc by lia. rewrite len_cons. do 3 f_equal. lia.
  - change (negb (escape (ch "u") =? 0)) with false. rewrite Z.eqb_refl. cbn match. rewrite bind_Take, <-app_assoc.
    rewrite (bind_parsed _ _ _ _ _ (ParseHex4_reads _ _ _ _ _ _ Hu)). cbn [app].
    assert (ParseSurrogate t u (Reading (t + 1 + 1 + len hs) (92 :: ch "u" :: hs2 ++ rest) k)
      = Ret (Parsed (65536 + (u - 0xD800) * 1024 + (u2 - 0xDC00)) (Reading (t + 1 + 1 + len hs + 2 + len hs2) rest k))) as E.
    { unfold ParseSurrogate. rewrite (proj2 (Z.leb_le 0xD800 u)), (proj2 (Z.leb_le u 0xDBFF)) by apply Hh. cbn [andb].
      rewrite (bind_parsed _ _ _ _ _ (consume_all_reads [92; ch "u"] _ (hs2 ++ rest) _)). cbn [negb].
      rewrite (bind_parsed _ _ _ _ _ (ParseHex4_reads _ _ _ _ _ _ Hu2)).
      rewrite (proj2 (Z.ltb_ge u2 0xDC00)), (proj2 (Z.ltb_ge 0xDFFF u2)) by apply Hl. cbn [orb]. by rewrite pair_code. }
    rewrite (bind_parsed _ _ _ _ _ E), Henc by (unfold high_surrogate, low_surrogate in *; lia).
    rewrite len_cons, len_app, !len_cons. do 3 f_equal. lia.
Qed.

Lemma string_loop_reads s out : chars s out → ∀ n os t rest k, (length s < n)%nat →
  string_loop n os (Reading t (s ++ 34 :: rest) k) = Ret (Parsed (os ++ out ++ [0]) (Reading (t + len s + 1) rest k)).
Proof.
  assert (∀ e out n os t s rest k r, ParseEscape (Reading t (92 :: e ++ s ++ 34 :: rest) k) = Ret (Parsed out (Reading (t + 1 + len e) (s ++ 34 :: rest) k)) →
    string_loop n (os ++ out) (Reading (t + 1 + len e) (s ++ 34 :: rest) k) = r →
    string_loop (S n) os (Reading t (92 :: e ++ s ++ 34 :: rest) k) = r) as Hesc.
  { intros e out' n os t s0 rest k r E <-. cbn [string_loop]. rewrite bind_Peek. cbn [src hd].
    rewrite Z.eqb_refl. by rewrite (bind_parsed _ _ _ _ _ E). }
  induction 1 as [|c s out Hc Hc1 Hc2 Hs IH|e x s out He Hs IH|hs u s out Hh Hu Hs IH|hs u hs2 u2 s out Hh Hu Hh2 Hu2 Hs IH];
    intros [|n] os t rest k Hn; try (simpl in Hn; lia).
  - cbn [string_loop app]. rewrite bind_Peek. cbn [src hd]. change (34 =? 92) with false. change (34 =? 34) with true. cbn match. rewrite bind_Take.
    by rewrite len_nil, Z.add_0_r.
  - cbn [string_loop app]. rewrite bind_Peek. cbn [src hd]. rewrite (proj2 (Z.eqb_neq c 92)), (proj2 (Z.eqb_neq c 34)), plain_byte by done.
    cbn match. rewrite bind_Take, IH by (simpl in Hn; lia). rewrite <-app_assoc, len_cons. do 3 f_equal. lia.
  - apply (Hesc [e] [x]); [apply ParseEscape_reads; left; by exists e, x|]. rewrite IH by (simpl in Hn; lia).
    rewrite <-app_assoc, !len_cons, len_nil. do 3 f_equal. lia.
  - rewrite <-!app_comm_cons, <-app_assoc. apply (Hesc (ch "u" :: hs) (utf8_of u)); [apply ParseEscape_reads; right; left; by exists hs, u|].
    rewrite IH by (cbn [length] in Hn; rewrite length_app in Hn; lia). rewrite <-!app_assoc, !len_cons, len_app. do 3 f_equal. lia.
  - replace ((92 :: ch "u" :: hs ++ 92 :: ch "u" :: hs2 ++ s) ++ 34 :: rest) with (92 :: (ch "u" :: hs ++ 92 :: ch "u" :: hs2) ++ s ++ 34 :: rest)
      by by list_norm.
    eapply Hesc.
    + apply ParseEscape_reads. right. right. by exists hs, u, hs2, u2.
    + rewrite IH by (cbn [length] in Hn; rewrite length_app in Hn; cbn [length] in Hn; rewrite length_app in Hn; lia).
      rewrite <-!app_assoc, !len_cons, !len_app, !len_cons, !len_app. do 3 f_equal. lia.
Qed.
Lemma length_SizeType (out : list Z) : len out + 1 < 2 ^ 32 → Z.to_nat (u32 (u32 (Z.of_nat (length (out ++ [0]))) - 1)) = length out.
Proof.
  intros H. pose proof (len_nonneg out). unfold len in *. rewrite length_app. cbn [length]. unfold u32.
  rewrite (wrap_id 32 (Z.of_nat _)) by (unfold fits; lia). rewrite wrap_id by (unfold fits; lia). lia.
Qed.
Lemma push_string (out : list Z) isKey r : len out + 1 < 2 ^ 32 →
  (let length := u32 (u32 (Z.of_nat (length (out ++ [0]))) - 1) in if isKey : bool then Key (out ++ [0]) length else String (out ++ [0]) length) r
  = push (StringValue out) r.
Proof. intros H. cbn zeta. destruct isKey; unfold Key, String; by rewrite length_SizeType, take_app_length by done. Qed.
Lemma ParseString_reads s out isKey t rest k : chars s out → len s + 1 < 2 ^ 32 →
  ParseString isKey (Reading t (34 :: s ++ 34 :: rest) k) = Ret (Parsed tt (Reading (t + len s + 2) rest (StringValue out :: k))).
Proof.
  intros Hs Hlen. pose proof (chars_length _ _ Hs) as Hle. unfold ParseString. rewrite bind_Peek. cbn [src hd].
  rewrite (bind_parsed (assert _) _ _ tt (Reading t (34 :: s ++ 34 :: rest) k)), bind_Take by done.
  assert (ParseStringToStream (Reading (t + 1) (s ++ 34 :: rest) k) = Ret (Parsed (out ++ [0]) (Reading (t + 1 + len s + 1) rest k))) as E.
  { unfold ParseStringToStream, each_byte. rewrite (string_loop_reads _ _ Hs); [done|]. cbn [src]. rewrite length_app. simpl. lia. }
  rewrite (bind_parsed _ _ _ _ _ E), push_string by (unfold len in *; lia). unfold push. cbn [tell src stack]. do 3 f_equal. lia.
Qed.

(** ** Reading a string always ends, with a string of the grammar *)

Section Total.
Context (whole : list Z) (Hbytes : bytes_ok whole).
Let runs {A} := @runs whole A.
Arguments runs {A} m r Q.

Lemma runs_hex_loop o i : 0 ≤ o ≤ len whole → ∀ u r, 0 ≤ u → (u + 1) * 16 ^ Z.of_nat i ≤ 65536 →
  runs (hex_loop o i u) r (λ u' w r', length w = i ∧ hex_value u w = Some u' ∧ stack r' = stack r).
Proof.
  intros Ho. induction i as [|i IH]; intros u r Hu Hroom; cbn [hex_loop]; [by apply runs_ret|].
  apply runs_Peek. destruct (hex_room u i Hu Hroom) as [H20 Hnext]. pose proof (hex_digit_char (hd 0 (src r))) as Hc.
  destruct (hex_digit (hd 0 (src r))) as [base|] eqn:Ed; [|by apply runs_fail]. destruct Hc as (Hc & Hb & _).
  destruct (src r) as [|c s] eqn:Es; cbn [hd] in *; [by vm_compute in Ed|]. eapply runs_Take; [done|]. rewrite hex_step by (done || lia).
  eapply runs_mono; [apply IH; [lia|by apply Hnext]|]. intros u' w r' _ _ (Hw & E & Hk). cbn [length hex_value]. rewrite Hw, Hc. done.
Qed.
Lemma runs_ParseHex4 o r : 0 ≤ o ≤ len whole → runs (ParseHex4 o) r (λ u w r', hex4 w u ∧ stack r' = stack r).
Proof.
  intros Ho. eapply runs_mono; [by apply runs_hex_loop|]. intros u w r' _ _ (Hw & E & Hk). by repeat split.
Qed.
Lemma runs_consume_all w r : 0 ∉ w → runs (consume_all w) r (λ b w' r', stack r' = stack r ∧ (b = true → w' = w)).
Proof.
  revert r. induction w as [|c w IH]; intros r Hw; cbn [consume_all]; [by apply runs_ret|].
  apply not_elem_of_cons in Hw as [Hc Hw].
  eapply (runs_bind _ _ _ _ (λ b w' r', stack r' = stack r ∧ (b = true → w' = [c]))); [by apply runs_Consume|].
  intros [] w1 r1 _ _ [Hk H1]; [|by apply runs_ret]. rewrite H1 by done. eapply runs_mono; [by apply IH|].
  intros b w2 r2 _ _ [Hk2 H2]. split; [by rewrite Hk2|]. intros Hb. by rewrite H2.
Qed.
Lemma runs_ParseEscape s r : src r = 92 :: s →
  runs ParseEscape r (λ out w r', ∃ e, w = 92 :: e ∧ escape_text e out ∧ stack r' = stack r).
Proof.
  intros Es. unfold ParseEscape. apply runs_Tell. intros Ho. eapply runs_Take; [done|]. apply runs_Peek. cbn [src stack tell].
  destruct s as [|e s]; [by apply runs_fail|]. cbn [hd]. destruct (Z.eqb_spec (escape e) 0) as [H0|H0]; cbn [negb].
  - destruct (Z.eqb_spec e (ch "u")) as [->|Hu]; [|by apply runs_fail]. eapply runs_Take; [done|]. cbn [tell stack].
    eapply runs_bind; [by apply runs_ParseHex4|]. intros u w1 r1 _ _ [Hu Hk1]. cbn [stack] in Hk1. pose proof (hex4_range _ _ Hu).
    eapply (runs_bind _ _ _ _ (λ v w r', 0 ≤ v ≤ 0x10FFFF ∧ stack r' = stack r ∧ escape_text (ch "u" :: w1 ++ w) (utf8_of v))).
    { unfold ParseSurrogate. destruct (_ && _) eqn:E.
      - rewrite andb_true_iff, !Z.leb_le in E. eapply runs_bind; [by apply runs_consume_all; apply (bool_decide_unpack _); vm_compute|].
        intros [] w2 r2 _ _ [Hk2 H2]; [|by apply runs_fail]. cbn [negb]. rewrite H2 by done.
        eapply runs_bind; [by apply runs_ParseHex4|]. intros u2 w3 r3 _ _ [Hu2 Hk3].
        destruct (_ || _) eqn:E2; [by apply runs_fail|]. rewrite orb_false_iff, !Z.ltb_ge in E2. apply runs_ret.
        rewrite pair_code by (unfold high_surrogate, low_surrogate; lia). split; [lia|]. split; [by rewrite Hk3, Hk2|].
        right. right. exists w1, u, w3, u2. rewrite app_nil_r. unfold high_surrogate, low_surrogate. split_and!; done || lia.
      - apply runs_ret. split; [lia|]. split; [done|]. right. left. exists w1, u. rewrite app_nil_r.
        rewrite andb_false_iff, !Z.leb_gt in E. split_and!; [done|done| |done]. unfold high_surrogate. lia. }
    intros v w2 r2 _ _ (Hv & Hk & He). eapply runs_lift; [by apply Encode_utf8|]. rewrite app_nil_r. by eexists.
  - eapply runs_Take; [done|]. apply runs_ret. eexists. split; [done|]. split; [|done]. left. eexists _, _. split; [done|].
    split; [by apply escape_escapes|done].
Qed.
Lemma runs_string_loop n : ∀ os r, (length (src r) < n)%nat →
  runs (string_loop n os) r (λ res w r', ∃ s out, w = s ++ [34] ∧ chars s out ∧ res = os ++ out ++ [0] ∧ stack r' = stack r).
Proof.
  induction n as [|n IH]; intros os r Hn; [lia|]. cbn [string_loop]. apply runs_at. intros (before & Hwhole & _). apply runs_Peek.
  destruct (src r) as [|c s] eqn:Es; [by apply runs_fail_here|]. cbn [hd]. destruct (Z.eqb_spec c 92) as [->|H92].
  - eapply runs_bind; [by apply (runs_ParseEscape s)|]. intros out w r1 _ E1 (e & -> & He & Hk).
    assert (length (src r1) < n)%nat as Hn1.
    { rewrite Es in E1. apply (f_equal length) in E1. rewrite length_app in E1. cbn [length] in *. lia. }
    eapply runs_mono; [by apply IH|]. intros res w2 r2 _ _ (s2 & out2 & -> & Hs2 & -> & Hk2).
    exists (92 :: e ++ s2), (out ++ out2). split; [by list_norm|]. split; [by apply chars_escape_text|]. split; [by rewrite <-!app_assoc|by rewrite Hk2].
  - destruct (Z.eqb_spec c 34) as [->|H34].
    { eapply runs_Take; [done|]. apply runs_ret. exists [], []. split; [done|]. split; [constructor|]. by split. }
    assert (byte_ok c) as Hc by (rewrite Hwhole in Hbytes; apply Forall_app in Hbytes as [_ Hb]; by apply Forall_cons in Hb as [Hb _]).
    unfold byte_ok in Hc. destruct (u32 (s8 c) <? 0x20) eqn:E20; [destruct (c =? 0); by apply runs_fail_here|].
    assert (32 ≤ c) by (destruct (decide (32 ≤ c)); [done|by rewrite control_byte in E20 by lia]).
    eapply runs_Take; [done|]. eapply runs_mono; [apply IH; cbn [src length] in *; lia|].
    intros res w r1 _ _ (s2 & out & -> & Hs2 & -> & Hk). exists (c :: s2), (c :: out).
    split; [done|]. split; [by apply chars_plain; [lia|..]|]. split; [by rewrite <-app_assoc|done].
Qed.
Lemma runs_ParseString isKey s r : len whole + 1 < 2 ^ 32 → src r = 34 :: s →
  runs (ParseString isKey) r (λ _ w r', ∃ body out, w = 34 :: body ++ [34] ∧ chars body out ∧ stack r' = StringValue out :: stack r).
Proof.
  intros Hlen Es. apply runs_at. intros Hr. pose proof (at_src _ _ Hr) as Hsrc. unfold ParseString. apply runs_Peek. rewrite Es. cbn [hd].
  eapply (runs_bind _ _ _ _ (λ _ w r', w = [] ∧ r' = r)); [by apply runs_assert|]. intros _ w r' _ _ [-> ->].
  eapply runs_Take; [done|]. eapply runs_bind; [apply runs_string_loop; cbn [src]; lia|].
  intros res w2 r2 _ E2 (body & out & -> & Hb & -> & Hk). cbn [src stack app] in *. pose proof (chars_length _ _ Hb).
  assert (len out + 1 < 2 ^ 32) as Hout.
  { rewrite Es, E2, !len_cons, !len_app in Hsrc. unfold len in *. cbn [length] in *. lia. }
  intros H2. rewrite push_string by done. unfold push. split; [done|]. exists []. cbn [src stack tell]. split; [done|].
  exists body, out. rewrite app_nil_r, Hk. done.
Qed.
End Total.
