(* ===== verification/JsonText.v ===== *)
(** * JsonText: the texts RapidJSON accepts

    The grammar of RFC 8259, less the numbers that are too large, with the value of each text,
    and the theorem that [document.Parse] gives exactly that value for exactly those texts. *)

From S2P Require Import Prelude CLib Json JsonReader JsonNumber JsonString.

(** ** The grammar *)

Definition spaces : list Z → Prop := Forall (λ c, is_space c = true).
(** The name of a member and the colon. *)
Definition key_text (s n : list Z) : Prop :=
  ∃ body w1 w2, s = 34 :: body ++ 34 :: w1 ++ ch ":" :: w2 ∧ chars body n ∧ spaces w1 ∧ spaces w2.
(** [elements_text] and [members_text] are what is between the brackets of an array or an
    object that is not empty, from the first element or member on. *)
Inductive value_text : list Z → value → Prop :=
| text_null : value_text (str "null") NullValue
| text_true : value_text (str "true") (BoolValue true)
| text_false : value_text (str "false") (BoolValue false)
| text_number s v : number_text s v → value_text s v
| text_string s out : chars s out → value_text (34 :: s ++ [34]) (StringValue out)
| text_array_empty w : spaces w → value_text (ch "[" :: w ++ str "]") (ArrayValue [])
| text_array w s vs : spaces w → elements_text s vs → value_text (ch "[" :: w ++ s ++ str "]") (ArrayValue vs)
| text_object_empty w : spaces w → value_text (ch "{" :: w ++ str "}") (ObjectValue [])
| text_object w s ms : spaces w → members_text s ms → value_text (ch "{" :: w ++ s ++ str "}") (ObjectValue ms)
with elements_text : list Z → list value → Prop :=
| elements_last s v w : value_text s v → spaces w → elements_text (s ++ w) [v]
| elements_next s v w w2 more vs : value_text s v → spaces w → spaces w2 → elements_text more vs →
    elements_text (s ++ w ++ ch "," :: w2 ++ more) (v :: vs)
with members_text : list Z → list (value * value) → Prop :=
| members_last h n s v w : key_text h n → value_text s v → spaces w → members_text (h ++ s ++ w) [(StringValue n, v)]
| members_next h n s v w w2 more ms : key_text h n → value_text s v → spaces w → spaces w2 → members_text more ms →
    members_text (h ++ s ++ w ++ ch "," :: w2 ++ more) ((StringValue n, v) :: ms).
Scheme value_text_mut := Minimality for value_text Sort Prop
with elements_text_mut := Minimality for elements_text Sort Prop
with members_text_mut := Minimality for members_text Sort Prop.
Combined Scheme texts_ind from value_text_mut, elements_text_mut, members_text_mut.

(** ** White space and literals *)

Lemma is_space_stop c s : is_space c = true → stop (c :: s).
Proof.
  unfold is_space. rewrite !orb_true_iff, !Z.eqb_eq. intros [[[-> | ->] | ->] | ->]; unfold stop; cbn [hd]; apply (bool_decide_unpack _); by vm_compute.
Qed.
Lemma spaces_stop w rest : spaces w → stop rest → stop (w ++ rest).
Proof. intros [|c w' Hc Hw] Hr; [done|by apply is_space_stop]. Qed.

Lemma skip_loop_reads w n t rest k : spaces w → is_space (hd 0 rest) = false → (length w < n)%nat →
  skip_loop n (Reading t (w ++ rest) k) = Ret (Parsed tt (Reading (t + len w) rest k)).
Proof.
  intros Hw Hr. revert n t. induction Hw as [|c w Hc Hw IH]; intros [|n] t Hn; try (simpl in Hn; lia); cbn [skip_loop app]; rewrite bind_Peek; cbn [src hd].
  - rewrite Hr. by rewrite len_nil, Z.add_0_r.
  - rewrite Hc, bind_Take, IH by (simpl in Hn; lia). by rewrite len_cons, <-Z.add_assoc, (Z.add_comm 1).
Qed.
Lemma SkipWhitespace_reads w t rest k : spaces w → is_space (hd 0 rest) = false →
  SkipWhitespace (Reading t (w ++ rest) k) = Ret (Parsed tt (Reading (t + len w) rest k)).
Proof. intros Hw Hr. unfold SkipWhitespace, each_byte. apply skip_loop_reads; [done..|]. cbn [src]. rewrite length_app. lia. Qed.

Section Space.
Context (whole : list Z).
Lemma runs_skip_loop n : ∀ r, (length (src r) < n)%nat →
  runs whole (skip_loop n) r (λ _ w r', spaces w ∧ stack r' = stack r ∧ is_space (hd 0 (src r')) = false).
Proof.
  induction n as [|n IH]; intros r Hn; [lia|]. cbn [skip_loop]. apply runs_Peek. destruct (is_space (hd 0 (src r))) eqn:E.
  - destruct (src r) as [|c s] eqn:Es; [done|]. eapply runs_Take; [done|]. eapply runs_mono; [apply IH; cbn [src length] in *; lia|].
    intros _ w r' _ _ (Hw & Hk & Hr). split; [by constructor|done].
  - apply runs_ret. split; [constructor|done].
Qed.
Lemma runs_SkipWhitespace r : runs whole SkipWhitespace r (λ _ w r', spaces w ∧ stack r' = stack r ∧ is_space (hd 0 (src r')) = false).
Proof. apply runs_skip_loop. lia. Qed.
(** The three literals. *)
Lemma runs_literal c w v r : hd 0 (src r) = c → c ≠ 0 → 0 ∉ w →
  runs whole (c' ← Peek; _ ← assert (c' =? c); _ ← Take; b ← consume_all w; if b : bool then push v else fail_here ValueInvalid) r
    (λ _ w' r', w' = c :: w ∧ stack r' = v :: stack r).
Proof.
  intros Hc H0 Hw. apply runs_Peek. rewrite Hc. eapply (runs_bind _ _ _ _ (λ _ w r', w = [] ∧ r' = r)); [by apply runs_assert; [apply Z.eqb_refl|]|].
  intros _ ? r' _ _ [-> ->]. destruct (src r) as [|c' s] eqn:Es; cbn [hd] in Hc; [done|]. subst c'. eapply runs_Take; [done|].
  eapply runs_bind; [by apply runs_consume_all|]. intros [] w2 r2 _ _ [Hk Hw2]; [|by apply runs_fail_here].
  apply runs_push. rewrite app_nil_r, Hw2, Hk by done. done.
Qed.
End Space.

(** ** The stack of the document *)

Lemma pop_reads vs t s k : pop (Z.of_nat (length vs)) (Reading t s (reverse vs ++ k)) = Ret (Parsed vs (Reading t s k)).
Proof.
  unfold pop. cbn [stack tell src]. rewrite (proj2 (Z.leb_le _ _)) by (rewrite length_app, length_reverse; lia).
  rewrite Nat2Z.id, <-(length_reverse vs), take_app_length, drop_app_length. by rewrite reverse_involutive.
Qed.
Definition flat (ms : list (value * value)) : list value := concat (map (λ m, [fst m; snd m]) ms).
Lemma members_flat ms : members_of_values (flat ms) = ms.
Proof. induction ms as [|[n v] ms IH]; [done|]. unfold flat in *. cbn. by rewrite IH. Qed.
Lemma length_flat ms : Z.of_nat (length (flat ms)) = 2 * Z.of_nat (length ms).
Proof. induction ms as [|m ms IH]; [done|]. cbn [flat map concat app length] in *. unfold flat in IH. lia. Qed.
Lemma flat_snoc ms n v : reverse (flat (ms ++ [(n, v)])) = v :: n :: reverse (flat ms).
Proof. unfold flat. rewrite map_app, concat_app, reverse_app. done. Qed.
Lemma EndArray_reads vs top t s k : EndArray (Z.of_nat (length vs)) (Reading t s (reverse vs ++ top :: k)) = Ret (Parsed tt (Reading t s (ArrayValue vs :: k))).
Proof. unfold EndArray. by rewrite (bind_parsed _ _ _ _ _ (pop_reads vs t s (top :: k))). Qed.
Lemma EndObject_reads ms top t s k :
  EndObject (Z.of_nat (length ms)) (Reading t s (reverse (flat ms) ++ top :: k)) = Ret (Parsed tt (Reading t s (ObjectValue ms :: k))).
Proof.
  unfold EndObject. rewrite <-length_flat. rewrite (bind_parsed _ _ _ _ _ (pop_reads (flat ms) t s (top :: k))). by rewrite members_flat.
Qed.

(** ** Soundness: what is read is in the grammar *)

Section Sound.
Context (whole : list Z) (Hbytes : bytes_ok whole) (Hlen : len whole < 2 ^ 27).
Let runs {A} := @runs whole A.
Arguments runs {A} m r Q.

Lemma at_tell_src r : at_ whole r → tell r = len whole - len (src r).
Proof. intros (b & -> & ->). rewrite len_app. lia. Qed.
(** [pv] reads the values that begin in the last [n] bytes of the text. *)
Definition reads_values (n : nat) (pv : reader unit) : Prop :=
  ∀ r, (length (src r) < n)%nat → runs pv r (λ _ w r', ∃ v, stack r' = v :: stack r ∧ (stop (src r') → value_text w v)).

Section Values.
Context (n : nat) (pv : reader unit) (Hpv : reads_values n pv).

Lemma runs_element_loop m : ∀ r vs0 top k, (length (src r) < n)%nat → (length (src r) < m)%nat → Z.of_nat (length vs0) ≤ len whole - len (src r) →
  stack r = reverse vs0 ++ top :: k →
  runs (element_loop pv m (Z.of_nat (length vs0))) r
    (λ _ w r', ∃ s vs, w = s ++ str "]" ∧ elements_text s vs ∧ stack r' = ArrayValue (vs0 ++ vs) :: k).
Proof.
  induction m as [|m IH]; intros r vs0 top k Hn Hm Hc Hk; [lia|]. cbn [element_loop].
  apply runs_at. intros Hr. pose proof (at_src _ _ Hr).
  assert (u32 (Z.of_nat (length vs0) + 1) = Z.of_nat (length (vs0 ++ [NullValue]))) as Ecount.
  { rewrite length_app. cbn [length]. unfold u32. rewrite wrap_id; [lia|]. pose proof (len_nonneg (src r)). unfold fits. lia. }
  eapply runs_bind; [by apply Hpv|]. intros _ w r1 _ E1 (v & Hk1 & Hv).
  eapply runs_bind; [apply runs_SkipWhitespace|]. intros _ w2 r2 _ E2 (Hw2 & Hk2 & _).
  eapply (runs_bind _ _ _ _ (λ b w r', stack r' = stack r2 ∧ if b : bool then src r2 = ch "," :: src r' ∧ w = [ch ","] else r' = r2 ∧ w = [])).
  { apply runs_Consume; [done|by intros s Es|done]. }
  intros [] w3 r3 _ E3 [Hk3 Hb].
  - destruct Hb as [Es ->]. eapply runs_bind; [apply runs_SkipWhitespace|]. intros _ w4 r4 _ E4 (Hw4 & Hk4 & _).
    assert (length (src r4) < length (src r))%nat as Hless.
    { rewrite E1, E2, E3, E4, !length_app. cbn [length]. lia. }
    replace (u32 _) with (Z.of_nat (length (vs0 ++ [v]))) by (by rewrite Ecount, !length_app).
    eapply runs_mono.
    + apply (IH r4 (vs0 ++ [v]) top k); [lia|lia| |].
      * unfold len in *. rewrite length_app. cbn [length]. lia.
      * by rewrite Hk4, Hk3, Hk2, Hk1, Hk, reverse_snoc.
    + intros _ w5 r5 _ _ (s & vs & -> & Hs & Hk5). exists (w ++ w2 ++ ch "," :: w4 ++ s), (v :: vs).
      split; [by list_norm|]. split; [|by rewrite Hk5, <-app_assoc]. apply elements_next; [|done..].
      apply Hv. rewrite E2. apply spaces_stop; [done|]. rewrite Es. apply (bool_decide_unpack _). by vm_compute.
  - destruct Hb as [-> ->].
    eapply (runs_bind _ _ _ _ (λ b w r', if b : bool then src r2 = ch "]" :: src r' ∧ w = [ch "]"] ∧ r' = Reading (tell r') (src r') (stack r2) else True)).
    { apply runs_Consume; [done|by intros s Es|done]. }
    intros [] w4 r4 _ _ Hb; [|by apply runs_fail_here]. destruct Hb as (Es & -> & ->). intros H4.
    replace (u32 _) with (Z.of_nat (length (vs0 ++ [v]))) by (by rewrite Ecount, !length_app).
    replace (stack r2) with (reverse (vs0 ++ [v]) ++ top :: k) by (by rewrite Hk2, Hk1, Hk, reverse_snoc).
    rewrite EndArray_reads. split; [done|]. exists []. split; [done|]. exists (w ++ w2), [v].
    split; [by list_norm|]. split; [|done]. apply elements_last; [|done]. apply Hv. rewrite E2. apply spaces_stop; [done|].
    rewrite Es. apply (bool_decide_unpack _). by vm_compute.
Qed.
(** The loop over the members puts them behind [ms0]. *)
Lemma runs_member_loop m : ∀ r ms0 top k, (length (src r) ≤ n)%nat → (length (src r) < m)%nat → Z.of_nat (length ms0) ≤ len whole - len (src r) →
  stack r = reverse (flat ms0) ++ top :: k →
  runs (member_loop pv m (Z.of_nat (length ms0))) r
    (λ _ w r', ∃ s ms, w = s ++ str "}" ∧ members_text s ms ∧ stack r' = ObjectValue (ms0 ++ ms) :: k).
Proof.
  induction m as [|m IH]; intros r ms0 top k Hn Hm Hc Hk; [lia|]. cbn [member_loop].
  apply runs_at. intros Hr. pose proof (at_src _ _ Hr). apply runs_Peek.
  destruct (src r) as [|q s0] eqn:Es0; [by apply runs_fail_here|]. cbn [hd].
  destruct (Z.eqb_spec q 34) as [->|]; [|by apply runs_fail_here]. cbn [negb].
  assert (u32 (Z.of_nat (length ms0) + 1) = Z.of_nat (length (ms0 ++ [(NullValue, NullValue)]))) as Ecount.
  { rewrite length_app. cbn [length]. unfold u32. rewrite wrap_id; [lia|]. pose proof (len_nonneg (34 :: s0)). unfold fits. lia. }
  eapply runs_bind; [by eapply runs_ParseString; [..|done]; [|lia]|]. intros _ wn r0 _ E0 (body & name & -> & Hname & Hk0).
  eapply runs_bind; [apply runs_SkipWhitespace|]. intros _ w0 ra _ Ea (Hw0 & Hka & _).
  eapply (runs_bind _ _ _ _ (λ b w r', stack r' = stack ra ∧ (b = true → w = [ch ":"]))); [by apply runs_Consume|].
  intros [] wc rb _ Eb [Hkb Hwc]; [|by apply runs_fail_here]. rewrite (Hwc eq_refl) in *. clear Hwc. cbn [negb].
  eapply runs_bind; [apply runs_SkipWhitespace|]. intros _ w1 rc _ Ec (Hw1 & Hkc & _).
  assert (length (src rc) < length (src r))%nat as Hless0.
  { rewrite E0, Ea, Eb, Ec. rewrite !length_app. cbn [length]. lia. }
  eapply runs_bind; [apply Hpv; rewrite Es0 in Hless0; lia|]. intros _ w r1 _ E1 (v & Hk1 & Hv).
  eapply runs_bind; [apply runs_SkipWhitespace|]. intros _ w2 r2 _ E2 (Hw2 & Hk2 & _).
  assert (key_text ((34 :: body ++ [34]) ++ w0 ++ [ch ":"] ++ w1) name) as Hkey.
  { exists body, w0, w1. split; [by list_norm|done]. }
  assert (stack r2 = reverse (flat (ms0 ++ [(StringValue name, v)])) ++ top :: k) as Hstack.
  { by rewrite flat_snoc, Hk2, Hk1, Hkc, Hkb, Hka, Hk0, Hk. }
  replace (u32 _) with (Z.of_nat (length (ms0 ++ [(StringValue name, v)]))) by (by rewrite Ecount, !length_app).
  apply runs_Peek. destruct (src r2) as [|c s2] eqn:Es2; [by apply runs_fail_here|]. cbn [hd].
  assert (stop (c :: s2) → value_text w v) as Hv' by (intros Hstop; apply Hv; rewrite E2; by apply spaces_stop).
  destruct (Z.eqb_spec c (ch ",")) as [->|Hcomma]; [|destruct (Z.eqb_spec c (ch "}")) as [->|Hbrace]; [|by apply runs_fail_here]].
  - eapply runs_Take; [done|]. eapply runs_bind; [apply runs_SkipWhitespace|]. intros _ w4 r4 _ E4 (Hw4 & Hk4 & _). cbn [src stack] in *.
    assert (length (src r4) < length (src r))%nat as Hless.
    { apply (f_equal length) in E1, E2, E4. rewrite !length_app in *. cbn [length] in *. lia. }
    rewrite Es0 in Hless. eapply runs_mono.
    + apply (IH r4 (ms0 ++ [(StringValue name, v)]) top k); [lia|lia| |by rewrite Hk4].
      unfold len in *. rewrite length_app. cbn [length] in *. lia.
    + intros _ w5 r5 _ _ (s & ms & -> & Hs & Hk5).
      eexists (((34 :: body ++ [34]) ++ w0 ++ [ch ":"] ++ w1) ++ w ++ w2 ++ ch "," :: w4 ++ s), (_ :: ms).
      split; [by list_norm|]. split; [|by rewrite Hk5, <-app_assoc]. apply members_next; [done| |done..]. apply Hv'.
      apply (bool_decide_unpack _). by vm_compute.
  - eapply runs_Take; [done|]. intros H4. rewrite Hstack, EndObject_reads. split; [done|]. exists []. split; [done|].
    eexists (((34 :: body ++ [34]) ++ w0 ++ [ch ":"] ++ w1) ++ w ++ w2), [_]. split; [by list_norm|]. split; [|done].
    apply members_last; [done| |done]. apply Hv'. apply (bool_decide_unpack _). by vm_compute.
Qed.

Lemma runs_ParseArray s r : src r = ch "[" :: s → (length s < n)%nat →
  runs (ParseArray pv) r (λ _ w r', ∃ v, stack r' = v :: stack r ∧ value_text w v).
Proof.
  intros Es Hn. unfold ParseArray. apply runs_Peek. rewrite Es. cbn [hd].
  eapply (runs_bind _ _ _ _ (λ _ w r', w = [] ∧ r' = r)); [by apply runs_assert|]. intros _ w r' _ _ [-> ->].
  eapply runs_Take; [done|]. eapply (runs_bind _ _ _ _ (λ _ w r', w = [] ∧ r' = Reading (tell r + 1) s (ArrayValue [] :: stack r))); [by apply runs_push|].
  intros _ w r1 _ _ [-> ->]. eapply runs_bind; [apply runs_SkipWhitespace|]. intros _ w1 r2 Hr2 E2 (Hw1 & Hk2 & _). cbn [src stack] in *.
  eapply (runs_bind _ _ _ _ (λ b w r', stack r' = stack r2 ∧ if b : bool then w = str "]" else w = [])); [by apply runs_Consume|].
  intros [] w3 r3 Hr3 E3 [Hk3 ->].
  - intros H3. destruct r3 as [t3 s3 k3]. cbn [stack] in Hk3. rewrite Hk3, Hk2.
    assert (EndArray 0 (Reading t3 s3 (ArrayValue [] :: stack r)) = Ret (Parsed tt (Reading t3 s3 (ArrayValue [] :: stack r)))) as -> by exact (EndArray_reads [] (ArrayValue []) t3 s3 (stack r)). split; [done|]. exists []. split; [done|]. exists (ArrayValue []). split; [done|].
    list_norm. by apply text_array_empty.
  - eapply runs_mono; [apply (runs_element_loop _ r3 [] (ArrayValue []) (stack r))|].
    + apply (f_equal length) in E2, E3. rewrite length_app in *. cbn [length] in *. lia.
    + lia.
    + pose proof (at_src _ _ Hr3). simpl. lia.
    + by rewrite Hk3, Hk2.
    + intros _ w r5 _ _ (s5 & vs & -> & Hs & Hk5). exists (ArrayValue vs). split; [done|]. list_norm. by apply text_array.
Qed.
Lemma runs_ParseObject s r : src r = ch "{" :: s → (length s < n)%nat →
  runs (ParseObject pv) r (λ _ w r', ∃ v, stack r' = v :: stack r ∧ value_text w v).
Proof.
  intros Es Hn. unfold ParseObject. apply runs_Peek. rewrite Es. cbn [hd].
  eapply (runs_bind _ _ _ _ (λ _ w r', w = [] ∧ r' = r)); [by apply runs_assert|]. intros _ w r' _ _ [-> ->].
  eapply runs_Take; [done|]. eapply (runs_bind _ _ _ _ (λ _ w r', w = [] ∧ r' = Reading (tell r + 1) s (ObjectValue [] :: stack r))); [by apply runs_push|].
  intros _ w r1 _ _ [-> ->]. eapply runs_bind; [apply runs_SkipWhitespace|]. intros _ w1 r2 Hr2 E2 (Hw1 & Hk2 & _). cbn [src stack] in *.
  eapply (runs_bind _ _ _ _ (λ b w r', stack r' = stack r2 ∧ if b : bool then w = str "}" else w = [])); [by apply runs_Consume|].
  intros [] w3 r3 Hr3 E3 [Hk3 ->].
  - intros H3. destruct r3 as [t3 s3 k3]. cbn [stack] in Hk3. rewrite Hk3, Hk2.
    assert (EndObject 0 (Reading t3 s3 (ObjectValue [] :: stack r)) = Ret (Parsed tt (Reading t3 s3 (ObjectValue [] :: stack r)))) as -> by exact (EndObject_reads [] (ObjectValue []) t3 s3 (stack r)). split; [done|]. exists []. split; [done|]. exists (ObjectValue []). split; [done|].
    list_norm. by apply text_object_empty.
  - eapply runs_mono; [apply (runs_member_loop _ r3 [] (ObjectValue []) (stack r))|].
    + apply (f_equal length) in E2, E3. rewrite length_app in *. cbn [length] in *. lia.
    + lia.
    + pose proof (at_src _ _ Hr3). simpl. lia.
    + by rewrite Hk3, Hk2.
    + intros _ w r5 _ _ (s5 & ms & -> & Hs & Hk5). exists (ObjectValue ms). split; [done|]. list_norm. by apply text_object.
Qed.
End Values.

Lemma runs_ParseValue n : reads_values n (ParseValue n).
Proof.
  induction n as [|n IH]; intros r Hn; [lia|]. cbn [ParseValue]. apply runs_Peek.
  assert (∀ c w v, hd 0 (src r) = c → c ≠ 0 → 0 ∉ w → value_text (c :: w) v →
    runs (c' ← Peek; _ ← assert (c' =? c); _ ← Take; b ← consume_all w; if b : bool then push v else fail_here ValueInvalid) r
      (λ _ w r', ∃ v, stack r' = v :: stack r ∧ (stop (src r') → value_text w v))) as Hlit.
  { intros c w v Hc H0 Hw Hv. eapply runs_mono; [by apply runs_literal|]. intros _ w' r' _ _ [-> Hk]. by exists v. }
  destruct (Z.eqb_spec (hd 0 (src r)) (ch "n")) as [E|_]; [apply Hlit; [done..|apply (bool_decide_unpack _); by vm_compute|constructor]|].
  destruct (Z.eqb_spec (hd 0 (src r)) (ch "t")) as [E|_]; [apply Hlit; [done..|apply (bool_decide_unpack _); by vm_compute|constructor]|].
  destruct (Z.eqb_spec (hd 0 (src r)) (ch "f")) as [E|_]; [apply Hlit; [done..|apply (bool_decide_unpack _); by vm_compute|constructor]|].
  destruct (Z.eqb_spec (hd 0 (src r)) 34) as [E|_].
  { destruct (src r) as [|c s] eqn:Es; cbn [hd] in E; [done|]. subst c. eapply runs_mono; [by eapply runs_ParseString; [..|done]; [|lia]|].
    intros _ w r' _ _ (body & out & -> & Hb & Hk). exists (StringValue out). split; [done|]. intros _. by constructor. }
  destruct (Z.eqb_spec (hd 0 (src r)) (ch "{")) as [E|_].
  { destruct (src r) as [|c s] eqn:Es; cbn [hd] in E; [done|]. subst c. eapply runs_mono; [apply (runs_ParseObject n _ IH s r Es); simpl in Hn; lia|].
    intros _ w r' _ _ (v & Hk & Hv). by exists v. }
  destruct (Z.eqb_spec (hd 0 (src r)) (ch "[")) as [E|_].
  { destruct (src r) as [|c s] eqn:Es; cbn [hd] in E; [done|]. subst c. eapply runs_mono; [apply (runs_ParseArray n _ IH s r Es); simpl in Hn; lia|].
    intros _ w r' _ _ (v & Hk & Hv). by exists v. }
  intros Hr. pose proof (runs_ParseNumber whole Hlen r Hr) as H. destruct (ParseNumber r) as [[[] [t' s' k']|c o]| |] eqn:E; [|done..].
  destruct H as (Hr' & w & Hw & _). split; [done|]. exists w. split; [done|]. destruct r as [t s k]. cbn [src stack] in *.
  pose proof (shifted_ParseNumber s t k) as Hs. rewrite E in Hs. destruct Hs as (w' & p & Hw' & Er & (_ & v & -> & _) & _).
  injection Er as -> ->. exists v. split; [done|]. intros Hstop. pose proof (at_src _ _ Hr) as Hls. cbn [src] in Hls.
  destruct (read_number t s k _ _ _ Hstop ltac:(lia) E) as (w2 & v2 & Hw2 & _ & Hk & Hv).
  injection Hk as <-. assert (w2 = w) as <-; [|by apply text_number]. apply (app_inv_tail s'). by rewrite <-Hw2, <-Hw.
Qed.
End Sound.

(** ** Completeness: what is in the grammar is read *)

(** How a value begins. *)
Definition begins (s : list Z) : Prop := hd 0 s ∈ 34 :: str "ntf{[-0123456789".
Lemma number_begins s v : number_text s v → hd 0 s ∈ str "-0123456789".
Proof.
  intros (m & i & f & e & -> & Hm & Hi & _)%number_text_syntax.
  assert (∀ c, 49 ≤ c ≤ 57 → c ∈ str "-0123456789") as Hd.
  { intros c Hc. assert (negb ((49 <=? c) && (c <=? 57)) || bool_decide (c ∈ str "-0123456789") = true) as H
      by (assert (byte_ok c) by (unfold byte_ok; lia); byte_brute c).
    rewrite (proj2 (Z.leb_le 49 c)), (proj2 (Z.leb_le c 57)) in H by lia. by apply bool_decide_eq_true in H. }
  apply elem_of_cons in Hm as [->|Hm]; [|apply list_elem_of_singleton in Hm as ->; by left].
  destruct Hi as [->|(c & ds & -> & Hc & _)]; [right; by left|by apply Hd].
Qed.
Lemma value_begins s v : value_text s v → begins s.
Proof.
  destruct 1 as [| | |s v H| | | | |]; try (apply (bool_decide_unpack _); by vm_compute).
  apply number_begins in H. do 6 right. exact H.
Qed.
Lemma begins_nonempty s : begins s → s ≠ [].
Proof. intros H ->. by vm_compute in H; repeat (apply elem_of_cons in H as [H|H]; [done|]); apply elem_of_nil in H. Qed.
Lemma begins_app s s' : begins s → begins (s ++ s').
Proof. intros H. pose proof (begins_nonempty _ H). by destruct s. Qed.
(** A byte test that no beginning passes. *)
Lemma begins_test s (P : Z → bool) : begins s → forallb (λ c, negb (P c)) (34 :: str "ntf{[-0123456789") = true → P (hd 0 s) = false.
Proof. intros Hs Hf. rewrite forallb_forall in Hf. apply negb_true_iff, Hf, list_elem_of_In, Hs. Qed.
Lemma begins_space s : begins s → is_space (hd 0 s) = false.
Proof. intros H. by apply begins_test. Qed.
Lemma elements_begins s vs : elements_text s vs → begins s.
Proof. destruct 1 as [s v w H|s v w w2 more vs H]; by apply begins_app, value_begins in H || apply begins_app; eapply value_begins. Qed.
Lemma members_begins s ms : members_text s ms → ∃ s', s = 34 :: s'.
Proof. by destruct 1 as [? ? ? ? ? (body & w1 & w2 & -> & _)|? ? ? ? ? ? ? ? (body & w1 & w2 & -> & _)]; eexists. Qed.

Lemma stop_byte c rest : bool_decide (c ∈ 0 :: 9 :: 10 :: 13 :: 32 :: str ",]}") = true → stop (c :: rest).
Proof. by intros H%bool_decide_eq_true. Qed.
Lemma SizeType_next (l : nat) x : Z.of_nat l + 1 < 2 ^ 32 → x = S l → u32 (Z.of_nat l + 1) = Z.of_nat x.
Proof. intros H ->. unfold u32. rewrite wrap_id by (unfold fits; lia). lia. Qed.

Definition value_reads (s : list Z) (v : value) : Prop :=
  ∀ n t rest k, (length s < n)%nat → len s + 1 < 2 ^ 32 → stop rest →
    ParseValue n (Reading t (s ++ rest) k) = Ret (Parsed tt (Reading (t + len s) rest (v :: k))).
Definition elements_read (s : list Z) (vs : list value) : Prop :=
  ∀ n m t rest vs0 top k, (length s < n)%nat → (length s < m)%nat → Z.of_nat (length vs0) + len s + 1 < 2 ^ 32 →
    element_loop (ParseValue n) m (Z.of_nat (length vs0)) (Reading t (s ++ ch "]" :: rest) (reverse vs0 ++ top :: k))
    = Ret (Parsed tt (Reading (t + len s + 1) rest (ArrayValue (vs0 ++ vs) :: k))).
Definition members_read (s : list Z) (ms : list (value * value)) : Prop :=
  ∀ n m t rest ms0 top k, (length s < n)%nat → (length s < m)%nat → Z.of_nat (length ms0) + len s + 1 < 2 ^ 32 →
    member_loop (ParseValue n) m (Z.of_nat (length ms0)) (Reading t (s ++ ch "}" :: rest) (reverse (flat ms0) ++ top :: k))
    = Ret (Parsed tt (Reading (t + len s + 1) rest (ObjectValue (ms0 ++ ms) :: k))).

Lemma number_reads s v : number_text s v → value_reads s v.
Proof.
  intros H n t rest k Hn _ Hr. destruct n as [|n]; [lia|]. cbn [ParseValue]. rewrite bind_Peek. cbn [src].
  pose proof (number_begins _ _ H) as Hb. destruct s as [|c s]; [apply (bool_decide_eq_true_2 _) in Hb; by vm_compute in Hb|]. cbn [app hd] in *.
  assert (∀ P : Z → bool, forallb (λ c, negb (P c)) (str "-0123456789") = true → P c = false) as HP.
  { intros P Hf. rewrite forallb_forall in Hf. by apply negb_true_iff, Hf, list_elem_of_In. }
  rewrite (HP (λ c, c =? ch "n")), (HP (λ c, c =? ch "t")), (HP (λ c, c =? ch "f")), (HP (λ c, c =? 34)), (HP (λ c, c =? ch "{")),
    (HP (λ c, c =? ch "[")) by done.
  exact (number_read (c :: s) v t rest k H Hr).
Qed.
(** The value, the white space behind it and the next byte. *)
Lemma value_then {A} s v w n c t rest k (f : reader A) : value_reads s v → spaces w → (length s < n)%nat → len s + 1 < 2 ^ 32 →
  is_space c = false → bool_decide (c ∈ 0 :: 9 :: 10 :: 13 :: 32 :: str ",]}") = true →
  (_ ← ParseValue n; _ ← SkipWhitespace; f) (Reading t (s ++ w ++ c :: rest) k) = f (Reading (t + len s + len w) (c :: rest) (v :: k)).
Proof.
  intros Hv Hw Hn Hl Hc Hstop.
  rewrite (bind_parsed _ _ _ _ _ (Hv n t (w ++ c :: rest) k Hn Hl (spaces_stop _ _ Hw (stop_byte _ _ Hstop)))).
  by rewrite (bind_parsed _ _ _ _ _ (SkipWhitespace_reads _ _ (c :: rest) _ Hw Hc)).
Qed.

Lemma element_last_reads s v w : value_reads s v → spaces w → elements_read (s ++ w) [v].
Proof.
  intros Hv Hw n m t rest vs0 top k Hn Hm Hl. rewrite length_app in *. rewrite len_app in *. pose proof (len_nonneg s). pose proof (len_nonneg w).
  destruct m as [|m]; [lia|]. cbn [element_loop]. rewrite (SizeType_next _ (length (vs0 ++ [v]))) by (rewrite ?length_app; cbn [length]; lia).
  rewrite <-app_assoc. rewrite (value_then s v w) by (done || lia).
  rewrite (bind_parsed (Consume (ch ",")) _ _ _ _ (Consume_false (ch ",") (Reading _ (ch "]" :: rest) _) ltac:(done))).
  rewrite (bind_parsed _ _ _ _ _ (Consume_true _ _ _ _)).
  pose proof (EndArray_reads (vs0 ++ [v]) top (t + len s + len w + 1) rest k) as E. rewrite reverse_snoc in E. cbn [app] in E. rewrite E.
  by rewrite !Z.add_assoc.
Qed.
Lemma element_next_reads s v w w2 more vs : value_reads s v → spaces w → spaces w2 → begins more → elements_read more vs →
  elements_read (s ++ w ++ ch "," :: w2 ++ more) (v :: vs).
Proof.
  intros Hv Hw Hw2 Hb Hmore n m t rest vs0 top k Hn Hm Hl. repeat (rewrite length_app in * || cbn [length] in *). rewrite !len_app, len_cons, len_app in *.
  pose proof (len_nonneg s). pose proof (len_nonneg w). pose proof (len_nonneg w2). pose proof (len_nonneg more).
  destruct m as [|m]; [lia|]. cbn [element_loop]. rewrite (SizeType_next _ (length (vs0 ++ [v]))) by (rewrite ?length_app; cbn [length]; lia).
  replace ((s ++ w ++ ch "," :: w2 ++ more) ++ ch "]" :: rest) with (s ++ w ++ ch "," :: w2 ++ more ++ ch "]" :: rest) by by list_norm.
  rewrite (value_then s v w) by (done || lia). rewrite (bind_parsed _ _ _ _ _ (Consume_true _ _ _ _)).
  rewrite (bind_parsed _ _ _ _ _ (SkipWhitespace_reads w2 _ (more ++ ch "]" :: rest) _ Hw2 (begins_space _ (begins_app _ _ Hb)))).
  pose proof (Hmore n m (t + len s + len w + 1 + len w2) rest (vs0 ++ [v]) top k ltac:(lia) ltac:(lia)) as E.
  rewrite reverse_snoc in E. cbn [app] in E. rewrite E by (rewrite length_app; cbn [length]; lia). rewrite <-app_assoc. do 3 f_equal. lia.
Qed.
(** The name of a member and the colon. *)
Lemma key_then {A} h name t rest k (f : reader A) : key_text h name → len h < 2 ^ 32 → is_space (hd 0 rest) = false →
  (_ ← ParseString true; _ ← SkipWhitespace; colon ← Consume (ch ":");
   if negb (colon : bool) then fail_here ObjectMissColon else _ ← SkipWhitespace; f) (Reading t (h ++ rest) k)
  = f (Reading (t + len h) rest (StringValue name :: k)).
Proof.
  intros (body & w1 & w2 & -> & Hb & Hw1 & Hw2) Hl Hr.
  repeat (rewrite len_cons in * || rewrite len_app in *). pose proof (len_nonneg w1). pose proof (len_nonneg w2). pose proof (len_nonneg body).
  replace ((34 :: body ++ 34 :: w1 ++ ch ":" :: w2) ++ rest) with (34 :: body ++ 34 :: w1 ++ ch ":" :: w2 ++ rest) by by list_norm.
  rewrite (bind_parsed _ _ _ _ _ (ParseString_reads body name true t (w1 ++ ch ":" :: w2 ++ rest) k Hb ltac:(lia))).
  rewrite (bind_parsed _ _ _ _ _ (SkipWhitespace_reads w1 _ (ch ":" :: w2 ++ rest) _ Hw1 ltac:(done))).
  rewrite (bind_parsed _ _ _ _ _ (Consume_true _ _ _ _)). cbn [negb].
  rewrite (bind_parsed _ _ _ _ _ (SkipWhitespace_reads w2 _ rest _ Hw2 Hr)). f_equal. f_equal. lia.
Qed.
Lemma member_last_reads h name s v w : key_text h name → begins s → value_reads s v → spaces w → members_read (h ++ s ++ w) [(StringValue name, v)].
Proof.
  intros Hh Hb Hv Hw n m t rest ms0 top k Hn Hm Hl. rewrite !length_app in *. rewrite !len_app in *.
  pose proof (len_nonneg s). pose proof (len_nonneg w). pose proof (len_nonneg h).
  destruct m as [|m]; [lia|]. cbn [member_loop]. rewrite bind_Peek. cbn [src].
  assert (∀ x, hd 0 ((h ++ s ++ w) ++ x) = 34) as -> by (intros x; by destruct Hh as (body & w1 & w2 & -> & _)).
  cbn [negb]. change (34 =? 34) with true. cbn [negb].
  rewrite (SizeType_next _ (length (ms0 ++ [(StringValue name, v)]))) by (rewrite ?length_app; cbn [length]; lia).
  rewrite <-!app_assoc. rewrite (key_then h name) by (done || lia || by apply begins_space, begins_app).
  rewrite (value_then s v w) by (done || lia). rewrite bind_Peek. cbn [src hd]. change (ch "}" =? ch ",") with false. change (ch "}" =? ch "}") with true.
  cbn match. rewrite bind_Take.
  pose proof (EndObject_reads (ms0 ++ [(StringValue name, v)]) top (t + len h + len s + len w + 1) rest k) as E. rewrite flat_snoc in E. cbn [app] in E. rewrite E.
  by rewrite !Z.add_assoc.
Qed.
Lemma member_next_reads h name s v w w2 more ms : key_text h name → begins s → value_reads s v → spaces w → spaces w2 →
  (∃ s', more = 34 :: s') → members_read more ms → members_read (h ++ s ++ w ++ ch "," :: w2 ++ more) ((StringValue name, v) :: ms).
Proof.
  intros Hh Hb Hv Hw Hw2 [more' Em] Hmore n m t rest ms0 top k Hn Hm Hl.
  repeat (rewrite length_app in * || cbn [length] in *). rewrite !len_app, len_cons, len_app in *.
  pose proof (len_nonneg s). pose proof (len_nonneg w). pose proof (len_nonneg h). pose proof (len_nonneg w2). pose proof (len_nonneg more).
  destruct m as [|m]; [lia|]. cbn [member_loop]. rewrite bind_Peek. cbn [src].
  assert (∀ x y, hd 0 ((h ++ y) ++ x) = 34) as -> by (intros x y; by destruct Hh as (body & w1' & w2' & -> & _)).
  change (34 =? 34) with true. cbn [negb].
  rewrite (SizeType_next _ (length (ms0 ++ [(StringValue name, v)]))) by (rewrite ?length_app; cbn [length]; lia).
  replace ((h ++ s ++ w ++ ch "," :: w2 ++ more) ++ ch "}" :: rest) with (h ++ s ++ w ++ ch "," :: w2 ++ more ++ ch "}" :: rest) by by list_norm.
  rewrite (key_then h name) by (done || lia || by apply begins_space, begins_app).
  rewrite (value_then s v w) by (done || lia). rewrite bind_Peek. cbn [src hd]. rewrite Z.eqb_refl, bind_Take.
  rewrite (bind_parsed _ _ _ _ _ (SkipWhitespace_reads w2 _ (more ++ ch "}" :: rest) _ Hw2 ltac:(by rewrite Em))).
  pose proof (Hmore n m (t + len h + len s + len w + 1 + len w2) rest (ms0 ++ [(StringValue name, v)]) top k ltac:(lia) ltac:(lia)) as E.
  rewrite flat_snoc in E. cbn [app] in E. rewrite E by (rewrite length_app; cbn [length]; lia). rewrite <-app_assoc. do 3 f_equal. lia.
Qed.

(** Behind the bracket and the white space. *)
Lemma ParseArray_open pv w t rest k : spaces w → is_space (hd 0 rest) = false →
  ParseArray pv (Reading t (ch "[" :: w ++ rest) k)
  = (b ← Consume (ch "]"); if b : bool then EndArray 0 else each_byte (λ n, element_loop pv n 0)) (Reading (t + 1 + len w) rest (ArrayValue [] :: k)).
Proof.
  intros Hw Hr. unfold ParseArray. rewrite bind_Peek. cbn [src hd].
  rewrite (bind_parsed (assert _) _ _ tt (Reading t (ch "[" :: w ++ rest) k)), bind_Take by done.
  rewrite (bind_parsed StartArray _ _ tt (Reading (t + 1) (w ++ rest) (ArrayValue [] :: k))) by done.
  by rewrite (bind_parsed _ _ _ _ _ (SkipWhitespace_reads w _ rest _ Hw Hr)).
Qed.
Lemma ParseObject_open pv w t rest k : spaces w → is_space (hd 0 rest) = false →
  ParseObject pv (Reading t (ch "{" :: w ++ rest) k)
  = (b ← Consume (ch "}"); if b : bool then EndObject 0 else each_byte (λ n, member_loop pv n 0)) (Reading (t + 1 + len w) rest (ObjectValue [] :: k)).
Proof.
  intros Hw Hr. unfold ParseObject. rewrite bind_Peek. cbn [src hd].
  rewrite (bind_parsed (assert _) _ _ tt (Reading t (ch "{" :: w ++ rest) k)), bind_Take by done.
  rewrite (bind_parsed StartObject _ _ tt (Reading (t + 1) (w ++ rest) (ObjectValue [] :: k))) by done.
  by rewrite (bind_parsed _ _ _ _ _ (SkipWhitespace_reads w _ rest _ Hw Hr)).
Qed.
Lemma array_empty_reads w : spaces w → value_reads (ch "[" :: w ++ str "]") (ArrayValue []).
Proof.
  intros Hw [|n] t rest k Hn Hl Hr; [lia|]. cbn [app]. rewrite <-app_assoc.
  etrans; [exact (ParseArray_open (ParseValue n) w t (str "]" ++ rest) k Hw eq_refl)|].
  rewrite (bind_parsed _ _ _ _ _ (Consume_true (ch "]") _ rest _)).
  etrans; [apply (EndArray_reads [] (ArrayValue []))|]. rewrite len_cons, len_app. do 3 f_equal. change (len (str "]")) with 1. lia.
Qed.
Lemma array_reads w s vs : spaces w → begins s → elements_read s vs → value_reads (ch "[" :: w ++ s ++ str "]") (ArrayValue vs).
Proof.
  intros Hw Hb Hs [|n] t rest k Hn Hl Hr; [lia|].
  replace ((ch "[" :: w ++ s ++ str "]") ++ rest) with (ch "[" :: w ++ s ++ ch "]" :: rest) by by list_norm.
  etrans; [exact (ParseArray_open (ParseValue n) w t (s ++ ch "]" :: rest) k Hw (begins_space _ (begins_app _ _ Hb)))|].
  assert (hd 0 (s ++ ch "]" :: rest) ≠ ch "]") as Hne.
  { intros E. pose proof (begins_test _ (λ c, c =? ch "]") (begins_app _ (ch "]" :: rest) Hb) ltac:(done)) as H. cbn beta in H. by rewrite E in H. }
  rewrite (bind_parsed _ _ _ _ _ (Consume_false (ch "]") (Reading _ (s ++ ch "]" :: rest) _) Hne)).
  unfold each_byte. cbn [src]. rewrite len_cons, !len_app in *. change (len (str "]")) with 1 in *.
  cbn [length] in Hn. rewrite !length_app in Hn. pose proof (len_nonneg w).
  rewrite (Hs n _ _ rest [] (ArrayValue []) k) by (cbn [length]; rewrite ?length_app; lia). cbn [app]. do 3 f_equal. lia.
Qed.
Lemma object_empty_reads w : spaces w → value_reads (ch "{" :: w ++ str "}") (ObjectValue []).
Proof.
  intros Hw [|n] t rest k Hn Hl Hr; [lia|]. cbn [app]. rewrite <-app_assoc.
  etrans; [exact (ParseObject_open (ParseValue n) w t (str "}" ++ rest) k Hw eq_refl)|].
  rewrite (bind_parsed _ _ _ _ _ (Consume_true (ch "}") _ rest _)).
  etrans; [apply (EndObject_reads [] (ObjectValue []))|]. rewrite len_cons, len_app. do 3 f_equal. change (len (str "}")) with 1. lia.
Qed.
Lemma object_reads w s ms : spaces w → (∃ s', s = 34 :: s') → members_read s ms → value_reads (ch "{" :: w ++ s ++ str "}") (ObjectValue ms).
Proof.
  intros Hw [s' Es] Hs [|n] t rest k Hn Hl Hr; [lia|].
  replace ((ch "{" :: w ++ s ++ str "}") ++ rest) with (ch "{" :: w ++ s ++ ch "}" :: rest) by by list_norm.
  etrans; [exact (ParseObject_open (ParseValue n) w t (s ++ ch "}" :: rest) k Hw ltac:(by rewrite Es))|].
  rewrite (bind_parsed _ _ _ _ _ (Consume_false (ch "}") (Reading _ (s ++ ch "}" :: rest) _) ltac:(by rewrite Es))).
  unfold each_byte. cbn [src]. rewrite len_cons, !len_app in *. change (len (str "}")) with 1 in *.
  cbn [length] in Hn. rewrite !length_app in Hn. pose proof (len_nonneg w).
  rewrite (Hs n _ _ rest [] (ObjectValue []) k) by (cbn [length]; rewrite ?length_app; lia). cbn [app]. do 3 f_equal. lia.
Qed.
Lemma string_reads s out : chars s out → value_reads (34 :: s ++ [34]) (StringValue out).
Proof.
  intros Hs [|n] t rest k Hn Hl Hr; [lia|]. cbn [ParseValue app]. rewrite bind_Peek. cbn [src hd]. rewrite <-app_assoc.
  change (ParseString false (Reading t (34 :: s ++ 34 :: rest) k) = Ret (Parsed tt (Reading (t + len (34 :: s ++ [34])) rest (StringValue out :: k)))).
  rewrite len_cons, len_app in *. change (len [34]) with 1 in *. rewrite (ParseString_reads s out) by (done || lia). do 3 f_equal. lia.
Qed.
Lemma literal_reads c w v t rest k : (c' ← Peek; _ ← assert (c' =? c); _ ← Take; b ← consume_all w; if b : bool then push v else fail_here ValueInvalid)
    (Reading t ((c :: w) ++ rest) k) = Ret (Parsed tt (Reading (t + len (c :: w)) rest (v :: k))).
Proof.
  rewrite bind_Peek. cbn [src hd app]. rewrite (bind_parsed (assert _) _ _ tt (Reading t (c :: w ++ rest) k)) by (unfold assert; by rewrite Z.eqb_refl).
  rewrite bind_Take, (bind_parsed _ _ _ _ _ (consume_all_reads _ _ _ _)). unfold push. cbn [tell src stack]. rewrite len_cons. do 3 f_equal. lia.
Qed.

Lemma texts_read :
  (∀ s v, value_text s v → value_reads s v) ∧ (∀ s vs, elements_text s vs → elements_read s vs) ∧ (∀ s ms, members_text s ms → members_read s ms).
Proof.
  apply texts_ind.
  - intros [|n] t rest k Hn _ _; [lia|]. exact (literal_reads (ch "n") (str "ull") NullValue t rest k).
  - intros [|n] t rest k Hn _ _; [lia|]. exact (literal_reads (ch "t") (str "rue") (BoolValue true) t rest k).
  - intros [|n] t rest k Hn _ _; [lia|]. exact (literal_reads (ch "f") (str "alse") (BoolValue false) t rest k).
  - apply number_reads.
  - apply string_reads.
  - apply array_empty_reads.
  - intros w s vs Hw Hs IH. by apply array_reads; [|eapply elements_begins|].
  - apply object_empty_reads.
  - intros w s ms Hw Hs IH. by apply object_reads; [|eapply members_begins|].
  - intros s v w _ IH Hw. by apply element_last_reads.
  - intros s v w w2 more vs _ IH Hw Hw2 Hm IHm. apply element_next_reads; try done. by eapply elements_begins.
  - intros h n s v w Hh Hs IH Hw. apply member_last_reads; try done. by eapply value_begins.
  - intros h n s v w w2 more ms Hh Hs IH Hw Hw2 Hm IHm. apply member_next_reads; try done; [by eapply value_begins|by eapply members_begins].
Qed.

(** ** The document *)

(** Each byte of a byte order mark may be there or not. *)
Definition bom (b : list Z) : Prop :=
  ∃ b1 b2 b3, b = b1 ++ b2 ++ b3 ∧ b1 ∈ [[]; [0xEF]] ∧ b2 ∈ [[]; [0xBB]] ∧ b3 ∈ [[]; [0xBF]].
(** One value between white space, to the end of the text or to a NUL. *)
Definition document_text (text : list Z) (v : value) : Prop :=
  ∃ b w1 s w2 rest, text = b ++ w1 ++ s ++ w2 ++ rest ∧ bom b ∧ spaces w1 ∧ value_text s v ∧ spaces w2 ∧ hd 0 rest = 0.

Lemma optional_reads c b t rest k : b ∈ [[]; [c]] → hd 0 rest ≠ c → ∃ x, Consume c (Reading t (b ++ rest) k) = Ret (Parsed x (Reading (t + len b) rest k)).
Proof.
  intros Hb Hr. apply elem_of_cons in Hb as [->|Hb]; [|apply list_elem_of_singleton in Hb as ->].
  - exists false. rewrite len_nil, Z.add_0_r. by apply Consume_false.
  - exists true. apply Consume_true.
Qed.
Lemma hd_optional c b rest x : b ∈ [[]; [c]] → hd 0 rest ≠ x → c ≠ x → hd 0 (b ++ rest) ≠ x.
Proof. intros Hb Hr Hc. apply elem_of_cons in Hb as [->|Hb]; [done|]. by apply list_elem_of_singleton in Hb as ->. Qed.
Lemma TakeBOM_reads b t rest k : bom b → hd 0 rest < 128 → TakeBOM (Reading t (b ++ rest) k) = Ret (Parsed tt (Reading (t + len b) rest k)).
Proof.
  intros (b1 & b2 & b3 & -> & H1 & H2 & H3) Hr. unfold TakeBOM. rewrite <-!app_assoc.
  destruct (optional_reads 0xEF b1 t (b2 ++ b3 ++ rest) k H1) as [x1 E1].
  { eapply hd_optional; [done| |done]. eapply hd_optional; [done|lia|done]. }
  destruct (optional_reads 0xBB b2 (t + len b1) (b3 ++ rest) k H2) as [x2 E2].
  { eapply hd_optional; [done|lia|done]. }
  destruct (optional_reads 0xBF b3 (t + len b1 + len b2) rest k H3) as [x3 E3]; [lia|].
  rewrite (bind_parsed _ _ _ _ _ E1), (bind_parsed _ _ _ _ _ E2), (bind_parsed _ _ _ _ _ E3), !len_app. by rewrite !Z.add_assoc.
Qed.
Lemma runs_TakeBOM whole r : runs whole TakeBOM r (λ _ w r', bom w ∧ stack r' = stack r).
Proof.
  assert (∀ c r, c ≠ 0 → runs whole (Consume c) r (λ _ w r', w ∈ [[]; [c]] ∧ stack r' = stack r)) as Hopt.
  { clear r. intros c r Hc. apply runs_Consume; [done|intros s _; split; [right; by left|done]|intros _; split; [by left|done]]. }
  unfold TakeBOM. eapply runs_bind; [by apply Hopt|]. intros x1 b1 r1 _ _ [H1 Hk1]. eapply runs_bind; [by apply Hopt|].
  intros x2 b2 r2 _ _ [H2 Hk2]. eapply runs_bind; [by apply Hopt|]. intros x3 b3 r3 _ _ [H3 Hk3]. apply runs_ret.
  split; [|by rewrite Hk3, Hk2, Hk1]. exists b1, b2, b3. by rewrite app_nil_r.
Qed.

Lemma value_head s v : value_text s v → 0 < hd 0 s < 128.
Proof.
  intros H%value_begins. pose proof (begins_test s (λ c, negb ((0 <? c) && (c <? 128))) H ltac:(done)) as Ht. cbn beta in Ht.
  rewrite negb_false_iff, andb_true_iff, !Z.ltb_lt in Ht. done.
Qed.
Lemma spaces_head w rest : spaces w → hd 0 rest < 128 → hd 0 (w ++ rest) < 128.
Proof.
  intros [|c w' Hc _] Hr; [done|]. cbn [app hd]. unfold is_space in Hc. rewrite !orb_true_iff, !Z.eqb_eq in Hc. lia.
Qed.

Lemma Parse_complete text v : len text + 1 < 2 ^ 32 → document_text text v → Parse text = Ret (Root v).
Proof.
  intros Hlen (b & w1 & s & w2 & rest & -> & Hb & Hw1 & Hs & Hw2 & Hr).
  pose proof (value_head _ _ Hs) as Hhd. pose proof (value_begins _ _ Hs) as Hbeg. pose proof (begins_nonempty _ Hbeg) as Hne.
  assert (∀ x, hd 0 (s ++ x) = hd 0 s) as Hhs by (intros x; by destruct s).
  assert (is_space (hd 0 rest) = false) as Hrs by by rewrite Hr. assert (stop rest) as Hstop by (unfold stop; rewrite Hr; by left).
  unfold Parse. rewrite !len_app in Hlen.
  pose proof (len_nonneg b). pose proof (len_nonneg w1). pose proof (len_nonneg s). pose proof (len_nonneg w2). pose proof (len_nonneg rest).
  rewrite (bind_parsed _ _ _ _ _ (TakeBOM_reads b 0 _ [] Hb (spaces_head w1 (s ++ w2 ++ rest) Hw1 ltac:(rewrite Hhs; lia)))).
  unfold ParseStream. rewrite (bind_parsed _ _ _ _ _ (SkipWhitespace_reads w1 _ (s ++ w2 ++ rest) [] Hw1 (begins_space _ (begins_app _ _ Hbeg)))).
  rewrite bind_Peek. cbn [src]. rewrite Hhs, (proj2 (Z.eqb_neq (hd 0 s) 0)) by lia.
  assert (each_byte ParseValue (Reading (0 + len b + len w1) (s ++ w2 ++ rest) [])
    = Ret (Parsed tt (Reading (0 + len b + len w1 + len s) (w2 ++ rest) [v]))) as E.
  { unfold each_byte. cbn [src]. apply (proj1 texts_read s v Hs); [rewrite length_app; lia|lia|by apply spaces_stop]. }
  rewrite (bind_parsed _ _ _ _ _ E), (bind_parsed _ _ _ _ _ (SkipWhitespace_reads w2 _ rest _ Hw2 Hrs)), bind_Peek. cbn [src]. by rewrite Hr.
Qed.
Lemma Parse_sound text : bytes_ok text → len text < 2 ^ 27 →
  match Parse text with
  | Ret (Root v) => document_text text v
  | Ret (HasParseError _ o) => 0 ≤ o ≤ len text
  | Undef => far_exponent text
  | Aborted => False
  end.
Proof.
  intros Hbytes Hlen. unfold Parse.
  assert (runs text (_ ← TakeBOM; ParseStream) (Reading 0 text []) (λ _ w r', ∃ v, stack r' = [v] ∧ document_text text v)) as H.
  { apply runs_at. intros _. eapply runs_bind; [apply runs_TakeBOM|]. intros _ b r1 _ E1 [Hb Hk1]. unfold ParseStream.
    eapply runs_bind; [apply runs_SkipWhitespace|]. intros _ w1 r2 _ E2 (Hw1 & Hk2 & _). apply runs_Peek.
    destruct (hd 0 (src r2) =? 0); [by apply runs_fail_here|].
    eapply runs_bind; [by apply (runs_ParseValue text Hbytes Hlen (S (length (src r2)))); lia|]. intros _ s r3 _ E3 (v & Hk3 & Hv).
    eapply runs_bind; [apply runs_SkipWhitespace|]. intros _ w2 r4 _ E4 (Hw2 & Hk4 & _). apply runs_Peek.
    destruct (Z.eqb_spec (hd 0 (src r4)) 0) as [H0|]; cbn [negb]; [|by apply runs_fail_here]. apply runs_ret. cbn [src stack] in *.
    exists v. split; [by rewrite Hk4, Hk3, Hk2, Hk1|]. exists b, w1, s, w2, (src r4).
    split; [by rewrite E1, E2, E3, E4|]. split; [done|]. split; [done|]. split; [|done]. apply Hv. rewrite E4. apply spaces_stop; [done|].
    unfold stop. rewrite H0. by left. }
  specialize (H ltac:(by exists [])). destruct ((_ ← TakeBOM; ParseStream) _) as [[[] r|c o]| |]; [|done..].
  destruct H as (_ & w & _ & v & -> & Hv). done.
Qed.

(** C11 (equivalence): [document.Parse(text, length)] accepts exactly the documents of the
    grammar, with the value the grammar gives them: one value of RFC 8259 with white space
    before and behind it, where a byte order mark or a part of one may come first, a NUL ends
    the text, the bytes of a string need not be UTF-8, and a low surrogate may stand alone.  The
    numbers are those of the RFC that [JsonNumber.numeral_value] has a value for: an integer of
    64 bits is itself, any other number is a double computed from its digits and its power of
    ten; one that is too large, as 1e309, has none and is refused.  Unless an exponent after "e-" has ten digits, it returns for every text: no assertion of
    RapidJSON fails, no [int] overflows, no loop runs out, and an error has its position in the
    text.  The text is shorter than 128 megabytes, so that lengths and counts fit their types. *)
Theorem parse_accepts text : bytes_ok text → len text < 2 ^ 27 →
  (∀ v, Parse text = Ret (Root v) ↔ document_text text v) ∧
  (¬ far_exponent text → ∃ d, Parse text = Ret d ∧ match d with Root v => document_text text v | HasParseError _ o => 0 ≤ o ≤ len text end).
Proof.
  intros Hbytes Hlen. pose proof (Parse_sound text Hbytes Hlen) as H. split.
  - intros v. split; [|apply Parse_complete; lia]. intros E. by rewrite E in H.
  - intros Hfar. destruct (Parse text) as [d| |]; [|done..]. exists d. split; [done|]. by destruct d.
Qed.

Lemma far_exponent_long s : far_exponent s → (12 ≤ length s)%nat.
Proof. intros (a & e & ds & b & -> & _ & _ & Hds). rewrite !length_app. cbn [length]. lia. Qed.

Lemma parse_accepts_witness :
  document_text (str " [-1, true , 789, 4294967296]") (ArrayValue [value_of_int (-1); BoolValue true; value_of_unsigned 789; value_of_uint64 4294967296]) ∧
  (∀ v, ¬ document_text (str "1e309") v) ∧
  ¬ document_text (str "[1,]") (ArrayValue [value_of_unsigned 1]) ∧
  ∃ d, Parse (str "[1.5e-3]") = Ret d.
Proof.
  split; [|split; [|split]].
  - apply (parse_accepts (str " [-1, true , 789, 4294967296]")); [by apply (bool_decide_unpack _); vm_compute|by vm_compute|by vm_compute].
  - intros v H. apply (parse_accepts (str "1e309")) in H; [by vm_compute in H|by apply (bool_decide_unpack _); vm_compute|by vm_compute].
  - intros H. apply (parse_accepts (str "[1,]")) in H; [by vm_compute in H|by apply (bool_decide_unpack _); vm_compute|by vm_compute].
  - destruct (parse_accepts (str "[1.5e-3]")) as [_ H]; [by apply (bool_decide_unpack _); vm_compute|by vm_compute|].
    destruct H as (d & Hd & _); [|by exists d]. intros Hf. apply far_exponent_long in Hf. vm_compute in Hf. lia.
Defined.
(** The exponent of the fraction is added to the exponent, both of them [int]. *)
Example exponent_overflows : Parse (str "0.0000000001e-2147483639") = Undef. Proof. by vm_compute. Qed.
(** The limit on the exponent does not see the digits in front of it. *)
Example infinity_accepted : Parse (str "10e308") = Ret (Root (value_of_double (SpecFloat.S754_infinity false))). Proof. by vm_compute. Qed.
Example too_big_refused : Parse (str "1e309") = Ret (HasParseError NumberTooBig 0). Proof. by vm_compute. Qed.
Example mark_and_nul : Parse ([0xBB] ++ str "{}" ++ [0] ++ str "rest") = Ret (Root (ObjectValue [])). Proof. by vm_compute. Qed.
