(* ===== verification/JsonLogin.v ===== *)
(** * JsonLogin: the replies of the login service

    [curlWriteCallback] of tools/Tools.cpp with the documents of RapidJSON in place of the
    parameters of Tools.v: what it does for every reply. *)

From S2P Require Import Prelude Tools Json JsonReader JsonNumber JsonString JsonText.

(** [document.Parse(ptr)]: a [StringStream], which looks at no byte behind the first NUL and
    skips no byte order mark. *)
Definition ParseCString (ptr : list Z) : outcome (option value) :=
  match ParseStream (Reading 0 (c_str ptr) []) with
  | Ret (Parsed _ r) => match stack r with [v] => Ret (Some v) | _ => Aborted end
  | Ret (Failed _ _) => Ret None
  | Aborted => Aborted
  | Undef => Undef
  end.
(** [document[key].IsString()], and the string of [document[key].GetString()]. *)
Definition member_is_string (document : value) (key : list Z) : outcome bool := v ← member_at key document; Ret (IsString v).
Definition member_string (document : value) (key : list Z) : list Z :=
  match member_at key document with Ret (StringValue s) => c_str s | _ => [] end.
Definition login_reply (ptr : list Z) : outcome jscall :=
  curlWriteCallback ParseCString (λ d k, HasMember k d) member_is_string member_string true ptr.

(** The table of the replies. *)
Definition login_answer (ptr : list Z) (ms : list (value * value)) : outcome jscall :=
  match find_member (str "errcode") ms with
  | Some _ => Ret (JsCall false (str "errcode") (match find_member (str "errmsg") ms with Some (StringValue m) => c_str m | _ => ptr end))
  | None =>
      match find_member (str "session_key") ms with
      | None | Some (StringValue _) => Ret (JsCall false (str "not found `session_key`") ptr)
      | Some _ =>
          match find_member (str "openid") ms with
          | Some (StringValue _) => Aborted
          | _ => Ret (JsCall false (str "not found `openid`") ptr)
          end
      end
  end.

Lemma is_string_member key ms : no_nul key → member_is_string (ObjectValue ms) key =
  match find_member key ms with Some v => Ret (IsString v) | None => Aborted end.
Proof. intros Hk. unfold member_is_string, member_at, FindMember. rewrite c_str_id by done. by destruct (find_member key ms). Qed.
Lemma has_member_in key ms : no_nul key → HasMember key (ObjectValue ms) = Ret (bool_decide (is_Some (find_member key ms))).
Proof. intros Hk. unfold HasMember, FindMember. by rewrite c_str_id. Qed.

(** Every reply that parses: an answer by its members, and a failed assertion when it is no
    object.  With both a [session_key] that is no string and a string [openid], the call of
    [GetString] fails its assertion too. *)
Theorem login_replies ptr v : ParseCString ptr = Ret (Some v) →
  login_reply ptr = match v with ObjectValue ms => login_answer ptr ms | _ => Aborted end.
Proof.
  intros Hp. unfold login_reply, curlWriteCallback. cbn [negb]. rewrite Hp. cbn [mbind outcome_bind].
  destruct v as [| | | |ms|]; try done. unfold login_answer, has_string, Tools.GetString.
  rewrite (has_member_in (str "errcode")), (has_member_in (str "errmsg")), (has_member_in (str "session_key")), (has_member_in (str "openid")),
    (is_string_member (str "errmsg")), (is_string_member (str "session_key")), (is_string_member (str "openid"))
    by (intros H; apply (bool_decide_eq_true_2 _) in H; by vm_compute in H).
  assert (∀ key m, no_nul key → find_member key ms = Some (StringValue m) → member_string (ObjectValue ms) key = c_str m) as Hs.
  { intros key m Hk Hm. unfold member_string, member_at, FindMember. by rewrite c_str_id, Hm. }
  specialize (Hs (str "errmsg")). revert Hs. generalize (member_string (ObjectValue ms)) as text. intros text Hs.
  destruct (find_member (str "errcode") ms); [|destruct (find_member (str "session_key") ms) as [[]|]; try done; by destruct (find_member (str "openid") ms) as [[]|]].
  destruct (find_member (str "errmsg") ms) as [[| | |m| |]|]; try done.
  assert (text (str "errmsg") = c_str m) as E; [|by rewrite <-E]. apply Hs; [|done].
  intros H. apply (bool_decide_eq_true_2 _) in H. by vm_compute in H.
Qed.
(** A reply that is JSON and no object ends the program. *)
Example array_reply_aborts : login_reply (str "[]") = Aborted. Proof. by vm_compute. Qed.
Example key_reply_refused :
  login_reply ([123; 34] ++ str "session_key" ++ [34; 58; 34] ++ str "K" ++ [34; 125])
  = Ret (JsCall false (str "not found `session_key`") ([123; 34] ++ str "session_key" ++ [34; 58; 34] ++ str "K" ++ [34; 125])).
Proof. by vm_compute. Qed.
Lemma login_replies_witness : login_reply (str "[1]") = Aborted.
Proof. apply (login_replies (str "[1]") (ArrayValue [value_of_unsigned 1])). by vm_compute. Defined.
