(* ===== verification/Entity.v ===== *)
(** * Entities: src/entity/Entity.cpp, deps/bundle-0.01/include/entity/Entity.h

    An object of named values with dirty flags, read from a JSON document and printed as
    one.  The parser of JSON and the text of floating point numbers are parameters, and so is the
    order in which an [unordered_map] is walked. *)

From S2P Require Import Prelude CLib Strings.

(** ** Walking an [unordered_map]

    The standard leaves the order open: a walk is some list of the bindings, the same one
    for the same map. *)
Class Walk (K V : Type) `{Countable K} := walk : gmap K V → list (K * V).
Class WalkLaws (K V : Type) `{Walk K V} : Prop := walk_all (m : gmap K V) : walk m ≡ₚ map_to_list m.

(** ** Floating point numbers

    [F] is [float]; printing with the default format and with two fixed decimals, and
    reading as [std::stof] does. *)
Class FloatText (F : Type) := {
  show_float : F → list Z;
  show_fixed2 : F → list Z;
  stof : list Z → option F
}.

(** ** The document RapidJSON hands out, as far as the code looks at it *)

Inductive json_value (F : Type) :=
| JNull
| JBool (b : bool)
| JDouble (f : F)              (* [IsDouble()]; the value of [GetFloat()] *)
| JInteger (z : Z)             (* a number without fraction and exponent *)
| JString (s : list Z)
| JObject
| JArray.
Arguments JNull {F}.
Arguments JBool {F} b.
Arguments JDouble {F} f.
Arguments JInteger {F} z.
Arguments JString {F} s.
Arguments JObject {F}.
Arguments JArray {F}.

(** The root: the members of an object in document order, or something else. *)
Inductive json_root (F : Type) := RObject (members : list (list Z * json_value F)) | ROther.
Arguments RObject {F} members.
Arguments ROther {F}.

Section Entity.
Context {F : Type} `{FloatText F}.
(** [root.Parse(data, length)]; [None] is [HasParseError()]. *)
Context (Parse : list Z → option (json_root F)).

Inductive value_type := type_integer | type_float | type_bool | type_string.
#[export] Instance value_type_eq_dec : EqDecision value_type.
Proof. solve_decision. Defined.

(** The field of [struct Value] that [type] selects; the code reads no other. *)
Inductive value_data :=
| VInteger (z : Z)
| VFloat (f : F)
| VBool (b : bool)
| VString (s : list Z).
Record Value := MkValue { data : value_data; dirty : bool }.

Definition type_of (v : value_data) : value_type :=
  match v with
  | VInteger _ => type_integer
  | VFloat _ => type_float
  | VBool _ => type_bool
  | VString _ => type_string
  end.

(** [Value()], and [set]: the value becomes dirty.  Integers arrive as [s64]. *)
Definition new_Value : Value := MkValue (VString (str "UNDEFINED")) false.
Definition set (d : value_data) (v : Value) : Value := MkValue d true.

Record Entity := MkEntity { eid : Z; values : gmap (list Z) Value }.
Definition new_Entity (id : Z) : Entity := MkEntity id ∅.
Definition set_values vs e := MkEntity (eid e) vs.

(** [operator[]] and [GetValue]: a missing name gets a [Value()]. *)
Definition GetValue (name : list Z) (e : Entity) : Value * Entity :=
  match values e !! name with
  | Some v => (v, e)
  | None => (new_Value, set_values (<[name := new_Value]> (values e)) e)
  end.
(** [entity[name] = d] *)
Definition assign (name : list Z) (d : value_data) (e : Entity) : Entity :=
  let '(v, e) := GetValue name e in set_values (<[name := set d v]> (values e)) e.

(** ** Parsing *)

(** [IsInt], [IsUint], [IsInt64] and [IsUint64], tried in this order. *)
Definition IsInt (z : Z) : bool := (- 2 ^ 31 <=? z) && (z <? 2 ^ 31).
Definition IsUint (z : Z) : bool := (0 <=? z) && (z <? 2 ^ 32).
Definition IsInt64 (z : Z) : bool := (- 2 ^ 63 <=? z) && (z <? 2 ^ 63).
Definition IsUint64 (z : Z) : bool := (0 <=? z) && (z <? 2 ^ 64).

(** The data assigned; [None] is an early return. *)
Definition json_data (value : json_value F) : option value_data :=
  match value with
  | JDouble f => Some (VFloat f)
  | JInteger z =>
      if IsInt z then Some (VInteger z)
      else if IsUint z then Some (VInteger z)
      else if IsInt64 z then Some (VInteger z)
      else if IsUint64 z then Some (VInteger (s64 z))
      else None
  | JString s => Some (VString (c_str s))
  | JBool b => Some (VBool b)
  | _ => None
  end.
Definition is_nested (value : json_value F) : bool :=
  match value with JNull | JObject | JArray => true | _ => false end.

(** The loop over the members. *)
Fixpoint parse_members (ms : list (list Z * json_value F)) (e : Entity) : bool * Entity :=
  match ms with
  | [] => (true, e)
  | (name, value) :: ms =>
      if is_nested value then (false, e)
      else
        let '(_, e) := GetValue (c_str name) e in
        match json_data value with
        | None => (false, e)
        | Some d => parse_members ms (assign (c_str name) d e)
        end
  end.
Definition ParseFromString (text : list Z) (e : Entity) : bool * Entity :=
  match Parse text with
  | None => (false, e)
  | Some ROther => (false, e)
  | Some (RObject ms) => parse_members ms e
  end.

(** ** Printing *)

Context `{!Walk (list Z) Value}.

Definition quoted (s : list Z) : list Z := [34] ++ s ++ [34].

Definition print_data (d : value_data) : list Z :=
  match d with
  | VInteger z => dec_int z
  | VFloat f => show_fixed2 f
  | VBool b => if b then str "true" else str "false"
  | VString s => quoted s
  end.
Definition print_member (only_dirty : bool) (nv : list Z * Value) : list Z :=
  if negb only_dirty || dirty (snd nv)
  then str "," ++ quoted (fst nv) ++ str ":" ++ print_data (data (snd nv)) else [].
(** [o << this->id] prints a [u64]. *)
Definition SerializeToString (only_dirty : bool) (e : Entity) : bool * list Z :=
  (true, str "{" ++ quoted (str "id") ++ str ":" ++ dec (eid e) ++ concat (map (print_member only_dirty) (walk (values e))) ++ str "}").

(** ** The other operations *)

Definition clear (e : Entity) : Entity := set_values ∅ e.
Definition clearDirty (e : Entity) : Entity := set_values ((λ v, MkValue (data v) false) <$> values e) e.
Definition HasMember (name : list Z) (e : Entity) : bool :=
  match values e !! name with Some _ => true | None => false end.

(** [CHECK_VALUE_TYPE] *)
Definition check_type (name : list Z) (t : value_type) (e : Entity) : bool :=
  match values e !! name with Some v => bool_decide (type_of (data v) = t) | None => false end.
Definition IsInteger name := check_type name type_integer.
Definition IsFloat name := check_type name type_float.
Definition IsBool name := check_type name type_bool.
Definition IsString name := check_type name type_string.
Definition IsNumber (name : list Z) (e : Entity) : bool := IsInteger name e || IsFloat name e.

(** [GET_VALUE] *)
Definition get_data (name : list Z) (e : Entity) : outcome value_data :=
  match values e !! name with None => Aborted | Some v => Ret (data v) end.
Definition GetInteger (name : list Z) (e : Entity) : outcome Z :=
  d ← get_data name e; match d with VInteger z => Ret z | _ => Aborted end.
Definition GetFloat (name : list Z) (e : Entity) : outcome F :=
  d ← get_data name e; match d with VFloat f => Ret f | _ => Aborted end.
Definition GetBool (name : list Z) (e : Entity) : outcome bool :=
  d ← get_data name e; match d with VBool b => Ret b | _ => Aborted end.
Definition GetString (name : list Z) (e : Entity) : outcome (list Z) :=
  d ← get_data name e; match d with VString s => Ret s | _ => Aborted end.
End Entity.

Arguments value_data F : clear implicits.
Arguments Value F : clear implicits.
Arguments Entity F : clear implicits.

#[export] Instance gmap_walk {K V} `{Countable K} : Walk K V := map_to_list.
#[export] Instance gmap_walk_laws {K V} `{Countable K} : WalkLaws K V.
Proof. intros m. unfold walk, gmap_walk. done. Qed.

(** ** The types of values *)

Section EntityTypes.
Context {F : Type}.
Implicit Types (e : Entity F) (name : list Z).

Lemma GetValue_eid name e : eid (snd (GetValue name e)) = eid e.
Proof. unfold GetValue. by destruct (values e !! name). Qed.

Lemma GetValue_values name e : values (snd (GetValue name e)) =
  match values e !! name with Some _ => values e | None => <[name := new_Value]> (values e) end.
Proof. unfold GetValue. by destruct (values e !! name). Qed.

Lemma assign_values name d e : values (assign name d e) = <[name := MkValue d true]> (values e).
Proof.
  unfold assign, GetValue. destruct (values e !! name); simpl; [done|]. by rewrite insert_insert_eq.
Qed.

Lemma assign_eid name d e : eid (assign name d e) = eid e.
Proof. unfold assign, GetValue. by destruct (values e !! name). Qed.

(** [GetValue] before an assignment to the same name changes nothing more. *)
Lemma assign_GetValue name d e : assign name d (snd (GetValue name e)) = assign name d e.
Proof.
  unfold assign, GetValue. destruct (values e !! name) eqn:E; simpl; [by rewrite E|].
  by rewrite lookup_insert_eq.
Qed.

(** A value has the type it was last given.  The four type tests agree with the
    data, at most one of them holds, one holds exactly for the members, and each getter
    returns the data of its own type and fails its assertion for every other type and for
    a missing name; assigning under one name leaves the other names alone. *)
Theorem value_types name name2 d e :
  let e' := assign name d e in
  HasMember name e' = true ∧
  (IsInteger name e', IsFloat name e', IsBool name e', IsString name e')
  = (bool_decide (type_of d = type_integer), bool_decide (type_of d = type_float),
     bool_decide (type_of d = type_bool), bool_decide (type_of d = type_string)) ∧
  GetInteger name e' = match d with VInteger z => Ret z | _ => Aborted end ∧
  GetFloat name e' = match d with VFloat f => Ret f | _ => Aborted end ∧
  GetBool name e' = match d with VBool b => Ret b | _ => Aborted end ∧
  GetString name e' = match d with VString s => Ret s | _ => Aborted end ∧
  (name2 ≠ name → ∀ t, check_type name2 t e' = check_type name2 t e ∧ get_data name2 e' = get_data name2 e) ∧
  (∀ n, HasMember n e = IsNumber n e || IsBool n e || IsString n e) ∧
  (∀ n, HasMember n e = false → get_data n e = Aborted).
Proof.
  intros e'. unfold HasMember, IsNumber, IsInteger, IsFloat, IsBool, IsString, GetInteger, GetFloat, GetBool,
    GetString, check_type, get_data.
  assert (∀ n, values e' !! n = (<[name := MkValue d true]> (values e)) !! n) as Hv
    by (intros n; unfold e'; by rewrite assign_values).
  rewrite !Hv, !lookup_insert_eq. simpl. split_and!; try done; try by destruct d.
  - intros Hne t. by rewrite ?Hv, !lookup_insert_ne.
  - intros n. destruct (values e !! n) as [[[] ?]|]; reflexivity.
  - intros n. by destruct (values e !! n).
Qed.
End EntityTypes.

Lemma value_types_witness : let e := assign (str "age") (VInteger (F := Z) 7) (new_Entity 1) in
  check_type (str "age") type_integer (assign (str "name") (VString (str "x")) e) = true.
Proof.
  intros e. destruct (value_types (str "name") (str "age") (VString (str "x")) e)
    as (_ & _ & _ & _ & _ & _ & H & _).
  destruct (H ltac:(by vm_compute) type_integer) as [-> _]. reflexivity.
Defined.

(** ** The document [SerializeToString] prints *)

Section EntityJson.
Context {F : Type} `{FloatText F} `{!Walk (list Z) (Value F)} `{!WalkLaws (list Z) (Value F)}.
Context (Parse : list Z → option (json_root F)).
Implicit Types (e : Entity F) (nv : list Z * Value F).

(** An object as RFC 8259 writes it, without white space; strings that need no escapes. *)
Definition json_text (v : json_value F) : list Z :=
  match v with
  | JNull => str "null"
  | JBool b => if b then str "true" else str "false"
  | JDouble f => show_fixed2 f
  | JInteger z => dec_int z
  | JString s => quoted s
  | JObject => str "{}"
  | JArray => str "[]"
  end.
Definition json_object (ms : list (list Z * json_value F)) : list Z :=
  str "{" ++ join (ch ",") (map (λ m, quoted (fst m) ++ str ":" ++ json_text (snd m)) ms) ++ str "}".

Definition json_of (d : value_data F) : json_value F :=
  match d with
  | VInteger z => JInteger z
  | VFloat f => JDouble f
  | VBool b => JBool b
  | VString s => JString s
  end.
(** The id, then the members in the order of the walk. *)
Definition members_of (only_dirty : bool) e : list (list Z * json_value F) :=
  (str "id", JInteger (eid e)) ::
  map (λ nv, (fst nv, json_of (data (snd nv))))
    (List.filter (λ nv, negb only_dirty || dirty (snd nv)) (walk (values e))).

Lemma json_text_of d : json_text (json_of d) = print_data d.
Proof. by destruct d. Qed.

Lemma concat_members b (l : list (list Z * Value F)) x :
  x ++ concat (map (print_member b) l) = join (ch ",") (x :: map (λ m, quoted (fst m) ++ str ":" ++ json_text (snd m))
    (map (λ nv, (fst nv, json_of (data (snd nv)))) (List.filter (λ nv, negb b || dirty (snd nv)) l))).
Proof.
  revert x. induction l as [|nv l IH]; intros x; [by rewrite app_nil_r|].
  cbn [map List.filter concat]. unfold print_member at 1.
  destruct (negb b || dirty (snd nv)); [|by rewrite <-IH].
  cbn [map]. rewrite join_cons. f_equal.
  rewrite <-IH. cbn [fst snd]. by rewrite json_text_of, <-!app_assoc.
Qed.

Lemma SerializeToString_text b e : 0 ≤ eid e → SerializeToString b e = (true, json_object (members_of b e)).
Proof.
  intros He. unfold SerializeToString, json_object, members_of. f_equal. cbn [map fst snd json_text].
  unfold dec_int at 1. rewrite (proj2 (Z.ltb_ge (eid e) 0)) by done.
  rewrite <-concat_members. by rewrite <-!app_assoc.
Qed.

(** What can be printed without escapes and read back exactly: [exact] tells the floats
    that two decimals determine. *)
Context (exact : F → Prop).
Definition plain (s : list Z) : Prop := Forall (λ c, 32 ≤ c < 256 ∧ c ≠ 34 ∧ c ≠ 92) s.
Definition plain_data (d : value_data F) : Prop :=
  match d with
  | VInteger z => sfits 64 z
  | VFloat f => exact f
  | VBool _ => True
  | VString s => plain s
  end.
Definition plain_member nv : Prop := plain (fst nv) ∧ plain_data (data (snd nv)).

Lemma plain_no_nul s : plain s → no_nul s.
Proof. intros Hs Hin. unfold plain in Hs. rewrite Forall_forall in Hs. destruct (Hs 0 Hin). lia. Qed.

Lemma json_data_of d : plain_data d → json_data (json_of d) = Some d ∧ is_nested (json_of d) = false.
Proof.
  destruct d as [z|f|b|s]; simpl; intros Hd; [|done|done|by rewrite c_str_id by by apply plain_no_nul].
  split; [|done]. unfold IsInt64, sfits in *. change (64 - 1) with 63 in Hd.
  rewrite (proj2 (Z.leb_le (- 2 ^ 63) z)), (proj2 (Z.ltb_lt z (2 ^ 63))) by lia.
  by repeat case_match.
Qed.

Lemma json_data_u64 z : fits 64 z → json_data (JInteger z) = Some (VInteger (F := F) (s64 z)).
Proof.
  unfold fits. intros Hz. simpl. unfold IsInt, IsUint, IsInt64, IsUint64.
  assert (z < 2 ^ 63 → s64 z = z) as Hs by (intros ?; apply swrap_id; [lia|unfold sfits; simpl; lia]).
  repeat case_match; rewrite ?andb_true_iff, ?andb_false_iff, ?Z.leb_le, ?Z.ltb_lt, ?Z.leb_gt, ?Z.ltb_ge in *;
    try done; try (rewrite Hs by lia; done); lia.
Qed.

Lemma parse_members_step n v d ms e : is_nested v = false → json_data v = Some d → c_str n = n →
  parse_members ((n, v) :: ms) e = parse_members ms (assign n d e).
Proof.
  intros Hn Hd Hc. cbn [parse_members]. rewrite Hn, Hc. destruct (GetValue n e) as [v0 e1] eqn:Eg.
  rewrite Hd. replace e1 with (snd (GetValue n e)) by by rewrite Eg. by rewrite assign_GetValue.
Qed.

(** Parsing a list of members assigns them in order. *)
Lemma parse_members_assign (l : list (list Z * Value F)) e : Forall plain_member l →
  parse_members (map (λ nv, (fst nv, json_of (data (snd nv)))) l) e
  = (true, fold_left (λ e nv, assign (fst nv) (data (snd nv)) e) l e).
Proof.
  intros Hl. revert e. induction Hl as [|nv l [Hn Hd] Hl IH]; intros e; [done|]. cbn [map].
  destruct (json_data_of _ Hd) as [E En].
  rewrite (parse_members_step _ _ (data (snd nv))) by (done || by apply c_str_id, plain_no_nul). apply IH.
Qed.

Lemma fold_assign_eid (l : list (list Z * Value F)) e :
  eid (fold_left (λ e nv, assign (fst nv) (data (snd nv)) e) l e) = eid e.
Proof. revert e. induction l as [|nv l IH]; intros e; [done|]. simpl. by rewrite IH, assign_eid. Qed.

Lemma fold_assign_lookup (l : list (list Z * Value F)) k : NoDup (map fst l) → ∀ e,
  values (fold_left (λ e nv, assign (fst nv) (data (snd nv)) e) l e) !! k
  = match list_to_map (M := gmap (list Z) (Value F)) l !! k with
    | Some v => Some (MkValue (data v) true)
    | None => values e !! k
    end.
Proof.
  induction l as [|[n v] l IH]; intros Hnd e; [done|]. simpl in *. apply NoDup_cons in Hnd as [Hn Hnd].
  rewrite IH, assign_values by done. destruct (decide (n = k)) as [->|Hne].
  - rewrite !lookup_insert_eq. by rewrite not_elem_of_list_to_map_1.
  - by rewrite !lookup_insert_ne.
Qed.

Lemma walk_NoDup (m : gmap (list Z) (Value F)) : NoDup (map fst (walk m)).
Proof. rewrite (fmap_Permutation fst _ _ (walk_all m)). apply NoDup_fst_map_to_list. Qed.

Lemma walk_list_to_map (m : gmap (list Z) (Value F)) : list_to_map (walk m) = m.
Proof.
  rewrite (list_to_map_proper (walk m) (map_to_list m)); [apply list_to_map_to_list|apply walk_NoDup|apply walk_all].
Qed.

Lemma filter_all {X} (l : list X) : List.filter (λ _, true) l = l.
Proof. induction l as [|x l IH]; [done|]. simpl. by rewrite IH. Qed.

(** An entity printed by [SerializeToString] and read by [ParseFromString]
    into a new one.  The text is the JSON object of the id followed by the members in the
    order of the walk; when no string needs an escape, which the code never writes, reading
    it back succeeds and gives every value with its type, all dirty, and the id as one more
    member unless the entity had a member of that name. *)
Theorem entity_roundtrip e id :
  fits 64 (eid e) → Forall plain_member (walk (values e)) →
  Parse (json_object (members_of false e)) = Some (RObject (members_of false e)) →
  ∃ text e', SerializeToString false e = (true, text) ∧ text = json_object (members_of false e) ∧
    ParseFromString Parse text (new_Entity id) = (true, e') ∧ eid e' = id ∧
    ∀ k, values e' !! k =
      match values e !! k with
      | Some v => Some (MkValue (data v) true)
      | None => if decide (k = str "id") then Some (MkValue (VInteger (s64 (eid e))) true) else None
      end.
Proof.
  intros Hid Hpl Hparse.
  set (e1 := assign (F := F) (str "id") (VInteger (s64 (eid e))) (new_Entity id)).
  exists (json_object (members_of false e)), (fold_left (λ e nv, assign (fst nv) (data (snd nv)) e) (walk (values e)) e1).
  split_and!; [apply SerializeToString_text; by destruct Hid|done| |by rewrite fold_assign_eid|].
  - unfold ParseFromString. rewrite Hparse. unfold members_of.
    rewrite (parse_members_step _ _ (VInteger (s64 (eid e)))) by (done || by apply json_data_u64).
    cbn [negb orb]. rewrite filter_all. by apply parse_members_assign.
  - intros k. rewrite fold_assign_lookup, walk_list_to_map by apply walk_NoDup.
    destruct (values e !! k); [done|]. unfold e1. rewrite assign_values. simpl.
    destruct (decide (k = str "id")) as [->|Hne]; [by rewrite lookup_insert_eq|].
    by rewrite lookup_insert_ne.
Qed.
End EntityJson.

(** Text of whole numbers, to evaluate examples with. *)
#[export] Instance Z_float_text : FloatText Z := {|
  show_float := dec_int; show_fixed2 z := dec_int z ++ str ".00"; stof := strtol10
|}.

Definition demo_entity : Entity Z :=
  assign (str "name") (VString (str "Ann")) (assign (str "age") (VInteger 30) (new_Entity 9)).
Definition demo_Parse (text : list Z) : option (json_root Z) :=
  if decide (text = json_object (members_of false demo_entity))
  then Some (RObject (members_of false demo_entity)) else None.

Lemma entity_roundtrip_witness : ∃ text e',
  SerializeToString false demo_entity = (true, text) ∧
  ParseFromString demo_Parse text (new_Entity 5) = (true, e') ∧
  values e' !! str "age" = Some (MkValue (VInteger 30) true) ∧
  values e' !! str "id" = Some (MkValue (VInteger 9) true).
Proof.
  destruct (entity_roundtrip demo_Parse (λ _, True) demo_entity 5) as (text & e' & E & _ & Ep & _ & Hv).
  - change (eid demo_entity) with 9. unfold fits. lia.
  - set (w := walk _). vm_compute in w. subst w.
    repeat (apply Forall_cons; split; [split; [apply (bool_decide_unpack _); vm_compute; exact I|]|]);
      [..|constructor]; (apply (bool_decide_unpack _); vm_compute; exact I) || (split; by compute).
  - unfold demo_Parse. by rewrite decide_True.
  - exists text, e'. split_and!; [exact E|exact Ep|by rewrite Hv|by rewrite Hv].
Defined.
