(* ===== verification/JsonEntity.v ===== *)
(** * JsonEntity: entities read from the documents of RapidJSON

    [Entity::ParseFromString] with the calls it makes on the document, in place of the
    parameter [Parse] of Entity.v: it does what Entity.v says, and reads what
    [SerializeToString] prints. *)

From Stdlib Require Import SpecFloat.
From S2P Require Import Prelude CLib Strings Entity Json JsonReader JsonNumber JsonString JsonText.

Local Open Scope Z_scope.

(** ** [ParseFromString] over the document *)

(** The data a member is assigned, through the tests and getters of the value.  [None] is an
    early return. *)
Definition member_data (v : value) : outcome (option (value_data spec_float)) :=
  if IsNumber v then
    if Json.IsDouble v then f ← Json.GetFloat v; Ret (Some (VFloat f))
    else if Json.IsInt v then z ← GetInt v; Ret (Some (VInteger (s64 z)))
    else if Json.IsUint v then z ← GetUint v; Ret (Some (VInteger (s64 z)))
    else if Json.IsInt64 v then z ← GetInt64 v; Ret (Some (VInteger (s64 z)))
    else if Json.IsUint64 v then z ← GetUint64 v; Ret (Some (VInteger (s64 z)))
    else Ret None
  else if Json.IsString v then s ← Json.GetString v; Ret (Some (VString (c_str s)))
  else if Json.IsBool v then Ret (Some (VBool (IsTrue v)))
  else Ret None.
Fixpoint ParseMembers (ms : list (value * value)) (e : Entity spec_float) : outcome (bool * Entity spec_float) :=
  match ms with
  | [] => Ret (true, e)
  | (name, value) :: ms =>
      if negb (Json.IsString name) || IsNull value || IsObject value || IsArray value then Ret (false, e)
      else
        name ← Json.GetString name;
        let '(_, e) := GetValue (c_str name) e in
        d ← member_data value;
        match d with None => Ret (false, e) | Some d => ParseMembers ms (assign (c_str name) d e) end
  end.
Definition ParseFromDocument (data : list Z) (e : Entity spec_float) : outcome (bool * Entity spec_float) :=
  root ← Parse data;
  match root with
  | HasParseError _ _ => Ret (false, e)
  | Root (ObjectValue ms) => ParseMembers ms e
  | Root _ => Ret (false, e)
  end.

(** ** The document as Entity.v sees it *)

Definition view (v : value) : json_value spec_float :=
  match v with
  | NullValue => JNull
  | BoolValue b => JBool b
  | NumberValue _ (Real d) => JDouble (float_of d)
  | NumberValue _ (Whole bits) => JInteger (if Json.IsUint64 v then bits else s64 bits)
  | StringValue s => JString s
  | ObjectValue _ => JObject
  | ArrayValue _ => JArray
  end.
Definition view_member (m : value * value) : list Z * json_value spec_float :=
  (match fst m with StringValue n => n | _ => [] end, view (snd m)).
Definition view_root (v : value) : json_root spec_float :=
  match v with ObjectValue ms => RObject (map view_member ms) | _ => ROther end.
(** The parameter [Parse] of Entity.v. *)
Definition json_parse (text : list Z) : option (json_root spec_float) :=
  match Parse text with Ret (Root v) => Some (view_root v) | _ => None end.

(** ** The flags of a number tell its range *)

Lemma land_high w n u : 0 ≤ n ≤ w → fits w u → (Z.land u (2 ^ w - 2 ^ n) =? 0) = (u <? 2 ^ n).
Proof.
  intros Hn Hu. assert (Z.land u (2 ^ w - 2 ^ n) = u / 2 ^ n * 2 ^ n) as ->.
  { replace (2 ^ w - 2 ^ n) with (Z.shiftl (Z.ones (w - n)) n).
    2: { rewrite Z.shiftl_mul_pow2, Z.ones_equiv by lia. replace (2 ^ w) with (2 ^ (w - n) * 2 ^ n) by (rewrite <-Z.pow_add_r by lia; f_equal; lia). lia. }
    rewrite <-Z.shiftr_div_pow2, <-Z.shiftl_mul_pow2 by lia. apply Z.bits_inj'. intros i Hi.
    rewrite Z.land_spec, !Z.shiftl_spec by lia. destruct (decide (i < n)).
    - rewrite !(Z.testbit_neg_r _ (i - n)) by lia. apply andb_false_r.
    - rewrite Z.shiftr_spec by lia. replace (i - n + n) with i by lia. destruct (decide (i < w)).
      + rewrite Z.ones_spec_low by lia. apply andb_true_r.
      + rewrite (fits_testbit w u i) by (done || lia). done. }
  assert (0 < 2 ^ n) by lia. destruct Hu as [Hu _]. destruct (Z.ltb_spec u (2 ^ n)).
  - by rewrite Z.div_small by lia.
  - apply Z.eqb_neq. pose proof (Z.div_le_lower_bound u (2 ^ n) 1 ltac:(lia) ltac:(lia)). nia.
Qed.
Lemma land_bit w u : 0 < w → fits w u → (Z.land u (2 ^ (w - 1)) =? 0) = (u <? 2 ^ (w - 1)).
Proof. intros Hw Hu. replace (2 ^ (w - 1)) with (2 ^ w - 2 ^ (w - 1)) at 1 by (rewrite (pow2_pred w) by lia; lia). apply land_high; [lia|done]. Qed.

Lemma s32_u64 z : - 2 ^ 31 ≤ z < 2 ^ 31 → s32 (u64 z) = z.
Proof.
  intros Hz. destruct (decide (0 ≤ z)); [unfold u64; rewrite wrap_id by (unfold fits; lia); by apply s32_small|].
  assert (u64 z = z + 2 ^ 32 * 2 ^ 32) as -> by (unfold u64, wrap; symmetry; apply (Z.mod_unique_pos _ _ (-1)); lia).
  unfold s32, swrap. replace (z + 2 ^ 32 * 2 ^ 32 + 2 ^ (32 - 1)) with (z + 2 ^ (32 - 1) + 2 ^ 32 * 2 ^ 32) by lia.
  rewrite Z.mod_add by lia. by apply swrap_id.
Qed.
Lemma s64_u64 z : - 2 ^ 63 ≤ z < 2 ^ 63 → s64 (u64 z) = z.
Proof. intros Hz. unfold s64, u64. rewrite swrap_wrap by lia. by apply swrap_id. Qed.

(** How an integer is stored: its bytes, and a flag for every type that holds it. *)
Definition stored (z : Z) (v : value) : Prop :=
  ∃ flags, v = NumberValue flags (Whole (u64 z)) ∧ - 2 ^ 63 ≤ z < 2 ^ 64 ∧ IsNumber v = true ∧ Json.IsDouble v = false ∧
    Json.IsInt v = Entity.IsInt z ∧ Json.IsUint v = Entity.IsUint z ∧ Json.IsInt64 v = Entity.IsInt64 z ∧ Json.IsUint64 v = Entity.IsUint64 z.
(** The comparisons of a range, from bounds in the context. *)
Ltac ranges := unfold Entity.IsInt, Entity.IsUint, Entity.IsInt64, Entity.IsUint64;
  repeat match goal with |- context [?a <=? ?b] => first [rewrite (proj2 (Z.leb_le a b)) by lia|rewrite (proj2 (Z.leb_gt a b)) by lia] end;
  repeat match goal with |- context [?a <? ?b] => first [rewrite (proj2 (Z.ltb_lt a b)) by lia|rewrite (proj2 (Z.ltb_ge a b)) by lia] end.

Lemma stored_int z : sfits 32 z → stored z (value_of_int z).
Proof.
  unfold sfits. change (32 - 1) with 31. intros Hz. unfold value_of_int. destruct (Z.leb_spec 0 z); eexists; (split; [done|]); (split; [lia|]);
    ranges; done.
Qed.
Lemma stored_unsigned z : fits 32 z → stored z (value_of_unsigned z).
Proof.
  intros Hz. pose proof (land_bit 32 z ltac:(lia) Hz) as E. change (2 ^ (32 - 1)) with 0x80000000 in E. unfold value_of_unsigned. rewrite E.
  unfold fits in Hz. assert (u64 z = z) as Hu by (apply wrap_id; unfold fits; lia).
  destruct (Z.ltb_spec z 0x80000000); eexists; (split; [by rewrite Hu|]); (split; [lia|]); ranges; done.
Qed.
Lemma stored_uint64 z : fits 64 z → stored z (value_of_uint64 z).
Proof.
  intros Hz. unfold value_of_uint64. pose proof (land_bit 64 z ltac:(lia) Hz) as E. change (2 ^ (64 - 1)) with 0x8000000000000000 in E.
  pose proof (land_high 64 32 z ltac:(lia) Hz) as E32. change (2 ^ 64 - 2 ^ 32) with high_32 in E32.
  pose proof (land_high 64 31 z ltac:(lia) Hz) as E31. change (2 ^ 64 - 2 ^ 31) with high_33 in E31. rewrite E, E32, E31.
  unfold fits in Hz. assert (u64 z = z) as Hu by (apply wrap_id; unfold fits; lia).
  destruct (Z.ltb_spec z (2 ^ 31)); [|destruct (Z.ltb_spec z (2 ^ 32)); [|destruct (Z.ltb_spec z 0x8000000000000000)]];
    eexists; (split; [by rewrite Hu|]); (split; [lia|]); ranges; done.
Qed.
Lemma stored_int64 z : sfits 64 z → stored z (value_of_int64 z).
Proof.
  unfold sfits. change (64 - 1) with 63. intros Hz. unfold value_of_int64. change (s64 high_33) with (- 2 ^ 31). destruct (Z.leb_spec 0 z).
  - assert (fits 64 z) as Hf by (unfold fits; lia). replace (Z.land (u64 z)) with (Z.land z) by (unfold u64; by rewrite wrap_id).
    pose proof (land_high 64 32 z ltac:(lia) Hf) as E32. change (2 ^ 64 - 2 ^ 32) with high_32 in E32.
    pose proof (land_high 64 31 z ltac:(lia) Hf) as E31. change (2 ^ 64 - 2 ^ 31) with high_33 in E31. rewrite E32, E31.
    destruct (Z.ltb_spec z (2 ^ 31)); [|destruct (Z.ltb_spec z (2 ^ 32))]; eexists; (split; [done|]); (split; [lia|]); ranges; done.
  - destruct (Z.leb_spec (- 2 ^ 31) z); eexists; (split; [done|]); (split; [lia|]); ranges; done.
Qed.

(** ** Entity.v describes what happens *)

Lemma view_stored z v : stored z v → view v = JInteger z.
Proof.
  intros (flags & -> & Hz & _ & _ & _ & _ & _ & E). cbn [view]. rewrite E. f_equal. unfold Entity.IsUint64.
  destruct (Z.leb_spec 0 z); cbn [andb].
  - rewrite (proj2 (Z.ltb_lt _ _)) by lia. apply wrap_id. unfold fits. lia.
  - apply s64_u64. lia.
Qed.
Lemma member_data_stored z v : stored z v → member_data v = Ret (json_data (JInteger z)).
Proof.
  intros (flags & -> & Hz & H0 & H1 & H2 & H3 & H4 & H5). unfold member_data, GetInt, GetUint, GetInt64, GetUint64.
  rewrite H0, H1, H2, H3, H4, H5. unfold json_data.
  destruct (Entity.IsInt z) eqn:E1; [|destruct (Entity.IsUint z) eqn:E2; [|destruct (Entity.IsInt64 z) eqn:E3; [|destruct (Entity.IsUint64 z) eqn:E4]]];
    cbn [cxx_assert mbind outcome_bind bits_of]; try done;
    unfold Entity.IsInt, Entity.IsUint, Entity.IsInt64, Entity.IsUint64 in *; rewrite ?andb_true_iff, ?Z.leb_le, ?Z.ltb_lt in *.
  - by rewrite s32_u64, s64_small by lia.
  - unfold u32, u64. rewrite (wrap_id 64), wrap_id by (unfold fits; lia). by rewrite s64_small by lia.
  - by rewrite s64_u64, s64_small by lia.
  - unfold u64. by rewrite wrap_id by (unfold fits; lia).
Qed.
Lemma number_stored v : number_value v → (∃ z, stored z v) ∨ ∃ d, v = value_of_double d.
Proof.
  destruct 1; [left..|]; [eexists; by apply stored_int|eexists; by apply stored_unsigned|eexists; by apply stored_int64|eexists; by apply stored_uint64|].
  right. by eexists.
Qed.

(** What a value of the grammar is, on the outside. *)
Definition value_ok (v : value) : Prop := match v with NumberValue _ _ => number_value v | _ => True end.
Definition member_ok (m : value * value) : Prop := Json.IsString (fst m) = true ∧ value_ok (snd m).
Lemma text_value_ok s v : value_text s v → value_ok v.
Proof. destruct 1 as [| | |s v Hv%number_text_value| | | | |]; [done..| |done|done|done|done|done]. by destruct v. Qed.
Lemma texts_members_ok s ms : members_text s ms → Forall member_ok ms.
Proof.
  induction 1 as [h n s v w _ Hs _|h n s v w w2 more ms _ Hs _ _ _ IH]; (apply Forall_cons; split; [split; [done|by eapply text_value_ok]|done || constructor]).
Qed.
Lemma document_members_ok text ms : document_text text (ObjectValue ms) → Forall member_ok ms.
Proof.
  intros (b & w1 & s & w2 & rest & _ & _ & _ & Hs & _). inversion Hs as [| | |? ? Hv%number_text_value| | | |w Hw|w s' ms' Hw Hms]; subst; [|constructor|by eapply texts_members_ok].
  inversion Hv.
Qed.
Lemma member_data_view v : value_ok v → member_data v = Ret (json_data (view v)).
Proof.
  destruct v as [|b|flags n|s|ms|vs]; intros Hv; try done. destruct (number_stored _ Hv) as [[z Hz]|[d Hd]].
  - by rewrite (member_data_stored _ _ Hz), (view_stored _ _ Hz).
  - by rewrite Hd.
Qed.
Lemma nested_view v : IsNull v || IsObject v || IsArray v = is_nested (view v).
Proof. by destruct v as [| |? []| | |]. Qed.
Lemma ParseMembers_view ms e : Forall member_ok ms → ParseMembers ms e = Ret (parse_members (map view_member ms) e).
Proof.
  intros Hms. revert e. induction Hms as [|[name v] ms [Hn Hv] Hms IH]; intros e; [done|]. cbn [fst snd] in *.
  destruct name as [| | |name| |]; try done. cbn [ParseMembers map view_member fst snd parse_members Json.IsString negb orb].
  rewrite nested_view. destruct (is_nested (view v)); [done|]. cbn [Json.GetString mbind outcome_bind]. destruct (GetValue (c_str name) e) as [v0 e1].
  rewrite member_data_view by done. cbn [mbind outcome_bind]. destruct (json_data (view v)); [apply IH|done].
Qed.

(** C25 (refinement): [Entity::ParseFromString], with RapidJSON reading the text into values and
    the tests and getters of those values picking the data, does what Entity.v describes with
    its parameter [Parse] set to the document's members: each number arrives with its value
    and as the type the flags say.  It returns for every text of less than 128 megabytes with
    no exponent of ten digits after "e-"; in particular no getter fails its assertion. *)
Theorem document_entity data e : bytes_ok data → len data < 2 ^ 27 → ¬ far_exponent data →
  ParseFromDocument data e = Ret (ParseFromString json_parse data e).
Proof.
  intros Hb Hl Hfar. pose proof (Parse_sound data Hb Hl) as H. unfold ParseFromDocument, ParseFromString, json_parse.
  destruct (Parse data) as [[v|c o]| |]; [|done|done|done]. cbn [mbind outcome_bind].
  destruct v as [| | | |ms|]; [done..| |done]. apply ParseMembers_view. by eapply document_members_ok.
Qed.
Lemma document_entity_witness : ∃ e,
  ParseFromDocument ([123; 34; 97; 34] ++ str ":4294967295}") (new_Entity 5) = Ret (true, e) ∧
  values e !! str "a" = Some (MkValue (VInteger 4294967295) true).
Proof.
  rewrite document_entity; [|by apply (bool_decide_unpack _); vm_compute|by vm_compute|].
  - eexists. split; [by vm_compute|by vm_compute].
  - intros (a & e & ds & b & E & _ & _ & _). assert (ch "-" ∈ a ++ [e; ch "-"] ++ ds ++ b) as H.
    { rewrite elem_of_app. right. right. by left. }
    rewrite <-E in H. apply (bool_decide_eq_true_2 _) in H. by vm_compute in H.
Defined.

(** ** Floats with two decimals *)

(** ["%.2f"]: the hundredths of the exact value, a tie going to the even one. *)
Definition hundredths (m e : Z) : Z :=
  if 0 <=? e then m * 100 * 2 ^ e
  else
    let q := m * 100 / 2 ^ (- e) in
    match (2 * (m * 100 mod 2 ^ (- e)) ?= 2 ^ (- e)) with
    | Lt => q
    | Eq => if Z.even q then q else q + 1
    | Gt => q + 1
    end.
(** The sign and the hundredths of a number. *)
Definition cents (f : spec_float) : option (bool * Z) :=
  match f with
  | S754_zero s => Some (s, 0)
  | S754_finite s m e => Some (s, hundredths (Zpos m) e)
  | S754_infinity _ | S754_nan => None
  end.
Definition cents_text (s : bool) (n : Z) : list Z := minus_sign s ++ dec (n / 100) ++ str "." ++ [48 + n / 10 mod 10; 48 + n mod 10].
Definition fixed2 (f : spec_float) : list Z :=
  match f, cents f with
  | S754_infinity s, _ => minus_sign s ++ str "inf"
  | _, Some (s, n) => cents_text s n
  | _, None => str "nan"
  end.
(** The printing that is used here. *)
#[export] Instance spec_float_text : FloatText spec_float := {| show_float := fixed2; show_fixed2 := fixed2; stof _ := None |}.

(** The double nearest to so many hundredths. *)
Definition of_cents (s : bool) (n : Z) : double := let d := ddiv (double_of n) (double_of 100) in if s then SFopp d else d.
(** The float is the one that its own value, rounded to hundredths, rounds to. *)
Definition two_decimals (f : spec_float) : Prop :=
  match cents f with Some (s, n) => n < 2 ^ 53 ∧ f = float_of (of_cents s n) | None => False end.
#[export] Instance two_decimals_dec f : Decision (two_decimals f).
Proof.
  assert (EqDecision spec_float) by (intros x y; unfold Decision; repeat decide equality).
  unfold two_decimals. destruct (cents f) as [[s n]|]; apply _.
Defined.

Lemma hundredths_nonneg m e : 0 ≤ m → 0 ≤ hundredths m e.
Proof.
  intros Hm. unfold hundredths. destruct (Z.leb_spec 0 e); [lia|]. pose proof (Z.pow_pos_nonneg 2 (- e) ltac:(lia) ltac:(lia)).
  assert (0 ≤ m * 100 / 2 ^ (- e)) by (apply Z.div_pos; lia). repeat case_match; lia.
Qed.
Lemma cents_number s n : 0 ≤ n < 2 ^ 53 → number_text (cents_text s n) (value_of_double (of_cents s n)).
Proof.
  intros Hn. set (d1 := 48 + n / 10 mod 10). set (d2 := 48 + n mod 10).
  exists (Numeral s (dec (n / 100)) [d1; d2] None). assert (0 ≤ n / 100 < 2 ^ 53) as Hq by dlia.
  assert (isdigit d1 = true ∧ isdigit d2 = true) as [H1 H2] by (unfold d1, d2; rewrite !isdigit_spec; split; dlia).
  split; [|split; [|split]].
  - unfold spelled, cents_text. cbn [negative int_digits frac_digits power point power_text]. by rewrite app_nil_r.
  - split; [apply dec_int_text; cbn; lia|]. split; [by repeat constructor|done].
  - unfold cents_text. rewrite !len_app. pose proof (dec_length (n / 100) ltac:(lia)). unfold len. destruct s; simpl; lia.
  - unfold numeral_value, significand_value. cbn [negative int_digits frac_digits power].
    rewrite fitting_dec by (destruct s; unfold long_max; lia). cbn [no_digits andb exact_digits].
    replace (n / 100 * 10 + (d1 - 48)) with (n / 10) by (unfold d1; dlia). replace (n / 10 * 10 + (d2 - 48)) with n by (unfold d2; dlia).
    rewrite (proj2 (Z.ltb_lt (n / 100) _)), (proj2 (Z.ltb_lt (n / 10) _)) by dlia. cbn zeta. cbn [rounded_digits mbind option_bind power_value]. reflexivity.
Qed.
Lemma two_decimals_number f : two_decimals f → ∃ d, number_text (fixed2 f) (value_of_double d) ∧ float_of d = f.
Proof.
  unfold two_decimals. destruct (cents f) as [[s n]|] eqn:Ec; [|done]. intros [Hn Hf]. exists (of_cents s n). split; [|done].
  assert (0 ≤ n) as H0 by (destruct f; simplify_eq/=; [done|by apply hundredths_nonneg]).
  assert (fixed2 f = cents_text s n) as -> by (destruct f; cbn in Ec; by simplify_eq). by apply cents_number.
Qed.
(** The floats nearest to the amounts up to 10.00 are such floats. *)
Definition amount_ok (n : Z) : bool :=
  bool_decide (two_decimals (float_of (of_cents false n))) && bool_decide (two_decimals (float_of (of_cents true n))).
Lemma amounts_two_decimals s n : 0 ≤ n ≤ 1000 → two_decimals (float_of (of_cents s n)).
Proof.
  intros Hn. assert (forallb amount_ok (seqZ 0 1001) = true) as H by (vm_compute; reflexivity).
  rewrite forallb_forall in H. specialize (H n ltac:(apply list_elem_of_In, elem_of_seqZ; lia)).
  apply andb_true_iff in H as [H1%bool_decide_eq_true H2%bool_decide_eq_true]. by destruct s.
Qed.

(** ** What [SerializeToString] prints is read *)

Section Print.
Context `{!Walk (list Z) (Value spec_float)} `{!WalkLaws (list Z) (Value spec_float)}.

Lemma whole_stored z : - 2 ^ 63 ≤ z < 2 ^ 64 → stored z (whole_value z).
Proof.
  intros Hz. unfold whole_value. destruct (Z.ltb_spec z 0); [destruct (Z.leb_spec (- 2 ^ 31) z)|destruct (Z.ltb_spec z (2 ^ 32))].
  - apply stored_int. unfold sfits. simpl. lia.
  - apply stored_int64. unfold sfits. simpl. lia.
  - apply stored_unsigned. unfold fits. lia.
  - apply stored_uint64. unfold fits. lia.
Qed.
Lemma plain_chars s : plain s → chars s s.
Proof. induction 1 as [|c s (Hc & Hq & Hb) _ IH]; [constructor|by constructor]. Qed.
(** A member of the document, with what is seen of it. *)
Definition printed (m : list Z * json_value spec_float) : Prop :=
  plain (fst m) ∧ ∃ v, value_text (json_text (snd m)) v ∧ view v = snd m.
Lemma integer_printed z : - 2 ^ 63 ≤ z < 2 ^ 64 → ∃ v, value_text (json_text (JInteger z)) v ∧ view v = JInteger z.
Proof. intros Hz. exists (whole_value z). split; [by apply text_number, whole_number|by apply view_stored, whole_stored]. Qed.
Lemma member_printed nv : plain_member two_decimals nv → printed (fst nv, json_of (data (snd nv))).
Proof.
  intros [Hn Hd]. split; [done|]. cbn [snd]. destruct (data (snd nv)) as [z|f|b|s]; cbn [plain_data json_of] in *.
  - apply integer_printed. unfold sfits in Hd. change (64 - 1) with 63 in Hd. lia.
  - destruct (two_decimals_number f Hd) as (d & Ht & Hf). exists (value_of_double d). split; [by apply text_number|]. cbn [view value_of_double]. by rewrite Hf.
  - exists (BoolValue b). destruct b; split; constructor.
  - exists (StringValue s). split; [|done]. cbn [json_text]. by apply text_string, plain_chars.
Qed.
Lemma name_text n : plain n → key_text (quoted n ++ str ":") n.
Proof. intros Hn. exists n, [], []. split; [unfold quoted; by list_norm|]. split; [by apply plain_chars|split; constructor]. Qed.
Lemma join_members ms : ms ≠ [] → Forall printed ms →
  ∃ vs, members_text (join (ch ",") (map (λ m, quoted (fst m) ++ str ":" ++ json_text (snd m)) ms)) vs ∧ map view_member vs = ms.
Proof.
  intros Hne Hms. induction Hms as [|[n jv] ms (Hn & v & Hv & Hview) Hms IH]; [done|]. cbn [fst snd] in *.
  destruct ms as [|m ms].
  - exists [(StringValue n, v)]. split; [|by unfold view_member; cbn; rewrite Hview].
    pose proof (members_last _ n _ v [] (name_text n Hn) Hv ltac:(constructor)) as H0. rewrite app_nil_r, <-app_assoc in H0. exact H0.
  - destruct IH as (vs & Hvs & E); [done|]. exists ((StringValue n, v) :: vs). split.
    + pose proof (members_next _ n _ v [] [] _ vs (name_text n Hn) Hv ltac:(constructor) ltac:(constructor) Hvs) as H0.
      cbn [map]. rewrite join_cons. cbn [map fst snd app] in *. by rewrite <-!app_assoc in *.
    + cbn [map]. rewrite E. unfold view_member. cbn. by rewrite Hview.
Qed.

(** C20 (roundtrip): an entity printed by [SerializeToString] and read by [ParseFromString] into
    a new one, with the reader of RapidJSON in between.  The text is the JSON object of the id
    followed by the members in the order of the walk.  On conditions ([plain_member]): no string
    and no name needs an escape, which the code never writes; each float is finite, below 2^53
    hundredths, and the float nearest to its own value rounded to two decimals ([two_decimals]),
    since only these are printed; and the text fits an [unsigned].  Then reading it back succeeds
    and gives every value with its type, all dirty, and the id as one more member unless the
    entity had a member of that name. *)
Theorem entity_document (e : Entity spec_float) id :
  fits 64 (eid e) → Forall (plain_member two_decimals) (walk (values e)) → len (json_object (members_of false e)) + 1 < 2 ^ 32 →
  ∃ text e', SerializeToString false e = (true, text) ∧ text = json_object (members_of false e) ∧
    ParseFromDocument text (new_Entity id) = Ret (true, e') ∧ eid e' = id ∧
    ∀ k, values e' !! k =
      match values e !! k with
      | Some v => Some (MkValue (data v) true)
      | None => if decide (k = str "id") then Some (MkValue (VInteger (s64 (eid e))) true) else None
      end.
Proof.
  intros Hid Hpl Hlen. destruct (join_members (members_of false e)) as (vs & Hvs & E).
  { done. }
  { unfold members_of. apply Forall_cons. split; [split; [by apply (bool_decide_unpack _); vm_compute|apply integer_printed; unfold fits in Hid; lia]|].
    cbn [negb orb]. rewrite filter_all. apply Forall_map. eapply Forall_impl; [exact Hpl|]. apply member_printed. }
  assert (document_text (json_object (members_of false e)) (ObjectValue vs)) as Hdoc.
  { exists [], [], (json_object (members_of false e)), [], []. rewrite !app_nil_r. split; [done|]. split; [exists [], [], []; repeat split; by left|].
    split; [constructor|]. split; [exact (text_object [] _ vs ltac:(constructor) Hvs)|]. by split; [constructor|]. }
  pose proof (Parse_complete _ _ Hlen Hdoc) as Hparse.
  destruct (entity_roundtrip json_parse two_decimals e id Hid Hpl) as (text & e' & E1 & E2 & E3 & E4 & E5).
  { unfold json_parse. rewrite Hparse. cbn [view_root]. by rewrite E. }
  exists text, e'. split; [done|]. split; [done|]. split; [|by split]. rewrite E2 in *. unfold ParseFromDocument. rewrite Hparse. cbn [mbind outcome_bind].
  rewrite ParseMembers_view by (by eapply document_members_ok). f_equal. rewrite <-E3. unfold ParseFromString, json_parse. by rewrite Hparse.
Qed.
End Print.

Definition height : spec_float := S754_finite false 13631488 (-22).
Definition demo_person : Entity spec_float :=
  assign (str "name") (VString (str "Ann")) (assign (str "height") (VFloat height) (assign (str "debt") (VInteger (-12)) (new_Entity 9))).
Lemma entity_document_witness : ∃ text e',
  SerializeToString false demo_person = (true, text) ∧ ParseFromDocument text (new_Entity 5) = Ret (true, e') ∧
  values e' !! str "height" = Some (MkValue (VFloat height) true) ∧ values e' !! str "id" = Some (MkValue (VInteger 9) true).
Proof.
  assert (Forall (plain_member two_decimals) (walk (values demo_person))) as Hp.
  { assert (two_decimals height) as Hh by (apply (bool_decide_unpack _); vm_compute; exact I).
    set (w := walk _). vm_compute in w. subst w.
    repeat (apply Forall_cons; split; [split; [by apply (bool_decide_unpack _); vm_compute|]|]);
      [..|constructor]; first [exact Hh|by apply (bool_decide_unpack _); vm_compute|split; by vm_compute]. }
  destruct (entity_document demo_person 5) as (text & e' & E1 & _ & E2 & _ & Hv); [split; by vm_compute|exact Hp|by vm_compute|].
  exists text, e'. split_and!; [exact E1|exact E2|by rewrite Hv|by rewrite Hv].
Defined.
(** An infinity is printed as [inf], which JSON does not have. *)
Example infinity_not_read :
  let e := assign (str "x") (VFloat (S754_infinity false)) (new_Entity 1) in
  ParseFromDocument (snd (SerializeToString false e)) (new_Entity 2) = Ret (false, new_Entity 2).
Proof. by vm_compute. Qed.
