(* ===== verification/Descriptor.v ===== *)
(** * Descriptions of entities: src/entity/EntityDescriptor.cpp, with the accessors of
    src/xml/XmlParser.cpp

    A document is the tree of Registry.v, whatever its memory holds when it is read. *)

From S2P Require Import Prelude CLib Registry Entity.

(** ** Accessors of a document *)

(** [first_node(name)] of a list of siblings, [next_sibling(name)] of a node, and by
    name or not. *)
Fixpoint find_node (name : list Z) (x : xml) : xml :=
  match x with
  | Null => Null
  | Node tag _ _ next => if bool_decide (tag = name) then x else find_node name next
  end.
Definition getChildNode (x : xml) (name : option (list Z)) : outcome xml :=
  match x with
  | Null => Undef
  | Node _ _ child _ => Ret match name with Some name => find_node name child | None => child end
  end.
Definition getNextNode (x : xml) (name : option (list Z)) : outcome xml :=
  match x with
  | Null => Undef
  | Node _ _ _ next => Ret match name with Some name => find_node name next | None => next end
  end.
Definition first_attribute (name : option (list Z)) (attrs : list (list Z * list Z)) : option (list Z) :=
  snd <$> match name with Some name => List.find (λ kv, bool_decide (fst kv = name)) attrs | None => List.head attrs end.
Definition getValueByString (x : xml) (name : option (list Z)) (defaultValue : list Z) : outcome (list Z) :=
  match x with
  | Null => Undef
  | Node _ attrs _ _ => Ret (default defaultValue (first_attribute name attrs))
  end.
Definition getValueByInteger (x : xml) (name : option (list Z)) (defaultValue : Z) : outcome Z :=
  match x with
  | Null => Undef
  | Node _ attrs _ _ => Ret match first_attribute name attrs with Some v => u32 (strtoul v) | None => defaultValue end
  end.

(** ** loadDescriptor *)

Definition types : list (list Z * value_type) :=
  [(str "integer", type_integer); (str "float", type_float); (str "bool", type_bool); (str "string", type_string)].
Definition find_type (s : list Z) : option value_type := snd <$> List.find (λ kv, bool_decide (fst kv = s)) types.

(** One turn of the loop: [None] where it returns false. *)
Definition load_attribute (node : xml) (d : gmap (list Z) value_type) : outcome (option (gmap (list Z) value_type)) :=
  name ← getValueByString node (Some (str "name")) [];
  type ← getValueByString node (Some (str "type")) [];
  let name := c_str name in let type := c_str type in
  Ret (if bool_decide (name = []) then None
       else if bool_decide (type = []) then None
       else match find_type type with
            | None => None
            | Some t => match d !! name with Some _ => None | None => Some (<[name := t]> d) end
            end).
(** The loop, over the siblings called "attribute": from the first child or the next
    sibling, past those that [find_node] skips. *)
Fixpoint load_attributes (node : xml) (d : gmap (list Z) value_type) : outcome (bool * gmap (list Z) value_type) :=
  match node with
  | Null => Ret (true, d)
  | Node tag attrs child next =>
      if bool_decide (tag = str "attribute") then
        od ← load_attribute node d;
        match od with Some d => load_attributes next d | None => Ret (false, d) end
      else load_attributes next d
  end.
(** [None] is a file that can not be read or parsed. *)
Definition loadDescriptor (tableid : Z) (doc : option xml) (tables : gmap Z (gmap (list Z) value_type))
    : outcome (bool * gmap Z (gmap (list Z) value_type)) :=
  match doc with
  | None => Ret (false, tables)
  | Some Null => Ret (false, <[tableid := ∅]> tables)
  | Some root =>
      node ← getChildNode root (Some (str "attribute"));
      '(rc, d) ← load_attributes node ∅; Ret (rc, <[tableid := d]> tables)
  end.
Definition getDescriptor (tableid : Z) (tables : gmap Z (gmap (list Z) value_type))
    : gmap (list Z) value_type * gmap Z (gmap (list Z) value_type) :=
  let d := default ∅ (tables !! tableid) in (d, <[tableid := d]> tables).

(** ** What is described is loaded *)

Definition type_name (t : value_type) : list Z :=
  match t with type_integer => str "integer" | type_float => str "float" | type_bool => str "bool" | type_string => str "string" end.
Fixpoint attribute_nodes (ds : list (list Z * value_type)) : xml :=
  match ds with
  | [] => Null
  | (name, t) :: ds => Node (str "attribute") [(str "name", name); (str "type", type_name t)] Null (attribute_nodes ds)
  end.

Lemma find_type_name t : find_type (type_name t) = Some t.
Proof. by destruct t. Qed.

(** Siblings with other tags are skipped by the loop as by [find_node]. *)
Lemma load_attributes_find x d : load_attributes (find_node (str "attribute") x) d = load_attributes x d.
Proof.
  induction x as [|tag attrs child _ next IH]; [done|]. cbn [find_node load_attributes].
  case_bool_decide as E; [|done]. cbn [load_attributes]. by rewrite bool_decide_eq_true_2.
Qed.

Lemma load_attribute_node name t d next : name ≠ [] → no_nul name → d !! name = None →
  load_attribute (Node (str "attribute") [(str "name", name); (str "type", type_name t)] Null next) d = Ret (Some (<[name := t]> d)).
Proof.
  intros Hne H0 Hd. unfold load_attribute.
  change (getValueByString _ (Some (str "name")) []) with (Ret name). change (getValueByString _ (Some (str "type")) []) with (Ret (type_name t)).
  cbn [mbind outcome_bind]. rewrite (c_str_id name) by done. assert (c_str (type_name t) = type_name t) as -> by by destruct t.
  rewrite !bool_decide_eq_false_2 by (done || by destruct t). by rewrite find_type_name, Hd.
Qed.

Lemma load_attribute_nodes ds : ∀ d, NoDup (map fst ds) → Forall (λ kv, fst kv ≠ [] ∧ no_nul (fst kv) ∧ d !! fst kv = None) ds →
  load_attributes (attribute_nodes ds) d = Ret (true, list_to_map ds ∪ d).
Proof.
  induction ds as [|[name t] ds IH]; intros d Hn Hd; cbn [attribute_nodes load_attributes]; [by rewrite list_to_map_nil, (left_id_L ∅ (∪))|].
  cbn [map fst] in Hn. apply NoDup_cons in Hn as [Hname Hn]. apply Forall_cons in Hd as [(Hne & H0 & Hfree) Hd]. cbn [fst] in *.
  rewrite bool_decide_eq_true_2, load_attribute_node by done. cbn [mbind outcome_bind]. rewrite IH; [|done|].
  - do 2 f_equal. rewrite list_to_map_cons. cbn [fst snd].
    rewrite <- insert_union_l, insert_union_r; [done|]. apply not_elem_of_list_to_map_1. exact Hname.
  - apply Forall_forall. intros kv Hkv. pose proof (proj1 (Forall_forall _ _) Hd kv Hkv) as (G1 & G2 & G3). split_and!; [done|done|].
    rewrite lookup_insert_ne; [done|]. intros E. apply Hname. rewrite E. by apply list_elem_of_fmap_2.
Qed.

(** A description is read back from its document, whatever other nodes follow it, and
    replaces what the table had; other tables stay. *)
Lemma loadDescriptor_roundtrip tableid tag attrs ds next tables : NoDup (map fst ds) → Forall (λ kv, fst kv ≠ [] ∧ no_nul (fst kv)) ds →
  loadDescriptor tableid (Some (Node tag attrs (attribute_nodes ds) next)) tables = Ret (true, <[tableid := list_to_map ds]> tables) ∧
  fst (getDescriptor tableid (<[tableid := list_to_map ds]> tables)) = list_to_map ds.
Proof.
  intros Hn Hd. split.
  - unfold loadDescriptor. cbn [getChildNode mbind outcome_bind]. rewrite load_attributes_find, load_attribute_nodes; [|done|].
    + by rewrite (right_id_L ∅ (∪)).
    + eapply Forall_impl; [exact Hd|]. intros kv [H1 H2]. by rewrite lookup_empty.
  - unfold getDescriptor. by rewrite lookup_insert_eq.
Qed.
