(* ===== verification/RecordProtocol.v ===== *)
(** * The messages of the record server: src/protocol/recordserver.h

    Packed structs behind a Netmessage header, as bytes: how the fields are read from a
    message (a read past its end is [Undef]) and how the messages are filled in by
    RecordClient (src/recordclient/RecordClient.cpp) and by the server
    (server/recordserver/src/RecordProcess.cpp). *)

From S2P Require Import Prelude Net.

Definition ObjectSerializeRequest : Z := 0x101.
Definition ObjectSerializeResponse : Z := 0x102.
Definition ObjectUnserializeRequest : Z := 0x103.
Definition ObjectUnserializeResponse : Z := 0x104.
Definition ObjectDeleteRequest : Z := 0x105.
Definition ObjectDeleteResponse : Z := 0x106.
Definition ObjectSelectRequest : Z := 0x107.
Definition ObjectAlterRequest : Z := 0x109.
Definition ObjectAlterResponse : Z := 0x10a.

Definition RECORD_OK : Z := 0.
Definition RECORD_ILLEGAL_JSON_STRING : Z := 100.
Definition RECORD_NOT_FOUND_OBJECT : Z := 101.
Definition RECORD_ILLEGAL_OBJECT : Z := 102.
Definition RECORD_SERIALIZE_ERROR : Z := 103.
Definition RECORD_DELETE_ERROR : Z := 104.

(** ** Reading fields *)

Definition field_at (off n : nat) (msg : list Z) : outcome Z :=
  if (off + n <=? length msg)%nat then Ret (le_val (take n (drop off msg))) else Undef.

(** The offsets in the packed structs; [table] is [char[16]] at offset 16. *)
Definition msg_len : list Z → outcome Z := field_at 0 4.
Definition msg_id : list Z → outcome Z := field_at 4 2.
Definition msg_shard : list Z → outcome Z := field_at 12 4.
Definition msg_objectid : list Z → outcome Z := field_at 32 8.
Definition msg_datalen : list Z → outcome Z := field_at 40 4.       (* requests *)
Definition msg_retval : list Z → outcome Z := field_at 40 4.        (* responses *)
Definition resp_datalen : list Z → outcome Z := field_at 44 4.

(** [msg->table] as a C string: it runs on behind the array up to a NUL. *)
Definition msg_table (msg : list Z) : outcome (list Z) :=
  let s := drop 16 msg in if bool_decide (0 ∈ s) then Ret (c_str s) else Undef.
(** [msg->data] with its length. *)
Definition msg_data (off : nat) (len : Z) (msg : list Z) : outcome (list Z) :=
  if Z.of_nat off + len <=? Z.of_nat (length msg) then Ret (take (Z.to_nat len) (drop off msg)) else Undef.

(** ** Writing *)

(** [strncpy(dst, src, 16)] into [char table[16]]: what follows the name is zero; a longer
    name is cut and has no NUL. *)
Definition strncpy16 (src : list Z) : list Z := take 16 (c_str src ++ replicate 16 0).

Definition netmsg_header (len id : Z) : list Z :=
  le_bytes 4 (u32 len) ++ le_bytes 2 (u16 id) ++ le_bytes 2 0 ++ le_bytes 4 0.
Definition object_header (shard : Z) (table : list Z) (objectid : Z) : list Z :=
  le_bytes 4 shard ++ strncpy16 table ++ le_bytes 8 objectid.

(** A message without data, and one with [datalen] and [data]. *)
Definition plain_message (id shard : Z) (table : list Z) (objectid : Z) : list Z :=
  netmsg_header 40 id ++ object_header shard table objectid.
Definition data_message (id shard : Z) (table : list Z) (objectid : Z) (js : list Z) : list Z :=
  let datalen := u32 (Z.of_nat (length js)) in
  netmsg_header (44 + datalen) id ++ object_header shard table objectid ++ le_bytes 4 datalen ++ js.

(** [sendSerializeResponse], [sendDeleteResponse] and [sendAlterResponse] differ in [id]. *)
Definition status_response (id shard : Z) (table : list Z) (objectid retval : Z) : list Z :=
  netmsg_header 44 id ++ object_header shard table objectid ++ le_bytes 4 retval.
(** [sendUnserializeResponse]; [None] is a null [data] with [datalen] 0. *)
Definition unserialize_response (shard : Z) (table : list Z) (objectid retval : Z) (data : option (list Z)) : list Z :=
  let js := default [] data in
  let datalen := u32 (Z.of_nat (length js)) in
  netmsg_header (48 + datalen) ObjectUnserializeResponse ++ object_header shard table objectid ++
  le_bytes 4 retval ++ le_bytes 4 datalen ++ take (Z.to_nat datalen) js.

(** ** [size()] of the structs, as a [size_t] *)

Definition data_size (msg : list Z) : outcome Z := n ← msg_datalen msg; Ret (44 + n).
Definition request_size (id : Z) (msg : list Z) : outcome Z :=
  if (id =? ObjectUnserializeRequest) || (id =? ObjectDeleteRequest) then Ret 40 else data_size msg.
Definition response_size (id : Z) (msg : list Z) : outcome Z :=
  if id =? ObjectUnserializeResponse then n ← resp_datalen msg; Ret (48 + n) else Ret 44.

(** ** Reading back what was written *)

Lemma length_strncpy16 s : length (strncpy16 s) = 16%nat.
Proof. unfold strncpy16. rewrite length_take, length_app, length_replicate. lia. Qed.

Lemma length_netmsg_header len id : length (netmsg_header len id) = 12%nat.
Proof. reflexivity. Qed.

Lemma length_object_header shard table objectid : length (object_header shard table objectid) = 28%nat.
Proof. unfold object_header. by rewrite !length_app, !length_le_bytes, length_strncpy16. Qed.

(** A field behind a prefix of known length. *)
Lemma field_at_app off n pre z rest : length pre = off →
  field_at off n (pre ++ le_bytes n z ++ rest) = Ret (z mod 2 ^ (8 * Z.of_nat n)).
Proof.
  intros <-. unfold field_at. rewrite (proj2 (Nat.leb_le _ _)) by (rewrite !length_app, length_le_bytes; lia).
  by rewrite drop_app_length, take_app_le, take_ge, le_val_le_bytes by (rewrite length_le_bytes; lia).
Qed.

Lemma field_at_fits off n pre z rest : length pre = off → fits (8 * Z.of_nat n) z →
  field_at off n (pre ++ le_bytes n z ++ rest) = Ret z.
Proof. intros Hl Hz. rewrite field_at_app by done. unfold fits in Hz. by rewrite Z.mod_small. Qed.

(** The number a field holds. *)
Definition field_val (off n : nat) (msg : list Z) : Z := le_val (take n (drop off msg)).
Lemma field_read_val off n msg : (off + n ≤ length msg)%nat → field_at off n msg = Ret (field_val off n msg).
Proof. intros Hl. unfold field_at. by rewrite (proj2 (Nat.leb_le _ _)). Qed.

Lemma field_val_fits off n msg : bytes_ok msg → (off + n ≤ length msg)%nat → fits (8 * Z.of_nat n) (field_val off n msg).
Proof.
  intros Hb Hl. assert (length (take n (drop off msg)) = n) as Hn by (rewrite length_take, length_drop; lia).
  rewrite <-Hn at 1. apply le_val_bound. by apply Forall_take, Forall_drop.
Qed.

Lemma field_read off n msg : bytes_ok msg → (off + n ≤ length msg)%nat →
  ∃ z, field_at off n msg = Ret z ∧ fits (8 * Z.of_nat n) z.
Proof. intros Hb Hl. exists (field_val off n msg). by split; [apply field_read_val|apply field_val_fits]. Qed.

Lemma strncpy16_take s : strncpy16 (take 16 s) = strncpy16 s.
Proof.
  assert (∀ m s, take m (c_str (take m s) ++ replicate 16 0) = take m (c_str s ++ replicate 16 0)) as Hm; [|apply Hm].
  induction m as [|m IH]; [done|]. intros [|c s']; [done|]. cbn [take c_str].
  destruct (c =? 0); [done|]. cbn [app take]. by rewrite IH.
Qed.

Section Fields.
Context (len id shard objectid : Z) (table rest : list Z).
Context (Hid : fits 16 id) (Hshard : fits 32 shard) (Hobject : fits 64 objectid).
Let msg := netmsg_header len id ++ object_header shard table objectid ++ rest.

Lemma header_fields : msg_len msg = Ret (u32 len) ∧ msg_id msg = Ret id ∧ msg_shard msg = Ret shard ∧
  msg_objectid msg = Ret objectid ∧ take 16 (drop 16 msg) = strncpy16 table ∧ drop 40 msg = rest ∧
  drop 16 msg = strncpy16 table ++ le_bytes 8 objectid ++ rest ∧ length msg = (40 + length rest)%nat.
Proof using Hid Hshard Hobject.
  assert (u16 id = id) as E2 by by apply wrap_id.
  assert (msg = (le_bytes 4 (u32 len) ++ le_bytes 2 id ++ le_bytes 2 0 ++ le_bytes 4 0) ++
    (le_bytes 4 shard ++ strncpy16 table ++ le_bytes 8 objectid) ++ rest) as Em
    by (unfold msg, netmsg_header, object_header; by rewrite E2).
  split_and!.
  - rewrite Em. apply (field_at_fits 0 4 [] (u32 len)); [done|]. by apply wrap_fits.
  - rewrite Em. list_norm. by apply (field_at_fits 4 2 (le_bytes 4 (u32 len))).
  - rewrite Em, <-(app_assoc (le_bytes 4 shard)). by apply field_at_fits.
  - rewrite Em. list_norm. rewrite 5!app_assoc. apply field_at_fits; [|done].
    by rewrite !length_app, length_strncpy16.
  - rewrite Em. list_norm. rewrite 4!app_assoc, drop_app_length', take_app_length' by (done || by rewrite length_strncpy16).
    done.
  - unfold msg. rewrite app_assoc. apply drop_app_length'.
    by rewrite length_app, length_netmsg_header, length_object_header.
  - rewrite Em. list_norm. by rewrite 4!app_assoc, drop_app_length'.
  - unfold msg. rewrite !length_app, length_object_header. simpl. lia.
Qed.
End Fields.

(** A name of at most 15 characters is read back. *)
Lemma strncpy16_short table rest : no_nul table → (length table ≤ 15)%nat →
  0 ∈ strncpy16 table ++ rest ∧ c_str (strncpy16 table ++ rest) = table.
Proof.
  intros Hn Hl. unfold strncpy16. rewrite c_str_id, take_app_ge, take_replicate by (done || lia).
  destruct (Init.Nat.min (16 - length table) 16) as [|k] eqn:Ek; [lia|]. simpl. rewrite <-app_assoc. split.
  - apply elem_of_app. right. left.
  - by rewrite c_str_app, app_nil_r by done.
Qed.
