(* ===== verification/RecordSchema.v ===== *)
(** * Columns and SQL of the record server: src/server/recordserver/src/RecordProcess.cpp

    The static tables that relate MySQL column types to entity values, and the text of the
    statements.  The MySQL client library is a class of operations ([MySQLApi]). *)

From S2P Require Import Prelude CLib Strings Entity.

(** ** [enum_field_types]: the types the server knows, and the others *)

Inductive field_type := TINY | LONG | LONGLONG | FLOAT | VAR_STRING | BLOB | LONG_BLOB | OTHER (code : Z).
#[export] Instance field_type_eq_dec : EqDecision field_type.
Proof. solve_decision. Defined.

(** [m2m]: whether a column of the first type is altered for a value of the second;
    [None] when there is no entry. *)
Definition m2m (column value : field_type) : option bool :=
  match column, value with
  | OTHER _, _ | _, OTHER _ => None
  | TINY, TINY => Some false
  | LONG, (TINY | LONG) => Some false
  | LONGLONG, (TINY | LONG | LONGLONG) => Some false
  | FLOAT, FLOAT => Some false
  | VAR_STRING, VAR_STRING => Some false
  | BLOB, (VAR_STRING | BLOB) => Some false
  | LONG_BLOB, (VAR_STRING | BLOB | LONG_BLOB) => Some false
  | _, _ => Some true
  end.

Definition m2string (t : field_type) : option (list Z) :=
  match t with
  | TINY => Some (str "TINYINT")
  | LONG => Some (str "INT")
  | LONGLONG => Some (str "BIGINT")
  | FLOAT => Some (str "FLOAT")
  | VAR_STRING => Some (str "VARCHAR(128)")
  | BLOB => Some (str "TEXT")
  | LONG_BLOB => Some (str "LONGTEXT")
  | OTHER _ => None
  end.

Definition m2v (t : field_type) : option value_type :=
  match t with
  | TINY => Some type_bool
  | LONG | LONGLONG => Some type_integer
  | FLOAT => Some type_float
  | VAR_STRING | BLOB | LONG_BLOB => Some type_string
  | OTHER _ => None
  end.

Definition DEF_VARCHAR_LENGTH : Z := 128.
Definition UNSIGNED_FLAG : Z := 32.
Definition IS_UNSIGNED (flags : Z) : bool := negb (Z.land flags UNSIGNED_FLAG =? 0).

(** [std::stoul] and [std::stoull] *)
Definition stoul (s : list Z) : option Z :=
  match strtol10 s with
  | Some z => if Z.abs z <? 2 ^ 64 then Some (u64 z) else None
  | None => None
  end.

Definition bq (s : list Z) : list Z := [96] ++ s ++ [96].
(** A string literal; nothing in it is escaped. *)
Definition sq (s : list Z) : list Z := [39] ++ s ++ [39].

Section Schema.
Context {F : Type} `{FloatText F}.

Definition v2m (d : value_data F) : field_type :=
  match d with
  | VInteger z => if (2 ^ 31 - 1 <? z) || (z <? - 2 ^ 31) then LONGLONG else LONG
  | VBool _ => TINY
  | VFloat _ => FLOAT
  | VString s =>
      if 65535 <? Z.of_nat (length s) then LONG_BLOB
      else if DEF_VARCHAR_LENGTH <? Z.of_nat (length s) then BLOB else VAR_STRING
  end.

(** [m2value[t](value, s, is_unsigned)]: the data assigned; [None] is an exception. *)
Definition m2value (t : field_type) (s : list Z) (is_unsigned : bool) : option (value_data F) :=
  match t with
  | TINY => z ← stoi s; Some (VBool (negb (z =? 0)))
  | LONG | LONGLONG =>
      z ← (if is_unsigned then stoul s else stol s); Some (VInteger (s64 z))
  | FLOAT => f ← stof s; Some (VFloat f)
  | VAR_STRING | BLOB | LONG_BLOB => Some (VString s)
  | OTHER _ => None
  end.

(** ** Statements *)

(** A value as the INSERT statement writes it. *)
Definition literal (d : value_data F) : list Z :=
  match d with
  | VInteger z => dec_int z
  | VFloat f => show_float f
  | VBool b => if b then str "1" else str "0"
  | VString s => sq s
  end.

Definition select_one (table : list Z) : list Z := str "SELECT * FROM " ++ bq table ++ str " LIMIT 1".
Definition select_id (table : list Z) (objectid : Z) : list Z :=
  str "SELECT * FROM " ++ bq table ++ str " WHERE id = " ++ dec objectid.
Definition delete_sql (table : list Z) (objectid : Z) : list Z :=
  str "DELETE FROM TABLE " ++ bq table ++ str " WHERE id = " ++ dec objectid.
Definition add_field_sql (table field_name type : list Z) : list Z :=
  str "ALTER TABLE " ++ bq table ++ str " ADD " ++ bq field_name ++ str " " ++ type ++ str " NOT NULL".
Definition alter_field_sql (table field_name type : list Z) : list Z :=
  str "ALTER TABLE " ++ bq table ++ str " MODIFY " ++ bq field_name ++ str " " ++ type ++ str " NOT NULL".
Definition remove_field_sql (table field_name : list Z) : list Z :=
  str "ALTER TABLE " ++ bq table ++ str " DROP " ++ bq field_name ++ str " ".
Definition add_key_sql (table field_name : list Z) : list Z :=
  str "ALTER TABLE " ++ bq table ++ str " ADD KEY " ++ bq field_name ++ str "(" ++ bq field_name ++ str ")".
Definition remove_key_sql (table field_name : list Z) : list Z :=
  str "ALTER TABLE " ++ bq table ++ str " DROP KEY " ++ bq field_name ++ str " ".

(** One column of CREATE TABLE; a value named [id] has none. *)
Definition create_column (nv : list Z * Value F) : list Z :=
  if bool_decide (fst nv = str "id") then []
  else match m2string (v2m (data (snd nv))) with
       | Some type => str ", " ++ bq (fst nv) ++ str " " ++ type ++ str " NOT NULL"
       | None => []
       end.
Definition create_sql (table : list Z) (vs : list (list Z * Value F)) : list Z :=
  str "CREATE TABLE " ++ bq table ++ str " (" ++ bq (str "id") ++ str " BIGINT UNSIGNED NOT NULL PRIMARY KEY " ++
  concat (map create_column vs) ++ str ") ENGINE=InnoDB DEFAULT CHARSET=utf8".

(** The three streams of the INSERT statement; [tellp() > 0] asks for a comma. *)
Record insert_text := MkInsert { sql_fields : list Z; sql_insert : list Z; sql_update : list Z }.
Definition no_insert : insert_text := MkInsert [] [] [].
Definition comma (s : list Z) : list Z := match s with [] => [] | _ => s ++ str "," end.
Definition add_value (nv : list Z * Value F) (t : insert_text) : insert_text :=
  let v := literal (data (snd nv)) in
  MkInsert (comma (sql_fields t) ++ bq (fst nv)) (comma (sql_insert t) ++ v)
    (comma (sql_update t) ++ bq (fst nv) ++ str "=" ++ v).
Definition insert_sql (table : list Z) (t : insert_text) : list Z :=
  str "INSERT INTO " ++ bq table ++ str " (" ++ sql_fields t ++ str ") VALUES (" ++ sql_insert t ++
  str ") ON DUPLICATE KEY UPDATE " ++ sql_update t.
End Schema.

(** ** The connection: src/db/MySQL.cpp *)

Record column := MkColumn { col_name : list Z; col_type : field_type; col_flags : Z; col_length : Z }.
(** A stored result; a cell is [None] for NULL. *)
Record MySQLResult := MkResult { columns : list column; rows : list (list (option (list Z))) }.

(** What the MySQL client library answers, and how the database changes; [true] is
    the return value 0. *)
Class MySQLApi (D : Type) := {
  mysql_real_query : list Z → D → bool * D;
  mysql_store_result : D → option MySQLResult * D
}.

Section MySQL.
Context {D : Type} `{MySQLApi D}.

Definition runCommand (s : list Z) (d : D) : bool * D := mysql_real_query s d.
Definition runQuery (s : list Z) (d : D) : option MySQLResult * D :=
  let '(ok, d) := mysql_real_query s d in
  if ok then mysql_store_result d else (None, d).
Definition createDatabase (database : list Z) (d : D) : bool * D :=
  runCommand (str "CREATE DATABASE IF NOT EXISTS " ++ bq database ++
    str " DEFAULT CHARACTER SET utf8 COLLATE utf8_general_ci") d.
End MySQL.

(** [MySQLConfig::parsefrom]: "host:port:user:password:database". *)
Record MySQLConfig := MkConfig {
  host : list Z; port : Z; user : list Z; passwd : list Z; database : list Z
}.
Definition parsefrom (conf : list Z) (c : MySQLConfig) : outcome (bool * MySQLConfig) :=
  '(rc, v) ← splitString conf (ch ":") [];
  match rc, v with
  | true, [v0; v1; v2; v3; v4] =>
      match stol v1 with
      | None => Ret (false, MkConfig v0 (port c) (user c) (passwd c) (database c))
      | Some value_port => Ret (true, MkConfig v0 (s32 value_port) v2 v3 v4)
      end
  | _, _ => Ret (false, c)
  end.

(** ** Values and columns agree *)

Section Agree.
Context {F : Type} `{FloatText F}.
Implicit Types (d : value_data F).

Lemma v2m_known d : ∃ type, m2string (v2m d) = Some type.
Proof. unfold v2m. repeat case_match; simpl; eauto. Qed.

Lemma v2m_m2v d : m2v (v2m d) = Some (type_of d).
Proof. unfold v2m. by repeat case_match. Qed.

(** The number of a value's type in its family, and the family. *)
Definition family (t : field_type) : nat :=
  match t with TINY | LONG | LONGLONG => 0 | FLOAT => 1 | VAR_STRING | BLOB | LONG_BLOB => 2 | OTHER _ => 3 end.
Definition rank (t : field_type) : nat :=
  match t with TINY | VAR_STRING | FLOAT => 0 | LONG | BLOB => 1 | LONGLONG | LONG_BLOB => 2 | OTHER _ => 3 end.

Lemma m2m_rules c v : m2string c ≠ None → m2string v ≠ None →
  m2m c v = Some (negb (bool_decide (family c = family v)) || (rank c <? rank v)%nat).
Proof. by destruct c, v. Qed.
End Agree.
