(* ===== verification/RecordProcess.v ===== *)
(** * The record server: src/server/recordserver/src/

    RecordProcess.cpp, RecordProcess.h, RecordProcessManager.cpp and RecordService.cpp: a
    cache of entities over the tables of a MySQL database.  A shard has a fixed number of
    slots, each with a connection to its own database and a worker thread; the service thread
    puts requests on the slot of the object and sends the answers. *)

From S2P Require Import Prelude CLib Strings Entity RecordProtocol RecordSchema.

Record FieldDescriptor := MkField { ftype : field_type; fflags : Z; flength : Z }.
(** What [desc_fields[name]] inserts: a zeroed descriptor, of type MYSQL_TYPE_DECIMAL. *)
Definition no_field : FieldDescriptor := MkField (OTHER 0) 0 0.

(** [fields] is a map, kept as an [Abbreviation] so that its lemmas apply. *)
Abbreviation fields := (gmap (list Z) FieldDescriptor).

Section Slot.
Context {F : Type} `{FloatText F} {D : Type} `{MySQLApi D} `{!Walk (list Z) (Value F)}.
(** The parser of JSON: RapidJSON as in JsonEntity.v. *)
Context (Parse : list Z → option (json_root F)).

(** [struct SlotDatabase]: a message on [wlist] and [rlist] comes with its socket; [leaked]
    counts the entities no pointer is left to. *)
Record SlotDatabase := MkSlot {
  shard : Z;
  sid : Z;
  db : D;
  tables : gmap (list Z) fields;
  entities : gmap Z (Entity F);
  wlist : list (Z * list Z);
  rlist : list (Z * list Z);
  leaked : nat
}.
Definition set_db d sl := MkSlot (shard sl) (sid sl) d (tables sl) (entities sl) (wlist sl) (rlist sl) (leaked sl).
Definition set_tables t sl := MkSlot (shard sl) (sid sl) (db sl) t (entities sl) (wlist sl) (rlist sl) (leaked sl).
Definition set_entities e sl := MkSlot (shard sl) (sid sl) (db sl) (tables sl) e (wlist sl) (rlist sl) (leaked sl).
Definition set_wlist w sl := MkSlot (shard sl) (sid sl) (db sl) (tables sl) (entities sl) w (rlist sl) (leaked sl).
Definition set_rlist r sl := MkSlot (shard sl) (sid sl) (db sl) (tables sl) (entities sl) (wlist sl) r (leaked sl).
Definition add_leak sl := MkSlot (shard sl) (sid sl) (db sl) (tables sl) (entities sl) (wlist sl) (rlist sl) (S (leaked sl)).

Definition new_Slot (shard id : Z) (d : D) : SlotDatabase := MkSlot shard id d ∅ ∅ [] [] 0.

(** [this->tables[table]]: a missing table gets an empty description. *)
Definition fields_of (table : list Z) (sl : SlotDatabase) : fields := default ∅ (tables sl !! table).
Definition touch_table (table : list Z) (sl : SlotDatabase) : SlotDatabase :=
  set_tables (<[table := fields_of table sl]> (tables sl)) sl.
Definition set_fields (table : list Z) (fs : fields) (sl : SlotDatabase) : SlotDatabase :=
  set_tables (<[table := fs]> (tables sl)) sl.

(** [this->dbhandler->runCommand] *)
Definition command (s : list Z) (sl : SlotDatabase) : bool * SlotDatabase :=
  let '(rc, d) := runCommand s (db sl) in (rc, set_db d sl).

(** ** Tables *)

Fixpoint load_columns (cs : list column) (fs : fields) : bool * fields :=
  match cs with
  | [] => (true, fs)
  | c :: cs =>
      match m2string (col_type c) with
      | None => (false, fs)
      | Some _ => load_columns cs (<[col_name c := MkField (col_type c) (col_flags c) (col_length c)]> fs)
      end
  end.
Definition loadField (table : list Z) (sl : SlotDatabase) : outcome (bool * SlotDatabase) :=
  let sl := touch_table table sl in
  let '(result, d) := runQuery (select_one table) (db sl) in
  let sl := set_db d sl in
  match result with
  | None => Aborted
  | Some r =>
      let '(rc, fs) := load_columns (columns r) (fields_of table sl) in
      Ret (rc, set_fields table fs sl)
  end.

Definition addField (table field_name : list Z) (t : field_type) (sl : SlotDatabase) : bool * SlotDatabase :=
  match m2string t with
  | None => (false, sl)
  | Some type => command (add_field_sql table field_name type) sl
  end.
Definition alterField (table field_name : list Z) (t : field_type) (sl : SlotDatabase) : bool * SlotDatabase :=
  match m2string t with
  | None => (false, sl)
  | Some type => command (alter_field_sql table field_name type) sl
  end.
Definition removeField (table field_name : list Z) := command (remove_field_sql table field_name).
Definition addKey (table field_name : list Z) := command (add_key_sql table field_name).
Definition removeKey (table field_name : list Z) := command (remove_key_sql table field_name).
Definition createTable (table : list Z) (e : Entity F) := command (create_sql table (walk (values e))).
Definition removeEntity (table : list Z) (objectid : Z) := command (delete_sql table objectid).

(** [alterTable]: the results of the statements are not looked at. *)
Definition alter_option (table field option : list Z) (sl : SlotDatabase) : bool * SlotDatabase :=
  if bool_decide (option = str "ADD_KEY") then (true, snd (addKey table field sl))
  else if bool_decide (option = str "DROP_KEY") then (true, snd (removeKey table field sl))
  else if bool_decide (option = str "DROP_FIELD") then (true, snd (removeField table field sl))
  else (false, sl).
Fixpoint alter_members (table : list Z) (ms : list (list Z * json_value F)) (sl : SlotDatabase) : bool * SlotDatabase :=
  match ms with
  | [] => (true, sl)
  | (name, JString option) :: ms =>
      match fields_of table sl !! c_str name with
      | None => (false, sl)
      | Some _ =>
          let '(rc, sl) := alter_option table (c_str name) (c_str option) sl in
          if rc then alter_members table ms sl else (false, sl)
      end
  | _ => (false, sl)
  end.
Definition alterTable (table js : list Z) (sl : SlotDatabase) : bool * SlotDatabase :=
  match Parse js with
  | Some (RObject ms) => alter_members table ms (touch_table table sl)
  | _ => (false, sl)
  end.

(** ** [serialize] *)

(** Steps of the loop body for one value: a missing column is added, then one of an
    unsuitable type is altered.  [None] is the early return. *)
Definition add_missing (table name : list Z) (t : field_type) (sl : SlotDatabase) : outcome (bool * SlotDatabase) :=
  match fields_of table sl !! name with
  | Some _ => Ret (true, sl)
  | None =>
      let '(rc, sl) := addField table name t sl in
      if rc then '(_, sl) ← loadField table sl; Ret (true, sl) else Ret (false, sl)
  end.
Definition alter_unsuitable (table name : list Z) (t : field_type) (sl : SlotDatabase) : outcome (bool * SlotDatabase) :=
  let f := default no_field (fields_of table sl !! name) in
  let sl := set_fields table (<[name := f]> (fields_of table sl)) sl in
  match m2m (ftype f) t with
  | None => Ret (false, sl)
  | Some false => Ret (true, sl)
  | Some true =>
      let '(rc, sl) := alterField table name t sl in
      if rc then '(_, sl) ← loadField table sl; Ret (true, sl) else Ret (false, sl)
  end.
Definition prepare_value (table : list Z) (nv : list Z * Value F) (sl : SlotDatabase) : outcome (bool * SlotDatabase) :=
  let t := v2m (data (snd nv)) in
  '(rc, sl) ← add_missing table (fst nv) t sl;
  if (rc : bool) then alter_unsuitable table (fst nv) t sl else Ret (false, sl).
Fixpoint prepare_values (table : list Z) (vs : list (list Z * Value F)) (text : insert_text) (sl : SlotDatabase)
    : outcome (option insert_text * SlotDatabase) :=
  match vs with
  | [] => Ret (Some text, sl)
  | nv :: vs =>
      '(rc, sl) ← prepare_value table nv sl;
      if (rc : bool) then prepare_values table vs (add_value nv text) sl else Ret (None, sl)
  end.
(** The table is created when it is not known. *)
Definition ensure_table (table : list Z) (e : Entity F) (sl : SlotDatabase) : outcome (bool * SlotDatabase) :=
  match tables sl !! table with
  | Some _ => Ret (true, sl)
  | None =>
      let '(rc, sl) := createTable table e sl in
      if (rc : bool) then loadField table sl else Ret (false, sl)
  end.
Definition serialize (table : list Z) (e : Entity F) (sl : SlotDatabase) : outcome (bool * SlotDatabase) :=
  '(rc, sl) ← ensure_table table e sl;
  if (rc : bool) then
    '(text, sl) ← prepare_values table (walk (values e)) no_insert (touch_table table sl);
    match text with
    | None => Ret (false, sl)
    | Some text => Ret (command (insert_sql table text) sl)
    end
  else Ret (false, sl).

(** ** [unserialize] *)

(** One cell of the row.  An exception leaves the value [GetValue] made; a NULL cell is a
    [std::string] made of a null pointer. *)
Definition load_cell (fs : fields) (c : column) (cell : option (list Z)) (e : Entity F) : outcome (Entity F) :=
  match fs !! col_name c, m2string (col_type c) with
  | Some _, Some _ =>
      match cell with
      | None => Undef
      | Some s =>
          match m2value (col_type c) (c_str s) (IS_UNSIGNED (col_flags c)) with
          | Some d => Ret (assign (col_name c) d e)
          | None => Ret (snd (GetValue (col_name c) e))
          end
      end
  | _, _ => Ret e
  end.
Fixpoint load_row (fs : fields) (cs : list column) (row : list (option (list Z))) (e : Entity F) : outcome (Entity F) :=
  match cs, row with
  | c :: cs, cell :: row => e ← load_cell fs c cell e; load_row fs cs row e
  | [], _ => Ret e
  | _ :: _, [] => Undef
  end.
Definition unserialize (table : list Z) (objectid : Z) (sl : SlotDatabase) : outcome (option (Entity F) * SlotDatabase) :=
  let sl := touch_table table sl in
  let '(result, d) := runQuery (select_id table objectid) (db sl) in
  let sl := set_db d sl in
  match result with
  | None => Ret (None, sl)
  | Some r =>
      match rows r with
      | [] => Ret (None, sl)
      | row :: _ =>
          e ← load_row (fields_of table sl) (columns r) row (new_Entity objectid);
          Ret (Some e, sl)
      end
  end.

(** ** [synchronous] *)

Definition respond (s : Z) (msg : list Z) (sl : SlotDatabase) : SlotDatabase := set_rlist (rlist sl ++ [(s, msg)]) sl.
(** [sendSerializeResponse], [sendDeleteResponse] and [sendAlterResponse] of a request. *)
Definition send_status (id : Z) (s : Z) (msg : list Z) (retval : Z) (sl : SlotDatabase) : outcome SlotDatabase :=
  table ← msg_table msg; objectid ← msg_objectid msg;
  Ret (respond s (status_response id (shard sl) table objectid retval) sl).
Definition sendUnserializeResponse (s : Z) (msg : list Z) (retval : Z) (data : option (list Z)) (sl : SlotDatabase)
    : outcome SlotDatabase :=
  table ← msg_table msg; objectid ← msg_objectid msg;
  _ ← cxx_assert (match data with Some js => 0 <? u32 (Z.of_nat (length js)) | None => true end);
  Ret (respond s (unserialize_response (shard sl) table objectid retval data) sl).
Definition releaseEntity (e : Entity F) (sl : SlotDatabase) : SlotDatabase :=
  set_entities (delete (eid e) (entities sl)) sl.

(** The cases of the switch. *)
Definition on_serialize (s : Z) (msg : list Z) (sl : SlotDatabase) : outcome SlotDatabase :=
  objectid ← msg_objectid msg;
  let e := default (new_Entity objectid) (entities sl !! objectid) in
  n ← msg_datalen msg; js ← msg_data 44 n msg;
  let '(rc, e) := ParseFromString Parse js e in
  let sl := set_entities (<[objectid := e]> (entities sl)) sl in
  if (rc : bool) then
    table ← msg_table msg;
    '(rc, sl) ← serialize table e sl;
    if (rc : bool) then send_status ObjectSerializeResponse s msg RECORD_OK sl
    else send_status ObjectSerializeResponse s msg RECORD_SERIALIZE_ERROR (releaseEntity e sl)
  else send_status ObjectSerializeResponse s msg RECORD_ILLEGAL_JSON_STRING (releaseEntity e sl).

Definition on_unserialize (s : Z) (msg : list Z) (sl : SlotDatabase) : outcome SlotDatabase :=
  objectid ← msg_objectid msg;
  '(found, sl) ←
    match entities sl !! objectid with
    | Some e => Ret (Some e, sl)
    | None => table ← msg_table msg; unserialize table objectid sl
    end;
  match found with
  | None => sendUnserializeResponse s msg RECORD_NOT_FOUND_OBJECT None sl
  | Some e =>
      let '(rc, js) := SerializeToString true e in
      if (rc : bool) then
        sendUnserializeResponse s msg RECORD_OK (Some js) (set_entities (<[objectid := e]> (entities sl)) sl)
      else sendUnserializeResponse s msg RECORD_ILLEGAL_OBJECT None (releaseEntity e sl)
  end.

Definition on_delete (s : Z) (msg : list Z) (sl : SlotDatabase) : outcome SlotDatabase :=
  objectid ← msg_objectid msg;
  let sl := match entities sl !! objectid with
            | Some _ => add_leak (set_entities (delete objectid (entities sl)) sl)
            | None => sl
            end in
  table ← msg_table msg;
  let '(rc, sl) := removeEntity table objectid sl in
  send_status ObjectDeleteResponse s msg (if (rc : bool) then RECORD_OK else RECORD_DELETE_ERROR) sl.

Definition on_alter (s : Z) (msg : list Z) (sl : SlotDatabase) : outcome SlotDatabase :=
  table ← msg_table msg; n ← msg_datalen msg; js ← msg_data 44 n msg;
  let '(rc, sl) := alterTable table js sl in
  send_status ObjectAlterResponse s msg (if (rc : bool) then RECORD_OK else RECORD_DELETE_ERROR) sl.

Definition check_shard (msg : list Z) (sl : SlotDatabase) : outcome unit :=
  n ← msg_shard msg; cxx_assert (n =? shard sl).
Definition handle_request (s : Z) (msg : list Z) (sl : SlotDatabase) : outcome SlotDatabase :=
  id ← msg_id msg;
  if id =? ObjectSerializeRequest then _ ← check_shard msg sl; on_serialize s msg sl
  else if id =? ObjectUnserializeRequest then _ ← check_shard msg sl; on_unserialize s msg sl
  else if id =? ObjectDeleteRequest then _ ← check_shard msg sl; on_delete s msg sl
  else if id =? ObjectAlterRequest then _ ← check_shard msg sl; on_alter s msg sl
  else Ret sl.

(** One turn of the loop with the lock taken, and the loop over the answers of [try_lock]:
    it ends when the list is empty or a lock fails. *)
Definition handle_front (sl : SlotDatabase) : outcome SlotDatabase :=
  match wlist sl with
  | [] => Ret sl
  | (s, msg) :: w => handle_request s msg (set_wlist w sl)
  end.
Fixpoint synchronous (locks : list bool) (sl : SlotDatabase) : outcome SlotDatabase :=
  match wlist sl, locks with
  | _ :: _, true :: locks => sl ← handle_front sl; synchronous locks sl
  | _, _ => Ret sl
  end.
End Slot.

Arguments SlotDatabase F D : clear implicits.
