(* ===== verification/RecordDatabase.v ===== *)
(** * What the record server relies on in MySQL

    [RecordDatabase] is a view of the database behind a connection: the declared columns of
    each table and the row of each id; [RecordDatabaseLaws] states, for the statements of
    RecordSchema.v, the documented effect on it.  A statement may fail at any time, but for
    the two SELECTs, which fail only without the table or the column they need: the
    connection stays up.  RecordToy.v has an instance that parses the statements. *)

From S2P Require Import Prelude CLib Strings Entity RecordSchema.

(** A name that can stand between backquotes, and a string between quotes, without escapes.
    MySQL does not tell names apart that differ in case only, so no capitals. *)
Definition quotable (s : list Z) : Prop := Forall (λ c, 32 < c < 127 ∧ c ≠ 96 ∧ (c < 65 ∨ 90 < c)) s.
#[export] Instance quotable_dec s : Decision (quotable s).
Proof. unfold quotable. apply _. Defined.
Definition storable_string (s : list Z) : Prop := Forall (λ c, 32 ≤ c < 127 ∧ c ≠ 39 ∧ c ≠ 92) s.

(** A declared column: its type and whether it is UNSIGNED. *)
Abbreviation declared := (gmap (list Z) (field_type * bool)).
(** The type a result set reports for a column: every TEXT type is MYSQL_TYPE_BLOB. *)
Definition report (t : field_type) : field_type := match t with LONG_BLOB => BLOB | t => t end.
Definition describes (cols : declared) (cs : list column) : Prop :=
  NoDup (map col_name cs) ∧
  list_to_map (map (λ c, (col_name c, (col_type c, IS_UNSIGNED (col_flags c)))) cs)
  = (λ tu, (report (fst tu), snd tu)) <$> cols.

Lemma describes_in cols cs c : describes cols cs → c ∈ cs →
  ∃ ty, cols !! col_name c = Some (ty, IS_UNSIGNED (col_flags c)) ∧ col_type c = report ty.
Proof.
  intros [Hnd Hm] Hin.
  assert (list_to_map (M := declared) (map (λ c, (col_name c, (col_type c, IS_UNSIGNED (col_flags c)))) cs)
    !! col_name c = Some (col_type c, IS_UNSIGNED (col_flags c))) as Hl.
  { apply elem_of_list_to_map_1; [by rewrite <-list_fmap_compose|].
    by apply (list_elem_of_fmap_2 (λ c, (col_name c, (col_type c, IS_UNSIGNED (col_flags c)))) cs). }
  rewrite Hm, lookup_fmap in Hl. apply fmap_Some in Hl as ([ty u] & Hn & [= -> ->]). by exists ty.
Qed.

Lemma describes_out cols cs n tu : describes cols cs → cols !! n = Some tu →
  ∃ c, c ∈ cs ∧ n = col_name c ∧ snd tu = IS_UNSIGNED (col_flags c) ∧ col_type c = report (fst tu).
Proof.
  intros [Hnd Hm] Hn. pose proof (lookup_fmap (λ tu : field_type * bool, (report (fst tu), snd tu)) cols n) as Hl.
  rewrite Hn, <-Hm in Hl. apply elem_of_list_to_map_2, list_elem_of_fmap in Hl as (c & [= -> H1 H2] & Hin).
  by exists c.
Qed.

Section Accepts.
Context {F : Type} `{FloatText F} (show_cell : F → list Z).
Implicit Types (d : value_data F).

(** The values a column holds without conversion. *)
Definition accepts (tu : field_type * bool) d : Prop :=
  match fst tu, d with
  | TINY, VBool _ | LONG, VBool _ | LONGLONG, VBool _ => True
  | LONG, VInteger z => sfits 32 z ∧ (snd tu = true → 0 ≤ z)
  | LONGLONG, VInteger z => sfits 64 z ∧ (snd tu = true → 0 ≤ z)
  | FLOAT, VFloat _ => True
  | VAR_STRING, VString s => Z.of_nat (length s) ≤ DEF_VARCHAR_LENGTH
  | BLOB, VString s => Z.of_nat (length s) ≤ 65535
  | LONG_BLOB, VString s => Z.of_nat (length s) < 2 ^ 32
  | _, _ => False
  end.
(** The text of the cell that holds a value; [show_cell f] is what MySQL gives back of a FLOAT
    that was written as [show_float f]. *)
Definition cell_text d : list Z :=
  match d with
  | VInteger z => dec_int z
  | VFloat f => show_cell f
  | VBool b => if b then str "1" else str "0"
  | VString s => s
  end.
Definition storable d : Prop :=
  match d with
  | VInteger z => sfits 64 z
  | VFloat f => stof (show_cell f) = Some f ∧ no_nul (show_cell f)
  | VBool _ => True
  | VString s => storable_string s ∧ Z.of_nat (length s) < 2 ^ 32
  end.
(** What a cell is read back as: a truth value of an integer column is an integer. *)
Definition read_as (t : field_type) d : value_data F :=
  match t, d with
  | (LONG | LONGLONG), VBool b => VInteger (Z.b2z b)
  | _, _ => d
  end.
End Accepts.

(** The columns of CREATE TABLE. *)
Definition created {F} (vs : list (list Z * Value F)) : declared :=
  <[str "id" := (LONGLONG, true)]>
    (list_to_map (map (λ nv, (fst nv, (v2m (data (snd nv)), false))) vs)).

Class RecordDatabase (D F : Type) := {
  schema : D → gmap (list Z) declared;
  cells : D → list Z → Z → option (gmap (list Z) (list Z));
  show_cell : F → list Z
}.
Arguments show_cell D {F _}.

Section Laws.
Context (D F : Type) `{FloatText F} `{MySQLApi D} `{!RecordDatabase D F}.

(** A query changes nothing and tells the columns and the rows of a table; without the
    table, or a column [needs] names, it fails. *)
Definition answers (t : list Z) (needs : list (list Z)) (s : list Z) (d : D)
    (rows_of : list column → list (list (option (list Z)))) : Prop :=
  let '(r, d') := runQuery s d in
  schema d' = schema d ∧ cells d' = cells d ∧
  match schema d !! t with
  | Some cols =>
      if bool_decide (Forall (λ n, is_Some (cols !! n)) needs)
      then ∃ res, r = Some res ∧ describes cols (columns res) ∧ rows res = rows_of (columns res) else r = None
  | None => r = None
  end.

Class RecordDatabaseLaws : Prop := {
  law_select_id t id d : quotable t → fits 64 id →
    answers t [str "id"] (select_id t id) d (λ cs,
      match cells d t id with Some row => [map (λ c, row !! col_name c) cs] | None => [] end);
  law_select_one t d : quotable t → ∃ rows_of, answers t [] (select_one t) d rows_of;
  (** the columns are NOT NULL *)
  law_cells d t id row cols : cells d t id = Some row → schema d !! t = Some cols → dom row = dom cols;
  law_failed s d : fst (runCommand s d) = false → schema (snd (runCommand s d)) = schema d ∧ cells (snd (runCommand s d)) = cells d;
  law_create t (vs : list (list Z * Value F)) d : quotable t → Forall (λ nv, quotable (fst nv)) vs → NoDup (map fst vs) →
    fst (runCommand (create_sql t vs) d) = true →
    schema d !! t = None ∧ schema (snd (runCommand (create_sql t vs) d)) = <[t := created vs]> (schema d);
  law_add t n ty type d : quotable t → quotable n → m2string ty = Some type →
    fst (runCommand (add_field_sql t n type) d) = true →
    ∃ cols, schema d !! t = Some cols ∧ cols !! n = None ∧
      schema (snd (runCommand (add_field_sql t n type) d)) = <[t := <[n := (ty, false)]> cols]> (schema d);
  law_modify t n ty type d : quotable t → quotable n → m2string ty = Some type →
    fst (runCommand (alter_field_sql t n type) d) = true →
    ∃ cols, schema d !! t = Some cols ∧ is_Some (cols !! n) ∧
      schema (snd (runCommand (alter_field_sql t n type) d)) = <[t := <[n := (ty, false)]> cols]> (schema d);
  law_drop t n d : quotable t → quotable n → fst (runCommand (remove_field_sql t n) d) = true →
    ∃ cols, schema d !! t = Some cols ∧
      schema (snd (runCommand (remove_field_sql t n) d)) = <[t := delete n cols]> (schema d);
  law_keys t n s d : quotable t → quotable n → s = add_key_sql t n ∨ s = remove_key_sql t n →
    schema (snd (runCommand s d)) = schema d ∧ cells (snd (runCommand s d)) = cells d;
  (** MySQL's grammar has no DELETE FROM TABLE *)
  law_delete t id d : quotable t → fits 64 id → fst (runCommand (delete_sql t id) d) = false;
  law_insert t text d : quotable t → schema (snd (runCommand (insert_sql t text) d)) = schema d;
  law_insert_cells t (vs : list (list Z * Value F)) d cols id :
    let s := insert_sql t (fold_left (λ text nv, add_value nv text) vs no_insert) in
    quotable t → NoDup (map fst vs) → schema d !! t = Some cols →
    Forall (λ nv, quotable (fst nv) ∧ storable (show_cell D) (data (snd nv)) ∧
      ∃ tu, cols !! fst nv = Some tu ∧ accepts tu (data (snd nv))) vs →
    (∃ b, (str "id", MkValue (VInteger id) b) ∈ vs) → fst (runCommand s d) = true →
    ∃ row, cells (snd (runCommand s d)) t id = Some row ∧
      Forall (λ nv, row !! fst nv = Some (cell_text (show_cell D) (data (snd nv)))) vs
}.
End Laws.
