(* ===== verification/Mysql.v ===== *)
(** * MySQL: src/db/MySQL.cpp, MySQLStatement.cpp

    Opening a database and reading names from it, on the answers of the client library. *)

From S2P Require Import Prelude CLib.

(** ** openDatabase *)

(** What the code sets before it connects. *)
Inductive mysql_option :=
| OptConnectTimeout (seconds : Z) | OptReconnect (on : bool) | OptInitCommand (sql : list Z) | OptReportTruncation (on : bool).
(** The handle: the options it was given, whether it is connected. *)
Record handle := MkHandle { options : list mysql_option; connected : bool }.
Definition mysql_init : handle := MkHandle [] false.
Definition MYSQL_WAIT_TIMEOUT : Z := 604800.
Definition MYSQL_INTERACTIVE_TIMEOUT : Z := 604800.
Definition wanted_options : list mysql_option :=
  [OptConnectTimeout 10; OptReconnect true; OptInitCommand (str "set wait_timeout=" ++ dec MYSQL_WAIT_TIMEOUT);
   OptInitCommand (str "set interactive_timeout=" ++ dec MYSQL_INTERACTIVE_TIMEOUT); OptReportTruncation true].

Section Open.
(** Whether [mysql_options], [mysql_real_connect] and [mysql_real_query] succeed. *)
Context (accepts : mysql_option → bool) (connects : bool) (runs : list Z → bool).

Fixpoint set_options (os : list mysql_option) (h : handle) : bool * handle :=
  match os with
  | [] => (true, h)
  | o :: os => if accepts o then set_options os (MkHandle (options h ++ [o]) (connected h)) else (false, h)
  end.
Definition closeDatabase (h : handle) : handle := mysql_init.
Definition runCommand (s : list Z) (h : handle) : bool := runs s.
Definition openDatabase (h : handle) : bool * handle :=
  let '(rc, h) := set_options wanted_options h in
  if rc && connects
  then let h := MkHandle (options h) true in (runCommand (str "SET NAMES UTF8") h, h)
  else (false, closeDatabase h).
Definition resetDatabase (h : handle) : bool * handle := openDatabase (closeDatabase h).
End Open.

(** ** Statements *)

(** [prepare], [bindParam], [exec], [freeResult]: success is 0; [bindResult] makes two calls. *)
Definition stmt_ok (rc : Z) : bool := rc =? 0.
Definition bindResult (bind store : Z) : bool := if bind =? 0 then store =? 0 else false.
Definition MYSQL_NO_DATA : Z := 100.
Definition MYSQL_DATA_TRUNCATED : Z := 101.
Definition fetch (rc : Z) : bool := if negb (rc =? 0) then if rc =? MYSQL_NO_DATA then false else false else true.

(** ** loadTable and loadDatabase *)

(** What a fetch finds: a row with a name, the end, an error. *)
Inductive fetched := Row (name : list Z) | NoData | FetchError.
(** A row goes to a buffer of 64 bytes, with a NUL when there is room for it; a longer one
    is reported as truncated. *)
Definition fetch_rc (f : fetched) : Z :=
  match f with
  | Row name => if Nat.ltb 64 (length name) then MYSQL_DATA_TRUNCATED else 0
  | NoData => MYSQL_NO_DATA
  | FetchError => 1
  end.
Fixpoint load_loop (fs : list fetched) (results : gset (list Z)) : outcome (gset (list Z)) :=
  match fs with
  | [] => Ret results
  | f :: fs =>
      if fetch (fetch_rc f) then
        match f with
        | Row name => if Nat.ltb (length name) 64 || bool_decide (0 ∈ name) then load_loop fs ({[c_str name]} ∪ results) else Undef
        | _ => load_loop fs results
        end
      else Ret results
  end.
(** The body of both: [prepare] is what the server says of the text, the other codes are those
    of the calls before the loop and after it. *)
Definition load_names (sql : list Z) (prepare : list Z → Z) (exec bind store free : Z) (fs : list fetched) (results : gset (list Z))
    : outcome (bool * gset (list Z)) :=
  if negb (stmt_ok (prepare sql)) then Ret (false, results)
  else if negb (stmt_ok exec) then Ret (false, results)
  else if negb (bindResult bind store) then Ret (false, results)
  else results ← load_loop fs results; Ret (stmt_ok free, results).
Definition loadDatabase (where_ : list Z) := load_names (str "SHOW DATABASES LIKE '" ++ where_ ++ str "'").
Definition loadTable (where_ : list Z) := load_names (str "SHOW TABLES LIKE '" ++ where_ ++ str "'").

(** ** What they promise *)

(** The database is open when every call succeeds, with all options; when one fails before
    the connection is there the handle is as new; when only the last one does, it stays
    connected though [openDatabase] returns false. *)
Lemma openDatabase_spec accepts connects runs :
  openDatabase accepts connects runs mysql_init =
  if forallb accepts wanted_options && connects
  then (runs (str "SET NAMES UTF8"), MkHandle wanted_options true) else (false, mysql_init).
Proof.
  unfold openDatabase. cbn [forallb wanted_options set_options].
  repeat (destruct (accepts _); cbn [andb set_options options connected mysql_init app]; [|done]). by destruct connects.
Qed.

(** Names below 64 bytes are all loaded; but an error on the way, or a name that does not fit,
    ends the loop like the end of the names, with the result true; and a name of exactly 64
    bytes, as long as MySQL lets names be, is read past the end of the buffer. *)
Lemma loadTable_spec where_ names rest results : Forall (λ n, (length n < 64)%nat ∧ no_nul n) names →
  loadTable where_ (λ _, 0) 0 0 0 0 (map Row names ++ NoData :: rest) results = Ret (true, list_to_set names ∪ results) ∧
  loadTable where_ (λ _, 0) 0 0 0 0 (map Row names ++ FetchError :: rest) results = Ret (true, list_to_set names ∪ results) ∧
  ∀ name, length name = 64%nat → no_nul name → loadTable where_ (λ _, 0) 0 0 0 0 (map Row names ++ Row name :: rest) results = Undef.
Proof.
  intros Hn. unfold loadTable, load_names. cbn [stmt_ok bindResult Z.eqb negb].
  assert (∀ fs, load_loop (map Row names ++ fs) results = load_loop fs (list_to_set names ∪ results)) as E.
  { intros fs. revert results. induction Hn as [|n names [Hl H0] Hns IH]; intros results; cbn [map app list_to_set].
    - by rewrite (left_id_L ∅ (∪)).
    - cbn [load_loop fetch_rc]. rewrite (proj2 (Nat.ltb_ge 64 (length n))), (proj2 (Nat.ltb_lt (length n) 64)) by lia.
      cbn [fetch Z.eqb negb orb]. rewrite c_str_id, IH by done. by rewrite (assoc_L (∪)), (comm_L (∪) (list_to_set names)). }
  rewrite !E. split_and!; [done|done|]. intros name Hl H0. rewrite E. cbn [load_loop fetch_rc]. rewrite Hl.
  change (Nat.ltb 64 64) with false. cbn [fetch Z.eqb negb orb]. by rewrite bool_decide_eq_false_2.
Qed.
