(* ===== verification/RecordToy.v ===== *)
(** * A small database that parses the statements of the record server

    An instance of the laws of RecordDatabase.v, to evaluate examples with: [parse_sql] reads
    the statements of RecordSchema.v, [toy_exec] does them.  Floats are whole numbers. *)

From S2P Require Import Prelude CLib Strings Entity RecordSchema RecordDatabase.

(** ** Parsing *)

Fixpoint strip (p s : list Z) : option (list Z) :=
  match p, s with
  | [], _ => Some s
  | a :: p, b :: s => if a =? b then strip p s else None
  | _ :: _, [] => None
  end.
Definition ident (s : list Z) : option (list Z * list Z) :=
  s ← strip [96] s; strchr 96 s.

Definition all_types : list (list Z * field_type) :=
  map (λ t, (default [] (m2string t) ++ str " NOT NULL", t)) [TINY; LONG; LONGLONG; FLOAT; VAR_STRING; BLOB; LONG_BLOB].
Fixpoint parse_type (ts : list (list Z * field_type)) (s : list Z) : option (field_type * list Z) :=
  match ts with
  | [] => None
  | (text, t) :: ts => match strip text s with Some rest => Some (t, rest) | None => parse_type ts s end
  end.
Definition parse_column (s : list Z) : option ((list Z * field_type) * list Z) :=
  '(n, s) ← ident s; s ← strip (str " ") s; '(t, s) ← parse_type all_types s; Some ((n, t), s).

(** Items behind a separator, up to an end text. *)
Fixpoint parse_items {X} (item : list Z → option (X * list Z)) (sep stop : list Z) (fuel : nat) (s : list Z)
    : option (list X * list Z) :=
  match fuel with
  | O => None
  | S fuel =>
      match strip stop s with
      | Some rest => Some ([], rest)
      | None => s ← strip sep s; '(x, s) ← item s; '(xs, s) ← parse_items item sep stop fuel s; Some (x :: xs, s)
      end
  end.

(** A literal: its cell. *)
Fixpoint bare (s : list Z) : list Z * list Z :=
  match s with
  | [] => ([], [])
  | c :: s' => if (c =? ch ",") || (c =? ch ")") then ([], s) else let '(a, b) := bare s' in (c :: a, b)
  end.
Definition parse_literal (s : list Z) : option (list Z * list Z) :=
  match strip [39] s with
  | Some s => strchr 39 s
  | None => Some (bare s)
  end.

Inductive sql :=
| SelectOne (t : list Z)
| SelectId (t : list Z) (id : Z)
| Create (t : list Z) (cols : list (list Z * field_type))
| Add (t n : list Z) (ty : field_type)
| Modify (t n : list Z) (ty : field_type)
| Drop (t n : list Z)
| Keys (t : list Z)
| Insert (t : list Z) (ns cs : list (list Z)).

Definition create_head : list Z := str " (" ++ bq (str "id") ++ str " BIGINT UNSIGNED NOT NULL PRIMARY KEY ".
Definition create_stop : list Z := str ") ENGINE=InnoDB DEFAULT CHARSET=utf8".
Definition parse_select (s : list Z) : option sql :=
  '(t, s) ← ident s;
  match strip (str " LIMIT 1") s, strip (str " WHERE id = ") s with
  | Some [], _ => Some (SelectOne t)
  | None, Some s => SelectId t <$> strtol10 s
  | _, _ => None
  end.
Definition parse_create (s : list Z) : option sql :=
  '(t, s) ← ident s; s ← strip create_head s;
  '(cols, rest) ← parse_items parse_column (str ", ") create_stop (S (length s)) s; Some (Create t cols).
Definition parse_alter (s : list Z) : option sql :=
  '(t, s) ← ident s;
  match strip (str " ADD KEY ") s, strip (str " DROP KEY ") s, strip (str " ADD ") s, strip (str " MODIFY ") s,
    strip (str " DROP ") s with
  | Some _, _, _, _, _ | _, Some _, _, _, _ => Some (Keys t)
  | _, _, Some s, _, _ => '((n, ty), _) ← parse_column s; Some (Add t n ty)
  | _, _, _, Some s, _ => '((n, ty), _) ← parse_column s; Some (Modify t n ty)
  | _, _, _, _, Some s => '(n, _) ← ident s; Some (Drop t n)
  | _, _, _, _, _ => None
  end.
(** The lists are read with a comma put in front. *)
Definition parse_insert (s : list Z) : option sql :=
  '(t, s) ← ident s; s ← strip (str " (") s;
  '(ns, s) ← parse_items ident (str ",") (str ") VALUES (") (S (length s)) (str "," ++ s);
  '(cs, s) ← parse_items parse_literal (str ",") (str ") ON DUPLICATE KEY UPDATE ") (S (length s)) (str "," ++ s);
  Some (Insert t ns cs).
Definition parse_sql (s : list Z) : option sql :=
  match strip (str "SELECT * FROM ") s, strip (str "CREATE TABLE ") s, strip (str "ALTER TABLE ") s, strip (str "INSERT INTO ") s with
  | Some s, _, _, _ => parse_select s
  | _, Some s, _, _ => parse_create s
  | _, _, Some s, _ => parse_alter s
  | _, _, _, Some s => parse_insert s
  | _, _, _, _ => None
  end.

(** ** Executing *)

Abbreviation cell_row := (gmap (list Z) (list Z)).
Record toy := MkToy {
  t_schema : gmap (list Z) declared;
  t_rows : gmap (list Z * Z) cell_row;
  t_result : option MySQLResult
}.
Definition toy_cells (d : toy) (t : list Z) (id : Z) : option cell_row :=
  row ← t_rows d !! (t, id); cols ← t_schema d !! t;
  if decide (dom row = dom (cols : declared)) then Some row else None.
Definition set_schema (t : list Z) (cols : declared) (d : toy) : toy := MkToy (<[t := cols]> (t_schema d)) (t_rows d) (t_result d).
Definition map_rows (t : list Z) (f : cell_row → cell_row) (d : toy) : toy :=
  MkToy (t_schema d) (map_imap (λ k row, Some (if decide (fst k = t) then f row else row)) (t_rows d)) (t_result d).
Definition toy_columns (cols : declared) : list column :=
  map (λ c : list Z * (field_type * bool), MkColumn (fst c) (report (fst (snd c))) (if snd (snd c) then UNSIGNED_FLAG else 0) 0) (map_to_list cols).
Definition toy_select (t : list Z) (rows_of : list column → list (list (option (list Z)))) (d : toy) : bool * toy :=
  match t_schema d !! t with
  | Some cols => (true, MkToy (t_schema d) (t_rows d) (Some (MkResult (toy_columns cols) (rows_of (toy_columns cols)))))
  | None => (false, d)
  end.
Definition rows_with (d : toy) (t : list Z) (id : Z) (cs : list column) : list (list (option (list Z))) :=
  match toy_cells d t id with Some row => [map (λ c, row !! col_name c) cs] | None => [] end.
(** Every column needs a value when there is no row yet. *)
Definition toy_insert (t : list Z) (given : cell_row) (d : toy) : bool * toy :=
  match t_schema d !! t, given !! str "id" with
  | Some cols, Some key =>
      match strtol10 key with
      | Some id =>
          let row := given ∪ default ∅ (toy_cells d t id) in
          if decide (dom row = dom (cols : declared))
          then (true, MkToy (t_schema d) (<[(t, id) := row]> (t_rows d)) (t_result d)) else (false, d)
      | None => (false, d)
      end
  | _, _ => (false, d)
  end.
Definition toy_exec (q : sql) (d : toy) : bool * toy :=
  match q with
  | SelectOne t => toy_select t (λ _, []) d
  | SelectId t id =>
      match t_schema d !! t with
      | Some cols => if decide (is_Some (cols !! str "id")) then toy_select t (rows_with d t id) d else (false, d)
      | None => (false, d)
      end
  | Create t cols =>
      match t_schema d !! t with
      | Some _ => (false, d)
      | None => (true, set_schema t (<[str "id" := (LONGLONG, true)]> (list_to_map (map (λ c, (fst c, (snd c, false))) cols))) d)
      end
  | Add t n ty =>
      match t_schema d !! t with
      | Some cols => match cols !! n with
                     | Some _ => (false, d)
                     | None => (true, map_rows t (λ row, <[n := []]> row) (set_schema t (<[n := (ty, false)]> cols) d))
                     end
      | None => (false, d)
      end
  | Modify t n ty =>
      match t_schema d !! t with
      | Some cols => match cols !! n with
                     | Some _ => (true, set_schema t (<[n := (ty, false)]> cols) d)
                     | None => (false, d)
                     end
      | None => (false, d)
      end
  | Drop t n =>
      match t_schema d !! t with
      | Some cols => (true, map_rows t (delete n) (set_schema t (delete n cols) d))
      | None => (false, d)
      end
  | Keys t => (true, d)
  | Insert t ns cs => toy_insert t (list_to_map (zip ns cs)) d
  end.

#[export] Instance toy_api : MySQLApi toy := {|
  mysql_real_query s d := match parse_sql s with Some q => toy_exec q d | None => (false, d) end;
  mysql_store_result d := (t_result d, d)
|}.
#[export] Instance toy_database : RecordDatabase toy Z := {|
  schema := t_schema; cells := toy_cells; show_cell := dec_int
|}.
Definition new_toy : toy := MkToy ∅ ∅ None.

(** ** The statements are read as they are written *)

Lemma strip_app p s : strip p (p ++ s) = Some s.
Proof. induction p as [|a p IH]; [done|]. simpl. by rewrite Z.eqb_refl. Qed.

Lemma quotable_96 n : quotable n → 96 ∉ n.
Proof. unfold quotable. rewrite Forall_forall. intros Hn Hin. destruct (Hn 96 Hin). lia. Qed.

Lemma ident_bq n rest : quotable n → ident (bq n ++ rest) = Some (n, rest).
Proof. intros Hn. unfold ident, bq. simpl. rewrite <-app_assoc. by apply strchr_app, quotable_96. Qed.

Lemma parse_column_text n ty type rest : quotable n → m2string ty = Some type →
  parse_column (bq n ++ str " " ++ type ++ str " NOT NULL" ++ rest) = Some ((n, ty), rest).
Proof.
  intros Hn Ht. unfold parse_column. rewrite ident_bq by done. cbn [mbind option_bind].
  rewrite strip_app. cbn [mbind option_bind].
  by destruct ty; simplify_eq Ht; intros <-.
Qed.

Section Items.
Context {X Y : Type} (item : list Z → option (X * list Z)) (render : Y → list Z) (val : Y → X) (sep stop : list Z).
Context (Hsep : ∀ s, strip stop (sep ++ s) = None).
(** [follow] is what an item needs to know about the text behind it. *)
Context (follow : list Z → Prop) (Hf1 : ∀ s, follow (sep ++ s)) (Hf2 : ∀ s, follow (stop ++ s)).

Lemma parse_items_text xs : Forall (λ x, ∀ rest, follow rest → item (render x ++ rest) = Some (val x, rest)) xs →
  ∀ fuel rest, (length xs < fuel)%nat →
  parse_items item sep stop fuel (concat (map (λ x, sep ++ render x) xs) ++ stop ++ rest) = Some (map val xs, rest).
Proof using All.
  intros Hxs. induction Hxs as [|x xs Hx Hxs IH]; intros [|fuel] rest Hlen; simpl in *; [lia| |lia|].
  - by rewrite strip_app.
  - rewrite <-!app_assoc, Hsep, strip_app. cbn [mbind option_bind]. rewrite Hx.
    + cbn [mbind option_bind]. rewrite IH by lia. done.
    + destruct xs; simpl; [apply Hf2|]. rewrite <-!app_assoc. apply Hf1.
Qed.
End Items.

Lemma length_concat_ge {X} (f : X → list Z) xs : (∀ x, (1 ≤ length (f x))%nat) → (length xs ≤ length (concat (map f xs)))%nat.
Proof. intros Hf. induction xs as [|x xs IH]; simpl; [lia|]. rewrite length_app. specialize (Hf x). lia. Qed.

Definition new_columns {F} (vs : list (list Z * Value F)) : list (list Z * field_type) :=
  map (λ nv, (fst nv, v2m (data (snd nv)))) (List.filter (λ nv, negb (bool_decide (fst nv = str "id"))) vs).
Definition column_text (c : list Z * field_type) : list Z :=
  bq (fst c) ++ str " " ++ default [] (m2string (snd c)) ++ str " NOT NULL".

Lemma create_columns_text {F} (vs : list (list Z * Value F)) :
  concat (map create_column vs) = concat (map (λ c, str ", " ++ column_text c) (new_columns vs)).
Proof.
  unfold new_columns. induction vs as [|nv vs IH]; [done|]. simpl. rewrite IH. unfold create_column at 1.
  destruct (bool_decide (fst nv = str "id")); [done|]. simpl. unfold column_text at 1. simpl.
  destruct (v2m_known (data (snd nv))) as [type ->]. simpl. by rewrite <-?app_assoc.
Qed.

Lemma parse_create_text {F} t (vs : list (list Z * Value F)) : quotable t → Forall (λ nv, quotable (fst nv)) vs →
  parse_sql (create_sql t vs) = Some (Create t (new_columns vs)).
Proof.
  intros Ht Hvs. unfold create_sql. rewrite create_columns_text.
  unfold parse_sql. rewrite strip_app. cbn [strip]. change (strip (str "SELECT * FROM ") _) with (@None (list Z)).
  unfold parse_create. rewrite ident_bq by done. cbn [mbind option_bind].
  set (text := concat _).
  replace (_ ++ _) with (create_head ++ text ++ create_stop ++ []) by (unfold create_head; by rewrite app_nil_r, <-!app_assoc).
  rewrite strip_app. cbn [mbind option_bind]. unfold text.
  rewrite (parse_items_text parse_column column_text id (str ", ") create_stop) with (follow := λ _, True); try done.
  - by rewrite map_id.
  - rewrite Forall_forall. intros c [nv [-> Hin]]%list_elem_of_fmap rest _. unfold column_text. cbn [fst snd].
    destruct (v2m_known (data (snd nv))) as [type E]. rewrite E. change (default [] (Some type)) with type.
    rewrite <-!app_assoc.
    apply parse_column_text; [|done]. apply list_elem_of_In, filter_In in Hin as [Hin _].
    rewrite Forall_forall in Hvs. apply Hvs. by apply list_elem_of_In.
  - rewrite length_app. pose proof (length_concat_ge (λ c, str ", " ++ column_text c) (new_columns vs)) as Hl.
    cbn beta in Hl. assert (length (new_columns vs) ≤ length (concat (map (λ c, str ", " ++ column_text c) (new_columns vs))))%nat
      by (apply Hl; intros; simpl; lia). lia.
Qed.

(** The streams of the INSERT statement, with a comma put in front. *)
Definition lead (s : list Z) : list Z := match s with [] => [] | _ => str "," ++ s end.
Lemma lead_comma s x : x ≠ [] → lead (comma s ++ x) = lead s ++ str "," ++ x.
Proof. intros Hx. destruct s as [|c s]; [by destruct x|]. simpl. by rewrite <-app_assoc. Qed.

Lemma lead_nonempty s : lead s ≠ [] → str "," ++ s = lead s.
Proof. by destruct s. Qed.

Lemma literal_nonempty (d : value_data Z) : literal d ≠ [].
Proof. destruct d as [z|f|b|s]; simpl; [apply dec_int_nonempty..|by destruct b|done]. Qed.

Lemma insert_text_lead (vs : list (list Z * Value Z)) : ∀ text,
  lead (sql_fields (fold_left (λ text nv, add_value nv text) vs text))
  = lead (sql_fields text) ++ concat (map (λ n, str "," ++ bq n) (map fst vs)) ∧
  lead (sql_insert (fold_left (λ text nv, add_value nv text) vs text))
  = lead (sql_insert text) ++ concat (map (λ d, str "," ++ literal d) (map (λ nv, data (snd nv)) vs)).
Proof.
  induction vs as [|nv vs IH]; intros text; [by rewrite !app_nil_r|]. cbn [fold_left map concat].
  destruct (IH (add_value nv text)) as [-> ->]. cbn [add_value sql_fields sql_insert].
  rewrite !lead_comma by (done || apply literal_nonempty). by rewrite <-!app_assoc.
Qed.

Definition delimited (s : list Z) : Prop := match s with c :: _ => c = ch "," ∨ c = ch ")" | [] => False end.
Lemma bare_text s rest : Forall (λ c, c ≠ ch "," ∧ c ≠ ch ")") s → delimited rest → bare (s ++ rest) = (s, rest).
Proof.
  intros Hs Hr. induction Hs as [|c s [H1 H2] Hs IH]; simpl.
  - destruct rest as [|c rest]; [done|]. simpl. by destruct Hr as [->| ->].
  - rewrite IH. by rewrite (proj2 (Z.eqb_neq _ _) H1), (proj2 (Z.eqb_neq _ _) H2).
Qed.

Lemma dec_int_bare z rest : delimited rest → parse_literal (dec_int z ++ rest) = Some (dec_int z, rest).
Proof.
  intros Hr. assert (Forall (λ c, c ≠ ch "," ∧ c ≠ ch ")" ∧ c ≠ 39) (dec_int z)) as Hz.
  { rewrite Forall_forall. intros c [Hc| ->]%dec_int_chars; [|done]. rewrite isdigit_spec in Hc.
    unfold ch. simpl. lia. }
  unfold parse_literal. destruct (strip [39] (dec_int z ++ rest)) as [x|] eqn:E.
  - pose proof (dec_int_nonempty z). destruct (dec_int z) as [|c s]; [done|]. cbn [strip app] in E.
    apply Forall_cons in Hz as [(_ & _ & Hc) _]. destruct (Z.eqb_spec 39 c); [congruence|done].
  - rewrite bare_text; [done| |done]. eapply Forall_impl; [exact Hz|]. intros c (? & ? & _). by split.
Qed.

Lemma parse_literal_text (d : value_data Z) rest : storable dec_int d → delimited rest →
  parse_literal (literal d ++ rest) = Some (cell_text dec_int d, rest).
Proof.
  destruct d as [z|f|b|s]; simpl; intros Hd Hr; [by apply dec_int_bare..|destruct b; [by apply (dec_int_bare 1)|by apply (dec_int_bare 0)]|].
  unfold sq, parse_literal. simpl. rewrite <-app_assoc. apply strchr_app. destruct Hd as [Hd _].
  unfold storable_string in Hd. rewrite Forall_forall in Hd. intros Hin. by destruct (Hd 39 Hin) as (_ & ? & _).
Qed.

Lemma parse_insert_text t (vs : list (list Z * Value Z)) : quotable t → vs ≠ [] →
  Forall (λ nv, quotable (fst nv) ∧ storable dec_int (data (snd nv))) vs →
  parse_sql (insert_sql t (fold_left (λ text nv, add_value nv text) vs no_insert))
  = Some (Insert t (map fst vs) (map (λ nv, cell_text dec_int (data (snd nv))) vs)).
Proof.
  intros Ht Hne Hvs. destruct (insert_text_lead vs no_insert) as [Hf Hi]. cbn [no_insert sql_fields sql_insert lead app] in Hf, Hi. set (text := fold_left _ _ _) in *.
  assert (str "," ++ sql_fields text = concat (map (λ n, str "," ++ bq n) (map fst vs))) as Ef.
  { rewrite <-Hf. apply lead_nonempty. rewrite Hf. by destruct vs. }
  assert (str "," ++ sql_insert text = concat (map (λ d, str "," ++ literal d) (map (λ nv, data (snd nv)) vs))) as Ei.
  { rewrite <-Hi. apply lead_nonempty. rewrite Hi. by destruct vs. }
  unfold insert_sql, parse_sql. rewrite strip_app. change (strip (str "SELECT * FROM ") _) with (@None (list Z)).
  change (strip (str "CREATE TABLE ") _) with (@None (list Z)). change (strip (str "ALTER TABLE ") _) with (@None (list Z)).
  unfold parse_insert. rewrite ident_bq by done. cbn [mbind option_bind]. rewrite strip_app. cbn [mbind option_bind].
  rewrite (app_assoc (str ",") (sql_fields text)), Ef.
  rewrite (parse_items_text ident bq id (str ",")) with (follow := λ _, True); try done.
  - cbn [mbind option_bind]. rewrite (app_assoc (str ",") (sql_insert text)), Ei.
    rewrite (parse_items_text parse_literal literal (cell_text dec_int) (str ",")) with (follow := delimited); try done.
    + cbn [mbind option_bind]. by rewrite map_id, map_map.
    + intros s. by left.
    + intros s. by right.
    + rewrite Forall_forall. intros d (nv & -> & Hin)%list_elem_of_fmap rest Hr. apply parse_literal_text; [|done].
      rewrite Forall_forall in Hvs. by apply Hvs.
    + rewrite !length_map, !length_app.
      pose proof (length_concat_ge (λ d, str "," ++ literal d) (map (λ nv, data (snd nv)) vs)) as Hl.
      rewrite length_map, <-Ei in Hl. specialize (Hl ltac:(intros; simpl; lia)). rewrite length_app in Hl. simpl length in *. lia.
  - rewrite Forall_forall. intros n (nv & -> & Hin)%list_elem_of_fmap rest _. apply ident_bq.
    rewrite Forall_forall in Hvs. by apply Hvs.
  - rewrite !length_map, !length_app.
    pose proof (length_concat_ge (λ n, str "," ++ bq n) (map fst vs)) as Hl.
    rewrite length_map, <-Ef in Hl. specialize (Hl ltac:(intros; simpl; lia)). rewrite length_app in Hl. simpl length in *. lia.
Qed.

Lemma parse_select_one t : quotable t → parse_sql (select_one t) = Some (SelectOne t).
Proof.
  intros Ht. unfold parse_sql, select_one. rewrite strip_app. unfold parse_select. by rewrite ident_bq.
Qed.

Lemma parse_select_id t id : quotable t → 0 ≤ id → parse_sql (select_id t id) = Some (SelectId t id).
Proof.
  intros Ht Hid. unfold parse_sql, select_id. rewrite strip_app. unfold parse_select. rewrite ident_bq by done.
  cbn [mbind option_bind]. rewrite strip_app. change (strip (str " LIMIT 1") _) with (@None (list Z)). cbv iota beta.
  pose proof (strtol10_dec_int id [] I) as Hs. unfold dec_int in Hs. rewrite (proj2 (Z.ltb_ge id 0)), app_nil_r in Hs by done.
  by rewrite Hs.
Qed.

(** Statements that alter a table. *)
Ltac parse_alter_text := unfold parse_sql; rewrite strip_app; unfold parse_alter; rewrite ident_bq by done;
  cbn [mbind option_bind]; rewrite ?strip_app.
Lemma parse_add t n ty type : quotable t → quotable n → m2string ty = Some type →
  parse_sql (add_field_sql t n type) = Some (Add t n ty).
Proof.
  intros Ht Hn Hty. unfold add_field_sql.
  rewrite <-(app_nil_r (str " NOT NULL")). parse_alter_text. simpl strip. cbv iota beta. by rewrite (parse_column_text n ty type).
Qed.
Lemma parse_modify t n ty type : quotable t → quotable n → m2string ty = Some type →
  parse_sql (alter_field_sql t n type) = Some (Modify t n ty).
Proof.
  intros Ht Hn Hty. unfold alter_field_sql. rewrite <-(app_nil_r (str " NOT NULL")). parse_alter_text.
  simpl strip. cbv iota beta. by rewrite (parse_column_text n ty type).
Qed.
Lemma parse_drop t n : quotable t → quotable n → parse_sql (remove_field_sql t n) = Some (Drop t n).
Proof. intros Ht Hn. unfold remove_field_sql. parse_alter_text. simpl strip. cbv iota beta. by rewrite ident_bq. Qed.
Lemma parse_keys t n s : quotable t → s = add_key_sql t n ∨ s = remove_key_sql t n → parse_sql s = Some (Keys t).
Proof. intros Ht [->| ->]; [unfold add_key_sql|unfold remove_key_sql]; parse_alter_text; reflexivity. Qed.
Lemma parse_delete t id : parse_sql (delete_sql t id) = None.
Proof. reflexivity. Qed.

(** ** The laws *)

Lemma toy_describes cols : describes cols (toy_columns cols).
Proof.
  unfold describes, toy_columns. split.
  - rewrite map_map. apply NoDup_fst_map_to_list.
  - rewrite map_map. rewrite <-(list_to_map_to_list (M := gmap (list Z)) cols) at 2.
    rewrite <-list_to_map_fmap. f_equal. apply map_ext. intros [n [ty []]]; reflexivity.
Qed.

Lemma toy_exec_failed q d : fst (toy_exec q d) = false → snd (toy_exec q d) = d.
Proof. destruct q; simpl; unfold toy_select, toy_insert; repeat case_match; done. Qed.

Lemma toy_select_answers t needs s d rows_of (parsed : parse_sql s = Some (SelectOne t) ∧ needs = [] ∧ rows_of = (λ _, []) ∨
    ∃ id, parse_sql s = Some (SelectId t id) ∧ needs = [str "id"] ∧ rows_of = rows_with d t id) :
  answers toy Z t needs s d rows_of.
Proof.
  unfold answers, runQuery. simpl.
  destruct parsed as [(-> & -> & ->)|(id & -> & -> & ->)]; simpl.
  - unfold toy_select. destruct (t_schema d !! t) as [cols|]; simpl; [|done]. split_and!; [done|done|].
    eexists. split_and!; [done|apply toy_describes|done].
  - destruct (t_schema d !! t) as [cols|] eqn:E; simpl; [|done].
    destruct (decide (is_Some (cols !! str "id"))) as [Hi|Hi]; simpl.
    + unfold toy_select. rewrite E. simpl. split_and!; [done|done|]. rewrite bool_decide_true by by repeat constructor.
      eexists. split_and!; [done|apply toy_describes|done].
    + rewrite bool_decide_false; [done|]. by intros [? _]%Forall_cons.
Qed.

Lemma created_columns (vs : list (list Z * Value Z)) : NoDup (map fst vs) →
  <[str "id" := (LONGLONG, true)]> (list_to_map (map (λ c, (fst c, (snd c, false))) (new_columns vs)) : declared) = created vs.
Proof.
  intros _. unfold created, new_columns. induction vs as [|nv vs IH]; [done|]. cbn [List.filter map].
  case_bool_decide as E; cbn [negb map list_to_map foldr fst snd].
  - by rewrite E, insert_insert_eq.
  - by rewrite (insert_insert_ne _ (str "id")), IH, (insert_insert_ne _ (str "id")).
Qed.

Lemma list_to_map_zip_lookup {X} (f g : X → list Z) xs x : NoDup (map f xs) → x ∈ xs →
  list_to_map (M := gmap (list Z) (list Z)) (zip (map f xs) (map g xs)) !! f x = Some (g x).
Proof.
  intros Hnd Hin. apply elem_of_list_to_map_1.
  - rewrite fst_zip by by rewrite !length_map. done.
  - clear Hnd. induction Hin as [x xs|x y xs Hin IH]; simpl; [left|right]; done.
Qed.

Lemma toy_insert_cells t (vs : list (list Z * Value Z)) d cols id :
  let s := insert_sql t (fold_left (λ text nv, add_value nv text) vs no_insert) in
  quotable t → NoDup (map fst vs) → schema d !! t = Some cols →
  Forall (λ nv, quotable (fst nv) ∧ storable (show_cell toy) (data (snd nv)) ∧
    ∃ tu, cols !! fst nv = Some tu ∧ accepts tu (data (snd nv))) vs →
  (∃ b, (str "id", MkValue (VInteger id) b) ∈ vs) → fst (runCommand s d) = true →
  ∃ row, cells (snd (runCommand s d)) t id = Some row ∧
    Forall (λ nv, row !! fst nv = Some (cell_text (show_cell toy) (data (snd nv)))) vs.
Proof.
  intros s Ht Hnd Hc Hvs [b Hid]. unfold runCommand. simpl. subst s. assert (vs ≠ []) as Hne by (intros E; rewrite E in Hid; by apply not_elem_of_nil in Hid).
  rewrite parse_insert_text; [|done|done|eapply Forall_impl; [exact Hvs|]; by intros nv (? & ? & _)].
  simpl. unfold toy_insert. change (t_schema d !! t = Some cols) in Hc. rewrite Hc.
  set (given := list_to_map (zip _ _)). assert (∀ nv, nv ∈ vs → given !! fst nv = Some (cell_text dec_int (data (snd nv)))) as Hg
    by (intros nv Hin; by apply (list_to_map_zip_lookup fst (λ nv, cell_text dec_int (data (snd nv))))).
  pose proof (Hg _ Hid) as Hk. cbn [fst snd data cell_text] in Hk. rewrite Hk.
  rewrite <-(app_nil_r (dec_int id)), strtol10_dec_int by done. cbv zeta.
  remember (given ∪ default ∅ (toy_cells d t id)) as row eqn:Er.
  destruct (decide _) as [Hdom|]; [|done]. intros _. exists row. split.
  - simpl. unfold toy_cells. simpl. rewrite lookup_insert_eq. simpl. rewrite Hc. simpl. by rewrite decide_True.
  - rewrite Forall_forall. intros nv Hin. rewrite Er. apply lookup_union_Some_l. by apply Hg.
Qed.

#[export] Instance toy_laws : RecordDatabaseLaws toy Z.
Proof.
  split.
  - intros t id d Ht [Hid _]. apply toy_select_answers. right. exists id. by rewrite parse_select_id.
  - intros t d Ht. exists (λ _, []). apply toy_select_answers. left. by rewrite parse_select_one.
  - intros d t id row cols Hr Hc. cbn in Hr, Hc. unfold toy_cells in Hr. destruct (t_rows d !! (t, id)); [|done].
    simpl in Hr. rewrite Hc in Hr. simpl in Hr. destruct (decide _); [by simplify_eq|done].
  - intros s d. unfold runCommand. simpl. destruct (parse_sql s); [|done]. intros Hf. by rewrite (toy_exec_failed _ _ Hf).
  - intros t vs d Ht Hvs Hnd. unfold runCommand. simpl. rewrite parse_create_text by done. simpl.
    destruct (t_schema d !! t); simpl; [done|]. intros _. by rewrite created_columns.
  - intros t n ty type d Ht Hn Hty. unfold runCommand. simpl. rewrite (parse_add t n ty type) by done. simpl.
    destruct (t_schema d !! t) as [cols|]; [|done]. destruct (cols !! n) eqn:E; [done|]. intros _. by exists cols.
  - intros t n ty type d Ht Hn Hty. unfold runCommand. simpl. rewrite (parse_modify t n ty type) by done. simpl.
    destruct (t_schema d !! t) as [cols|]; [|done]. destruct (cols !! n) eqn:E; [|done]. intros _. exists cols.
    by rewrite E.
  - intros t n d Ht Hn. unfold runCommand. simpl. rewrite parse_drop by done. simpl.
    destruct (t_schema d !! t) as [cols|]; [|done]. intros _. by exists cols.
  - intros t n s d Ht Hn Hs. unfold runCommand. simpl. by rewrite (parse_keys t n s).
  - intros t id d Ht Hid. unfold runCommand, mysql_real_query, toy_api. by rewrite parse_delete.
  - intros t text d Ht. unfold runCommand. simpl. destruct (parse_sql (insert_sql t text)) as [q|] eqn:E; [|done].
    unfold parse_sql, insert_sql in E. rewrite strip_app in E. change (strip (str "SELECT * FROM ") _) with (@None (list Z)) in E.
    change (strip (str "CREATE TABLE ") _) with (@None (list Z)) in E. change (strip (str "ALTER TABLE ") _) with (@None (list Z)) in E.
    cbv iota beta in E. unfold parse_insert in E. rewrite ident_bq in E by done. cbn [mbind option_bind] in E.
    rewrite strip_app in E. cbn [mbind option_bind] in E.
    destruct (parse_items ident _ _ _ _) as [[ns s2]|]; [|done]. cbn [mbind option_bind] in E.
    destruct (parse_items parse_literal _ _ _ _) as [[cs s3]|]; [|done]. injection E as <-. simpl.
    unfold toy_insert. by repeat case_match.
  - apply toy_insert_cells.
Qed.
