(* ===== verification/RecordStore.v ===== *)
(** * What the record server keeps in the database

    Against the laws of RecordDatabase.v: the columns fit the values after a successful
    [serialize], and [unserialize] gives them back. *)

From S2P Require Import Prelude CLib Strings Entity RecordProtocol RecordSchema RecordProcess RecordDatabase RecordToy.

(** ** Single steps *)

Section Steps.
Context {D F : Type} `{RecordDatabaseLaws D F} `{!Walk (list Z) (Value F)} `{!WalkLaws (list Z) (Value F)}.
Implicit Types (sl : SlotDatabase F D) (t n : list Z) (d : value_data F).

Definition cols_of t sl : declared := default ∅ (schema (db sl) !! t).

(** Every column name can be quoted. *)
Definition names_quotable {X} (cols : gmap (list Z) X) : Prop := ∀ n, is_Some (cols !! n) → quotable n.
Definition clean_tables sl : Prop :=
  (∀ t fs, tables sl !! t = Some fs → names_quotable fs) ∧ (∀ t cols, schema (db sl) !! t = Some cols → names_quotable cols).

(** What a statement about [t] may change. *)
Record touches t sl sl' : Prop := {
  touch_slot : sl' = set_db (db sl') (set_tables (tables sl') sl);
  touch_schema t' : t' ≠ t → schema (db sl') !! t' = schema (db sl) !! t';
  touch_tables t' : t' ≠ t → tables sl' !! t' = tables sl !! t';
  touch_exists : is_Some (schema (db sl) !! t) → is_Some (schema (db sl') !! t);
  touch_names : clean_tables sl → clean_tables sl'
}.
#[export] Instance touches_preorder t : PreOrder (touches t).
Proof.
  split; [intros sl; split; [by destruct sl|done..]|]. intros a b c [A1 A2 A3 A4 A5] [B1 B2 B3 B4 B5].
  split; [|intros t' ?; rewrite B2 by done; auto|intros t' ?; rewrite B3 by done; auto|eauto..].
  rewrite B1, A1. by destruct a.
Qed.

(** Columns as the server makes them: of a type it knows, and only [id] is UNSIGNED. *)
Definition supported (cols : declared) : Prop :=
  ∀ n tu, cols !! n = Some tu → m2string (fst tu) ≠ None ∧ (snd tu = true → n = str "id").
(** The description of the table is the database's. *)
Record coherent t sl : Prop := {
  co_exists : is_Some (schema (db sl) !! t);
  co_supported : supported (cols_of t sl);
  co_types n : ftype <$> fields_of t sl !! n = (λ tu, report (fst tu)) <$> cols_of t sl !! n
}.

Lemma fields_of_set t fs sl : fields_of t (set_fields t fs sl) = fs.
Proof. unfold fields_of, set_fields. simpl. by rewrite lookup_insert_eq. Qed.

Lemma fields_of_touch t sl (d' : D) : fields_of t (set_db d' (touch_table t sl)) = fields_of t sl.
Proof. exact (fields_of_set t (fields_of t sl) sl). Qed.

Lemma clean_fields t sl : clean_tables sl → names_quotable (fields_of t sl).
Proof. intros [Hf _]. unfold fields_of. destruct (tables sl !! t) eqn:E; [by eapply Hf|by intros ? []]. Qed.

Lemma names_quotable_insert {X} (cols : gmap (list Z) X) n x : quotable n → names_quotable cols → names_quotable (<[n := x]> cols).
Proof.
  intros Hn Hc n'. destruct (decide (n' = n)) as [->|]; [done|]. rewrite lookup_insert_ne by done. apply Hc.
Qed.

Lemma set_fields_touches t fs sl : (clean_tables sl → names_quotable fs) → touches t sl (set_fields t fs sl).
Proof.
  intros Hfs. split; [done..| |done|].
  - intros t' Ht. simpl. by rewrite lookup_insert_ne.
  - intros Hcl. split; [simpl|apply Hcl]. intros t' fs' [[_ <-]|[_ ?]]%lookup_insert_Some; [by apply Hfs|by eapply Hcl].
Qed.

Lemma set_fields_coherent t fs sl : coherent t sl → (∀ n, ftype <$> fs !! n = ftype <$> fields_of t sl !! n) →
  coherent t (set_fields t fs sl).
Proof. intros [Ce Cs Ct] Hfs. split; [done..|]. intros n. by rewrite fields_of_set, Hfs, Ct. Qed.

Lemma load_columns_spec cs : NoDup (map col_name cs) → ∀ fs : fields, ∃ rc fs', load_columns cs fs = (rc, fs') ∧
  (∀ n, is_Some (fs' !! n) → is_Some (fs !! n) ∨ n ∈ map col_name cs) ∧
  (Forall (λ c, m2string (col_type c) ≠ None) cs → rc = true ∧
   ∀ n, ftype <$> fs' !! n =
    match list_to_map (M := declared) (map (λ c, (col_name c, (col_type c, IS_UNSIGNED (col_flags c)))) cs) !! n with
    | Some tu => Some (fst tu)
    | None => ftype <$> fs !! n
    end).
Proof.
  induction cs as [|c cs IH]; intros Hnd fs; [eexists true, fs; split_and!; [done|by left|done]|]. simpl in Hnd. apply NoDup_cons in Hnd as [Hn Hnd].
  simpl. destruct (m2string (col_type c)) as [ty|] eqn:E.
  - destruct (IH Hnd (<[col_name c := MkField (col_type c) (col_flags c) (col_length c)]> fs)) as (rc & fs' & El & Hns & Hfs).
    exists rc, fs'. split_and!; [done| |].
    { intros n [Hi|Hi]%Hns; [|by right; right]. destruct (decide (n = col_name c)) as [->|Hne]; [by right; left|].
      rewrite lookup_insert_ne in Hi by done. by left. }
    intros [_ Hcs]%Forall_cons. destruct (Hfs Hcs) as [-> Hl]. split; [done|].
    intros n. rewrite Hl. destruct (decide (n = col_name c)) as [->|Hne].
    + rewrite !lookup_insert_eq, not_elem_of_list_to_map_1; [done|]. by rewrite <-list_fmap_compose.
    + by rewrite !lookup_insert_ne.
  - exists false, fs. split_and!; [done|by left|]. intros [? _]%Forall_cons. congruence.
Qed.

Lemma loadField_spec t sl : quotable t → is_Some (schema (db sl) !! t) → ∃ rc sl',
  loadField t sl = Ret (rc, sl') ∧ touches t sl sl' ∧ schema (db sl') = schema (db sl) ∧ cells (db sl') = cells (db sl) ∧
  (supported (cols_of t sl) → (∀ n, is_Some (fields_of t sl !! n) → is_Some (cols_of t sl !! n)) →
   rc = true ∧ coherent t sl').
Proof.
  intros Hq [cols Hc]. destruct (law_select_one D F t (db sl) Hq) as [rows_of Ha]. unfold answers in Ha.
  unfold loadField. simpl. destruct (runQuery (select_one t) (db sl)) as [r d'] eqn:E. destruct Ha as (Es & Ece & Hr).
  rewrite Hc in Hr. simpl in Hr. destruct Hr as (res & -> & [Hnd Hm] & _).
  set (sl1 := set_db d' (touch_table t sl)).
  destruct (load_columns_spec (columns res) Hnd (fields_of t sl1)) as (rc & fs' & El & Hns & Hfs). rewrite El.
  exists rc, (set_fields t fs' sl1). split_and!; [done| |done|done|].
  - transitivity sl1.
    + split; [done|simpl; congruence| |simpl; congruence|].
      * intros t' Ht. unfold sl1, touch_table. simpl. by rewrite lookup_insert_ne.
      * intros Hcl. unfold sl1. split; simpl; [|rewrite Es; apply Hcl].
        intros t' fs [[_ <-]|[_ ?]]%lookup_insert_Some; [by apply clean_fields|by eapply Hcl].
    + apply set_fields_touches. intros Hcl n [Hi|Hi]%Hns; [by apply (clean_fields t) in Hcl; apply Hcl|].
      apply list_elem_of_fmap in Hi as (c & -> & Hin). destruct (describes_in _ _ c (conj Hnd Hm) Hin) as (ty & Hn & _).
      eapply Hcl; [unfold sl1; simpl; by rewrite Es|by eexists].
  - unfold cols_of. rewrite Hc. simpl. intros Hs Hb.
    assert (∀ n tu, list_to_map (M := declared) (map (λ c, (col_name c, (col_type c, IS_UNSIGNED (col_flags c)))) (columns res)) !! n
      = Some tu → m2string (fst tu) ≠ None) as Hsup.
    { intros n tu. rewrite Hm, lookup_fmap. intros ((ty & u) & Hn & ->)%fmap_Some. apply Hs in Hn as [Hn _]. by destruct ty. }
    destruct Hfs as [-> Hl].
    { rewrite Forall_forall. intros c Hin. apply (Hsup (col_name c) (col_type c, IS_UNSIGNED (col_flags c))).
      apply elem_of_list_to_map_1; [by rewrite <-list_fmap_compose|]. by apply (list_elem_of_fmap_2 (λ c, (col_name c, (col_type c, IS_UNSIGNED (col_flags c)))) (columns res)). }
    split; [done|]. split; [simpl; by rewrite Es, Hc|unfold cols_of; simpl; by rewrite Es, Hc|].
    intros n. rewrite fields_of_set, Hl, Hm. unfold cols_of. simpl. rewrite Es, Hc. simpl. rewrite lookup_fmap.
    destruct (cols !! n) as [tu|] eqn:En; [done|]. simpl. unfold sl1, touch_table, fields_of. simpl.
    rewrite lookup_insert_eq. simpl. destruct (fields_of t sl !! n) eqn:Ef; unfold fields_of in Ef; rewrite Ef; [|done].
    destruct (Hb n); [by eexists|]. congruence.
Qed.

Lemma command_eq s sl : command s sl = (fst (runCommand s (db sl)), set_db (snd (runCommand s (db sl))) sl).
Proof. unfold command. by destruct (runCommand s (db sl)). Qed.

Lemma command_touches t s sl : schema (snd (runCommand s (db sl))) = schema (db sl) → touches t sl (snd (command s sl)).
Proof.
  intros Hs. rewrite command_eq. split; [by destruct sl|simpl; by rewrite Hs|done|simpl; by rewrite Hs|].
  intros [? ?]. split; simpl; [done|by rewrite Hs].
Qed.

Lemma same_schema_coherent t sl (d' : D) : schema d' = schema (db sl) → coherent t sl → coherent t (set_db d' sl).
Proof. intros Hd [Ce Cs Ct]. split; [simpl; by rewrite Hd|unfold cols_of in *; simpl; by rewrite Hd..]. Qed.

(** A statement that redefines the table, and the table read again. *)
Lemma reload_spec t s sl cols : quotable t → (clean_tables sl → names_quotable cols) →
  schema (snd (runCommand s (db sl))) = <[t := cols]> (schema (db sl)) → ∃ rc sl',
  loadField t (snd (command s sl)) = Ret (rc, sl') ∧ touches t sl sl' ∧ cols_of t sl' = cols ∧
  (supported cols → (∀ n, is_Some (fields_of t sl !! n) → is_Some (cols !! n)) → rc = true ∧ coherent t sl').
Proof.
  intros Hq Hn Hs. rewrite command_eq. set (d1 := snd (runCommand s (db sl))) in *.
  assert (cols_of t (set_db d1 sl) = cols) as Hc by (unfold cols_of; simpl; by rewrite Hs, lookup_insert_eq).
  destruct (loadField_spec t (set_db d1 sl) Hq) as (rc & sl' & E & Ht & Hs' & _ & Hco).
  { simpl. rewrite Hs, lookup_insert_eq. by eexists. }
  rewrite Hc in Hco. exists rc, sl'. split_and!; [done| | |done].
  - transitivity (set_db d1 sl); [|done].
    split; [by destruct sl| |done|intros _; simpl; rewrite Hs, lookup_insert_eq; by eexists|].
    + intros t' Ht'. simpl. by rewrite Hs, lookup_insert_ne.
    + intros Hcl. split; simpl; [apply Hcl|]. rewrite Hs.
      intros t' cols' [[_ <-]|[_ ?]]%lookup_insert_Some; [by apply Hn|by eapply Hcl].
  - unfold cols_of in *. by rewrite Hs'.
Qed.

Lemma coherent_below t sl n : coherent t sl → is_Some (fields_of t sl !! n) → is_Some (cols_of t sl !! n).
Proof.
  intros Hc [f Hf]. pose proof (co_types _ _ Hc n) as Ht. rewrite Hf in Ht.
  destruct (cols_of t sl !! n); [by eexists|done].
Qed.

Lemma supported_insert cols n ty u : supported cols → m2string ty ≠ None → (u = true → n = str "id") →
  supported (<[n := (ty, u)]> cols).
Proof. intros Hs Ht Hu n' tu [[-> <-]|[Hne Hn]]%lookup_insert_Some; [done|eauto]. Qed.

(** The other columns stay as they were. *)
Definition evolves t n sl sl' : Prop := ∀ n', n' ≠ n → cols_of t sl' !! n' = cols_of t sl !! n'.

(** A column defined anew, and the table read again. *)
Lemma define_column_spec t n d s sl cols : quotable t → quotable n → schema (db sl) !! t = Some cols →
  schema (snd (runCommand s (db sl))) = <[t := <[n := (v2m d, false)]> cols]> (schema (db sl)) →
  (∀ n', is_Some (fields_of t sl !! n') → coherent t sl → n' = n ∨ is_Some (cols !! n')) → ∃ rc sl',
  loadField t (snd (command s sl)) = Ret (rc, sl') ∧ touches t sl sl' ∧
  (coherent t sl → coherent t sl' ∧ evolves t n sl sl' ∧ cols_of t sl' !! n = Some (v2m d, false)).
Proof.
  intros Hq Hn Hc Hs Hb. destruct (reload_spec t s sl _ Hq (λ Hcl, names_quotable_insert _ _ _ Hn (proj2 Hcl t cols Hc)) Hs) as (rc & sl' & E & Ht & Hcols & Hco).
  exists rc, sl'. split_and!; [done|done|]. intros Hcoh. split_and!.
  - apply Hco.
    + apply supported_insert; [|by destruct (v2m_known d) as [? ->]|done].
      pose proof (co_supported _ _ Hcoh) as Hsup. unfold cols_of in Hsup. by rewrite Hc in Hsup.
    + intros n' Hn'. destruct (decide (n' = n)) as [->|Hne]; [rewrite lookup_insert_eq; by eexists|].
      rewrite lookup_insert_ne by done. by destruct (Hb n' Hn' Hcoh).
  - intros n' Hne. rewrite Hcols, lookup_insert_ne by done. unfold cols_of. by rewrite Hc.
  - by rewrite Hcols, lookup_insert_eq.
Qed.

Lemma add_missing_spec t n d sl : quotable t → quotable n → ∃ rc sl',
  add_missing t n (v2m d) sl = Ret (rc, sl') ∧ touches t sl sl' ∧
  (coherent t sl → coherent t sl' ∧ evolves t n sl sl' ∧
   (rc = true → ∃ tu, cols_of t sl' !! n = Some tu ∧ (cols_of t sl !! n = Some tu ∨ tu = (v2m d, false)))).
Proof.
  intros Hq Hn. unfold add_missing. destruct (fields_of t sl !! n) as [f|] eqn:Ef.
  { exists true, sl. split_and!; [done|reflexivity|]. intros Hco. split_and!; [done|by intros ??|]. intros _.
    destruct (coherent_below t sl n Hco) as [tu E]; [by rewrite Ef|]. exists tu. auto. }
  destruct (v2m_known d) as [type Ety]. unfold addField. rewrite Ety, command_eq.
  destruct (fst _) eqn:Ec.
  - destruct (law_add D F t n _ type (db sl) Hq Hn Ety Ec) as (cols & Hc & Hnew & Hs).
    destruct (define_column_spec t n d _ sl cols Hq Hn Hc Hs) as (rc & sl' & E & Ht & Hco).
    { intros n' Hn' Hcoh. right. apply (coherent_below _ _ _ Hcoh) in Hn'. unfold cols_of in Hn'. by rewrite Hc in Hn'. }
    rewrite command_eq in E. cbn [snd] in E. rewrite E. simpl. exists true, sl'. split_and!; [done|done|].
    intros (H1' & H2' & H3')%Hco. eauto 10.
  - destruct (law_failed D F _ _ Ec) as [Hs _]. eexists false, _. split_and!; [done| |].
    + replace (set_db _ sl) with (snd (command (add_field_sql t n type) sl)) by by rewrite command_eq.
      by apply command_touches.
    + intros Hco. split_and!; [by apply same_schema_coherent| |done]. intros n' _. unfold cols_of. simpl. by rewrite Hs.
Qed.

(** [desc_fields[name]] of a known column leaves the description as it is. *)
Lemma describe_known t n sl : coherent t sl → is_Some (cols_of t sl !! n) →
  let f := default no_field (fields_of t sl !! n) in
  coherent t (set_fields t (<[n := f]> (fields_of t sl)) sl) ∧
  Some (ftype f) = (λ tu, report (fst tu)) <$> cols_of t sl !! n.
Proof.
  intros Hco [tu Htu]. pose proof (co_types _ _ Hco n) as Hty. rewrite Htu in *.
  destruct (fields_of t sl !! n) as [f|] eqn:Ef; [|done]. simpl. split; [|done].
  apply set_fields_coherent; [done|]. intros n'. destruct (decide (n' = n)) as [->|];
    [by rewrite lookup_insert_eq, Ef|by rewrite lookup_insert_ne].
Qed.

Lemma alter_unsuitable_spec t n d sl : quotable t → quotable n → ∃ rc sl',
  alter_unsuitable t n (v2m d) sl = Ret (rc, sl') ∧ touches t sl sl' ∧
  (coherent t sl → is_Some (cols_of t sl !! n) → coherent t sl' ∧ evolves t n sl sl' ∧
   (rc = true → ∃ tu, cols_of t sl' !! n = Some tu ∧ (tu = (v2m d, false) ∨
     cols_of t sl !! n = Some tu ∧ m2m (report (fst tu)) (v2m d) = Some false))).
Proof.
  intros Hq Hn. unfold alter_unsuitable. set (f := default no_field _).
  pose proof (set_fields_touches t (<[n := f]> (fields_of t sl)) sl
    (λ Hcl, names_quotable_insert _ _ _ Hn (clean_fields t sl Hcl))) as Ht1.
  pose proof (describe_known t n sl) as Hknown. fold f in Hknown. cbn zeta in Hknown.
  set (sl1 := set_fields _ _ sl) in *. unfold evolves. change (cols_of t sl) with (cols_of t sl1) in *. clearbody sl1.
  destruct (m2m (ftype f) (v2m d)) as [[]|] eqn:Em.
  - destruct (v2m_known d) as [type Ety]. unfold alterField. rewrite Ety, command_eq. destruct (fst _) eqn:Ec.
    + destruct (law_modify D F t n _ type (db sl1) Hq Hn Ety Ec) as (cols & Hc & Hold & Hs).
      destruct (define_column_spec t n d _ sl1 cols Hq Hn Hc Hs) as (rc & sl' & E & Ht & Hco).
      { intros n' Hn' Hcoh. right. apply (coherent_below _ _ _ Hcoh) in Hn'. unfold cols_of in Hn'. by rewrite Hc in Hn'. }
      rewrite command_eq in E. cbn [snd] in E. rewrite E. simpl. exists true, sl'.
      split_and!; [done|by transitivity sl1|]. intros Hcoh Hi. destruct (Hknown Hcoh Hi) as [H1' _].
      destruct (Hco H1') as (H2' & H3' & H4'). eauto 10.
    + destruct (law_failed D F _ _ Ec) as [Hs _]. eexists false, _. split_and!; [done| |].
      * transitivity sl1; [done|].
        replace (set_db _ sl1) with (snd (command (alter_field_sql t n type) sl1)) by by rewrite command_eq.
        by apply command_touches.
      * intros Hco Hi. destruct (Hknown Hco Hi) as [H1' _]. split_and!; [by apply same_schema_coherent| |done].
        intros n' _. unfold cols_of. simpl. by rewrite Hs.
  - exists true, sl1. split_and!; [done|done|]. intros Hco Hi. destruct (Hknown Hco Hi) as [H1' H2'].
    split_and!; [done|by intros n'|]. intros _. destruct Hi as [tu Htu]. exists tu. split; [done|]. right. split; [done|].
    rewrite Htu in H2'. injection H2' as <-. done.
  - exists false, sl1. split_and!; [done|done|]. intros Hco Hi. destruct (Hknown Hco Hi) as [H1' _].
    split_and!; [done|by intros n'|done].
Qed.

(** ** The columns accept the values *)

(** An UNSIGNED column takes no negative number. *)
Definition sign_ok (tu : field_type * bool) d : Prop :=
  match d with VInteger z => snd tu = true → 0 ≤ z | _ => True end.
Definition in_width d : Prop :=
  match d with VInteger z => sfits 64 z | VString s => Z.of_nat (length s) < 2 ^ 32 | _ => True end.

Lemma accepts_new d : in_width d → accepts (v2m d, false) d.
Proof.
  unfold v2m, accepts. destruct d as [z|f|b|s]; simpl; intros Hw; try done.
  - destruct (Z.ltb_spec (2 ^ 31 - 1) z); destruct (Z.ltb_spec z (- 2 ^ 31)); simpl; try done.
    split; [|done]. unfold sfits. change (32 - 1) with 31. lia.
  - repeat case_match; rewrite ?Z.ltb_lt, ?Z.ltb_ge in *; try done.
Qed.

Lemma accepts_kept tu d : in_width d → sign_ok tu d → m2m (report (fst tu)) (v2m d) = Some false → accepts tu d.
Proof.
  destruct tu as [ty u]. unfold accepts, v2m. simpl. destruct d as [z|f|b|s]; simpl; intros Hw Hs.
  - destruct (Z.ltb_spec (2 ^ 31 - 1) z); destruct (Z.ltb_spec z (- 2 ^ 31)); destruct ty; simpl; try done.
    intros _. split; [|done]. unfold sfits. change (32 - 1) with 31. lia.
  - by destruct ty.
  - by destruct ty.
  - unfold DEF_VARCHAR_LENGTH. destruct (Z.ltb_spec 65535 (Z.of_nat (length s))); [by destruct ty|].
    destruct (Z.ltb_spec 128 (Z.of_nat (length s))); destruct ty; done || lia.
Qed.

(** What [serialize] establishes for one value. *)
Definition taken t sl (nv : list Z * Value F) : Prop :=
  ∃ tu, cols_of t sl !! fst nv = Some tu ∧ (sign_ok tu (data (snd nv)) → accepts tu (data (snd nv))).

Lemma prepare_value_spec t (nv : list Z * Value F) sl : quotable t → quotable (fst nv) → ∃ rc sl',
  prepare_value t nv sl = Ret (rc, sl') ∧ touches t sl sl' ∧
  (coherent t sl → coherent t sl' ∧ evolves t (fst nv) sl sl' ∧
   (in_width (data (snd nv)) → rc = true → taken t sl' nv)).
Proof.
  intros Hq Hn. unfold prepare_value. set (d := data (snd nv)).
  destruct (add_missing_spec t (fst nv) d sl Hq Hn) as (rc1 & sl1 & -> & Ht1 & Hco1). simpl. destruct rc1.
  - destruct (alter_unsuitable_spec t (fst nv) d sl1 Hq Hn) as (rc2 & sl2 & -> & Ht2 & Hco2). exists rc2, sl2.
    split_and!; [done|by transitivity sl1|]. intros Hco. destruct (Hco1 Hco) as (Ha & Hb & Hc).
    destruct (Hc eq_refl) as (tu & Htu & _). destruct (Hco2 Ha) as (Ha2 & Hb2 & Hc2); [by rewrite Htu|].
    split_and!; [done|intros n' Hne; rewrite Hb2, Hb by done; done|]. intros Hw ->.
    destruct (Hc2 eq_refl) as (tu2 & E & Hor). exists tu2. split; [done|]. intros Hsign.
    destruct Hor as [->|[_ Hm]]; [by apply accepts_new|by apply accepts_kept].
  - exists false, sl1. split_and!; [done|done|]. intros Hco. by destruct (Hco1 Hco) as (Ha & Hb & _).
Qed.

(** The values of an entity under distinct names. *)
Lemma prepare_values_spec t (vs : list (list Z * Value F)) : quotable t → Forall (λ nv, quotable (fst nv)) vs →
  NoDup (map fst vs) → ∀ text sl, ∃ r sl',
  prepare_values t vs text sl = Ret (r, sl') ∧ touches t sl sl' ∧
  (∀ text', r = Some text' → text' = fold_left (λ text nv, add_value nv text) vs text) ∧
  (coherent t sl → coherent t sl' ∧ (∀ n, n ∉ map fst vs → cols_of t sl' !! n = cols_of t sl !! n) ∧
   (Forall (λ nv, in_width (data (snd nv))) vs → r ≠ None → Forall (taken t sl') vs)).
Proof.
  intros Hq Hns. induction Hns as [|nv vs Hn Hns IH]; intros Hnd text sl.
  { exists (Some text), sl. split_and!; [done|reflexivity|by intros ? [= ->]|]. intros Hco. split_and!; [done|done|constructor]. }
  simpl in Hnd. apply NoDup_cons in Hnd as [Hnot Hnd]. simpl.
  destruct (prepare_value_spec t nv sl Hq Hn) as (rc & sl1 & -> & Ht1 & Hco1). simpl. destruct rc.
  - destruct (IH Hnd (add_value nv text) sl1) as (r & sl2 & -> & Ht2 & Htext & Hco2). exists r, sl2.
    split_and!; [done|by transitivity sl1|done|]. intros Hco. destruct (Hco1 Hco) as (Ha & Hb & Hc).
    destruct (Hco2 Ha) as (Ha2 & Hb2 & Hc2). split_and!; [done| |].
    + intros n [Hn1 Hn2]%not_elem_of_cons. by rewrite Hb2, Hb.
    + intros [Hw Hws]%Forall_cons Hr. constructor; [|by apply Hc2].
      destruct (Hc Hw eq_refl) as (tu & Htu & Hacc). exists tu. by rewrite Hb2.
  - exists None, sl1. split_and!; [done|done|done|]. intros Hco. destruct (Hco1 Hco) as (Ha & Hb & _).
    split_and!; [done| |done]. intros n [Hn1 _]%not_elem_of_cons. by apply Hb.
Qed.

(** ** [serialize] *)

(** The invariant of [tables]: a description is the one the database has. *)
Definition sound t sl : Prop := tables sl !! t = None ∨ coherent t sl.

Lemma sound_other t t' sl sl' : touches t sl sl' → t' ≠ t → sound t' sl → sound t' sl'.
Proof.
  intros [_ Hs Ht _ _] Hne [Hn|[Ce Cs Ct]]; [left; by rewrite Ht|right].
  split; unfold fields_of, cols_of in *; rewrite ?Hs, ?Ht; done.
Qed.

Lemma touch_table_coherent t sl : coherent t sl → coherent t (touch_table t sl).
Proof. intros Hco. by apply (set_fields_coherent t (fields_of t sl)). Qed.

Lemma created_supported (vs : list (list Z * Value F)) : supported (created vs).
Proof.
  apply supported_insert; [|done..]. intros n tu Hn. apply elem_of_list_to_map_2, list_elem_of_fmap in Hn as (nv & [= _ ->] & _).
  simpl. split; [|done]. by destruct (v2m_known (data (snd nv))) as [? ->].
Qed.

Lemma created_names (vs : list (list Z * Value F)) : Forall (λ nv, quotable (fst nv)) vs → names_quotable (created vs).
Proof.
  intros Hvs. apply names_quotable_insert; [apply (bool_decide_unpack _); vm_compute; exact I|].
  intros n [tu Hn]. apply elem_of_list_to_map_2, list_elem_of_fmap in Hn as (nv & [= -> _] & Hin).
  rewrite Forall_forall in Hvs. by apply Hvs.
Qed.

Definition names_ok (e : Entity F) : Prop := ∀ n, is_Some (values e !! n) → quotable n.
Lemma names_ok_walk e : names_ok e → Forall (λ nv : list Z * Value F, quotable (fst nv)) (walk (values e)).
Proof.
  intros He. rewrite Forall_forall. intros [n v] Hin. rewrite (walk_all (values e)), elem_of_map_to_list in Hin.
  apply He. by exists v.
Qed.

Lemma ensure_table_spec t e sl : quotable t → names_ok e → ∃ rc sl',
  ensure_table t e sl = Ret (rc, sl') ∧ touches t sl sl' ∧
  (sound t sl → sound t sl' ∧ (rc = true → coherent t sl')).
Proof.
  intros Hq He. unfold ensure_table. destruct (tables sl !! t) as [fs|] eqn:Et.
  { exists true, sl. split_and!; [done|reflexivity|]. intros [?|?]; [congruence|]. split; [by right|done]. }
  unfold createTable. rewrite command_eq. destruct (fst _) eqn:Ec.
  - destruct (law_create D F t _ (db sl) Hq (names_ok_walk e He) (walk_NoDup _) Ec) as [_ Hs].
    destruct (reload_spec t _ sl _ Hq (λ _, created_names _ (names_ok_walk e He)) Hs) as (rc & sl' & E & Ht & _ & Hco). rewrite command_eq in E. cbn [snd] in E.
    rewrite E. exists rc, sl'. split_and!; [done|done|]. intros _.
    destruct Hco as [-> Hco]; [apply created_supported| |by split; [right|]].
    intros n. unfold fields_of. rewrite Et. by intros [].
  - destruct (law_failed D F _ _ Ec) as [Hs _]. eexists false, _. split_and!; [done| |].
    + replace (set_db _ sl) with (snd (command (create_sql t (walk (values e))) sl)) by by rewrite command_eq.
      by apply command_touches.
    + intros _. split; [by left|done].
Qed.

(** [serialize] returns; it keeps the invariant; when it succeeds the columns take the
    values and the INSERT statement was the last one. *)
Lemma serialize_spec t e sl : quotable t → names_ok e → ∃ rc sl',
  serialize t e sl = Ret (rc, sl') ∧ touches t sl sl' ∧
  (sound t sl → sound t sl' ∧ (rc = true → coherent t sl' ∧
    (Forall (λ nv : list Z * Value F, in_width (data (snd nv))) (walk (values e)) → Forall (taken t sl') (walk (values e))) ∧
    ∃ d1 : D, schema d1 = schema (db sl') ∧
      runCommand (insert_sql t (fold_left (λ text nv, add_value nv text) (walk (values e)) no_insert)) d1 = (true, db sl'))).
Proof.
  intros Hq He. unfold serialize.
  destruct (ensure_table_spec t e sl Hq He) as (rc1 & sl1 & -> & Ht1 & Hs1). simpl. destruct rc1.
  2:{ exists false, sl1. split_and!; [done|done|]. intros Hs. by split; [apply Hs1|]. }
  destruct (prepare_values_spec t (walk (values e)) Hq (names_ok_walk e He) (walk_NoDup _) no_insert (touch_table t sl1))
    as (r & sl2 & -> & Ht2 & Htext & Hco2).
  assert (touches t sl sl2) as Ht12 by (etransitivity; [done|]; etransitivity; [|done]; apply set_fields_touches, clean_fields).
  assert (sound t sl → coherent t sl2 ∧ (Forall (λ nv : list Z * Value F, in_width (data (snd nv))) (walk (values e)) →
    r ≠ None → Forall (taken t sl2) (walk (values e)))) as Hco.
  { intros Hs. destruct (Hs1 Hs) as [_ Hc]. destruct (Hco2 (touch_table_coherent t sl1 (Hc eq_refl))) as (? & _ & ?). by split. }
  simpl. destruct r as [text|].
  - rewrite command_eq, (Htext text eq_refl). set (sq := insert_sql _ _). set (q := runCommand sq (db sl2)).
    assert (schema (snd q) = schema (db sl2)) as Hins by by apply (law_insert D F).
    exists (fst q), (set_db (snd q) sl2). split_and!; [done| |].
    + transitivity sl2; [done|]. replace (set_db (snd q) sl2) with (snd (command sq sl2)) by by rewrite command_eq.
      by apply command_touches.
    + intros [Hc Hw]%Hco. assert (coherent t (set_db (snd q) sl2)) as Hc' by by apply same_schema_coherent.
      split; [by right|]. intros Hq1. split_and!; [done| |].
      * intros Hws. specialize (Hw Hws ltac:(done)). eapply Forall_impl; [exact Hw|]. intros nv (tu & Htu & Ha).
        exists tu. split; [|done]. unfold cols_of in *. simpl. by rewrite Hins.
      * exists (db sl2). split; [done|]. fold q. rewrite <-Hq1. by destruct q.
  - exists false, sl2. split_and!; [done|done|]. intros Hs. split; [right; by apply Hco|done].
Qed.

(** ** Reading a row back *)

Lemma stoul_dec_int z : fits 64 z → stoul (dec_int z) = Some z.
Proof.
  intros [H1' H2']. unfold stoul. rewrite <-(app_nil_r (dec_int z)), strtol10_dec_int by done.
  rewrite Z.abs_eq by done. rewrite (proj2 (Z.ltb_lt z (2 ^ 64))) by done. f_equal. by apply wrap_id.
Qed.

Lemma read_integer z u : sfits 64 z → (u = true → 0 ≤ z) →
  (if u then stoul (dec_int z) else stol (dec_int z)) = Some z ∧ s64 z = z.
Proof.
  intros Hz Hu. split; [|by apply swrap_id]. destruct u; [|by apply sto_dec_int]. apply stoul_dec_int.
  unfold fits, sfits in *. change (64 - 1) with 63 in Hz. specialize (Hu eq_refl). lia.
Qed.

Lemma storable_no_nul (d : value_data F) : storable (show_cell D) d → no_nul (cell_text (show_cell D) d).
Proof.
  destruct d as [z|f|b|s]; simpl; intros Hd; 
    [apply dec_int_no_nul|by destruct Hd|destruct b; [apply (dec_int_no_nul 1)|apply (dec_int_no_nul 0)]|].
  destruct Hd as [Hd _]. unfold storable_string in Hd. rewrite Forall_forall in Hd. intros Hin. destruct (Hd 0 Hin). lia.
Qed.

Lemma m2value_cell tu d : accepts tu d → storable (show_cell D) d →
  m2value (report (fst tu)) (c_str (cell_text (show_cell D) d)) (snd tu) = Some (read_as (fst tu) d).
Proof.
  intros Ha Hs. rewrite c_str_id by by apply storable_no_nul. destruct tu as [ty u], d as [z|f|b|s]; simpl in *.
  - destruct ty; try done; destruct Ha as [Hz Hu]; destruct (read_integer z u Hs Hu) as [E1 E2];
      cbn [report m2value]; rewrite E1; cbn [mbind option_bind]; by rewrite E2.
  - destruct ty; try done. simpl. by destruct Hs as [-> _].
  - unfold accepts in Ha; simpl in Ha. destruct ty; try done; destruct b; simpl; try done; by destruct u.
  - by destruct ty.
Qed.

Lemma load_row_spec (fs : fields) (row : gmap (list Z) (list Z)) cs : NoDup (map col_name cs) →
  (∀ c, c ∈ cs → is_Some (row !! col_name c)) → ∀ e : Entity F, ∃ e',
  load_row fs cs (map (λ c, row !! col_name c) cs) e = Ret e' ∧ eid e' = eid e ∧
  (∀ n, n ∉ map col_name cs → values e' !! n = values e !! n) ∧
  (∀ c s d, c ∈ cs → row !! col_name c = Some s → is_Some (fs !! col_name c) →
    m2value (col_type c) (c_str s) (IS_UNSIGNED (col_flags c)) = Some d →
    values e' !! col_name c = Some (MkValue d true)).
Proof.
  induction cs as [|c cs IH]; intros Hnd Hrow e.
  { exists e. split_and!; [done..|]. intros c s d Hin. by apply not_elem_of_nil in Hin. }
  simpl in Hnd. apply NoDup_cons in Hnd as [Hn Hnd].
  destruct (Hrow c) as [s Hs]; [left|]. simpl. rewrite Hs.
  assert (∃ e1, load_cell fs c (Some s) e = Ret e1 ∧ eid e1 = eid e ∧
    (∀ n, n ≠ col_name c → values e1 !! n = values e !! n) ∧
    (∀ d, is_Some (fs !! col_name c) → m2value (col_type c) (c_str s) (IS_UNSIGNED (col_flags c)) = Some d →
      values e1 !! col_name c = Some (MkValue d true))) as (e1 & -> & Hid & Hother & Hself).
  { unfold load_cell. destruct (fs !! col_name c); [|exists e; split_and!; [done..|by intros ? []]].
    destruct (m2string (col_type c)) eqn:Et; [|exists e; split_and!; [done..|intros d _; by destruct (col_type c)]].
    destruct (m2value _ _ _) as [d|].
    - exists (assign (col_name c) d e). split_and!; [done|apply assign_eid| |].
      + intros n Hne. by rewrite assign_values, lookup_insert_ne.
      + intros d' _ [= <-]. by rewrite assign_values, lookup_insert_eq.
    - exists (snd (GetValue (col_name c) e)). split_and!; [done|apply GetValue_eid| |done].
      intros n Hne. rewrite GetValue_values. destruct (values e !! col_name c); [done|]. by rewrite lookup_insert_ne. }
  simpl. destruct (IH Hnd (λ c Hin, Hrow c (list_elem_of_further _ _ _ Hin)) e1) as (e2 & -> & Hid2 & Hother2 & Hself2).
  exists e2. split_and!; [done|congruence| |].
  - intros n [Hn1 Hn2]%not_elem_of_cons. by rewrite Hother2, Hother.
  - intros c' s' d Hin Hs' Hfs Hd. apply elem_of_cons in Hin as [->|Hin]; [|by eapply Hself2].
    rewrite Hother2 by done. simplify_eq. by apply Hself.
Qed.

(** [unserialize] finds a row of a known table and gives its values back. *)
Lemma unserialize_spec t id row sl : quotable t → fits 64 id → coherent t sl → is_Some (cols_of t sl !! str "id") →
  cells (db sl) t id = Some row → ∃ e' sl', unserialize t id sl = Ret (Some e', sl') ∧ eid e' = id ∧
  ∀ n tu d, cols_of t sl !! n = Some tu → accepts tu d → storable (show_cell D) d →
    row !! n = Some (cell_text (show_cell D) d) → values e' !! n = Some (MkValue (read_as (fst tu) d) true).
Proof.
  intros Hq Hid [[cols Hc] Hsup Hty] Hidc Hrow. unfold cols_of in *. rewrite Hc in *. cbn [default] in *.
  pose proof (law_select_id D F t id (db sl) Hq Hid) as Ha. unfold answers in Ha.
  unfold unserialize. cbn [touch_table set_tables db].
  destruct (runQuery (select_id t id) (db sl)) as [r d'] eqn:E. destruct Ha as (_ & _ & Hr).
  rewrite Hc, bool_decide_true in Hr by by repeat constructor. destruct Hr as (res & -> & Hdesc & Hrows).
  rewrite Hrow in Hrows. rewrite Hrows.
  destruct (load_row_spec (fields_of t sl) row (columns res) (proj1 Hdesc)) with (e := new_Entity (F := F) id)
    as (e' & El & He & _ & Hvals).
  { intros c Hin. destruct (describes_in _ _ c Hdesc Hin) as (ty & Hn & _). pose proof (law_cells D F (db sl) t id row cols Hrow Hc) as Hd.
    apply elem_of_dom. rewrite Hd. apply elem_of_dom. by rewrite Hn. }
  exists e'. eexists. cbv beta iota zeta. rewrite fields_of_touch. rewrite El. split_and!; [reflexivity|done|].
  intros n tu d Hn Hacc Hst Hcell.
  destruct (describes_out _ _ n tu Hdesc Hn) as (c & Hin & -> & Hu & Hct).
  apply (Hvals c (cell_text (show_cell D) d)); [done|done| |].
  - specialize (Hty (col_name c)). rewrite Hn in Hty. destruct (fields_of t sl !! col_name c); [by eexists|done].
  - rewrite Hct, <-Hu. by apply m2value_cell.
Qed.

Lemma walk_forall (m : gmap (list Z) (Value F)) (P : list Z → Value F → Prop) :
  (∀ n v, m !! n = Some v → P n v) ↔ Forall (λ nv, P (fst nv) (snd nv)) (walk m).
Proof.
  rewrite Forall_forall. split.
  - intros Hm [n v] Hin. rewrite (walk_all m), elem_of_map_to_list in Hin. by apply Hm.
  - intros Hw n v Hn. apply (Hw (n, v)). by rewrite (walk_all m), elem_of_map_to_list.
Qed.

Lemma storable_width d : storable (show_cell D) d → in_width d.
Proof. destruct d as [z|f|b|s]; simpl; tauto. Qed.

(** Only [id] can be UNSIGNED. *)
Lemma taken_accepts t sl (e : Entity F) n v : coherent t sl → (∀ z b, values e !! str "id" = Some (MkValue (VInteger z) b) → 0 ≤ z) →
  values e !! n = Some v → taken t sl (n, v) → ∃ tu, cols_of t sl !! n = Some tu ∧ accepts tu (data v).
Proof.
  intros Hco Hid Hn (tu & Htu & Ha). exists tu. split; [done|]. apply Ha. destruct v as [[z|f|b|s] dirty]; try done.
  simpl. intros Hu. destruct (co_supported _ _ Hco n tu Htu) as [_ Hui]. rewrite (Hui Hu) in Hn. by eapply Hid.
Qed.

(** C24 (type): the columns follow the values.  For clean names [serialize] returns whatever
    the database answers; the descriptions the server keeps stay those of the database, the
    columns of the other tables are left alone, and when it succeeds every member of the
    entity has a column of a type that holds its value without conversion: it was created,
    added or altered for it, or it was already wide enough. *)
Theorem serialize_fits t (e : Entity F) sl : quotable t → names_ok e → (∀ t', sound t' sl) →
  (∀ n v, values e !! n = Some v → in_width (data v)) →
  (∀ z b, values e !! str "id" = Some (MkValue (VInteger z) b) → 0 ≤ z) → ∃ rc sl',
  serialize t e sl = Ret (rc, sl') ∧ (∀ t', sound t' sl') ∧
  (∀ t', t' ≠ t → schema (db sl') !! t' = schema (db sl) !! t') ∧
  (rc = true → ∃ cols, schema (db sl') !! t = Some cols ∧
    ∀ n v, values e !! n = Some v → ∃ tu, cols !! n = Some tu ∧ accepts tu (data v)).
Proof.
  intros Hq He Hs Hw Hid. destruct (serialize_spec t e sl Hq He) as (rc & sl' & E & Ht & Hok).
  destruct (Hok (Hs t)) as [Hst Hrc]. exists rc, sl'. split_and!; [done| |apply Ht|].
  - intros t'. destruct (decide (t' = t)) as [->|Hne]; [done|]. by eapply sound_other.
  - intros Hr. destruct (Hrc Hr) as (Hco & Htk & _). pose proof Hco as [[cols Hc] _ _].
    exists cols. split; [done|]. intros n v Hn.
    apply (walk_forall _ (λ _ v, in_width (data v))) in Hw. specialize (Htk Hw).
    apply (walk_forall (values e) (λ n v, taken t sl' (n, v))) with (n := n) (v := v) in Hn as Hnv.
    + destruct (taken_accepts t sl' e n v Hco Hid Hn Hnv) as (tu & Htu & Ha). exists tu. split; [|done].
      unfold cols_of in Htu. by rewrite Hc in Htu.
    + eapply Forall_impl; [exact Htk|]. by intros [].
Qed.

(** The row a successful [serialize] leaves. *)
Lemma serialize_cells t (e : Entity F) sl sl' id b : quotable t → names_ok e → sound t sl → 0 ≤ id →
  values e !! str "id" = Some (MkValue (VInteger id) b) →
  (∀ n v, values e !! n = Some v → storable (show_cell D) (data v)) →
  serialize t e sl = Ret (true, sl') →
  coherent t sl' ∧ (∀ n v, values e !! n = Some v → ∃ tu, cols_of t sl' !! n = Some tu ∧ accepts tu (data v)) ∧
  ∃ row, cells (db sl') t id = Some row ∧
    ∀ n v, values e !! n = Some v → row !! n = Some (cell_text (show_cell D) (data v)).
Proof.
  intros Hq He Hs Hid Hidv Hst E. destruct (serialize_spec t e sl Hq He) as (rc & sl1 & E1 & Ht & Hok).
  rewrite E in E1. injection E1 as <- <-. destruct (Hok Hs) as [_ Hrc]. destruct (Hrc eq_refl) as (Hco & Htk & d1 & Hd1 & Hins).
  assert (∀ n v, values e !! n = Some v → ∃ tu, cols_of t sl' !! n = Some tu ∧ accepts tu (data v)) as Hacc.
  { intros n v Hn. apply (taken_accepts t sl' e); [done|intros z b' Hz; rewrite Hidv in Hz; by injection Hz as <- <-|done|].
    apply (walk_forall (values e) (λ n v, taken t sl' (n, v))); [|done].
    eapply Forall_impl; [|by intros [] Hx; exact Hx]. apply Htk.
    apply (walk_forall _ (λ _ v, in_width (data v))). intros n' v' Hn'. by eapply storable_width, Hst. }
  split_and!; [done..|]. pose proof (co_exists _ _ Hco) as [cols Hc].
  destruct (law_insert_cells D F t (walk (values e)) d1 cols id) as (row & Hrow & Hcells);
    [done|apply walk_NoDup|by rewrite Hd1| | |by rewrite Hins|].
  - apply (walk_forall _ (λ n v, quotable n ∧ storable (show_cell D) (data v) ∧ ∃ tu, cols !! n = Some tu ∧ accepts tu (data v))).
    intros n v Hn. destruct (Hacc n v Hn) as (tu & Htu & Ha). unfold cols_of in Htu. rewrite Hc in Htu.
    split_and!; [apply He; by eexists|by eapply Hst|by exists tu].
  - exists b. by rewrite (walk_all (values e)), elem_of_map_to_list.
  - rewrite Hins in Hrow. exists row. split; [done|]. by apply (walk_forall _ (λ n v, row !! n = Some (cell_text (show_cell D) (data v)))).
Qed.

(** A server that starts on a table made by the server. *)
Lemma restart_spec t sl : quotable t → coherent t sl → ∃ sl2,
  loadField t (new_Slot (F := F) (shard sl) (sid sl) (db sl)) = Ret (true, sl2) ∧ coherent t sl2 ∧
  cols_of t sl2 = cols_of t sl ∧ cells (db sl2) = cells (db sl) ∧ entities sl2 = ∅.
Proof.
  intros Hq Hco. destruct (loadField_spec t (new_Slot (F := F) (shard sl) (sid sl) (db sl)) Hq (co_exists _ _ Hco))
    as (rc & sl2 & E & Ht & Hs & Hc & Hco2).
  destruct Hco2 as [-> Hco2]; [apply Hco|by intros n []|]. exists sl2. split_and!; [done|done| |done|by rewrite (touch_slot _ _ _ Ht)].
  unfold cols_of. by rewrite Hs.
Qed.

(** C12 (roundtrip): what [serialize] stores is there after a restart.  When it succeeds for
    an entity whose member [id] is its number and whose values can be stored, a server that
    starts on the same database loads the columns of the table and [unserialize] builds an
    entity with every member of the stored one, with its type and value, marked dirty; only
    a truth value kept in an integer column comes back as 0 or 1. *)
Theorem record_persists t (e : Entity F) sl sl' id b : quotable t → names_ok e → sound t sl → 0 ≤ id < 2 ^ 63 →
  values e !! str "id" = Some (MkValue (VInteger id) b) →
  (∀ n v, values e !! n = Some v → storable (show_cell D) (data v)) →
  serialize t e sl = Ret (true, sl') → ∃ sl2 e' sl3,
  loadField t (new_Slot (F := F) (shard sl') (sid sl') (db sl')) = Ret (true, sl2) ∧
  unserialize t id sl2 = Ret (Some e', sl3) ∧ eid e' = id ∧
  ∀ n v, values e !! n = Some v → ∃ tu, cols_of t sl' !! n = Some tu ∧ accepts tu (data v) ∧
    values e' !! n = Some (MkValue (read_as (fst tu) (data v)) true).
Proof.
  intros Hq He Hs Hid Hidv Hst E.
  destruct (serialize_cells t e sl sl' id b) as (Hco & Hacc & row & Hrow & Hcells); [done..|lia|done|done|done|].
  destruct (restart_spec t sl' Hq Hco) as (sl2 & El & Hco2 & Hcols & Hc2 & _).
  destruct (unserialize_spec t id row sl2 Hq) as (e' & sl3 & Eu & He' & Hv);
    [unfold fits; lia|done|destruct (Hacc _ _ Hidv) as (tu & Htu & _); rewrite Hcols, Htu; by eexists|by rewrite Hc2|].
  exists sl2, e', sl3. split_and!; [done..|]. intros n v Hn. destruct (Hacc n v Hn) as (tu & Htu & Ha).
  exists tu. split_and!; [done..|]. apply Hv; [by rewrite Hcols|done|by eapply Hst|by apply Hcells].
Qed.
End Steps.

(** ** At a concrete database *)

Definition demo_record : Entity Z := assign (str "id") (VInteger 9) demo_entity.
Definition demo_slot : SlotDatabase Z toy := new_Slot 1 0 new_toy.

Lemma demo_names : names_ok demo_record.
Proof.
  intros n [v Hn]. revert n v Hn. apply (walk_forall _ (λ n _, quotable n)).
  apply (bool_decide_unpack _). vm_compute. exact I.
Qed.

Lemma demo_values n v : values demo_record !! n = Some v → storable dec_int (data v).
Proof.
  revert n v. apply (walk_forall _ (λ _ v, storable dec_int (data v))).
  set (w := walk _). vm_compute in w. subst w.
  repeat (apply Forall_cons; split; [simpl; (split; [apply (bool_decide_unpack _); vm_compute; exact I|done]) || done|]). constructor.
Qed.

Lemma demo_sound t : sound t demo_slot.
Proof. by left. Qed.

(** The players table with one row. *)
Definition stored_slot : SlotDatabase Z toy :=
  match serialize (str "players") demo_record demo_slot with Ret (_, sl) => sl | _ => demo_slot end.

Lemma serialize_fits_witness : ∃ sl cols, serialize (str "players") demo_record demo_slot = Ret (true, sl) ∧
  schema (db sl) !! str "players" = Some cols ∧ ∃ tu, cols !! str "name" = Some tu ∧ accepts (F := Z) tu (VString (str "Ann")).
Proof.
  destruct (serialize_fits (str "players") demo_record demo_slot) as (rc & sl' & E & _ & _ & Hok).
  - apply (bool_decide_unpack _). vm_compute. exact I.
  - apply demo_names.
  - apply demo_sound.
  - intros n v Hn. eapply (storable_width (D := toy)), demo_values, Hn.
  - intros z b Hz. vm_compute in Hz. by injection Hz as <- _.
  - assert (rc = true) as ->.
    { apply (f_equal (λ o, match o with Ret (rc, _) => rc | _ => false end)) in E. vm_compute in E. done. }
    destruct (Hok eq_refl) as (cols & Hc & Hv). exists sl', cols. split_and!; [done..|].
    apply (Hv _ (MkValue (VString (str "Ann")) true)). by vm_compute.
Defined.

Lemma record_persists_witness : ∃ sl sl2 e' sl3, serialize (str "players") demo_record demo_slot = Ret (true, sl) ∧
  unserialize (str "players") 9 sl2 = Ret (Some e', sl3) ∧ values e' !! str "name" = Some (MkValue (VString (str "Ann")) true).
Proof.
  destruct (serialize (str "players") demo_record demo_slot) as [[rc sl]| |] eqn:E; [|by vm_compute in E..].
  assert (rc = true) as ->.
  { apply (f_equal (λ o, match o with Ret (rc, _) => rc | _ => false end)) in E. vm_compute in E. done. }
  destruct (record_persists (str "players") demo_record demo_slot sl 9 true) as (sl2 & e' & sl3 & _ & Eu & _ & Hv).
  - apply (bool_decide_unpack _). vm_compute. exact I.
  - apply demo_names.
  - apply demo_sound.
  - lia.
  - by vm_compute.
  - apply demo_values.
  - exact E.
  - exists sl, sl2, e', sl3. split_and!; [reflexivity|exact Eu|].
    destruct (Hv (str "name") (MkValue (VString (str "Ann")) true)) as (tu & _ & _ & ->); [by vm_compute|].
    by destruct tu as [[] ?].
Defined.
