(* ===== verification/RecordService.v ===== *)
(** * Shards and the service of the record server

    RecordProcess (its requests, answers and start), RecordProcessManager.cpp and
    RecordService.cpp of src/server/recordserver/src: from a message on a connection to the
    slot that works on it, and from the slot back to the connection.  The worker thread of a
    slot and the service thread interleave as a list of events. *)

From S2P Require Import Prelude CLib Strings Entity Socket SocketServer Net RecordProtocol RecordSchema RecordProcess RecordToy.

Section Service.
Context {F : Type} `{FloatText F} {D : Type} `{MySQLApi D} `{!Walk (list Z) (Value F)}.
Context (Parse : list Z → option (json_root F)).
(** [sConfig.get("db.slot.value", 8u)] *)
Context (SLOT_HASH_VALUE : Z).
Implicit Types (sl : SlotDatabase F D).

Record RecordProcess := MkProcess { pid : Z; _slots : list (SlotDatabase F D) }.
Definition set_slots v p := MkProcess (pid p) v.
(** [_recordProcesses] *)
Abbreviation processes := (gmap Z RecordProcess).

(** ** Start *)

(** The answers of the calls of [SlotDatabase::init] that are not statements: opening and
    selecting the database, and the names SHOW DATABASES and SHOW TABLES list. *)
Record init_io := MkInit {
  io_open : bool; io_databases : option (list (list Z)); io_select : bool; io_tables : option (list (list Z))
}.
Definition database_name sl : list Z := str "shard_" ++ dec (shard sl) ++ str "_" ++ dec (sid sl).
Fixpoint load_tables (ts : list (list Z)) sl : outcome (bool * SlotDatabase F D) :=
  match ts with
  | [] => Ret (true, sl)
  | t :: ts => '(rc, sl) ← loadField t sl; if (rc : bool) then load_tables ts sl else Ret (false, sl)
  end.
Definition slot_init (io : init_io) sl : outcome (bool * SlotDatabase F D) :=
  if io_open io then
    match io_databases io with
    | None => Ret (false, sl)
    | Some results =>
        let '(rc, d) := if bool_decide (database_name sl ∈ results) then (true, db sl)
                        else createDatabase (database_name sl) (db sl) in
        let sl := set_db d sl in
        if (rc && io_select io)%bool then
          match io_tables io with
          | None => Ret (false, sl)
          | Some ts => load_tables ts sl
          end
        else Ret (false, sl)
    end
  else Ret (false, sl).
(** [init]: one connection [d] per configured slot; a slot that fails is not kept. *)
Fixpoint init_slots (ios : list (init_io * D)) (p : RecordProcess) : outcome (bool * RecordProcess) :=
  match ios with
  | [] => Ret (true, p)
  | (io, d) :: ios =>
      '(rc, sl) ← slot_init io (new_Slot (pid p) (Z.of_nat (length (_slots p))) d);
      if (rc : bool) then init_slots ios (set_slots (_slots p ++ [sl]) p) else Ret (false, p)
  end.
Definition process_init (ios : list (init_io * D)) (p : RecordProcess) : outcome (bool * RecordProcess) :=
  _ ← cxx_assert (Z.of_nat (length ios) =? SLOT_HASH_VALUE);
  '(rc, p) ← init_slots ios p;
  if (rc : bool) then _ ← cxx_assert (Z.of_nat (length (_slots p)) =? SLOT_HASH_VALUE); Ret (true, p) else Ret (false, p).

(** ** Requests *)

Definition hash_slot (objectid : Z) : nat := Z.to_nat (u32 (objectid mod SLOT_HASH_VALUE)).
Definition push_request (s : Z) (msg : list Z) sl : SlotDatabase F D := set_wlist (wlist sl ++ [(s, msg)]) sl.
Definition process_request (shard objectid s : Z) (msg : list Z) (p : RecordProcess) : outcome (bool * RecordProcess) :=
  _ ← cxx_assert (shard =? pid p);
  if SLOT_HASH_VALUE =? 0 then Undef
  else match _slots p !! hash_slot objectid with
       | None => Aborted
       | Some sl => Ret (true, set_slots (<[hash_slot objectid := push_request s msg sl]> (_slots p)) p)
       end.
Definition manager_request (shard objectid s : Z) (msg : list Z) (pm : processes) : outcome (bool * processes) :=
  match pm !! shard with
  | None => Ret (false, pm)
  | Some p => '(rc, p) ← process_request shard objectid s msg p; Ret (rc, <[shard := p]> pm)
  end.

Definition known_request (id : Z) : bool :=
  (id =? ObjectSerializeRequest) || (id =? ObjectUnserializeRequest) || (id =? ObjectDeleteRequest)
  || (id =? ObjectSelectRequest) || (id =? ObjectAlterRequest).
(** [msgParser] for a message from the descriptor [s]; [false] closes the connection. *)
Definition msgParser (s : Z) (msg : list Z) (pm : processes) : outcome (bool * processes) :=
  id ← msg_id msg;
  if known_request id then
    len ← msg_len msg; size ← request_size id msg;
    if len =? size then shard ← msg_shard msg; objectid ← msg_objectid msg; manager_request shard objectid s msg pm
    else Ret (false, pm)
  else Ret (false, pm).

(** ** Answers *)

(** The message of the front answer goes to its connection, when that still exists. *)
Section Answers.
Context {T : Type} `{SocketServerApi T}.

Definition send_answer (s : Z) (msg : list Z) (ns : NetworkService T) : outcome (NetworkService T) :=
  match getNetworkInterface s ns with
  | Some task => task_send_netmsg task msg ns
  | None => Ret ns
  end.
(** [RecordProcess::update(slotDatabase)], over the answers of [try_lock]. *)
Fixpoint slot_update (locks : list bool) sl (ns : NetworkService T) : outcome (SlotDatabase F D * NetworkService T) :=
  match rlist sl, locks with
  | (s, msg) :: r, true :: locks => ns ← send_answer s msg ns; slot_update locks (set_rlist r sl) ns
  | _, _ => Ret (sl, ns)
  end.
(** [locks n] are the answers for the slot [n]. *)
Fixpoint slots_update (locks : nat → list bool) (n : nat) (v : list (SlotDatabase F D)) (ns : NetworkService T)
    : outcome (list (SlotDatabase F D) * NetworkService T) :=
  match v with
  | [] => Ret ([], ns)
  | sl :: v =>
      '(sl, ns) ← slot_update (locks n) sl ns;
      '(v, ns) ← slots_update locks (S n) v ns; Ret (sl :: v, ns)
  end.
Definition process_update (locks : nat → list bool) (p : RecordProcess) (ns : NetworkService T)
    : outcome (RecordProcess * NetworkService T) :=
  '(v, ns) ← slots_update locks 0 (_slots p) ns; Ret (set_slots v p, ns).
(** [RecordProcessManager::update] *)
Fixpoint manager_update_loop (locks : Z → nat → list bool) (shards : list Z) (pm : processes) (ns : NetworkService T)
    : outcome (processes * NetworkService T) :=
  match shards with
  | [] => Ret (pm, ns)
  | sh :: shards =>
      match pm !! sh with
      | Some p => '(p, ns) ← process_update (locks sh) p ns; manager_update_loop locks shards (<[sh := p]> pm) ns
      | None => manager_update_loop locks shards pm ns
      end
  end.
Definition manager_update `{!Walk Z RecordProcess} (locks : Z → nat → list bool) (pm : processes) (ns : NetworkService T) :=
  manager_update_loop locks (map fst (walk pm)) pm ns.
End Answers.

(** ** The two threads of a slot *)

(** The service thread puts a request on [wlist] or takes an answer from [rlist]; the worker
    does one turn. *)
Inductive slot_event := Arrive (s : Z) (msg : list Z) | Work | Send.
Definition slot_step (ev : slot_event) sl : outcome (list (Z * list Z) * SlotDatabase F D) :=
  match ev with
  | Arrive s msg => Ret ([], push_request s msg sl)
  | Work => sl ← handle_front Parse sl; Ret ([], sl)
  | Send => match rlist sl with
            | [] => Ret ([], sl)
            | m :: r => Ret ([m], set_rlist r sl)
            end
  end.
Fixpoint slot_run (evs : list slot_event) sl : outcome (list (Z * list Z) * SlotDatabase F D) :=
  match evs with
  | [] => Ret ([], sl)
  | ev :: evs => '(out, sl) ← slot_step ev sl; '(outs, sl) ← slot_run evs sl; Ret (out ++ outs, sl)
  end.
End Service.

Arguments RecordProcess F D : clear implicits.

(** ** Where a message goes *)

Section Routes.
Context {F : Type} `{FloatText F} {D : Type} `{MySQLApi D} (SLOT_HASH_VALUE : Z).

(** What [RecordProcessManager::init] establishes. *)
Definition configured (pm : gmap Z (RecordProcess F D)) : Prop :=
  0 < SLOT_HASH_VALUE < 2 ^ 32 ∧
  ∀ sh p, pm !! sh = Some p → pid p = sh ∧ Z.of_nat (length (_slots p)) = SLOT_HASH_VALUE.
(** The requests with a variable part. *)
Definition has_data (id : Z) : bool := negb ((id =? ObjectUnserializeRequest) || (id =? ObjectDeleteRequest)).

Lemma manager_request_spec pm sh oid s msg : configured pm → 0 ≤ oid →
  manager_request SLOT_HASH_VALUE sh oid s msg pm =
  Ret (match pm !! sh with
       | None => (false, pm)
       | Some p => (true, <[sh := set_slots (alter (push_request s msg) (hash_slot SLOT_HASH_VALUE oid) (_slots p)) p]> pm)
       end).
Proof.
  intros [Hs Hpm] Ho. unfold manager_request. destruct (pm !! sh) as [p|] eqn:E; [|done].
  destruct (Hpm sh p E) as [Hpid Hlen]. unfold process_request. rewrite Hpid, Z.eqb_refl. cbn [cxx_assert mbind outcome_bind].
  rewrite (proj2 (Z.eqb_neq SLOT_HASH_VALUE 0)) by lia.
  destruct (lookup_lt_is_Some_2 (_slots p) (hash_slot SLOT_HASH_VALUE oid)) as [sl Hsl].
  { unfold hash_slot. pose proof (Z.mod_pos_bound oid SLOT_HASH_VALUE ltac:(lia)). unfold u32. rewrite wrap_id by (unfold fits; lia). lia. }
  rewrite Hsl. cbn [mbind outcome_bind]. do 4 f_equal.
  rewrite list_insert_alter. apply list_alter_ext; [|done]. intros x Hx. by simplify_eq.
Qed.

(** Where a message from a connection goes.  A message of an unknown kind, one
    whose length is not that of its kind, and one for a shard that is not configured are
    refused, which closes the connection, and change nothing; every other one goes to the end
    of the list of one slot, that of its shard and of the remainder of its object; a message
    that is to have data but ends before the length of the data is read past its end. *)
Theorem service_routes pm s msg : configured pm → bytes_ok msg → (12 ≤ length msg)%nat →
  msg_len msg = Ret (Z.of_nat (length msg)) →
  let id := field_val 4 2 msg in let sh := field_val 12 4 msg in let oid := field_val 32 8 msg in
  msgParser SLOT_HASH_VALUE s msg pm =
    if negb (known_request id) then Ret (false, pm)
    else if has_data id && (length msg <? 44)%nat then Undef
    else if negb (Z.of_nat (length msg) =? (if has_data id then 44 + field_val 40 4 msg else 40)) then Ret (false, pm)
    else Ret (match pm !! sh with
              | None => (false, pm)
              | Some p =>
                  (true, <[sh := set_slots (alter (push_request s msg) (Z.to_nat (oid mod SLOT_HASH_VALUE)) (_slots p)) p]> pm)
              end).
Proof.
  intros Hpm Hb Hl Hlen id sh oid. unfold msgParser, msg_id. rewrite field_read_val by lia. cbn [mbind outcome_bind]. fold id.
  destruct (known_request id); [|done]. cbn [negb]. rewrite Hlen. cbn [mbind outcome_bind].
  assert ((40 ≤ length msg)%nat → msg_shard msg = Ret sh ∧ msg_objectid msg = Ret oid ∧
    manager_request SLOT_HASH_VALUE sh oid s msg pm = Ret (match pm !! sh with
      | None => (false, pm)
      | Some p => (true, <[sh := set_slots (alter (push_request s msg) (Z.to_nat (oid mod SLOT_HASH_VALUE)) (_slots p)) p]> pm)
      end)) as Hread.
  { intros Hl40. pose proof (field_val_fits 32 8 msg Hb ltac:(lia)) as [Ho _].
    split_and!; [apply field_read_val; lia..|]. rewrite manager_request_spec by done. destruct (pm !! sh); [|done].
    unfold hash_slot. destruct Hpm as [Hs _]. pose proof (Z.mod_pos_bound oid SLOT_HASH_VALUE ltac:(lia)).
    unfold u32. by rewrite wrap_id by (unfold fits; lia). }
  unfold request_size, has_data. destruct ((id =? ObjectUnserializeRequest) || (id =? ObjectDeleteRequest)) eqn:Ed; cbn [negb andb].
  - cbn [mbind outcome_bind]. destruct (Z.eqb_spec (Z.of_nat (length msg)) 40); [|done]. cbn [negb].
    destruct Hread as (-> & -> & E); [lia|exact E].
  - unfold data_size, msg_datalen. destruct (Nat.ltb_spec (length msg) 44) as [Hs|Hs].
    + unfold field_at. by rewrite (proj2 (Nat.leb_gt _ _)) by lia.
    + rewrite field_read_val by lia. cbn [mbind outcome_bind]. fold (field_val 40 4 msg).
      destruct (Z.of_nat (length msg) =? 44 + field_val 40 4 msg); [|done]. cbn [negb]. destruct Hread as (-> & -> & E); [lia|exact E].
Qed.
End Routes.

(** ** The order of the answers *)

Section Order.
Context {F D : Type}.
Implicit Types (sl : SlotDatabase F D) (ns : NetworkService recorder).

(** A service whose connections have their tasks. *)
Definition tasks_live ns : Prop := ∀ s t, tasks ns !! s = Some t → heap ns !! t = Some s.
Definition sent ns : list call := match socketServer ns with Some r => calls r | None => [] end.
Definition whole_answer (m : Z * list Z) : Prop := netmsg_len (snd m) = Ret (Z.of_nat (length (snd m))).
(** What goes out for a list of answers: those of the connections that are still there. *)
Definition delivered ns (l : list (Z * list Z)) : list call :=
  omap (λ m, match tasks ns !! fst m with Some _ => Some (CallSend (fst m) (snd m)) | None => None end) l.
Definition after_sending ns (l : list (Z * list Z)) : NetworkService recorder :=
  set_server ((λ r, MkRecorder (inbox r) (calls r ++ delivered ns l)) <$> socketServer ns) ns.

Lemma send_answer_spec s msg ns : tasks_live ns → is_Some (socketServer ns) → whole_answer (s, msg) →
  send_answer s msg ns = Ret (after_sending ns [(s, msg)]).
Proof.
  intros Hl [r Hr] Hw. unfold send_answer, after_sending, delivered, getNetworkInterface. cbn [omap list_omap fst snd].
  destruct ns as [b sv tk hp nx rel]. cbn [tasks socketServer] in *. subst sv.
  destruct (tk !! s) as [t|] eqn:E; [|cbn; rewrite app_nil_r; by destruct r].
  unfold task_send_netmsg. unfold whole_answer in Hw. cbn [snd] in Hw. rewrite Hw. cbn [mbind outcome_bind].
  rewrite Z.ltb_irrefl, Nat2Z.id, take_ge by done. unfold task_send, task_fd. cbn [heap].
  pose proof (Hl s t E) as Ht. cbn [heap] in Ht. by rewrite Ht.
Qed.

Lemma after_sending_app ns l1 l2 : after_sending (after_sending ns l1) l2 = after_sending ns (l1 ++ l2).
Proof.
  destruct ns as [b [r|] tk hp nx rel]; [|done]. unfold after_sending, delivered. cbn. by rewrite omap_app, <-app_assoc.
Qed.

Lemma slot_update_spec k : ∀ sl ns, tasks_live ns → is_Some (socketServer ns) → Forall whole_answer (rlist sl) →
  (length (rlist sl) ≤ k)%nat → slot_update (replicate k true) sl ns = Ret (set_rlist [] sl, after_sending ns (rlist sl)).
Proof.
  induction k as [|k IH]; intros sl ns Hl Hs Hw Hk.
  - destruct sl as [? ? ? ? ? ? [|] ?]; simpl in *; [|lia]. destruct ns as [b [r|] tk hp nx rel]; [|by destruct Hs].
    unfold after_sending. cbn. rewrite app_nil_r. by destruct r.
  - destruct (rlist sl) as [|[s msg] r] eqn:Er; cbn [replicate slot_update]; rewrite Er.
    + destruct sl as [? ? ? ? ? ? ? ?], ns as [b [r|] tk hp nx rel]; [|by destruct Hs]. simpl in Er. subst.
      unfold after_sending. cbn. rewrite app_nil_r. by destruct r.
    + apply Forall_cons in Hw as [Hw1 Hw]. rewrite send_answer_spec by done. cbn [mbind outcome_bind].
      rewrite IH; [|done|by destruct ns as [? [] ? ? ? ?]; [eexists|destruct Hs]|done|simpl in *; lia].
      simpl rlist. by rewrite after_sending_app.
Qed.

(** [update] sends what waits slot by slot, not in the order of the requests.
    With the locks free, every answer leaves the lists; those whose connection is still
    there are sent to it, whole, the ones of the first slot first; the others are dropped. *)
Theorem update_sends_by_slot locks k p ns : (∀ n, locks n = replicate k true) → tasks_live ns → is_Some (socketServer ns) →
  Forall (λ sl, Forall whole_answer (rlist sl) ∧ (length (rlist sl) ≤ k)%nat) (_slots p) →
  process_update locks p ns
  = Ret (set_slots (map (set_rlist []) (_slots p)) p, after_sending ns (concat (map rlist (_slots p)))).
Proof.
  intros Hlocks Hl Hs Hv. unfold process_update. generalize 0%nat as n.
  assert (∀ v n ns, tasks_live ns → is_Some (socketServer ns) →
    Forall (λ sl : SlotDatabase F D, Forall whole_answer (rlist sl) ∧ (length (rlist sl) ≤ k)%nat) v →
    slots_update locks n v ns = Ret (map (set_rlist []) v, after_sending ns (concat (map rlist v)))) as Hslots.
  { clear ns Hl Hs Hv. induction v as [|sl v IH]; intros n ns Hl Hs Hv; cbn [slots_update map concat].
    - destruct ns as [b [r|] tk hp nx rel]; [|by destruct Hs]. unfold after_sending. cbn. rewrite app_nil_r. by destruct r.
    - apply Forall_cons in Hv as [[Hw Hk] Hv]. rewrite Hlocks, slot_update_spec by done. cbn [mbind outcome_bind].
      rewrite IH; [|done|by destruct ns as [? [] ? ? ? ?]; [eexists|destruct Hs]|done].
      cbn [mbind outcome_bind]. by rewrite after_sending_app. }
  intros n. by rewrite Hslots.
Qed.
End Order.

(** One shard with eight slots. *)
Definition demo_process : RecordProcess Z toy := MkProcess 1 (map (λ n, new_Slot 1 (Z.of_nat n) new_toy) (seq 0 8)).
Definition demo_manager : gmap Z (RecordProcess Z toy) := {[1 := demo_process]}.
Lemma demo_configured : configured 8 demo_manager.
Proof.
  split; [lia|]. unfold demo_manager. intros sh p [<- <-]%lookup_singleton_Some. split; reflexivity.
Qed.

Lemma service_routes_witness : let msg := plain_message ObjectUnserializeRequest 1 (str "players") 9 in
  ∃ pm p sl, msgParser 8 5 msg demo_manager = Ret (true, pm) ∧ pm !! 1 = Some p ∧ _slots p !! 1%nat = Some sl ∧
    wlist sl = [(5, msg)].
Proof.
  intros msg. pose proof (service_routes 8 demo_manager 5 msg demo_configured) as Hr.
  specialize (Hr ltac:(apply (bool_decide_unpack _); vm_compute; exact I) ltac:(simpl; lia) ltac:(reflexivity)).
  cbv zeta in Hr. eexists _, _, _. split_and!; [rewrite Hr; vm_compute; reflexivity|..]; reflexivity.
Defined.

(** Requests for the objects 9 and 8 of one connection, answered: slot 1 and slot 0. *)
Definition demo_answers : RecordProcess Z toy :=
  let answer oid := (5, status_response ObjectSerializeResponse 1 (str "players") oid RECORD_OK) in
  MkProcess 1 [set_rlist [answer 8] (new_Slot 1 0 new_toy); set_rlist [answer 9] (new_Slot 1 1 new_toy)].
Definition demo_connection : NetworkService recorder :=
  MkNet false (Some (MkRecorder [] [])) {[5 := 0%nat]} {[0%nat := 5]} 1 [].

Lemma demo_connection_live : tasks_live demo_connection.
Proof.
  intros s t Ht. unfold demo_connection in *. cbn [tasks heap] in *. by apply lookup_singleton_Some in Ht as [<- <-].
Qed.

Lemma update_sends_by_slot_witness : ∃ p ns, process_update (λ _, [true]) demo_answers demo_connection = Ret (p, ns) ∧
  sent ns = [CallSend 5 (status_response ObjectSerializeResponse 1 (str "players") 8 RECORD_OK);
             CallSend 5 (status_response ObjectSerializeResponse 1 (str "players") 9 RECORD_OK)].
Proof.
  eexists _, _. split.
  - apply (update_sends_by_slot (λ _, [true]) 1 demo_answers demo_connection); [done|apply demo_connection_live|by eexists|].
    repeat constructor.
  - reflexivity.
Defined.
