(* ===== verification/RecordAnswers.v ===== *)
(** * Every request is answered once

    The turns of the worker of RecordProcess.v against the laws of RecordDatabase.v: for
    requests with clean names a turn returns and puts exactly one answer on the list, so in
    every interleaving of the two threads of a slot the answers leave in the order of the
    requests. *)

From S2P Require Import Prelude CLib Strings Entity RecordProtocol RecordSchema RecordProcess RecordDatabase RecordToy RecordStore RecordService.

(** Comparisons of message numbers. *)
Ltac eval_eqb :=
  repeat match goal with |- context [?a =? ?b] => let r := eval vm_compute in (a =? b) in change (a =? b) with r end;
  cbv iota.

(** What tells whose answer a message is: the socket, and id, shard, table and objectid. *)
Abbreviation key := (Z * outcome Z * outcome Z * list Z * outcome Z)%type.
Definition answer_key (m : Z * list Z) : key :=
  (fst m, msg_id (snd m), msg_shard (snd m), take 16 (drop 16 (snd m)), msg_objectid (snd m)).
(** The key the answer to a request has. *)
Definition request_key (m : Z * list Z) : key :=
  (fst m, id ← msg_id (snd m); Ret (id + 1), msg_shard (snd m), strncpy16 (take 16 (drop 16 (snd m))), msg_objectid (snd m)).
(** The one request that the service accepts and the server does not answer. *)
Definition is_select (m : Z * list Z) : bool :=
  match msg_id (snd m) with Ret id => id =? ObjectSelectRequest | _ => false end.
(** The keys of the answers that requests get: none for a Select, one for each other request. *)
Definition owed (l : list (Z * list Z)) : list key := map request_key (List.filter (λ m, negb (is_select m)) l).

Lemma owed_app l1 l2 : owed (l1 ++ l2) = owed l1 ++ owed l2.
Proof. unfold owed. by rewrite List.filter_app, map_app. Qed.

Section Answers.
Context {D F : Type} `{RecordDatabaseLaws D F} `{!Walk (list Z) (Value F)} `{!WalkLaws (list Z) (Value F)}.
Context (Parse : list Z → option (json_root F)).
Implicit Types (sl : SlotDatabase F D) (t : list Z) (e : Entity F).

(** ** Requests whose names can be quoted *)

Record clean_request (sh : Z) (msg : list Z) : Prop := {
  cr_bytes : bytes_ok msg;
  cr_long : (40 ≤ length msg)%nat;
  cr_known id : msg_id msg = Ret id → known_request id = true;
  cr_size id : msg_id msg = Ret id → request_size id msg = Ret (Z.of_nat (length msg));
  cr_shard : msg_shard msg = Ret sh;
  cr_table : ∃ t, msg_table msg = Ret t ∧ quotable t;
  cr_names ms : msg_id msg = Ret ObjectSerializeRequest → Parse (drop 44 msg) = Some (RObject ms) → Forall (λ m, quotable (c_str (fst m))) ms
}.

Record tidy sl : Prop := {
  ti_tables : clean_tables sl;
  ti_entities oid e : entities sl !! oid = Some e → names_ok e ∧ eid e = oid;
  ti_shard : fits 32 (shard sl)
}.

Lemma touches_tidy t sl sl' : touches t sl sl' → tidy sl → tidy sl'.
Proof.
  intros Ht [Hc He Hs]. rewrite (touch_slot _ _ _ Ht). split; simpl; [|done..].
  apply (touch_names _ _ _ Ht) in Hc. by destruct Hc.
Qed.

Lemma set_entities_tidy m sl : tidy sl → (∀ oid e, m !! oid = Some e → names_ok e ∧ eid e = oid) → tidy (set_entities m sl).
Proof. intros [Hc He Hs] Hm. by split. Qed.

Lemma delete_tidy oid sl : tidy sl → tidy (set_entities (delete oid (entities sl)) sl).
Proof. intros Ht. apply set_entities_tidy; [done|]. intros o e [_ Ho]%lookup_delete_Some. by apply Ht. Qed.

Lemma insert_tidy oid e sl : tidy sl → names_ok e → eid e = oid → tidy (set_entities (<[oid := e]> (entities sl)) sl).
Proof.
  intros Ht He Hid. apply set_entities_tidy; [done|]. intros o e' [[<- <-]|[_ Ho]]%lookup_insert_Some; [done|by apply Ht].
Qed.

(** ** Entities with clean names *)

Lemma new_names id : names_ok (new_Entity (F := F) id).
Proof. by intros n []. Qed.

Lemma assign_names n d e : quotable n → names_ok e → names_ok (assign n d e).
Proof. intros Hn He. unfold names_ok. rewrite assign_values. by apply names_quotable_insert. Qed.

Lemma parse_members_names ms : Forall (λ m : list Z * json_value F, quotable (c_str (fst m))) ms → ∀ e, names_ok e →
  names_ok (snd (parse_members ms e)) ∧ eid (snd (parse_members ms e)) = eid e.
Proof.
  intros Hms. induction Hms as [|[n v] ms Hn Hms IH]; intros e He; [done|]. simpl in *.
  destruct (is_nested v); [done|]. destruct (GetValue (c_str n) e) as [v0 e1] eqn:Eg.
  assert (names_ok e1 ∧ eid e1 = eid e) as [He1 Hid1].
  { replace e1 with (snd (GetValue (c_str n) e)) by by rewrite Eg. split; [|apply GetValue_eid].
    unfold names_ok. rewrite GetValue_values. destruct (values e !! c_str n); [done|]. by apply names_quotable_insert. }
  destruct (json_data v) as [d|]; [|done]. destruct (IH (assign (c_str n) d e1)) as [H1' H2']; [by apply assign_names|].
  split; [done|]. by rewrite H2', assign_eid.
Qed.

Lemma ParseFromString_names js e : names_ok e →
  (∀ ms, Parse js = Some (RObject ms) → Forall (λ m, quotable (c_str (fst m))) ms) →
  names_ok (snd (ParseFromString Parse js e)) ∧ eid (snd (ParseFromString Parse js e)) = eid e.
Proof.
  intros He Hms. unfold ParseFromString. destruct (Parse js) as [[ms|]|]; [|done..].
  apply parse_members_names; [by apply Hms|done].
Qed.

(** ** The database calls of a turn *)

Lemma load_row_ret t (row : gmap (list Z) (list Z)) cols cs fs id :
  describes cols cs → dom row = dom cols → names_quotable cols →
  ∃ e, load_row fs cs (map (λ c, row !! col_name c) cs) (new_Entity (F := F) id) = Ret e ∧ names_ok e ∧ eid e = id.
Proof.
  intros Hdesc Hdom Hq.
  destruct (load_row_spec fs row cs (proj1 Hdesc)) with (e := new_Entity (F := F) id) as (e & El & He & Hother & _).
  { intros c Hin. destruct (describes_in _ _ c Hdesc Hin) as (ty & Hn & _).
    apply elem_of_dom. rewrite Hdom. apply elem_of_dom. by rewrite Hn. }
  exists e. split_and!; [done| |done]. intros n Hn. destruct (decide (n ∈ map col_name cs)) as [Hin|Hnot].
  - apply list_elem_of_fmap in Hin as (c & -> & Hin). destruct (describes_in _ _ c Hdesc Hin) as (ty & Hc & _).
    apply Hq. by eexists.
  - rewrite Hother in Hn by done. by destruct Hn.
Qed.

Lemma query_touches t sl (d' : D) : schema d' = schema (db sl) → touches t sl (set_db d' (touch_table t sl)).
Proof.
  intros Hs. transitivity (touch_table t sl); [apply set_fields_touches, clean_fields|].
  split; [by destruct sl|simpl; by rewrite Hs|done|simpl; by rewrite Hs|].
  intros [? ?]. split; simpl; [done|by rewrite Hs].
Qed.

Lemma unserialize_ret t oid sl : quotable t → fits 64 oid → clean_tables sl → ∃ r sl',
  unserialize t oid sl = Ret (r, sl') ∧ touches t sl sl' ∧ (∀ e, r = Some e → names_ok e ∧ eid e = oid).
Proof.
  intros Hq Hid Hcl. pose proof (law_select_id D F t oid (db sl) Hq Hid) as Ha. unfold answers in Ha.
  unfold unserialize. cbn [touch_table set_tables db].
  destruct (runQuery (select_id t oid) (db sl)) as [r d'] eqn:E. destruct Ha as (Es & _ & Hr).
  pose proof (query_touches t sl d' Es) as Ht. cbv zeta.
  destruct (schema (db sl) !! t) as [cols|] eqn:Ec; [|rewrite Hr; by eexists None, _; split_and!].
  destruct (bool_decide _); [|rewrite Hr; by eexists None, _; split_and!].
  destruct Hr as (res & -> & Hdesc & ->). destruct (cells (db sl) t oid) as [row|] eqn:Er; [|by eexists None, _; split_and!].
  pose proof (law_cells D F (db sl) t oid row cols Er Ec) as Hd.
  destruct (load_row_ret t row cols (columns res) (fields_of t (set_db d' (touch_table t sl))) oid Hdesc Hd) as (e & El & He & Hi).
  { by eapply Hcl. }
  unfold touch_table in El |- *. rewrite El. eexists (Some e), _. split_and!; [reflexivity|done|]. by intros e' [= <-].
Qed.

Lemma alter_option_touches t n o sl : quotable t → quotable n → touches t sl (snd (alter_option t n o sl)).
Proof.
  intros Hq Hn. unfold alter_option.
  repeat case_bool_decide; cbn [snd]; [| | |done];
    try (apply command_touches; by apply (law_keys D F t n); auto).
  unfold removeField. destruct (fst (runCommand (remove_field_sql t n) (db sl))) eqn:Ec.
  - destruct (law_drop D F t n (db sl) Hq Hn Ec) as (cols & Hc & Hs). rewrite command_eq. cbn [snd].
    split; [by destruct sl| |done|simpl; rewrite Hs, lookup_insert_eq; by eexists|].
    + intros t' Hne. simpl. by rewrite Hs, lookup_insert_ne.
    + intros [Hf Hcl]. split; simpl; [done|]. rewrite Hs. intros t' cols' [[_ <-]|[_ ?]]%lookup_insert_Some; [|by eapply Hcl].
      intros n' [tu Hn']. apply lookup_delete_Some in Hn' as [_ Hn']. eapply Hcl; [done|by eexists].
  - destruct (law_failed D F _ _ Ec) as [Hs _]. by apply command_touches.
Qed.

Lemma alter_members_touches t (ms : list (list Z * json_value F)) : quotable t → ∀ sl, clean_tables sl →
  touches t sl (snd (alter_members t ms sl)).
Proof.
  intros Hq. induction ms as [|[name v] ms IH]; intros sl Hcl; simpl; [done|]. destruct v as [| | | |o| |]; try done.
  destruct (fields_of t sl !! c_str name) eqn:Ef; [|done].
  assert (quotable (c_str name)) as Hn by (apply (clean_fields t sl Hcl); by eexists).
  pose proof (alter_option_touches t (c_str name) (c_str o) sl Hq Hn) as Ht.
  destruct (alter_option t (c_str name) (c_str o) sl) as [[] sl1]; cbn [snd] in *; [|done].
  transitivity sl1; [done|]. apply IH. by apply Ht.
Qed.

Lemma alterTable_touches t js sl : quotable t → clean_tables sl → touches t sl (snd (alterTable Parse t js sl)).
Proof.
  intros Hq Hcl. unfold alterTable. destruct (Parse js) as [[ms|]|]; [|done..].
  assert (touches t sl (touch_table t sl)) as Ht by by apply set_fields_touches, clean_fields.
  etransitivity; [exact Ht|]. apply alter_members_touches; [done|by apply Ht].
Qed.

Lemma removeEntity_touches t oid sl : quotable t → fits 64 oid →
  removeEntity t oid sl = (false, snd (removeEntity t oid sl)) ∧ touches t sl (snd (removeEntity t oid sl)).
Proof.
  intros Hq Hid. pose proof (law_delete D F t oid (db sl) Hq Hid) as Hf. destruct (law_failed D F _ _ Hf) as [Hs _].
  unfold removeEntity. split; [rewrite command_eq; by rewrite Hf|by apply command_touches].
Qed.

(** ** One answer per request *)

(** The entity an Unserialize request at the front of [wlist] prints; its text must leave
    room for its length in 32 bits. *)
Definition printed sl : option (Entity F) :=
  match wlist sl with
  | (s, msg) :: w =>
      match msg_id msg, msg_objectid msg, msg_table msg with
      | Ret id, Ret oid, Ret t =>
          if id =? ObjectUnserializeRequest then
            match entities sl !! oid with
            | Some e => Some e
            | None => match unserialize t oid (set_wlist w sl) with Ret (r, _) => r | _ => None end
            end
          else None
      | _, _, _ => None
      end
  | [] => None
  end.
Definition answer_room sl : Prop :=
  match printed sl with Some e => Z.of_nat (length (snd (SerializeToString true e))) < 2 ^ 32 | None => True end.

(** What is the same before and after a turn. *)
Definition same_lists sl sl' : Prop := shard sl' = shard sl ∧ wlist sl' = wlist sl ∧ rlist sl' = rlist sl.
Lemma touches_lists t sl sl' : touches t sl sl' → same_lists sl sl'.
Proof. intros Ht. by rewrite (touch_slot _ _ _ Ht). Qed.

(** The turn answered [msg]. *)
Definition answered s msg sl sl' : Prop :=
  tidy sl' ∧ shard sl' = shard sl ∧ wlist sl' = wlist sl ∧
  ∃ l, rlist sl' = rlist sl ++ l ∧ map answer_key l = owed [(s, msg)].

Section Turn.
Context (s : Z) (msg : list Z) (sl : SlotDatabase F D).
Context (Htidy : tidy sl) (Hclean : clean_request (shard sl) msg).

Lemma turn_objectid : ∃ oid, msg_objectid msg = Ret oid ∧ fits 64 oid.
Proof using Hclean. destruct Hclean as [Hb Hl _ _ _ _ _]. apply (field_read 32 8); [done|lia]. Qed.

Lemma msg_table_name t : msg_table msg = Ret t → strncpy16 t = strncpy16 (take 16 (drop 16 msg)).
Proof using Type.
  unfold msg_table. case_bool_decide; [|done]. intros [= <-]. rewrite strncpy16_take.
  unfold strncpy16. by rewrite (c_str_id (c_str _)) by apply c_str_no_nul.
Qed.

(** A response with the fields of the request, whatever follows them. *)
Lemma response_key len rid t oid rest : fits 16 rid → msg_table msg = Ret t → msg_objectid msg = Ret oid → fits 64 oid →
  answer_key (s, netmsg_header len rid ++ object_header (shard sl) t oid ++ rest)
  = (s, Ret rid, msg_shard msg, strncpy16 (take 16 (drop 16 msg)), msg_objectid msg).
Proof using Htidy Hclean.
  intros Hrid Ht Ho Hoid.
  destruct (header_fields len rid (shard sl) oid t rest Hrid (ti_shard _ Htidy) Hoid) as (_ & Hi & Hs & Hob & Htab & _).
  unfold answer_key. cbn [fst snd]. rewrite Hi, Hs, Hob, Htab, (msg_table_name t Ht), Ho. by rewrite (cr_shard _ _ Hclean).
Qed.

Lemma respond_answered rid len t oid rest sl' : owed [(s, msg)]
    = [(s, Ret rid, msg_shard msg, strncpy16 (take 16 (drop 16 msg)), msg_objectid msg)] →
  tidy sl' → same_lists sl sl' → fits 16 rid → msg_table msg = Ret t → msg_objectid msg = Ret oid → fits 64 oid →
  answered s msg sl (respond s (netmsg_header len rid ++ object_header (shard sl') t oid ++ rest) sl').
Proof using Htidy Hclean.
  intros Hk Ht' (Hs & Hw & Hr) Hrid Ht Ho Hoid. split_and!; [by destruct Ht'|done|done|].
  eexists [_]. split; [unfold respond; cbn [rlist set_rlist]; by rewrite Hr|]. rewrite Hk. cbn [map]. by rewrite Hs, response_key.
Qed.

Lemma send_status_answered rid retval sl' : owed [(s, msg)]
    = [(s, Ret rid, msg_shard msg, strncpy16 (take 16 (drop 16 msg)), msg_objectid msg)] → fits 16 rid →
  tidy sl' → same_lists sl sl' → ∃ sl2, send_status rid s msg retval sl' = Ret sl2 ∧ answered s msg sl sl2.
Proof using Htidy Hclean.
  intros Hk Hrid Ht' Hsame. destruct turn_objectid as (oid & Ho & Hoid). destruct (cr_table _ _ Hclean) as (t & Ht & _).
  unfold send_status. rewrite Ht, Ho. eexists. split; [reflexivity|]. by apply respond_answered.
Qed.

Lemma sendUnserialize_answered retval data sl' : owed [(s, msg)]
    = [(s, Ret ObjectUnserializeResponse, msg_shard msg, strncpy16 (take 16 (drop 16 msg)), msg_objectid msg)] →
  tidy sl' → same_lists sl sl' → (∀ js, data = Some js → 0 < Z.of_nat (length js) < 2 ^ 32) →
  ∃ sl2, sendUnserializeResponse s msg retval data sl' = Ret sl2 ∧ answered s msg sl sl2.
Proof using Htidy Hclean.
  intros Hk Ht' Hsame Hdata. destruct turn_objectid as (oid & Ho & Hoid). destruct (cr_table _ _ Hclean) as (t & Ht & _).
  unfold sendUnserializeResponse. rewrite Ht, Ho. cbn [mbind outcome_bind].
  assert (cxx_assert (match data with Some js => 0 <? u32 (Z.of_nat (length js)) | None => true end) = Ret tt) as ->.
  { destruct data as [js|]; [|done]. specialize (Hdata js eq_refl). unfold u32. rewrite wrap_id by (unfold fits; lia).
    unfold cxx_assert. by rewrite (proj2 (Z.ltb_lt 0 _)) by lia. }
  eexists. split; [reflexivity|]. by apply respond_answered.
Qed.

Lemma turn_data id : msg_id msg = Ret id → request_size id msg = data_size msg →
  ∃ n, msg_datalen msg = Ret n ∧ msg_data 44 n msg = Ret (drop 44 msg).
Proof using Hclean.
  intros Hid Hsize. pose proof (cr_size _ _ Hclean id Hid) as Hs. rewrite Hsize in Hs. unfold data_size in Hs.
  destruct (msg_datalen msg) as [n| |]; [|done..]. injection Hs as Hn. exists n. split; [done|].
  unfold msg_data. rewrite (proj2 (Z.leb_le _ _)) by lia. f_equal. apply take_ge. rewrite length_drop. lia.
Qed.

Lemma turn_keys id : msg_id msg = Ret id → id ≠ ObjectSelectRequest →
  owed [(s, msg)] = [(s, Ret (id + 1), msg_shard msg, strncpy16 (take 16 (drop 16 msg)), msg_objectid msg)].
Proof using Type.
  intros Hid Hne. unfold owed, is_select, request_key. cbn [List.filter snd fst]. rewrite Hid, (proj2 (Z.eqb_neq _ _) Hne). cbn. by rewrite Hid.
Qed.

Lemma touches_same t sl1 sl2 : same_lists sl sl1 → touches t sl1 sl2 → same_lists sl sl2.
Proof using Type. intros (A1 & A2 & A3) (B1 & B2 & B3)%touches_lists. split_and!; congruence. Qed.

Lemma on_serialize_answered : msg_id msg = Ret ObjectSerializeRequest →
  ∃ sl', on_serialize Parse s msg sl = Ret sl' ∧ answered s msg sl sl'.
Proof using All.
  intros Hid. pose proof (turn_keys _ Hid ltac:(done)) as Hk.
  destruct turn_objectid as (oid & Ho & Hoid). destruct (turn_data _ Hid eq_refl) as (n & Hn & Hd).
  destruct (cr_table _ _ Hclean) as (t & Ht & Hq).
  unfold on_serialize. rewrite Ho, Hn, Ht. cbn [mbind outcome_bind]. rewrite Hd. cbn [mbind outcome_bind].
  set (e := default (new_Entity oid) (entities sl !! oid)).
  assert (names_ok e ∧ eid e = oid) as [He Heid].
  { unfold e. destruct (entities sl !! oid) eqn:Ee; [by apply Htidy|]. split; [apply new_names|done]. }
  destruct (ParseFromString_names (drop 44 msg) e He (λ ms, cr_names _ _ Hclean ms Hid)) as [He1 Hid1].
  destruct (ParseFromString Parse (drop 44 msg) e) as [rc e1]. cbn [snd] in He1, Hid1. cbv zeta.
  set (sl1 := set_entities _ sl). assert (tidy sl1) as Ht1 by (apply insert_tidy; [done..|congruence]).
  assert (same_lists sl sl1) as Hsame by done. destruct rc.
  - destruct (serialize_spec t e1 sl1 Hq He1) as (rc & sl2 & -> & Htouch & _). cbn [mbind outcome_bind].
    pose proof (touches_tidy _ _ _ Htouch Ht1) as Ht2. pose proof (touches_same _ _ _ Hsame Htouch) as Hsame2.
    destruct rc; apply send_status_answered; try done. by apply delete_tidy.
  - apply send_status_answered; try done. by apply delete_tidy.
Qed.

Lemma on_delete_answered : msg_id msg = Ret ObjectDeleteRequest →
  ∃ sl', on_delete s msg sl = Ret sl' ∧ answered s msg sl sl'.
Proof using All.
  intros Hid. pose proof (turn_keys _ Hid ltac:(done)) as Hk.
  destruct turn_objectid as (oid & Ho & Hoid). destruct (cr_table _ _ Hclean) as (t & Ht & Hq).
  unfold on_delete. rewrite Ho, Ht. cbn [mbind outcome_bind]. set (sl1 := match entities sl !! oid with Some _ => add_leak _ | None => sl end).
  assert (tidy sl1 ∧ same_lists sl sl1) as [Ht1 Hsame].
  { unfold sl1. destruct (entities sl !! oid); [|done]. split; [|done]. pose proof (delete_tidy oid sl Htidy) as [? ? ?]. by split. }
  destruct (removeEntity_touches t oid sl1 Hq Hoid) as [Er Htouch]. rewrite Er.
  apply send_status_answered; [done|done|by eapply touches_tidy|by eapply touches_same].
Qed.

Lemma on_alter_answered : msg_id msg = Ret ObjectAlterRequest →
  ∃ sl', on_alter Parse s msg sl = Ret sl' ∧ answered s msg sl sl'.
Proof using All.
  intros Hid. pose proof (turn_keys _ Hid ltac:(done)) as Hk.
  destruct (turn_data _ Hid eq_refl) as (n & Hn & Hd). destruct (cr_table _ _ Hclean) as (t & Ht & Hq).
  unfold on_alter. rewrite Ht, Hn. cbn [mbind outcome_bind]. rewrite Hd. cbn [mbind outcome_bind].
  pose proof (alterTable_touches t (drop 44 msg) sl Hq (ti_tables _ Htidy)) as Htouch.
  destruct (alterTable Parse t (drop 44 msg) sl) as [rc sl1]. cbn [snd] in Htouch.
  apply send_status_answered; [done|done|by eapply touches_tidy|by eapply touches_lists].
Qed.

Lemma on_unserialize_answered : msg_id msg = Ret ObjectUnserializeRequest → ∀ w, answer_room (set_wlist ((s, msg) :: w) sl) →
  wlist sl = w → ∃ sl', on_unserialize s msg sl = Ret sl' ∧ answered s msg sl sl'.
Proof using All.
  intros Hid w Hroom Hw. pose proof (turn_keys _ Hid ltac:(done)) as Hk.
  destruct turn_objectid as (oid & Ho & Hoid). destruct (cr_table _ _ Hclean) as (t & Ht & Hq).
  unfold on_unserialize. rewrite Ho, Ht. cbn [mbind outcome_bind].
  unfold answer_room, printed in Hroom. cbn [wlist set_wlist] in Hroom. rewrite Hid, Ho, Ht in Hroom. simpl entities in Hroom.
  assert (set_wlist w (set_wlist ((s, msg) :: w) sl) = sl) as Ew by (subst w; by destruct sl). rewrite Ew in Hroom.
  cbn [Z.eqb] in Hroom. change (ObjectUnserializeRequest =? ObjectUnserializeRequest) with true in Hroom. cbv iota in Hroom.
  assert (∃ r sl1, match entities sl !! oid with Some e => Ret (Some e, sl) | None => unserialize t oid sl end = Ret (r, sl1) ∧
    tidy sl1 ∧ same_lists sl sl1 ∧ (∀ e, r = Some e → names_ok e ∧ eid e = oid) ∧
    (∀ e, r = Some e → Z.of_nat (length (snd (SerializeToString true e))) < 2 ^ 32)) as (r & sl1 & -> & Ht1 & Hsame & Hr & Hlen).
  { destruct (entities sl !! oid) as [e|] eqn:Ee.
    - exists (Some e), sl. split_and!; [done..|by intros e' [= <-]; apply Htidy|by intros e' [= <-]].
    - destruct (unserialize_ret t oid sl Hq Hoid (ti_tables _ Htidy)) as (r & sl1 & E & Htouch & Hr). rewrite E in Hroom |- *.
      exists r, sl1. split_and!; [done|by eapply touches_tidy|by eapply touches_lists|done|]. by intros e ->. }
  cbn [mbind outcome_bind]. destruct r as [e|]; [|by apply sendUnserialize_answered].
  destruct (Hr e eq_refl) as [He Heid]. specialize (Hlen e eq_refl). unfold SerializeToString in *. cbn [snd] in Hlen.
  apply sendUnserialize_answered; [done|by apply insert_tidy|done|]. intros js [= <-]. split; [|exact Hlen]. simpl. lia.
Qed.
End Turn.

Lemma set_wlist_tidy w sl : tidy sl → tidy (set_wlist w sl).
Proof. by intros [? ? ?]. Qed.
Lemma set_rlist_tidy r sl : tidy sl → tidy (set_rlist r sl).
Proof. by intros [? ? ?]. Qed.

Lemma handle_front_answered sl s msg w : tidy sl → clean_request (shard sl) msg → wlist sl = (s, msg) :: w → answer_room sl →
  ∃ sl', handle_front Parse sl = Ret sl' ∧ answered s msg (set_wlist w sl) sl'.
Proof.
  intros Ht Hc Hw Hroom. unfold handle_front. rewrite Hw. set (sl1 := set_wlist w sl).
  assert (tidy sl1) as Ht1 by by apply set_wlist_tidy. assert (clean_request (shard sl1) msg) as Hc1 by done.
  assert (answer_room (set_wlist ((s, msg) :: w) sl1)) as Hroom1.
  { unfold sl1. replace (set_wlist _ (set_wlist w sl)) with sl; [done|]. rewrite <-Hw. by destruct sl. }
  assert (wlist sl1 = w) as Hw1 by done.
  clearbody sl1. unfold handle_request, check_shard. rewrite (cr_shard _ _ Hc1).
  destruct (field_read 4 2 msg (cr_bytes _ _ Hc1)) as (id & Hid & _); [pose proof (cr_long _ _ Hc1); lia|].
  change (field_at 4 2 msg) with (msg_id msg) in Hid. pose proof (cr_known _ _ Hc1 id Hid) as Hk. rewrite Hid.
  cbn [mbind outcome_bind]. rewrite Z.eqb_refl. cbn [mbind outcome_bind cxx_assert].
  unfold known_request in Hk. rewrite !orb_true_iff, !Z.eqb_eq in Hk.
  destruct Hk as [[[[->| ->]| ->]| ->]| ->]; eval_eqb.
  - by apply on_serialize_answered.
  - by eapply on_unserialize_answered.
  - by apply on_delete_answered.
  - exists sl1. split; [done|]. split_and!; [done..|]. exists []. rewrite app_nil_r. split; [done|].
    unfold owed, is_select. cbn [List.filter snd]. by rewrite Hid.
  - by apply on_alter_answered.
Qed.

(** ** Every interleaving *)

(** Each turn finds room for the length of its answer. *)
Fixpoint run_room (evs : list slot_event) sl : Prop :=
  match evs with
  | [] => True
  | ev :: evs =>
      match ev with Work => answer_room sl | _ => True end ∧
      match slot_step Parse ev sl with Ret (_, sl) => run_room evs sl | _ => True end
  end.
Definition arrivals (evs : list slot_event) : list (Z * list Z) :=
  omap (λ ev, match ev with Arrive s msg => Some (s, msg) | _ => None end) evs.
(** The answers that have left, wait, or are owed. *)
Definition ledger (out : list (Z * list Z)) sl : list key :=
  map answer_key (out ++ rlist sl) ++ owed (wlist sl).
(** The lists grow by arrivals only. *)
Definition bounded (n : nat) sl sl' : Prop :=
  (length (wlist sl') ≤ length (wlist sl) + n)%nat ∧
  (length (rlist sl') + length (wlist sl') ≤ length (rlist sl) + length (wlist sl) + n)%nat.
Definition slot_ok sl : Prop := tidy sl ∧ Forall (λ m, clean_request (shard sl) (snd m)) (wlist sl).

Lemma slot_step_answers ev sl : slot_ok sl → (∀ s msg, ev = Arrive s msg → clean_request (shard sl) msg) →
  (ev = Work → answer_room sl) → ∃ out sl', slot_step Parse ev sl = Ret (out, sl') ∧ slot_ok sl' ∧ shard sl' = shard sl ∧
  bounded (length (arrivals [ev])) sl sl' ∧ (ev = Work → wlist sl' = tail (wlist sl)) ∧
  ledger out sl' = ledger [] sl ++ owed (arrivals [ev]).
Proof.
  intros [Ht Hcl] Hev Hroom. unfold ledger, bounded. destruct ev as [s msg| |]; cbn [slot_step arrivals omap list_omap].
  - eexists [], (push_request s msg sl). simpl. split_and!; try done.
    + split; [by apply set_wlist_tidy|]. simpl. apply Forall_app. split; [done|]. constructor; [by eapply Hev|done].
    + list_len.
    + list_len.
    + by rewrite owed_app, <-app_assoc.
  - destruct (wlist sl) as [|[s msg] w] eqn:Ew.
    + exists [], sl. unfold handle_front. rewrite Ew. split_and!; [done|by split; [|rewrite Ew]|done|simpl; lia..|done|].
      cbn [map concat app]. by rewrite !app_nil_r.
    + apply Forall_cons in Hcl as [Hm Hcl].
      destruct (handle_front_answered sl s msg w Ht Hm Ew (Hroom eq_refl)) as (sl' & -> & Ht' & Hs & Hw & l & Hr & Hl).
      exists [], sl'. simpl in Hs, Hw, Hr. assert (length l ≤ 1)%nat as Hlen.
      { rewrite <-(length_map answer_key l), Hl. unfold owed. cbn [List.filter]. destruct (is_select _); simpl; lia. }
      rewrite Hw, Hr. split_and!; [done|split; [done|by rewrite Hw, Hs]|done|simpl; lia|list_len|done|].
      cbn [app owed]. rewrite app_nil_r, map_app, Hl, <-app_assoc. by rewrite <-owed_app.
  - destruct (rlist sl) as [|m r] eqn:Er.
    + exists [], sl. rewrite Er. split_and!; [done|done|done|lia|simpl; lia|done|].
      cbn [map concat app rlist set_rlist wlist]. by rewrite app_nil_r.
    + exists [m], (set_rlist r sl). split_and!; [done| |done|simpl; lia|simpl; lia|done|].
      * by split; [apply set_rlist_tidy|].
      * cbn [map concat app rlist set_rlist wlist]. by rewrite app_nil_r.
Qed.

Lemma slot_run_answers evs : ∀ sl, slot_ok sl → Forall (λ m, clean_request (shard sl) (snd m)) (arrivals evs) → run_room evs sl →
  ∃ out sl', slot_run Parse evs sl = Ret (out, sl') ∧ slot_ok sl' ∧ shard sl' = shard sl ∧
  bounded (length (arrivals evs)) sl sl' ∧ ledger out sl' = ledger [] sl ++ owed (arrivals evs).
Proof.
  induction evs as [|ev evs IH]; intros sl Hok Ha Hroom.
  { exists [], sl. split_and!; [done..|split; simpl; lia|]. by rewrite app_nil_r. }
  destruct Hroom as [Hr1 Hr2].
  destruct (slot_step_answers ev sl Hok) as (out1 & sl1 & E1 & Hok1 & Hs1 & Hb1 & _ & Hl1);
    [intros s msg ->; by apply Forall_cons in Ha as [? _]|by intros ->|].
  rewrite E1 in Hr2. cbn [slot_run]. rewrite E1. cbn [mbind outcome_bind].
  assert (arrivals (ev :: evs) = arrivals [ev] ++ arrivals evs) as Hsplit by by destruct ev.
  rewrite Hsplit in Ha |- *. apply Forall_app in Ha as [_ Ha].
  destruct (IH sl1 Hok1) as (out2 & sl2 & -> & Hok2 & Hs2 & Hb2 & Hl2); [by rewrite Hs1|done|].
  exists (out1 ++ out2), sl2. split_and!; [done|done|congruence| |].
  { destruct Hb1, Hb2. split; rewrite length_app; lia. }
  rewrite owed_app, app_assoc, <-Hl1. unfold ledger in *. simpl in Hl2.
  rewrite <-app_assoc, map_app, <-app_assoc, Hl2. by rewrite map_app, <-!app_assoc.
Qed.

Lemma slot_run_app evs1 evs2 sl : slot_run Parse (evs1 ++ evs2) sl =
  (r ← slot_run Parse evs1 sl; r2 ← slot_run Parse evs2 (snd r); Ret (fst r ++ fst r2, snd r2)).
Proof.
  revert sl. induction evs1 as [|ev evs1 IH]; intros sl; simpl; [by destruct (slot_run Parse evs2 sl) as [[]| |]|].
  destruct (slot_step Parse ev sl) as [[out sl1]| |]; simpl; [|done..]. rewrite IH.
  destruct (slot_run Parse evs1 sl1) as [[out1 sl2]| |]; simpl; [|done..].
  destruct (slot_run Parse evs2 sl2) as [[out2 sl3]| |]; simpl; [|done..]. by rewrite app_assoc.
Qed.

Lemma run_room_prefix evs1 evs2 sl : run_room (evs1 ++ evs2) sl → run_room evs1 sl.
Proof.
  revert sl. induction evs1 as [|ev evs1 IH]; intros sl; simpl; [done|]. intros [? Hr]. split; [done|].
  destruct (slot_step Parse ev sl) as [[out sl1]| |]; [by apply IH|done..].
Qed.

Lemma run_room_app evs1 evs2 sl out sl1 : slot_run Parse evs1 sl = Ret (out, sl1) →
  run_room (evs1 ++ evs2) sl → run_room evs1 sl ∧ run_room evs2 sl1.
Proof.
  revert sl out. induction evs1 as [|ev evs1 IH]; intros sl out E Hr; simpl in *; [by simplify_eq|].
  destruct (slot_step Parse ev sl) as [[out0 sl0]| |]; simpl in E; [|done..].
  destruct (slot_run Parse evs1 sl0) as [[out2 sl2]| |] eqn:E2; simpl in E; [|done..]. injection E as <- <-.
  destruct Hr as [Hr1 Hr2]. destruct (IH sl0 out2 E2 Hr2). done.
Qed.

(** The worker works the list off, and the service thread sends the answers. *)
Lemma works_drain n : ∀ sl, slot_ok sl → (length (wlist sl) ≤ n)%nat → run_room (replicate n Work) sl →
  ∃ out sl', slot_run Parse (replicate n Work) sl = Ret (out, sl') ∧ wlist sl' = [].
Proof.
  induction n as [|n IH]; intros sl Hok Hn Hr; simpl in *; [exists [], sl; by destruct (wlist sl); simpl in *; [|lia]|].
  destruct Hr as [Hr1 Hr2]. destruct (slot_step_answers Work sl Hok) as (out & sl1 & E & Hok1 & _ & _ & Hw & _); [done|done|].
  cbn [slot_step] in E. rewrite E in Hr2 |- *. cbn [mbind outcome_bind].
  destruct (IH sl1 Hok1) as (out2 & sl2 & -> & Hw2); [rewrite (Hw eq_refl); destruct (wlist sl); simpl in *; lia|done|].
  by exists (out ++ out2), sl2.
Qed.

Lemma sends_drain m : ∀ sl, (length (rlist sl) ≤ m)%nat →
  slot_run Parse (replicate m Send) sl = Ret (rlist sl, set_rlist [] sl).
Proof.
  induction m as [|m IH]; intros sl Hm; simpl.
  - destruct sl as [? ? ? ? ? ? [|] ?]; simpl in *; [done|lia].
  - destruct (rlist sl) as [|a r] eqn:Er; cbn [mbind outcome_bind]; rewrite IH by (simpl; simpl in Hm; rewrite ?Er; simpl; lia);
      cbn [mbind outcome_bind]; simpl; [by rewrite Er|done].
Qed.

Lemma arrivals_drain evs n m : arrivals (evs ++ replicate n Work ++ replicate m Send) = arrivals evs.
Proof.
  unfold arrivals. rewrite !omap_app. assert (∀ k ev, (∀ s msg, ev ≠ Arrive s msg) →
    omap (λ ev, match ev with Arrive s msg => Some (s, msg) | _ => None end) (replicate k ev) = []) as Hk.
  { intros k ev Hev. induction k as [|k IH]; [done|]. simpl. destruct ev as [s msg| |]; [by destruct (Hev s msg)|done..]. }
  by rewrite !Hk, !app_nil_r.
Qed.

Lemma slot_drain evs n m sl : slot_ok sl → Forall (λ m, clean_request (shard sl) (snd m)) (arrivals evs) →
  (length (wlist sl) + length (arrivals evs) ≤ n)%nat → (length (rlist sl) + n ≤ m)%nat →
  run_room (evs ++ replicate n Work ++ replicate m Send) sl → ∃ out sl',
  slot_run Parse (evs ++ replicate n Work ++ replicate m Send) sl = Ret (out, sl') ∧ wlist sl' = [] ∧ rlist sl' = [].
Proof.
  intros Hok Ha Hn Hm Hroom.
  destruct (slot_run_answers evs sl Hok Ha (run_room_prefix _ _ _ Hroom)) as (out1 & sl1 & E1 & Hok1 & Hs1 & [Hb1 Hb2] & _).
  apply (run_room_app _ _ _ _ _ E1) in Hroom as [_ Hroom].
  pose proof (arrivals_drain [] n 0) as Hnil. simpl in Hnil. rewrite app_nil_r in Hnil.
  destruct (slot_run_answers (replicate n Work) sl1 Hok1) as (out2 & sl2 & E2 & _ & _ & [_ Hb3] & _);
    [by rewrite Hnil|by eapply run_room_prefix|]. rewrite Hnil in Hb3. simpl in Hb3.
  destruct (works_drain n sl1 Hok1) as (out & sl' & E & Hw); [lia|by eapply run_room_prefix|].
  rewrite E2 in E. injection E as <- <-.
  exists (out1 ++ out2 ++ rlist sl2), (set_rlist [] sl2). rewrite slot_run_app, E1. cbn [mbind outcome_bind fst snd].
  rewrite slot_run_app, E2. cbn [mbind outcome_bind fst snd]. rewrite sends_drain by lia. done.
Qed.

(** A turn takes a Select off the list and does nothing else. *)
Lemma select_unanswered sl s msg w : slot_ok sl → wlist sl = (s, msg) :: w → is_select (s, msg) = true →
  slot_step Parse Work sl = Ret ([], set_wlist w sl).
Proof.
  intros [Ht Hc] Hw Hs. rewrite Hw in Hc. apply Forall_cons in Hc as [Hm _]. cbn [slot_step]. unfold handle_front, handle_request, check_shard. rewrite Hw.
  unfold is_select in Hs. cbn [snd] in *. destruct (msg_id msg) as [id| |] eqn:Hid; [|done..]. apply Z.eqb_eq in Hs as ->.
  cbn [mbind outcome_bind]. rewrite (cr_shard _ _ Hm). cbn [mbind outcome_bind set_wlist shard]. rewrite Z.eqb_refl. by cbn.
Qed.

(** C13 (liveness): every request but a Select is answered exactly once, in order, and an
    ObjectSelectRequest, which the service accepts, never is: its turn drops it.  Over a database that
    keeps [RecordDatabaseLaws], for requests that are complete and have clean names
    ([clean_request]), while the text of every answer has a length of 32 bits ([run_room]): however
    the arrivals, the turns of the worker and the sendings interleave, no step fails, and the
    answers that have left, then those that wait, then those owed to the requests still waiting
    are, by socket, kind, shard, table and object, those of the requests other than Selects in the
    order of their arrival; when the worker then gets as many turns as there are requests and the
    service thread sends what waits, all of them have left. *)
Theorem record_answers evs sl : slot_ok sl → Forall (λ m, clean_request (shard sl) (snd m)) (arrivals evs) →
  let answerable := List.filter (λ m, negb (is_select m)) (arrivals evs) in
  (run_room evs sl → ∃ out sl', slot_run Parse evs sl = Ret (out, sl') ∧
     ledger out sl' = ledger [] sl ++ map request_key answerable) ∧
  (∀ n m, (length (wlist sl) + length (arrivals evs) ≤ n)%nat → (length (rlist sl) + n ≤ m)%nat →
     run_room (evs ++ replicate n Work ++ replicate m Send) sl → ∃ out sl',
     slot_run Parse (evs ++ replicate n Work ++ replicate m Send) sl = Ret (out, sl') ∧
     wlist sl' = [] ∧ rlist sl' = [] ∧
     map answer_key out = ledger [] sl ++ map request_key answerable) ∧
  (∀ s msg w, wlist sl = (s, msg) :: w → is_select (s, msg) = true → slot_step Parse Work sl = Ret ([], set_wlist w sl)).
Proof.
  intros Hok Ha answerable. split; [|split; [|intros s msg w; by apply select_unanswered]].
  { intros Hr. destruct (slot_run_answers evs sl Hok Ha Hr) as (out & sl' & E & _ & _ & _ & Hl). eauto. }
  { intros n m Hn Hm Hroom. destruct (slot_drain evs n m sl Hok Ha Hn Hm Hroom) as (out & sl' & E & Hw & Hr).
  destruct (slot_run_answers (evs ++ replicate n Work ++ replicate m Send) sl Hok) as (out' & sl2 & E' & _ & _ & _ & Hl);
    [by rewrite arrivals_drain|done|]. rewrite E in E'. injection E' as <- <-. rewrite arrivals_drain in Hl.
  exists out, sl'. split_and!; [done..|]. unfold ledger in Hl at 1. by rewrite Hw, Hr, !app_nil_r in Hl. }
Qed.
End Answers.

(** ** The requests of a client are clean *)

Lemma quotable_no_nul s : quotable s → no_nul s.
Proof. unfold quotable. rewrite Forall_forall. intros Hs Hin. destruct (Hs 0 Hin). lia. Qed.

Lemma quotable_bytes_ok s : quotable s → bytes_ok s.
Proof. unfold quotable. intros Hs. eapply Forall_impl; [exact Hs|]. unfold byte_ok. simpl. lia. Qed.

Section ClientRequests.
Context {F : Type} (Parse : list Z → option (json_root F)) (id sh oid : Z) (table : list Z).
Context (Hsh : fits 32 sh) (Hoid : fits 64 oid) (Hq : quotable table) (Hlen : (length table ≤ 15)%nat).

Lemma header_bytes_ok len : bytes_ok (netmsg_header len id ++ object_header sh table oid).
Proof using Hq.
  unfold netmsg_header, object_header, strncpy16. rewrite !Forall_app. split_and!; try apply le_bytes_ok.
  apply Forall_take, Forall_app. split; [by apply c_str_bytes_ok, quotable_bytes_ok|by apply bytes_ok_replicate].
Qed.

Lemma clean_header len rest : fits 16 id → known_request id = true → bytes_ok rest →
  request_size id (netmsg_header len id ++ object_header sh table oid ++ rest) = Ret (40 + Z.of_nat (length rest)) →
  (id = ObjectSerializeRequest → ∀ ms, Parse (drop 4 rest) = Some (RObject ms) →
    Forall (λ m : list Z * json_value F, quotable (c_str (fst m))) ms) →
  clean_request Parse sh (netmsg_header len id ++ object_header sh table oid ++ rest).
Proof using Hsh Hoid Hq Hlen.
  intros Hid Hk Hb Hsize Hms.
  destruct (header_fields len id sh oid table rest Hid Hsh Hoid) as (_ & Ei & Es & _ & _ & Ed & Et & El).
  split; [| |intros id'; by rewrite Ei; intros [= <-]| |done| |].
  - rewrite app_assoc. apply Forall_app. split; [apply header_bytes_ok|done].
  - rewrite El. lia.
  - rewrite Ei. intros id' [= <-]. rewrite Hsize, El. f_equal. lia.
  - exists table. split; [|done]. unfold msg_table. rewrite Et.
    destruct (strncpy16_short table (le_bytes 8 oid ++ rest) (quotable_no_nul _ Hq) Hlen) as [Hin Hc].
    by rewrite bool_decide_true, Hc.
  - rewrite Ei. intros ms [= Eid]. change 44%nat with (40 + 4)%nat. rewrite <-drop_drop, Ed. by apply Hms.
Qed.

Lemma plain_clean : id = ObjectUnserializeRequest ∨ id = ObjectDeleteRequest →
  clean_request Parse sh (plain_message id sh table oid).
Proof using Hsh Hoid Hq Hlen.
  intros Hor. unfold plain_message. rewrite <-(app_nil_r (object_header sh table oid)).
  apply clean_header; [| |constructor| |]; destruct Hor as [->| ->]; done.
Qed.

Lemma data_clean js : id = ObjectSerializeRequest ∨ id = ObjectAlterRequest ∨ id = ObjectSelectRequest →
  bytes_ok js → Z.of_nat (length js) < 2 ^ 32 →
  (∀ ms, Parse js = Some (RObject ms) → Forall (λ m : list Z * json_value F, quotable (c_str (fst m))) ms) →
  clean_request Parse sh (data_message id sh table oid js).
Proof using Hsh Hoid Hq Hlen.
  intros Hor Hb Hl Hms. unfold data_message. set (n := u32 (Z.of_nat (length js))).
  assert (n = Z.of_nat (length js)) as Hn by (apply wrap_id; unfold fits; lia).
  assert (fits 16 id ∧ known_request id = true ∧ ∀ msg, request_size id msg = data_size msg) as (Hid & Hk & Hsize)
    by (destruct Hor as [->|[->| ->]]; split_and!; done).
  apply clean_header; [done|done|apply Forall_app; split; [apply le_bytes_ok|done]| |].
  - rewrite Hsize. unfold data_size, msg_datalen. rewrite (app_assoc (netmsg_header _ _)), (field_at_fits 40 4).
    + cbn [mbind outcome_bind]. f_equal. rewrite length_app, length_le_bytes. lia.
    + by rewrite length_app, length_object_header.
    + split; lia.
  - intros _. by rewrite drop_app_length'.
Qed.
End ClientRequests.

(** ** At a concrete run *)

Definition demo_js : list Z := json_object (members_of false demo_entity).
Definition demo_events : list slot_event := [
  Arrive 5 (data_message ObjectSerializeRequest 1 (str "players") 9 demo_js); Work;
  Arrive 7 (plain_message ObjectUnserializeRequest 1 (str "players") 9); Work; Send; Send].

Lemma demo_slot_ok : slot_ok demo_Parse demo_slot.
Proof.
  split; [|constructor]. split; [split|by intros oid e Ho|unfold fits; simpl; lia].
  - intros t fs Hf. done.
  - intros t cols Hc. done.
Qed.

Lemma demo_arrivals : Forall (λ m : Z * list Z, clean_request demo_Parse 1 (snd m)) (arrivals demo_events).
Proof.
  assert (quotable (str "players")) as Hq by (apply (bool_decide_unpack _); vm_compute; exact I).
  change (arrivals demo_events) with [(5, data_message ObjectSerializeRequest 1 (str "players") 9 demo_js);
    (7, plain_message ObjectUnserializeRequest 1 (str "players") 9)].
  apply Forall_cons; split; [|apply Forall_cons; split; [|constructor]]; cbn [snd].
  - apply data_clean; [unfold fits; lia|unfold fits; lia|done|simpl; lia|by left| |by vm_compute|].
    + apply (bool_decide_unpack _). vm_compute. exact I.
    + unfold demo_Parse, demo_js. rewrite decide_True by done. intros ms [= <-].
      apply (bool_decide_unpack _). vm_compute. exact I.
  - apply plain_clean; [unfold fits; lia|unfold fits; lia|done|simpl; lia|by left].
Qed.

Lemma record_answers_witness : ∃ out sl, slot_run demo_Parse demo_events demo_slot = Ret (out, sl) ∧
  map answer_key out ++ map answer_key (rlist sl) ++ owed (wlist sl)
  = [(5, Ret ObjectSerializeResponse, Ret 1, strncpy16 (str "players"), Ret 9);
     (7, Ret ObjectUnserializeResponse, Ret 1, strncpy16 (str "players"), Ret 9)].
Proof.
  destruct (record_answers demo_Parse demo_events demo_slot demo_slot_ok demo_arrivals) as [Hrun _].
  destruct Hrun as (out & sl & E & Hl).
  - vm_compute. repeat split.
  - exists out, sl. split; [exact E|]. unfold ledger in Hl. rewrite map_app, <-app_assoc in Hl. rewrite Hl.
    vm_compute. reflexivity.
Defined.
