(* ===== verification/RecordStart.v ===== *)
(** * The life of the record server: db.xml, the threads of the slots, the stop

    RecordProcessManager::init, the thread of a slot (SlotDatabase::update) and the stop of
    RecordProcess.cpp and RecordProcessManager.cpp in src/server/recordserver/src.  What
    RecordService.v takes for granted of the shards is what a start that succeeds gives. *)

From S2P Require Import Prelude CLib Strings Registry Entity Descriptor RecordProtocol RecordSchema RecordProcess RecordDatabase RecordToy RecordStore RecordService RecordAnswers.

(** ** RecordProcessManager::init *)

Section Start.
Context {F : Type} `{FloatText F} {D : Type} `{MySQLApi D} `{!Walk Z (RecordProcess F D)}.
Context (SLOT_HASH_VALUE : Z).
(** What the connection of a slot of a shard finds, given its configuration. *)
Context (connect : Z → nat → MySQLConfig → init_io * D).
Abbreviation processes := (gmap Z (RecordProcess F D)).
Abbreviation confs := (gmap Z (list (list Z))).

(** The "mysql" children of a shard. *)
Fixpoint mysql_nodes (node : xml) (v : list (list Z)) : outcome (list (list Z)) :=
  match node with
  | Null => Ret v
  | Node tag _ _ next =>
      if bool_decide (tag = str "mysql")
      then conf ← getValueByString node (Some (str "conf")) []; mysql_nodes next (v ++ [c_str conf])
      else mysql_nodes next v
  end.
(** The turn of the first loop for one shard; its name is only kept. *)
Definition shard_node (node : xml) (pm : processes) (cf : confs) : outcome (bool * (processes * confs)) :=
  shard ← getValueByInteger node (Some (str "id")) 0;
  match pm !! shard with
  | Some _ => Ret (false, (pm, cf))
  | None =>
      node_mysql ← getChildNode node (Some (str "mysql"));
      v ← mysql_nodes node_mysql (default [] (cf !! shard));
      let cf := <[shard := v]> cf in
      if Z.of_nat (length v) =? SLOT_HASH_VALUE
      then Ret (true, (<[shard := MkProcess shard []]> pm, cf))
      else Ret (false, (pm, cf))
  end.
Fixpoint shard_nodes (node : xml) (pm : processes) (cf : confs) : outcome (bool * (processes * confs)) :=
  match node with
  | Null => Ret (true, (pm, cf))
  | Node tag _ _ next =>
      if bool_decide (tag = str "shard") then
        r ← shard_node node pm cf;
        let '(rc, (pm, cf)) := r : bool * (processes * confs) in
        if rc then shard_nodes next pm cf else Ret (false, (pm, cf))
      else shard_nodes next pm cf
  end.

(** [openDatabase(conf)]: a configuration that can not be read opens nothing. *)
Definition slot_conn (sh : Z) (n : nat) (conf : list Z) : outcome (init_io * D) :=
  '(rc, c) ← parsefrom conf (MkConfig [] 0 [] [] []);
  let '(io, d) := connect sh n c in
  Ret (if (rc : bool) then io else MkInit false (io_databases io) (io_select io) (io_tables io), d).
Fixpoint slot_conns (sh : Z) (n : nat) (v : list (list Z)) : outcome (list (init_io * D)) :=
  match v with
  | [] => Ret []
  | conf :: v => c ← slot_conn sh n conf; cs ← slot_conns sh (S n) v; Ret (c :: cs)
  end.
(** The second loop, over the shards in the order of the map. *)
Fixpoint init_loop (shards : list Z) (cf : confs) (pm : processes) : outcome (bool * processes) :=
  match shards with
  | [] => Ret (true, pm)
  | sh :: shards =>
      match pm !! sh with
      | None => init_loop shards cf pm
      | Some p =>
          let v := default [] (cf !! sh) in
          _ ← cxx_assert (Z.of_nat (length v) =? SLOT_HASH_VALUE);
          ios ← slot_conns sh 0 v;
          '(rc, p) ← process_init SLOT_HASH_VALUE ios p;
          if (rc : bool) then init_loop shards cf (<[sh := p]> pm) else Ret (false, <[sh := p]> pm)
      end
  end.
(** [doc] is the document of "db.conf.filename", [None] when it can not be read or parsed. *)
Definition manager_init (doc : option xml) (pm : processes) : outcome (bool * processes) :=
  match doc with
  | None | Some Null => Ret (false, pm)
  | Some root =>
      node ← getChildNode root (Some (str "shard"));
      r ← shard_nodes node pm ∅;
      let '(rc, (pm, cf)) := r : bool * (processes * confs) in
      if rc then init_loop (map fst (walk pm)) cf pm else Ret (false, pm)
  end.
End Start.

(** ** The thread of a slot *)

Section Life.
Context {F : Type} `{FloatText F} {D : Type} `{MySQLApi D} `{!Walk (list Z) (Value F)}.
Context (Parse : list Z → option (json_root F)).
Implicit Types (sl : SlotDatabase F D).

(** Where [SlotDatabase::update] is: before the test of [isstop], in [synchronous] of the loop
    or after it, or returned. *)
Inductive phase := Looking | Working | LastWork | Gone.
(** A step: [isstop] as the thread finds it, and the answer of [try_lock]. *)
Definition thread_step (isstop lock : bool) (ps : phase * SlotDatabase F D) : outcome (phase * SlotDatabase F D) :=
  let '(p, sl) := ps in
  match p with
  | Looking => Ret (if isstop then LastWork else Working, sl)
  | Working | LastWork =>
      match wlist sl, lock with
      | _ :: _, true => sl ← handle_front Parse sl; Ret (p, sl)
      | _, _ => Ret (match p with Working => Looking | _ => Gone end, sl)
      end
  | Gone => Ret (Gone, sl)
  end.
Fixpoint thread_run (steps : list (bool * bool)) (ps : phase * SlotDatabase F D) : outcome (phase * SlotDatabase F D) :=
  match steps with
  | [] => Ret ps
  | (isstop, lock) :: steps => ps ← thread_step isstop lock ps; thread_run steps ps
  end.
(** [stop], once the thread is joined: what is left of the slot before it is deleted. *)
Definition slot_stop (closed : D) sl : SlotDatabase F D := set_db closed (set_entities ∅ sl).
End Life.

(** ** What a start that succeeds leaves *)

(** A slot as [new_Slot] makes it, but for its database and the descriptions of its tables. *)
Definition fresh {F D} (sh : Z) (n : nat) (sl : SlotDatabase F D) : Prop :=
  shard sl = sh ∧ sid sl = Z.of_nat n ∧ entities sl = ∅ ∧ wlist sl = [] ∧ rlist sl = [].

Section Started.
Context {F : Type} `{FloatText F} {D : Type} `{MySQLApi D} `{!Walk Z (RecordProcess F D)} `{!WalkLaws Z (RecordProcess F D)}.
Context (SLOT_HASH_VALUE : Z) (connect : Z → nat → MySQLConfig → init_io * D).
Implicit Types (sl : SlotDatabase F D) (p : RecordProcess F D) (pm : gmap Z (RecordProcess F D)) (cf : gmap Z (list (list Z))).

Lemma loadField_fresh t sl rc sl' sh n : loadField t sl = Ret (rc, sl') → fresh sh n sl → fresh sh n sl'.
Proof using Type.
  unfold loadField. destruct (runQuery _ _) as [[r|] d]; [|done]. destruct (load_columns _ _) as [b fs]. by intros [= <- <-].
Qed.
Lemma load_tables_fresh ts sh n : ∀ sl rc sl', load_tables ts sl = Ret (rc, sl') → fresh sh n sl → fresh sh n sl'.
Proof using Type.
  induction ts as [|t ts IH]; intros sl rc sl'; cbn [load_tables]; [by intros [= <- <-]|].
  intros ([b sl1] & E & E2)%bind_Ret Hf. pose proof (loadField_fresh _ _ _ _ _ _ E Hf) as Hf1.
  destruct b; [by eapply IH|by injection E2 as <- <-].
Qed.
Lemma slot_init_fresh io sl rc sl' sh n : slot_init io sl = Ret (rc, sl') → fresh sh n sl → fresh sh n sl'.
Proof using Type.
  unfold slot_init. destruct (io_open io); [|by intros [= <- <-]]. destruct (io_databases io) as [rs|]; [|by intros [= <- <-]].
  destruct (if bool_decide _ then _ else _) as [b d]. destruct (b && io_select io); [|by intros [= <- <-]].
  destruct (io_tables io) as [ts|]; [|by intros [= <- <-]]. intros E Hf. eapply load_tables_fresh; [exact E|done].
Qed.

(** All slots of a process are as they should be. *)
Definition fresh_slots p : Prop := ∀ n sl, _slots p !! n = Some sl → fresh (pid p) n sl.

Lemma init_slots_fresh ios : ∀ p rc p', init_slots ios p = Ret (rc, p') → fresh_slots p →
  pid p' = pid p ∧ fresh_slots p' ∧ (rc = true → length (_slots p') = (length (_slots p) + length ios)%nat).
Proof using Type.
  induction ios as [|[io d] ios IH]; intros p rc p'; cbn [init_slots].
  - intros [= <- <-] Hf. split_and!; [done..|simpl; lia].
  - intros ([b sl] & E & E2)%bind_Ret Hf. assert (fresh (pid p) (length (_slots p)) sl) as Hsl by by eapply slot_init_fresh.
    destruct b; [|by injection E2 as <- <-]. apply IH in E2 as (-> & Hf' & Hl).
    + split_and!; [done..|]. intros Hrc. rewrite (Hl Hrc). simpl. list_len.
    + intros n x Hx. cbn [set_slots pid _slots] in *. apply lookup_app_Some in Hx as [Hx|[Hn Hx]]; [by apply Hf|].
      apply list_lookup_singleton_Some in Hx as [Hz <-]. by replace n with (length (_slots p)) by lia.
Qed.

Lemma process_init_fresh ios p rc p' : process_init SLOT_HASH_VALUE ios p = Ret (rc, p') → _slots p = [] →
  pid p' = pid p ∧ fresh_slots p' ∧ (rc = true → Z.of_nat (length (_slots p')) = SLOT_HASH_VALUE).
Proof using Type.
  unfold process_init. intros (u & _ & ([b p1] & E & E2)%bind_Ret)%bind_Ret Hp.
  destruct (init_slots_fresh ios p b p1 E) as (Hid & Hf & _); [intros n sl; by rewrite Hp|].
  destruct b; [|by injection E2 as <- <-]. apply bind_Ret in E2 as (u' & Hu & [= <- <-]). split_and!; [done..|].
  intros _. unfold cxx_assert in Hu. by destruct (Z.eqb_spec (Z.of_nat (length (_slots p1))) SLOT_HASH_VALUE).
Qed.

(** Shards that are known but not started yet. *)
Definition unstarted pm : Prop := ∀ sh p, pm !! sh = Some p → p = MkProcess sh [].

Lemma shard_nodes_unstarted node : ∀ pm cf rc pm' cf', shard_nodes SLOT_HASH_VALUE node pm cf = Ret (rc, (pm', cf')) →
  unstarted pm → unstarted pm'.
Proof using Type.
  induction node as [|tag attrs child _ next IH]; intros pm cf rc pm' cf'; cbn [shard_nodes]; [by intros [= <- <- <-]|].
  case_bool_decide; [|by apply IH]. intros ([b [pm1 cf1]] & E & E2)%bind_Ret Hu.
  assert (unstarted pm1) as Hu1.
  { unfold shard_node in E. apply bind_Ret in E as (sh & _ & E). destruct (pm !! sh); [by injection E as <- <- <-|].
    apply bind_Ret in E as (nm & _ & (v & _ & E)%bind_Ret). destruct (_ =? _); injection E as <- <- <-; [|done].
    intros i q [[<- <-]|[_ Hq]]%lookup_insert_Some; [done|by apply Hu]. }
  destruct b; [by eapply IH|by injection E2 as <- <- <-].
Qed.

(** The second loop: the shards it has been through are complete. *)
Lemma init_loop_starts cf l : ∀ pm pm', NoDup l → init_loop SLOT_HASH_VALUE connect l cf pm = Ret (true, pm') →
  (∀ sh p, pm !! sh = Some p → sh ∈ l → p = MkProcess sh []) →
  dom pm' = dom pm ∧ (∀ sh, sh ∉ l → pm' !! sh = pm !! sh) ∧
  ∀ sh p, sh ∈ l → pm' !! sh = Some p → pid p = sh ∧ fresh_slots p ∧ Z.of_nat (length (_slots p)) = SLOT_HASH_VALUE.
Proof using Type.
  induction l as [|sh l IH]; intros pm pm'; cbn [init_loop].
  { intros _ [= <-] _. split_and!; [done..|]. by intros sh p ?%elem_of_nil. }
  intros [Hsh Hnd]%NoDup_cons. destruct (pm !! sh) as [p|] eqn:Ep.
  - intros (u & _ & (ios & _ & ([b p1] & E & E2)%bind_Ret)%bind_Ret)%bind_Ret Hpm. destruct b; [|done].
    assert (p = MkProcess sh []) as -> by (apply Hpm; [done|by left]).
    destruct (process_init_fresh _ _ _ _ E eq_refl) as (Hid & Hf & Hl). apply IH in E2 as (Hd & Hout & Hin); [|done|].
    + split_and!.
      * rewrite Hd. apply dom_insert_lookup_L. by eexists.
      * intros i [Hne Hi]%not_elem_of_cons. by rewrite Hout, lookup_insert_ne by done.
      * intros i q [->|Hi]%elem_of_cons; [|by apply Hin]. rewrite Hout, lookup_insert_eq by done. intros [= <-]. by split_and!; [|..|apply Hl].
    + intros i q [[<- <-]|[_ Hq]]%lookup_insert_Some Hi; [done|]. apply Hpm; [done|by right].
  - intros E Hpm. apply IH in E as (Hd & Hout & Hin); [|done|intros i q Hq Hi; apply Hpm; [done|by right]]. split_and!; [done| |].
    + intros i [Hne Hi]%not_elem_of_cons. by apply Hout.
    + intros i q [->|Hi]%elem_of_cons; [|by apply Hin]. rewrite Hout by done. by rewrite Ep.
Qed.

Lemma walk_keys pm : NoDup (map fst (walk pm)) ∧ ∀ sh, sh ∈ map fst (walk pm) ↔ is_Some (pm !! sh).
Proof using WalkLaws0.
  split.
  - rewrite (walk_all pm). apply NoDup_fst_map_to_list.
  - intros sh. rewrite (walk_all pm). rewrite list_elem_of_fmap. split.
    + intros ([i p] & -> & Hp%elem_of_map_to_list). by eexists.
    + intros [p Hp]. exists (sh, p). split; [done|]. by apply elem_of_map_to_list.
Qed.

Lemma manager_init_configures doc pm : 0 < SLOT_HASH_VALUE < 2 ^ 32 → manager_init SLOT_HASH_VALUE connect doc ∅ = Ret (true, pm) →
  configured SLOT_HASH_VALUE pm ∧ ∀ sh p, pm !! sh = Some p → fresh_slots p.
Proof using All.
  intros Hs. unfold manager_init. destruct doc as [[|tag attrs child next]|]; [done| |done].
  intros (node & _ & ([b [pm1 cf]] & E & E2)%bind_Ret)%bind_Ret. destruct b; [|done].
  assert (unstarted pm1) as Hu by (eapply shard_nodes_unstarted; [exact E|done]).
  destruct (walk_keys pm1) as [Hnd Hk]. apply init_loop_starts in E2 as (Hd & _ & Hin); [|done|by intros sh p Hp _; apply Hu].
  assert (∀ sh p, pm !! sh = Some p → sh ∈ map fst (walk pm1)) as Hall.
  { intros sh p Hp. apply Hk. apply elem_of_dom. rewrite <- Hd. by apply elem_of_dom_2 in Hp. }
  split; [split; [done|]|]; intros sh p Hp; destruct (Hin sh p (Hall _ _ Hp) Hp) as (H1' & H2' & H3'); done.
Qed.
End Started.

(** ** Documents *)

(** A shard of db.xml: its number, its name and the configurations of its slots. *)
Abbreviation shard_conf := (Z * list Z * list (list Z))%type.
Fixpoint mysql_xml (v : list (list Z)) : xml :=
  match v with [] => Null | conf :: v => Node (str "mysql") [(str "conf", conf)] Null (mysql_xml v) end.
Fixpoint shards_xml (ss : list shard_conf) : xml :=
  match ss with
  | [] => Null
  | (id, name, v) :: ss => Node (str "shard") [(str "id", dec id); (str "name", name)] (mysql_xml v) (shards_xml ss)
  end.
Definition db_document (ss : list shard_conf) : xml := Node (str "root") [] (shards_xml ss) Null.
Definition shard_id (s : shard_conf) : Z := fst (fst s).
Definition written (s : shard_conf) : Prop := fits 32 (shard_id s) ∧ Forall no_nul (snd s).

Lemma free_insert {A} id (p : A) (pm : gmap Z A) (ss : list shard_conf) :
  (Forall (λ s, <[id := p]> pm !! shard_id s = None) ss) ↔
  (id ∉ map shard_id ss) ∧ Forall (λ s, pm !! shard_id s = None) ss.
Proof.
  induction ss as [|s ss IH]; cbn [map].
  - split; [intros _; split; [apply not_elem_of_nil|constructor]|intros _; constructor].
  - rewrite !Forall_cons, IH, not_elem_of_cons, lookup_insert_None. tauto.
Qed.

Section Documents.
Context {F : Type} `{FloatText F} {D : Type} `{MySQLApi D} `{!Walk Z (RecordProcess F D)} `{!WalkLaws Z (RecordProcess F D)}.
Context (SLOT_HASH_VALUE : Z) (connect : Z → nat → MySQLConfig → init_io * D).
Implicit Types (sl : SlotDatabase F D) (p : RecordProcess F D) (pm : gmap Z (RecordProcess F D)) (cf : gmap Z (list (list Z))).
Implicit Types (ss : list shard_conf).

Lemma mysql_nodes_xml v : ∀ v0, Forall no_nul v → mysql_nodes (find_node (str "mysql") (mysql_xml v)) v0 = Ret (v0 ++ v).
Proof using Type.
  intros v0 Hv. assert (find_node (str "mysql") (mysql_xml v) = mysql_xml v) as -> by by destruct v.
  revert v0. induction Hv as [|conf v Hc Hv IH]; intros v0; cbn [mysql_xml mysql_nodes]; [by rewrite app_nil_r|].
  rewrite bool_decide_eq_true_2 by done. change (getValueByString _ (Some (str "conf")) []) with (Ret conf).
  cbn [mbind outcome_bind]. by rewrite (c_str_id conf), IH, <- app_assoc.
Qed.

(** Each shard is there once, with the right number of slots. *)
Definition well_formed ss : Prop := NoDup (map shard_id ss) ∧ Forall (λ s, Z.of_nat (length (snd s)) = SLOT_HASH_VALUE) ss.
#[local] Instance well_formed_dec ss : Decision (well_formed ss).
Proof using Type. unfold well_formed. apply _. Defined.

Definition shard_turn (s : shard_conf) pm cf : bool * (gmap Z (RecordProcess F D) * gmap Z (list (list Z))) :=
  if bool_decide (is_Some (pm !! shard_id s)) then (false, (pm, cf))
  else let cf := <[shard_id s := snd s]> cf in
       if Z.of_nat (length (snd s)) =? SLOT_HASH_VALUE then (true, (<[shard_id s := MkProcess (shard_id s) []]> pm, cf)) else (false, (pm, cf)).

Lemma shard_node_xml s next pm cf : written s → (pm !! shard_id s = None → cf !! shard_id s = None) →
  shard_node SLOT_HASH_VALUE (Node (str "shard") [(str "id", dec (shard_id s)); (str "name", snd (fst s))] (mysql_xml (snd s)) next) pm cf
  = Ret (shard_turn s pm cf).
Proof using Type.
  intros [Hid Hv] Hcf. unfold shard_node, shard_turn.
  change (getValueByInteger _ (Some (str "id")) 0) with (Ret (u32 (strtoul (dec (shard_id s))))).
  rewrite strtoul_dec by (destruct Hid; split; lia). unfold u32. rewrite wrap_id by done. cbn [mbind outcome_bind getChildNode].
  destruct (pm !! shard_id s) as [p|]; [by rewrite bool_decide_eq_true_2 by by eexists|].
  rewrite bool_decide_eq_false_2 by by intros [? ?]. rewrite Hcf, mysql_nodes_xml by done. cbn [mbind outcome_bind default app].
  by destruct (_ =? _).
Qed.

Definition tables_agree pm cf : Prop := ∀ i, pm !! i = None → cf !! i = None.

(** The first loop goes through exactly when the document is well-formed; then it knows
    the shards with their configurations. *)
Lemma shard_nodes_spec ss : ∀ pm cf, Forall written ss → tables_agree pm cf → ∃ rc pm' cf',
  shard_nodes SLOT_HASH_VALUE (shards_xml ss) pm cf = Ret (rc, (pm', cf')) ∧
  (rc = true ↔ well_formed ss ∧ Forall (λ s, pm !! shard_id s = None) ss) ∧
  (rc = true → dom pm' = dom pm ∪ list_to_set (map shard_id ss) ∧ (∀ i, i ∉ map shard_id ss → cf' !! i = cf !! i) ∧
    ∀ s, s ∈ ss → cf' !! shard_id s = Some (snd s)).
Proof using Type. clear connect.
  induction ss as [|s ss IH]; intros pm cf Hw Hag; cbn [shards_xml shard_nodes].
  { exists true, pm, cf. split_and!; [done|..].
    - split; [intros _|done]. split; [split|]; constructor.
    - intros _. split_and!; [cbn [map list_to_set]; by rewrite (right_id_L ∅ (∪))|done|]. by intros s ?%elem_of_nil. }
  apply Forall_cons in Hw as [Hs Hw]. destruct s as [[id name] v]. cbn [shard_nodes]. rewrite bool_decide_eq_true_2 by done.
  pose proof (shard_node_xml (id, name, v) (shards_xml ss) pm cf Hs (Hag id)) as En. cbn [shard_id fst snd] in En. rewrite En.
  cbn [mbind outcome_bind]. unfold shard_turn. cbn [shard_id fst snd].
  case_bool_decide as Ep.
  { exists false, pm, cf. split_and!; [done|split; [done|]|done]. intros [_ Hn]. apply Forall_cons in Hn as [Hn _]. cbn [shard_id fst] in Hn.
    rewrite Hn in Ep. by destruct Ep. }
  apply eq_None_not_Some in Ep. destruct (Z.eqb_spec (Z.of_nat (length v)) SLOT_HASH_VALUE) as [El|El].
  2: { eexists false, _, _. split_and!; [done|split; [done|]|done]. intros [[_ Hl] _]. by apply Forall_cons in Hl as [Hl _]. }
  destruct (IH (<[id := MkProcess id []]> pm) (<[id := v]> cf) Hw) as (rc & pm' & cf' & E & Hrc & Hres).
  { intros i [Hi Hne]%lookup_insert_None. rewrite lookup_insert_ne by done. by apply Hag. }
  exists rc, pm', cf'. split; [done|]. split.
  - rewrite Hrc. unfold well_formed. cbn [map]. rewrite NoDup_cons, !Forall_cons. cbn [snd].
    rewrite (free_insert id _ pm ss). tauto.
  - intros Ht. destruct (Hres Ht) as (Hd & Hout & Hin). destruct (proj1 Hrc Ht) as [_ Hfree]. cbn [map]. split_and!.
    + rewrite Hd, dom_insert_L. cbn [list_to_set shard_id fst]. by rewrite (assoc_L (∪)), (comm_L (∪) {[id]}).
    + intros i [Hne Hi]%not_elem_of_cons. by rewrite Hout, lookup_insert_ne by done.
    + intros s' [->|Hs']%elem_of_cons; [|by apply Hin]. cbn [shard_id fst snd]. rewrite Hout; [apply lookup_insert_eq|].
      rewrite list_elem_of_fmap. intros (s' & E' & Hs'). pose proof (proj1 (Forall_forall _ _) Hfree s' Hs') as Hno. cbn in Hno.
      by rewrite <- E', lookup_insert_eq in Hno.
Qed.

(** The connection of a slot can be opened and its database set up. *)
Definition conn_ready (sh : Z) (n : nat) (conf : list Z) : Prop := ∃ io d sl,
  slot_conn connect sh n conf = Ret (io, d) ∧ slot_init io (new_Slot sh (Z.of_nat n) d) = Ret (true, sl).

Lemma slots_start sh v : ∀ n p, (∀ k conf, v !! k = Some conf → conn_ready sh (n + k) conf) → pid p = sh → length (_slots p) = n →
  ∃ ios p', slot_conns connect sh n v = Ret ios ∧ length ios = length v ∧ init_slots ios p = Ret (true, p').
Proof using Type.
  induction v as [|conf v IH]; intros n p Hr Hp Hl; cbn [slot_conns]; [by exists [], p|].
  destruct (Hr 0%nat conf eq_refl) as (io & d & sl & Ec & Ei). rewrite Nat.add_0_r in Ec, Ei. rewrite Ec. cbn [mbind outcome_bind].
  destruct (IH (S n) (set_slots (_slots p ++ [sl]) p)) as (ios & p' & -> & Hlen & E).
  - intros k c Hk. replace (S n + k)%nat with (n + S k)%nat by lia. by apply Hr.
  - done.
  - cbn [set_slots _slots]. list_len.
  - exists ((io, d) :: ios), p'. split_and!; [done|simpl; lia|]. cbn [init_slots]. rewrite Hp, Hl, Ei. exact E.
Qed.

Lemma init_loop_ready cf l : ∀ pm, NoDup l → (∀ sh, sh ∈ l → pm !! sh = Some (MkProcess sh []) ∧
    ∃ v, cf !! sh = Some v ∧ Z.of_nat (length v) = SLOT_HASH_VALUE ∧ ∀ k conf, v !! k = Some conf → conn_ready sh k conf) →
  ∃ pm', init_loop SLOT_HASH_VALUE connect l cf pm = Ret (true, pm').
Proof using Type.
  induction l as [|sh l IH]; intros pm Hnd Hl; cbn [init_loop]; [by eexists|]. apply NoDup_cons in Hnd as [Hsh Hnd].
  destruct (Hl sh) as (Hp & v & Hv & Hlen & Hr); [by left|]. rewrite Hp, Hv. change (default [] (Some v)) with v.
  rewrite (proj2 (Z.eqb_eq _ _) Hlen). cbn [cxx_assert mbind outcome_bind].
  destruct (slots_start sh v 0 (MkProcess sh []) Hr eq_refl eq_refl) as (ios & p' & -> & Hios & Ei). cbn [mbind outcome_bind].
  unfold process_init. rewrite Hios, (proj2 (Z.eqb_eq _ _) Hlen), Ei. cbn [cxx_assert mbind outcome_bind].
  destruct (init_slots_fresh ios (MkProcess sh []) true p' Ei) as (_ & _ & Hl'); [by intros n sl|]. specialize (Hl' eq_refl). cbn [_slots length Nat.add] in Hl'.
  rewrite (proj2 (Z.eqb_eq (Z.of_nat (length (_slots p'))) _)) by lia. cbn [cxx_assert mbind outcome_bind].
  apply IH; [done|]. intros i Hi. rewrite lookup_insert_ne by (intros ->; done). apply Hl. by right.
Qed.

End Documents.

(** ** The stop *)

Section Stop.
Context {D F : Type} `{RecordDatabaseLaws D F} `{!Walk (list Z) (Value F)} `{!WalkLaws (list Z) (Value F)}.
Context (Parse : list Z → option (json_root F)).
Implicit Types (sl : SlotDatabase F D).

Lemma thread_run_app s1 s2 ps : thread_run Parse (s1 ++ s2) ps = (ps ← thread_run Parse s1 ps; thread_run Parse s2 ps).
Proof using Type.
  revert ps. induction s1 as [|[i l] s1 IH]; intros ps; [done|]. cbn [app thread_run].
  destruct (thread_step Parse i l ps); cbn [mbind outcome_bind]; [apply IH|done..].
Qed.

(** A thread that gets the lock works the list off as [slot_run] does. *)
Lemma thread_works p n : p = Working ∨ p = LastWork → ∀ sl out sl', slot_run Parse (replicate n Work) sl = Ret (out, sl') →
  wlist sl' = [] → ∃ k, thread_run Parse (replicate k (true, true)) (p, sl) = Ret (p, sl').
Proof using Type.
  intros Hp. induction n as [|n IH]; intros sl out sl'; cbn [replicate slot_run slot_step].
  { intros [= <- <-] _. by exists 0%nat. }
  intros ([o1 sl1] & (sl2 & Ef & [= <- <-])%bind_Ret & E)%bind_Ret Hw. apply bind_Ret in E as ([o2 sl3] & E & [= _ ->]).
  destruct (IH _ _ _ E Hw) as [k Hk]. destruct (wlist sl) as [|m w] eqn:Ew.
  - unfold handle_front in Ef. rewrite Ew in Ef. injection Ef as ->. by exists k.
  - exists (S k). cbn [replicate thread_run thread_step]. destruct Hp as [-> | ->]; rewrite Ew, Ef; exact Hk.
Qed.

Lemma run_room_works n sl : run_room Parse (replicate n Work) sl → slot_ok Parse sl → (length (wlist sl) ≤ n)%nat →
  ∃ out sl', slot_run Parse (replicate n Work) sl = Ret (out, sl') ∧ wlist sl' = [] ∧ ledger out sl' = ledger [] sl ∧ out = [].
Proof using All.
  intros Hr Hok Hn. pose proof (arrivals_drain [] n 0) as Hnil. simpl in Hnil. rewrite app_nil_r in Hnil.
  destruct (works_drain Parse n sl Hok Hn Hr) as (out & sl' & E & Hw).
  destruct (slot_run_answers Parse (replicate n Work) sl Hok) as (out' & sl2 & E' & _ & _ & _ & Hl); [by rewrite Hnil|done|].
  rewrite E in E'. injection E' as <- <-. exists out, sl'. split_and!; [done|done|rewrite Hl, Hnil; by rewrite app_nil_r|].
  clear -E. revert sl out E. induction n as [|n IH]; intros sl out; cbn [replicate slot_run slot_step]; [by intros [= <- _]|].
  intros ([o1 sl1] & (sl2 & Ef & [= <- <-])%bind_Ret & E)%bind_Ret. apply bind_Ret in E as ([o2 sl3] & E & [= <- ->]).
  apply (IH _ _ E).
Qed.

(** C35 (error): the answers at the stop are lost.  When the record server stops, the thread of
    each slot still carries out every request that waits, wherever it is in its loop, and
    ends.  But their answers, and those that waited before, are on the list of answers when the slot is
    deleted, in order and none missing: nothing sends them, so a client never learns that
    its object was written. *)
Theorem stop_loses_answers (closed : D) p n sl : slot_ok Parse sl → p ≠ Gone → (length (wlist sl) ≤ n)%nat →
  run_room Parse (replicate n Work) sl →
  ∃ k sl', thread_run Parse (replicate k (true, true)) (p, sl) = Ret (Gone, sl') ∧
    wlist (slot_stop closed sl') = [] ∧ entities (slot_stop closed sl') = ∅ ∧
    map answer_key (rlist (slot_stop closed sl')) = ledger [] sl.
Proof using All.
  intros Hok Hp Hn Hr. destruct (run_room_works n sl Hr Hok Hn) as (out & sl' & E & Hw & Hl & ->).
  assert (map answer_key (rlist sl') = ledger [] sl) as Hk by (rewrite <- Hl; unfold ledger; rewrite Hw; cbn; by rewrite app_nil_r).
  destruct (thread_works LastWork n (or_intror eq_refl) sl [] sl' E Hw) as [k1 E1].
  destruct (thread_works Working n (or_introl eq_refl) sl [] sl' E Hw) as [k2 E2].
  assert (thread_run Parse (replicate 1 (true, true)) (LastWork, sl') = Ret (Gone, sl')) as Elast
    by (cbn [replicate thread_run thread_step]; by rewrite Hw).
  destruct p; [| | |done].
  - exists (1 + (k1 + 1))%nat, sl'. split; [|done]. rewrite !replicate_add, !thread_run_app.
    change (thread_run Parse (replicate 1 (true, true)) (Looking, sl)) with (Ret (LastWork, sl)). cbn [mbind outcome_bind].
    by rewrite thread_run_app, E1.
  - exists (k2 + (2 + 1))%nat, sl'. split; [|done]. rewrite !replicate_add, thread_run_app, E2. cbn [mbind outcome_bind].
    cbn [replicate app thread_run thread_step]. rewrite Hw. cbn [mbind outcome_bind thread_run thread_step]. by rewrite Hw.
  - exists (k1 + 1)%nat, sl'. split; [|done]. by rewrite replicate_add, thread_run_app, E1.
Qed.
End Stop.

(** ** At concrete inputs *)

#[local] Instance demo_walk : Walk Z (RecordProcess Z toy) := map_to_list.
#[local] Instance demo_walk_laws : WalkLaws Z (RecordProcess Z toy).
Proof. by intros m. Qed.
Definition demo_connect (sh : Z) (n : nat) (c : MySQLConfig) : init_io * toy :=
  (MkInit true (Some [str "shard_" ++ dec sh ++ str "_" ++ dec (Z.of_nat n)]) true (Some []), new_toy).
Definition demo_shards : list shard_conf :=
  [(10, str "idc10", [str "127.0.0.1:3306:root::"; str "127.0.0.1:3306:root::"]);
   (11, str "idc11", [str "127.0.0.1:3306:root::"; str "127.0.0.1:3306:root::"])].


(** A request is on its way when the server stops. *)
Definition demo_waiting : SlotDatabase Z toy :=
  push_request 7 (plain_message ObjectUnserializeRequest 1 (str "players") 9) demo_slot.

Lemma stop_loses_answers_witness : ∃ k sl, thread_run demo_Parse (replicate k (true, true)) (Looking, demo_waiting) = Ret (Gone, sl) ∧
  map answer_key (rlist sl) = [(7, Ret ObjectUnserializeResponse, Ret 1, strncpy16 (str "players"), Ret 9)].
Proof.
  assert (slot_ok demo_Parse demo_waiting) as Hok.
  { destruct demo_slot_ok as [Ht _]. split; [by apply set_wlist_tidy|]. apply Forall_cons. split; [|constructor].
    apply plain_clean; [unfold fits; lia|unfold fits; lia| |simpl; lia|by left].
    apply (bool_decide_unpack _). vm_compute. exact I. }
  destruct (stop_loses_answers demo_Parse new_toy Looking 1 demo_waiting Hok) as (k & sl & E & _ & _ & Hk); [done|simpl; lia| |].
  - vm_compute. repeat split.
  - exists k, sl. split; [exact E|]. cbn [slot_stop rlist set_db set_entities] in Hk. rewrite Hk. vm_compute. reflexivity.
Defined.
