(* ===== verification/RecordFaults.v ===== *)
(** * What goes wrong in the record server

    Requests whose effect is not the one their names promise, against the laws of
    RecordDatabase.v: asking for a table that does not exist spoils it for ever, a deletion
    deletes nothing from the database, and the cache does not know tables. *)

From S2P Require Import Prelude CLib Strings Entity RecordProtocol RecordSchema RecordProcess RecordDatabase RecordToy RecordStore RecordService RecordAnswers.

Section Faults.
Context {D F : Type} `{RecordDatabaseLaws D F} `{!Walk (list Z) (Value F)} `{!WalkLaws (list Z) (Value F)}.
Implicit Types (sl : SlotDatabase F D) (t : list Z) (e : Entity F).

(** A table the server takes for existing and without columns, and that does not exist. *)
Definition spoilt t sl : Prop := tables sl !! t = Some ∅ ∧ schema (db sl) !! t = None.

Lemma spoilt_serialize t e sl : quotable t → names_ok e → values e ≠ ∅ → spoilt t sl →
  ∃ sl', serialize t e sl = Ret (false, sl') ∧ spoilt t sl'.
Proof.
  intros Hq He Hne [Ht Hs]. unfold serialize, ensure_table. rewrite Ht. cbn [mbind outcome_bind].
  pose proof (names_ok_walk e He) as Hw. destruct (walk (values e)) as [|nv vs] eqn:Ew.
  { destruct Hne. apply map_to_list_empty_iff. apply Permutation_nil. by rewrite <-(walk_all (values e)), Ew. }
  apply Forall_cons in Hw as [Hn _]. cbn [prepare_values]. unfold prepare_value, add_missing.
  assert (fields_of t (touch_table t sl) = ∅) as -> by (unfold touch_table, fields_of; simpl; by rewrite lookup_insert_eq, Ht).
  rewrite lookup_empty. destruct (v2m_known (data (snd nv))) as [type Ety]. unfold addField. rewrite Ety, command_eq.
  destruct (fst (runCommand _ _)) eqn:Ec.
  - destruct (law_add D F t (fst nv) _ type _ Hq Hn Ety Ec) as (cols & Hc & _). simpl in Hc. congruence.
  - destruct (law_failed D F _ _ Ec) as [Hs' _]. eexists. split; [reflexivity|]. split; simpl.
    + unfold touch_table, fields_of. simpl. by rewrite lookup_insert_eq, Ht.
    + simpl in Hs'. by rewrite Hs'.
Qed.

(** [serialize] for one entity after the other. *)
Fixpoint serialize_all t (es : list (Entity F)) sl : outcome (list bool * SlotDatabase F D) :=
  match es with
  | [] => Ret ([], sl)
  | e :: es => '(rc, sl) ← serialize t e sl; '(rcs, sl) ← serialize_all t es sl; Ret (rc :: rcs, sl)
  end.

Lemma spoilt_for_ever t es : quotable t → Forall (λ e, names_ok e ∧ values e ≠ ∅) es → ∀ sl, spoilt t sl →
  ∃ sl', serialize_all t es sl = Ret (replicate (length es) false, sl') ∧ spoilt t sl'.
Proof.
  intros Hq Hes. induction Hes as [|e es [He Hne] Hes IH]; intros sl Hsp; [by exists sl|].
  destruct (spoilt_serialize t e sl Hq He Hne Hsp) as (sl1 & E1 & Hsp1). cbn [serialize_all]. rewrite E1.
  cbn [mbind outcome_bind]. destruct (IH sl1 Hsp1) as (sl2 & -> & Hsp2). by exists sl2.
Qed.

(** C40 (error): one Unserialize request for a table that does not exist yet spoils it.  It finds
    nothing, but leaves an empty description of the table; from then on [serialize] takes the
    table for existing and fails for every entity with a member, whatever the database
    answers, where before it would have created it. *)
Theorem missing_table_spoils t oid sl : quotable t → fits 64 oid → schema (db sl) !! t = None → tables sl !! t = None →
  ∃ sl1, unserialize t oid sl = Ret (None, sl1) ∧ spoilt t sl1 ∧
  (∀ es, Forall (λ e, names_ok e ∧ values e ≠ ∅) es → ∃ sl2,
    serialize_all t es sl1 = Ret (replicate (length es) false, sl2) ∧ spoilt t sl2) ∧
  (∀ e, fst (runCommand (create_sql t (walk (values e))) (db sl)) = true → names_ok e →
    ∃ sl2, ensure_table t e sl = Ret (true, sl2) ∧ is_Some (schema (db sl2) !! t)).
Proof.
  intros Hq Hid Hs Ht. pose proof (law_select_id D F t oid (db sl) Hq Hid) as Ha. unfold answers in Ha.
  destruct (runQuery (select_id t oid) (db sl)) as [r d'] eqn:E. destruct Ha as (Es & _ & Hr). rewrite Hs in Hr. subst r.
  assert (unserialize t oid sl = Ret (None, set_db d' (touch_table t sl))) as Eu.
  { unfold unserialize. cbn [touch_table set_tables db]. by rewrite E. }
  exists (set_db d' (touch_table t sl)). assert (spoilt t (set_db d' (touch_table t sl))) as Hsp.
  { split; simpl; [|by rewrite Es]. unfold fields_of. by rewrite lookup_insert_eq, Ht. }
  split_and!; [done|done| |].
  - intros es Hes. by apply spoilt_for_ever.
  - intros e Hc He. unfold ensure_table, createTable. rewrite Ht, command_eq, Hc.
    destruct (ensure_table_spec t e sl Hq He) as (rc & sl' & Ee & Htch & Hrc).
    unfold ensure_table, createTable in Ee. rewrite Ht, command_eq, Hc in Ee. rewrite Ee.
    destruct (law_create D F t _ (db sl) Hq (names_ok_walk e He) (walk_NoDup _) Hc) as [_ Hcr].
    destruct (reload_spec t _ sl _ Hq (λ _, created_names _ (names_ok_walk e He)) Hcr) as (rc2 & sl2 & E2 & _ & _ & Hco).
    rewrite command_eq in E2. cbn [snd] in E2. rewrite E2 in Ee. injection Ee as <- <-.
    destruct Hco as [-> Hco]; [apply created_supported|unfold fields_of; rewrite Ht; by intros n []|].
    exists sl2. split; [done|]. apply Hco.
Qed.

(** Delete deletes nothing.  The entity leaves the cache, where nothing frees it, and
    every row of the database stays; the answer is RECORD_DELETE_ERROR; and the next request
    for the object finds it in the database again. *)
Theorem delete_keeps_row s msg t oid sl : msg_table msg = Ret t → quotable t → msg_objectid msg = Ret oid → fits 64 oid →
  ∃ sl', on_delete s msg sl = Ret sl' ∧
  entities sl' = delete oid (entities sl) ∧
  leaked sl' = (leaked sl + match entities sl !! oid with Some _ => 1 | None => 0 end)%nat ∧
  schema (db sl') = schema (db sl) ∧ cells (db sl') = cells (db sl) ∧
  rlist sl' = rlist sl ++ [(s, status_response ObjectDeleteResponse (shard sl) t oid RECORD_DELETE_ERROR)] ∧
  (coherent t sl → is_Some (cols_of t sl !! str "id") → is_Some (cells (db sl) t oid) →
    ∃ e sl2, unserialize t oid sl' = Ret (Some e, sl2) ∧ eid e = oid).
Proof.
  intros Ht Hq Ho Hoid. unfold on_delete. rewrite Ho, Ht. cbn [mbind outcome_bind].
  set (sl1 := match entities sl !! oid with Some _ => add_leak _ | None => sl end).
  assert (db sl1 = db sl ∧ shard sl1 = shard sl ∧ rlist sl1 = rlist sl ∧ tables sl1 = tables sl ∧
    entities sl1 = delete oid (entities sl) ∧
    leaked sl1 = (leaked sl + match entities sl !! oid with Some _ => 1 | None => 0 end)%nat) as (E1 & E2 & E3 & E4 & E5 & E6).
  { unfold sl1. destruct (entities sl !! oid) eqn:E; simpl; split_and!; try done; try lia. by rewrite delete_id. }
  pose proof (law_delete D F t oid (db sl1) Hq Hoid) as Hf. destruct (law_failed D F _ _ Hf) as [Hs Hc].
  unfold removeEntity. rewrite command_eq, Hf. unfold send_status. rewrite Ht, Ho. cbn [mbind outcome_bind].
  set (sl' := respond _ _ _). exists sl'. split; [done|].
  assert (schema (db sl') = schema (db sl) ∧ cells (db sl') = cells (db sl)) as [Hs' Hc'] by (simpl; by rewrite Hs, Hc, E1).
  split_and!; [done|done|done|done|simpl; by rewrite E2, E3|].
  intros [Ce Cs Ct] Hidc [row Hrow].
  assert (fields_of t sl' = fields_of t sl) as Hfe by (unfold fields_of; simpl; by rewrite E4).
  assert (cols_of t sl' = cols_of t sl) as Hce by (unfold cols_of; by rewrite Hs').
  destruct (unserialize_spec t oid row sl' Hq Hoid) as (e & sl2 & Eu & He & _); [|by rewrite Hce|by rewrite Hc'|by exists e, sl2].
  split; [by rewrite Hs'|by rewrite Hce|]. intros n. by rewrite Hfe, Hce.
Qed.

(** The cache has one entity per object, not one per table.  When an entity is cached
    under the number of the request, Unserialize answers with its dirty members whatever the
    table of the request is, and asks the database nothing. *)
Theorem cache_ignores_table s msg t oid e sl : entities sl !! oid = Some e → msg_table msg = Ret t →
  msg_objectid msg = Ret oid → 0 ≤ eid e → Z.of_nat (length (json_object (members_of true e))) < 2 ^ 32 →
  on_unserialize s msg sl
  = Ret (respond s (unserialize_response (shard sl) t oid RECORD_OK (Some (json_object (members_of true e)))) sl).
Proof.
  intros He Ht Ho Hid Hlen. unfold on_unserialize. rewrite Ho. cbn [mbind outcome_bind]. rewrite He. cbn [mbind outcome_bind].
  rewrite SerializeToString_text by done. unfold sendUnserializeResponse. rewrite Ht, Ho. cbn [mbind outcome_bind].
  assert (0 < Z.of_nat (length (json_object (members_of true e)))) as Hpos by (unfold json_object; simpl; lia).
  unfold u32. rewrite wrap_id by (unfold fits; lia). unfold cxx_assert. rewrite (proj2 (Z.ltb_lt 0 _)) by done.
  cbn [mbind outcome_bind]. rewrite insert_id by done. by destruct sl.
Qed.
End Faults.

(** ** At concrete databases *)

Lemma missing_table_spoils_witness : ∃ sl1 sl2, unserialize (str "players") 9 demo_slot = Ret (None, sl1) ∧
  serialize_all (str "players") [demo_record; demo_record] sl1 = Ret ([false; false], sl2).
Proof.
  destruct (missing_table_spoils (str "players") 9 demo_slot) as (sl1 & E1 & _ & Hall & _).
  - apply (bool_decide_unpack _). vm_compute. exact I.
  - unfold fits. lia.
  - reflexivity.
  - reflexivity.
  - destruct (Hall [demo_record; demo_record]) as (sl2 & E2 & _); [|by exists sl1, sl2].
    assert (values demo_record ≠ ∅) as Hne by (apply (bool_decide_unpack _); vm_compute; exact I).
    repeat constructor; done || apply demo_names.
Defined.

Lemma stored_coherent : coherent (str "players") stored_slot.
Proof.
  destruct (serialize_spec (D := toy) (str "players") demo_record demo_slot) as (rc & sl & E & _ & Hok);
    [apply (bool_decide_unpack _); vm_compute; exact I|apply demo_names|].
  destruct (Hok (demo_sound _)) as [_ Hrc]. unfold stored_slot. rewrite E. apply Hrc.
  apply (f_equal (λ o, match o with Ret (rc, _) => rc | _ => false end)) in E. vm_compute in E. done.
Qed.

Lemma delete_keeps_row_witness : ∃ sl e sl2,
  on_delete 5 (plain_message ObjectDeleteRequest 1 (str "players") 9) stored_slot = Ret sl ∧
  unserialize (str "players") 9 sl = Ret (Some e, sl2).
Proof.
  destruct (delete_keeps_row 5 (plain_message ObjectDeleteRequest 1 (str "players") 9) (str "players") 9 stored_slot)
    as (sl & E & _ & _ & _ & _ & _ & Hfound).
  - by vm_compute.
  - apply (bool_decide_unpack _). vm_compute. exact I.
  - by vm_compute.
  - unfold fits. lia.
  - destruct Hfound as (e & sl2 & E2 & _); [apply stored_coherent|vm_compute; by eexists|vm_compute; by eexists|].
    by exists sl, e, sl2.
Defined.

Lemma cache_ignores_table_witness : let sl := set_entities {[9 := demo_record]} demo_slot in
  ∃ js, on_unserialize 5 (plain_message ObjectUnserializeRequest 1 (str "guilds") 9) sl
  = Ret (respond 5 (unserialize_response 1 (str "guilds") 9 RECORD_OK (Some js)) sl).
Proof.
  intros sl. eexists. apply (cache_ignores_table 5 _ (str "guilds") 9 demo_record sl); [reflexivity|by vm_compute..|].
  vm_compute. reflexivity.
Defined.
