(* ===== verification/NetworkClient.v ===== *)
(** * NetworkClient: src/net/NetworkClient.cpp

    The client side of the Netmessage protocol over a SocketClient, of which it uses what the
    class [SocketClientApi] lists; SocketClient.v has the implementation, [line] is one that
    delivers given messages. *)

From S2P Require Import Prelude ByteQueue Socket WorkerProcess SocketServer SocketClient Net.

(** ** What the client uses of a SocketClient *)

Class SocketClientApi (C : Type) := {
  cl_receive : C → outcome (option Socketmessage * C);
  cl_send : list Z → C → outcome C;
  cl_stop : C → C;
  cl_fd : C → Z;
  cl_waiting : C → nat               (* the messages waiting to be received *)
}.
Class SocketClientLaws (C : Type) `{SocketClientApi C} : Prop := {
  cl_receive_less c m c' : cl_receive c = Ret (Some m, c') → (cl_waiting c' < cl_waiting c)%nat;
  cl_receive_none c c' : cl_receive c = Ret (None, c') → cl_waiting c' = 0%nat;
  cl_send_same bytes c c' : cl_send bytes c = Ret c' → cl_waiting c' = cl_waiting c;
  cl_stop_less c : (cl_waiting (cl_stop c) ≤ cl_waiting c)%nat
}.

#[export] Instance Client_api {B} `{ByteQueue B} : SocketClientApi (Client B) := {|
  cl_receive := client_receive; cl_send := client_send; cl_stop := client_stop; cl_fd := cfd;
  cl_waiting c := length (cqueue c)
|}.

Lemma client_stop_queue {B} (c : Client B) : (length (cqueue (client_stop c)) ≤ length (cqueue c))%nat.
Proof. unfold client_stop, close_fd. destruct (cstop c); [done|]. simpl. destruct (0 <? cfd c); simpl; lia. Qed.

#[export] Instance Client_laws {B} `{ByteQueue B} : SocketClientLaws (Client B).
Proof.
  split; simpl.
  - intros c m c'. unfold client_receive. destruct (cqueue c) as [|x q]; [done|].
    intros (u & _ & (u' & _ & E)%bind_Ret)%bind_Ret.
    destruct (msg_opcode x); try done; injection E as _ <-; try (simpl; lia).
    destruct (msg_s x =? _); simpl; lia.
  - intros c c'. unfold client_receive. destruct (cqueue c) as [|x q] eqn:Eq; [intros [= <-]; by rewrite Eq|].
    intros (u & _ & (u' & _ & E)%bind_Ret)%bind_Ret. by destruct (msg_opcode x).
  - intros bytes c c'. unfold client_send, on_slot. destruct (slotWorker c) as [w|]; [|done].
    by intros (w' & _ & [= <-])%bind_Ret.
  - apply client_stop_queue.
Qed.

(** A client that delivers given messages and keeps what is sent. *)
Record line := MkLine { incoming : list Socketmessage; outgoing : list (list Z) }.
#[export] Instance line_api : SocketClientApi line := {|
  cl_receive l := match incoming l with
    | [] => Ret (None, l)
    | m :: ms => Ret (Some m, MkLine ms (outgoing l))
    end;
  cl_send bytes l := Ret (MkLine (incoming l) (outgoing l ++ [bytes]));
  cl_stop l := MkLine [] (outgoing l);
  cl_fd l := 3;
  cl_waiting l := length (incoming l)
|}.
#[export] Instance line_laws : SocketClientLaws line.
Proof.
  split; simpl; [| |by intros bytes c c' [= <-]|lia].
  - intros [[|x l] o] m c'; simpl; [done|]. intros [= _ <-]. simpl. lia.
  - intros [[|x l] o] c'; simpl; [by intros [= <-]|done].
Qed.

(** ** The client *)

(** What the application calls from a callback. *)
Inductive client_action :=
| DoSend (payload : list Z)           (* sendMessage(payload, len) *)
| DoSendNetmsg (netmsg : list Z)      (* sendMessage(netmsg) *)
| DoStop.

Section NetworkClient.
Context {C : Type} `{SocketClientApi C} {A : Type}.
(** The three callbacks on the state of the application, [None] is a null [std::function]; a
    callback may itself fail.  The parser also says whether the message is no longer used. *)
Context (establishConnection lostConnection : option (A → outcome (A * list client_action))).
Context (msgParser : option (A → list Z → outcome (A * list client_action * bool))).

Record NetworkClient := MkNetClient { nc_stop : bool; socketClient : option C; nc_released : list Socketmessage }.
Definition new_NetworkClient : NetworkClient := MkNetClient false None [].
Definition set_client c nc := MkNetClient (nc_stop nc) c (nc_released nc).
Definition nc_release m nc := MkNetClient (nc_stop nc) (socketClient nc) (nc_released nc ++ [m]).

Definition fd (nc : NetworkClient) : Z := match socketClient nc with Some c => cl_fd c | None => -1 end.

(** [sendMessage(netmsg)], [sendMessage(msgid, msg)] and [sendMessage(payload, len)]; only
    the last does not look whether there is a client. *)
Definition nc_send (bytes : list Z) (nc : NetworkClient) : outcome NetworkClient :=
  match socketClient nc with
  | None => Undef
  | Some c => c ← cl_send bytes c; Ret (set_client (Some c) nc)
  end.
Definition nc_send_netmsg (netmsg : list Z) (nc : NetworkClient) : outcome NetworkClient :=
  match socketClient nc with
  | None => Ret nc
  | Some _ => len ← netmsg_len netmsg;
              if Z.of_nat (length netmsg) <? len then Undef else nc_send (take (Z.to_nat len) netmsg) nc
  end.
Definition nc_send_proto (msgid : Z) (payload : list Z) (ok : bool) (nc : NetworkClient) : outcome NetworkClient :=
  match socketClient nc with
  | None => Ret nc
  | Some _ => if ok then nc_send (make_netmsg msgid payload) nc else Ret nc
  end.

(** [stop]: the client is kept, and [_stop] is never reset. *)
Definition nc_do_stop (nc : NetworkClient) : NetworkClient :=
  if nc_stop nc then nc
  else MkNetClient true (cl_stop <$> socketClient nc) (nc_released nc).

Definition do_action (a : client_action) (nc : NetworkClient) : outcome NetworkClient :=
  match a with
  | DoSend payload => nc_send payload nc
  | DoSendNetmsg netmsg => nc_send_netmsg netmsg nc
  | DoStop => Ret (nc_do_stop nc)
  end.
Fixpoint do_actions (acts : list client_action) (nc : NetworkClient) : outcome NetworkClient :=
  match acts with
  | [] => Ret nc
  | a :: acts => nc ← do_action a nc; do_actions acts nc
  end.

Definition nc_call (f : option (A → outcome (A * list client_action))) (a : A) (nc : NetworkClient)
    : outcome (A * NetworkClient) :=
  match f with
  | None => Ret (a, nc)
  | Some f => '(a, acts) ← f a; nc ← do_actions acts nc; Ret (a, nc)
  end.
(** The body of the loop of [update] after [receiveMessage]; the result is [rc]. *)
Definition nc_handle (m : Socketmessage) (a : A) (nc : NetworkClient) : outcome (bool * A * NetworkClient) :=
  match msg_opcode m with
  | SM_OPCODE_ESTABLISH => '(a, nc) ← nc_call establishConnection a nc; Ret (true, a, nc)
  | SM_OPCODE_CLOSE => '(a, nc) ← nc_call lostConnection a nc; Ret (true, a, nc)
  | _ =>
      match msgParser with
      | None => Ret (true, a, nc)
      | Some f =>
          len ← netmsg_len (payload m);
          _ ← cxx_assert (payload_len m =? len);
          r ← f a (payload m);
          let '(a, acts, rc) := r : A * list client_action * bool in
          nc ← do_actions acts nc; Ret (rc, a, nc)
      end
  end.
Fixpoint nc_loop (fuel : nat) (a : A) (nc : NetworkClient) : outcome (bool * A * NetworkClient) :=
  match fuel with
  | O => Undef
  | S fuel =>
      if nc_stop nc then Ret (false, a, nc)
      else match socketClient nc with
      | None => Undef
      | Some c =>
          '(msg, c) ← cl_receive c;
          let nc := set_client (Some c) nc in
          match msg with
          | None => Ret (true, a, nc)
          | Some m =>
              r ← nc_handle m a nc;
              let '(rc, a, nc) := r : bool * A * NetworkClient in
              _ ← (if (rc : bool) then cxx_assert (magic m =? MAGIC) else Ret tt);
              nc_loop fuel a (if rc then nc_release m nc else nc)
          end
      end
  end.
(** [update] *)
Definition nc_update (a : A) (nc : NetworkClient) : outcome (bool * A * NetworkClient) :=
  match socketClient nc with
  | None => Ret (false, a, nc)
  | Some c => nc_loop (S (cl_waiting c)) a nc
  end.
End NetworkClient.

Arguments NetworkClient C : clear implicits.

(** [connect], with a timeout of 10 seconds; the old client is deleted, which stops it, and
    a new one that does not connect is deleted, too. *)
Definition nc_connect {B} `{ByteQueue B} (io : connect_io) (nc : NetworkClient (Client B)) : outcome (bool * NetworkClient (Client B)) :=
  '(rc, c) ← connect 10 io new_Client;
  if (rc : bool) then Ret (true, set_client (Some c) nc) else Ret (false, set_client None nc).
