(* ===== verification/RecordClient.v ===== *)
(** * RecordClient: src/recordclient/RecordClient.cpp

    A NetworkClient that sends the requests of the record server and calls a callback back
    for each response: the one that waits longest for a response of its kind. *)

From S2P Require Import Prelude CLib Strings Entity Socket SocketServer Net NetworkClient RecordProtocol RecordSchema RecordProcess RecordDatabase RecordToy RecordStore RecordService RecordAnswers.

(** [K] names the callbacks of the application; [None] is a null [std::function]. *)
Section RecordClient.
Context {C : Type} `{SocketClientApi C} {K : Type}.

(** A callback called: with shard, table, object and result, and the data of an Unserialize. *)
Record invocation := Invoke { inv_func : K; inv_shard : Z; inv_table : list Z; inv_object : Z; inv_retval : Z; inv_data : option (list Z) }.
Record RecordClient := MkRecordClient {
  _serializeCallbacks : list (option K);
  _unserializeCallbacks : list (option K);
  _alterCallbacks : list (option K);
  invoked : list invocation
}.
Definition new_RecordClient : RecordClient := MkRecordClient [] [] [] [].
Definition push_serialize f rc := MkRecordClient (_serializeCallbacks rc ++ [f]) (_unserializeCallbacks rc) (_alterCallbacks rc) (invoked rc).
Definition push_unserialize f rc := MkRecordClient (_serializeCallbacks rc) (_unserializeCallbacks rc ++ [f]) (_alterCallbacks rc) (invoked rc).
Definition push_alter f rc := MkRecordClient (_serializeCallbacks rc) (_unserializeCallbacks rc) (_alterCallbacks rc ++ [f]) (invoked rc).
Definition set_serialize l rc := MkRecordClient l (_unserializeCallbacks rc) (_alterCallbacks rc) (invoked rc).
Definition set_unserialize l rc := MkRecordClient (_serializeCallbacks rc) l (_alterCallbacks rc) (invoked rc).
Definition set_alter l rc := MkRecordClient (_serializeCallbacks rc) (_unserializeCallbacks rc) l (invoked rc).
Definition invoke i rc := MkRecordClient (_serializeCallbacks rc) (_unserializeCallbacks rc) (_alterCallbacks rc) (invoked rc ++ [i]).

(** ** Requests *)

(** [sendMessage(newmsg, newmsg->len)]; [len] is 32 bits wide. *)
Definition send_request (msg : list Z) (nc : NetworkClient C) : outcome (NetworkClient C) :=
  len ← msg_len msg; nc_send (take (Z.to_nat len) msg) nc.
Definition client_serialize (shard : Z) (table : list Z) (objectid : Z) (js : list Z) (func : option K)
    (rc : RecordClient) (nc : NetworkClient C) : outcome (RecordClient * NetworkClient C) :=
  nc ← send_request (data_message ObjectSerializeRequest shard table objectid js) nc; Ret (push_serialize func rc, nc).
Definition client_unserialize (shard : Z) (table : list Z) (objectid : Z) (func : option K)
    (rc : RecordClient) (nc : NetworkClient C) : outcome (RecordClient * NetworkClient C) :=
  nc ← send_request (plain_message ObjectUnserializeRequest shard table objectid) nc; Ret (push_unserialize func rc, nc).
(** [addKey] and [removeKey] differ in [option]. *)
Definition alter_js (field_name option : list Z) : list Z :=
  str "{" ++ quoted field_name ++ str ":" ++ quoted option ++ str "}".
Definition client_alter (option : list Z) (shard : Z) (table : list Z) (objectid : Z) (field_name : list Z) (func : Datatypes.option K)
    (rc : RecordClient) (nc : NetworkClient C) : outcome (RecordClient * NetworkClient C) :=
  nc ← send_request (data_message ObjectAlterRequest shard table objectid (alter_js field_name option)) nc;
  Ret (push_alter func rc, nc).
Definition client_addKey := client_alter (str "ADD_KEY").
Definition client_removeKey := client_alter (str "DROP_KEY").

(** ** Responses *)

(** The call of a callback, which may be null. *)
Definition call_func (func : option K) (msg : list Z) (data : option (list Z)) (rc : RecordClient) : outcome RecordClient :=
  match func with
  | None => Ret rc
  | Some k =>
      shard ← msg_shard msg; table ← msg_table msg; objectid ← msg_objectid msg; retval ← msg_retval msg;
      Ret (invoke (Invoke k shard table objectid retval data) rc)
  end.
(** [msgParser]; without a waiting callback a response is ignored. *)
Definition client_msgParser (msg : list Z) (rc : RecordClient) : outcome (bool * RecordClient) :=
  id ← msg_id msg;
  if id =? ObjectSerializeResponse then
    match _serializeCallbacks rc with
    | [] => Ret (true, rc)
    | func :: l =>
        len ← msg_len msg; size ← response_size id msg;
        if len =? size then rc ← call_func func msg None (set_serialize l rc); Ret (true, rc) else Ret (false, rc)
    end
  else if id =? ObjectUnserializeResponse then
    match _unserializeCallbacks rc with
    | [] => Ret (true, rc)
    | func :: l =>
        len ← msg_len msg; size ← response_size id msg;
        if len =? size then
          n ← resp_datalen msg;
          data ← msg_data 48 n msg;
          rc ← call_func func msg (Some data) (set_unserialize l rc); Ret (true, rc)
        else Ret (false, rc)
    end
  else if id =? ObjectAlterResponse then
    match _alterCallbacks rc with
    | [] => Ret (true, rc)
    | func :: l =>
        len ← msg_len msg; size ← response_size id msg;
        if len =? size then rc ← call_func func msg None (set_alter l rc); Ret (true, rc) else Ret (false, rc)
    end
  else Ret (false, rc).
(** The constructor's callback: a message that is not accepted stops the client; it is
    released in any case. *)
Definition record_callback (rc : RecordClient) (msg : list Z) : outcome (RecordClient * list client_action * bool) :=
  '(ok, rc) ← client_msgParser msg rc; Ret (rc, if (ok : bool) then [] else [DoStop], true).
Definition record_update (rc : RecordClient) (nc : NetworkClient C) : outcome (bool * RecordClient * NetworkClient C) :=
  nc_update None (Some (λ rc, Ret (rc, []))) (Some record_callback) rc nc.
End RecordClient.

Arguments invocation K : clear implicits.
Arguments RecordClient K : clear implicits.

(** ** What one side writes the other reads *)

Section Roundtrip.
Context (sh oid : Z) (table : list Z).
Context (Hsh : fits 32 sh) (Hoid : fits 64 oid) (Hq : no_nul table) (Hlen : (length table ≤ 15)%nat).

(** A whole message: its frame and the fields every message of the protocol has. *)
Definition reads_as (id : Z) (msg : list Z) : Prop :=
  (∀ rest, net_split (msg ++ rest) = Z.of_nat (length msg)) ∧ msg_len msg = Ret (Z.of_nat (length msg)) ∧
  msg_id msg = Ret id ∧ msg_shard msg = Ret sh ∧ msg_table msg = Ret table ∧ msg_objectid msg = Ret oid.

Lemma message_reads_as id len body : fits 16 id → len = 40 + Z.of_nat (length body) → len < 2 ^ 31 →
  reads_as id (netmsg_header len id ++ object_header sh table oid ++ body).
Proof using Hsh Hoid Hq Hlen.
  intros Hid Hl Hmax. set (msg := netmsg_header len id ++ object_header sh table oid ++ body).
  destruct (header_fields len id sh oid table body Hid Hsh Hoid) as (El & Ei & Es & Eo & _ & _ & Et & Elen). fold msg in El, Ei, Es, Eo, Et, Elen.
  assert (u32 len = Z.of_nat (length msg)) as Hu by (rewrite Elen; unfold u32; rewrite wrap_id by (unfold fits; lia); lia).
  split_and!; [| |done|done| |done].
  - intros rest. unfold net_split. rewrite !length_app. unfold netmessage_size.
    rewrite (proj2 (Z.ltb_ge _ 12)) by lia.
    assert (take 4 (msg ++ rest) = le_bytes 4 (u32 len)) as -> by (unfold msg, netmsg_header; by list_norm).
    rewrite le_val_le_bytes. change (2 ^ (8 * Z.of_nat 4)) with (2 ^ 32). rewrite Hu, Z.mod_small by lia.
    rewrite (proj2 (Z.ltb_ge _ (Z.of_nat (length msg)))) by lia. apply s32_small. lia.
  - by rewrite El, Hu.
  - unfold msg_table. rewrite Et. destruct (strncpy16_short table (le_bytes 8 oid ++ body) Hq Hlen) as [Hin Hc].
    by rewrite bool_decide_true, Hc.
Qed.

Lemma field_behind_header n z len id rest : fits (8 * Z.of_nat n) z →
  field_at 40 n (netmsg_header len id ++ object_header sh table oid ++ le_bytes n z ++ rest) = Ret z.
Proof using Type.
  intros Hz. rewrite (app_assoc (netmsg_header _ _)). apply field_at_fits; [|done]. by rewrite length_app, length_object_header.
Qed.

Lemma data_behind_header off len id pre (js : list Z) : off = (40 + length pre)%nat →
  msg_data off (Z.of_nat (length js)) (netmsg_header len id ++ object_header sh table oid ++ pre ++ js) = Ret js.
Proof using All.
  intros ->. unfold msg_data. rewrite 2!app_assoc, <-(app_assoc (netmsg_header len id)).
  set (h := netmsg_header len id ++ object_header sh table oid ++ pre).
  assert (length h = 40 + length pre)%nat as Hh by (unfold h; rewrite !length_app, length_object_header; simpl; lia).
  rewrite (proj2 (Z.leb_le _ _)) by (rewrite length_app; lia).
  by rewrite drop_app_length', Nat2Z.id, take_ge by lia.
Qed.

Lemma data_message_reads id js : fits 16 id → Z.of_nat (length js) + 44 < 2 ^ 31 →
  let msg := data_message id sh table oid js in
  reads_as id msg ∧ msg_datalen msg = Ret (Z.of_nat (length js)) ∧ msg_data 44 (Z.of_nat (length js)) msg = Ret js ∧
  data_size msg = Ret (Z.of_nat (length msg)).
Proof using Hsh Hoid Hq Hlen.
  intros Hid Hl msg. assert (u32 (Z.of_nat (length js)) = Z.of_nat (length js)) as Hn by (apply wrap_id; unfold fits; lia).
  assert (msg_datalen msg = Ret (Z.of_nat (length js))) as Ed.
  { unfold msg, data_message, msg_datalen. rewrite Hn. apply field_behind_header. split; lia. }
  split_and!; [|done| |].
  - unfold msg, data_message. rewrite Hn. apply message_reads_as; [done| |lia]. rewrite length_app, length_le_bytes. lia.
  - unfold msg, data_message. by apply data_behind_header.
  - unfold data_size. rewrite Ed. cbn [mbind outcome_bind]. f_equal. unfold msg, data_message.
    rewrite !length_app, length_object_header, length_le_bytes. simpl. lia.
Qed.

Lemma plain_message_reads id : fits 16 id → reads_as id (plain_message id sh table oid) ∧
  length (plain_message id sh table oid) = 40%nat.
Proof using Hsh Hoid Hq Hlen.
  intros Hid. split; [|unfold plain_message; by rewrite length_app, length_object_header].
  unfold plain_message. rewrite <-(app_nil_r (object_header _ _ _)). by apply message_reads_as.
Qed.

Lemma status_response_reads id retval : fits 16 id → fits 32 retval →
  let msg := status_response id sh table oid retval in
  reads_as id msg ∧ length msg = 44%nat ∧ msg_retval msg = Ret retval.
Proof using Hsh Hoid Hq Hlen.
  intros Hid Hr msg. split_and!.
  - by apply message_reads_as.
  - unfold msg, status_response. by rewrite !length_app, length_object_header, length_le_bytes.
  - unfold msg, status_response, msg_retval. rewrite <-(app_nil_r (le_bytes 4 retval)). by apply field_behind_header.
Qed.

Lemma unserialize_response_reads retval data : fits 32 retval → Z.of_nat (length (default [] data)) + 48 < 2 ^ 31 →
  let js := default [] data in let msg := unserialize_response sh table oid retval data in
  reads_as ObjectUnserializeResponse msg ∧ msg_retval msg = Ret retval ∧ resp_datalen msg = Ret (Z.of_nat (length js)) ∧
  msg_data 48 (Z.of_nat (length js)) msg = Ret js ∧ Z.of_nat (length msg) = 48 + Z.of_nat (length js).
Proof using Hsh Hoid Hq Hlen.
  intros Hr Hl js msg. fold js in Hl.
  assert (u32 (Z.of_nat (length js)) = Z.of_nat (length js)) as Hn by (apply wrap_id; unfold fits; lia).
  unfold msg, unserialize_response. fold js. rewrite Hn, Nat2Z.id, take_ge by lia. split_and!.
  - apply message_reads_as; [done| |lia]. rewrite !length_app, !length_le_bytes. lia.
  - by apply field_behind_header.
  - unfold resp_datalen. rewrite 2!app_assoc. apply field_at_fits; [|split; lia].
    by rewrite !length_app, length_object_header, length_le_bytes.
  - rewrite (app_assoc (le_bytes 4 retval)). by apply data_behind_header.
  - rewrite !length_app, length_object_header, !length_le_bytes. simpl. lia.
Qed.
End Roundtrip.

(** ** Responses and waiting callbacks *)

(** A response of the server, as values. *)
Inductive response :=
| RSerialize (sh : Z) (t : list Z) (oid rv : Z)
| RAlter (sh : Z) (t : list Z) (oid rv : Z)
| RUnserialize (sh : Z) (t : list Z) (oid rv : Z) (js : option (list Z)).
Definition render (r : response) : list Z :=
  match r with
  | RSerialize sh t oid rv => status_response ObjectSerializeResponse sh t oid rv
  | RAlter sh t oid rv => status_response ObjectAlterResponse sh t oid rv
  | RUnserialize sh t oid rv js => unserialize_response sh t oid rv js
  end.
Definition header_ok (sh : Z) (t : list Z) (oid rv : Z) : Prop :=
  fits 32 sh ∧ fits 64 oid ∧ fits 32 rv ∧ no_nul t ∧ (length t ≤ 15)%nat.
Definition response_ok (r : response) : Prop :=
  match r with
  | RSerialize sh t oid rv | RAlter sh t oid rv => header_ok sh t oid rv
  | RUnserialize sh t oid rv js => header_ok sh t oid rv ∧ Z.of_nat (length (default [] js)) + 48 < 2 ^ 31
  end.

Section Queues.
Context {C : Type} `{SocketClientLaws C} {K : Type}.
Implicit Types (rc : RecordClient K) (func : option K).

(** The specification: three queues of callbacks; a response takes the first of its kind. *)
Definition called func sh t oid rv js rc : RecordClient K :=
  match func with Some k => invoke (Invoke k sh t oid rv js) rc | None => rc end.
Definition take_callback (r : response) rc : RecordClient K :=
  match r with
  | RSerialize sh t oid rv =>
      match _serializeCallbacks rc with [] => rc | f :: l => called f sh t oid rv None (set_serialize l rc) end
  | RAlter sh t oid rv =>
      match _alterCallbacks rc with [] => rc | f :: l => called f sh t oid rv None (set_alter l rc) end
  | RUnserialize sh t oid rv js =>
      match _unserializeCallbacks rc with
      | [] => rc
      | f :: l => called f sh t oid rv (Some (default [] js)) (set_unserialize l rc)
      end
  end.

Lemma call_func_reads id msg sh t oid rv func data rc : reads_as sh oid t id msg → msg_retval msg = Ret rv →
  call_func func msg data rc = Ret (called func sh t oid rv data rc).
Proof.
  intros (_ & _ & _ & Es & Et & Eo) Er. destruct func as [k|]; [|done]. unfold call_func. by rewrite Es, Et, Eo, Er.
Qed.

Lemma status_parsed id sh t oid rv rc (f : option K) (l : list (option K)) (set : list (option K) → RecordClient K → RecordClient K) :
  header_ok sh t oid rv → fits 16 id → (id =? ObjectUnserializeResponse) = false →
  let msg := status_response id sh t oid rv in
  msg_id msg = Ret id ∧
  (len ← msg_len msg; size ← response_size id msg;
   if len =? size then rc ← call_func f msg None (set l rc); Ret (true, rc) else Ret (false, rc))
  = Ret (true, called f sh t oid rv None (set l rc)).
Proof.
  intros (Hsh & Hoid & Hrv & Hq & Hl) Hid Hne msg.
  destruct (status_response_reads sh oid t Hsh Hoid Hq Hl id rv Hid Hrv) as (Hr & Hlen & Hret). fold msg in Hr, Hlen, Hret.
  pose proof Hr as (_ & El & Ei & _). split; [done|]. rewrite El. unfold response_size. rewrite Hne, Hlen. cbn [mbind outcome_bind].
  rewrite Z.eqb_refl. by rewrite (call_func_reads id msg sh t oid rv).
Qed.

Lemma response_parsed r rc : response_ok r → client_msgParser (render r) rc = Ret (true, take_callback r rc).
Proof.
  destruct r as [sh t oid rv|sh t oid rv|sh t oid rv js]; cbn [render response_ok take_callback]; unfold client_msgParser.
  - intros Hok. destruct (_serializeCallbacks rc) as [|f l];
      [destruct (status_parsed ObjectSerializeResponse sh t oid rv rc None [] set_serialize Hok) as [-> _]; done|].
    destruct (status_parsed ObjectSerializeResponse sh t oid rv rc f l set_serialize Hok) as [-> E]; done.
  - intros Hok. destruct (_alterCallbacks rc) as [|f l];
      [destruct (status_parsed ObjectAlterResponse sh t oid rv rc None [] set_alter Hok) as [-> _]; done|].
    destruct (status_parsed ObjectAlterResponse sh t oid rv rc f l set_alter Hok) as [-> E]; done.
  - intros [(Hsh & Hoid & Hrv & Hq & Hl) Hjs].
    destruct (unserialize_response_reads sh oid t Hsh Hoid Hq Hl rv js Hrv Hjs) as (Hr & Hret & Hd & Hdata & Hlen).
    set (msg := unserialize_response sh t oid rv js) in *. pose proof Hr as (_ & El & Ei & _). rewrite Ei. cbn [mbind outcome_bind].
    change (ObjectUnserializeResponse =? ObjectSerializeResponse) with false. rewrite Z.eqb_refl. cbv iota.
    destruct (_unserializeCallbacks rc) as [|f l]; [done|]. rewrite El. unfold response_size. rewrite Z.eqb_refl, Hd.
    cbn [mbind outcome_bind]. rewrite Hlen, Z.eqb_refl, Hdata. cbn [mbind outcome_bind].
    by rewrite (call_func_reads ObjectUnserializeResponse msg sh t oid rv).
Qed.

Lemma netmsg_len_msg_len msg : netmsg_len msg = msg_len msg.
Proof.
  unfold netmsg_len, msg_len, field_at. rewrite drop_0. change (0 + 4)%nat with 4%nat.
  destruct (Nat.ltb_spec (length msg) 4), (Nat.leb_spec 4 (length msg)); done || lia.
Qed.

Lemma render_length r : response_ok r → msg_len (render r) = Ret (Z.of_nat (length (render r))) ∧ Z.of_nat (length (render r)) < 2 ^ 31.
Proof.
  destruct r as [sh t oid rv|sh t oid rv|sh t oid rv js]; cbn [render response_ok].
  - intros (Hsh & Hoid & Hrv & Hq & Hl).
    destruct (status_response_reads sh oid t Hsh Hoid Hq Hl ObjectSerializeResponse rv) as ((_ & El & _) & Hlen & _); [done..|].
    by rewrite El, Hlen.
  - intros (Hsh & Hoid & Hrv & Hq & Hl).
    destruct (status_response_reads sh oid t Hsh Hoid Hq Hl ObjectAlterResponse rv) as ((_ & El & _) & Hlen & _); [done..|].
    by rewrite El, Hlen.
  - intros [(Hsh & Hoid & Hrv & Hq & Hl) Hjs].
    destruct (unserialize_response_reads sh oid t Hsh Hoid Hq Hl rv js Hrv Hjs) as ((_ & El & _) & _ & _ & _ & Hlen).
    split; [by rewrite El|lia].
Qed.

(** The messages a connection delivers. *)
Definition deliver (bytes : list Z) : Socketmessage := allocateMessage 3 SM_OPCODE_MESSAGE bytes.

Lemma response_handled r rc (nc : NetworkClient C) : response_ok r →
  nc_handle None (Some (λ rc, Ret (rc, []))) (Some record_callback) (deliver (render r)) rc nc = Ret (true, take_callback r rc, nc).
Proof.
  intros Hr. destruct (render_length r Hr) as [El Hl]. unfold nc_handle, deliver.
  cbn [allocateMessage allocateMessageLen msg_opcode payload payload_len]. rewrite netmsg_len_msg_len, El. cbn [mbind outcome_bind].
  unfold u32. rewrite wrap_id by (unfold fits; lia). rewrite Z.eqb_refl. cbn [cxx_assert mbind outcome_bind].
  unfold record_callback. by rewrite (response_parsed r rc Hr).
Qed.
End Queues.

Section Pairing.
Context {K : Type}.
Implicit Types (rc : RecordClient K).

(** One turn of [update] on a line. *)
Lemma line_turn {A} (est lost : option (A → outcome (A * list client_action)))
    (parser : option (A → list Z → outcome (A * list client_action * bool))) fuel a m ms out released :
  nc_loop est lost parser (S fuel) a (MkNetClient false (Some (MkLine (m :: ms) out)) released)
  = (r ← nc_handle est lost parser m a (MkNetClient false (Some (MkLine ms out)) released);
     let '(rc, a, nc) := r : bool * A * NetworkClient line in
     _ ← (if rc then cxx_assert (magic m =? MAGIC) else Ret tt);
     nc_loop est lost parser fuel a (if rc then nc_release m nc else nc)).
Proof. done. Qed.

Lemma responses_handled rs : Forall response_ok rs → ∀ rc released out fuel, (length rs < fuel)%nat →
  nc_loop None (Some (λ rc, Ret (rc, []))) (Some record_callback) fuel rc
    (MkNetClient false (Some (MkLine (map (λ r, deliver (render r)) rs) out)) released)
  = Ret (true, fold_left (λ rc r, take_callback r rc) rs rc,
         MkNetClient false (Some (MkLine [] out)) (released ++ map (λ r, deliver (render r)) rs)).
Proof.
  intros Hrs. induction Hrs as [|r rs Hr Hrs IH]; intros rc released out [|fuel] Hf; simpl in Hf; [lia| |lia|].
  - simpl. by rewrite app_nil_r.
  - cbn [map]. rewrite line_turn, response_handled by done. cbn [mbind outcome_bind].
    change (magic (deliver (render r)) =? MAGIC) with true.
    cbn [cxx_assert mbind outcome_bind]. unfold nc_release. cbn [nc_stop socketClient nc_released].
    rewrite IH by lia. by rewrite <-app_assoc.
Qed.

(** C14 (refinement): the client is three queues of callbacks.  Whatever responses arrive, in whatever
    order, [update] does what the specification does: each response takes the first
    callback of its kind and calls it, if it is not null, with exactly the shard, table,
    object, result and data the server put in; nothing else is called, every message is
    released, and the client keeps running. *)
Theorem client_refines_queues rs rc out : Forall response_ok rs →
  record_update rc (MkNetClient false (Some (MkLine (map (λ r, deliver (render r)) rs) out)) [])
  = Ret (true, fold_left (λ rc r, take_callback r rc) rs rc,
         MkNetClient false (Some (MkLine [] out)) (map (λ r, deliver (render r)) rs)).
Proof.
  intros Hrs. unfold record_update, nc_update. cbn [socketClient cl_waiting line_api incoming].
  rewrite responses_handled; [done|done|rewrite length_map; lia].
Qed.

(** Callbacks are paired with responses by position, not by object: the n-th response
    to a Serialize request goes to the n-th callback, whatever object it is for. *)
Lemma pairing_by_position (ks : list K) (rs : list (Z * list Z * Z * Z)) rc : length ks = length rs →
  _serializeCallbacks rc = map Some ks →
  invoked (fold_left (λ rc r, take_callback r rc) (map (λ '(sh, t, oid, rv), RSerialize sh t oid rv) rs) rc)
  = invoked rc ++ zip_with (λ k '(sh, t, oid, rv), Invoke k sh t oid rv None) ks rs.
Proof.
  revert ks rc. induction rs as [|[[[sh t] oid] rv] rs IH]; intros [|k ks] rc Hlen Hq; simpl in *; try done.
  - by rewrite app_nil_r.
  - rewrite Hq. cbn [called]. rewrite (IH ks) by (done || lia). simpl. by rewrite <-app_assoc.
Qed.
End Pairing.

(** ** From the call of the application to the worker of the slot *)

(** The requests a client makes: Serialize, Unserialize, and [addKey] and [removeKey]. *)
Inductive request := QSerialize (js : list Z) | QUnserialize | QAlter (option field_name : list Z).
Definition request_id (q : request) : Z :=
  match q with
  | QSerialize _ => ObjectSerializeRequest
  | QUnserialize => ObjectUnserializeRequest
  | QAlter _ _ => ObjectAlterRequest
  end.
Definition request_data (q : request) : option (list Z) :=
  match q with QSerialize js => Some js | QUnserialize => None | QAlter o f => Some (alter_js f o) end.
Definition request_bytes (sh : Z) (table : list Z) (oid : Z) (q : request) : list Z :=
  match request_data q with
  | Some js => data_message (request_id q) sh table oid js
  | None => plain_message (request_id q) sh table oid
  end.

Section Requests.
Context {C : Type} `{SocketClientApi C} {K : Type}.
Context {F : Type} `{FloatText F} {D : Type} `{MySQLApi D} (SLOT_HASH_VALUE : Z).

Definition client_call (sh : Z) (table : list Z) (oid : Z) (q : request) (func : option K) rc (nc : NetworkClient C) :=
  match q with
  | QSerialize js => client_serialize sh table oid js func rc nc
  | QUnserialize => client_unserialize sh table oid func rc nc
  | QAlter o f => client_alter o sh table oid f func rc nc
  end.
Definition push_callback (q : request) (func : option K) (rc : RecordClient K) : RecordClient K :=
  match q with
  | QSerialize _ => push_serialize func rc
  | QUnserialize => push_unserialize func rc
  | QAlter _ _ => push_alter func rc
  end.

Lemma send_request_all msg (nc : NetworkClient C) : msg_len msg = Ret (Z.of_nat (length msg)) → send_request msg nc = nc_send msg nc.
Proof. intros El. unfold send_request. rewrite El. cbn [mbind outcome_bind]. by rewrite Nat2Z.id, take_ge by done. Qed.

Lemma request_reads sh table oid q : header_ok sh table oid 0 → Z.of_nat (length (default [] (request_data q))) + 44 < 2 ^ 31 →
  let msg := request_bytes sh table oid q in
  reads_as sh oid table (request_id q) msg ∧ request_size (request_id q) msg = Ret (Z.of_nat (length msg)) ∧
  ∀ js, request_data q = Some js → msg_datalen msg = Ret (Z.of_nat (length js)) ∧ msg_data 44 (Z.of_nat (length js)) msg = Ret js.
Proof.
  intros (Hsh & Hoid & _ & Hq & Hl) Hd msg. unfold msg, request_bytes.
  assert (fits 16 (request_id q)) as Hid by by destruct q.
  destruct (request_data q) as [js|] eqn:Ejs.
  - destruct (data_message_reads sh oid table Hsh Hoid Hq Hl (request_id q) js Hid Hd) as (Hr & H1' & H2' & H3').
    split_and!; [done|by destruct q|by intros js' [= <-]].
  - destruct (plain_message_reads sh oid table Hsh Hoid Hq Hl (request_id q) Hid) as [Hr Hlen].
    split_and!; [done|rewrite Hlen; by destruct q|done].
Qed.

Lemma client_call_sends sh table oid q func rc nc c c' : header_ok sh table oid 0 →
  Z.of_nat (length (default [] (request_data q))) + 44 < 2 ^ 31 →
  socketClient nc = Some c → cl_send (request_bytes sh table oid q) c = Ret c' →
  client_call sh table oid q func rc nc = Ret (push_callback q func rc, set_client (Some c') nc).
Proof.
  intros Hok Hd Hc Hs. destruct (request_reads sh table oid q Hok Hd) as ((_ & El & _) & _).
  assert (send_request (request_bytes sh table oid q) nc = Ret (set_client (Some c') nc)) as E.
  { rewrite send_request_all by done. unfold nc_send. by rewrite Hc, Hs. }
  unfold request_bytes in E. destruct q; cbn [request_data request_id] in E;
    cbn [client_call]; unfold client_serialize, client_unserialize, client_alter; by rewrite E.
Qed.

Lemma request_accepted sh table oid q s (pm : gmap Z (RecordProcess F D)) p : header_ok sh table oid 0 →
  Z.of_nat (length (default [] (request_data q))) + 44 < 2 ^ 31 → configured SLOT_HASH_VALUE pm → pm !! sh = Some p →
  let msg := request_bytes sh table oid q in
  msgParser SLOT_HASH_VALUE s msg pm
  = Ret (true, <[sh := set_slots (alter (push_request s msg) (hash_slot SLOT_HASH_VALUE oid) (_slots p)) p]> pm).
Proof.
  intros Hok Hd Hpm Hp msg. destruct (request_reads sh table oid q Hok Hd) as ((_ & El & Ei & Es & _ & Eo) & Esize & _).
  fold msg in El, Ei, Es, Eo, Esize. unfold msgParser. rewrite Ei. cbn [mbind outcome_bind].
  assert (known_request (request_id q) = true) as -> by by destruct q.
  rewrite El, Esize. cbn [mbind outcome_bind]. rewrite Z.eqb_refl, Es, Eo. cbn [mbind outcome_bind].
  rewrite manager_request_spec; [by rewrite Hp|done|]. destruct Hok as (_ & [Ho _] & _). done.
Qed.

(** A request reaches the worker as the application made it.  For a table name
    that fits its field, each call of a connected client sends one message and queues its
    callback; the server's splitter finds the end of exactly that message; the service
    accepts it, for a configured shard, and puts it on the list of the slot of the object;
    and the worker reads from it the table, the object and the data the client was given. *)
Theorem requests_arrive sh table oid q func rc nc c c' : header_ok sh table oid 0 →
  Z.of_nat (length (default [] (request_data q))) + 44 < 2 ^ 31 → let msg := request_bytes sh table oid q in
  socketClient nc = Some c → cl_send msg c = Ret c' →
  client_call sh table oid q func rc nc = Ret (push_callback q func rc, set_client (Some c') nc) ∧
  (∀ rest, net_split (msg ++ rest) = Z.of_nat (length msg)) ∧
  (∀ s (pm : gmap Z (RecordProcess F D)) p, configured SLOT_HASH_VALUE pm → pm !! sh = Some p →
    msgParser SLOT_HASH_VALUE s msg pm
    = Ret (true, <[sh := set_slots (alter (push_request s msg) (hash_slot SLOT_HASH_VALUE oid) (_slots p)) p]> pm)) ∧
  msg_table msg = Ret table ∧ msg_objectid msg = Ret oid ∧
  ∀ js, request_data q = Some js → (n ← msg_datalen msg; msg_data 44 n msg) = Ret js.
Proof.
  intros Hok Hd msg Hc Hs. destruct (request_reads sh table oid q Hok Hd) as ((Hf & El & Ei & Es & Et & Eo) & Esize & Hdata).
  fold msg in Hf, El, Ei, Es, Et, Eo, Esize, Hdata. split_and!; [by eapply client_call_sends|done| |done|done|].
  - intros s pm p Hpm Hp. by apply request_accepted.
  - intros js Hjs. by destruct (Hdata js Hjs) as [-> E].
Qed.
End Requests.

(** ** At concrete requests *)

Definition demo_line : NetworkClient line := MkNetClient false (Some (MkLine [] [])) [].

Lemma requests_arrive_witness : ∃ nc, client_unserialize 1 (str "players") 9 (Some 100) new_RecordClient demo_line
    = Ret (push_unserialize (Some 100) new_RecordClient, nc) ∧
  msg_table (request_bytes 1 (str "players") 9 QUnserialize) = Ret (str "players").
Proof.
  destruct (requests_arrive (F := Z) (D := toy) 8 1 (str "players") 9 QUnserialize (Some 100) new_RecordClient demo_line
    (MkLine [] []) (MkLine [] [request_bytes 1 (str "players") 9 QUnserialize])) as (E & _ & _ & Et & _).
  - split_and!; [unfold fits; lia..| |simpl; lia]. apply (bool_decide_unpack _). vm_compute. exact I.
  - simpl. lia.
  - done.
  - done.
  - eexists. split; [exact E|exact Et].
Defined.

Definition demo_responses : list response :=
  [RSerialize 1 (str "players") 8 RECORD_OK; RUnserialize 1 (str "players") 9 RECORD_OK (Some (str "{}"))].
Lemma demo_responses_ok : Forall response_ok demo_responses.
Proof.
  repeat constructor; try (unfold fits; lia); try (simpl; lia); apply (bool_decide_unpack _); vm_compute; exact I.
Qed.

Lemma client_refines_queues_witness : ∃ rc nc, record_update
    (push_unserialize (Some 2) (push_serialize (Some 1) new_RecordClient))
    (MkNetClient false (Some (MkLine (map (λ r, deliver (render r)) demo_responses) [])) []) = Ret (true, rc, nc) ∧
  invoked rc = [Invoke 1 1 (str "players") 8 RECORD_OK None; Invoke 2 1 (str "players") 9 RECORD_OK (Some (str "{}"))].
Proof. eexists _, _. split; [apply (client_refines_queues demo_responses _ [] demo_responses_ok)|reflexivity]. Defined.

(** Two Unserialize requests of one client, for the object 9, which exists, and then for 8,
    which does not; the slots have done their work, and [update] sends. *)
Definition server_slots : gmap Z (RecordProcess Z toy) :=
  {[1 := MkProcess 1 (<[1%nat := stored_slot]> (_slots demo_process))]}.
Definition both_requests : outcome (RecordClient Z * NetworkClient line) :=
  '(rc, nc) ← client_unserialize 1 (str "players") 9 (Some 100) new_RecordClient demo_line;
  client_unserialize 1 (str "players") 8 (Some 200) rc nc.
Definition serve (requests : list (list Z)) : outcome (list call) :=
  pm ← foldl (λ pm msg, pm ← pm; r ← msgParser 8 5 msg pm; Ret (snd r)) (Ret server_slots) requests;
  match pm !! 1 with
  | None => Undef
  | Some p =>
      match _slots p with
      | sl0 :: sl1 :: rest =>
          sl1 ← handle_front demo_Parse sl1; sl0 ← handle_front demo_Parse sl0;
          r ← process_update (λ _, [true]) (set_slots (sl0 :: sl1 :: rest) p) demo_connection; Ret (sent (snd r))
      | _ => Undef
      end
  end.
Definition both_answered : outcome (list (invocation Z)) :=
  '(rc, nc) ← both_requests;
  match socketClient nc with
  | None => Undef
  | Some l =>
      calls ← serve (outgoing l);
      let incoming := omap (λ c, match c with CallSend _ bytes => Some (deliver bytes) | _ => None end) calls in
      r ← record_update rc (MkNetClient false (Some (MkLine incoming [])) []);
      let '(_, rc, _) := r : bool * RecordClient Z * NetworkClient line in Ret (invoked rc)
  end.

(** The callback of the request for 9 is told that 8 was not found, and the callback of the
    request for 8 gets the data of 9. *)
Lemma answers_cross : both_answered = Ret [
  Invoke 100 1 (str "players") 8 RECORD_NOT_FOUND_OBJECT (Some []);
  Invoke 200 1 (str "players") 9 RECORD_OK (Some (json_object (members_of true
    match unserialize (str "players") 9 stored_slot with Ret (Some e, _) => e | _ => new_Entity 9 end)))].
Proof. vm_compute. reflexivity. Qed.
