(* ===== verification/Session.v ===== *)
(** * A session: from the calls of a client to its callbacks

    The composition of RecordClient.v, NetworkClient.v, Socket.v, RecordService.v and
    RecordProcess.v: a client makes calls, its bytes travel to the server in any pieces, the
    service puts the requests on a slot, the worker of the slot answers them, the answers
    travel back in any pieces and the client calls its callbacks. *)

From S2P Require Import Prelude CLib Strings Entity ByteQueue Socket SocketServer Net NetworkClient RecordProtocol RecordSchema RecordProcess RecordDatabase RecordToy RecordStore RecordService RecordAnswers RecordClient.

(** A call of the application: the table and the object, the request, the callback. *)
Record issue (K : Type) := Issue { i_table : list Z; i_object : Z; i_request : request; i_func : option K }.
Arguments Issue {K}.
Arguments i_table {K}.
Arguments i_object {K}.
Arguments i_request {K}.
Arguments i_func {K}.
Definition issue_bytes {K} (sh : Z) (i : issue K) : list Z := request_bytes sh (i_table i) (i_object i) (i_request i).

(** ** The run *)

Section Run.
Context {F : Type} `{FloatText F} {D : Type} `{MySQLApi D} `{!Walk (list Z) (Value F)}.
Context {B : Type} `{ByteQueue B} {K : Type}.
Context (Parse : list Z → option (json_root F)) (SLOT_HASH_VALUE : Z).

Fixpoint client_calls (sh : Z) (iss : list (issue K)) (rc : RecordClient K) (nc : NetworkClient line) : outcome (RecordClient K * NetworkClient line) :=
  match iss with
  | [] => Ret (rc, nc)
  | i :: iss => '(rc, nc) ← client_call sh (i_table i) (i_object i) (i_request i) (i_func i) rc nc; client_calls sh iss rc nc
  end.
(** The messages a new socket makes of the pieces that arrive. *)
Definition received (fd now : Z) (ios : list recv_io) : outcome (list (list Z)) :=
  r ← read_all net_split ios now (new_Socket (B := B) fd now);
  let '(_, msgs, _, _) := r : bool * list Socketmessage * Socket B * list recv_io in Ret (map payload msgs).
(** The service takes messages until it refuses one, which closes the connection. *)
Fixpoint server_receive (s : Z) (msgs : list (list Z)) (pm : gmap Z (RecordProcess F D)) : outcome (bool * gmap Z (RecordProcess F D)) :=
  match msgs with
  | [] => Ret (true, pm)
  | msg :: msgs => '(rc, pm) ← msgParser SLOT_HASH_VALUE s msg pm; if (rc : bool) then server_receive s msgs pm else Ret (false, pm)
  end.
(** The worker of the slot [h] works the requests off; then the service sends the answers. *)
Definition server_works (h n : nat) (p : RecordProcess F D) (ns : NetworkService recorder) : outcome (RecordProcess F D * NetworkService recorder) :=
  match _slots p !! h with
  | None => Undef
  | Some sl =>
      '(_, sl) ← slot_run Parse (replicate n Work) sl;
      process_update (λ _, replicate n true) (set_slots (<[h := sl]> (_slots p)) p) ns
  end.
Definition sent_to (s : Z) (ns : NetworkService recorder) : list Z :=
  concat (omap (λ c, match c with CallSend s' bytes => if decide (s' = s) then Some bytes else None | _ => None end) (sent ns)).
(** [cut] is how the network delivers a stream; [s] is the connection at the server. *)
Definition session (cut : list Z → list recv_io) (sh s : Z) (h : nat) (iss : list (issue K))
    (pm : gmap Z (RecordProcess F D)) (ns : NetworkService recorder) : outcome (bool * RecordClient K) :=
  '(rc, nc) ← client_calls sh iss new_RecordClient (MkNetClient false (Some (MkLine [] [])) []);
  match socketClient nc with
  | None => Undef
  | Some l =>
      msgs ← received s 0 (cut (concat (outgoing l)));
      '(_, pm) ← server_receive s msgs pm;
      match pm !! sh with
      | None => Undef
      | Some p =>
          '(_, ns) ← server_works h (length msgs) p ns;
          answers ← received 3 0 (cut (sent_to s ns));
          r ← record_update rc (MkNetClient false (Some (MkLine (map deliver answers) [])) []);
          let '(running, rc, _) := r : bool * RecordClient K * NetworkClient line in Ret (running, rc)
      end
  end.
End Run.

(** ** The network *)

Section Network.
Context {B : Type} `{ByteQueueLaws B}.

(** The network loses and changes nothing; it cuts as it likes. *)
Definition faithful (cut : list Z → list recv_io) : Prop := ∀ bytes, Forall data_io (cut bytes) ∧ io_bytes (cut bytes) = bytes.

Lemma received_frames cut fd now fs : faithful cut → Forall net_frame fs → received (B := B) fd now (cut (concat fs)) = Ret fs.
Proof.
  intros Hcut Hfs. destruct (Hcut (concat fs)) as [Hd Hb]. set (s := new_Socket (B := B) fd now).
  assert (bq_holds (rbuffer s) []) as Hs by apply bq_new_holds. set (f := make_netmsg 0 []).
  assert (net_frame f) as Hf by by apply make_netmsg_frame.
  unfold received, read_all. fold s. rewrite (bq_contents_holds _ _ Hs). cbn [mbind outcome_bind].
  destruct (read_loop_frames net_split net_frame now fs (S (length (A := Z) [] + length (io_bytes (cut (concat fs))))) (cut (concat fs)) s [] [] f f [])
    as (s' & -> & _); [done..|by rewrite app_nil_r|lia|].
  cbn [mbind outcome_bind app]. f_equal. rewrite map_map. rewrite <- (map_id fs) at 2. done.
Qed.
End Network.

Lemma reads_as_frame sh oid t id msg : reads_as sh oid t id msg → Z.of_nat (length msg) < 2 ^ 31 → net_frame msg.
Proof.
  intros (Hf & El & Ei & _) Hmax. specialize (Hf []). rewrite app_nil_r in Hf. unfold net_split in Hf. unfold net_frame.
  unfold msg_len, field_at in El. rewrite drop_0 in El. destruct (Nat.leb_spec (0 + 4) (length msg)); [|done].
  injection El as El. change (0 + 4)%nat with 4%nat in *. rewrite El in Hf.
  destruct (Z.ltb_spec (Z.of_nat (length msg)) netmessage_size); [lia|]. split; [lia|done].
Qed.

Lemma render_frame r : response_ok r → net_frame (render r).
Proof.
  destruct r as [sh t oid rv|sh t oid rv|sh t oid rv js]; cbn [render response_ok].
  - intros (Hsh & Hoid & Hrv & Hq & Hl).
    destruct (status_response_reads sh oid t Hsh Hoid Hq Hl ObjectSerializeResponse rv) as (Hr & Hlen & _); [done..|].
    eapply reads_as_frame; [exact Hr|by rewrite Hlen].
  - intros (Hsh & Hoid & Hrv & Hq & Hl).
    destruct (status_response_reads sh oid t Hsh Hoid Hq Hl ObjectAlterResponse rv) as (Hr & Hlen & _); [done..|].
    eapply reads_as_frame; [exact Hr|by rewrite Hlen].
  - intros [(Hsh & Hoid & Hrv & Hq & Hl) Hjs].
    destruct (unserialize_response_reads sh oid t Hsh Hoid Hq Hl rv js Hrv Hjs) as (Hr & _ & _ & _ & Hlen).
    eapply reads_as_frame; [exact Hr|lia].
Qed.

(** ** The client sends, the service receives *)

Section Client.
Context {K : Type} {F : Type} (Parse : list Z → option (json_root F)).
Implicit Types (i : issue K) (iss : list (issue K)).

(** A call with names and sizes that fit. *)
Record issue_ok (sh : Z) i : Prop := {
  io_header : header_ok sh (i_table i) (i_object i) 0;
  io_size : Z.of_nat (length (default [] (request_data (i_request i)))) + 44 < 2 ^ 31;
  io_table : quotable (i_table i);
  io_data : bytes_ok (default [] (request_data (i_request i)));
  io_names js ms : request_data (i_request i) = Some js → Parse js = Some (RObject ms) → Forall (λ m, quotable (c_str (fst m))) ms
}.

(** The callbacks of the calls of a kind. *)
Definition funcs_of (id : Z) iss : list (option K) := omap (λ i, if request_id (i_request i) =? id then Some (i_func i) else None) iss.
Definition push_all iss (rc : RecordClient K) : RecordClient K :=
  MkRecordClient (_serializeCallbacks rc ++ funcs_of ObjectSerializeRequest iss) (_unserializeCallbacks rc ++ funcs_of ObjectUnserializeRequest iss)
    (_alterCallbacks rc ++ funcs_of ObjectAlterRequest iss) (invoked rc).

Lemma push_all_cons i iss rc : push_all iss (push_callback (i_request i) (i_func i) rc) = push_all (i :: iss) rc.
Proof.
  unfold push_all, funcs_of. cbn [omap list_omap]. destruct (i_request i); cbn [push_callback request_id]; eval_eqb;
    cbn [push_serialize push_unserialize push_alter _serializeCallbacks _unserializeCallbacks _alterCallbacks invoked]; by list_norm.
Qed.

Lemma client_calls_send sh iss : Forall (issue_ok sh) iss → ∀ rc l,
  client_calls sh iss rc (MkNetClient false (Some l) []) =
  Ret (push_all iss rc, MkNetClient false (Some (MkLine (incoming l) (outgoing l ++ map (issue_bytes sh) iss))) []).
Proof.
  induction 1 as [|i iss Hi His IH]; intros rc l; cbn [client_calls map].
  - unfold push_all. cbn. rewrite !app_nil_r. by destruct rc, l.
  - rewrite (client_call_sends sh (i_table i) (i_object i) (i_request i) (i_func i) rc _ l (MkLine (incoming l) (outgoing l ++ [issue_bytes sh i])));
      [|apply Hi|apply Hi|done|done]. cbn [mbind outcome_bind]. unfold set_client. cbn [nc_stop nc_released]. rewrite IH. cbn [incoming outgoing].
    by rewrite push_all_cons, <- app_assoc.
Qed.

Lemma issue_frame sh i : issue_ok sh i → net_frame (issue_bytes sh i).
Proof.
  intros Hi. destruct (request_reads sh (i_table i) (i_object i) (i_request i) (io_header _ _ Hi) (io_size _ _ Hi)) as (Hr & _ & _).
  eapply reads_as_frame; [exact Hr|].
  unfold issue_bytes, request_bytes. pose proof (io_size _ _ Hi). destruct (request_data (i_request i)); cbn [default from_option id] in *;
    [unfold data_message|unfold plain_message]; rewrite !length_app, ?length_object_header, ?length_le_bytes; simpl; lia.
Qed.
End Client.

Section Server.
Context {D F : Type} `{RecordDatabaseLaws D F} `{!Walk (list Z) (Value F)} `{!WalkLaws (list Z) (Value F)}.
Context {K : Type} (Parse : list Z → option (json_root F)).
Implicit Types (i : issue K) (iss : list (issue K)) (sl : SlotDatabase F D) (p : RecordProcess F D).

Definition queue_requests (s sh : Z) iss sl : SlotDatabase F D := set_wlist (wlist sl ++ map (λ i, (s, issue_bytes sh i)) iss) sl.

Lemma server_receives SLOT_HASH_VALUE s sh h iss : Forall (issue_ok Parse sh) iss → Forall (λ i, hash_slot SLOT_HASH_VALUE (i_object i) = h) iss → ∀ pm p,
  configured SLOT_HASH_VALUE pm → pm !! sh = Some p →
  server_receive SLOT_HASH_VALUE s (map (issue_bytes sh) iss) pm
  = Ret (true, <[sh := set_slots (alter (queue_requests s sh iss) h (_slots p)) p]> pm).
Proof using Type.
  intros Hi. induction Hi as [|i iss Hi His IH]; intros Hh pm p Hpm Hp; cbn [map server_receive].
  - do 2 f_equal. assert (set_slots (alter (queue_requests s sh []) h (_slots p)) p = p) as ->; [|by rewrite insert_id].
    destruct p as [n v]. unfold set_slots. cbn [pid _slots]. f_equal. apply list_alter_id. intros sl. unfold queue_requests.
    cbn [map]. rewrite app_nil_r. by destruct sl.
  - apply Forall_cons in Hh as [Hh Hhs]. pose proof (request_accepted SLOT_HASH_VALUE sh _ _ _ s pm p (io_header _ _ _ Hi) (io_size _ _ _ Hi) Hpm Hp) as Ha.
    cbv zeta in Ha. fold (issue_bytes sh i) in Ha. rewrite Ha, Hh. cbn [mbind outcome_bind].
    set (p1 := set_slots _ p). rewrite (IH Hhs (<[sh := p1]> pm) p1).
    + rewrite insert_insert_eq. unfold p1, set_slots. cbn [pid _slots]. do 4 f_equal. rewrite list_alter_alter_eq.
      apply list_alter_ext; [|done]. intros sl _. unfold compose, queue_requests, push_request. cbn [map wlist set_wlist].
      unfold set_wlist. cbn. by rewrite <- app_assoc.
    + destruct Hpm as [Hs Hpm]. split; [done|]. intros sh' p' [[<- <-]|[_ Hl]]%lookup_insert_Some; [|by apply Hpm].
      unfold p1, set_slots. cbn [pid _slots]. rewrite length_alter. by apply Hpm.
    + apply lookup_insert_eq.
Qed.

Lemma issue_clean sh i : issue_ok Parse sh i → clean_request Parse sh (issue_bytes sh i).
Proof using Type.
  intros [(Hsh & Hoid & _ & _ & Hl) Hs Hq Hb Hn]. unfold issue_bytes, request_bytes.
  destruct (i_request i) as [js| |o f] eqn:Er; cbn [request_data request_id default from_option id] in *.
  - apply data_clean; [done|done|done|done|by left|done|lia|by intros ms Hms; apply (Hn js)].
  - apply plain_clean; [done|done|done|done|by left].
  - apply data_clean; [done|done|done|done|by right; left|done|lia|by intros ms Hms; eapply Hn].
Qed.

(** ** A turn of the worker answers the request in front *)

Definition answers_to (sh : Z) i (r : response) : Prop :=
  match i_request i, r with
  | QSerialize _, RSerialize sh' t oid _ | QAlter _ _, RAlter sh' t oid _ | QUnserialize, RUnserialize sh' t oid _ _ =>
      sh' = sh ∧ t = i_table i ∧ oid = i_object i
  | _, _ => False
  end.
(** The text of an answer leaves room for its header. *)
Definition room31 sl : Prop :=
  match printed sl with Some e => Z.of_nat (length (snd (SerializeToString true e))) + 48 < 2 ^ 31 | None => True end.
Fixpoint works_room (n : nat) sl : Prop :=
  match n with
  | O => True
  | S n => room31 sl ∧ match handle_front Parse sl with Ret sl => works_room n sl | _ => True end
  end.

Lemma room31_room sl : room31 sl → answer_room sl.
Proof using Type. unfold room31, answer_room. destruct (printed sl); [lia|done]. Qed.

Section Last.
Context (s : Z) (msg : list Z) (t : list Z) (oid : Z) (Ht : msg_table msg = Ret t) (Ho : msg_objectid msg = Ret oid).

(** The last answer on the list. *)
Definition last_status (id : Z) sl : Prop := ∃ pre rv, rlist sl = pre ++ [(s, status_response id (shard sl) t oid rv)] ∧ fits 32 rv.

Lemma send_status_last id rv sl sl' : fits 32 rv → send_status id s msg rv sl = Ret sl' → last_status id sl'.
Proof using Ht Ho. unfold send_status. rewrite Ht, Ho. intros Hrv [= <-]. by exists (rlist sl), rv. Qed.

Lemma on_serialize_last sl sl' : on_serialize Parse s msg sl = Ret sl' → last_status ObjectSerializeResponse sl'.
Proof using Ht Ho.
  unfold on_serialize. rewrite Ho, Ht. cbn [mbind outcome_bind]. intros (n & _ & (js & _ & E)%bind_Ret)%bind_Ret.
  destruct (ParseFromString Parse js _) as [[] e]; [|by apply send_status_last in E].
  apply bind_Ret in E as ([[] sl1] & _ & E); by apply send_status_last in E.
Qed.
Lemma on_alter_last sl sl' : on_alter Parse s msg sl = Ret sl' → last_status ObjectAlterResponse sl'.
Proof using Ht Ho.
  unfold on_alter. rewrite Ht. cbn [mbind outcome_bind]. intros (n & _ & (js & _ & E)%bind_Ret)%bind_Ret.
  destruct (alterTable Parse t js sl) as [[] sl1]; by apply send_status_last in E.
Qed.

Lemma unserialize_last retval data sl sl' : fits 32 retval → sendUnserializeResponse s msg retval data sl = Ret sl' →
  ∃ pre, rlist sl' = pre ++ [(s, unserialize_response (shard sl') t oid retval data)].
Proof using Ht Ho.
  intros Hr. unfold sendUnserializeResponse. rewrite Ht, Ho. cbn [mbind outcome_bind]. intros (u & _ & [= <-])%bind_Ret.
  by exists (rlist sl).
Qed.
Lemma on_unserialize_last w sl sl' : msg_id msg = Ret ObjectUnserializeRequest → wlist sl = (s, msg) :: w → room31 sl →
  on_unserialize s msg (set_wlist w sl) = Ret sl' → ∃ pre rv data,
  rlist sl' = pre ++ [(s, unserialize_response (shard sl') t oid rv data)] ∧ fits 32 rv ∧ Z.of_nat (length (default [] data)) + 48 < 2 ^ 31.
Proof using Ht Ho.
  intros Hid Hw Hroom. unfold on_unserialize. rewrite Ho, Ht. cbn [mbind outcome_bind].
  unfold room31, printed in Hroom. rewrite Hw, Hid, Ho, Ht, Z.eqb_refl in Hroom. change (entities (set_wlist w sl)) with (entities sl).
  intros ([found sl1] & Ef & E)%bind_Ret.
  assert (∀ e, found = Some e → Z.of_nat (length (snd (SerializeToString true e))) + 48 < 2 ^ 31) as Hlen.
  { intros e ->. destruct (entities sl !! oid) as [e'|]; [by injection Ef as <- _|]. by rewrite Ef in Hroom. }
  destruct found as [e|]; [|apply unserialize_last in E as [pre E]; [|done]; exists pre, RECORD_NOT_FOUND_OBJECT, None; split_and!; [done..|simpl; lia]].
  specialize (Hlen e eq_refl). unfold SerializeToString in *. cbn [snd] in Hlen.
  apply unserialize_last in E as [pre E]; [|done]. eexists pre, RECORD_OK, _. split; [exact E|split; [done|exact Hlen]].
Qed.
End Last.

Lemma turn_responds s i w sl : slot_ok Parse sl → issue_ok Parse (shard sl) i → wlist sl = (s, issue_bytes (shard sl) i) :: w → room31 sl →
  ∃ sl' r, handle_front Parse sl = Ret sl' ∧ slot_ok Parse sl' ∧ shard sl' = shard sl ∧ wlist sl' = w ∧
    rlist sl' = rlist sl ++ [(s, render r)] ∧ response_ok r ∧ answers_to (shard sl) i r.
Proof using All.
  intros [Ht Hcl] Hi Hw Hroom. set (msg := issue_bytes (shard sl) i) in *.
  pose proof (issue_clean _ _ Hi) as Hclean. fold msg in Hclean.
  destruct (request_reads (shard sl) (i_table i) (i_object i) (i_request i) (io_header _ _ _ Hi) (io_size _ _ _ Hi)) as ((_ & _ & Hid & Hs & Htab & Hob) & _).
  fold (issue_bytes (shard sl) i) in Hid, Hs, Htab, Hob. fold msg in Hid, Hs, Htab, Hob.
  destruct (handle_front_answered Parse sl s msg w Ht Hclean Hw (room31_room _ Hroom)) as (sl' & E & Ht' & Hs' & Hw' & l & Hr & Hl).
  cbn [set_wlist shard wlist rlist] in Hs', Hw', Hr. unfold owed, is_select in Hl. cbn [List.filter snd] in Hl. rewrite Hid in Hl.
  assert ((request_id (i_request i) =? ObjectSelectRequest) = false) as Hne by by destruct (i_request i). rewrite Hne in Hl.
  destruct l as [|m [|m2 l]]; [done| |done]. exists sl'.
  assert (∃ r pre, rlist sl' = pre ++ [(s, render r)] ∧ response_ok r ∧ answers_to (shard sl) i r) as (r & pre & Hlast & Hok & Ha).
  { destruct Hi as [(Hsh & Hoid & _ & Hq & Hlen) _ _ _ _]. unfold handle_front in E. rewrite Hw in E. unfold handle_request, check_shard in E.
    rewrite Hid in E. cbn [mbind outcome_bind] in E. rewrite Hs in E. cbn [mbind outcome_bind set_wlist shard] in E.
    rewrite Z.eqb_refl in E. cbn [cxx_assert mbind outcome_bind] in E.
    destruct (i_request i) eqn:Eq; cbn [request_id] in *; revert E; eval_eqb; cbn [mbind outcome_bind]; intros E.
    - destruct (on_serialize_last s msg _ _ Htab Hob _ _ E) as (pre & rv & El & Hrv). rewrite Hs' in El.
      exists (RSerialize (shard sl) (i_table i) (i_object i) rv), pre. unfold answers_to. rewrite Eq. by split_and!.
    - destruct (on_unserialize_last s msg _ _ Htab Hob w sl sl' Hid Hw Hroom E) as (pre & rv & data & El & Hrv & Hd). rewrite Hs' in El.
      exists (RUnserialize (shard sl) (i_table i) (i_object i) rv data), pre. unfold answers_to. rewrite Eq. by split_and!.
    - destruct (on_alter_last s msg _ _ Htab Hob _ _ E) as (pre & rv & El & Hrv). rewrite Hs' in El.
      exists (RAlter (shard sl) (i_table i) (i_object i) rv), pre. unfold answers_to. rewrite Eq. by split_and!. }
  exists r. rewrite Hr in Hlast. apply app_inj_tail in Hlast as [_ Hm]. rewrite Hr, Hm. split_and!; try done.
  split; [done|]. rewrite Hw', Hs'. rewrite Hw in Hcl. by apply Forall_cons in Hcl as [_ Hcl].
Qed.

Lemma worker_responds s iss : ∀ sl, slot_ok Parse sl → Forall (issue_ok Parse (shard sl)) iss →
  wlist sl = map (λ i, (s, issue_bytes (shard sl) i)) iss → works_room (length iss) sl →
  ∃ sl' rs, slot_run Parse (replicate (length iss) Work) sl = Ret ([], sl') ∧ wlist sl' = [] ∧
    rlist sl' = rlist sl ++ map (λ r, (s, render r)) rs ∧ Forall response_ok rs ∧ Forall2 (answers_to (shard sl)) iss rs.
Proof using All.
  induction iss as [|i iss IH]; intros sl Hok Hi Hw Hroom; cbn [length replicate slot_run].
  - exists sl, []. split_and!; [done|done|by rewrite app_nil_r|constructor|constructor].
  - apply Forall_cons in Hi as [Hi His]. destruct Hroom as [Hr1 Hr2]. cbn [map] in Hw.
    destruct (turn_responds s i _ sl Hok Hi Hw Hr1) as (sl1 & r & E & Hok1 & Hs1 & Hw1 & Hl1 & Hr & Ha). rewrite E in Hr2.
    destruct (IH sl1 Hok1) as (sl' & rs & E' & Hw' & Hl' & Hrs & Has); [by rewrite Hs1|by rewrite Hw1, Hs1|done|].
    exists sl', (r :: rs). cbn [slot_step]. rewrite E. cbn [mbind outcome_bind]. rewrite E'. cbn [mbind outcome_bind app].
    split_and!; [done|done| |by constructor|constructor; [done|by rewrite <- Hs1]]. rewrite Hl', Hl1. by list_norm.
Qed.
End Server.

(** ** The answers go out and are paired with the callbacks *)

Section Pairing.
Context {D F : Type} {K : Type}.
Implicit Types (i : issue K) (iss : list (issue K)) (sl : SlotDatabase F D) (ns : NetworkService recorder).

Lemma only_slot h sl (v : list (SlotDatabase F D)) : Forall (λ x, rlist x = []) v → (h < length v)%nat → concat (map rlist (<[h:=sl]> v)) = rlist sl.
Proof.
  intros Hv. revert h. assert (∀ w : list (SlotDatabase F D), Forall (λ x, rlist x = []) w → concat (map rlist w) = []) as Hnil.
  { induction 1 as [|x w Hx Hw IH]; [done|]. cbn [map concat]. by rewrite Hx, IH. }
  induction Hv as [|x v Hx Hv IH]; intros [|h] Hh; cbn [length] in Hh; [lia|lia| |].
  - change (<[0%nat:=sl]> (x :: v)) with (sl :: v). cbn [map concat]. rewrite (Hnil _ Hv). apply app_nil_r.
  - change (<[S h:=sl]> (x :: v)) with (x :: <[h:=sl]> v). cbn [map concat]. rewrite Hx. cbn [app]. apply IH. lia.
Qed.

Lemma sent_after s ns l : tasks ns !! s ≠ None → is_Some (socketServer ns) →
  sent_to s (after_sending ns l) = sent_to s ns ++ concat (omap (λ m, if decide (fst m = s) then Some (snd m) else None) l).
Proof.
  intros Ht [r Hr]. unfold sent_to, sent, after_sending. cbn [set_server socketServer]. rewrite Hr. cbn [fmap option_fmap option_map calls].
  rewrite omap_app, concat_app. do 2 f_equal. unfold delivered. induction l as [|[s' m] l IH]; [done|]. cbn [omap list_omap fst snd].
  destruct (decide (s' = s)) as [->|Hne]; [destruct (tasks ns !! s); [|done]|destruct (tasks ns !! s'); [|done]]; cbn [omap list_omap];
    [rewrite decide_True by done; by f_equal|by rewrite decide_False].
Qed.
Lemma answers_sent s ns rs : tasks ns !! s <> None → is_Some (socketServer ns) → sent ns = [] →
  sent_to s (after_sending ns (map (λ r, (s, render r)) rs)) = concat (map render rs).
Proof.
  intros Ht Hsv Hs. rewrite sent_after by done. unfold sent_to. rewrite Hs. cbn [omap list_omap concat app]. f_equal.
  clear. induction rs as [|r rs IH]; [done|]. cbn [map omap list_omap fst snd]. rewrite decide_True by done. by f_equal.
Qed.

(** The call of a callback that an answer makes. *)
Definition invocation_of (ir : issue K * response) : option (invocation K) :=
  k ← i_func (fst ir);
  Some (match snd ir with
        | RSerialize sh t oid rv | RAlter sh t oid rv => Invoke k sh t oid rv None
        | RUnserialize sh t oid rv js => Invoke k sh t oid rv (Some (default [] js))
        end).

Lemma take_callback_answers sh i r iss rc : answers_to sh i r → 
  take_callback r (push_all (i :: iss) (MkRecordClient [] [] [] (invoked rc)))
  = push_all iss (MkRecordClient [] [] [] (invoked rc ++ option_list (invocation_of (i, r)))).
Proof.
  unfold answers_to, push_all, funcs_of. cbn [omap list_omap _serializeCallbacks _unserializeCallbacks _alterCallbacks invoked app].
  intros Ha. destruct (i_request i) eqn:Eq, r; try done; destruct Ha as (-> & -> & ->); cbn [request_id]; eval_eqb;
    unfold take_callback; cbn [_serializeCallbacks _unserializeCallbacks _alterCallbacks]; unfold invocation_of; cbn [fst snd];
    destruct (i_func i) as [k|]; cbn; by rewrite ?app_nil_r.
Qed.

(** The calls that are not answered yet keep waiting. *)
Lemma answers_paired_first sh iss rest rs : Forall2 (answers_to sh) iss rs → ∀ inv,
  fold_left (λ rc r, take_callback r rc) rs (push_all (iss ++ rest) (MkRecordClient [] [] [] inv))
  = push_all rest (MkRecordClient [] [] [] (inv ++ omap invocation_of (zip iss rs))).
Proof.
  induction 1 as [|i r iss rs Ha _ IH]; intros inv; cbn [fold_left zip zip_with omap list_omap app].
  - by rewrite app_nil_r.
  - pose proof (take_callback_answers sh i r (iss ++ rest) (MkRecordClient [] [] [] inv) Ha) as E. cbn [invoked] in E. rewrite E, IH.
    destruct (invocation_of (i, r)); cbn [option_list]; by list_norm || by rewrite app_nil_r.
Qed.
Lemma answers_paired sh iss rs : Forall2 (answers_to sh) iss rs → ∀ inv,
  fold_left (λ rc r, take_callback r rc) rs (push_all iss (MkRecordClient [] [] [] inv))
  = MkRecordClient [] [] [] (inv ++ omap invocation_of (zip iss rs)).
Proof. intros Ha inv. rewrite <- (app_nil_r iss) at 1. by rewrite (answers_paired_first sh iss []). Qed.
End Pairing.

(** ** The whole run *)

Section Whole.
Context {D F : Type} `{RecordDatabaseLaws D F} `{!Walk (list Z) (Value F)} `{!WalkLaws (list Z) (Value F)}.
Context {B : Type} `{ByteQueueLaws B} {K : Type} (Parse : list Z → option (json_root F)) (SLOT_HASH_VALUE : Z).
Implicit Types (iss : list (issue K)) (sl : SlotDatabase F D) (p : RecordProcess F D) (ns : NetworkService recorder).

(** A server at rest with a connection [s]: the shards as a start leaves them, the slot [h]
    of the shard [sh] with nothing to do and no answer anywhere. *)
Record at_rest (sh s : Z) (h : nat) (pm : gmap Z (RecordProcess F D)) p sl ns : Prop := {
  ar_configured : configured SLOT_HASH_VALUE pm;
  ar_process : pm !! sh = Some p;
  ar_slot : _slots p !! h = Some sl;
  ar_shard : shard sl = sh;
  ar_ok : slot_ok Parse sl;
  ar_wlist : wlist sl = [];
  ar_rlists : Forall (λ x, rlist x = []) (_slots p);
  ar_live : tasks_live ns;
  ar_server : is_Some (socketServer ns);
  ar_sent : sent ns = [];
  ar_connection : tasks ns !! s <> None
}.

Lemma render_whole s r : response_ok r → whole_answer (s, render r).
Proof using Type. intros Hr. unfold whole_answer. cbn [snd]. rewrite netmsg_len_msg_len. by apply render_length. Qed.

Lemma server_answers sh s h pm p sl ns iss : at_rest sh s h pm p sl ns → Forall (issue_ok Parse sh) iss →
  works_room Parse (length iss) (queue_requests s sh iss sl) → ∃ p' ns' rs,
  server_works Parse h (length iss) (set_slots (alter (queue_requests s sh iss) h (_slots p)) p) ns = Ret (p', ns') ∧
  sent_to s ns' = concat (map render rs) ∧ Forall response_ok rs ∧ Forall2 (answers_to sh) iss rs.
Proof using All.
  intros Hr Hi Hroom. destruct Hr as [Hc Hp Hs Hsh Hok Hw Hrl Hlive Hserver Hsent Hconn].
  assert (slot_ok Parse (queue_requests s sh iss sl)) as Hok1.
  { destruct Hok as [Ht _]. split; [by apply set_wlist_tidy|]. unfold queue_requests. cbn [set_wlist wlist shard]. rewrite Hw. cbn [app].
    apply Forall_forall. intros m (i & -> & Hin)%list_elem_of_fmap. cbn [snd]. rewrite Hsh. apply issue_clean.
    exact (proj1 (Forall_forall _ _) Hi i Hin). }
  destruct (worker_responds Parse s iss (queue_requests s sh iss sl) Hok1) as (sl' & rs & E & _ & Hl & Hrs & Has);
    [by change (shard _) with (shard sl); rewrite Hsh|unfold queue_requests; cbn [set_wlist wlist shard]; by rewrite Hw, Hsh|done|].
  change (shard (queue_requests s sh iss sl)) with (shard sl) in Has. rewrite Hsh in Has.
  change (rlist (queue_requests s sh iss sl)) with (rlist sl) in Hl.
  assert (rlist sl = []) as Hrl0 by exact (proj1 (Forall_forall _ _) Hrl sl (list_elem_of_lookup_2 _ _ _ Hs)). rewrite Hrl0 in Hl. cbn [app] in Hl.
  assert (h < length (_slots p))%nat as Hh by by eapply lookup_lt_Some.
  assert (<[h:=sl']> (alter (queue_requests s sh iss) h (_slots p)) = <[h:=sl']> (_slots p)) as Eins.
  { rewrite list_insert_alter, list_alter_alter_eq, list_insert_alter. by apply list_alter_ext. }
  unfold server_works. cbn [set_slots _slots pid]. rewrite list_lookup_alter_eq, Hs. cbn [fmap option_fmap option_map]. rewrite E. cbn [mbind outcome_bind].
  rewrite Eins. eexists _, _, rs. split; [|split; [|done]].
  - apply (update_sends_by_slot (λ _, replicate (length iss) true) (length iss)); [done|done|done|]. cbn [set_slots _slots].
    apply Forall_insert; [eapply Forall_impl; [exact Hrl|]; intros x Hx; cbv beta; rewrite Hx; split; [constructor|simpl; lia]|].
    rewrite Hl, length_map. split; [|by rewrite <- (Forall2_length _ _ _ Has)].
    apply Forall_fmap. eapply Forall_impl; [exact Hrs|]. intros r Hr. by apply render_whole.
  - cbn [set_slots _slots]. rewrite only_slot, Hl by done. by apply answers_sent.
Qed.

(** A session with a record server.  A client calls Serialize, Unserialize, addKey and
    removeKey for any objects of one slot, with tables and names that can be
    quoted.  However the network cuts the stream of requests and the stream of answers, the
    run does not fail, the client keeps running, no callback is left waiting, and each call gets
    exactly one answer: its own callback is called, in the order of the calls, with the
    shard, the table and the object of that call. *)
Theorem session_answers cut sh s h iss pm p sl ns : faithful cut → at_rest sh s h pm p sl ns →
  Forall (issue_ok Parse sh) iss → Forall (λ i, hash_slot SLOT_HASH_VALUE (i_object i) = h) iss →
  works_room Parse (length iss) (queue_requests s sh iss sl) →
  ∃ rs, session (B := B) Parse SLOT_HASH_VALUE cut sh s h iss pm ns
        = Ret (true, MkRecordClient [] [] [] (omap invocation_of (zip iss rs))) ∧
    Forall2 (answers_to sh) iss rs.
Proof using All.
  intros Hcut Hrest Hi Hh Hroom. destruct (server_answers _ _ _ _ _ _ _ _ Hrest Hi Hroom) as (p' & ns' & rs & Ew & Es & Hrs & Has).
  exists rs. split; [|done]. unfold session. rewrite (client_calls_send Parse) by done. cbn [mbind outcome_bind socketClient outgoing incoming app].
  rewrite (received_frames cut) by (done || (apply Forall_fmap; eapply Forall_impl; [exact Hi|]; intros i; apply issue_frame)).
  cbn [mbind outcome_bind]. rewrite (server_receives Parse SLOT_HASH_VALUE s sh h iss Hi Hh pm p) by (apply Hrest).
  cbn [mbind outcome_bind]. rewrite lookup_insert_eq, length_map, Ew. cbn [mbind outcome_bind]. rewrite Es.
  rewrite (received_frames cut) by (done || (apply Forall_fmap; eapply Forall_impl; [exact Hrs|]; intros r; apply render_frame)).
  cbn [mbind outcome_bind]. unfold record_update, nc_update. cbn [socketClient cl_waiting line_api incoming].
  rewrite map_map, responses_handled by (done || (rewrite length_map; lia)). cbn [mbind outcome_bind].
  change (push_all iss new_RecordClient) with (push_all iss (MkRecordClient [] [] [] [])). by rewrite (answers_paired sh iss rs Has).
Qed.
End Whole.

(** ** Two calls for one object, a byte at a time *)

Definition byte_by_byte (bytes : list Z) : list recv_io := map (λ b, RData [b]) bytes.
Lemma byte_by_byte_faithful : faithful byte_by_byte.
Proof.
  intros bytes. split.
  - apply Forall_fmap, Forall_forall. intros b _. split; [done|unfold readlen; simpl; lia].
  - induction bytes as [|b bytes IH]; [done|]. unfold byte_by_byte, io_bytes in *. cbn [map concat]. by rewrite IH.
Qed.

Definition demo_issues : list (issue Z) :=
  [Issue (str "players") 9 (QSerialize demo_js) (Some 100); Issue (str "players") 9 QUnserialize (Some 200)].
Definition demo_slot1 : SlotDatabase Z toy := new_Slot 1 1 new_toy.

Lemma demo_issue_ok q : default [] (request_data q) = demo_js ∨ request_data q = None →
  issue_ok demo_Parse 1 (Issue (str "players") 9 q (Some 100)) ∧ issue_ok demo_Parse 1 (Issue (str "players") 9 q (Some 200)).
Proof.
  intros Hq. assert (Forall byte_ok demo_js) as Hb by (apply (bool_decide_unpack _); vm_compute; exact I).
  assert (header_ok 1 (str "players") 9 0) as Hh.
  { split_and!; [unfold fits; lia..| |simpl; lia]. apply (bool_decide_unpack _). vm_compute. exact I. }
  assert (quotable (str "players")) as Ht by (apply (bool_decide_unpack _); vm_compute; exact I).
  assert (Z.of_nat (length (default [] (request_data q))) + 44 < 2 ^ 31) as Hs.
  { destruct Hq as [-> | ->]; [|simpl; lia]. vm_compute. reflexivity. }
  assert (bytes_ok (default [] (request_data q))) as Hd by (destruct Hq as [-> | ->]; [exact Hb|constructor]).
  assert (∀ js ms, request_data q = Some js → demo_Parse js = Some (RObject ms) → Forall (λ m : list Z * json_value Z, quotable (c_str (fst m))) ms) as Hn.
  { intros js ms Hjs. destruct Hq as [Hq|Hq]; rewrite Hjs in Hq; [|done]. cbn in Hq. subst js. unfold demo_Parse, demo_js. rewrite decide_True by done.
    intros [= <-]. apply (bool_decide_unpack _). vm_compute. exact I. }
  by split; constructor.
Qed.

Lemma session_answers_witness : ∃ retval1 retval2 data,
  session (B := list Z) demo_Parse 8 byte_by_byte 1 5 1 demo_issues demo_manager demo_connection
  = Ret (true, MkRecordClient [] [] []
      [Invoke 100 1 (str "players") 9 retval1 None; Invoke 200 1 (str "players") 9 retval2 (Some data)]).
Proof.
  assert (at_rest demo_Parse 8 1 5 1 demo_manager demo_process demo_slot1 demo_connection) as Hrest.
  { split; [apply demo_configured|reflexivity|reflexivity|reflexivity| |reflexivity| | | |reflexivity|done].
    - split; [|constructor]. split; [split|by intros oid e Ho|unfold fits; simpl; lia]; [intros t fs Hf|intros t cols Hc]; done.
    - unfold demo_process. cbn [_slots]. repeat constructor.
    - apply demo_connection_live.
    - by eexists. }
  destruct (session_answers (B := list Z) demo_Parse 8 byte_by_byte 1 5 1 demo_issues demo_manager demo_process demo_slot1 demo_connection
    byte_by_byte_faithful Hrest) as (rs & E & Ha).
  - apply Forall_cons. split; [apply demo_issue_ok; by left|]. apply Forall_cons. split; [apply demo_issue_ok; by right|constructor].
  - repeat constructor.
  - vm_compute. repeat split.
  - apply Forall2_cons_inv_l in Ha as (r1 & l & H1 & (r2 & l2 & H2 & ->%Forall2_nil_inv_l & ->)%Forall2_cons_inv_l & ->).
    destruct r1 as [sh1 t1 o1 v1| |]; [|exfalso; exact H1..]. destruct r2 as [| |sh2 t2 o2 v2 js]; [exfalso; exact H2..|].
    destruct H1 as (-> & -> & ->), H2 as (-> & -> & ->). exists v1, v2, (default [] js). exact E.
Defined.
