(* ===== verification/Sessions.v ===== *)
(** * Sessions: several clients of one record server at once

    The clients of Session.v, any number of them, on one server: each has its connection, its
    shard and its slot.  The service takes the messages of the connections in any order, the
    workers take their turns and the service sends answers at any time, as a list of events
    says. *)

From stdpp Require Import functions.
From S2P Require Import Prelude CLib Strings Entity ByteQueue Socket SocketServer Net NetworkClient RecordProtocol RecordSchema RecordProcess RecordDatabase RecordToy RecordStore RecordService RecordAnswers RecordClient Session.

(** A client: its connection at the server, the shard and the slot of its objects, its calls. *)
Record client (K : Type) := Client { c_fd : Z; c_shard : Z; c_slot : nat; c_issues : list (issue K) }.
Arguments Client {K}.
Arguments c_fd {K}.
Arguments c_shard {K}.
Arguments c_slot {K}.
Arguments c_issues {K}.

(** ** The run *)

Section Run.
Context {F : Type} `{FloatText F} {D : Type} `{MySQLApi D} `{!Walk (list Z) (Value F)} `{!Walk Z (RecordProcess F D)}.
Context {B : Type} `{ByteQueue B} {K : Type}.
Context (Parse : list Z → option (json_root F)) (SLOT_HASH_VALUE : Z).

(** The server: the messages of each connection that the service has not taken yet, the
    shards, the network service. *)
Record town := Town { inboxes : gmap Z (list (list Z)); shards : gmap Z (RecordProcess F D); service : NetworkService recorder }.
Definition set_shards pm w := Town (inboxes w) pm (service w).

(** The service takes the next message of a connection; a message it refuses closes the
    connection. *)
Definition take_request (s : Z) (w : town) : outcome town :=
  match inboxes w !! s with
  | Some (msg :: msgs) =>
      '(rc, pm) ← msgParser SLOT_HASH_VALUE s msg (shards w);
      Ret (Town (if (rc : bool) then <[s := msgs]> (inboxes w) else delete s (inboxes w)) pm (service w))
  | _ => Ret w
  end.
(** The worker of a slot takes a turn. *)
Definition slot_turn (sh : Z) (h : nat) (w : town) : outcome town :=
  match shards w !! sh with
  | None => Ret w
  | Some p => match _slots p !! h with
              | None => Ret w
              | Some sl => sl ← handle_front Parse sl; Ret (set_shards (<[sh := set_slots (<[h := sl]> (_slots p)) p]> (shards w)) w)
              end
  end.
(** [locks] are the answers of [try_lock] for the slots of the shards. *)
Inductive event := Request (s : Z) | Turn (sh : Z) (h : nat) | Update (locks : Z → nat → list bool).
Definition town_step (ev : event) (w : town) : outcome town :=
  match ev with
  | Request s => take_request s w
  | Turn sh h => slot_turn sh h w
  | Update locks => '(pm, ns) ← manager_update locks (shards w) (service w); Ret (Town (inboxes w) pm ns)
  end.
Fixpoint town_run (evs : list event) (w : town) : outcome town :=
  match evs with
  | [] => Ret w
  | ev :: evs => w ← town_step ev w; town_run evs w
  end.

(** What the client has after its calls, and the messages that come out of its connection. *)
Definition client_start (cut : list Z → list recv_io) (c : client K) : outcome (RecordClient K * list (list Z)) :=
  '(rc, nc) ← client_calls (c_shard c) (c_issues c) new_RecordClient (MkNetClient false (Some (MkLine [] [])) []);
  match socketClient nc with
  | None => Undef
  | Some l => msgs ← received (B := B) (c_fd c) 0 (cut (concat (outgoing l))); Ret (rc, msgs)
  end.
(** The client reads what was sent to it. *)
Definition client_finish (cut : list Z → list recv_io) (bytes : list Z) (rc : RecordClient K) : outcome (bool * RecordClient K) :=
  answers ← received (B := B) 3 0 (cut bytes);
  r ← record_update rc (MkNetClient false (Some (MkLine (map deliver answers) [])) []);
  let '(running, rc, _) := r : bool * RecordClient K * NetworkClient line in Ret (running, rc).
Fixpoint clients_start (cut : list Z → list recv_io) (cs : list (client K)) : outcome (list (RecordClient K) * gmap Z (list (list Z))) :=
  match cs with
  | [] => Ret ([], ∅)
  | c :: cs => '(rc, msgs) ← client_start cut c; '(rcs, m) ← clients_start cut cs; Ret (rc :: rcs, <[c_fd c := msgs]> m)
  end.
Fixpoint clients_finish (cut : list Z → list recv_io) (ns : NetworkService recorder) (cs : list (client K)) (rcs : list (RecordClient K))
    : outcome (list (bool * RecordClient K)) :=
  match cs, rcs with
  | c :: cs, rc :: rcs =>
      r ← client_finish cut (sent_to (c_fd c) ns) rc; rs ← clients_finish cut ns cs rcs; Ret (r :: rs)
  | _, _ => Ret []
  end.
Definition sessions (cut : list Z → list recv_io) (cs : list (client K)) (evs : list event)
    (pm : gmap Z (RecordProcess F D)) (ns : NetworkService recorder) : outcome (list (bool * RecordClient K) * town) :=
  '(rcs, m) ← clients_start cut cs;
  w ← town_run evs (Town m pm ns);
  rs ← clients_finish cut (service w) cs rcs;
  Ret (rs, w).
End Run.

Arguments town F D : clear implicits.

(** ** What one connection has of a list *)

Section Only.
Context {A : Type}.
Implicit Types (l : list (Z * A)) (s : Z).

Definition only s l : list A := omap (λ e, if decide (fst e = s) then Some (snd e) else None) l.

Lemma only_app s l1 l2 : only s (l1 ++ l2) = only s l1 ++ only s l2.
Proof. apply omap_app. Qed.
Lemma only_cons_eq s x l : only s ((s, x) :: l) = x :: only s l.
Proof. unfold only. cbn [omap list_omap fst snd]. by rewrite decide_True. Qed.
Lemma only_cons_ne s e l : fst e ≠ s → only s (e :: l) = only s l.
Proof. intros Hne. unfold only. cbn [omap list_omap]. by rewrite decide_False. Qed.

Lemma only_cons_le s e l : (length (only s l) ≤ length (only s (e :: l)))%nat.
Proof.
  destruct e as [s' x]. destruct (decide (s' = s)) as [->|Hne]; [rewrite only_cons_eq; cbn; lia|by rewrite only_cons_ne].
Qed.

(** All of it, when the other parts of a concatenation have nothing of the connection. *)
Lemma only_concat s (ls : list (list (Z * A))) i x : ls !! i = Some x →
  (∀ j y, ls !! j = Some y → j ≠ i → only s y = []) → only s (concat ls) = only s x.
Proof.
  revert i. induction ls as [|y ls IH]; intros [|i] Hi Ho; [done|done|..]; cbn [concat]; rewrite only_app.
  - injection Hi as ->. assert (only s (concat ls) = []) as ->; [|apply app_nil_r].
    assert (∀ j y, ls !! j = Some y → only s y = []) as Hnil by (intros j y Hj; by apply (Ho (S j))).
    clear -Hnil. induction ls as [|y ls IH]; [done|]. cbn [concat]. rewrite only_app, (Hnil 0%nat y eq_refl). apply IH.
    intros j z Hz. by apply (Hnil (S j)).
  - rewrite (Ho 0%nat y eq_refl) by done. apply (IH i Hi). intros j z Hz Hne. apply (Ho (S j) z Hz). lia.
Qed.
Lemma only_map {C} (f : A → C) s l : omap (λ e, if decide (fst e = s) then Some (snd e) else None) (map (λ e, (fst e, f (snd e))) l) = map f (only s l).
Proof.
  unfold only. induction l as [|[s' x] l IH]; [done|]. cbn [map omap list_omap fst snd]. destruct (decide (s' = s)); [|done]. cbn [map]. by f_equal.
Qed.
Lemma only_Forall (P : A → Prop) s l : Forall (λ e, P (snd e)) l → Forall P (only s l).
Proof.
  intros Hl. apply Forall_forall. intros x ([s' y] & Hin & Hd)%list_elem_of_omap. cbn [fst snd] in Hd. case_decide; [|done].
  injection Hd as ->. exact (proj1 (Forall_forall _ _) Hl _ Hin).
Qed.
End Only.

(** ** Updates of the service, with any answers of [try_lock] *)

Section Updates.
Context {F D : Type}.
Implicit Types (sl : SlotDatabase F D) (p : RecordProcess F D) (ns : NetworkService recorder).

(** A list takes as many answers as the lock was free in succession. *)
Fixpoint lead (locks : list bool) : nat :=
  match locks with true :: locks => S (lead locks) | _ => 0%nat end.
Definition kept (locks : list bool) sl := set_rlist (drop (lead locks) (rlist sl)) sl.
Definition goes (locks : list bool) sl : list (Z * list Z) := take (lead locks) (rlist sl).

Lemma lead_replicate n : lead (replicate n true) = n.
Proof. induction n as [|n IH]; [done|]. cbn. by rewrite IH. Qed.

Lemma after_sending_nil ns : is_Some (socketServer ns) → after_sending ns [] = ns.
Proof. intros [r Hr]. destruct ns as [b sv tk hp nx rel]. cbn in Hr. subst sv. unfold after_sending. cbn. rewrite app_nil_r. by destruct r. Qed.
Lemma after_sending_server ns l : is_Some (socketServer ns) → is_Some (socketServer (after_sending ns l)).
Proof. intros [r Hr]. destruct ns as [b sv tk hp nx rel]. cbn in Hr. subst sv. by eexists. Qed.

Lemma slot_update_takes locks : ∀ sl ns, tasks_live ns → is_Some (socketServer ns) → Forall whole_answer (rlist sl) →
  slot_update locks sl ns = Ret (kept locks sl, after_sending ns (goes locks sl)).
Proof.
  unfold kept, goes. induction locks as [|[] locks IH]; intros sl ns Hl Hs Hw.
  1, 3: cbn [slot_update lead]; rewrite take_0, drop_0, after_sending_nil by done; by destruct sl as [? ? ? ? ? ? [|[]] ?].
  destruct (rlist sl) as [|[s msg] r] eqn:Er; cbn [slot_update lead take drop]; rewrite Er.
  - rewrite after_sending_nil by done. destruct sl. cbn in Er. by subst.
  - apply Forall_cons in Hw as [Hw1 Hw]. rewrite send_answer_spec by done. cbn [mbind outcome_bind].
    rewrite IH; [|done|by apply after_sending_server|done]. rewrite after_sending_app. done.
Qed.

Definition process_kept (locks : nat → list bool) p : RecordProcess F D := set_slots (imap (λ h, kept (locks h)) (_slots p)) p.
Definition process_goes (locks : nat → list bool) p : list (Z * list Z) := concat (imap (λ h, goes (locks h)) (_slots p)).
Definition whole_answers p : Prop := Forall (λ sl, Forall whole_answer (rlist sl)) (_slots p).

Lemma process_update_takes locks p ns : tasks_live ns → is_Some (socketServer ns) → whole_answers p →
  process_update locks p ns = Ret (process_kept locks p, after_sending ns (process_goes locks p)).
Proof.
  intros Hl Hs Hv. unfold process_update, process_kept, process_goes.
  assert (∀ v n ns, tasks_live ns → is_Some (socketServer ns) → Forall (λ sl : SlotDatabase F D, Forall whole_answer (rlist sl)) v →
    slots_update locks n v ns = Ret (imap (λ h, kept (locks (n + h)%nat)) v, after_sending ns (concat (imap (λ h, goes (locks (n + h)%nat)) v)))) as Hslots.
  { clear. induction v as [|sl v IH]; intros n ns Hl Hs Hv; cbn [slots_update imap concat].
    - by rewrite after_sending_nil.
    - apply Forall_cons in Hv as [Hw Hv]. rewrite slot_update_takes by done. cbn [mbind outcome_bind].
      rewrite IH; [|done|by apply after_sending_server|done]. cbn [mbind outcome_bind]. rewrite after_sending_app, Nat.add_0_r.
      assert (∀ A (g : list bool → SlotDatabase F D → A), imap (λ h, g (locks (S n + h)%nat)) v = imap ((λ h, g (locks (n + h)%nat)) ∘ S) v) as E.
      { intros A g. apply imap_ext. intros h x _. unfold compose. by rewrite Nat.add_succ_r. }
      by rewrite !E. }
  rewrite Hslots by done. done.
Qed.

Definition manager_kept (locks : Z → nat → list bool) (l : list Z) (pm : gmap Z (RecordProcess F D)) : gmap Z (RecordProcess F D) :=
  map_imap (λ sh p, Some (if bool_decide (sh ∈ l) then process_kept (locks sh) p else p)) pm.
Definition shard_goes (locks : Z → nat → list bool) (pm : gmap Z (RecordProcess F D)) (sh : Z) : list (Z * list Z) :=
  match pm !! sh with Some p => process_goes (locks sh) p | None => [] end.

Lemma elem_of_other (sh sh' : Z) l : sh' ≠ sh → bool_decide (sh' ∈ sh :: l) = bool_decide (sh' ∈ l).
Proof. intros Hne. apply bool_decide_ext. rewrite elem_of_cons. split; [by intros [E|E]|by right]. Qed.
Lemma manager_kept_lookup locks l pm sh :
  manager_kept locks l pm !! sh = (λ p, if bool_decide (sh ∈ l) then process_kept (locks sh) p else p) <$> pm !! sh.
Proof. unfold manager_kept. rewrite map_lookup_imap. by destruct (pm !! sh). Qed.

Lemma manager_loop_takes locks l : NoDup l → ∀ pm ns, tasks_live ns → is_Some (socketServer ns) → (∀ sh p, pm !! sh = Some p → whole_answers p) →
  manager_update_loop locks l pm ns = Ret (manager_kept locks l pm, after_sending ns (concat (map (shard_goes locks pm) l))).
Proof.
  induction 1 as [|sh l Hsh Hnd IH]; intros pm ns Hl Hs Hw; cbn [manager_update_loop map concat].
  - rewrite after_sending_nil by done. do 2 f_equal. apply map_eq. intros sh. rewrite manager_kept_lookup. by destruct (pm !! sh).
  - unfold shard_goes at 1. destruct (pm !! sh) as [p|] eqn:Ep.
    + rewrite process_update_takes by (done || by eapply Hw). cbn [mbind outcome_bind].
      rewrite IH; [|done|by apply after_sending_server|].
      * rewrite after_sending_app. do 2 f_equal; [|f_equal; f_equal].
        -- apply map_eq. intros sh'. rewrite !manager_kept_lookup. destruct (decide (sh' = sh)) as [->|Hne].
           ++ rewrite lookup_insert_eq, Ep. cbn. rewrite bool_decide_false by done. by rewrite bool_decide_true by left.
           ++ rewrite lookup_insert_ne by done. destruct (pm !! sh'); [|done]. cbn. by rewrite elem_of_other.
        -- f_equal. apply map_ext_in. intros sh' Hin. unfold shard_goes. rewrite lookup_insert_ne; [done|]. intros ->. apply Hsh. by apply list_elem_of_In.
      * intros sh' p' [[<- <-]|[_ Hp']]%lookup_insert_Some; [|by eapply Hw].
        specialize (Hw _ _ Ep). unfold whole_answers, process_kept in *. cbn [set_slots _slots].
        apply Forall_lookup. intros h x. rewrite list_lookup_imap. intros (y & Hy & ->)%fmap_Some. unfold kept. cbn [set_rlist rlist].
        apply Forall_drop. by eapply (Forall_lookup_1 _ _ _ _ Hw).
    + rewrite IH by done. do 2 f_equal. apply map_eq. intros sh'. rewrite !manager_kept_lookup.
      destruct (pm !! sh') eqn:E'; [|done]. cbn. by rewrite elem_of_other by congruence.
Qed.

Lemma manager_update_takes `{!Walk Z (RecordProcess F D)} `{!WalkLaws Z (RecordProcess F D)} locks pm ns : tasks_live ns → is_Some (socketServer ns) →
  (∀ sh p, pm !! sh = Some p → whole_answers p) → ∃ l, NoDup l ∧ (∀ sh, sh ∈ l ↔ is_Some (pm !! sh)) ∧
  manager_update locks pm ns = Ret (manager_kept locks l pm, after_sending ns (concat (map (shard_goes locks pm) l))).
Proof.
  intros Hl Hs Hw. exists (map fst (walk pm)). assert (map fst (walk pm) ≡ₚ map fst (map_to_list pm)) as Hp by apply fmap_Permutation, walk_all.
  assert (NoDup (map fst (walk pm))) as Hnd by (rewrite Hp; apply NoDup_fst_map_to_list). split_and!; [done| |by apply manager_loop_takes].
  intros sh. rewrite Hp, list_elem_of_fmap. split.
  - intros ([sh' p] & -> & Hin%elem_of_map_to_list). by eexists.
  - intros [p Hin]. exists (sh, p). split; [done|by apply elem_of_map_to_list].
Qed.
End Updates.

(** ** What holds between any two events *)

Section Inv.
Context {D F : Type} `{RecordDatabaseLaws D F} `{!Walk (list Z) (Value F)} `{!WalkLaws (list Z) (Value F)}.
Context `{!Walk Z (RecordProcess F D)} `{!WalkLaws Z (RecordProcess F D)}.
Context {K : Type} (Parse : list Z → option (json_root F)) (SLOT_HASH_VALUE : Z) (cs : list (client K)).
Implicit Types (i : issue K) (c : client K) (sl : SlotDatabase F D) (w : town F D).

(** The calls and the answers behind the bytes: what waits in each slot and what is ready there. *)
Record books := Books { waits : Z * nat → list (Z * issue K); readies : Z * nat → list (Z * response) }.
Implicit Types g : books.

Record slot_holds (k : Z * nat) g sl : Prop := {
  sh_shard : shard sl = fst k;
  sh_ok : slot_ok Parse sl;
  sh_wlist : wlist sl = map (λ e, (fst e, issue_bytes (fst k) (snd e))) (waits g k);
  sh_rlist : rlist sl = map (λ e, (fst e, render (snd e))) (readies g k);
  sh_issues : Forall (λ e, issue_ok Parse (fst k) (snd e)) (waits g k);
  sh_responses : Forall (λ e, response_ok (snd e)) (readies g k)
}.
Definition home c : Z * nat := (c_shard c, c_slot c).
(** A client: the calls that are answered, those on the way, the answers sent. *)
Record client_holds g w c (done rest : list (issue K)) (out : list response) : Prop := {
  ch_issues : c_issues c = done ++ only (c_fd c) (waits g (home c)) ++ rest;
  ch_inbox : inboxes w !! c_fd c = Some (map (issue_bytes (c_shard c)) rest);
  ch_answers : Forall2 (answers_to (c_shard c)) done (out ++ only (c_fd c) (readies g (home c)));
  ch_sent : sent_to (c_fd c) (service w) = concat (map render out);
  ch_ok : Forall response_ok out;
  ch_away k : k ≠ home c → only (c_fd c) (waits g k) = [] ∧ only (c_fd c) (readies g k) = []
}.
Definition known (s : Z) : Prop := ∃ c, c ∈ cs ∧ c_fd c = s.
Record town_inv g w : Prop := {
  ti_configured : configured SLOT_HASH_VALUE (shards w);
  ti_live : tasks_live (service w);
  ti_server : is_Some (socketServer (service w));
  ti_slots sh p h sl : shards w !! sh = Some p → _slots p !! h = Some sl → slot_holds (sh, h) g sl;
  ti_clients c : c ∈ cs → ∃ done rest out, client_holds g w c done rest out;
  ti_known k s : (∃ i, (s, i) ∈ waits g k) ∨ (∃ r, (s, r) ∈ readies g k) ∨ is_Some (inboxes w !! s) → known s
}.
(** What is fixed: the connections differ and live, the shards are there, and the calls of a
    client are fit and for objects of its slot. *)
Record client_fit (pm : gmap Z (RecordProcess F D)) (ns : NetworkService recorder) c : Prop := {
  cf_process : is_Some (pm !! c_shard c);
  cf_connection : tasks ns !! c_fd c ≠ None;
  cf_issues : Forall (issue_ok Parse (c_shard c)) (c_issues c);
  cf_slot : Z.of_nat (c_slot c) < SLOT_HASH_VALUE;
  cf_objects : Forall (λ i, hash_slot SLOT_HASH_VALUE (i_object i) = c_slot c) (c_issues c)
}.
Definition fit w : Prop := NoDup (map c_fd cs) ∧ Forall (client_fit (shards w) (service w)) cs.

Lemma client_by_fd c c' : NoDup (map c_fd cs) → c ∈ cs → c' ∈ cs → c_fd c = c_fd c' → c = c'.
Proof.
  clear. induction cs as [|x l IH]; [intros _ Hc; by apply not_elem_of_nil in Hc|]. cbn [map]. intros [Hx Hnd]%NoDup_cons Hc Hc' E.
  assert (∀ y, y ∈ l → c_fd y ≠ c_fd x) as Hne by (intros y Hy Ey; apply Hx; rewrite <- Ey; apply list_elem_of_fmap; by exists y).
  apply elem_of_cons in Hc as [->|Hc], Hc' as [->|Hc']; [done| | |by apply IH]; exfalso; [by apply (Hne c' Hc')|by apply (Hne c Hc)].
Qed.

Lemma fit_client w c : fit w → c ∈ cs → client_fit (shards w) (service w) c.
Proof using Type. intros [_ Hf] Hc. by eapply (proj1 (Forall_forall _ _) Hf). Qed.
Lemma fit_same w w' : (∀ sh, is_Some (shards w !! sh) → is_Some (shards w' !! sh)) → tasks (service w') = tasks (service w) → fit w → fit w'.
Proof using Type.
  intros Hs Ht [Hn Hf]. split; [done|]. eapply Forall_impl; [exact Hf|]. intros c [Hp Hc Hi Hh Ho]. split; [by apply Hs|by rewrite Ht|done..].
Qed.

Lemma slot_holds_same k g g' sl : waits g' k = waits g k → readies g' k = readies g k → slot_holds k g sl → slot_holds k g' sl.
Proof using Type. intros Ew Er [A1 A2 A3 A4 A5 A6]. split; by rewrite ?Ew, ?Er. Qed.
Lemma client_holds_same g g' w w' c done rest out : (∀ k, only (c_fd c) (waits g' k) = only (c_fd c) (waits g k)) →
  (∀ k, only (c_fd c) (readies g' k) = only (c_fd c) (readies g k)) →
  inboxes w' !! c_fd c = inboxes w !! c_fd c → sent_to (c_fd c) (service w') = sent_to (c_fd c) (service w) →
  client_holds g w c done rest out → client_holds g' w' c done rest out.
Proof using Type.
  intros Ew Er Ei Et [A1 A2 A3 A4 A5 A6]. split; rewrite ?Ew, ?Er, ?Ei, ?Et; try done. intros k Hk. rewrite Ew, Er. by apply A6.
Qed.
Lemma only_insert {A} (k0 : Z * nat) (l : list (Z * A)) (m : Z * nat → list (Z * A)) s k :
  only s l = only s (m k0) → only s (<[k0 := l]> m k) = only s (m k).
Proof using Type. intros E. destruct (decide (k = k0)) as [->|]; [by rewrite fn_lookup_insert|by rewrite fn_lookup_insert_ne]. Qed.

(** *** The service takes a request *)

Definition wait_more k e g : books := Books (<[k := waits g k ++ [e]]> (waits g)) (readies g).

Lemma push_holds k g s i sl : slot_holds k g sl → issue_ok Parse (fst k) i →
  slot_holds k (wait_more k (s, i) g) (push_request s (issue_bytes (fst k) i) sl).
Proof using Type.
  intros [A1 [Ht Hc] A3 A4 A5 A6] Hi. split; cbn [wait_more waits readies push_request set_wlist shard wlist rlist]; rewrite ?fn_lookup_insert; [done| | |done| |done].
  - split; [by apply set_wlist_tidy|]. cbn [push_request set_wlist wlist shard]. apply Forall_app. split; [done|].
    constructor; [|constructor]. rewrite A1. by apply issue_clean.
  - by rewrite map_app, A3.
  - apply Forall_app. split; [done|by constructor].
Qed.

(** The shards with one slot changed. *)
Lemma slots_alter_inv k f g g' (pm : gmap Z (RecordProcess F D)) p sl0 : pm !! fst k = Some p → _slots p !! snd k = Some sl0 →
  (∀ sh p h sl, pm !! sh = Some p → _slots p !! h = Some sl → slot_holds (sh, h) g sl) →
  (∀ k', k' ≠ k → waits g' k' = waits g k' ∧ readies g' k' = readies g k') → (slot_holds k g sl0 → slot_holds k g' (f sl0)) →
  ∀ sh p' h sl, <[fst k := set_slots (alter f (snd k) (_slots p)) p]> pm !! sh = Some p' → _slots p' !! h = Some sl → slot_holds (sh, h) g' sl.
Proof using Type.
  intros Hp Hsl0 Hs Hg Hf sh p' h sl Hp' Hsl. destruct (decide ((sh, h) = k)) as [E|Hne].
  - rewrite E. subst k. cbn [fst snd] in *. rewrite lookup_insert_eq in Hp'. injection Hp' as <-. cbn [set_slots _slots] in Hsl.
    rewrite list_lookup_alter_eq, Hsl0 in Hsl. injection Hsl as <-. apply Hf. by eapply Hs.
  - destruct (Hg _ Hne) as [Ew Er]. apply (slot_holds_same _ g); [done..|].
    apply lookup_insert_Some in Hp' as [[<- <-]|[_ Hp']]; [|by eapply Hs]. cbn [set_slots _slots] in Hsl.
    rewrite list_lookup_alter_ne in Hsl; [by eapply Hs|]. intros <-. apply Hne. by destruct k.
Qed.
Lemma configured_alter k f (pm : gmap Z (RecordProcess F D)) p : configured SLOT_HASH_VALUE pm → pm !! fst k = Some p →
  configured SLOT_HASH_VALUE (<[fst k := set_slots (alter f (snd k : nat) (_slots p)) p]> pm).
Proof using Type.
  intros [Hs Hpm] Hp. split; [done|]. intros sh p0 [[<- <-]|[_ Hl0]]%lookup_insert_Some; [|by apply Hpm].
  unfold set_slots. cbn [pid _slots]. rewrite length_alter. by apply Hpm.
Qed.
Lemma home_slot w c : fit w → configured SLOT_HASH_VALUE (shards w) → c ∈ cs →
  ∃ p sl, shards w !! fst (home c) = Some p ∧ _slots p !! snd (home c) = Some sl.
Proof using Type.
  intros Hfit [Hs Hpm] Hc. destruct (fit_client w c Hfit Hc) as [[p Hp] _ _ Hh _]. exists p. destruct (Hpm _ _ Hp) as [_ Hl].
  destruct (lookup_lt_is_Some_2 (_slots p) (c_slot c)) as [sl Hsl]; [lia|by exists sl].
Qed.

Lemma request_inv s g w : fit w → town_inv g w → ∃ w' g', take_request SLOT_HASH_VALUE s w = Ret w' ∧ fit w' ∧ town_inv g' w' ∧
  inboxes w' = alter tail s (inboxes w).
Proof using Type.
  intros Hfit Hinv. unfold take_request. destruct (inboxes w !! s) as [[|msg msgs]|] eqn:Ein.
  1, 3: exists w, g; split_and!; [done..|]; symmetry; apply map_eq; intros s'; rewrite lookup_alter; case_decide as Es; [subst s'; by rewrite Ein|done].
  destruct Hinv as [Hcf Hl Hsv Hsl Hcl Hk]. destruct (Hk (0, 0%nat) s) as (c & Hc & Ec); [by right; right; eexists|]. subst s.
  destruct (Hcl c Hc) as (done & rest & out & [Hi Hin Ha Hsent Hok Haw]). pose proof (fit_client w c Hfit Hc) as [_ Hconn Hio _ Hhash].
  rewrite Ein in Hin. injection Hin as Hin. destruct rest as [|i rest]; [done|]. injection Hin as -> ->.
  assert (issue_ok Parse (c_shard c) i ∧ hash_slot SLOT_HASH_VALUE (i_object i) = c_slot c) as [Hii Hih].
  { rewrite Hi, !Forall_app, Forall_cons in Hio, Hhash. by destruct Hio as (_ & _ & ? & _), Hhash as (_ & _ & ? & _). }
  destruct (home_slot w c Hfit Hcf Hc) as (p & sl0 & Hp & Hsl0).
  pose proof (request_accepted SLOT_HASH_VALUE (c_shard c) _ _ _ (c_fd c) (shards w) p (io_header _ _ _ Hii) (io_size _ _ _ Hii) Hcf Hp) as Hacc.
  cbv zeta in Hacc. fold (issue_bytes (c_shard c) i) in Hacc. rewrite Hacc, Hih. cbn [mbind outcome_bind]. clear Hacc.
  eexists (Town (<[c_fd c := map (issue_bytes (c_shard c)) rest]> (inboxes w)) _ (service w)), (wait_more (home c) (c_fd c, i) g).
  split_and!; [done| | |].
  - apply (fit_same w); [|done|done]. intros sh Hsh. cbn [shards]. by apply lookup_insert_is_Some'; right.
  - split; cbn [shards service inboxes]; [by apply (configured_alter (home c))|done|done|..].
    + apply (slots_alter_inv (home c) _ g _ _ _ sl0); [done|done|done| |by intros Hh; apply push_holds].
      intros k Hne. cbn [wait_more waits readies]. by rewrite fn_lookup_insert_ne.
    + intros c' Hc'. destruct (decide (c_fd c' = c_fd c)) as [E|Hne].
      * apply (client_by_fd c' c) in E; [|apply Hfit|done|done]. subst c'. exists done, rest, out. split; cbn [inboxes wait_more waits readies]; [| |done..|].
        -- rewrite fn_lookup_insert, only_app, only_cons_eq, Hi. cbn [only omap list_omap]. by rewrite <- app_assoc.
        -- by rewrite lookup_insert_eq.
        -- intros k Hkne. rewrite fn_lookup_insert_ne by done. by apply Haw.
      * destruct (Hcl c' Hc') as (done' & rest' & out' & Hch). exists done', rest', out'. eapply client_holds_same; [..|exact Hch]; cbn [inboxes wait_more waits readies]; [|done..|by rewrite lookup_insert_ne|done].
        intros k. apply only_insert. rewrite only_app, only_cons_ne by (intros E; by apply Hne). apply app_nil_r.
    + intros k s. cbn [wait_more waits readies]. intros [[j Hj]|[Hr|Hb]]; [|apply (Hk k); auto|].
      * destruct (decide (k = home c)) as [->|]; [|rewrite fn_lookup_insert_ne in Hj by done; apply (Hk k); eauto].
        rewrite fn_lookup_insert in Hj. apply elem_of_app in Hj as [Hj|Hj]; [apply (Hk (home c)); eauto|]. apply list_elem_of_singleton in Hj. injection Hj as -> _. by exists c.
      * apply lookup_insert_is_Some' in Hb as [<-|Hb]; [by exists c|]. apply (Hk k). auto.
  - cbn [inboxes]. apply map_eq. intros s'. rewrite lookup_alter. case_decide as Es; [subst s'; by rewrite lookup_insert_eq, Ein|by rewrite lookup_insert_ne].
Qed.

(** *** A worker takes a turn *)

Lemma only_nil_not s (l : list (Z * issue K)) i : (s, i) ∈ l → only s l ≠ [].
Proof using Type.
  intros Hin E. assert (i ∈ only s l) as Hi; [|by rewrite E in Hi; apply not_elem_of_nil in Hi].
  unfold only. apply list_elem_of_omap. exists (s, i). split; [done|]. cbn [fst snd]. by rewrite decide_True.
Qed.

Definition moved k q e g : books := Books (<[k := q]> (waits g)) (<[k := readies g k ++ [e]]> (readies g)).

Lemma moved_client g w c k s i r q : waits g k = (s, i) :: q → answers_to (fst k) i r → ∀ w' done rest out,
  inboxes w' = inboxes w → service w' = service w → (c_fd c = s → home c = k) →
  client_holds g w c done rest out → ∃ done, client_holds (moved k q (s, r) g) w' c done rest out.
Proof using Type.
  intros Hq Ha w' done rest out Ei Et Hhome Hch. destruct (decide (c_fd c = s)) as [<-|Hne].
  - destruct Hch as [A1 A2 A3 A4 A5 A6]. specialize (Hhome eq_refl). exists (done ++ [i]).
    split; cbn [moved waits readies]; rewrite ?Hhome, ?fn_lookup_insert, ?Ei, ?Et; [|done| |done|done|].
    + rewrite A1, Hhome, Hq, only_cons_eq. by list_norm.
    + rewrite only_app, only_cons_eq. cbn [only omap list_omap]. rewrite app_assoc, <- Hhome. apply Forall2_app; [done|].
      constructor; [|constructor]. by rewrite <- Hhome in Ha.
    + intros k' Hk'. rewrite !fn_lookup_insert_ne by done. apply A6. by rewrite Hhome.
  - exists done. eapply client_holds_same; [..|exact Hch]; cbn [moved waits readies]; [..|by rewrite Ei|by rewrite Et]; intros k'; apply only_insert.
    + by rewrite Hq, only_cons_ne by (intros E; by apply Hne).
    + rewrite only_app, only_cons_ne by (intros E; by apply Hne). by rewrite app_nil_r.
Qed.

(** The text of the answer of the turn, if it is one, leaves room for its header. *)
Definition turn_room (sh : Z) (h : nat) w : Prop :=
  match shards w !! sh ≫= λ p, _slots p !! h with Some sl => room31 sl | None => True end.

Lemma turn_inv sh h g w : fit w → town_inv g w → turn_room sh h w → ∃ w' g', slot_turn Parse sh h w = Ret w' ∧ fit w' ∧ town_inv g' w' ∧
  inboxes w' = inboxes w ∧ (is_Some (shards w !! sh ≫= λ p, _slots p !! h) → waits g' (sh, h) = tail (waits g (sh, h))) ∧
  ∀ k, k ≠ (sh, h) → waits g' k = waits g k.
Proof using Type*.
  intros Hfit Hinv Hroom. unfold slot_turn. destruct (shards w !! sh) as [p|] eqn:Hp; [|exists w, g; split_and!; [done..| |done]; by intros [? ?]].
  destruct (_slots p !! h) as [sl|] eqn:Hsl; [|exists w, g; split_and!; [done..| |done]; cbn; rewrite Hsl; by intros [? ?]].
  unfold turn_room in Hroom. rewrite Hp in Hroom. cbn [mbind option_bind] in Hroom. rewrite Hsl in Hroom. destruct (ti_slots _ _ Hinv _ _ _ _ Hp Hsl) as [Es Hok Hw Hr Hi Hrs]. cbn [fst] in *.
  destruct (waits g (sh, h)) as [|[s i] q] eqn:Eq.
  { exists w, g. cbn [map] in Hw. unfold handle_front. rewrite Hw. cbn [mbind outcome_bind]. split_and!; [|done..].
    unfold set_shards. rewrite list_insert_id by done. destruct p as [n v], w. cbn [set_slots pid _slots shards] in *. by rewrite insert_id. }
  cbn [map] in Hw. apply Forall_cons in Hi as [Hi His]. cbn [fst snd] in *.
  destruct (turn_responds Parse s i (map (λ e, (fst e, issue_bytes sh (snd e))) q) sl Hok) as (sl' & r & E & Hok' & Es' & Hw' & Hr' & Hro & Ha); [by rewrite Es|by rewrite Es|done|].
  rewrite E. cbn [mbind outcome_bind]. rewrite list_insert_alter. eexists _, (moved (sh, h) q (s, r) g). split_and!; [done| | |done| |].
  - apply (fit_same w); [|done|done]. intros sh' Hsh. cbn [set_shards shards]. by apply lookup_insert_is_Some'; right.
  - destruct (ti_known _ _ Hinv (sh, h) s) as (c & Hc & Ec); [left; exists i; rewrite Eq; by left|].
    destruct Hinv as [Hcf Hl Hsv Hslots Hcl Hk]. split; cbn [set_shards shards service inboxes]; [by apply (configured_alter (sh, h))|done|done|..].
    + apply (slots_alter_inv (sh, h) (λ _, sl') g _ _ _ sl); [done|done|done| |].
      * intros k Hne. cbn [moved waits readies]. by rewrite !fn_lookup_insert_ne.
      * intros _. split; cbn [moved waits readies fst]; rewrite ?fn_lookup_insert; [by rewrite Es'|done|done| |done|].
        -- rewrite Hr', Hr, map_app. done.
        -- apply Forall_app. split; [done|by constructor].
    + intros c' Hc'. destruct (Hcl c' Hc') as (done' & rest' & out' & Hch).
      destruct (moved_client g w c' (sh, h) s i r q Eq) with (w' := set_shards (<[sh := set_slots (alter (λ _, sl') h (_slots p)) p]> (shards w)) w) (done := done') (rest := rest') (out := out') as [d Hd];
        [cbn [fst]; by rewrite Es in Ha|done|done| |done|by exists d, rest', out'].
      intros Ef. destruct (decide (home c' = (sh, h))) as [->|Hne]; [done|]. destruct Hch as [_ _ _ _ _ A6].
      destruct (A6 (sh, h) (λ E, Hne (eq_sym E))) as [Ew _]. rewrite Ef in Ew. exfalso. apply (only_nil_not s (waits g (sh, h)) i); [rewrite Eq; by left|done].
    + intros k s'. cbn [moved waits readies]. intros [[j Hj]|[[r' Hj]|Hb]]; [| |apply (Hk k); auto]; (destruct (decide (k = (sh, h))) as [->|];
        [rewrite fn_lookup_insert in Hj|rewrite fn_lookup_insert_ne in Hj by done; apply (Hk k); eauto]).
      * apply (Hk (sh, h)). left. exists j. rewrite Eq. by right.
      * apply elem_of_app in Hj as [Hj|Hj]; [apply (Hk (sh, h)); eauto|]. apply list_elem_of_singleton in Hj. injection Hj as -> _. by exists c.
  - intros _. cbn [moved waits]. by rewrite fn_lookup_insert.
  - intros k Hne. cbn [moved waits]. by rewrite fn_lookup_insert_ne.
Qed.

(** *** The service sends *)

Definition let_go (locks : Z → nat → list bool) g : books := Books (waits g) (λ k, drop (lead (locks (fst k) (snd k))) (readies g k)).

Lemma goes_holds locks k g sl : slot_holds k g sl → goes locks sl = map (λ e, (fst e, render (snd e))) (take (lead locks) (readies g k)).
Proof using Type. intros Hh. unfold goes. rewrite (sh_rlist _ _ _ Hh). apply firstn_map. Qed.
Lemma kept_holds locks k g sl : slot_holds k g sl → slot_holds k (let_go locks g) (kept (locks (fst k) (snd k)) sl).
Proof using Type.
  intros [A1 [A2 A2'] A3 A4 A5 A6]. split; cbn [let_go waits readies kept set_rlist shard wlist rlist]; [done| |done| |done|by apply Forall_drop].
  - split; [by apply set_rlist_tidy|done].
  - rewrite A4. apply skipn_map.
Qed.

Lemma slots_whole g w sh p : town_inv g w → shards w !! sh = Some p → whole_answers p.
Proof using Type.
  intros Hinv Hp. apply Forall_lookup. intros h sl Hsl. destruct (ti_slots _ _ Hinv _ _ _ _ Hp Hsl) as [_ _ _ Hr _ Hrs]. rewrite Hr.
  apply Forall_fmap. eapply Forall_impl; [exact Hrs|]. intros [s r] Hr'. cbn [compose]. unfold compose. cbn [fst snd] in *. by eapply render_whole.
Qed.

(** What goes to a client comes from its slot. *)
Lemma client_gets locks l g w c : fit w → town_inv g w → c ∈ cs → NoDup l → (∀ sh, sh ∈ l ↔ is_Some (shards w !! sh)) →
  only (c_fd c) (concat (map (shard_goes locks (shards w)) l))
  = map render (only (c_fd c) (take (lead (locks (c_shard c) (c_slot c))) (readies g (home c)))).
Proof using Type.
  intros Hfit Hinv Hc Hnd Hl. destruct (home_slot w c Hfit (ti_configured _ _ Hinv) Hc) as (p & sl & Hp & Hsl). cbn [home fst snd] in Hp, Hsl.
  destruct (ti_clients _ _ Hinv c Hc) as (done & rest & out & [_ _ _ _ _ Haway]).
  assert (∀ sh p h sl, shards w !! sh = Some p → _slots p !! h = Some sl → (sh, h) ≠ home c → only (c_fd c) (goes (locks sh h) sl) = []) as Hnone.
  { intros sh p' h sl' Hp' Hsl' Hne. rewrite (goes_holds _ (sh, h) g) by by eapply ti_slots. unfold only at 1. rewrite only_map.
    destruct (Haway _ Hne) as [_ Er]. assert (only (c_fd c) (take (lead (locks sh h)) (readies g (sh, h))) = []) as ->; [|done].
    rewrite <- (take_drop (lead (locks sh h)) (readies g (sh, h))), only_app in Er. by apply app_eq_nil in Er as [-> _]. }
  assert (c_shard c ∈ l) as [n Hn]%list_elem_of_lookup by (apply Hl; by eexists).
  rewrite (only_concat _ _ n (process_goes (locks (c_shard c)) p)).
  - unfold process_goes. rewrite (only_concat _ _ (c_slot c) (goes (locks (c_shard c) (c_slot c)) sl)).
    + rewrite (goes_holds _ (home c) g) by by eapply ti_slots. unfold only at 1. by rewrite only_map.
    + by rewrite list_lookup_imap, Hsl.
    + intros h y. rewrite list_lookup_imap. intros (sl' & Hsl' & ->)%fmap_Some Hne. eapply Hnone; [done..|]. unfold home. congruence.
  - rewrite list_lookup_fmap, Hn. cbn. unfold shard_goes. by rewrite Hp.
  - intros m y. rewrite list_lookup_fmap. intros (sh & Hm & ->)%fmap_Some Hne. unfold shard_goes. destruct (shards w !! sh) as [p'|] eqn:Hp'; [|done].
    assert (sh ≠ c_shard c) as Hsh by (intros ->; apply Hne; by eapply NoDup_lookup).
    unfold process_goes. destruct (_slots p') as [|sl0 v] eqn:Ev; [done|]. rewrite <- Ev.
    assert (0 < length (_slots p'))%nat as Hpos by (rewrite Ev; cbn; lia).
    rewrite (only_concat _ _ 0%nat (goes (locks sh 0%nat) sl0)).
    + eapply Hnone; [done|by rewrite Ev|unfold home; congruence].
    + by rewrite list_lookup_imap, Ev.
    + intros h y. rewrite list_lookup_imap. intros (sl' & Hsl' & ->)%fmap_Some _. eapply Hnone; [done..|]. unfold home. congruence.
Qed.

Lemma update_inv locks g w : fit w → town_inv g w → ∃ w', town_step Parse SLOT_HASH_VALUE (Update locks) w = Ret w' ∧ fit w' ∧
  town_inv (let_go locks g) w' ∧ inboxes w' = inboxes w.
Proof using Type*.
  intros Hfit Hinv. destruct (manager_update_takes locks (shards w) (service w)) as (l & Hnd & Hl & E);
    [apply Hinv|apply Hinv|intros sh p; by apply slots_whole with g|]. cbn [town_step]. rewrite E. cbn [mbind outcome_bind].
  assert (∀ sh, manager_kept locks l (shards w) !! sh = process_kept (locks sh) <$> shards w !! sh) as Ek.
  { intros sh. rewrite manager_kept_lookup. destruct (shards w !! sh) eqn:Es; [|done]. cbn. rewrite bool_decide_true; [done|]. apply Hl. by eexists. }
  eexists. split_and!; [done| | |done].
  - apply (fit_same w); [|done|done]. intros sh. cbn [shards]. rewrite Ek. by rewrite fmap_is_Some.
  - assert (∀ c, c ∈ cs → tasks (service w) !! c_fd c ≠ None) as Hconn by (intros c Hc; by apply (fit_client w c Hfit Hc)).
    pose proof (λ c Hc, client_gets locks l g w c Hfit Hinv Hc Hnd Hl) as Hgets.
    destruct Hinv as [[Hs Hpm] Hlive Hsv Hsl Hcl Hk]. split; cbn [shards service inboxes].
    + split; [done|]. intros sh p. rewrite Ek. intros (p' & Hp' & ->)%fmap_Some. unfold process_kept. cbn [set_slots pid _slots]. rewrite length_imap. by apply Hpm.
    + done.
    + by apply after_sending_server.
    + intros sh p h sl. rewrite Ek. intros (p' & Hp' & ->)%fmap_Some. unfold process_kept. cbn [set_slots _slots]. rewrite list_lookup_imap.
      intros (sl' & Hsl' & ->)%fmap_Some. by apply (kept_holds locks (sh, h)), (Hsl sh p').
    + intros c Hc. destruct (Hcl c Hc) as (done & rest & out & [A1 A2 A3 A4 A5 A6]).
      set (k := lead (locks (c_shard c) (c_slot c))) in *. exists done, rest, (out ++ only (c_fd c) (take k (readies g (home c)))).
      split; cbn [let_go waits readies inboxes service]; [done|done| | | |].
      * rewrite <- app_assoc, <- only_app. unfold home at 2. cbn [fst snd]. fold k. by rewrite take_drop.
      * rewrite sent_after by (done || by apply Hconn). rewrite A4, map_app, concat_app. f_equal. fold (only (c_fd c) (concat (map (shard_goes locks (shards w)) l))).
        by rewrite Hgets.
      * apply Forall_app. split; [done|]. destruct (home_slot w c Hfit) as (p & sl & Hp & Hsl0); [by split|done|].
        apply (only_Forall response_ok), Forall_take. exact (sh_responses _ _ _ (Hsl _ _ _ _ Hp Hsl0)).
      * intros k' Hk'. destruct (A6 k' Hk') as [Ew Er]. split; [done|].
        rewrite <- (take_drop (lead (locks (fst k') (snd k'))) (readies g k')), only_app in Er. by apply app_eq_nil in Er as [_ Er].
    + intros k s. cbn [let_go waits readies]. intros [Hj|[[r Hr]|Hb]]; apply (Hk k); auto. right. left. exists r.
      rewrite <- (take_drop (lead (locks (fst k) (snd k))) (readies g k)). apply elem_of_app. by right.
Qed.

(** *** Any events *)

Definition event_room (ev : event) w : Prop := match ev with Turn sh h => turn_room sh h w | _ => True end.
Fixpoint run_rooms (evs : list event) w : Prop :=
  match evs with
  | [] => True
  | ev :: evs => event_room ev w ∧ match town_step Parse SLOT_HASH_VALUE ev w with Ret w => run_rooms evs w | _ => True end
  end.

Lemma town_step_inv ev g w : fit w → town_inv g w → event_room ev w → ∃ w' g', town_step Parse SLOT_HASH_VALUE ev w = Ret w' ∧ fit w' ∧ town_inv g' w'.
Proof using Type*.
  intros Hfit Hinv Hroom. destruct ev as [s|sh h|locks]; cbn [town_step].
  - destruct (request_inv s g w Hfit Hinv) as (w' & g' & ? & ? & ? & _). eauto.
  - destruct (turn_inv sh h g w Hfit Hinv Hroom) as (w' & g' & ? & ? & ? & _). eauto.
  - destruct (update_inv locks g w Hfit Hinv) as (w' & ? & ? & ? & _). eauto.
Qed.
Lemma run_inv evs : ∀ g w, fit w → town_inv g w → run_rooms evs w → ∃ w' g', town_run Parse SLOT_HASH_VALUE evs w = Ret w' ∧ fit w' ∧ town_inv g' w'.
Proof using Type*.
  induction evs as [|ev evs IH]; intros g w Hfit Hinv Hroom; cbn [town_run]; [eauto|]. destruct Hroom as [Hr1 Hr2].
  destruct (town_step_inv ev g w Hfit Hinv Hr1) as (w1 & g1 & E & Hf1 & Hi1). rewrite E in Hr2 |- *. cbn [mbind outcome_bind]. by eapply IH.
Qed.

Lemma town_run_app evs1 evs2 w : town_run Parse SLOT_HASH_VALUE (evs1 ++ evs2) w = (w ← town_run Parse SLOT_HASH_VALUE evs1 w; town_run Parse SLOT_HASH_VALUE evs2 w).
Proof using Type.
  revert w. induction evs1 as [|ev evs1 IH]; intros w; [done|]. cbn [app town_run]. destruct (town_step Parse SLOT_HASH_VALUE ev w) as [w1| |]; [apply IH|done|done].
Qed.
Lemma run_rooms_app evs1 evs2 w : run_rooms (evs1 ++ evs2) w → run_rooms evs1 w ∧ ∀ w', town_run Parse SLOT_HASH_VALUE evs1 w = Ret w' → run_rooms evs2 w'.
Proof using Type.
  revert w. induction evs1 as [|ev evs1 IH]; intros w; cbn [app run_rooms town_run]; [intros Hr; split; [done|by intros w' [= <-]]|].
  intros [Hr1 Hr2]. destruct (town_step Parse SLOT_HASH_VALUE ev w) as [w1| |]; [|done..]. apply IH in Hr2 as [Ha Hb]. by split.
Qed.

(** *** The rest gets done *)

Lemma requests_run ss : ∀ g w, fit w → town_inv g w → ∃ w' g', town_run Parse SLOT_HASH_VALUE (map Request ss) w = Ret w' ∧ fit w' ∧ town_inv g' w' ∧
  ∀ s, inboxes w' !! s = drop (count_occ Z.eq_dec ss s) <$> inboxes w !! s.
Proof using Type*.
  induction ss as [|s0 ss IH]; intros g w Hfit Hinv; cbn [map town_run count_occ].
  - exists w, g. split_and!; [done..|]. intros s. by destruct (inboxes w !! s).
  - cbn [town_step]. destruct (request_inv s0 g w Hfit Hinv) as (w1 & g1 & E & Hf1 & Hi1 & Eb). rewrite E. cbn [mbind outcome_bind].
    destruct (IH g1 w1 Hf1 Hi1) as (w2 & g2 & E2 & Hf2 & Hi2 & Eb2). exists w2, g2. split_and!; [done..|].
    intros s. rewrite Eb2, Eb, lookup_alter. destruct (Z.eq_dec s0 s) as [->|Hne]; case_decide; [|done|done|done].
    destruct (inboxes w !! s) as [[|m l]|]; [cbn; by rewrite drop_nil|done|done].
Qed.

Definition slot_eq_dec : ∀ k k' : Z * nat, {k = k'} + {k ≠ k'} := λ k k', decide (k = k').
Lemma turns_run ks : ∀ g w, fit w → town_inv g w → run_rooms (map (λ k, Turn (fst k) (snd k)) ks) w → ∃ w' g',
  town_run Parse SLOT_HASH_VALUE (map (λ k, Turn (fst k) (snd k)) ks) w = Ret w' ∧ fit w' ∧ town_inv g' w' ∧
  inboxes w' = inboxes w ∧ ∀ c, c ∈ cs → waits g' (home c) = drop (count_occ slot_eq_dec ks (home c)) (waits g (home c)).
Proof using Type*.
  induction ks as [|[sh h] ks IH]; intros g w Hfit Hinv Hroom; cbn [map town_run count_occ].
  - by exists w, g.
  - cbn [map run_rooms fst snd event_room] in Hroom. destruct Hroom as [Hr1 Hr2]. cbn [town_step] in *.
    destruct (turn_inv sh h g w Hfit Hinv Hr1) as (w1 & g1 & E & Hf1 & Hi1 & Eb & Ew & Eo). cbn [fst snd] in *. rewrite E in Hr2 |- *. cbn [mbind outcome_bind].
    destruct (IH g1 w1 Hf1 Hi1 Hr2) as (w2 & g2 & E2 & Hf2 & Hi2 & Eb2 & Ew2). exists w2, g2. split_and!; [done..|congruence|].
    intros c Hc. rewrite Ew2 by done. destruct (slot_eq_dec (sh, h) (home c)) as [Ek|Hne]; [|by rewrite Eo by congruence].
    destruct (home_slot w c Hfit (ti_configured _ _ Hinv) Hc) as (p & sl & Hp & Hsl). rewrite <- Ek in Hp, Hsl |- *. cbn [fst snd] in Hp, Hsl.
    rewrite Ew by (rewrite Hp; cbn; by eexists). destruct (waits g (sh, h)) as [|e l]; [cbn; by rewrite drop_nil|done].
Qed.

Definition calls_of (l : list (client K)) : nat := sum_list_with (λ c, length (c_issues c)) l.
(** Requests and turns for everything that can wait, then one update. *)
Definition finish (n : nat) : list event :=
  map Request (concat (map (λ c, replicate n (c_fd c)) cs)) ++ map (λ k, Turn (fst k) (snd k)) (concat (map (λ c, replicate n (home c)) cs)) ++ [Update (λ _ _, replicate n true)].

Lemma count_replicates {A} (dec : ∀ x y : A, {x = y} + {x ≠ y}) (f : client K → A) n l c : c ∈ l → (n ≤ count_occ dec (concat (map (λ c, replicate n (f c)) l)) (f c))%nat.
Proof using Type.
  assert (∀ x, count_occ dec (replicate n x) x = n) as Hr by (intros x; induction n as [|m IH]; [done|]; cbn; destruct (dec x x); [by rewrite IH|done]).
  induction l as [|c0 l IH]; [intros Hc; by apply not_elem_of_nil in Hc|]. cbn [map concat]. rewrite count_occ_app.
  intros [->|Hc]%elem_of_cons; [rewrite Hr; lia|]. specialize (IH Hc). lia.
Qed.
Lemma calls_of_member c l : c ∈ l → (length (c_issues c) ≤ calls_of l)%nat.
Proof using Type.
  unfold calls_of. induction l as [|c0 l IH]; [intros Hc; by apply not_elem_of_nil in Hc|]. cbn. intros [->|Hc]%elem_of_cons; [lia|]. specialize (IH Hc). lia.
Qed.
(** What belongs to the clients is no more than what each has. *)
Lemma length_only {A} (l : list (Z * A)) : (∀ e, e ∈ l → known (fst e)) → (∀ c, c ∈ cs → length (only (c_fd c) l) ≤ length (c_issues c))%nat → (length l ≤ calls_of cs)%nat.
Proof using Type.
  intros Hk Hc. assert (length l ≤ sum_list_with (λ c, length (only (c_fd c) l)) cs)%nat as Hle.
  - clear Hc. induction l as [|[s x] l IH]; [cbn; lia|]. specialize (IH (λ e He, Hk e (list_elem_of_further _ _ _ He))).
    destruct (Hk (s, x)) as (c & Hc & Ec); [by left|]. cbn [fst length] in *.
    enough (S (sum_list_with (λ c, length (only (c_fd c) l)) cs) ≤ sum_list_with (λ c, length (only (c_fd c) ((s, x) :: l))) cs)%nat by lia.
    clear IH Hk. revert Hc. generalize cs. induction cs0 as [|c0 l0 IH]; [intros Hc; by apply not_elem_of_nil in Hc|]. cbn [sum_list_with].
    assert (∀ l0, sum_list_with (λ c, length (only (c_fd c) l)) l0 ≤ sum_list_with (λ c, length (only (c_fd c) ((s, x) :: l))) l0)%nat as Hmono.
    { clear. induction l0 as [|c l0 IH]; [done|]. cbn [sum_list_with]. pose proof (only_cons_le (c_fd c) (s, x) l). lia. }
    intros [->|Hc]%elem_of_cons; [rewrite Ec, only_cons_eq; specialize (Hmono l0); cbn [length]; lia|].
    specialize (IH Hc). pose proof (only_cons_le (c_fd c0) (s, x) l). lia.
  - etrans; [exact Hle|]. clear Hk Hle. unfold calls_of. revert Hc. generalize cs. induction cs0 as [|c l0 IH]; intros Hc; [done|]. cbn.
    specialize (Hc c ltac:(by left)) as H'. specialize (IH (λ c' Hc', Hc c' (list_elem_of_further _ _ _ Hc'))). lia.
Qed.

Lemma few_wait g w k : town_inv g w → (length (waits g k) ≤ calls_of cs)%nat ∧ (length (readies g k) ≤ calls_of cs)%nat.
Proof using Type.
  intros Hinv. split; apply length_only; try (intros [s x] Hin; apply (ti_known _ _ Hinv k s); eauto); intros c Hc;
    destruct (ti_clients _ _ Hinv c Hc) as (done & rest & out & [A1 _ A3 _ _ A6]); destruct (decide (k = home c)) as [->|Hne];
    try (destruct (A6 k Hne) as [E1 E2]; rewrite ?E1, ?E2; cbn; lia).
  - rewrite A1, !length_app. lia.
  - apply Forall2_length in A3. rewrite length_app in A3. rewrite A1, length_app. lia.
Qed.

Lemma finish_inv n g w : fit w → town_inv g w → run_rooms (finish n) w → (calls_of cs ≤ n)%nat → ∃ w' g',
  town_run Parse SLOT_HASH_VALUE (finish n) w = Ret w' ∧ fit w' ∧ town_inv g' w' ∧
  ∀ c, c ∈ cs → inboxes w' !! c_fd c = Some [] ∧ waits g' (home c) = [] ∧ readies g' (home c) = [].
Proof using Type*.
  intros Hfit Hinv Hroom Hn. unfold finish in *. set (ss := concat _) in *. set (ks := concat (map (λ c, replicate n (home c)) cs)) in *.
  destruct (requests_run ss g w Hfit Hinv) as (w1 & g1 & E1 & Hf1 & Hi1 & Eb1).
  apply run_rooms_app in Hroom as [_ Hroom]. specialize (Hroom w1 E1). apply run_rooms_app in Hroom as [Hroom _].
  destruct (turns_run ks g1 w1 Hf1 Hi1 Hroom) as (w2 & g2 & E2 & Hf2 & Hi2 & Eb2 & Ew2).
  destruct (update_inv (λ _ _, replicate n true) g2 w2 Hf2 Hi2) as (w3 & E3 & Hf3 & Hi3 & Eb3).
  exists w3, (let_go (λ _ _, replicate n true) g2). split_and!; [|done..|].
  - rewrite !town_run_app, E1. cbn [mbind outcome_bind]. rewrite town_run_app, E2. cbn [mbind outcome_bind town_run]. by rewrite E3.
  - intros c Hc. split_and!.
    + rewrite Eb3, Eb2, Eb1. destruct (ti_clients _ _ Hinv c Hc) as (done & rest & out & [A1 A2 _ _ _ _]). rewrite A2. cbn. f_equal. apply drop_ge.
      rewrite length_map. etrans; [|apply (count_replicates Z.eq_dec c_fd n cs c Hc)]. pose proof (calls_of_member c cs Hc) as Hle. rewrite A1, !length_app in Hle. lia.
    + cbn [let_go waits]. rewrite Ew2 by done. apply drop_ge. etrans; [|apply (count_replicates slot_eq_dec home n cs c Hc)]. etrans; [|exact Hn]. by eapply few_wait.
    + cbn [let_go readies]. rewrite lead_replicate. apply drop_ge. etrans; [|exact Hn]. by eapply few_wait.
Qed.
End Inv.

(** ** The whole run *)

Section Whole.
Context {D F : Type} `{RecordDatabaseLaws D F} `{!Walk (list Z) (Value F)} `{!WalkLaws (list Z) (Value F)}.
Context `{!Walk Z (RecordProcess F D)} `{!WalkLaws Z (RecordProcess F D)}.
Context {B : Type} `{ByteQueueLaws B} {K : Type} (Parse : list Z → option (json_root F)) (SLOT_HASH_VALUE : Z).
Implicit Types (c : client K) (cs : list (client K)) (w : town F D) (sl : SlotDatabase F D).

(** A server at rest: nothing waits in any slot, no answer is anywhere. *)
Record town_at_rest (pm : gmap Z (RecordProcess F D)) (ns : NetworkService recorder) : Prop := {
  tr_configured : configured SLOT_HASH_VALUE pm;
  tr_live : tasks_live ns;
  tr_server : is_Some (socketServer ns);
  tr_sent : sent ns = [];
  tr_slots sh p h sl : pm !! sh = Some p → _slots p !! h = Some sl → shard sl = sh ∧ slot_ok Parse sl ∧ wlist sl = [] ∧ rlist sl = []
}.
Definition town_inbox cs : gmap Z (list (list Z)) := list_to_map (map (λ c, (c_fd c, map (issue_bytes (c_shard c)) (c_issues c))) cs).

Lemma town_inv_start cs pm ns : NoDup (map c_fd cs) → town_at_rest pm ns →
  town_inv Parse SLOT_HASH_VALUE cs (Books (λ _, []) (λ _, [])) (Town (town_inbox cs) pm ns).
Proof using Type.
  intros Hnd [Hc Hl Hs Hsent Hsl]. split; cbn [shards service inboxes waits readies]; [done..| | |].
  - intros sh p h sl Hp Hh. destruct (Hsl _ _ _ _ Hp Hh) as (E & Hok & Hw & Hr). by split.
  - intros c Hin. exists [], (c_issues c), []. split; cbn [waits readies inboxes service]; [done| |constructor| |done|done].
    + unfold town_inbox. apply elem_of_list_to_map_1; [by rewrite map_map|]. apply list_elem_of_fmap. by exists c.
    + unfold sent_to. by rewrite Hsent.
  - intros k s [[i Hi]|[[r Hr]|[l Hl']]]; [by apply not_elem_of_nil in Hi|by apply not_elem_of_nil in Hr|].
    apply elem_of_list_to_map_2, list_elem_of_fmap in Hl' as (c & E & Hin). injection E as -> _. by exists c.
Qed.

Lemma clients_started cut cs : faithful cut → Forall (λ c, Forall (issue_ok Parse (c_shard c)) (c_issues c)) cs →
  clients_start (B := B) cut cs = Ret (map (λ c, push_all (c_issues c) new_RecordClient) cs, town_inbox cs).
Proof using Type*.
  intros Hcut. induction 1 as [|c cs Hi Hcs IH]; cbn [clients_start map]; [done|]. unfold client_start.
  rewrite (client_calls_send Parse) by done. cbn [mbind outcome_bind socketClient outgoing incoming app].
  rewrite (received_frames cut) by (done || (apply Forall_fmap; eapply Forall_impl; [exact Hi|]; intros i; apply issue_frame)).
  cbn [mbind outcome_bind]. by rewrite IH.
Qed.

(** The callbacks of the first calls have been called, the others wait. *)
Definition partly_answered c (r : bool * RecordClient K) : Prop := ∃ first rest answers, c_issues c = first ++ rest ∧
  Forall2 (answers_to (c_shard c)) first answers ∧ r = (true, push_all rest (MkRecordClient [] [] [] (omap invocation_of (zip first answers)))).
Definition all_answered c (r : bool * RecordClient K) : Prop := ∃ answers,
  Forall2 (answers_to (c_shard c)) (c_issues c) answers ∧ r = (true, MkRecordClient [] [] [] (omap invocation_of (zip (c_issues c) answers))).

Lemma client_finished cut g w c done rest out : faithful cut → client_holds g w c done rest out →
  ∃ r, client_finish (B := B) cut (sent_to (c_fd c) (service w)) (push_all (c_issues c) new_RecordClient) = Ret r ∧ partly_answered c r ∧
  (waits g (home c) = [] → readies g (home c) = [] → rest = [] → all_answered c r).
Proof using Type*.
  intros Hcut [A1 _ A3 A4 A5 _]. apply Forall2_app_inv_r in A3 as (first & done' & Hf & Hd & ->). rewrite <- !app_assoc in A1.
  set (later := done' ++ _) in A1. exists (true, push_all later (MkRecordClient [] [] [] (omap invocation_of (zip first out)))). split_and!.
  - unfold client_finish. rewrite A4, (received_frames cut) by (done || (apply Forall_fmap; eapply Forall_impl; [exact A5|]; intros r; apply render_frame)).
    cbn [mbind outcome_bind]. unfold record_update, nc_update. cbn [socketClient cl_waiting line_api incoming].
    rewrite map_map, responses_handled by (done || (rewrite length_map; lia)). cbn [mbind outcome_bind].
    change (push_all (c_issues c) new_RecordClient) with (push_all (c_issues c) (MkRecordClient [] [] [] [])). rewrite A1.
    by rewrite (answers_paired_first (c_shard c)) by done.
  - by exists first, later, out.
  - intros Ew Er ->. rewrite Er in Hd. apply Forall2_nil_inv_r in Hd as ->. unfold later in *. rewrite Ew in *. cbn [only omap list_omap app] in *. rewrite app_nil_r in A1.
    exists out. by rewrite A1.
Qed.

Lemma clients_finished cut g w cs (P : client K → bool * RecordClient K → Prop) : faithful cut →
  (∀ c, c ∈ cs → ∃ done rest out, client_holds g w c done rest out ∧ ∀ r, partly_answered c r → (waits g (home c) = [] → readies g (home c) = [] → rest = [] → all_answered c r) → P c r) →
  ∃ rs, clients_finish (B := B) cut (service w) cs (map (λ c, push_all (c_issues c) new_RecordClient) cs) = Ret rs ∧ Forall2 P cs rs.
Proof using Type*.
  intros Hcut. induction cs as [|c cs IH]; intros Hc; cbn [map clients_finish].
  - exists []. by split.
  - destruct (Hc c) as (done & rest & out & Hh & HP); [by left|]. destruct (client_finished cut g w c done rest out Hcut Hh) as (r & E & Hp & Ha).
    rewrite E. cbn [mbind outcome_bind]. destruct IH as (rs & -> & Hrs); [intros c' Hc'; apply Hc; by right|]. cbn [mbind outcome_bind].
    exists (r :: rs). split; [done|]. constructor; [by apply HP|done].
Qed.

(** C5 (liveness): several clients at once, of a server at rest ([town_at_rest]) over a database that
    keeps [RecordDatabaseLaws], each with a connection of its own to a shard that is there.  Each
    client calls Serialize, Unserialize, addKey and removeKey, with requests that fit a message and
    clean names ([issue_ok]), for objects that all hash to one slot ([cf_objects]); for objects of
    two slots this fails, and answers go to the wrong callbacks ([RecordClient.answers_cross]).  While
    every answer has room for its header in 31 bits ([run_rooms]): however the network cuts the
    streams, in whatever order the service takes the messages of the connections, the workers take
    their turns and the locks let the service send: nothing fails, every client keeps running, and at any time the first of its calls, each with its own answer and in the order of
    the calls, have been given to their callbacks, while the callbacks of the others wait.
    When then the service and the workers get to what is left, every call of every
    client has its answer. *)
Theorem sessions_answer cut cs evs n pm ns : faithful cut → town_at_rest pm ns → NoDup (map c_fd cs) →
  Forall (client_fit Parse SLOT_HASH_VALUE pm ns) cs → let w0 := Town (town_inbox cs) pm ns in
  (run_rooms Parse SLOT_HASH_VALUE evs w0 → ∃ rs w, sessions (B := B) Parse SLOT_HASH_VALUE cut cs evs pm ns = Ret (rs, w) ∧
     Forall2 partly_answered cs rs) ∧
  ((calls_of cs ≤ n)%nat → run_rooms Parse SLOT_HASH_VALUE (evs ++ finish cs n) w0 →
     ∃ rs w, sessions (B := B) Parse SLOT_HASH_VALUE cut cs (evs ++ finish cs n) pm ns = Ret (rs, w) ∧ Forall2 all_answered cs rs).
Proof using Type*.
  intros Hcut Hrest Hnd Hfit w0. pose proof (town_inv_start cs pm ns Hnd Hrest) as Hinv. fold w0 in Hinv.
  assert (fit Parse SLOT_HASH_VALUE cs w0) as Hf by by split.
  assert (Forall (λ c, Forall (issue_ok Parse (c_shard c)) (c_issues c)) cs) as Hi by (eapply Forall_impl; [exact Hfit|]; by intros c []).
  unfold sessions. rewrite clients_started by done. cbn [mbind outcome_bind]. fold w0. split.
  - intros Hroom. destruct (run_inv Parse SLOT_HASH_VALUE cs evs _ _ Hf Hinv Hroom) as (w & g & -> & _ & Hg). cbn [mbind outcome_bind].
    destruct (clients_finished cut g w cs partly_answered Hcut) as (rs & -> & Hrs); [|by exists rs, w].
    intros c Hc. destruct (ti_clients _ _ _ _ _ Hg c Hc) as (done & rest & out & Hh). by exists done, rest, out.
  - intros Hn Hroom. apply run_rooms_app in Hroom as [Hroom Hroom2].
    destruct (run_inv Parse SLOT_HASH_VALUE cs evs _ _ Hf Hinv Hroom) as (w & g & E & Hfw & Hg). specialize (Hroom2 w E).
    destruct (finish_inv Parse SLOT_HASH_VALUE cs n g w Hfw Hg Hroom2 Hn) as (w' & g' & E' & _ & Hg' & Hall).
    rewrite town_run_app, E. cbn [mbind outcome_bind]. rewrite E'. cbn [mbind outcome_bind].
    destruct (clients_finished cut g' w' cs all_answered Hcut) as (rs & -> & Hrs); [|by exists rs, w'].
    intros c Hc. destruct (ti_clients _ _ _ _ _ Hg' c Hc) as (done & rest & out & Hh). exists done, rest, out. split; [done|].
    destruct (Hall c Hc) as (Eb & Ew & Er). intros r _ Ha. apply Ha; [done..|]. rewrite (ch_inbox _ _ _ _ _ _ Hh) in Eb. by destruct rest.
Qed.
End Whole.

(** ** Two clients in one slot, one in another *)

Definition demo_connections : NetworkService recorder :=
  MkNet false (Some (MkRecorder [] [])) {[5 := 0%nat; 6 := 1%nat; 7 := 2%nat]} {[0%nat := 5; 1%nat := 6; 2%nat := 7]} 3 [].
Definition demo_clients : list (client Z) :=
  [Client 5 1 1 demo_issues; Client 6 1 1 [Issue (str "players") 9 QUnserialize (Some 100)]; Client 7 1 0 [Issue (str "players") 8 QUnserialize (Some 200)]].
Definition demo_order : list event := [Request 6; Request 5; Turn 1 1; Request 7; Update (λ _ _, [true; false]); Request 5; Turn 1 1; Update (λ _ _, [])].

Lemma demo_town_rest : town_at_rest demo_Parse 8 demo_manager demo_connections.
Proof.
  split; [apply demo_configured| |by eexists|reflexivity|].
  - intros s t Ht. unfold demo_connections in *. cbn [tasks heap] in *.
    repeat (apply lookup_insert_Some in Ht as [[<- <-]|[_ Ht]]; [reflexivity|]). apply lookup_singleton_Some in Ht as [<- <-]. reflexivity.
  - intros sh p h sl Hp. unfold demo_manager in Hp. apply lookup_singleton_Some in Hp as [<- <-]. unfold demo_process. cbn [_slots]. rewrite list_lookup_fmap. intros (n & Hn & ->)%fmap_Some.
    split_and!; [done| |done|done]. split; [|constructor]. split; [split|by intros oid e Ho|unfold fits; simpl; lia]; [intros t fs Hf|intros t cols Hc]; done.
Qed.

Lemma demo_clients_fit : Forall (client_fit demo_Parse 8 demo_manager demo_connections) demo_clients.
Proof.
  assert (∀ q, default [] (request_data q) = demo_js ∨ request_data q = None → ∀ (oid k : Z), oid = 9 ∨ oid = 8 → issue_ok demo_Parse 1 (Issue (str "players") oid q (Some k))) as Hio.
  { intros q Hq oid k Ho. destruct (demo_issue_ok q Hq) as [[(Hsh & _ & Hr) H2 H3 H4 H5] _]. cbn [i_table i_object i_request] in *.
    split; cbn [i_table i_object i_request]; [|done..]. split; [done|]. split; [unfold fits; destruct Ho; subst; lia|done]. }
  repeat (apply Forall_cons; split); [..|constructor]; (split; cbn [c_shard c_fd c_issues c_slot]; [by eexists|done| |lia|repeat constructor]);
    repeat (apply Forall_cons; split); try constructor; apply Hio; auto.
Qed.

Lemma sessions_answer_witness : ∃ rv1 rv2 rv3 rv4 d2 d3 d4 w, sessions (B := list Z) demo_Parse 8 byte_by_byte demo_clients (demo_order ++ finish demo_clients 4) demo_manager demo_connections
  = Ret ([(true, MkRecordClient [] [] [] [Invoke 100 1 (str "players") 9 rv1 None; Invoke 200 1 (str "players") 9 rv2 (Some d2)]);
          (true, MkRecordClient [] [] [] [Invoke 100 1 (str "players") 9 rv3 (Some d3)]);
          (true, MkRecordClient [] [] [] [Invoke 200 1 (str "players") 8 rv4 (Some d4)])], w).
Proof.
  destruct (sessions_answer (B := list Z) demo_Parse 8 byte_by_byte demo_clients demo_order 4 demo_manager demo_connections byte_by_byte_faithful demo_town_rest) as [_ Hend].
  - apply (bool_decide_unpack _). vm_compute. exact I.
  - apply demo_clients_fit.
  - destruct Hend as (rs & w & E & Hrs); [apply (bool_decide_unpack _); vm_compute; exact I|vm_compute; repeat split|].
    apply Forall2_cons_inv_l in Hrs as (r1 & l1 & (a1 & Ha1 & ->) & Hrs & ->). apply Forall2_cons_inv_l in Hrs as (r2 & l2 & (a2 & Ha2 & ->) & Hrs & ->).
    apply Forall2_cons_inv_l in Hrs as (r3 & l3 & (a3 & Ha3 & ->) & ->%Forall2_nil_inv_l & ->).
    cbn [c_issues c_shard demo_clients demo_issues] in Ha1, Ha2, Ha3.
    apply Forall2_cons_inv_l in Ha1 as (x1 & m1 & H1 & (x2 & m2 & H2 & ->%Forall2_nil_inv_l & ->)%Forall2_cons_inv_l & ->).
    apply Forall2_cons_inv_l in Ha2 as (x3 & m3 & H3 & ->%Forall2_nil_inv_l & ->). apply Forall2_cons_inv_l in Ha3 as (x4 & m4 & H4 & ->%Forall2_nil_inv_l & ->).
    destruct x1 as [sh1 t1 o1 v1| |]; [|exfalso; exact H1..]. destruct x2 as [| |sh2 t2 o2 v2 d2]; [exfalso; exact H2..|].
    destruct x3 as [| |sh3 t3 o3 v3 d3]; [exfalso; exact H3..|]. destruct x4 as [| |sh4 t4 o4 v4 d4]; [exfalso; exact H4..|].
    destruct H1 as (-> & -> & ->), H2 as (-> & -> & ->), H3 as (-> & -> & ->), H4 as (-> & -> & ->). exists v1, v2, v3, v4, (default [] d2), (default [] d3), (default [] d4), w. exact E.
Defined.
