(* ===== verification/Time.v ===== *)
(** * Time and Timer: src/time/Time.cpp, deps/bundle-0.01/include/time/Time.h and Timer.h

    Times of millisecond resolution in a [timeval], and a timer polled against the clock. *)

From S2P Require Import Prelude.

(** ** Time *)

(** [struct timeval]: two signed 64-bit numbers. *)
Record Time := MkTime { tv_sec : Z; tv_usec : Z }.
(** A signed 64-bit result; a larger one is undefined. *)
Definition signed64 (z : Z) : outcome Z := if (- 2 ^ 63 <=? z) && (z <? 2 ^ 63) then Ret z else Undef.

(** [Time(milliseconds)] and [operator=(milliseconds)]. *)
Definition Time_of (milliseconds : Z) : Time := MkTime (s64 (milliseconds / 1000)) (s64 (milliseconds mod 1000 * 1000)).
(** [Time(secondPart, millisecondPart)] *)
Definition Time_parts (secondPart millisecondPart : Z) : Time := MkTime (s64 secondPart) (s64 (u64 (millisecondPart * 1000))).
Definition secondPart (t : Time) : Z := u64 (tv_sec t).
(** The quotient of [tv_usec] is rounded towards zero. *)
Definition millisecondPart (t : Time) : Z := u64 (Z.quot (tv_usec t) 1000).
Definition microsecondsPart (t : Time) : Z := u64 (tv_usec t).
(** [Time(t)] and [operator=(t)] *)
Definition Time_copy (t : Time) : Time := MkTime (s64 (secondPart t)) (s64 (microsecondsPart t)).
Definition milliseconds (t : Time) : outcome Z := ms ← signed64 (tv_sec t * 1000); Ret (u64 (ms + millisecondPart t)).

Definition plus_ms (t : Time) (ms : Z) : outcome Z := a ← milliseconds t; Ret (u64 (a + ms)).
Definition plus (t u : Time) : outcome Z := a ← milliseconds t; b ← milliseconds u; Ret (u64 (a + b)).
Definition minus_ms (t : Time) (ms : Z) : outcome Z := a ← milliseconds t; Ret (if ms <=? a then a - ms else 0).
Definition minus (t u : Time) : outcome Z := a ← milliseconds t; b ← milliseconds u; Ret (if b <=? a then a - b else 0).
Definition gt (t u : Time) : outcome bool := a ← milliseconds t; b ← milliseconds u; Ret (b <? a).
Definition lt (t u : Time) : outcome bool := a ← milliseconds t; b ← milliseconds u; Ret (a <? b).

(** ** Timer *)

(** The clock [sTime.milliseconds()] is an argument of each call. *)
Record Timer := MkTimer { _last_scale : Z; _interval_milliseconds : Z }.
Definition new_Timer (now milliseconds : Z) : Timer := MkTimer now milliseconds.
Definition resetInterval (milliseconds : Z) (t : Timer) : Timer := MkTimer (_last_scale t) milliseconds.
Definition resetScale (now : Z) (t : Timer) : Timer := MkTimer now (_interval_milliseconds t).
(** [operator()] *)
Definition poll (now : Z) (t : Timer) : bool * Timer :=
  if _interval_milliseconds t <=? u64 (now - _last_scale t) then (true, resetScale now t) else (false, t).
Fixpoint polls (nows : list Z) (t : Timer) : list bool * Timer :=
  match nows with
  | [] => ([], t)
  | now :: nows =>
      let '(b, t) := poll now t in let '(bs, t) := polls nows t in (b :: bs, t)
  end.

(** ** Times are numbers of milliseconds *)

Lemma signed64_ok z : sfits 64 z → signed64 z = Ret z.
Proof.
  unfold sfits, signed64. change (64 - 1) with 63. intros Hz.
  by rewrite (proj2 (Z.leb_le _ _)), (proj2 (Z.ltb_lt _ _)) by lia.
Qed.

Lemma Time_of_milliseconds ms : 0 ≤ ms < 2 ^ 63 → milliseconds (Time_of ms) = Ret ms.
Proof.
  intros Hms. unfold milliseconds, Time_of, millisecondPart. cbn [tv_sec tv_usec].
  unfold s64. rewrite !swrap_id by (done || (unfold sfits; change (64 - 1) with 63; dlia)).
  rewrite signed64_ok by (unfold sfits; change (64 - 1) with 63; dlia). cbn [mbind outcome_bind].
  rewrite Z.quot_mul by done. unfold u64. rewrite (wrap_id 64 (ms mod 1000)) by (unfold fits; dlia).
  rewrite wrap_id by (unfold fits; dlia). f_equal. dlia.
Qed.

Lemma Time_of_overflow ms : 2 ^ 63 + 1000 ≤ ms < 2 ^ 64 → milliseconds (Time_of ms) = Undef.
Proof.
  intros Hms. unfold milliseconds, Time_of. cbn [tv_sec tv_usec]. unfold s64.
  rewrite !swrap_id by (done || (unfold sfits; change (64 - 1) with 63; dlia)).
  unfold signed64. rewrite (proj2 (Z.ltb_ge _ (2 ^ 63))) by dlia. by rewrite andb_false_r.
Qed.

(** Below 2^63 a Time is its number of milliseconds.  Making one and asking for its
    milliseconds gives the number back, copying keeps it, sums are exact below 2^64 and wrap
    beyond, differences stop at zero, and the comparisons are those of the numbers; from a
    second past 2^63 on the product with 1000 overflows. *)
Theorem time_arithmetic a b : 0 ≤ a < 2 ^ 63 → 0 ≤ b < 2 ^ 63 →
  milliseconds (Time_of a) = Ret a ∧ Time_copy (Time_of a) = Time_of a ∧
  milliseconds (Time_parts (a / 1000) (a mod 1000)) = Ret a ∧
  plus (Time_of a) (Time_of b) = Ret (a + b) ∧ plus_ms (Time_of a) (2 ^ 64 - 1 - b) = Ret ((a - b - 1) mod 2 ^ 64) ∧
  minus (Time_of a) (Time_of b) = Ret (Z.max 0 (a - b)) ∧ minus_ms (Time_of a) b = Ret (Z.max 0 (a - b)) ∧
  gt (Time_of a) (Time_of b) = Ret (b <? a) ∧ lt (Time_of a) (Time_of b) = Ret (a <? b) ∧
  (∀ c, 2 ^ 63 + 1000 ≤ c < 2 ^ 64 → milliseconds (Time_of c) = Undef).
Proof.
  intros Ha Hb. unfold plus, plus_ms, minus, minus_ms, gt, lt. rewrite !Time_of_milliseconds by done.
  cbn [mbind outcome_bind].
  assert (Time_parts (a / 1000) (a mod 1000) = Time_of a) as Ep.
  { unfold Time_parts, Time_of. f_equal. unfold u64. by rewrite wrap_id by (unfold fits; dlia). }
  rewrite Ep, Time_of_milliseconds by done.
  assert ((if b <=? a then a - b else 0) = Z.max 0 (a - b)) as Em by (destruct (Z.leb_spec b a); lia).
  rewrite Em. split_and!; try done.
  - unfold Time_copy, Time_of, secondPart, microsecondsPart. cbn [tv_sec tv_usec]. unfold s64, u64.
    rewrite !(swrap_id 64 (a / 1000)), !(swrap_id 64 (a mod 1000 * 1000)) by (done || (unfold sfits; change (64 - 1) with 63; dlia)).
    rewrite !wrap_id by (unfold fits; dlia).
    by rewrite !swrap_id by (done || (unfold sfits; change (64 - 1) with 63; dlia)).
  - unfold u64. by rewrite wrap_id by (unfold fits; lia).
  - unfold u64, wrap. f_equal. replace (a + (2 ^ 64 - 1 - b)) with (a - b - 1 + 1 * 2 ^ 64) by lia. by rewrite Z.mod_add.
  - apply Time_of_overflow.
Qed.

Lemma time_arithmetic_witness : minus (Time_of 1500) (Time_of 2000) = Ret 0.
Proof. destruct (time_arithmetic 1500 2000) as (_ & _ & _ & _ & _ & -> & _); [lia|lia|reflexivity]. Defined.

(** ** A timer fires at its interval *)

Definition fired (bs : list bool) : Z := Z.of_nat (length (List.filter (λ b : bool, b) bs)).
(** The clock does not go back. *)
Fixpoint ascending (from : Z) (nows : list Z) : Prop :=
  match nows with [] => True | now :: nows => from ≤ now < 2 ^ 64 ∧ ascending now nows end.
Definition final (from : Z) (nows : list Z) : Z := List.last nows from.

Lemma final_ge nows : ∀ from, ascending from nows → from ≤ final from nows.
Proof.
  unfold final. induction nows as [|now nows IH]; intros from; simpl; [lia|]. intros [Hn Ha].
  specialize (IH now Ha). destruct nows as [|n2 nows]; [lia|].
  assert (List.last (n2 :: nows) from = List.last (n2 :: nows) now) as -> by (clear; revert n2; induction nows; [done|intros; simpl in *; auto]).
  lia.
Qed.

Lemma last_cons_any {A} (x : A) l d e : List.last (x :: l) d = List.last (x :: l) e.
Proof. revert x. induction l as [|y l IH]; intros x; [done|]. exact (IH y). Qed.

Lemma final_cons from now nows : final from (now :: nows) = final now nows.
Proof. unfold final. destruct nows as [|y l]; [done|]. exact (last_cons_any y l from now). Qed.

Lemma fired_cons b bs : fired (b :: bs) = (if b then 1 else 0) + fired bs.
Proof. unfold fired. destruct b; simpl; lia. Qed.

(** A clock that does not go back is compared without wrapping. *)
Lemma poll_due now t : 0 ≤ _last_scale t → _last_scale t ≤ now < 2 ^ 64 →
  poll now t = if _interval_milliseconds t <=? now - _last_scale t then (true, resetScale now t) else (false, t).
Proof. intros H0 Hn. unfold poll, u64. by rewrite wrap_id by (unfold fits; lia). Qed.

(** How far the scale of the timer has moved when the clock has come to [now]. *)
Definition kept_pace (t : Timer) (now : Z) (bs : list bool) (t' : Timer) : Prop :=
  _interval_milliseconds t' = _interval_milliseconds t ∧
  _last_scale t + fired bs * _interval_milliseconds t ≤ _last_scale t' ≤ now ∧
  now - _last_scale t' < Z.max 1 (_interval_milliseconds t).

Lemma polls_keep_pace nows : ∀ t from, 0 ≤ _last_scale t ≤ from → 0 ≤ _interval_milliseconds t →
  from - _last_scale t < Z.max 1 (_interval_milliseconds t) → ascending from nows →
  kept_pace t (final from nows) (polls nows t).1 (polls nows t).2.
Proof.
  induction nows as [|now nows IH]; intros t from Hl Hi Hs Ha.
  { unfold kept_pace, final, fired. cbn. lia. }
  destruct Ha as [Hn Ha]. rewrite final_cons. cbn [polls]. rewrite poll_due by lia.
  destruct (Z.leb_spec (_interval_milliseconds t) (now - _last_scale t)) as [Hd|Hd].
  - specialize (IH (resetScale now t) now). destruct (polls nows (resetScale now t)) as [bs t'].
    unfold kept_pace in *. cbn [fst snd resetScale _last_scale _interval_milliseconds] in *. rewrite fired_cons.
    destruct IH as (-> & H2 & H3); [lia|lia|lia|done|]. split_and!; [done|nia|lia|lia].
  - specialize (IH t now). destruct (polls nows t) as [bs t'].
    unfold kept_pace in *. cbn [fst snd] in *. rewrite fired_cons.
    destruct IH as (-> & H2 & H3); [lia|lia|lia|done|]. split_and!; [done|lia|lia|lia].
Qed.

(** While the clock does not go back, a timer that is polled at any moments keeps its
    rate: so many firings times the interval never exceed the time that has passed, and after
    each poll less than one interval has passed since the timer fired last (or was started).  A
    clock that goes back makes it fire at once, however long its interval, since the
    difference of the unsigned times wraps. *)
Theorem timer_rate now ms nows : 0 ≤ now → 0 ≤ ms < 2 ^ 32 → ascending now nows →
  let '(bs, t) := polls nows (new_Timer now ms) in
  length bs = length nows ∧ fired bs * ms ≤ final now nows - now ∧
  _last_scale t ≤ final now nows < _last_scale t + Z.max 1 ms ∧
  (∀ back, 0 ≤ back → final now nows - 2 ^ 63 < back < _last_scale t → poll back t = (true, new_Timer back ms)).
Proof.
  intros H0 Hms Ha. pose proof (polls_keep_pace nows (new_Timer now ms) now) as H.
  assert (∀ l t, length (polls l t).1 = length l) as Hlen.
  { intros l. induction l as [|x l IH]; intros t; [done|]. cbn [polls]. destruct (poll x t) as [b t1].
    specialize (IH t1). destruct (polls l t1). cbn [fst] in *. cbn [length]. by rewrite IH. }
  specialize (Hlen nows (new_Timer now ms)). destruct (polls nows (new_Timer now ms)) as [bs t].
  unfold kept_pace in H. cbn [fst snd new_Timer _last_scale _interval_milliseconds] in *.
  destruct H as (Hi & H2 & H3); [lia|lia|lia|done|]. split_and!; [done|lia|lia|lia|].
  intros back Hb Hd. unfold poll, resetScale, u64. rewrite Hi.
  assert (wrap 64 (back - _last_scale t) = 2 ^ 64 + (back - _last_scale t)) as ->.
  { unfold wrap. replace (back - _last_scale t) with (2 ^ 64 + (back - _last_scale t) + (-1) * 2 ^ 64) at 1 by lia.
    rewrite Z.mod_add by done. apply Z.mod_small. lia. }
  by rewrite (proj2 (Z.leb_le _ _)) by lia.
Qed.

Lemma timer_rate_witness :
  polls [1050; 1100; 1250; 1260; 1350] (new_Timer 1000 100) = ([false; true; true; false; true], new_Timer 1350 100) ∧
  poll 1349 (new_Timer 1350 100) = (true, new_Timer 1349 100).
Proof.
  split; [reflexivity|].
  destruct (timer_rate 1000 100 [1050; 1100; 1250; 1260; 1350]) as (_ & _ & _ & H); [lia|lia|simpl; lia|].
  apply H; vm_compute; intuition congruence.
Defined.
