(* ===== verification/MessageQueue.v ===== *)
(** * Message queues: src/net/MessageQueue.cpp, MessageQueueClient.cpp, MessageQueueService.cpp

    Netmessages over ZeroMQ sockets of the kinds client and server.  Of ZeroMQ the files use
    what the class [Zmq] lists, and rely on the documented behaviour that [ZmqLaws] states; a
    mailbox is an instance of both. *)

From S2P Require Import Prelude CLib Net.

(** ** What the code uses of ZeroMQ *)

Definition ZMQ_SERVER : Z := 12.
Definition ZMQ_CLIENT : Z := 13.

(** A socket with its context.  A message has a routing id, which is 0 at a client. *)
Class Zmq (K : Type) := {
  zmq_new : Z → K;                                      (* zmq_ctx_new and zmq_socket, of a kind *)
  zmq_connect : list Z → K → bool * K;
  zmq_bind : list Z → K → bool * K;
  zmq_poll : K → Z;                                     (* the number of sockets with a message, or -1 *)
  zmq_msg_recv : K → option (Z * list Z) * K;
  zmq_msg_set_routing_id : Z → bool;
  zmq_msg_send : bool → Z → list Z → K → Z * K          (* with ZMQ_SNDMORE, or ZMQ_NOBLOCK *)
}.
(** A poll without time to wait tells whether a message waits, and then one can be received.
    Client and server sockets refuse messages of several parts.  A send takes the message
    or nothing. *)
Class ZmqLaws (K : Type) `{Zmq K} := {
  waiting : K → list (Z * list Z);
  sent : K → list (Z * list Z);
  zmq_new_empty kind : waiting (zmq_new kind) = [] ∧ sent (zmq_new kind) = [];
  zmq_connect_same address k : waiting (snd (zmq_connect address k)) = waiting k ∧ sent (snd (zmq_connect address k)) = sent k;
  zmq_bind_same address k : waiting (snd (zmq_bind address k)) = waiting k ∧ sent (snd (zmq_bind address k)) = sent k;
  zmq_poll_waiting k : zmq_poll k = match waiting k with [] => 0 | _ => 1 end;
  zmq_recv_waiting k m ms : waiting k = m :: ms →
    ∃ k', zmq_msg_recv k = (Some m, k') ∧ waiting k' = ms ∧ sent k' = sent k;
  zmq_routing_id r : 0 < r → zmq_msg_set_routing_id r = true;
  zmq_send_more r bytes k : ∃ k', zmq_msg_send true r bytes k = (-1, k') ∧ waiting k' = waiting k ∧ sent k' = sent k;
  zmq_send_one r bytes k : ∃ k', waiting k' = waiting k ∧
    ((zmq_msg_send false r bytes k = (s32 (Z.of_nat (length bytes)), k') ∧ sent k' = sent k ++ [(r, bytes)]) ∨
     (zmq_msg_send false r bytes k = (-1, k') ∧ sent k' = sent k))
}.

Definition tcp_address (address : list Z) (port : Z) : list Z := str "tcp://" ++ c_str address ++ str ":" ++ dec_int port.

Section MessageQueue.
Context {K : Type} `{Zmq K} {A : Type}.

(** Both [sendMessage(payload, payload_len)] from [zmq_msg_init_size] on: ZMQ_SNDMORE is
    tried first, and has to be refused. *)
Definition zmq_transmit (r : Z) (bytes : list Z) (k : K) : K :=
  let '(rc, k) := zmq_msg_send true r bytes k in
  if rc =? -1 then snd (zmq_msg_send false r bytes k) else k.
(** Both [handleMessage] up to the parser: the message, when its length is what it says. *)
Definition zmq_receive (k : K) : outcome (option (Z * list Z) * K) :=
  match zmq_msg_recv k with
  | (None, k) => Ret (None, k)
  | (Some (r, m), k) =>
      len ← netmsg_len m;
      Ret (if (Z.of_nat (length m) =? len) && (netmessage_size <=? Z.of_nat (length m)) then Some (r, m) else None, k)
  end.

(** ** The client *)

Inductive queue_call := QSend (payload : list Z) | QSendNetmsg (netmsg : list Z) | QSendProto (msgid : Z) (payload : list Z) (ok : bool) | QStop.

(** [qc_lost]: sockets whose pointer was overwritten while they were open. *)
Record MessageQueueClient := MkQC { qc_stop : bool; qc_socket : option K; qc_lost : nat }.
Definition new_QueueClient : MessageQueueClient := MkQC false None 0.
Definition qc_set k c := MkQC (qc_stop c) (Some k) (qc_lost c).

Definition qc_do_stop (c : MessageQueueClient) : MessageQueueClient :=
  if qc_stop c then c else MkQC true None (qc_lost c).
Definition qc_connect (address : list Z) (port : Z) (c : MessageQueueClient) : bool * MessageQueueClient :=
  let c := qc_do_stop c in
  let lost := match qc_socket c with Some _ => S (qc_lost c) | None => qc_lost c end in
  let '(rc, k) := zmq_connect (tcp_address address port) (zmq_new ZMQ_CLIENT) in
  (rc, MkQC (if rc then false else qc_stop c) (Some k) lost).

(** The three [sendMessage]; sends through a null socket fail. *)
Definition qc_send (bytes : list Z) (c : MessageQueueClient) : MessageQueueClient :=
  match bytes, qc_socket c with
  | _ :: _, Some k => qc_set (zmq_transmit 0 bytes k) c
  | _, _ => c
  end.
Definition qc_send_netmsg (netmsg : list Z) (c : MessageQueueClient) : outcome MessageQueueClient :=
  len ← netmsg_len netmsg;
  if Z.of_nat (length netmsg) <? len then Undef else Ret (qc_send (take (Z.to_nat len) netmsg) c).
Definition qc_send_proto (msgid : Z) (payload : list Z) (ok : bool) (c : MessageQueueClient) : MessageQueueClient :=
  match qc_socket c with
  | None => c
  | Some _ => if ok then qc_send (make_netmsg msgid payload) c else c
  end.
Definition qc_call (q : queue_call) (c : MessageQueueClient) : outcome MessageQueueClient :=
  match q with
  | QSend payload => Ret (qc_send payload c)
  | QSendNetmsg netmsg => qc_send_netmsg netmsg c
  | QSendProto msgid payload ok => Ret (qc_send_proto msgid payload ok c)
  | QStop => Ret (qc_do_stop c)
  end.
Fixpoint qc_calls (qs : list queue_call) (c : MessageQueueClient) : outcome MessageQueueClient :=
  match qs with
  | [] => Ret c
  | q :: qs => c ← qc_call q c; qc_calls qs c
  end.

(** [update]; the parser works on the state of the application and makes calls. *)
Definition qc_update (msgParser : option (A → list Z → A * list queue_call)) (c : MessageQueueClient) (a : A)
    : outcome (bool * MessageQueueClient * A) :=
  match qc_socket c with
  | None => Ret (false, c, a)
  | Some k =>
      let events := zmq_poll k in
      if events <? 0 then Ret (false, c, a)
      else if events =? 0 then Ret (negb (qc_stop c), c, a)
      else
        r ← zmq_receive k;
        let '(m, k) := r : option (Z * list Z) * K in
        let c := qc_set k c in
        match m, msgParser with
        | Some (_, m), Some f => let '(a, qs) := f a m in c ← qc_calls qs c; Ret (negb (qc_stop c), c, a)
        | _, _ => Ret (negb (qc_stop c), c, a)
        end
  end.

(** ** The service *)

(** [qs_heap] holds the NetworkTask objects by address with their [_routeid]; the service
    never deletes one. *)
Record MessageQueueService := MkQS {
  qs_stop : bool; qs_socket : option K; qs_lost : nat;
  qs_tasks : gmap Z nat; qs_heap : gmap nat Z; qs_next : nat
}.
Definition new_QueueService : MessageQueueService := MkQS false None 0 ∅ ∅ 0.
Definition qs_set k s := MkQS (qs_stop s) (Some k) (qs_lost s) (qs_tasks s) (qs_heap s) (qs_next s).

Definition qs_do_stop (s : MessageQueueService) : MessageQueueService :=
  if qs_stop s then s else MkQS true None (qs_lost s) (qs_tasks s) (qs_heap s) (qs_next s).
Definition qs_start (address : list Z) (port : Z) (s : MessageQueueService) : bool * MessageQueueService :=
  let s := qs_do_stop s in
  let lost := match qs_socket s with Some _ => S (qs_lost s) | None => qs_lost s end in
  let '(rc, k) := zmq_bind (tcp_address address port) (zmq_new ZMQ_SERVER) in
  (rc, MkQS (if rc then false else qs_stop s) (Some k) lost (qs_tasks s) (qs_heap s) (qs_next s)).

Definition qs_spawnConnection (routeid : Z) (s : MessageQueueService) : option nat * MessageQueueService :=
  let t := qs_next s in
  match qs_tasks s !! routeid with
  | Some _ => (None, MkQS (qs_stop s) (qs_socket s) (qs_lost s) (qs_tasks s) (qs_heap s) (S t))
  | None => (Some t, MkQS (qs_stop s) (qs_socket s) (qs_lost s) (<[routeid := t]> (qs_tasks s)) (<[t := routeid]> (qs_heap s)) (S t))
  end.
Definition qs_closeConnection (routeid : Z) (s : MessageQueueService) : MessageQueueService :=
  MkQS (qs_stop s) (qs_socket s) (qs_lost s) (delete routeid (qs_tasks s)) (qs_heap s) (qs_next s).

(** [NetworkTask::sendMessage], three times. *)
Definition qt_send (t : nat) (bytes : list Z) (s : MessageQueueService) : outcome MessageQueueService :=
  match qs_heap s !! t with
  | None => Undef
  | Some r =>
      Ret (match qs_socket s, bytes with
           | Some k, _ :: _ => if (0 <? r) && zmq_msg_set_routing_id r then qs_set (zmq_transmit r bytes k) s else s
           | _, _ => s
           end)
  end.
Definition qt_send_netmsg (t : nat) (netmsg : list Z) (s : MessageQueueService) : outcome MessageQueueService :=
  len ← netmsg_len netmsg;
  if Z.of_nat (length netmsg) <? len then Undef else qt_send t (take (Z.to_nat len) netmsg) s.
Definition qt_send_proto (t : nat) (msgid : Z) (payload : list Z) (ok : bool) (s : MessageQueueService) : outcome MessageQueueService :=
  if ok then qt_send t (make_netmsg msgid payload) s else Ret s.
(** [close] does nothing. *)
Definition qs_call (c : app_call) (s : MessageQueueService) : outcome MessageQueueService :=
  match c with
  | CallMessage t netmsg => qt_send_netmsg t netmsg s
  | CallProto t msgid payload ok => qt_send_proto t msgid payload ok s
  | CallPayload t bytes => qt_send t bytes s
  | CallCloseTask t => Ret s
  | CallStopService => Ret (qs_do_stop s)
  end.
Fixpoint qs_calls (cs : list app_call) (s : MessageQueueService) : outcome MessageQueueService :=
  match cs with
  | [] => Ret s
  | c :: cs => s ← qs_call c s; qs_calls cs s
  end.

Definition qs_handleMessage (msgParser : option (A → option nat → list Z → A * list app_call)) (r : Z) (m : list Z)
    (s : MessageQueueService) (a : A) : outcome (MessageQueueService * A * list callback) :=
  match msgParser with
  | None => Ret (s, a, [])
  | Some f =>
      let '(t, s) := match qs_tasks s !! r with Some t => (Some t, s) | None => qs_spawnConnection r s end in
      _ ← cxx_assert (bool_decide (is_Some t));
      let '(a, cs) := f a t m in
      s ← qs_calls cs s; Ret (s, a, [CbMessage t m])
  end.
Definition qs_update (msgParser : option (A → option nat → list Z → A * list app_call)) (s : MessageQueueService) (a : A)
    : outcome (bool * MessageQueueService * A * list callback) :=
  match qs_socket s with
  | None => Ret (false, s, a, [])
  | Some k =>
      let events := zmq_poll k in
      if events <? 0 then Ret (false, s, a, [])
      else if events =? 0 then Ret (negb (qs_stop s), s, a, [])
      else
        r ← zmq_receive k;
        let '(m, k) := r : option (Z * list Z) * K in
        let s := qs_set k s in
        match m with
        | None => Ret (negb (qs_stop s), s, a, [])
        | Some (r, m) =>
            x ← qs_handleMessage msgParser r m s a;
            let '(s, a, cbs) := x : MessageQueueService * A * list callback in Ret (negb (qs_stop s), s, a, cbs)
        end
  end.

(** ** The queue without callbacks *)

Record MessageQueue := MkMQ { _socket_type : Z; _zmq_socket : K }.
Definition new_MessageQueue (socket_type : Z) : MessageQueue := MkMQ socket_type (zmq_new socket_type).
(** The address is written to 64 bytes. *)
Definition mq_init (address : list Z) (port : Z) (q : MessageQueue) : bool * MessageQueue :=
  let buffer := take 63 (tcp_address address port) in
  let '(rc, k) := if _socket_type q =? ZMQ_SERVER then zmq_bind buffer (_zmq_socket q) else zmq_connect buffer (_zmq_socket q) in
  (rc, MkMQ (_socket_type q) k).
(** [run] prints a message it receives, as a C string. *)
Definition mq_run (q : MessageQueue) : outcome (list Z * MessageQueue) :=
  if zmq_poll (_zmq_socket q) <=? 0 then Ret ([], q)
  else match zmq_msg_recv (_zmq_socket q) with
       | (None, k) => Ret ([], MkMQ (_socket_type q) k)
       | (Some (r, m), k) =>
           if existsb (Z.eqb 0) m
           then Ret (str "receiveMessage size: " ++ dec_int (Z.of_nat (length m)) ++ str ", clientid: " ++ dec_int r ++ str ", data: " ++ c_str m,
                     MkMQ (_socket_type q) k)
           else Undef
       end.
End MessageQueue.

Arguments MessageQueueClient K : clear implicits.
Arguments MessageQueueService K : clear implicits.
Arguments MessageQueue K : clear implicits.

(** ** What the service makes of its messages *)

Section Conversation.
Context {K : Type} `{ZmqLaws K} {A : Type} (f : A → option nat → list Z → A * list app_call).
Implicit Types (s : MessageQueueService K) (k : K) (t : nat) (r : Z).

(** What a call sends to the route [r] of its task. *)
Definition reply (r : Z) (c : app_call) : list (Z * list Z) :=
  match c with
  | CallMessage _ netmsg => [(r, take (Z.to_nat (le_val (take 4 netmsg))) netmsg)]
  | CallProto _ msgid payload true => [(r, make_netmsg msgid payload)]
  | CallPayload _ (b :: bytes) => [(r, b :: bytes)]
  | _ => []
  end.
(** The specification: the messages go to the parser one after another, each with the task of
    its route; the state, the callbacks and what the parser sends. *)
Fixpoint conversation (task : Z → nat) (ms : list (Z * list Z)) (a : A) : A * list callback * list (Z * list Z) :=
  match ms with
  | [] => (a, [], [])
  | (r, m) :: ms =>
      let '(a, cs) := f a (Some (task r)) m in
      let '(a, cbs, out) := conversation task ms a in
      (a, CbMessage (Some (task r)) m :: cbs, concat (map (reply r) cs) ++ out)
  end.

(** The parser only sends to the task it is given, and no empty or unfinished message. *)
Definition answers_task (t : nat) (c : app_call) : Prop :=
  match c with
  | CallMessage u netmsg => u = t ∧ (4 ≤ length netmsg)%nat ∧ 0 < le_val (take 4 netmsg) ≤ Z.of_nat (length netmsg)
  | CallProto u _ _ _ | CallPayload u _ => u = t
  | CallCloseTask _ => True
  | CallStopService => False
  end.
(** A message with its own length in front, from some client. *)
Definition arrived (rm : Z * list Z) : Prop :=
  0 < fst rm ∧ netmessage_size ≤ Z.of_nat (length (snd rm)) ∧ le_val (take 4 (snd rm)) = Z.of_nat (length (snd rm)).

Record tasks_fit s : Prop := {
  tf_heap r t : qs_tasks s !! r = Some t → qs_heap s !! t = Some r;
  tf_next t r : qs_heap s !! t = Some r → (t < qs_next s)%nat
}.

Lemma transmit_sends r bytes k : waiting (zmq_transmit r bytes k) = waiting k ∧
  ∃ l, sent (zmq_transmit r bytes k) = sent k ++ l ∧ l `sublist_of` [(r, bytes)].
Proof.
  unfold zmq_transmit. destruct (zmq_send_more r bytes k) as (k1 & -> & W1 & S1). change (-1 =? -1) with true. cbv iota.
  destruct (zmq_send_one r bytes k1) as (k2 & W2 & [[-> S2]|[-> S2]]); cbn [snd]; split; try congruence.
  - exists [(r, bytes)]. split; [congruence|done].
  - exists []. rewrite app_nil_r. split; [congruence|]. apply sublist_nil_l.
Qed.

(** Same service, other socket state. *)
Definition with_sent s s' (l : list (Z * list Z)) : Prop :=
  ∃ k k', qs_socket s = Some k ∧ s' = qs_set k' s ∧ waiting k' = waiting k ∧ sent k' = sent k ++ l.

Lemma qs_call_sends s k t r c : qs_socket s = Some k → qs_heap s !! t = Some r → 0 < r → answers_task t c →
  ∃ s' l, qs_call c s = Ret s' ∧ with_sent s s' l ∧ l `sublist_of` reply r c.
Proof.
  intros Hk Ht Hr Hc.
  assert (∀ bytes, bytes ≠ [] → ∃ s' l, qt_send t bytes s = Ret s' ∧ with_sent s s' l ∧ l `sublist_of` [(r, bytes)]) as Hsend.
  { intros bytes Hb. unfold qt_send. rewrite Ht, Hk. destruct bytes as [|b bytes]; [done|].
    rewrite zmq_routing_id, (proj2 (Z.ltb_lt 0 r)) by done. cbn [andb].
    destruct (transmit_sends r (b :: bytes) k) as (W & l & S & Hl). eexists _, l. split; [done|]. split; [|done].
    by exists k, (zmq_transmit r (b :: bytes) k). }
  assert (∃ s' l, Ret s = Ret s' ∧ with_sent s s' l ∧ l `sublist_of` []) as Hnone.
  { exists s, []. split; [done|]. split; [|done]. exists k, k. split_and!; [done| |done|by rewrite app_nil_r].
    destruct s; cbn in *. by rewrite Hk. }
  destruct c as [u m|u id p ok|u bytes|u|]; cbn [qs_call answers_task] in *.
  - destruct Hc as (-> & H4 & Hl). unfold qt_send_netmsg, netmsg_len. rewrite (proj2 (Nat.ltb_ge _ _)) by lia.
    cbn [mbind outcome_bind]. rewrite (proj2 (Z.ltb_ge _ _)) by lia. apply Hsend. intros E%(f_equal length).
    rewrite length_take in E. cbn in E. lia.
  - subst u. unfold qt_send_proto. destruct ok; [by apply Hsend|exact Hnone].
  - subst u. destruct bytes; [|by apply Hsend]. unfold qt_send. rewrite Ht, Hk. exact Hnone.
  - exact Hnone.
  - done.
Qed.

Lemma qs_calls_send t r cs : ∀ s k, qs_socket s = Some k → qs_heap s !! t = Some r → 0 < r → Forall (answers_task t) cs →
  ∃ s' l, qs_calls cs s = Ret s' ∧ with_sent s s' l ∧ l `sublist_of` concat (map (reply r) cs).
Proof.
  induction cs as [|c cs IH]; intros s k Hk Ht Hr Hcs; cbn [qs_calls].
  - exists s, []. split; [done|]. split; [|done]. exists k, k. split_and!; [done| |done|by rewrite app_nil_r].
    destruct s; cbn in *. by rewrite Hk.
  - apply Forall_cons in Hcs as [Hc Hcs].
    destruct (qs_call_sends s k t r c Hk Ht Hr Hc) as (s1 & l1 & -> & (k0 & k1 & Hk0 & -> & W1 & S1) & Hl1).
    cbn [mbind outcome_bind].
    destruct (IH (qs_set k1 s) k1 eq_refl Ht Hr Hcs) as (s2 & l2 & -> & (k1' & k2 & Hk1 & -> & W2 & S2) & Hl2).
    injection Hk1 as <-. exists (qs_set k2 s), (l1 ++ l2). split; [done|]. split.
    + exists k0, k2. split_and!; [done|done|congruence|]. by rewrite S2, S1, app_assoc.
    + by apply sublist_app.
Qed.

(** [update], time and again. *)
Fixpoint qs_updates (n : nat) s (a : A) : outcome (MessageQueueService K * A * list callback) :=
  match n with
  | O => Ret (s, a, [])
  | S n =>
      x ← qs_update (Some f) s a;
      let '(_, s, a, cbs) := x : bool * MessageQueueService K * A * list callback in
      y ← qs_updates n s a;
      let '(s, a, cbs') := y : MessageQueueService K * A * list callback in Ret (s, a, cbs ++ cbs')
  end.

Context (Hf : ∀ a t r m, arrived (r, m) → Forall (answers_task t) (snd (f a (Some t) m))).

Definition task_of s (r : Z) : nat := default 0%nat (qs_tasks s !! r).

(** The task of a route is there, or made. *)
Lemma route_task s r : tasks_fit s →
  ∃ t s', match qs_tasks s !! r with Some t => (Some t, s) | None => qs_spawnConnection r s end = (Some t, s') ∧
    tasks_fit s' ∧ qs_tasks s' !! r = Some t ∧ qs_tasks s ⊆ qs_tasks s' ∧ qs_socket s' = qs_socket s ∧ qs_stop s' = qs_stop s.
Proof.
  intros [T1 T2]. unfold qs_spawnConnection. destruct (qs_tasks s !! r) as [t|] eqn:Et.
  - exists t, s. by split_and!.
  - eexists (qs_next s), _. split; [done|]. split_and!; cbn; [|apply lookup_insert_eq|by apply insert_subseteq|done|done].
    split; cbn.
    + intros r' t [[<- <-]|[Hne Ht]]%lookup_insert_Some; [by rewrite lookup_insert_eq|].
      rewrite lookup_insert_ne; [by apply T1|]. intros <-. specialize (T2 _ _ (T1 _ _ Ht)). lia.
    + intros t r' [[<- <-]|[Hne Ht]]%lookup_insert_Some; [lia|]. specialize (T2 _ _ Ht). lia.
Qed.

Lemma qs_update_one s k a r m ms : tasks_fit s → qs_socket s = Some k → qs_stop s = false → waiting k = (r, m) :: ms →
  arrived (r, m) → ∃ t s' k' l, qs_update (Some f) s a = Ret (true, s', fst (f a (Some t) m), [CbMessage (Some t) m]) ∧
    tasks_fit s' ∧ qs_socket s' = Some k' ∧ qs_stop s' = false ∧ waiting k' = ms ∧
    sent k' = sent k ++ l ∧ l `sublist_of` concat (map (reply r) (snd (f a (Some t) m))) ∧
    qs_tasks s' !! r = Some t ∧ qs_tasks s ⊆ qs_tasks s'.
Proof using Hf.
  intros Hfit Hk Hs Hw Ha. pose proof (λ a t, Hf a t r m Ha) as Hg. destruct Ha as (Hr & Hl & E). cbn [fst snd] in *. unfold qs_update. rewrite Hk, zmq_poll_waiting, Hw.
  change (1 <? 0) with false. change (1 =? 0) with false. cbv iota.
  destruct (zmq_recv_waiting k (r, m) ms Hw) as (k1 & E1 & W1 & S1). unfold zmq_receive. rewrite E1.
  unfold netmsg_len, netmessage_size in *. rewrite (proj2 (Nat.ltb_ge _ _)) by lia. cbn [mbind outcome_bind].
  rewrite E, Z.eqb_refl, (proj2 (Z.leb_le _ _)) by lia. cbn [andb].
  unfold qs_handleMessage. destruct (route_task (qs_set k1 s) r) as (t & s1 & -> & F1 & T1 & Sub & Sk & Sp); [by destruct Hfit|].
  cbn [mbind outcome_bind cxx_assert bool_decide]. pose proof (Hg a t) as Hcs. destruct (f a (Some t) m) as [a' cs] eqn:Ef.
  rewrite bool_decide_eq_true_2 by by eexists. cbn [cxx_assert mbind outcome_bind].
  cbn [qs_set qs_socket qs_stop qs_tasks] in *.
  destruct (qs_calls_send t r cs s1 k1 Sk (tf_heap _ F1 _ _ T1) Hr Hcs) as (s2 & l & -> & (k2 & k3 & Hk2 & -> & W3 & S3) & Hsub).
  cbn [mbind outcome_bind]. rewrite Sk in Hk2. injection Hk2 as <-.
  exists t, (qs_set k3 s1), k3, l. cbn [qs_set qs_stop qs_socket qs_tasks]. rewrite Sp, Hs.
  rewrite Ef. split; [done|]. split; [by destruct F1|]. split_and!; [done|done|congruence|congruence|done|done|done].
Qed.
End Conversation.

(** C16 (refinement): a message queue service holds the conversation of its specification.  Messages
    wait at it, each with its length in front; its parser answers through the task it is
    given.  Each [update] handles one message: after as many updates as the first part of
    the waiting messages has, exactly these have gone to the parser, in order, once each,
    with one task for each route, the one the route had if it had one; the rest still
    waits; and what ZeroMQ has taken to send is some of the answers, in order, each to
    the route of the message it answers. *)
Theorem queue_conversation {K} `{ZmqLaws K} {A} (f : A → option nat → list Z → A * list app_call) ms rest s k (a : A) :
  (∀ a t r m, arrived (r, m) → Forall (answers_task t) (snd (f a (Some t) m))) →
  tasks_fit s → qs_socket s = Some k → qs_stop s = false → waiting k = ms ++ rest → Forall arrived ms →
  ∃ s' k' cbs out l, qs_updates f (length ms) s a = Ret (s', fst (fst (conversation f (task_of s') ms a)), cbs) ∧
    conversation f (task_of s') ms a = (fst (fst (conversation f (task_of s') ms a)), cbs, out) ∧
    (∀ r m, (r, m) ∈ ms → qs_tasks s' !! r = Some (task_of s' r)) ∧
    qs_tasks s ⊆ qs_tasks s' ∧ tasks_fit s' ∧
    qs_socket s' = Some k' ∧ waiting k' = rest ∧ sent k' = sent k ++ l ∧ l `sublist_of` out.
Proof.
  intros Hf. revert s k a. induction ms as [|[r m] ms IH]; intros s k a Hfit Hk Hs Hw Hms; cbn [length qs_updates conversation].
  - exists s, k, [], [], []. rewrite app_nil_r. split_and!; try done. by intros r m ?%elem_of_nil.
  - apply Forall_cons in Hms as [Hm Hms].
    destruct (qs_update_one f Hf s k a r m (ms ++ rest) Hfit Hk Hs Hw Hm) as (t & s1 & k1 & l1 & -> & F1 & K1 & P1 & W1 & S1 & L1 & T1 & Sub1).
    cbn [mbind outcome_bind].
    destruct (IH s1 k1 (fst (f a (Some t) m)) F1 K1 P1 W1 Hms) as (s2 & k2 & cbs & out & l2 & -> & Ec & T2 & Sub2 & F2 & K2 & W2 & S2 & L2).
    cbn [mbind outcome_bind]. assert (qs_tasks s2 !! r = Some t) as Tr by by eapply lookup_weaken.
    assert (task_of s2 r = t) as Et by by unfold task_of; rewrite Tr.
    destruct (f a (Some t) m) as [a1 cs] eqn:Ef. cbn [fst snd] in *.
    exists s2, k2, (CbMessage (Some t) m :: cbs), (concat (map (reply r) cs) ++ out), (l1 ++ l2).
    rewrite Et, Ef, Ec. cbn [fst].
    split; [done|]. split; [done|]. split.
    + intros r' m' [[= -> ->]|Hin]%elem_of_cons; [by rewrite Et|by eapply T2].
    + split_and!; [by etrans|done|done|done| |by apply sublist_app]. by rewrite S2, S1, app_assoc.
Qed.

(** ** What a client sends *)

Section Client.
Context {K : Type} `{ZmqLaws K}.
Implicit Types (c : MessageQueueClient K) (k : K).

Lemma qc_send_sends bytes c k : bytes ≠ [] → qc_socket c = Some k →
  ∃ k' l, qc_send bytes c = qc_set k' c ∧ waiting k' = waiting k ∧ sent k' = sent k ++ l ∧ l `sublist_of` [(0, bytes)].
Proof.
  intros Hb Hk. unfold qc_send. rewrite Hk. destruct bytes as [|b bytes]; [done|].
  destruct (transmit_sends 0 (b :: bytes) k) as (W & l & S & Hl). by eexists _, l.
Qed.

(** A connected client sends some of the messages, in order and whole; each is one the
    service takes, under any route. *)
Lemma client_sends (reqs : list (Z * list Z)) : ∀ c k, qc_socket c = Some k →
  Forall (λ q, netmessage_size + Z.of_nat (length (snd q)) < 2 ^ 31) reqs →
  ∃ c' k' l, qc_calls (map (λ q, QSendProto (fst q) (snd q) true) reqs) c = Ret c' ∧ qc_socket c' = Some k' ∧
    waiting k' = waiting k ∧ sent k' = sent k ++ l ∧ l `sublist_of` map (λ q, (0, make_netmsg (fst q) (snd q))) reqs ∧
    ∀ r, 0 < r → Forall arrived (map (λ rm, (r, snd rm)) l).
Proof.
  induction reqs as [|[id p] reqs IH]; intros c k Hk Hreqs; cbn [map qc_calls].
  - exists c, k, []. rewrite app_nil_r. split_and!; try done.
  - apply Forall_cons in Hreqs as [Hp Hreqs]. cbn [fst snd] in *. cbn [qc_call mbind outcome_bind]. unfold qc_send_proto. rewrite Hk.
    pose proof (make_netmsg_frame id p Hp) as [Hl Hf].
    destruct (qc_send_sends (make_netmsg id p) c k) as (k1 & l1 & -> & W1 & S1 & L1); [intros E; by rewrite E in Hl|done|].
    destruct (IH (qc_set k1 c) k1 eq_refl Hreqs) as (c2 & k2 & l2 & -> & K2 & W2 & S2 & L2 & A2).
    exists c2, k2, (l1 ++ l2). split_and!; [done|done|congruence|by rewrite S2, S1, app_assoc|by apply (sublist_app l1 [_])|].
    intros r Hr. rewrite map_app. apply Forall_app. split; [|by apply A2].
    apply Forall_map. eapply Forall_impl with (P := λ rm, rm = (0, make_netmsg id p)).
    + apply Forall_forall. intros x Hx. pose proof (elem_of_sublist _ _ _ Hx L1) as Hi. by apply list_elem_of_singleton in Hi.
    + intros x ->. split_and!; cbn [fst snd]; [done|lia|done].
Qed.

(** A socket that could not connect is not closed: [stop] and the destructor take the client
    for stopped already, and the next [connect] overwrites the pointer. *)
Lemma failed_connect_leaks address port address2 port2 :
  fst (zmq_connect (tcp_address address port) (zmq_new (K := K) ZMQ_CLIENT)) = false →
  let c := snd (qc_connect address port new_QueueClient) in
  is_Some (qc_socket c) ∧ qc_do_stop c = c ∧ qc_lost (snd (qc_connect address2 port2 c)) = 1%nat.
Proof.
  unfold qc_connect at 1. cbn. destruct (zmq_connect (tcp_address address port) _) as [rc k]. cbn. intros ->.
  split; [by eexists|]. split; [done|]. unfold qc_connect. cbn. by destruct (zmq_connect _ _).
Qed.
End Client.

(** The length is read before the message is known to have one; a queue without callbacks
    prints a message that is not a C string past its end. *)
Lemma short_message_read {K} `{ZmqLaws K} {A} (f : option (A → option nat → list Z → A * list app_call)) s k r m ms a q :
  qs_socket s = Some k → waiting k = (r, m) :: ms → (length m < 4)%nat → no_nul m → _zmq_socket q = k →
  qs_update f s a = Undef ∧ mq_run q = Undef.
Proof.
  intros Hk Hw Hm Hn Hq. unfold qs_update, mq_run. rewrite Hk, Hq, zmq_poll_waiting, Hw. unfold zmq_receive.
  destruct (zmq_recv_waiting k (r, m) ms Hw) as (k1 & -> & _). unfold netmsg_len. rewrite (proj2 (Nat.ltb_lt _ _)) by done.
  split; [done|]. change (1 <=? 0) with false. cbv iota. destruct (existsb (Z.eqb 0) m) eqn:Ex; [|done].
  apply existsb_exists in Ex as (x & Hx & E%Z.eqb_eq). subst x. by destruct Hn; apply list_elem_of_In.
Qed.

(** ** A mailbox for ZeroMQ *)

(** [mb_room]: how many messages it takes to send. *)
Record mailbox := MkBox { mb_waiting : list (Z * list Z); mb_sent : list (Z * list Z); mb_room : nat }.
#[export] Instance mailbox_zmq : Zmq mailbox := {|
  zmq_new _ := MkBox [] [] 0;
  zmq_connect _ k := (true, MkBox (mb_waiting k) (mb_sent k) 1000);
  zmq_bind _ k := (true, MkBox (mb_waiting k) (mb_sent k) 1000);
  zmq_poll k := match mb_waiting k with [] => 0 | _ => 1 end;
  zmq_msg_recv k := match mb_waiting k with [] => (None, k) | m :: ms => (Some m, MkBox ms (mb_sent k) (mb_room k)) end;
  zmq_msg_set_routing_id r := negb (r =? 0);
  zmq_msg_send more r bytes k :=
    if (more : bool) then (-1, k)
    else match mb_room k with
         | O => (-1, k)
         | S n => (s32 (Z.of_nat (length bytes)), MkBox (mb_waiting k) (mb_sent k ++ [(r, bytes)]) n)
         end
|}.
#[export] Program Instance mailbox_laws : ZmqLaws mailbox := {| waiting := mb_waiting; sent := mb_sent |}.
Next Obligation. done. Qed.
Next Obligation. done. Qed.
Next Obligation. done. Qed.
Next Obligation. done. Qed.
Next Obligation. intros k m ms E. cbn. rewrite E. by eexists. Qed.
Next Obligation. intros r Hr. cbn. by rewrite (proj2 (Z.eqb_neq r 0)) by lia. Qed.
Next Obligation. intros r bytes k. by exists k. Qed.
Next Obligation.
  intros r bytes k. cbn. destruct (mb_room k) as [|n]; [exists k; split; [done|by right]|]. eexists. split; [|by left]. done.
Qed.

(** A service that counts its messages and echoes each once. *)
Definition demo_echo (n : nat) (t : option nat) (m : list Z) : nat * list app_call :=
  (S n, match t with Some t => [CallMessage t m] | None => [] end).
Definition demo_messages : list (Z * list Z) := [(7, make_netmsg 1 [5]); (9, make_netmsg 2 []); (7, make_netmsg 3 [6; 6])].
Definition demo_service : MessageQueueService mailbox :=
  let s := snd (qs_start (str "0.0.0.0") 9000 new_QueueService) in
  match qs_socket s with Some k => qs_set (MkBox demo_messages (mb_sent k) (mb_room k)) s | None => s end.

Lemma demo_echo_answers a t r m : arrived (r, m) → Forall (answers_task t) (snd (demo_echo a (Some t) m)).
Proof. intros (_ & Hl & E). cbn in Hl, E. unfold netmessage_size in Hl. repeat constructor; [lia|rewrite E; lia|rewrite E; lia]. Qed.

Lemma queue_conversation_witness : ∃ s' k' cbs out l,
  qs_updates demo_echo 2 demo_service 0%nat = Ret (s', 2%nat, cbs) ∧
  cbs = [CbMessage (Some 0%nat) (make_netmsg 1 [5]); CbMessage (Some 1%nat) (make_netmsg 2 [])] ∧
  out = take 2 demo_messages ∧ qs_socket s' = Some k' ∧ mb_waiting k' = drop 2 demo_messages ∧ l `sublist_of` out.
Proof.
  destruct (queue_conversation demo_echo (take 2 demo_messages) (drop 2 demo_messages) demo_service
    (MkBox demo_messages [] 1000) 0%nat) as (s' & k' & cbs & out & l & E & Ec & Ht & _ & _ & Hk & Hw & _ & Hl).
  - apply demo_echo_answers.
  - split; intros x y Hxy; [change ((∅ : gmap Z nat) !! x = Some y) in Hxy|change ((∅ : gmap nat Z) !! x = Some y) in Hxy]; by rewrite lookup_empty in Hxy.
  - reflexivity.
  - reflexivity.
  - reflexivity.
  - repeat constructor; unfold netmessage_size; cbn; try lia; reflexivity.
  - exists s', k', cbs, out, l.
    assert (qs_updates demo_echo 2 demo_service 0%nat =
      Ret (MkQS false (Some (MkBox (drop 2 demo_messages) (take 2 demo_messages) 998)) 0 (<[9 := 1%nat]> (<[7 := 0%nat]> ∅)) (<[1%nat := 9]> (<[0%nat := 7]> ∅)) 2,
        2%nat, [CbMessage (Some 0%nat) (make_netmsg 1 [5]); CbMessage (Some 1%nat) (make_netmsg 2 [])])) as E0 by (vm_compute; reflexivity).
    change (length (take 2 demo_messages)) with 2%nat in E. rewrite E0 in E. injection E as Es Ecb.
    subst s' cbs. split; [exact E0|]. split; [reflexivity|].
    split; [|split; [exact Hk|split; [exact Hw|exact Hl]]].
    vm_compute in Ec. injection Ec as Eo. symmetry. exact Eo.
Defined.
