(* ===== verification/WebServer.v ===== *)
(** * WebServer: src/socket/WebServer.cpp

    An HTTP server over libevent, of which the class [EvHttp] lists what the code calls; the
    event loop is a sequence of requests.  [EvHttpLaws] states what libevent documents of
    URIs in plain text, [toy] is an instance of both. *)

From S2P Require Import Prelude CLib Strings CgiServer.

(** ** What the code uses of libevent *)

Inductive evhttp_cmd_type := EVHTTP_REQ_GET | EVHTTP_REQ_POST | EVHTTP_REQ_OTHER (cmd : Z).

(** A request as libevent hands it over, with the headers of the answer. *)
Record evhttp_request := MkEv {
  ev_command : evhttp_cmd_type;
  ev_uri : list Z;
  ev_input_headers : list (list Z * list Z);
  ev_input_buffer : list Z;
  ev_remote_host : option (list Z);
  ev_remote_port : Z;
  ev_output_headers : list (list Z * list Z)
}.
Class EvHttp := {
  evhttp_decode_uri : list Z → option (list Z);                         (* null when memory is short *)
  evhttp_uri_parse : list Z → option (list Z * option (list Z));         (* path and query *)
  evhttp_parse_query_str : option (list Z) → option (list (list Z * list Z));
  evhttp_find_header : list (list Z * list Z) → list Z → option (list Z);
  evhttp_add_header : list (list Z * list Z) → list Z → list Z → list (list Z * list Z);
  evhttp_remove_header : list (list Z * list Z) → list Z → list (list Z * list Z)
}.

Section WebServer.
Context `{EvHttp}.

(** ** A request *)

(** [_evrequest] is null when the request has been sent. *)
Record WebRequest := MkWeb {
  _id : Z;
  _path : list Z;
  _evbuffer : list Z;
  _evrequest : option evhttp_request;
  _headers : gmap (list Z) (list Z);
  _variables : gmap (list Z) (list Z)
}.

(** [insert] keeps the value that is there. *)
Definition insert_first (m : gmap (list Z) (list Z)) (kv : list Z * list Z) : gmap (list Z) (list Z) :=
  match m !! fst kv with Some _ => m | None => <[fst kv := snd kv]> m end.
Definition insert_headers (kvs : list (list Z * list Z)) : gmap (list Z) (list Z) := fold_left insert_first kvs ∅.

Definition new_WebRequest (id : Z) (ev : evhttp_request) (decode_uri : list Z) : WebRequest :=
  match evhttp_uri_parse decode_uri with
  | Some (path, query) =>
      MkWeb id path [] (Some ev) (insert_headers (ev_input_headers ev))
        (match evhttp_parse_query_str query with Some kvs => insert_headers kvs | None => ∅ end)
  | None => MkWeb id [] [] (Some ev) ∅ ∅
  end.

Definition on_evrequest {X} (r : WebRequest) (f : evhttp_request → X) : outcome X :=
  match _evrequest r with Some ev => Ret (f ev) | None => Undef end.
Definition cmd (r : WebRequest) : outcome evhttp_cmd_type := on_evrequest r ev_command.
Definition url (r : WebRequest) : outcome (list Z) := on_evrequest r ev_uri.
Definition header (name : list Z) (r : WebRequest) : outcome (option (list Z)) :=
  on_evrequest r (λ ev, evhttp_find_header (ev_input_headers ev) name).
Definition remote_host (r : WebRequest) : outcome (list Z) := on_evrequest r (λ ev, default (str "UNDEFINED") (ev_remote_host ev)).
Definition remote_port (r : WebRequest) : outcome Z := on_evrequest r ev_remote_port.
Definition variable (name : list Z) (r : WebRequest) : option (list Z) := _variables r !! name.

Definition set_output (f : list (list Z * list Z) → list (list Z * list Z)) (ev : evhttp_request) : evhttp_request :=
  MkEv (ev_command ev) (ev_uri ev) (ev_input_headers ev) (ev_input_buffer ev) (ev_remote_host ev) (ev_remote_port ev) (f (ev_output_headers ev)).
Definition change_output (f : list (list Z * list Z) → list (list Z * list Z)) (r : WebRequest) : outcome WebRequest :=
  on_evrequest r (λ ev, MkWeb (_id r) (_path r) (_evbuffer r) (Some (set_output f ev)) (_headers r) (_variables r)).
Definition addHeader (name value : list Z) : WebRequest → outcome WebRequest := change_output (λ hs, evhttp_add_header hs name value).
Definition removeHeader (name : list Z) : WebRequest → outcome WebRequest := change_output (λ hs, evhttp_remove_header hs name).
Definition clearHeader : WebRequest → outcome WebRequest := change_output (λ _, []).
(** [pushString] of a C string, and of a string or binary. *)
Definition pushBinary (data : list Z) (r : WebRequest) : WebRequest :=
  MkWeb (_id r) (_path r) (_evbuffer r ++ data) (_evrequest r) (_headers r) (_variables r).
Definition pushString (content : list Z) : WebRequest → WebRequest := pushBinary (c_str content).
(** [send]: the reply, 200 with the headers and the content. *)
Definition send (r : WebRequest) : outcome (list (list Z * list Z) * list Z * WebRequest) :=
  on_evrequest r (λ ev, (ev_output_headers ev, _evbuffer r, MkWeb (_id r) (_path r) [] None (_headers r) (_variables r))).

(** ** The server *)

(** [_evhttp] and [_evbase] are there until [stop]; [unanswered] are requests that libevent
    has handed over and nobody will answer or free. *)
Record WebServer := MkServer {
  _baseid : Z;
  web_stop : bool;
  _requests : list WebRequest;
  unanswered : list evhttp_request
}.
Definition new_WebServer : WebServer := MkServer 0 false [] [].

Definition requestGet (ev : evhttp_request) : option (list Z) := evhttp_decode_uri (ev_uri ev).
(** The buffer is taken in pieces of at most 1023 bytes, each printed as a C string. *)
Fixpoint post_text (fuel : nat) (buffer : list Z) : list Z :=
  match fuel, buffer with
  | S fuel, _ :: _ => c_str (take (Z.to_nat 1023) buffer) ++ post_text fuel (drop (Z.to_nat 1023) buffer)
  | _, _ => []
  end.
Definition requestPost (ev : evhttp_request) : option (list Z) :=
  evhttp_decode_uri (ev_uri ev ++ str "?" ++ post_text (length (ev_input_buffer ev)) (ev_input_buffer ev)).
(** A request that can not be decoded is freed. *)
Definition createRequest (ev : evhttp_request) (w : WebServer) : WebServer :=
  let create decode_uri :=
    match decode_uri with
    | None => w
    | Some s => MkServer (u32 (_baseid w + 1)) (web_stop w) (_requests w ++ [new_WebRequest (_baseid w) ev s]) (unanswered w)
    end in
  match ev_command ev with
  | EVHTTP_REQ_GET => create (requestGet ev)
  | EVHTTP_REQ_POST => create (requestPost ev)
  | EVHTTP_REQ_OTHER _ => MkServer (_baseid w) (web_stop w) (_requests w) (unanswered w ++ [ev])
  end.
(** [run]: the requests that libevent has complete. *)
Definition web_run (evs : list evhttp_request) (w : WebServer) : WebServer :=
  if web_stop w then w else fold_left (λ w ev, createRequest ev w) evs w.
Definition getRequest (w : WebServer) : option WebRequest * WebServer :=
  match _requests w with
  | [] => (None, w)
  | r :: rs => (Some r, MkServer (_baseid w) (web_stop w) rs (unanswered w))
  end.
(** [releaseRequest] of a request that was not sent leaves libevent's without an answer. *)
Definition releaseRequest (r : WebRequest) (w : WebServer) : WebServer :=
  MkServer (_baseid w) (web_stop w) (_requests w) (unanswered w ++ option_list (_evrequest r)).
Definition do_stop (w : WebServer) : WebServer := MkServer (_baseid w) true (_requests w) (unanswered w).
End WebServer.

(** ** Forms *)

Definition token_char (c : Z) : bool := isdigit c || islower c || isupper c.
Definition path_char (c : Z) : bool := token_char c || (c =? ch "/").
Definition query_char (c : Z) : bool := token_char c || (c =? ch "&") || (c =? ch "=").
(** A path of such characters.  Of two slashes at the front a URI reference is one to another host
    (RFC 3986, 4.2), which takes the name behind them out of the path. *)
Definition plain_path (path : list Z) : bool :=
  forallb path_char path &&
  match path with a :: b :: _ => negb ((a =? ch "/") && (b =? ch "/")) | _ => true end.
(** Characters that decoding leaves alone. *)
Definition unescaped (c : Z) : bool := negb (c =? ch "%") && negb (c =? ch "+") && negb (c =? 0).
Definition token (s : list Z) : Prop := forallb token_char s = true.
Definition plain_item (kv : list Z * list Z) : Prop := fst kv ≠ [] ∧ token (fst kv) ∧ token (snd kv).
Definition form (kvs : list (list Z * list Z)) : list Z := join (ch "&") (map item kvs).
Definition hex_digit (d : Z) : Z := if d <? 10 then 48 + d else 55 + d.
Definition escape (c : Z) : list Z := [ch "%"; hex_digit (c / 16); hex_digit (c mod 16)].

Class EvHttpLaws `{EvHttp} : Prop := {
  ev_decode_plain s : forallb unescaped s = true → evhttp_decode_uri s = Some s;
  ev_decode_escape a c b : forallb unescaped a = true → forallb unescaped b = true → 0 < c < 256 →
    evhttp_decode_uri (a ++ escape c ++ b) = Some (a ++ c :: b);
  ev_parse path query : plain_path path = true → forallb query_char query = true →
    evhttp_uri_parse (path ++ str "?" ++ query) = Some (path, Some query);
  ev_query kvs : kvs ≠ [] → Forall plain_item kvs → evhttp_parse_query_str (Some (form kvs)) = Some kvs
}.

Lemma forallb_impl (P Q : Z → bool) s : (∀ c, P c = true → Q c = true) → forallb P s = true → forallb Q s = true.
Proof. intros HPQ. rewrite !forallb_forall. auto. Qed.

Lemma token_query c : token_char c = true → query_char c = true.
Proof. intros E. unfold query_char. by rewrite E. Qed.

(** Characters of paths and queries by their codes. *)
Lemma query_char_range c : query_char c = true → 38 ≤ c ≤ 122 ∧ c ≠ 43 ∧ c ≠ 37 ∧ c ≠ 63.
Proof.
  unfold query_char, token_char, isdigit, islower, isupper. change (ch "&") with 38. change (ch "=") with 61.
  rewrite !orb_true_iff, !andb_true_iff, !Z.leb_le, !Z.eqb_eq. lia.
Qed.
Lemma path_char_range c : path_char c = true → 47 ≤ c ≤ 122 ∧ c ≠ 63.
Proof.
  unfold path_char, token_char, isdigit, islower, isupper. change (ch "/") with 47.
  rewrite !orb_true_iff, !andb_true_iff, !Z.leb_le, !Z.eqb_eq. lia.
Qed.
Lemma token_char_range c : token_char c = true → c ≠ 38 ∧ c ≠ 61 ∧ c ≠ 0.
Proof. unfold token_char, isdigit, islower, isupper. rewrite !orb_true_iff, !andb_true_iff, !Z.leb_le. lia. Qed.
Lemma unescaped_spec c : unescaped c = true ↔ c ≠ 37 ∧ c ≠ 43 ∧ c ≠ 0.
Proof. unfold unescaped. change (ch "%") with 37. change (ch "+") with 43. rewrite !andb_true_iff, !negb_true_iff, !Z.eqb_neq. tauto. Qed.

Lemma item_query kv : token (fst kv) → token (snd kv) → forallb query_char (item kv) = true.
Proof.
  intros H1 H2. unfold item. rewrite !forallb_app. rewrite !andb_true_iff. split_and!; [|done|];
    by eapply forallb_impl; [apply token_query|].
Qed.

Lemma form_query kvs : Forall plain_item kvs → forallb query_char (form kvs) = true.
Proof.
  unfold form. induction 1 as [|kv kvs (_ & H1 & H2) Hkvs IH]; [done|]. cbn [map join].
  destruct kvs as [|kv2 kvs]; cbn [map]; [by apply item_query|].
  rewrite !forallb_app, item_query by done. cbn [map] in IH. simpl in IH |- *. exact IH.
Qed.

Lemma query_unescaped q : forallb query_char q = true → forallb unescaped q = true.
Proof. apply forallb_impl. intros c Hc%query_char_range. apply unescaped_spec. lia. Qed.

(** A path with a form, as libevent reads it. *)
Lemma uri_form path q : plain_path path = true → forallb query_char q = true →
  forallb unescaped (path ++ str "?" ++ q) = true.
Proof.
  intros [Hp _]%andb_true_iff Hq. rewrite !forallb_app, !andb_true_iff. split_and!; [|done|].
  - eapply forallb_impl; [|exact Hp]. intros c Hc%path_char_range. apply unescaped_spec. lia.
  - by apply query_unescaped.
Qed.

Lemma post_text_nil fuel : post_text fuel [] = [].
Proof. by destruct fuel. Qed.

(** Posted text without NULs comes through whole, whatever its length. *)
Lemma post_text_all fuel s : (length s ≤ fuel)%nat → no_nul s → post_text fuel s = s.
Proof.
  revert s. induction fuel as [|fuel IH]; intros s Hl Hn; [destruct s; [done|cbn in Hl; lia]|]. cbn [post_text].
  destruct s as [|c s]; [done|]. rewrite IH.
  - rewrite c_str_id; [apply take_drop|]. unfold no_nul in *. intros Hin. apply Hn.
    rewrite <- (take_drop (Z.to_nat 1023) (c :: s)). apply elem_of_app. by left.
  - rewrite length_drop. cbn [length] in *. lia.
  - unfold no_nul in *. intros Hin. apply Hn. rewrite <- (take_drop (Z.to_nat 1023) (c :: s)). apply elem_of_app. by right.
Qed.

Lemma query_no_nul q : forallb query_char q = true → no_nul q.
Proof. intros Hq Hin. rewrite forallb_forall in Hq. apply list_elem_of_In in Hin. specialize (Hq _ Hin). done. Qed.

(** The map of a list of pairs holds the first value of each key. *)
Definition first_value (k : list Z) (kvs : list (list Z * list Z)) : option (list Z) :=
  snd <$> List.find (λ kv, bool_decide (fst kv = k)) kvs.
Lemma insert_headers_lookup kvs k : insert_headers kvs !! k = first_value k kvs.
Proof.
  unfold insert_headers. assert (∀ m, fold_left insert_first kvs m !! k = match m !! k with Some v => Some v | None => first_value k kvs end) as E.
  { unfold first_value. induction kvs as [|[k1 v1] kvs IH]; intros m; cbn [fold_left List.find fst]; [by destruct (m !! k)|].
    rewrite IH. unfold insert_first. cbn [fst snd]. case_bool_decide as Ek.
    - subst k1. destruct (m !! k) eqn:Em; [by rewrite Em|]. by rewrite lookup_insert_eq.
    - destruct (m !! k1) eqn:Em; [done|]. by rewrite lookup_insert_ne. }
  by rewrite E, lookup_empty.
Qed.

Section Forms.
Context `{EvHttpLaws}.
Implicit Types (ev : evhttp_request) (w : WebServer) (r : WebRequest).

(** A form for a path, sent in the URI or as the body. *)
Definition carries (fm : list Z * list (list Z * list Z)) ev : Prop :=
  plain_path (fst fm) = true ∧ snd fm ≠ [] ∧ Forall plain_item (snd fm) ∧
  ((ev_command ev = EVHTTP_REQ_GET ∧ ev_uri ev = fst fm ++ str "?" ++ form (snd fm)) ∨
   (ev_command ev = EVHTTP_REQ_POST ∧ ev_uri ev = fst fm ∧ ev_input_buffer ev = form (snd fm))).
(** The request made of it. *)
Definition form_request (id : Z) (fm : list Z * list (list Z * list Z)) ev : WebRequest :=
  MkWeb id (fst fm) [] (Some ev) (insert_headers (ev_input_headers ev)) (insert_headers (snd fm)).
Fixpoint form_requests (id : Z) (l : list ((list Z * list (list Z * list Z)) * evhttp_request)) : list WebRequest :=
  match l with
  | [] => []
  | (fm, ev) :: l => form_request id fm ev :: form_requests (u32 (id + 1)) l
  end.

Lemma create_form fm ev w : carries fm ev →
  createRequest ev w = MkServer (u32 (_baseid w + 1)) (web_stop w) (_requests w ++ [form_request (_baseid w) fm ev]) (unanswered w).
Proof.
  intros (Hp & Hne & Hi & Hev). pose proof (form_query _ Hi) as Hq.
  assert (evhttp_decode_uri (fst fm ++ str "?" ++ form (snd fm)) = Some (fst fm ++ str "?" ++ form (snd fm))) as Hd
    by by apply ev_decode_plain, uri_form.
  assert (new_WebRequest (_baseid w) ev (fst fm ++ str "?" ++ form (snd fm)) = form_request (_baseid w) fm ev) as Hr.
  { unfold new_WebRequest. rewrite ev_parse, ev_query by done. done. }
  unfold createRequest. destruct Hev as [(-> & Eu)|(-> & Eu & Eb)].
  - unfold requestGet. by rewrite Eu, Hd, Hr.
  - unfold requestPost. rewrite Eu, Eb, post_text_all by (done || by apply query_no_nul). by rewrite Hd, Hr.
Qed.

Lemma create_forms l : ∀ w, Forall (λ fe, carries (fst fe) (snd fe)) l →
  _requests (fold_left (λ w ev, createRequest ev w) (map snd l) w) = _requests w ++ form_requests (_baseid w) l ∧
  unanswered (fold_left (λ w ev, createRequest ev w) (map snd l) w) = unanswered w.
Proof.
  induction l as [|[fm ev] l IH]; intros w Hl; cbn [map fold_left form_requests]; [by rewrite app_nil_r|].
  apply Forall_cons in Hl as [Hf Hl]. cbn [fst snd] in *. rewrite (create_form fm ev w Hf).
  match goal with |- context [fold_left _ _ ?w1] => destruct (IH w1 Hl) as [-> ->] end. cbn. by rewrite <- app_assoc.
Qed.

(** [getRequest] until nothing is left. *)
Fixpoint get_all (n : nat) w : list WebRequest * WebServer :=
  match n with
  | O => ([], w)
  | S n => match getRequest w with
           | (None, w) => ([], w)
           | (Some r, w) => let '(rs, w) := get_all n w in (r :: rs, w)
           end
  end.
Lemma get_all_requests rs : ∀ n w, _requests w = rs → (length rs ≤ n)%nat →
  get_all n w = (rs, MkServer (_baseid w) (web_stop w) [] (unanswered w)).
Proof.
  induction rs as [|r rs IH]; intros n w Hr Hn.
  - destruct n; cbn [get_all]; unfold getRequest; destruct w; cbn in *; by rewrite Hr.
  - destruct n as [|n]; [cbn in Hn; lia|]. cbn [get_all]. unfold getRequest. rewrite Hr. cbn in Hn.
    rewrite (IH n) by (done || lia). done.
Qed.
End Forms.

(** C30 (roundtrip): forms reach the application.  For any sequence of forms in plain
    characters, for paths that do not begin with two slashes, sent as GET or as POST with bodies of
    any length: the application gets one request for each, in order, numbered from the server's counter modulo 2^32, with the path, the headers
    and the variables sent, of a repeated name the first value; no request is lost. *)
Theorem forms_arrive `{EvHttpLaws} (l : list ((list Z * list (list Z * list Z)) * evhttp_request)) (w : WebServer) :
  Forall (λ fe, carries (fst fe) (snd fe)) l → web_stop w = false → _requests w = [] →
  let w' := web_run (map snd l) w in
  unanswered w' = unanswered w ∧
  fst (get_all (length l) w') = form_requests (_baseid w) l ∧
  ∀ id fm ev k, variable k (form_request id fm ev) = first_value k (snd fm).
Proof.
  intros Hl Hs Hr. unfold web_run. rewrite Hs. destruct (create_forms l w Hl) as [E1 E2]. split; [done|]. split.
  - rewrite (get_all_requests (form_requests (_baseid w) l)); [done|by rewrite E1, Hr|].
    clear. generalize (_baseid w). induction l as [|[fm ev] l IH]; intros id; cbn; [lia|]. specialize (IH (u32 (id + 1))). lia.
  - intros id fm ev k. apply insert_headers_lookup.
Qed.

(** What the web server loses.  It decodes the URI before it takes it apart, so the
    escaped separators of a value come back as separators: a value a&b=c, properly escaped,
    arrives as a value a and a variable b.  Posted text is cut at a NUL.  Requests that are
    neither GET nor POST, and those the application releases without [send], are never
    answered nor freed; and after [send] asking a request for its URL is undefined. *)
Theorem web_loses `{EvHttpLaws} (path k v k2 v2 rest : list Z) ev (w : WebServer) r :
  plain_path path = true → plain_item (k, v) → plain_item (k2, v2) → (length (item (k, v)) < 1000)%nat →
  (ev_command ev = EVHTTP_REQ_GET → ev_uri ev = path ++ str "?" ++ k ++ str "=" ++ v ++ escape (ch "&") ++ k2 ++ str "=" ++ v2 →
     ∃ q, _requests (createRequest ev w) = _requests w ++ [q] ∧ _variables q = insert_headers [(k, v); (k2, v2)]) ∧
  (ev_command ev = EVHTTP_REQ_POST → ev_uri ev = path → ev_input_buffer ev = item (k, v) ++ 0 :: rest → (length rest < 20)%nat →
     ∃ q, _requests (createRequest ev w) = _requests w ++ [q] ∧ _variables q = insert_headers [(k, v)]) ∧
  (∀ c, ev_command ev = EVHTTP_REQ_OTHER c → unanswered (createRequest ev w) = unanswered w ++ [ev]) ∧
  (_evrequest r = Some ev → unanswered (releaseRequest r w) = unanswered w ++ [ev] ∧
     ∃ r', send r = Ret (ev_output_headers ev, _evbuffer r, r') ∧ url r' = Undef ∧ unanswered (releaseRequest r' w) = unanswered w).
Proof.
  intros Hp Hi Hi2 Hl. pose proof Hi as (_ & Hk & Hv). pose proof Hi2 as (_ & Hk2 & Hv2). cbn [fst snd] in *.
  assert (∀ q fm, form fm = q → fm ≠ [] → Forall plain_item fm →
    _variables (new_WebRequest (_baseid w) ev (path ++ str "?" ++ q)) = insert_headers fm) as Hnew.
  { intros q fm <- Hne Hfm. unfold new_WebRequest. rewrite ev_parse, ev_query by (done || by apply form_query). done. }
  split; [|split; [|split]].
  - intros Ec Eu. unfold createRequest. rewrite Ec. unfold requestGet. rewrite Eu.
    replace (path ++ str "?" ++ k ++ str "=" ++ v ++ escape (ch "&") ++ k2 ++ str "=" ++ v2)
      with ((path ++ str "?" ++ item (k, v)) ++ escape (ch "&") ++ item (k2, v2)) by by unfold item; rewrite <- !app_assoc.
    rewrite ev_decode_escape; [|by apply uri_form, item_query| |done].
    + rewrite <- !app_assoc. eexists. split; [done|]. apply (Hnew _ [(k, v); (k2, v2)]); [done..|].
      apply Forall_cons; split; [done|]. apply Forall_cons; split; [done|apply Forall_nil_2].
    + by apply query_unescaped, item_query.
  - intros Ec Eu Eb Hr. unfold createRequest. rewrite Ec. unfold requestPost. rewrite Eu, Eb.
    pose proof (query_no_nul _ (item_query (k, v) Hk Hv)) as Hn.
    assert (post_text (length (item (k, v) ++ 0 :: rest)) (item (k, v) ++ 0 :: rest) = item (k, v)) as ->.
    { rewrite length_app. cbn [length]. rewrite Nat.add_succ_r. cbn [post_text].
      destruct (item (k, v) ++ 0 :: rest) as [|x l] eqn:El; [by destruct (item (k, v))|]. rewrite <- El.
      rewrite take_ge, drop_ge by (rewrite length_app; cbn [length]; lia). rewrite c_str_app, post_text_nil by done.
      change (c_str (0 :: rest)) with (@nil Z). by rewrite !app_nil_r. }
    rewrite ev_decode_plain by by apply uri_form, item_query.
    eexists. split; [done|]. apply (Hnew _ [(k, v)]); [done..|]. apply Forall_cons; split; [done|apply Forall_nil_2].
  - intros c Ec. unfold createRequest. by rewrite Ec.
  - intros Er. unfold releaseRequest, send, on_evrequest. rewrite Er. split; [done|]. eexists. split; [done|].
    split; [done|]. cbn. by rewrite app_nil_r.
Qed.

(** ** A libevent for plain text *)

Definition hex_value (c : Z) : Z := if c <? 58 then c - 48 else c - 55.
Fixpoint toy_decode (s : list Z) : list Z :=
  match s with
  | [] => []
  | c :: s' =>
      if c =? ch "%" then match s' with h :: l :: s => 16 * hex_value h + hex_value l :: toy_decode s | _ => s end
      else c :: toy_decode s'
  end.
Definition toy_items (q : list Z) : option (list (list Z * list Z)) :=
  match splitter_fields q (ch "&") with
  | Ret (true, fs) =>
      Some (omap (λ f, match splitter_fields f (ch "=") with Ret (true, [k; v]) => Some (k, v) | _ => None end) fs)
  | _ => None
  end.
#[export] Instance toy : EvHttp := {|
  evhttp_decode_uri s := Some (toy_decode s);
  evhttp_uri_parse s :=
    match strchr (ch "?") s with
    | Some (path, query) => if plain_path path && forallb query_char query then Some (path, Some query) else None
    | None => if plain_path s then Some (s, None) else None
    end;
  evhttp_parse_query_str q := match q with None => Some [] | Some q => toy_items q end;
  evhttp_find_header hs name := snd <$> List.find (λ kv, bool_decide (fst kv = name)) hs;
  evhttp_add_header hs name value := hs ++ [(name, value)];
  evhttp_remove_header hs name := List.filter (λ kv, negb (bool_decide (fst kv = name))) hs
|}.

Lemma toy_decode_app a b : forallb unescaped a = true → toy_decode (a ++ b) = a ++ toy_decode b.
Proof.
  induction a as [|c a IH]; [done|]. cbn [forallb]. rewrite andb_true_iff. intros [(Hc & _)%unescaped_spec Ha].
  cbn [app toy_decode]. change (ch "%") with 37. rewrite (proj2 (Z.eqb_neq c 37)), IH by done. done.
Qed.

Lemma hex_value_digit d : 0 ≤ d < 16 → hex_value (hex_digit d) = d.
Proof.
  intros Hd. unfold hex_value, hex_digit. destruct (Z.ltb_spec d 10).
  - rewrite (proj2 (Z.ltb_lt _ _)); lia.
  - rewrite (proj2 (Z.ltb_ge _ _)); lia.
Qed.

Lemma toy_items_form kvs : kvs ≠ [] → Forall plain_item kvs → toy_items (form kvs) = Some kvs.
Proof.
  intros Hne Hk. assert (Forall (item_ok (ch "&")) kvs) as Hok.
  { eapply Forall_impl; [exact Hk|]. intros kv (_ & H1 & H2). unfold token in *. rewrite forallb_forall in H1, H2.
    split; (split; [|split]); intros Hin%list_elem_of_In;
      first [apply H1 in Hin|apply H2 in Hin]; apply token_char_range in Hin; change (ch "=") with 61 in Hin; change (ch "&") with 38 in Hin; lia. }
  unfold toy_items, form. rewrite items_fields by done. f_equal. clear Hne Hk.
  induction Hok as [|kv kvs Hkv Hkvs IH]; [done|]. cbn [map omap list_omap].
  rewrite (item_fields _ _ Hkv), <- surjective_pairing. by f_equal.
Qed.

#[export] Instance toy_laws : EvHttpLaws.
Proof.
  split.
  - intros s Hs. cbn. rewrite <- (app_nil_r s) at 1. by rewrite toy_decode_app, app_nil_r.
  - intros a c b Ha Hb Hc. cbn [evhttp_decode_uri toy]. rewrite toy_decode_app by done. unfold escape.
    cbn [app toy_decode]. change (ch "%" =? ch "%") with true. cbv iota.
    rewrite !hex_value_digit; [|apply Z.mod_pos_bound; lia|split; [apply Z.div_pos; lia|apply Z.div_lt_upper_bound; lia]].
    rewrite <- Z_div_mod_eq_full, <- (app_nil_r b) at 1. by rewrite toy_decode_app, app_nil_r.
  - intros path q Hp Hq. cbn [evhttp_uri_parse toy]. change (str "?" ++ q) with (ch "?" :: q). rewrite strchr_app.
    + by rewrite Hp, Hq.
    + intros Hin. apply andb_true_iff in Hp as [Hp _]. rewrite forallb_forall in Hp.
      by apply list_elem_of_In, Hp, path_char_range in Hin as [_ Hne].
  - apply toy_items_form.
Qed.

Definition demo_get : evhttp_request :=
  MkEv EVHTTP_REQ_GET (str "/a/b?x=1&y=2&x=3") [(str "Host", str "h")] [] None 4000 [].
Definition demo_post : evhttp_request := MkEv EVHTTP_REQ_POST (str "/c") [] (str "name=" ++ replicate (Z.to_nat 3000) 97) None 4001 [].
Definition demo_forms : list ((list Z * list (list Z * list Z)) * evhttp_request) :=
  [((str "/a/b", [(str "x", str "1"); (str "y", str "2"); (str "x", str "3")]), demo_get);
   ((str "/c", [(str "name", replicate (Z.to_nat 3000) 97)]), demo_post)].

Lemma forms_arrive_witness :
  fst (get_all 2 (web_run [demo_get; demo_post] new_WebServer)) = form_requests 0 demo_forms ∧
  variable (str "x") (form_request 0 (str "/a/b", [(str "x", str "1"); (str "y", str "2"); (str "x", str "3")]) demo_get) = Some (str "1").
Proof.
  destruct (forms_arrive demo_forms new_WebServer) as (_ & E & Hv).
  - apply Forall_cons; split; [|apply Forall_cons; split; [|apply Forall_nil_2]]; unfold carries, plain_item, token.
    + split; [reflexivity|]. split; [discriminate|]. split; [|left; split; reflexivity].
      repeat (apply Forall_cons; split; [split; [discriminate|split; reflexivity]|]). apply Forall_nil_2.
    + split; [reflexivity|]. split; [discriminate|]. split; [|right; split; [reflexivity|split; reflexivity]].
      apply Forall_cons; split; [split; [discriminate|split; [reflexivity|vm_compute; reflexivity]]|apply Forall_nil_2].
  - reflexivity.
  - reflexivity.
  - split; [exact E|]. rewrite Hv. reflexivity.
Defined.

Lemma web_loses_witness : ∃ q,
  _requests (createRequest (MkEv EVHTTP_REQ_GET (str "/p?v=a%26b=c") [] [] None 1 []) new_WebServer) = [q] ∧
  _variables q = insert_headers [(str "v", str "a"); (str "b", str "c")].
Proof.
  destruct (web_loses (str "/p") (str "v") (str "a") (str "b") (str "c") [] (MkEv EVHTTP_REQ_GET (str "/p?v=a%26b=c") [] [] None 1 [])
    new_WebServer (MkWeb 0 [] [] None ∅ ∅)) as (E & _).
  - reflexivity.
  - split; [discriminate|split; reflexivity].
  - split; [discriminate|split; reflexivity].
  - apply Nat.ltb_lt. reflexivity.
  - exact (E eq_refl eq_refl).
Defined.
