(* ===== verification/LockfreeQueue.v ===== *)
(** * LockfreeQueue: deps/bundle-0.01/include/tools/LockfreeQueue.h and Spinlocker.h

    A list behind a spin lock, shared by threads whose steps interleave in any order.  A
    step is an access to the lock, the beginning or the end of a change of the list, or a call or
    a return.  The assert of the pops, [size] and [empty] read the list, with one load, without the
    lock: such a read while another thread is in the middle of a change is a data race, which the
    standard leaves undefined ([Undef]). *)

From S2P Require Import Prelude.

Section Queue.
Context {V : Type}.

(** ** Calls and the steps they take *)

Inductive call := PushBack (v : V) | PushFront (v : V) | PopBack | PopFront | Size | Empty.
Inductive answer := Done | Popped (v : V) | Sized (n : nat) | IsEmpty (b : bool).

(** [_locker.test_and_set] inside the loop of [lock], and [_locker.clear]: the flag is all
    there is to a [Spinlocker]. *)
Record LockfreeQueue := MkQueue { _locker : bool; _list : list V }.
(** One turn of the loop of [lock], and [unlock]. *)
Definition lock (q : LockfreeQueue) : option LockfreeQueue := if _locker q then None else Some (MkQueue true (_list q)).
Definition unlock (q : LockfreeQueue) : LockfreeQueue := MkQueue false (_list q).

(** Where a thread is: outside; before the assert, at the loop of [lock], before the change of
    the list, in the middle of it, or before [unlock]; before the read of [size] or [empty]. *)
Inductive place :=
| Idle | Asserting (c : call) | Locking (c : call) | Inside (c : call) | Changing (c : call) | Leaving (c : call) (r : answer) | Reading (c : call).
Record thread := MkThread { at_place : place; results : list answer }.
(** The thread is in the middle of a change; it is about to read without the lock. *)
Definition changing (th : thread) : bool := match at_place th with Changing _ => true | _ => false end.
Definition unlocked (th : thread) : bool := match at_place th with Asserting _ | Reading _ => true | _ => false end.

Definition entry (c : call) : place :=
  match c with
  | PushBack _ | PushFront _ => Locking c
  | PopBack | PopFront => Asserting c
  | Size | Empty => Reading c
  end.
(** What the call does to the list: [back] and [front] of an empty one are undefined. *)
Definition access (c : call) (l : list V) : outcome (answer * list V) :=
  match c with
  | PushBack v => Ret (Done, l ++ [v])
  | PushFront v => Ret (Done, v :: l)
  | PopBack => match rev l with [] => Undef | v :: l => Ret (Popped v, rev l) end
  | PopFront => match l with [] => Undef | v :: l => Ret (Popped v, l) end
  | Size => Ret (Sized (length l), l)
  | Empty => Ret (IsEmpty (match l with [] => true | _ => false end), l)
  end.

(** What has happened, for the theorems only: calls, accesses to the list and returns. *)
Inductive happening := Called (c : call) | Took (c : call) (r : answer) | Returned (r : answer).
Record system := MkSystem { queue : LockfreeQueue; threads : list thread; history : list (nat * happening) }.
Definition new_system (n : nat) : system := MkSystem (MkQueue false []) (replicate n (MkThread Idle [])) [].

(** The threads are any programs: the next call of each from the answers it got so far. *)
Context (program : nat → list answer → option call).

(** One step of the thread [t]; [busy] when a thread is in the middle of a change. *)
Definition move (t : nat) (th : thread) (busy : bool) (q : LockfreeQueue) : outcome (thread * LockfreeQueue * list happening) :=
  let go p := MkThread p (results th) in
  match at_place th with
  | Idle =>
      match program t (results th) with
      | None => Ret (th, q, [])
      | Some c => Ret (go (entry c), q, [Called c])
      end
  | Asserting c => if busy then Undef else match _list q with [] => Aborted | _ => Ret (go (Locking c), q, []) end
  | Locking c => match lock q with None => Ret (th, q, []) | Some q => Ret (go (Inside c), q, []) end
  | Inside c => Ret (go (Changing c), q, [])
  | Changing c => '(r, l) ← access c (_list q); Ret (go (Leaving c r), MkQueue (_locker q) l, [Took c r])
  | Leaving c r => Ret (MkThread Idle (results th ++ [r]), unlock q, [Returned r])
  | Reading c => if busy then Undef else '(r, l) ← access c (_list q); Ret (MkThread Idle (results th ++ [r]), MkQueue (_locker q) l, [Took c r; Returned r])
  end.
Definition step (t : nat) (st : system) : outcome system :=
  match threads st !! t with
  | None => Ret st
  | Some th =>
      m ← move t th (existsb changing (threads st)) (queue st);
      let '(th, q, hs) := m : thread * LockfreeQueue * list happening in
      Ret (MkSystem q (<[t := th]> (threads st)) (history st ++ map (pair t) hs))
  end.
(** A schedule is the list of the threads that take the steps. *)
Fixpoint run (ts : list nat) (st : system) : outcome system :=
  match ts with
  | [] => Ret st
  | t :: ts => st ← step t st; run ts st
  end.
End Queue.

Arguments call V : clear implicits.
Arguments answer V : clear implicits.
Arguments happening V : clear implicits.
Arguments thread V : clear implicits.
Arguments place V : clear implicits.
Arguments system V : clear implicits.
Arguments LockfreeQueue V : clear implicits.

(** ** The lock excludes, and the list is a queue *)

(** The specification: a sequence of calls, each on the list the ones before it have left. *)
Inductive legal {V} : list (nat * happening V) → list V → Prop :=
| legal_nil : legal [] []
| legal_called h l t c : legal h l → legal (h ++ [(t, Called c)]) l
| legal_returned h l t r : legal h l → legal (h ++ [(t, Returned r)]) l
| legal_took h l t c r l' : legal h l → access c l = Ret (r, l') → legal (h ++ [(t, Took c r)]) l'.

(** One thread: each call takes effect once, between the call and the return, which gives
    the answer it had. *)
Inductive phase {V} := Out | During (c : call V) | After (c : call V) (r : answer V).
Inductive lives {V} : list (happening V) → phase → list (answer V) → Prop :=
| lives_nil : lives [] Out []
| lives_called h c rs : lives h Out rs → lives (h ++ [Called c]) (During c) rs
| lives_took h c r rs : lives h (During c) rs → lives (h ++ [Took c r]) (After c r) rs
| lives_returned h c r rs : lives h (After c r) rs → lives (h ++ [Returned r]) Out (rs ++ [r]).
Definition of_thread {V} (t : nat) (h : list (nat * happening V)) : list (happening V) :=
  map snd (List.filter (λ e, Nat.eqb (fst e) t) h).

Section Linearizable.
Context {V : Type} (program : nat → list (answer V) → option (call V)).
Implicit Types (st : system V) (th : thread V) (q : LockfreeQueue V).

Definition phase_of (p : place V) : phase (V := V) :=
  match p with
  | Idle => Out
  | Asserting c | Locking c | Inside c | Changing c | Reading c => During c
  | Leaving c r => After c r
  end.
(** The thread holds the lock. *)
Definition holds th : bool := match at_place th with Inside _ | Changing _ | Leaving _ _ => true | _ => false end.

Record consistent st : Prop := {
  con_excl : exclusive holds (_locker (queue st)) (threads st);
  con_legal : legal (history st) (_list (queue st));
  con_lives : ∀ t th, threads st !! t = Some th → lives (of_thread t (history st)) (phase_of (at_place th)) (results th)
}.

Lemma of_thread_app t (h1 h2 : list (nat * happening V)) : of_thread t (h1 ++ h2) = of_thread t h1 ++ of_thread t h2.
Proof. unfold of_thread. by rewrite List.filter_app, map_app. Qed.

Lemma of_thread_self t (hs : list (happening V)) : of_thread t (map (pair t) hs) = hs.
Proof. induction hs as [|x hs IH]; [done|]. unfold of_thread in *. simpl. by rewrite Nat.eqb_refl; simpl; rewrite IH. Qed.

Lemma of_thread_other t u (hs : list (happening V)) : t ≠ u → of_thread u (map (pair t) hs) = [].
Proof. intros Hne. induction hs as [|x hs IH]; [done|]. unfold of_thread in *. simpl. by rewrite (proj2 (Nat.eqb_neq t u) Hne). Qed.

(** What one step of a thread does to the lock and the list, and what it adds to its life. *)
Lemma move_lock t th busy q th' q' hs : move program t th busy q = Ret (th', q', hs) → lock_step holds th th' (_locker q) (_locker q').
Proof.
  unfold move, lock, unlock, lock_step, holds. destruct (at_place th) as [|c|c|c|c|c r|c] eqn:Ep.
  - destruct (program t (results th)) as [c|]; intros [= <- <- <-]; left; [|by rewrite Ep]. by destruct c.
  - destruct busy, (_list q); [done..|]. intros [= <- <- <-]. by left.
  - destruct (_locker q) eqn:El; intros [= <- <- <-]; [left; by rewrite Ep|by right; left].
  - intros [= <- <- <-]. by left.
  - intros ([r l] & _ & [= <- <- <-])%bind_Ret. by left.
  - intros [= <- <- <-]. by right; right.
  - destruct busy; [done|]. intros ([r l] & _ & [= <- <- <-])%bind_Ret. by left.
Qed.

Lemma move_lives t th busy q th' q' hs h : move program t th busy q = Ret (th', q', hs) →
  lives h (phase_of (at_place th)) (results th) → lives (h ++ hs) (phase_of (at_place th')) (results th').
Proof.
  unfold move, lock, unlock. destruct th as [[|c|c|c|c|c r|c] rs]; cbn [at_place results phase_of]; intros E Hl.
  - destruct (program t rs) as [c|]; injection E as <- <- <-; [|by rewrite app_nil_r].
    cbn. replace (phase_of (entry c)) with (During c) by by destruct c. by constructor.
  - destruct busy, (_list q); [done..|]. injection E as <- <- <-. by rewrite app_nil_r.
  - destruct (_locker q); injection E as <- <- <-; by rewrite app_nil_r.
  - injection E as <- <- <-. by rewrite app_nil_r.
  - apply bind_Ret in E as ([r l] & _ & [= <- <- <-]). by constructor.
  - injection E as <- <- <-. by econstructor.
  - destruct busy; [done|]. apply bind_Ret in E as ([r l] & _ & [= <- <- <-]).
    change [Took c r; Returned r] with ([Took c r] ++ [Returned r]). rewrite app_assoc. econstructor. by constructor.
Qed.

Lemma move_legal t th busy q th' q' hs h : move program t th busy q = Ret (th', q', hs) →
  legal h (_list q) → legal (h ++ map (pair t) hs) (_list q').
Proof.
  unfold move, lock, unlock. destruct th as [[|c|c|c|c|c r|c] rs]; cbn [at_place results]; intros E Hl.
  - destruct (program t rs) as [c|]; injection E as <- <- <-; [by constructor|by rewrite app_nil_r].
  - destruct busy, (_list q) eqn:El; [done..|]. injection E as <- <- <-. by rewrite app_nil_r, El.
  - destruct (_locker q); injection E as <- <- <-; by rewrite app_nil_r.
  - injection E as <- <- <-. by rewrite app_nil_r.
  - apply bind_Ret in E as ([r l] & E & [= <- <- <-]). by econstructor.
  - injection E as <- <- <-. by constructor.
  - destruct busy; [done|]. apply bind_Ret in E as ([r l] & E & [= <- <- <-]). cbn [map].
    change [(t, Took c r); (t, Returned r)] with ([(t, Took c r)] ++ [(t, Returned r)]). rewrite app_assoc.
    constructor. by econstructor.
Qed.

Lemma step_inv t st st' : step program t st = Ret st' →
  st' = st ∨ ∃ th th' q' hs, threads st !! t = Some th ∧ move program t th (existsb changing (threads st)) (queue st) = Ret (th', q', hs) ∧
    st' = MkSystem q' (<[t := th']> (threads st)) (history st ++ map (pair t) hs).
Proof.
  unfold step. destruct (threads st !! t) as [th|] eqn:E; [|intros [= <-]; by left].
  intros ([[th' q'] hs] & Em & [= <-])%bind_Ret. right. by exists th, th', q', hs.
Qed.

Lemma step_consistent t st st' : step program t st = Ret st' → consistent st → consistent st'.
Proof.
  intros E Hc. split.
  - apply step_inv in E as [->|(th & th' & q' & hs & Ht & Em & ->)]; [by apply Hc|].
    eapply exclusive_step; [done|by apply Hc|by eapply move_lock].
  - apply step_inv in E as [->|(th & th' & q' & hs & Ht & Em & ->)]; [by apply Hc|]. eapply move_legal; [done|apply Hc].
  - apply step_inv in E as [->|(th & th' & q' & hs & Ht & Em & ->)]; [by apply Hc|]. cbn [threads history].
    intros u uh [[-> ->]|[Hne Hu]]%lookup_insert_cases; rewrite of_thread_app.
    + rewrite of_thread_self. eapply move_lives; [done|by apply Hc].
    + rewrite of_thread_other, app_nil_r by done. by apply Hc.
Qed.

Lemma run_consistent ts : ∀ st st', run program ts st = Ret st' → consistent st → consistent st'.
Proof.
  induction ts as [|t ts IH]; intros st st'; cbn [run]; [by intros [= <-]|].
  intros (st1 & E1 & E)%bind_Ret Hc. eapply IH; [done|]. by eapply step_consistent.
Qed.

Lemma new_consistent n : consistent (new_system n).
Proof.
  assert (∀ t th, replicate n (MkThread (V := V) Idle []) !! t = Some th → th = MkThread Idle []) as Hr.
  { intros t th Ht. by apply lookup_replicate in Ht as [-> _]. }
  split; cbn [new_system threads queue history].
  - by apply exclusive_replicate.
  - constructor.
  - intros t th ->%Hr. constructor.
Qed.
End Linearizable.

(** C9 (refinement): whatever the threads call and however their steps interleave, the queue is
    linearisable as long as no unlocked read comes in the middle of a change, which would be a data
    race and leaves the run undefined.  Taken in the order of their accesses the calls are a run of
    the sequential queue that ends in the present list, with the answers the threads get; each
    call of a thread accesses the list once, between its call and its return; and no two
    threads are behind the lock at the same time. *)
Theorem queue_linearizable {V} (program : nat → list (answer V) → option (call V)) n ts st :
  run program ts (new_system n) = Ret st →
  legal (history st) (_list (queue st)) ∧
  (∀ t th, threads st !! t = Some th → lives (of_thread t (history st)) (phase_of (at_place th)) (results th)) ∧
  (∀ t u th uh, threads st !! t = Some th → threads st !! u = Some uh → holds th = true → holds uh = true → t = u).
Proof.
  intros E. pose proof (run_consistent _ _ _ _ E (new_consistent n)) as [Hx Hl Hv]. split_and!; [done|done|apply Hx].
Qed.

(** ** One consumer never finds the list empty *)

Definition is_pop {V} (c : call V) : bool := match c with PopBack | PopFront => true | _ => false end.
(** The last answer said that the list is not empty. *)
Definition seen_some {V} (rs : list (answer V)) : bool :=
  match List.last rs Done with IsEmpty false | Sized (S _) => true | _ => false end.

(** The next step of the thread reads the list in the middle of a change. *)
Definition races {V} (t : nat) (st : system V) : bool :=
  match threads st !! t with Some th => unlocked th && existsb changing (threads st) | None => false end.

Section OneConsumer.
Context {V : Type} (program : nat → list (answer V) → option (call V)) (k : nat).
Context (Hothers : ∀ t rs c, t ≠ k → program t rs = Some c → is_pop c = false).
Context (Hk : ∀ rs c, program k rs = Some c → is_pop c = true → seen_some rs = true).
Implicit Types (st : system V) (th : thread V) (q : LockfreeQueue V).

(** The calls found at each place, and the answers they leave with. *)
Definition placed (p : place V) : Prop :=
  match p with
  | Idle => True
  | Asserting c => is_pop c = true
  | Locking c | Inside c | Changing c => match c with Size | Empty => False | _ => True end
  | Leaving c r => match r with Done | Popped _ => True | _ => False end
  | Reading c => match c with Size | Empty => True | _ => False end
  end.
(** The thread counts on the list not being empty. *)
Definition needs_some (th : thread V) : bool :=
  match at_place th with
  | Idle => seen_some (results th)
  | Asserting c | Locking c | Inside c | Changing c => is_pop c
  | _ => false
  end.
Definition fed st : Prop := ∀ t th, threads st !! t = Some th → placed (at_place th) ∧
  (t ≠ k → match at_place th with Asserting c | Locking c | Inside c | Changing c => is_pop c = false | _ => True end) ∧
  (t = k → needs_some th = true → _list (queue st) ≠ []).

Lemma seen_some_snoc (rs : list (answer V)) r : seen_some (rs ++ [r]) = match r with IsEmpty false | Sized (S _) => true | _ => false end.
Proof. unfold seen_some. by rewrite List.last_last. Qed.

(** The access of a thread that does not pop does not empty the list. *)
Lemma access_grows (c : call V) l : is_pop c = false → ∃ r l', access c l = Ret (r, l') ∧ (l ≠ [] → l' ≠ []) ∧
  (match c with Size | Empty => l' = l | _ => r = Done end) ∧
  (seen_some [r] = true → l' ≠ []).
Proof.
  destruct c as [v|v| | | |]; simpl; intros Hp; try done.
  - exists Done, (l ++ [v]). split_and!; try done. intros _. by destruct l.
  - by exists Done, (v :: l).
  - exists (Sized (length l)), l. split_and!; try done. by destruct l.
  - eexists _, l. split_and!; try done. by destruct l.
Qed.

Lemma access_pops (c : call V) l : is_pop c = true → l ≠ [] → ∃ v l', access c l = Ret (Popped v, l').
Proof.
  destruct c as [v|v| | | |]; simpl; intros Hp Hl; try done.
  - destruct (rev l) as [|v l'] eqn:E; [|by exists v, (rev l')]. by apply (f_equal (@rev V)) in E; rewrite rev_involutive in E.
  - destruct l as [|v l']; [done|by exists v, l'].
Qed.

(** What a thread needs, and what it leaves behind. *)
Definition thread_ok (t : nat) th q : Prop :=
  placed (at_place th) ∧
  (t ≠ k → match at_place th with Asserting c | Locking c | Inside c | Changing c => is_pop c = false | _ => True end) ∧
  (t = k → needs_some th = true → _list q ≠ []).
Definition moved (t : nat) th q : Prop := ∃ th' q' hs, move program t th false q = Ret (th', q', hs) ∧
  thread_ok t th' q' ∧ (t ≠ k → _list q ≠ [] → _list q' ≠ []).

Lemma move_idle t rs q : thread_ok t (MkThread Idle rs) q → moved t (MkThread Idle rs) q.
Proof using Hothers Hk.
  intros (_ & _ & Hn). unfold moved, move, lock, unlock. cbn [at_place results].
  destruct (program t rs) as [c|] eqn:Ec; [|by eexists _, _, _].
  eexists _, _, _. split; [done|]. split; [|done]. unfold thread_ok, needs_some in *. cbn [at_place results] in *.
  destruct (decide (t = k)) as [->|Hne].
  - split; [by destruct c|]. split; [done|]. intros _ Hp. apply Hn; [done|]. apply (Hk rs c Ec). by destruct c.
  - split; [by destruct c|]. split; [|done]. intros _. pose proof (Hothers t rs c Hne Ec). by destruct c.
Qed.

Lemma move_changing t c rs q : thread_ok t (MkThread (Changing c) rs) q → moved t (MkThread (Changing c) rs) q.
Proof using Type.
  intros (Hp & Ho & Hn). unfold moved, move, lock, unlock. cbn [at_place results] in *.
  destruct (is_pop c) eqn:Ec.
  - assert (t = k) as -> by (destruct (decide (t = k)) as [|Hne]; [done|by specialize (Ho Hne)]).
    destruct (access_pops c (_list q) Ec) as (v & l' & ->); [by apply Hn|]. by eexists _, _, _.
  - destruct (access_grows c (_list q) Ec) as (r & l' & -> & Hg & Hr & _). eexists _, _, _. split; [done|].
    split; [|done]. unfold thread_ok, needs_some. cbn [at_place]. split_and!; [|done|done]. by destruct c; simplify_eq.
Qed.

Lemma move_reading t c rs q : thread_ok t (MkThread (Reading c) rs) q → moved t (MkThread (Reading c) rs) q.
Proof using Type.
  intros (Hp & _ & _). unfold moved, move, lock, unlock. cbn [at_place results] in *.
  destruct (access_grows c (_list q)) as (r & l' & -> & Hg & Hr & Hs); [by destruct c|].
  eexists _, _, _. split; [done|]. split; [|done]. unfold thread_ok, needs_some. cbn [at_place results].
  split_and!; [done|done|]. intros _. rewrite seen_some_snoc. exact Hs.
Qed.

Lemma move_ok t th q : thread_ok t th q → moved t th q.
Proof using Hothers Hk.
  destruct th as [[|c|c|c|c|c r|c] rs]; [apply move_idle| | | |apply move_changing| |apply move_reading];
    intros (Hp & Ho & Hn); unfold moved, move, lock, unlock; cbn [at_place results] in *.
  - assert (t = k) as -> by (destruct (decide (t = k)) as [|Hne]; [done|specialize (Ho Hne); congruence]).
    specialize (Hn eq_refl Hp). destruct (_list q) eqn:El; [done|]. eexists _, _, _. split; [done|].
    split; [|by rewrite El]. unfold thread_ok, needs_some. cbn [at_place]. rewrite El. split_and!; [by destruct c|done|done].
  - destruct (_locker q); eexists _, _, _; (split; [done|]); by split.
  - eexists _, _, _. (split; [done|]); by split.
  - eexists _, _, _. split; [done|]. split; [|done]. unfold thread_ok, needs_some. cbn [at_place results].
    rewrite seen_some_snoc. split_and!; [done|done|]. by destruct r.
Qed.

Lemma step_fed t st : fed st → races t st = false → ∃ st', step program t st = Ret st' ∧ fed st'.
Proof using Hothers Hk.
  intros Hf Hr. unfold step, races in *. destruct (threads st !! t) as [th|] eqn:Et; [|by eexists].
  assert (move program t th (existsb changing (threads st)) (queue st) = move program t th false (queue st)) as ->.
  { unfold move, unlocked in *. destruct (at_place th); try done; by destruct (existsb changing (threads st)). }
  destruct (move_ok t th (queue st) (Hf t th Et)) as (th' & q' & hs & -> & Hth & Hg). cbn [mbind outcome_bind].
  eexists. split; [done|]. intros u uh [[-> ->]|[Hne Hu]]%lookup_insert_cases; cbn [queue]; [done|].
  destruct (Hf u uh Hu) as (H1 & H2 & H3). split_and!; [done|done|]. intros -> Hn. apply Hg; [congruence|by apply H3].
Qed.

Lemma run_fed ts : ∀ st, fed st → (∃ st', run program ts st = Ret st') ∨
  ∃ ts1 t ts2 st', ts = ts1 ++ t :: ts2 ∧ run program ts1 st = Ret st' ∧ races t st' = true.
Proof using Hothers Hk.
  induction ts as [|t ts IH]; intros st Hf; [left; by eexists|].
  destruct (races t st) eqn:Er; [right; by exists [], t, ts, st|].
  destruct (step_fed t st Hf Er) as (st1 & E1 & Hf1). cbn [run]. rewrite E1. cbn [mbind outcome_bind].
  destruct (IH st1 Hf1) as [H|(ts1 & u & ts2 & st' & -> & E & Hu)]; [by left|right].
  exists (t :: ts1), u, ts2, st'. cbn [run]. by rewrite E1.
Qed.
End OneConsumer.

(** Thread 0 pushes once; the others look whether the list is empty and pop when it is not. *)
Definition shared {V} (v : V) (t : nat) (rs : list (answer V)) : option (call V) :=
  match t, rs with
  | O, [] => Some (PushBack v)
  | S _, [] => Some Empty
  | S _, [IsEmpty false] => Some PopFront
  | _, _ => None
  end.
(** The same with one consumer, the way the library uses its queues. *)
Definition handed {V} (v : V) (t : nat) (rs : list (answer V)) : option (call V) :=
  if (t <=? 1)%nat then shared v t rs else None.

(** C27 (safety): one consumer is safe up to a data race.  When one thread only pops, and only
    after it has last been told that the list is not empty, a run can go wrong in one way only: an
    unlocked read in the middle of a change of another thread.  Before that no assert fails and no
    pop finds the list empty, however the steps interleave.  But one producer and one such consumer
    are enough for the race: [empty] reads the list while [push_back] changes it. *)
Theorem one_consumer_safe {V} (program : nat → list (answer V) → option (call V)) k n ts :
  (∀ t rs c, t ≠ k → program t rs = Some c → is_pop c = false) →
  (∀ rs c, program k rs = Some c → is_pop c = true → seen_some rs = true) →
  ((∃ st, run program ts (new_system n) = Ret st) ∨
   ∃ ts1 t ts2 st, ts = ts1 ++ t :: ts2 ∧ run program ts1 (new_system n) = Ret st ∧ races t st = true) ∧
  ∀ v : V, (∃ st, run (handed v) [0;0;0;1]%nat (new_system 2) = Ret st ∧ races 1 st = true) ∧
    run (handed v) [0;0;0;1;1]%nat (new_system 2) = Undef.
Proof.
  intros Ho Hk. split; [|intros v; split; [by eexists|done]]. apply (run_fed program k Ho Hk).
  intros t th Ht. cbn in Ht. apply lookup_replicate in Ht as [-> _]. unfold needs_some. cbn. by split_and!.
Qed.

(** Two consumers that both ask [empty] first are not safe even without a race.  Both may be told
    that there is an element: then the second finds its assert failed, or, when both were past
    their asserts, takes the front of an empty list. *)
Theorem consumers_underflow {V} (v : V) :
  run (shared v) ([0;0;0;0;0] ++ [1;1;2;2] ++ [1;1;1;1;1;1] ++ [2;2])%nat (new_system 3) = Aborted ∧
  ∃ st, run (shared v) ([0;0;0;0;0] ++ [1;1;2;2] ++ [1;1;2;2] ++ [1;1;1;1] ++ [2;2])%nat (new_system 3) = Ret st ∧
    _list (queue st) = [] ∧ at_place <$> (threads st !! 2%nat) = Some (Changing PopFront) ∧ step (shared v) 2 st = Undef.
Proof.
  split; [reflexivity|]. eexists. split; [cbv; reflexivity|]. split_and!; reflexivity.
Qed.

(** ** Progress *)

Section Progress.
Context {V : Type} (program : nat → list (answer V) → option (call V)) (b : nat).
Context (Hb : ∀ t rs, (b ≤ length rs)%nat → program t rs = None).
Implicit Types (st : system V) (th : thread V) (q : LockfreeQueue V).

(** A step of the thread would change nothing: it has no call to make, or waits for the lock. *)
Definition waits (t : nat) st : bool :=
  match threads st !! t with
  | None => true
  | Some th =>
      match at_place th with
      | Idle => match program t (results th) with None => true | Some _ => false end
      | Locking _ => _locker (queue st)
      | _ => false
      end
  end.
Definition finished st : Prop := ∀ t th, threads st !! t = Some th → at_place th = Idle ∧ program t (results th) = None.
(** The number of steps of a schedule that change something. *)
Fixpoint moves (ts : list nat) st : nat :=
  match ts with
  | [] => 0
  | t :: ts => match step program t st with Ret st' => (if waits t st then 0 else 1) + moves ts st' | _ => 0 end
  end.

(** The steps a thread has left, when it makes all its calls. *)
Definition left_of th : nat :=
  6 * (b - length (results th)) -
  match at_place th with
  | Idle => 0 | Asserting _ => 1 | Locking _ => 2 | Inside _ => 3 | Changing _ => 4 | Leaving _ _ | Reading _ => 5
  end.
Definition in_budget th : Prop := at_place th = Idle ∨ (length (results th) < b)%nat.
Definition left_all (l : list (thread V)) : nat := sum_list_with left_of l.

Lemma move_budget t th busy q th' q' hs : move program t th busy q = Ret (th', q', hs) → in_budget th →
  in_budget th' ∧ (th' = th ∨ (left_of th' < left_of th)%nat) ∧
  ((match at_place th with Idle => is_Some (program t (results th)) | Locking _ => _locker q = false | _ => True end) →
     (left_of th' < left_of th)%nat).
Proof.
  assert (∀ rs c, program t rs = Some c → (length rs < b)%nat) as Hlt.
  { intros rs c Hc. destruct (Nat.lt_ge_cases (length rs) b) as [|Hge]; [done|]. specialize (Hb t rs Hge). congruence. }
  unfold move, lock, unlock, in_budget, left_of. destruct th as [[|c|c|c|c|c r|c] rs]; cbn [at_place results]; intros E [Hi|Hi]; try done.
  - destruct (program t rs) as [c|] eqn:Ec; injection E as <- <- <-; cbn [at_place results].
    + specialize (Hlt rs c Ec). destruct c; cbn; (split; [by right|]; split; [right|intros _]; lia).
    + split; [by left|]. split; [by left|]. by intros [].
  - destruct (program t rs) as [c|] eqn:Ec; injection E as <- <- <-; cbn [at_place results].
    + destruct c; cbn; (split; [by right|]; split; [right|intros _]; lia).
    + split; [by left|]. split; [by left|]. by intros [].
  - destruct busy, (_list q); [done..|]. injection E as <- <- <-. cbn. split; [by right|]. split; [right|intros _]; lia.
  - destruct (_locker q); injection E as <- <- <-; cbn; (split; [by right|]); (split; [(by left) || (right; lia)|]); [done|lia].
  - injection E as <- <- <-. cbn. split; [by right|]. split; [right|intros _]; lia.
  - apply bind_Ret in E as ([r l] & _ & [= <- <- <-]). cbn. split; [by right|]. split; [right|intros _]; lia.
  - injection E as <- <- <-. cbn. rewrite length_app. cbn. split; [by left|]. split; [right|intros _]; lia.
  - destruct busy; [done|]. apply bind_Ret in E as ([r l] & _ & [= <- <- <-]). cbn. rewrite length_app. cbn. split; [by left|]. split; [right|intros _]; lia.
Qed.

Lemma left_all_insert l t th th' : l !! t = Some th → (left_all (<[t := th']> l) + left_of th = left_all l + left_of th')%nat.
Proof.
  revert t. unfold left_all. induction l as [|x l IH]; intros [|t] Hl; simplify_eq/=; [lia|]. specialize (IH t Hl). lia.
Qed.

Lemma step_budget t st st' : step program t st = Ret st' → Forall in_budget (threads st) →
  Forall in_budget (threads st') ∧ (left_all (threads st') + (if waits t st then 0 else 1) ≤ left_all (threads st))%nat.
Proof.
  unfold step, waits. destruct (threads st !! t) as [th|] eqn:Et; [|intros [= <-] Hf; split; [done|lia]].
  intros ([[th' q'] hs] & Em & [= <-])%bind_Ret Hf. cbn [threads].
  destruct (move_budget _ _ _ _ _ _ _ Em (Forall_lookup_1 _ _ _ _ Hf Et)) as (Hth & Hle & Hlt).
  split; [by apply Forall_insert|]. pose proof (left_all_insert _ _ _ th' Et).
  destruct Hle as [->|Hle]; [|destruct (at_place th); repeat case_match; lia].
  destruct (at_place th) eqn:Ep; repeat case_match; try lia;
    first [specialize (Hlt I) | specialize (Hlt ltac:(by eexists)) | specialize (Hlt ltac:(done))]; lia.
Qed.

Lemma moves_bound ts : ∀ st, Forall in_budget (threads st) → (moves ts st ≤ left_all (threads st))%nat.
Proof using Hb.
  induction ts as [|t ts IH]; intros st Hf; cbn [moves]; [lia|].
  destruct (step program t st) as [st'| |] eqn:E; [|lia..].
  destruct (step_budget t st st' E Hf) as [Hf' Hle]. specialize (IH st' Hf'). lia.
Qed.

(** The holder of the lock can always go on, and without a holder every thread with a call; nobody
    is then in the middle of a change. *)
Lemma no_change_unlocked st : consistent st → _locker (queue st) = false → existsb changing (threads st) = false.
Proof using Type.
  intros Hc El. destruct (existsb changing (threads st)) eqn:Ex; [|done]. apply existsb_exists in Ex as (th & Hin%list_elem_of_In & Ht).
  apply list_elem_of_lookup in Hin as [i Hi]. rewrite (excl_locked _ _ _ (con_excl _ Hc) _ _ Hi) in El; [done|].
  unfold changing, holds in *. by destruct (at_place th).
Qed.

Lemma someone_moves st : consistent st → finished st ∨ ∃ t, waits t st = false ∧ races t st = false.
Proof using Type.
  intros Hc. destruct (_locker (queue st)) eqn:El.
  { right. destruct (excl_holder _ _ _ (con_excl _ Hc) El) as (t & th & Ht & Hh). exists t. unfold waits, races, holds, unlocked in *. rewrite Ht. by destruct (at_place th). }
  assert (∀ t, races t st = false) as Hr.
  { intros t. unfold races. rewrite (no_change_unlocked _ Hc El). destruct (threads st !! t); [|done]. apply andb_false_r. }
  destruct (Forall_Exists_dec (λ t, waits t st = true) (λ t, waits t st = false)
    (λ t, if waits t st as b0 return {b0 = true} + {b0 = false} then left eq_refl else right eq_refl)
    (seq 0 (length (threads st)))) as [Ha|He]; [left|right].
  - intros t th Ht. assert (waits t st = true) as Hw.
    { rewrite Forall_forall in Ha. apply Ha. apply elem_of_seq. apply lookup_lt_Some in Ht. lia. }
    unfold waits in Hw. rewrite Ht, El in Hw. destruct (at_place th); try done. split; [done|]. by destruct (program t (results th)).
  - apply Exists_exists in He as (t & _ & Hw). by exists t.
Qed.

Lemma move_placed t th busy q th' q' hs : move program t th busy q = Ret (th', q', hs) → placed (at_place th) → placed (at_place th').
Proof using Type.
  unfold move, lock, unlock. destruct th as [[|c|c|c|c|c r|c] rs]; cbn [at_place results]; intros E Hp.
  - destruct (program t rs) as [c|]; injection E as <- <- <-; [by destruct c|done].
  - destruct busy, (_list q); [done..|]. injection E as <- <- <-. by destruct c.
  - by destruct (_locker q); injection E as <- <- <-.
  - by injection E as <- <- <-.
  - apply bind_Ret in E as ([r l] & E & [= <- <- <-]).
    destruct c; simplify_eq/=; try done; [destruct (rev (_list q))|destruct (_list q)]; by simplify_eq/=.
  - by injection E as <- <- <-.
  - destruct busy; [done|]. by apply bind_Ret in E as ([r l] & _ & [= <- <- <-]).
Qed.

Lemma run_placed ts : ∀ st st', run program ts st = Ret st' →
  Forall (λ th, placed (at_place th)) (threads st) → Forall (λ th, placed (at_place th)) (threads st').
Proof using Type.
  induction ts as [|t ts IH]; intros st st'; cbn [run]; [by intros [= <-]|].
  intros (st1 & E1 & E)%bind_Ret Hp. apply (IH _ _ E).
  apply step_inv in E1 as [->|(th & th' & q' & hs & Ht & Em & ->)]; [done|].
  apply Forall_insert; [done|]. eapply move_placed; [done|by eapply (Forall_lookup_1 _ _ _ _ Hp)].
Qed.

(** The answers of [size] and [empty]. *)
Definition read_answer (r : answer V) : Prop := match r with Sized _ | IsEmpty _ => True | _ => False end.
(** Since [th] the thread has got answers of [size] and [empty] only. *)
Definition only_reads th th' : Prop := ∃ rs, results th' = results th ++ rs ∧ Forall read_answer rs.

Lemma only_reads_trans th1 th2 th3 : only_reads th1 th2 → only_reads th2 th3 → only_reads th1 th3.
Proof using Type.
  intros (rs & E & H) (rs' & E' & H'). exists (rs ++ rs'). rewrite E', E, <-app_assoc. split; [done|]. by apply Forall_app.
Qed.

(** While its holder does not run the lock stays taken and the list as it is. *)
Lemma move_blocked u uh busy q uh' q' hs : move program u uh busy q = Ret (uh', q', hs) → placed (at_place uh) →
  holds uh = false → _locker q = true → _list q' = _list q ∧ only_reads uh uh'.
Proof using Type.
  unfold move, lock, unlock, holds. destruct uh as [[|c|c|c|c|c r|c] rs]; cbn [at_place results]; intros Em Hp Hn Hl; try done.
  - destruct (program u rs) as [c|]; injection Em as <- <- <-; (split; [done|]); exists []; by rewrite app_nil_r.
  - destruct busy, (_list q) eqn:Eq; [done..|]. injection Em as <- <- <-. split; [done|]. exists []. by rewrite app_nil_r.
  - rewrite Hl in Em. injection Em as <- <- <-. split; [done|]. exists []. by rewrite app_nil_r.
  - destruct busy; [done|]. apply bind_Ret in Em as ([r l] & E & [= <- <- <-]).
    destruct c; simplify_eq/=; (split; [done|]); eexists; (split; [done|]); by constructor.
Qed.

Definition kept_by (t : nat) st st' : Prop :=
  _list (queue st') = _list (queue st) ∧ threads st' !! t = threads st !! t ∧
  ∀ u uh, u ≠ t → threads st !! u = Some uh → ∃ uh', threads st' !! u = Some uh' ∧ only_reads uh uh'.

Lemma step_blocked t u th st st' : step program u st = Ret st' → u ≠ t → consistent st →
  Forall (λ th, placed (at_place th)) (threads st) → threads st !! t = Some th → holds th = true → kept_by t st st'.
Proof using Type.
  assert (∀ uh, only_reads uh uh) as Hrefl by (intros uh; exists []; by rewrite app_nil_r).
  intros [->|(uh & uh' & q' & hs & Hu & Em & ->)]%step_inv Hne Hc Hp Ht Hh; [split_and!; [done..|]; eauto|]. unfold kept_by. cbn [threads queue].
  destruct (move_blocked _ _ _ _ _ _ _ Em) as [-> Hr].
  - by eapply (Forall_lookup_1 _ _ _ _ Hp).
  - destruct (holds uh) eqn:E; [by destruct (Hne (excl_one _ _ _ (con_excl _ Hc) _ _ _ _ Hu Ht E Hh))|done].
  - by eapply (excl_locked _ _ _ (con_excl _ Hc)).
  - split; [done|]. rewrite list_lookup_insert_ne by done. split; [done|]. intros v vh Hv Hvh.
    destruct (decide (u = v)) as [<-|Huv]; [|rewrite list_lookup_insert_ne by done; eauto].
    rewrite list_lookup_insert_eq by by eapply lookup_lt_Some. exists uh'. split; [done|]. congruence.
Qed.

Lemma run_blocked t th ts : t ∉ ts → ∀ st st', run program ts st = Ret st' → consistent st →
  Forall (λ th, placed (at_place th)) (threads st) → threads st !! t = Some th → holds th = true → kept_by t st st'.
Proof using Type.
  induction ts as [|u ts IH]; intros Hn st st'; cbn [run].
  { intros [= <-] _ _ _ _. split_and!; [done..|]. intros u uh _ Hu. exists uh. split; [done|]. exists []. by rewrite app_nil_r. }
  apply not_elem_of_cons in Hn as [Hu Hn]. intros (st1 & E1 & E)%bind_Ret Hc Hp Ht Hh.
  destruct (step_blocked t u th st st1 E1) as (Hl1 & Ht1 & Hr1); [done..|].
  destruct (IH Hn _ _ E) as (Hl & Ht' & Hr); [by eapply step_consistent| |by rewrite Ht1|done|].
  { apply (run_placed [u] st); [|done]. cbn [run]. by rewrite E1. }
  split; [congruence|]. split; [congruence|]. intros v vh Hv Hvh.
  destruct (Hr1 v vh Hv Hvh) as (vh1 & Hvh1 & H1). destruct (Hr v vh1 Hv Hvh1) as (vh2 & Hvh2 & H2).
  exists vh2. split; [done|]. by eapply only_reads_trans.
Qed.
End Progress.

(** C31 (liveness): calls come to an end, but the queue is not lock-free.  When each of [n] threads
    makes at most [b] calls, at most 6 b n steps change anything, all others wait for the
    lock or have nothing to do; and as long as not all calls are done some thread can take a
    step that does and is not part of a data race.  But while the thread that holds the lock does
    not run, the list does not change, however many steps the others take, and no push and no pop
    of theirs returns: the only answers they get are those of [size] and [empty], which do not
    take the lock. *)
Theorem queue_progress {V} (program : nat → list (answer V) → option (call V)) b n ts :
  (∀ t rs, (b ≤ length rs)%nat → program t rs = None) →
  (moves program ts (new_system n) ≤ 6 * b * n)%nat ∧
  ∀ st, run program ts (new_system n) = Ret st →
    (finished program st ∨ ∃ t, waits program t st = false ∧ races t st = false) ∧
    ∀ t th us st', threads st !! t = Some th → holds th = true → t ∉ us → run program us st = Ret st' →
      _list (queue st') = _list (queue st) ∧ threads st' !! t = Some th ∧
      ∀ u uh, u ≠ t → threads st !! u = Some uh → ∃ uh' rs, threads st' !! u = Some uh' ∧
        results uh' = results uh ++ rs ∧ Forall (λ r, (∃ n, r = Sized n) ∨ ∃ b, r = IsEmpty b) rs.
Proof.
  intros Hb. split.
  - etrans; [apply (moves_bound _ b Hb)|]; cbn.
    + apply Forall_replicate. by left.
    + clear. induction n as [|n IH]; [unfold left_all; cbn; lia|]. unfold left_all in *. cbn [replicate sum_list_with].
      unfold left_of at 1. cbn [at_place results length]. lia.
  - intros st E. pose proof (run_consistent _ _ _ _ E (new_consistent n)) as Hc. split; [by apply someone_moves|].
    intros t th us st' Ht Hh Hn E'. destruct (run_blocked program t th us Hn st st' E' Hc) as (Hl & Ht' & Hr); [|done|done|].
    { eapply run_placed; [done|]. by apply Forall_replicate. }
    split; [done|]. split; [by rewrite Ht'|]. intros u uh Hu Huh. destruct (Hr u uh Hu Huh) as (uh' & Huh' & rs & Hrs & Hf).
    exists uh', rs. split; [done|]. split; [done|]. eapply Forall_impl; [exact Hf|]. intros []; cbn; eauto; done.
Qed.

(** ** A producer and a consumer *)

Definition demo_program (t : nat) (rs : list (answer Z)) : option (call Z) :=
  match t with
  | O => if (length rs <? 3)%nat then Some (PushBack (Z.of_nat (length rs))) else None
  | 1%nat => if (length rs <? 12)%nat then Some (if seen_some rs then PopFront else Empty) else None
  | _ => None
  end.
(** The consumer looks, the producer pushes, and they take turns and wait for each other. *)
Definition demo_schedule : list nat :=
  [1;1; 0;0;0;0;0; 1; 0; 1; 0; 1; 0;0; 1;1; 0; 1; 0;0; 1;1;1; 0;0;0;0]%nat ++ replicate 40 1%nat.

Lemma demo_bound t rs : (12 ≤ length rs)%nat → demo_program t rs = None.
Proof.
  intros Hl. unfold demo_program. destruct t as [|[|t]]; [| |done].
  - by rewrite (proj2 (Nat.ltb_ge _ _)) by lia.
  - by rewrite (proj2 (Nat.ltb_ge _ _)) by lia.
Qed.

Lemma one_consumer_safe_witness : (∃ st, run demo_program demo_schedule (new_system 2) = Ret st) ∨
  ∃ ts1 t ts2 st, demo_schedule = ts1 ++ t :: ts2 ∧ run demo_program ts1 (new_system 2) = Ret st ∧ races t st = true.
Proof.
  apply (one_consumer_safe demo_program 1 2 demo_schedule).
  - intros [|[|t]] rs c; simpl; try done. destruct (length rs <? 3)%nat; [by intros _ [= <-]|done].
  - intros rs c. simpl. destruct (length rs <? 12)%nat; [|done]. destruct (seen_some rs); [done|]. by intros [= <-].
Defined.

Definition demo_end : system Z :=
  match run demo_program demo_schedule (new_system 2) with Ret st => st | _ => new_system 0 end.

Lemma queue_linearizable_witness :
  run demo_program demo_schedule (new_system 2) = Ret demo_end ∧
  (results <$> threads demo_end !! 1%nat) = Some [IsEmpty true; IsEmpty false; Popped 0; IsEmpty false;
    Popped 1; IsEmpty false; Popped 2; IsEmpty true; IsEmpty true; IsEmpty true; IsEmpty true; IsEmpty true] ∧
  legal (history demo_end) [].
Proof.
  assert (run demo_program demo_schedule (new_system 2) = Ret demo_end) as E by (vm_compute; reflexivity).
  split; [exact E|]. split; [vm_compute; reflexivity|].
  exact (proj1 (queue_linearizable demo_program 2 demo_schedule demo_end E)).
Defined.

Lemma queue_progress_witness : (moves demo_program demo_schedule (new_system 2) ≤ 6 * 12 * 2)%nat ∧
  (finished demo_program demo_end ∨ ∃ t, waits demo_program t demo_end = false ∧ races t demo_end = false).
Proof.
  destruct (queue_progress demo_program 12 2 demo_schedule demo_bound) as [Hm Hst]. split; [exact Hm|].
  apply Hst. vm_compute. reflexivity.
Defined.
