(* ===== verification/Easylog.v ===== *)
(** * The log: src/easylog/Easylog.cpp, deps/bundle-0.01/include/easylog/Easylog.h

    Messages are put on a queue that a thread of the log writes to the console and to files,
    which are split by day or hour.  The threads that log, the log's thread and calls that
    stop or change the log interleave in any order, with a step for each use of what they share;
    the wait of the log's thread may also end by itself.  The layouts are not modelled: their code
    is compiled only with HAS_LOG_LAYOUT, which is not defined. *)

From S2P Require Import Prelude CLib Calendar.

(** ** Levels and colours *)

Definition GLOBAL : Z := 0.
Definition LEVEL_DEBUG : Z := 1.
Definition LEVEL_TRACE : Z := 2.
Definition LEVEL_ALARM : Z := 3.
Definition LEVEL_ERROR : Z := 4.
Definition LEVEL_PANIC : Z := 5.
Definition LEVEL_SYSTEM : Z := 6.
Definition CYAN : Z := 36.
Definition GREY : Z := 37.
Definition LRED : Z := 41.
Definition YELLOW : Z := 43.
Definition LMAGENTA : Z := 45.
Definition LCYAN : Z := 46.

Definition levelshort_table : list (list Z) := [str "G"; str "D"; str "T"; str "ALM"; str "ERR"; str "PANIC"; str "SYS"].
(** Outside the table the read is undefined. *)
Definition levelshort_string (level : Z) : outcome (list Z) :=
  if level <? 0 then Undef
  else match levelshort_table !! Z.to_nat level with Some s => Ret s | None => Undef end.

(** [fs] is null, or a stream that the system has opened or not; one that is not open ignores
    what is written.  It appends to the file [fullname]. *)
Record LevelNode := MkNode {
  n_level : Z; n_color : Z; to_stdout : bool; filename : list Z; fullname : list Z; fs : option bool; fs_launchtime : Z
}.
(** What [_levels[level]] makes of a key that is not there. *)
Definition zero_node : LevelNode := MkNode 0 0 false [] [] None 0.
Definition level_node (level color : Z) : LevelNode := MkNode level color true [] [] None 0.

Record Easylog := MkLog {
  _stop : bool;
  _level : Z;
  _dest_dir : list Z;
  _autosplit_day : bool;
  _autosplit_hour : bool;
  _levels : gmap Z LevelNode;
  _logQueue : list (Z * list Z);     (* a level, whose node the log node points to, and the text *)
  unqueued : nat                     (* messages that were not queued; nothing deletes them *)
}.
(** [EasylogInternal()], in the build of CMakeLists.txt, which defines DEBUG, in the directory [cwd]. *)
Definition new_Easylog (cwd : list Z) : Easylog :=
  MkLog false LEVEL_DEBUG cwd true false
    (list_to_map (map (λ n, (n_level n, n)) [level_node LEVEL_DEBUG CYAN; level_node LEVEL_TRACE GREY;
      level_node LEVEL_ALARM YELLOW; level_node LEVEL_ERROR LRED; level_node LEVEL_PANIC LMAGENTA; level_node LEVEL_SYSTEM LCYAN]))
    [] 0.
Definition set_stop lg := MkLog true (_level lg) (_dest_dir lg) (_autosplit_day lg) (_autosplit_hour lg) (_levels lg) (_logQueue lg) (unqueued lg).
Definition set_levels v lg := MkLog (_stop lg) (_level lg) (_dest_dir lg) (_autosplit_day lg) (_autosplit_hour lg) v (_logQueue lg) (unqueued lg).
Definition set_queue v lg := MkLog (_stop lg) (_level lg) (_dest_dir lg) (_autosplit_day lg) (_autosplit_hour lg) (_levels lg) v (unqueued lg).
Definition leak lg := MkLog (_stop lg) (_level lg) (_dest_dir lg) (_autosplit_day lg) (_autosplit_hour lg) (_levels lg) (_logQueue lg) (S (unqueued lg)).

(** ** The text of a message *)

(** [sTime], which the message sets to the present time, in milliseconds. *)
Definition pad3 (z : Z) : list Z := replicate (3 - length (dec z)) 48 ++ dec z.
(** The prefix the constructor writes. *)
Definition message_prefix (level : Z) (file : list Z) (line ms : Z) : outcome (list Z) :=
  time ← timestamp 64 (ms / 1000) (Some (str "[%02H:%02M:%02S")) (ms / 1000);
  short ← (if level =? LEVEL_TRACE then Ret [] else s ← levelshort_string level; Ret (str "<" ++ s ++ str "> "));
  Ret (time ++ str "|" ++ pad3 (ms mod 1000) ++ str "] " ++ short ++
       (if (level =? LEVEL_ERROR) || (level =? LEVEL_PANIC) then str "(" ++ file ++ str ":" ++ dec_int line ++ str ") " else [])).
(** [cout]: the formatted text as far as the buffer goes. *)
Definition cout_text (formatted : list Z) : list Z := take (Z.to_nat 65535) (c_str formatted).
(** [flush], from the destructor; the buffer holds at least the prefix. *)
Definition message_text (level : Z) (file : list Z) (line ms : Z) (body : list Z) : outcome (list Z) :=
  prefix ← message_prefix level file line ms; Ret (prefix ++ body ++ [10]).

Example message_ex : message_text LEVEL_ERROR (str "a.cpp") 7 1535794205042 (str "lost")
  = Ret (str "[17:30:05|042] <ERR> (a.cpp:7) lost" ++ [10]).
Proof. vm_compute. reflexivity. Qed.

(** ** Writing *)

(** What has been written: the console and the files. *)
Record output := MkOutput { console : list Z; disk : gmap (list Z) (list Z) }.

Section Easylog.
(** Whether the system opens a file for appending. *)
Context (opens : list Z → bool).

Definition ESC : Z := 27.
Definition console_text (n : LevelNode) (s : list Z) : list Z :=
  if to_stdout n then
    if negb (n_color n =? GREY) then
      [ESC] ++ str "[" ++ dec_int (if LRED <=? n_color n then n_color n - 10 else n_color n) ++
      (if LRED <=? n_color n then str ";1" else []) ++ str "m" ++ take (length s - 1) s ++ [ESC] ++ str "[0m" ++ [10]
    else s
  else [].
Definition send_to_stdout (n : LevelNode) (s : list Z) (o : output) : output :=
  MkOutput (console o ++ console_text n s) (disk o).

(** [now] is the system's time in seconds. *)
Definition full_filename (lg : Easylog) (filename : list Z) (now : Z) : outcome (list Z) :=
  let fullname := _dest_dir lg ++ str "/" ++ filename in
  if _autosplit_hour lg then t ← timestamp 64 0 (Some (str ".%Y-%02m-%02d.%02H")) now; Ret (fullname ++ t)
  else if _autosplit_day lg then t ← timestamp 64 0 (Some (str ".%Y-%02m-%02d")) now; Ret (fullname ++ t)
  else Ret fullname.
Definition openfile (lg : Easylog) (now : Z) (n : LevelNode) : outcome LevelNode :=
  name ← full_filename lg (filename n) now;
  Ret (MkNode (n_level n) (n_color n) (to_stdout n) (filename n) name (Some (opens name)) now).
(** [nowtime] is the time of [sTime]. *)
Definition autosplit_file (lg : Easylog) (nowtime now : Z) (n : LevelNode) : outcome LevelNode :=
  let tm_nowtime := gmtime_r nowtime in
  let tm_launchtime := gmtime_r (fs_launchtime n) in
  if (_autosplit_day lg && negb (tm_mday tm_nowtime =? tm_mday tm_launchtime)) ||
     (_autosplit_hour lg && negb (tm_hour tm_nowtime =? tm_hour tm_launchtime))
  then openfile lg now n else Ret n.
Definition append (f s : list Z) (o : output) : output :=
  MkOutput (console o) (<[f := default [] (disk o !! f) ++ s]> (disk o)).
Definition send_to_file (lg : Easylog) (nowtime now : Z) (n : LevelNode) (s : list Z) (o : output) : outcome (LevelNode * output) :=
  match fs n with
  | None => Ret (n, o)
  | Some _ =>
      n ← autosplit_file lg nowtime now n;
      Ret (n, if decide (fs n = Some true) then append (fullname n) s o else o)
  end.
(** A log node sent to the console and to its file. *)
Definition send_node (m : Z * list Z) (nowtime now : Z) (lg : Easylog) (o : output) : outcome (Easylog * output) :=
  let n := default zero_node (_levels lg !! fst m) in
  '(n, o) ← send_to_file lg nowtime now n (snd m) (send_to_stdout n (snd m) o);
  Ret (set_levels (<[fst m := n]> (_levels lg)) lg, o).

(** ** Settings *)

Inductive setting :=
| SetLevel (level : Z) | SetColor (level color : Z) | SetTostdout (level : Z) (enable : bool)
| SetTofile (level : Z) (name : list Z) | SetAutosplitDay (value : bool) | SetAutosplitHour (value : bool)
| SetDestination (realdir : option (list Z))       (* the directory, when it is there and can be written *)
| CurrentLogFilename (level : Z) | Color (level : Z).
(** The loops over [_levels]. *)
Definition for_level (level : Z) (f : LevelNode → LevelNode) (lg : Easylog) : Easylog :=
  set_levels ((λ n, if (n_level n =? level) || (level =? GLOBAL) then f n else n) <$> _levels lg) lg.
Definition open_new (lg : Easylog) (now : Z) (n : LevelNode) : outcome LevelNode :=
  match filename n, fs n with _ :: _, None => openfile lg now n | _, _ => Ret n end.
Fixpoint open_levels (l : list (Z * LevelNode)) (now : Z) (lg : Easylog) : outcome Easylog :=
  match l with
  | [] => Ret lg
  | (k, n) :: l => n ← open_new lg now n; open_levels l now (set_levels (<[k := n]> (_levels lg)) lg)
  end.
Definition change (s : setting) (now : Z) (lg : Easylog) : outcome Easylog :=
  match s with
  | SetLevel level => Ret (MkLog (_stop lg) level (_dest_dir lg) (_autosplit_day lg) (_autosplit_hour lg) (_levels lg) (_logQueue lg) (unqueued lg))
  | SetColor level color =>
      Ret (for_level level (λ n, MkNode (n_level n) color (to_stdout n) (filename n) (fullname n) (fs n) (fs_launchtime n)) lg)
  | SetTostdout level enable =>
      Ret (for_level level (λ n, MkNode (n_level n) (n_color n) enable (filename n) (fullname n) (fs n) (fs_launchtime n)) lg)
  | SetTofile level name =>
      let lg := for_level level (λ n, MkNode (n_level n) (n_color n) (to_stdout n) name (fullname n) (fs n) (fs_launchtime n)) lg in
      open_levels (map_to_list (_levels lg)) now lg
  | SetAutosplitDay v => Ret (MkLog (_stop lg) (_level lg) (_dest_dir lg) v (_autosplit_hour lg) (_levels lg) (_logQueue lg) (unqueued lg))
  | SetAutosplitHour v => Ret (MkLog (_stop lg) (_level lg) (_dest_dir lg) (_autosplit_day lg) v (_levels lg) (_logQueue lg) (unqueued lg))
  | SetDestination None => Ret lg
  | SetDestination (Some d) => Ret (MkLog (_stop lg) (_level lg) d (_autosplit_day lg) (_autosplit_hour lg) (_levels lg) (_logQueue lg) (unqueued lg))
  | CurrentLogFilename level | Color level => Ret (set_levels (<[level := default zero_node (_levels lg !! level)]> (_levels lg)) lg)
  end.

(** ** The threads *)

(** [logProcess]: at the look at the queue, with a node, at the test of [_stop] after an
    empty look, before and in the wait for the condition, at the end. *)
Inductive place := Looking | Sending (m : Z * list Z) | Emptied | Parking | Waiting | Exited.
(** A thread inside [log_message] or [stop]: with a message, before the test of [_stop], before the
    comparison with [_level] and the look for the node, before [push_back], and before [notify_all]
    (then, when it was a panic, on to [stop]); before [_stop] is set, before its [notify_all], in
    [join]. *)
Inductive caller :=
| Testing (m : Z * list Z) | Comparing (m : Z * list Z) | Queueing (m : Z * list Z) | Notifying (panic : bool)
| Stopping (panic : bool) | StopNotifying (panic : bool) | Joining (panic : bool).
Record system := MkSystem {
  easylog : Easylog;
  logthread : place;
  callers : list caller;
  sTime : Z;                              (* milliseconds *)
  out : output;
  accepted : list (Z * list Z);           (* what was queued, and what was written; for the theorems *)
  written : list (Z * list Z)
}.
Definition new_system (cwd : list Z) : system := MkSystem (new_Easylog cwd) Looking [] 0 (MkOutput [] ∅) [] [].

(** The constructor of an [EasylogMessage], and its destructor up to the call of [log_message]. *)
Definition message (level : Z) (file : list Z) (line ms : Z) (body : list Z) (st : system) : outcome system :=
  text ← message_text level file line ms body;
  Ret (MkSystem (easylog st) (logthread st) (callers st ++ [Testing (level, text)]) ms (out st) (accepted st) (written st)).

Definition set_thread p st := MkSystem (easylog st) p (callers st) (sTime st) (out st) (accepted st) (written st).
Definition set_log lg st := MkSystem lg (logthread st) (callers st) (sTime st) (out st) (accepted st) (written st).
Definition set_callers c st := MkSystem (easylog st) (logthread st) c (sTime st) (out st) (accepted st) (written st).
(** [notify_all] *)
Definition notify (st : system) : system := match logthread st with Waiting => set_thread Looking st | _ => st end.
(** One step of a thread in [stop]; [None] when it is done.  A panic aborts the program after it. *)
Definition stop_step (c : caller) (st : system) : outcome (option caller * system) :=
  match c with
  | Stopping panic => Ret (Some (StopNotifying panic), set_log (set_stop (easylog st)) st)
  | StopNotifying panic => Ret (Some (Joining panic), notify st)
  | Joining panic =>
      match logthread st with
      | Exited => if panic then Aborted else Ret (None, st)
      | _ => Ret (Some c, st)
      end
  | _ => Ret (Some c, st)
  end.
(** One step of a thread in [log_message], or in [stop]. *)
Definition caller_step (c : caller) (st : system) : outcome (option caller * system) :=
  match c with
  | Testing m => Ret (if _stop (easylog st) then (None, set_log (leak (easylog st)) st) else (Some (Comparing m), st))
  | Comparing m =>
      let lg := easylog st in
      Ret (if _level lg <=? fst m
           then (Some (Queueing m), set_log (set_levels (<[fst m := default zero_node (_levels lg !! fst m)]> (_levels lg)) lg) st)
           else (None, set_log (leak lg) st))
  | Queueing m =>
      Ret (Some (Notifying (fst m =? LEVEL_PANIC)), MkSystem (set_queue (_logQueue (easylog st) ++ [m]) (easylog st)) (logthread st)
             (callers st) (sTime st) (out st) (accepted st ++ [m]) (written st))
  | Notifying panic => Ret (if panic then Some (Stopping true) else None, notify st)
  | _ => stop_step c st
  end.
(** One step of [logProcess]; [now] is the system's time. *)
Definition logProcess_step (now : Z) (st : system) : outcome system :=
  match logthread st with
  | Looking =>
      match _logQueue (easylog st) with
      | [] => Ret (set_thread Emptied st)
      | m :: q => Ret (set_thread (Sending m) (set_log (set_queue q (easylog st)) st))
      end
  | Sending m =>
      '(lg, o) ← send_node m (sTime st / 1000) now (easylog st) (out st);
      Ret (MkSystem lg Looking (callers st) (sTime st) o (accepted st) (written st ++ [m]))
  | Emptied => Ret (set_thread (if _stop (easylog st) then Exited else Parking) st)
  | Parking => Ret (set_thread Waiting st)
  | Waiting | Exited => Ret st
  end.

Inductive event :=
| Message (level : Z) (file : list Z) (line ms : Z) (body : list Z)
| Caller (i : nat)
| Stop
| Change (s : setting) (now : Z)
| LogThread (now : Z)
| Spurious.                               (* the wait of the log's thread ends by itself *)
Definition step (ev : event) (st : system) : outcome system :=
  match ev with
  | Message level file line ms body => message level file line ms body st
  | Caller i =>
      match callers st !! i with
      | None => Ret st
      | Some c =>
          '(c, st) ← caller_step c st;
          Ret (set_callers (take i (callers st) ++ option_list c ++ drop (S i) (callers st)) st)
      end
  | Stop => Ret (set_callers (callers st ++ [Stopping false]) st)
  | Change s now => lg ← change s now (easylog st); Ret (set_log lg st)
  | LogThread now => logProcess_step now st
  | Spurious => Ret (notify st)
  end.
Fixpoint run (evs : list event) (st : system) : outcome system :=
  match evs with
  | [] => Ret st
  | ev :: evs => st ← step ev st; run evs st
  end.
End Easylog.

(** ** What is logged is written, once and in order *)

Section Written.
Context (opens : list Z → bool).
Implicit Types (lg : Easylog) (st : system).

Definition in_hand st : list (Z * list Z) := match logthread st with Sending m => [m] | _ => [] end.
Definition ledger st : Prop := accepted st = written st ++ in_hand st ++ _logQueue (easylog st).

Lemma open_levels_kept l now : ∀ lg lg', open_levels opens l now lg = Ret lg' →
  _logQueue lg' = _logQueue lg ∧ _stop lg' = _stop lg.
Proof.
  induction l as [|[k n] l IH]; intros lg lg'; cbn [open_levels]; [by intros [= <-]|].
  intros (n' & _ & E)%bind_Ret. by apply IH in E.
Qed.

Lemma change_kept s now lg lg' : change opens s now lg = Ret lg' → _logQueue lg' = _logQueue lg ∧ _stop lg' = _stop lg.
Proof.
  destruct s as [| | | | | |[d|]| |]; cbn [change]; try (by intros [= <-]). intros E. by apply open_levels_kept in E.
Qed.

Lemma send_node_queue m nowtime now lg o lg' o' : send_node opens m nowtime now lg o = Ret (lg', o') → _logQueue lg' = _logQueue lg.
Proof. unfold send_node. by intros ([n o1] & _ & [= <- _])%bind_Ret. Qed.

Lemma notify_ledger st : ledger st → ledger (notify st).
Proof. unfold notify, ledger, in_hand. by destruct (logthread st) eqn:E; rewrite ?E. Qed.

Lemma caller_step_ledger c st c' st' : caller_step c st = Ret (c', st') → ledger st → ledger st'.
Proof.
  destruct c as [m|m|m|p|p|p|p]; cbn [caller_step stop_step].
  - by destruct (_stop (easylog st)); intros [= _ <-].
  - by destruct (_level (easylog st) <=? fst m); intros [= _ <-].
  - intros [= _ <-]. unfold ledger, in_hand. cbn. intros ->. by list_norm.
  - intros [= _ <-]. apply notify_ledger.
  - by intros [= _ <-].
  - intros [= _ <-]. apply notify_ledger.
  - destruct (logthread st); [by intros [= _ <-]..|]. destruct p; [done|by intros [= _ <-]].
Qed.

Lemma logProcess_ledger now st st' : logProcess_step opens now st = Ret st' → ledger st → ledger st'.
Proof.
  unfold logProcess_step, ledger, in_hand. destruct (logthread st) as [|m| | | |] eqn:Ep.
  - destruct (_logQueue (easylog st)) as [|m q] eqn:Eq; intros [= <-]; cbn; rewrite ?Eq; done.
  - intros ([lg o] & E%send_node_queue & [= <-])%bind_Ret. cbn. rewrite E. by rewrite <-app_assoc.
  - intros [= <-]. cbn. by destruct (_stop (easylog st)).
  - by intros [= <-].
  - intros [= <-]. by rewrite Ep.
  - intros [= <-]. by rewrite Ep.
Qed.

Lemma step_ledger ev st st' : step opens ev st = Ret st' → ledger st → ledger st'.
Proof.
  destruct ev as [level file line ms body|i| |s now|now|]; cbn [step].
  - unfold message. by intros (text & _ & [= <-])%bind_Ret.
  - destruct (callers st !! i); [|by intros [= <-]]. intros ([c' st1] & E & [= <-])%bind_Ret Hl.
    by apply (caller_step_ledger _ _ _ _ E) in Hl.
  - by intros [= <-].
  - intros (lg & [E _]%change_kept & [= <-])%bind_Ret. unfold ledger, in_hand. cbn. by rewrite E.
  - apply logProcess_ledger.
  - intros [= <-]. apply notify_ledger.
Qed.

Lemma run_ledger evs : ∀ st st', run opens evs st = Ret st' → ledger st → ledger st'.
Proof.
  induction evs as [|ev evs IH]; intros st st'; cbn [run]; [by intros [= <-]|].
  intros (st1 & E1 & E)%bind_Ret Hl. eapply IH; [done|]. by eapply step_ledger.
Qed.

(** *** With fixed settings *)

Definition no_change (ev : event) : Prop := match ev with Change _ _ => False | _ => True end.
Definition never_splits lg : Prop := _autosplit_day lg = false ∧ _autosplit_hour lg = false.
Definition node lg (k : Z) : LevelNode := default zero_node (_levels lg !! k).
Definition file_text lg (f : list Z) (m : Z * list Z) : list Z :=
  if decide (fs (node lg (fst m)) = Some true ∧ fullname (node lg (fst m)) = f) then snd m else [].
(** The settings of [lg0] hold, and the output is that of the messages written since. *)
Record same_settings lg0 lg : Prop := {
  ss_splits : never_splits lg;
  ss_level : _level lg = _level lg0;
  ss_node k : node lg k = node lg0 k
}.
Definition outputs lg0 (o0 o : output) (ws : list (Z * list Z)) : Prop :=
  console o = console o0 ++ concat (map (λ m, console_text (node lg0 (fst m)) (snd m)) ws) ∧
  ∀ f, default [] (disk o !! f) = default [] (disk o0 !! f) ++ concat (map (file_text lg0 f) ws).

Lemma node_insert lg k k' : node (set_levels (<[k := node lg k]> (_levels lg)) lg) k' = node lg k'.
Proof.
  unfold node at 1. cbn. destruct (decide (k = k')) as [->|Hne]; [by rewrite lookup_insert_eq|by rewrite lookup_insert_ne].
Qed.

Lemma send_node_fixed lg0 m nowtime now lg o0 o ws : same_settings lg0 lg → outputs lg0 o0 o ws → ∃ lg' o',
  send_node opens m nowtime now lg o = Ret (lg', o') ∧ same_settings lg0 lg' ∧ outputs lg0 o0 o' (ws ++ [m]) ∧ _stop lg' = _stop lg.
Proof.
  intros [[Sd Sh] Sl Sn] [Oc Od]. unfold send_node. fold (node lg (fst m)). set (n := node lg (fst m)).
  assert (send_to_file opens lg nowtime now n (snd m) (send_to_stdout n (snd m) o) =
    Ret (n, if decide (fs n = Some true) then append (fullname n) (snd m) (send_to_stdout n (snd m) o) else send_to_stdout n (snd m) o)) as ->.
  { unfold send_to_file, autosplit_file. rewrite Sd, Sh. cbn. destruct (fs n) eqn:Ef; [done|]. by rewrite decide_False by done. }
  cbn [mbind outcome_bind]. eexists _, _. split; [done|]. split; [|split; [|done]].
  - split; [done|done|]. intros k. rewrite <-Sn. apply node_insert.
  - assert (∀ A (f : Z * list Z → list A), concat (map f (ws ++ [m])) = concat (map f ws) ++ f m) as Hsnoc
      by (intros; by rewrite map_app, concat_app; cbn; rewrite app_nil_r).
    unfold outputs. rewrite Hsnoc. setoid_rewrite Hsnoc. unfold file_text, n. rewrite Sn. split.
    + destruct (decide _); cbn; rewrite Oc; by list_norm.
    + intros f. rewrite app_assoc. unfold file_text in Od. rewrite <-Od. set (n0 := node lg0 (fst m)).
      destruct (decide (fs n0 = Some true)) as [Hf|Hf].
      * cbn. destruct (decide (fullname n0 = f)) as [<-|Hne].
        { by rewrite lookup_insert_eq, decide_True. }
        rewrite lookup_insert_ne by done. rewrite decide_False by (by intros [_ ?]). by rewrite app_nil_r.
      * rewrite decide_False by (by intros [? _]). by rewrite app_nil_r.
Qed.

Definition fixed lg0 o0 (w0 : list (Z * list Z)) st : Prop :=
  same_settings lg0 (easylog st) ∧ ∃ ws, written st = w0 ++ ws ∧ outputs lg0 o0 (out st) ws.

Lemma same_settings_eq lg0 lg lg' : same_settings lg0 lg → _autosplit_day lg' = _autosplit_day lg →
  _autosplit_hour lg' = _autosplit_hour lg → _level lg' = _level lg → (∀ k, node lg' k = node lg k) → same_settings lg0 lg'.
Proof. intros [[H1 H2] H3 H4] E1 E2 E3 E4. split; [split; congruence|congruence|]. intros k. by rewrite E4. Qed.

Lemma caller_step_fixed lg0 o0 w0 c st c' st' : caller_step c st = Ret (c', st') → fixed lg0 o0 w0 st → fixed lg0 o0 w0 st'.
Proof.
  assert (fixed lg0 o0 w0 st → fixed lg0 o0 w0 (notify st)) as Hn by (unfold notify, fixed; by destruct (logthread st)).
  destruct c as [m|m|m|p|p|p|p]; cbn [caller_step stop_step].
  - destruct (_stop (easylog st)); intros [= _ <-] [Hs Hw]; (split; [|done]); [by eapply same_settings_eq|done].
  - destruct (_level (easylog st) <=? fst m); intros [= _ <-] [Hs Hw]; (split; [|done]); eapply same_settings_eq; try done.
    intros k. apply node_insert.
  - intros [= _ <-] [Hs Hw]. split; [|done]. by eapply same_settings_eq.
  - by intros [= _ <-].
  - intros [= _ <-] [Hs Hw]. split; [|done]. by eapply same_settings_eq.
  - by intros [= _ <-].
  - destruct (logthread st); [by intros [= _ <-]..|]. destruct p; [done|by intros [= _ <-]].
Qed.

Lemma logProcess_fixed lg0 o0 w0 now st : fixed lg0 o0 w0 st →
  ∃ st', logProcess_step opens now st = Ret st' ∧ fixed lg0 o0 w0 st' ∧ _stop (easylog st') = _stop (easylog st) ∧ accepted st' = accepted st ∧
    callers st' = callers st.
Proof.
  intros [Hs (ws & Hw & Ho)]. unfold logProcess_step. destruct (logthread st) as [|m| | | |].
  3-6: eexists; (split_and!; [done| |done|done|done]); (split; [done|by exists ws]).
  - destruct (_logQueue (easylog st)) as [|m q]; eexists; (split_and!; [done| |done|done|done]); (split; [|by exists ws]); [done|by eapply same_settings_eq].
  - destruct (send_node_fixed lg0 m (sTime st / 1000) now (easylog st) o0 (out st) ws Hs Ho) as (lg' & o' & -> & Hs' & Ho' & Hst).
    cbn [mbind outcome_bind]. eexists. split_and!; [done| |done|done|done]. split; [done|]. exists (ws ++ [m]). cbn. by rewrite Hw, <-app_assoc.
Qed.

Lemma step_fixed lg0 o0 w0 ev st st' : step opens ev st = Ret st' → no_change ev → fixed lg0 o0 w0 st → fixed lg0 o0 w0 st'.
Proof.
  destruct ev as [level file line ms body|i| |s now|now|]; cbn [step no_change]; intros E Hn Hf; [..|done| |].
  - unfold message in E. by apply bind_Ret in E as (text & _ & [= <-]).
  - destruct (callers st !! i) as [c|]; [|by injection E as <-].
    apply bind_Ret in E as ([c' st1] & E & [= <-]). by apply (caller_step_fixed _ _ _ _ _ _ _ E) in Hf.
  - by injection E as <-.
  - destruct (logProcess_fixed lg0 o0 w0 now st Hf) as (st1 & E1 & Hf1 & _). congruence.
  - injection E as <-. unfold notify. by destruct (logthread st).
Qed.

Lemma run_fixed lg0 o0 w0 evs : ∀ st st', run opens evs st = Ret st' → Forall no_change evs → fixed lg0 o0 w0 st → fixed lg0 o0 w0 st'.
Proof.
  induction evs as [|ev evs IH]; intros st st'; cbn [run]; [by intros [= <-]|].
  intros (st1 & E1 & E)%bind_Ret [Hn Hns]%Forall_cons Hf. eapply IH; [done|done|]. by eapply step_fixed.
Qed.

(** The messages of a schedule that are loud enough, and those a thread is about to queue. *)
Definition heard_one (lv : Z) (ev : event) : option (Z * list Z) :=
  match ev with
  | Message level file line ms body =>
      if lv <=? level then match message_text level file line ms body with Ret text => Some (level, text) | _ => None end else None
  | _ => None
  end.
Definition about_to (lv : Z) (c : caller) : option (Z * list Z) :=
  match c with
  | Testing m | Comparing m => if lv <=? fst m then Some m else None
  | Queueing m => Some m
  | _ => None
  end.
Definition pending (lv : Z) st : list (Z * list Z) := omap (about_to lv) (callers st).

Lemma omap_cons {A B} (f : A → option B) x l : omap f (x :: l) = option_list (f x) ++ omap f l.
Proof. cbn. by destruct (f x). Qed.

(** What one step of a thread queues and is still about to queue is what it was about to queue. *)
Lemma caller_step_heard c st c' st' : caller_step c st = Ret (c', st') → _stop (easylog st') = false →
  _stop (easylog st) = false ∧ callers st' = callers st ∧ _level (easylog st') = _level (easylog st) ∧
  ∃ new, accepted st' = accepted st ++ new ∧
    option_list (about_to (_level (easylog st)) c) = new ++ omap (about_to (_level (easylog st))) (option_list c').
Proof.
  destruct c as [m|m|m|p|p|p|p]; cbn [caller_step stop_step about_to].
  - destruct (_stop (easylog st)) eqn:Es; intros [= <- <-] Hs; cbn in *; [congruence|].
    split_and!; [done..|]. exists []. rewrite app_nil_r. split; [done|]. by destruct (_ <=? _).
  - destruct (_level (easylog st) <=? fst m) eqn:El; intros [= <- <-] Hs; cbn in *; (split_and!; [done..|]); exists []; by rewrite app_nil_r.
  - intros [= <- <-] Hs. cbn in *. split_and!; [done..|]. by exists [m].
  - intros [= <- <-] Hs. assert (easylog (notify st) = easylog st ∧ callers (notify st) = callers st ∧ accepted (notify st) = accepted st) as (-> & -> & ->)
      by (unfold notify; by destruct (logthread st)). split_and!; [by unfold notify in Hs; destruct (logthread st)|done..|].
    exists []. rewrite app_nil_r. by destruct p.
  - intros [= <- <-] Hs. done.
  - intros [= <- <-] Hs. assert (easylog (notify st) = easylog st ∧ callers (notify st) = callers st ∧ accepted (notify st) = accepted st) as (-> & -> & ->)
      by (unfold notify; by destruct (logthread st)). split_and!; [by unfold notify in Hs; destruct (logthread st)|done..|].
    exists []. by rewrite app_nil_r.
  - intros E Hs. assert (st' = st ∧ option_list (about_to (_level (easylog st)) (Joining p)) = omap (about_to (_level (easylog st))) (option_list c')) as [-> Ho]
      by (by destruct (logthread st), p; simplify_eq/=).
    split_and!; [done..|]. exists []. by rewrite app_nil_r.
Qed.

Lemma step_heard ev st st' : step opens ev st = Ret st' → no_change ev → _stop (easylog st') = false →
  never_splits (easylog st) → let lv := _level (easylog st) in
  _stop (easylog st) = false ∧ _level (easylog st') = lv ∧
  ∃ new, accepted st' = accepted st ++ new ∧ new ++ pending lv st' ≡ₚ pending lv st ++ option_list (heard_one lv ev).
Proof.
  intros E Hn Hst Hsp lv. destruct ev as [level file line ms body|i| |s now|now|]; cbn [step no_change heard_one option_list] in *; [..|done| |].
  - unfold message in E. apply bind_Ret in E as (text & -> & [= <-]). cbn in *. split_and!; [done..|]. exists []. rewrite app_nil_r. split; [done|].
    unfold pending. cbn [callers]. rewrite omap_app. cbn. by destruct (lv <=? level).
  - rewrite app_nil_r. destruct (callers st !! i) as [c|] eqn:Ei.
    + apply bind_Ret in E as ([c' st1] & E & [= <-]). cbn [easylog set_callers accepted] in *.
      destruct (caller_step_heard _ _ _ _ E Hst) as (Hs & Hc & Hl & new & Ha & Ho). split_and!; [done..|]. exists new. split; [done|].
      unfold pending. cbn [callers set_callers]. rewrite Hc, !omap_app. fold lv in Ho.
      assert (omap (about_to lv) (callers st) = omap (about_to lv) (take i (callers st)) ++ option_list (about_to lv c) ++ omap (about_to lv) (drop (S i) (callers st))) as ->.
      { rewrite <- (take_drop_middle _ _ _ Ei) at 1. by rewrite omap_app, omap_cons. }
      rewrite Ho. solve_Permutation.
    + injection E as <-. split_and!; [done..|]. exists []. by rewrite app_nil_r.
  - injection E as <-. split_and!; [done..|]. exists []. rewrite !app_nil_r. split; [done|]. unfold pending. cbn [callers set_callers].
    rewrite omap_app. cbn. by rewrite app_nil_r.
  - rewrite app_nil_r. assert (fixed (easylog st) (out st) (written st) st) as Hf.
    { split; [done|]. exists []. rewrite app_nil_r. split; [done|]. split; [by rewrite app_nil_r|]. intros f. by rewrite app_nil_r. }
    destruct (logProcess_fixed _ _ _ now st Hf) as (st1 & E1 & [[_ Hl _] _] & Hs1 & Ha1 & Hc1).
    assert (st1 = st') as -> by congruence. rewrite Hs1 in Hst. split_and!; [done..|]. exists []. rewrite app_nil_r. split; [done|].
    unfold pending. by rewrite Hc1.
  - injection E as <-. rewrite app_nil_r.
    assert (easylog (notify st) = easylog st ∧ callers (notify st) = callers st ∧ accepted (notify st) = accepted st) as (E1 & E2 & E3)
      by (unfold notify; by destruct (logthread st)).
    rewrite E1 in Hst |- *. rewrite E3. split_and!; [done..|]. exists []. rewrite app_nil_r. split; [done|]. unfold pending. by rewrite E2.
Qed.

Lemma run_heard lg0 o0 w0 evs : ∀ st st', run opens evs st = Ret st' → Forall no_change evs → fixed lg0 o0 w0 st →
  _stop (easylog st') = false →
  _stop (easylog st) = false ∧ ∃ new, accepted st' = accepted st ++ new ∧
    new ++ pending (_level lg0) st' ≡ₚ pending (_level lg0) st ++ omap (heard_one (_level lg0)) evs.
Proof.
  induction evs as [|ev evs IH]; intros st st'; cbn [run].
  { intros [= <-] _ _ Hs. split; [done|]. exists []. cbn. by rewrite !app_nil_r. }
  intros (st1 & E1 & E)%bind_Ret [Hn Hns]%Forall_cons Hf Hs. pose proof (step_fixed _ _ _ _ _ _ E1 Hn Hf) as Hf1.
  destruct (IH _ _ E Hns Hf1 Hs) as (Hs1 & new & Ha & Hp). destruct Hf as [[Hsp Hl _] _].
  destruct (step_heard _ _ _ E1 Hn Hs1 Hsp) as (Hs0 & _ & new1 & Ha1 & Hp1). rewrite Hl in Hp1. split; [done|].
  exists (new1 ++ new). split; [by rewrite Ha, Ha1, <-app_assoc|]. rewrite <-app_assoc, Hp.
  rewrite app_assoc, Hp1, <-app_assoc. apply Permutation_app_head. rewrite omap_cons. by destruct (heard_one (_level lg0) ev).
Qed.

Lemma drain lg0 o0 w0 now : ∀ n st, fixed lg0 o0 w0 st → logthread st = Looking → length (_logQueue (easylog st)) = n →
  ∃ st', run opens (replicate (2 * n) (LogThread now)) st = Ret st' ∧ logthread st' = Looking ∧
    _logQueue (easylog st') = [] ∧ accepted st' = accepted st.
Proof.
  induction n as [|n IH]; intros st Hf Hp Hn; [exists st; split_and!; [done|done|by destruct (_logQueue _)|done]|].
  replace (2 * S n)%nat with (S (S (2 * n))) by lia. cbn [replicate run step].
  destruct (logProcess_fixed lg0 o0 w0 now st Hf) as (st1 & E1 & Hf1 & _ & Ha1 & _). rewrite E1. cbn [mbind outcome_bind].
  destruct (logProcess_fixed lg0 o0 w0 now st1 Hf1) as (st2 & E2 & Hf2 & _ & Ha2 & _). rewrite E2. cbn [mbind outcome_bind].
  unfold logProcess_step in E1. rewrite Hp in E1. destruct (_logQueue (easylog st)) as [|m q] eqn:Eq; [done|].
  injection E1 as <-. unfold logProcess_step in E2. cbn [set_thread logthread] in E2.
  apply bind_Ret in E2 as ([lg o] & E2%send_node_queue & [= <-]).
  destruct (IH _ Hf2) as (st' & E' & Hp' & Hq' & Ha'); [done|cbn; rewrite E2; simpl in *; lia|].
  exists st'. split_and!; [done..|]. by rewrite Ha'.
Qed.
End Written.

(** C22 (invariant): the log loses nothing while it runs and its settings stay as they are, with files
    that are not split ([no_change], [never_splits]).  Whatever threads log and however their steps
    interleave with those of the log's thread: what was queued is what was written, then what is in
    hand, then what is queued, in this order; while nothing has stopped the log, what was queued, and
    what threads are about to queue, are the messages of the level and above, and no others; the
    console and every file have grown by exactly the texts of the messages written whose levels go
    there; and a thread that looks at the queue writes all of it in two steps per message. *)
Theorem log_writes opens evs st0 st : ledger st0 → never_splits (easylog st0) → Forall no_change evs →
  run opens evs st0 = Ret st →
  accepted st = written st ++ in_hand st ++ _logQueue (easylog st) ∧
  (_stop (easylog st) = false → let lv := _level (easylog st0) in
     ∃ new, accepted st = accepted st0 ++ new ∧ new ++ pending lv st ≡ₚ pending lv st0 ++ omap (heard_one lv) evs) ∧
  (∃ ws, written st = written st0 ++ ws ∧ outputs (easylog st0) (out st0) (out st) ws) ∧
  (∀ now, logthread st = Looking → ∃ st',
    run opens (replicate (2 * length (_logQueue (easylog st))) (LogThread now)) st = Ret st' ∧ written st' = accepted st).
Proof.
  intros Hl Hsp Hn E. assert (fixed (easylog st0) (out st0) (written st0) st0) as Hf0.
  { split; [done|]. exists []. split; [by rewrite app_nil_r|]. split; [by rewrite app_nil_r|]. intros f. by rewrite app_nil_r. }
  pose proof (run_fixed _ _ _ _ _ _ _ E Hn Hf0) as Hf. split_and!.
  - by eapply run_ledger.
  - intros Hs. by destruct (run_heard _ _ _ _ _ _ _ E Hn Hf0 Hs) as [_ Ha].
  - apply Hf.
  - intros now Hp. destruct (drain opens _ _ _ now _ st Hf Hp eq_refl) as (st' & E' & Hp' & Hq & Ha). exists st'. split; [done|].
    pose proof (run_ledger _ _ _ _ E' (run_ledger _ _ _ _ E Hl)) as Hl'. unfold ledger, in_hand in Hl'.
    rewrite Hp', Hq, !app_nil_r in Hl'. congruence.
Qed.

(** ** What [stop] can lose *)

Section Lost.
Context (opens : list Z → bool).

(** Between the look at the queue and the test of [_stop], and between that and the wait. *)
Definition lose_message (level : Z) file line ms body : list event :=
  [LogThread 0; Message level file line ms body; Caller 0; Caller 0; Caller 0; Caller 0].
Definition stop_now : list event := [Caller 0; LogThread 0; Caller 0].
Definition miss_stop : list event := [LogThread 0; LogThread 0; Stop; Caller 0; Caller 0; LogThread 0].
Definition miss_message file line ms body : list event :=
  [LogThread 0; LogThread 0; Message LEVEL_ERROR file line ms body; Caller 0; Caller 0; Caller 0; Caller 0; LogThread 0].

(** The thread waits, and nobody is about to wake it: the others wait for it to end, or have come with
    a message after the log was stopped. *)
Definition asleep st : Prop := logthread st = Waiting ∧
  Forall (λ c, match c with Joining _ => True | Testing _ => _stop (easylog st) = true | _ => False end) (callers st).
(** Nothing that wakes it: another [stop], a message while the log is not stopped, or the wait itself. *)
Definition wakes (stopped : bool) (ev : event) : bool :=
  match ev with Stop | Spurious => true | Message _ _ _ _ _ => negb stopped | _ => false end.

Lemma run_cons ev evs st st1 : step opens ev st = Ret st1 → run opens (ev :: evs) st = run opens evs st1.
Proof. cbn [run]. by intros ->. Qed.

(** A message logged in one go by the only thread that logs. *)
Definition logged (level ms : Z) (text : list Z) st : system :=
  let lg := easylog st in
  MkSystem (set_queue (_logQueue lg ++ [(level, text)]) (set_levels (<[level := default zero_node (_levels lg !! level)]> (_levels lg)) lg))
    (logthread st) [Notifying (level =? LEVEL_PANIC)] ms (out st) (accepted st ++ [(level, text)]) (written st).

Lemma log_one evs level file line ms body text st : message_text level file line ms body = Ret text → callers st = [] →
  _stop (easylog st) = false → _level (easylog st) ≤ level →
  run opens (Message level file line ms body :: Caller 0 :: Caller 0 :: Caller 0 :: evs) st = run opens evs (logged level ms text st).
Proof.
  destruct st as [lg p cs clk o acc wr]. cbn [easylog callers]. intros E -> Hs Hl%Z.leb_le.
  erewrite run_cons by (cbn [step]; unfold message; rewrite E; reflexivity).
  erewrite run_cons by (cbn; rewrite Hs; reflexivity). erewrite run_cons by (cbn; rewrite Hl; reflexivity).
  by erewrite run_cons by reflexivity.
Qed.

Lemma asleep_step ev st st' : asleep st → step opens ev st = Ret st' → wakes (_stop (easylog st)) ev = false →
  asleep st' ∧ _stop (easylog st') = _stop (easylog st) ∧ written st' = written st ∧
  (∀ p, head (callers st) = Some (Joining p) → head (callers st') = Some (Joining p)).
Proof.
  intros [Hw Hc] E Hev. unfold asleep. destruct ev as [level file line ms body|i| |s now|now|]; cbn [step wakes] in *; [| |done| | |done].
  - unfold message in E. apply bind_Ret in E as (text & _ & [= <-]). apply negb_false_iff in Hev. cbn. (split; [|split; [|split]]); [split; [done|]|done|done|].
    + apply Forall_app. split; [done|]. by constructor.
    + intros p. by destruct (callers st).
  - destruct (callers st !! i) as [c|] eqn:Ei; [|by injection E as <-].
    pose proof (Forall_lookup_1 _ _ _ _ Hc Ei) as Hci. destruct c as [m|m|m|p|p|p|p]; try done; cbn [caller_step stop_step] in E.
    + rewrite Hci in E. injection E as <-. cbn. (split; [|split; [|split]]); [split; [done|]|done|done|].
      * apply Forall_app. split; [by apply Forall_take|by apply Forall_drop].
      * intros p. destruct (callers st) as [|c cs]; [done|]. destruct i as [|i]; [|done]. cbn in Ei. injection Ei as ->. done.
    + rewrite Hw in E. injection E as <-. cbn. rewrite (take_drop_middle _ _ _ Ei). done.
  - apply bind_Ret in E as (lg & [_ E]%change_kept & [= <-]). cbn. by rewrite E.
  - unfold logProcess_step in E. rewrite Hw in E. by injection E as <-.
Qed.

Lemma asleep_run evs : ∀ st st', asleep st → run opens evs st = Ret st' →
  Forall (λ ev, wakes (_stop (easylog st)) ev = false) evs →
  asleep st' ∧ written st' = written st ∧ (∀ p, head (callers st) = Some (Joining p) → head (callers st') = Some (Joining p)).
Proof.
  induction evs as [|ev evs IH]; intros st st' Ha; cbn [run]; [by intros [= <-]|].
  intros (st1 & E1 & E)%bind_Ret [Hne Hns]%Forall_cons. destruct (asleep_step ev st st1 Ha E1 Hne) as (Ha1 & Hs1 & Hw1 & Hh1).
  destruct (IH st1 st' Ha1 E) as (Ha' & -> & Hh'); [by rewrite Hs1|]. split_and!; [done..|]. intros p Hp. by apply Hh', Hh1.
Qed.
End Lost.

(** The log is running with nothing to do, and hears errors. *)
Record idle st : Prop := {
  idle_thread : logthread st = Looking;
  idle_callers : callers st = [];
  idle_running : _stop (easylog st) = false;
  idle_queue : _logQueue (easylog st) = [];
  idle_hears : _level (easylog st) ≤ LEVEL_ERROR
}.

(** C39 (error): what is logged last can be lost, and [stop] can hang.  When the thread of an idle log has just
    found its queue empty, a message that is logged before [stop] is never written, though
    [stop] returns; the message of a failed assertion can be lost so, just before it aborts
    the program.  When the thread is just about to wait, the wake-up of [stop] is lost: the call waits
    for a thread that only another call of [stop] notifies, unless its wait ends by itself, which the
    standard allows and does not promise; and the wake-up of a message is lost likewise: it is not written
    before something else is logged or the wait ends by itself. *)
Theorem stop_loses opens file line ms body text panic st0 : idle st0 →
  message_text LEVEL_ERROR file line ms body = Ret text → message_text LEVEL_PANIC file line ms body = Ret panic →
  (∃ st, run opens (lose_message LEVEL_ERROR file line ms body ++ [Stop] ++ stop_now ++ [Caller 0]) st0 = Ret st ∧
    logthread st = Exited ∧ callers st = [] ∧ accepted st = accepted st0 ++ [(LEVEL_ERROR, text)] ∧ written st = written st0) ∧
  (∃ st, run opens (lose_message LEVEL_PANIC file line ms body ++ stop_now) st0 = Ret st ∧
    accepted st = accepted st0 ++ [(LEVEL_PANIC, panic)] ∧ written st = written st0 ∧ step opens (Caller 0) st = Aborted) ∧
  (∃ st, run opens miss_stop st0 = Ret st ∧ callers st = [Joining false] ∧
    (∀ evs st', Forall (λ ev, wakes true ev = false) evs → run opens evs st = Ret st' →
       logthread st' = Waiting ∧ head (callers st') = Some (Joining false)) ∧
    ∃ st', run opens [Spurious; LogThread 0; LogThread 0; Caller 0] st = Ret st' ∧ logthread st' = Exited ∧ callers st' = []) ∧
  (∃ st, run opens (miss_message file line ms body) st0 = Ret st ∧ accepted st = accepted st0 ++ [(LEVEL_ERROR, text)] ∧
    ∀ evs st', Forall (λ ev, wakes false ev = false) evs → run opens evs st = Ret st' → written st' = written st0).
Proof.
  destruct st0 as [lg th cs clk o acc wr]. intros [H1 H2 H3 H4 H5] Et Ep. cbn in H1, H2. subst th cs.
  destruct lg as [st lvl dir day hour lvls q un]. cbn in H3, H4, H5. subst st q.
  assert (lvl ≤ LEVEL_PANIC) by (unfold LEVEL_ERROR, LEVEL_PANIC in *; lia).
  split_and!.
  - eexists. split; [|split_and!].
    { cbn [lose_message stop_now app]. erewrite run_cons by reflexivity. by rewrite (log_one _ _ _ _ _ _ _ _ _ Et). }
    all: done.
  - eexists. split; [|split_and!].
    { cbn [lose_message stop_now app]. erewrite run_cons by reflexivity. by rewrite (log_one _ _ _ _ _ _ _ _ _ Ep). }
    all: done.
  - eexists. split; [done|]. split; [done|]. split; [|by eexists]. intros evs st' Hns E.
    edestruct (asleep_run opens evs) as ([Hw _] & _ & Hh); [|exact E|done|]; [|split; [done|by apply Hh]].
    split; [done|]. by constructor.
  - eexists. split.
    { unfold miss_message. do 2 erewrite run_cons by reflexivity. by rewrite (log_one _ _ _ _ _ _ _ _ _ Et). }
    split; [done|]. intros evs st' Hns E.
    edestruct (asleep_run opens evs) as (_ & -> & _); [|exact E|done|done]. split; [done|constructor].
Qed.

(** ** Splitting by day *)

Section Split.
Context (opens : list Z → bool).

(** The files of messages written one after the other, at given times. *)
Fixpoint files_of (lg : Easylog) (ts : list Z) (n : LevelNode) (s : list Z) (o : output) : outcome (list (list Z) * LevelNode) :=
  match ts with
  | [] => Ret ([], n)
  | t :: ts =>
      '(n, o) ← send_to_file opens lg t t n s o;
      '(fs, n') ← files_of lg ts n s o;
      Ret (fullname n :: fs, n')
  end.

(** The reference: a file is opened with the first message of each day of Greenwich, and is
    named for the date in China at that moment. *)
Definition day_file (lg : Easylog) (name : list Z) (opened : Z) : list Z :=
  _dest_dir lg ++ str "/" ++ name ++ [46] ++ date_text ((opened + CST) / 86400).
Fixpoint day_files (lg : Easylog) (name : list Z) (opened : Z) (ts : list Z) : list (list Z) :=
  match ts with
  | [] => []
  | t :: ts => let opened := if t / 86400 =? opened / 86400 then opened else t in
               day_file lg name opened :: day_files lg name opened ts
  end.
(** Times that do not go back, and never on by 28 days or more. *)
Fixpoint steady (from : Z) (ts : list Z) : Prop :=
  match ts with [] => True | t :: ts => from ≤ t < from + 27 * 86400 ∧ (t + CST) / 86400 ≤ last_day ∧ steady t ts end.

Lemma gmtime_mday t : tm_mday (gmtime_r t) = (civil (t / 86400)).2.
Proof. unfold gmtime_r. by destruct (civil (t / 86400)) as [[y m] d]. Qed.

Lemma mday_same a b : 0 ≤ a → a ≤ b → b / 86400 < a / 86400 + 28 →
  (tm_mday (gmtime_r b) =? tm_mday (gmtime_r a)) = (b / 86400 =? a / 86400).
Proof.
  intros Ha Hab Hd. rewrite !gmtime_mday. destruct (Z.eqb_spec (b / 86400) (a / 86400)) as [->|Hne]; [apply Z.eqb_refl|].
  apply Z.eqb_neq. intros E. apply (mday_differs (a / 86400) (b / 86400)); [dlia|dlia|lia|congruence].
Qed.

Definition day_node (n : LevelNode) (lg : Easylog) (name : list Z) (opened : Z) : Prop :=
  filename n = name ∧ fullname n = day_file lg name opened ∧ is_Some (fs n) ∧ fs_launchtime n = opened.

Lemma openfile_day lg t n : _autosplit_day lg = true → _autosplit_hour lg = false → 0 < t → (t + CST) / 86400 ≤ last_day →
  ∃ n', openfile opens lg t n = Ret n' ∧ day_node n' lg (filename n) t.
Proof.
  intros Hd Hh Ht Hl. unfold openfile, full_filename. rewrite Hd, Hh. rewrite timestamp_date by (done || by left).
  cbn [mbind outcome_bind]. eexists. split; [done|]. unfold day_node, day_file. cbn. split_and!; [done|by list_norm|by eexists|done].
Qed.

Lemma send_day lg t n s o opened : _autosplit_day lg = true → _autosplit_hour lg = false →
  day_node n lg (filename n) opened → 0 < opened → opened ≤ t → t / 86400 < opened / 86400 + 28 → (t + CST) / 86400 ≤ last_day →
  ∃ n' o', send_to_file opens lg t t n s o = Ret (n', o') ∧ filename n' = filename n ∧
    day_node n' lg (filename n) (if t / 86400 =? opened / 86400 then opened else t).
Proof.
  intros Hd Hh Hn Ho Ht Hg Hl. pose proof Hn as (_ & _ & [b Hfs] & Hla). unfold send_to_file, autosplit_file. rewrite Hfs, Hd, Hh, Hla.
  cbn [andb]. rewrite orb_false_r, mday_same by lia. destruct (Z.eqb_spec (t / 86400) (opened / 86400)); cbn [negb].
  - cbn [mbind outcome_bind]. by eexists _, _.
  - destruct (openfile_day lg t n) as (n' & -> & Hn'); [done|done|lia|done|]. cbn [mbind outcome_bind]. eexists _, _.
    split; [done|]. split; [apply Hn'|done].
Qed.

Lemma files_of_days lg name s ts : _autosplit_day lg = true → _autosplit_hour lg = false → ∀ from n o opened,
  day_node n lg name opened → 0 < opened → opened ≤ from → from / 86400 = opened / 86400 → steady from ts →
  ∃ n', files_of lg ts n s o = Ret (day_files lg name opened ts, n').
Proof.
  intros Hd Hh. induction ts as [|t ts IH]; intros from n o opened Hn H0 H1 H2 Hs; cbn [files_of day_files]; [by eexists|].
  destruct Hs as (Hft & Hl & Hs). assert (filename n = name) as <- by apply Hn.
  destruct (send_day lg t n s o opened Hd Hh Hn H0) as (n1 & o1 & -> & Ef & Hn1); [lia|dlia|done|]. cbn [mbind outcome_bind].
  set (opened' := if t / 86400 =? opened / 86400 then opened else t) in *.
  destruct (IH t n1 o1 opened') as (n2 & ->); [done|..|done|].
  1-3: unfold opened'; destruct (Z.eqb_spec (t / 86400) (opened / 86400)); [congruence || lia|lia].
  cbn [mbind outcome_bind]. exists n2. f_equal. f_equal. f_equal. apply Hn1.
Qed.
End Split.

(** The log is split by the days of Greenwich under the dates of China.  When
    messages do not come 27 days or more apart, comparing the days of the month does what
    comparing the days would: the file is opened anew with the first message of each day in
    Greenwich, and has the date of China at that moment.  So when it was opened before 16:00 in
    Greenwich, what is logged later that day, when it is past midnight in China, is in the
    file of the day before.  And after exactly a month the file is not split at all. *)
Theorem split_by_day opens lg name s ts opened n o : _autosplit_day lg = true → _autosplit_hour lg = false →
  day_node n lg name opened → 0 < opened → steady opened ts →
  (∃ n', files_of opens lg ts n s o = Ret (day_files lg name opened ts, n')) ∧
  (∀ t, t / 86400 = opened / 86400 → opened mod 86400 < 16 * 3600 ≤ t mod 86400 →
     day_files lg name opened [t] = [day_file lg name opened] ∧ (t + CST) / 86400 = (opened + CST) / 86400 + 1) ∧
  (∀ t, tm_mday (gmtime_r t) = tm_mday (gmtime_r opened) → autosplit_file opens lg t t n = Ret n).
Proof.
  intros Hd Hh Hn H0 Hs. split_and!.
  - by eapply files_of_days.
  - intros t Ht Hm. cbn. rewrite Ht, Z.eqb_refl. split; [done|]. unfold CST. dlia.
  - intros t Ht. destruct Hn as (_ & _ & _ & Hla). unfold autosplit_file. by rewrite Hd, Hh, Hla, Ht, Z.eqb_refl.
Qed.

(** ** At a concrete log *)

(** Errors go to a file in /log; the time is 2018-09-01 17:30 in China. *)
Definition demo_now : Z := 1535794200.
Definition demo_log : system :=
  match run (λ _, true) [Change (SetDestination (Some (str "/log"))) demo_now; Change (SetTofile LEVEL_ERROR (str "app")) demo_now;
    Change (SetTostdout GLOBAL false) demo_now; Change (SetTostdout LEVEL_ALARM true) demo_now; Change (SetLevel LEVEL_TRACE) demo_now] (new_system (str "/")) with
  | Ret st => st
  | _ => new_system []
  end.
Definition demo_error (k : Z) : event := Message LEVEL_ERROR (str "a.cpp") k (1000 * demo_now + k) (str "lost").
Definition demo_events : list event :=
  [LogThread demo_now; demo_error 1; Caller 0; Caller 0; Caller 0;
   Message LEVEL_DEBUG (str "a.cpp") 2 (1000 * demo_now) (str "quiet"); Caller 1; LogThread demo_now;
   Message LEVEL_ALARM (str "a.cpp") 3 (1000 * demo_now) (str "loud"); demo_error 4; Caller 2; Caller 3; Caller 2; Caller 3;
   Caller 1; Caller 0; LogThread demo_now; Caller 0; Caller 1; LogThread demo_now; Spurious; demo_error 5].

Definition demo_plain : system :=
  match step (λ _, true) (Change (SetAutosplitDay false) demo_now) demo_log with Ret st => st | _ => new_system [] end.
Definition demo_end : system :=
  match run (λ _, true) demo_events demo_plain with Ret st => st | _ => new_system [] end.

Lemma log_writes_witness : run (λ _, true) demo_events demo_plain = Ret demo_end ∧
  map fst (accepted demo_end) = [LEVEL_ERROR; LEVEL_ALARM; LEVEL_ERROR] ∧
  accepted demo_end = written demo_end ++ in_hand demo_end ++ _logQueue (easylog demo_end).
Proof.
  assert (run (λ _, true) demo_events demo_plain = Ret demo_end) as E by (vm_compute; reflexivity).
  split; [exact E|]. split; [vm_compute; reflexivity|].
  refine (proj1 (log_writes (λ _, true) demo_events demo_plain demo_end _ _ _ E)).
  - vm_compute. reflexivity.
  - split; vm_compute; reflexivity.
  - unfold demo_events. repeat apply Forall_cons_2; try exact I. apply Forall_nil_2.
Defined.

Lemma stop_loses_witness : ∃ st, run (λ _, true) (lose_message LEVEL_ERROR (str "a.cpp") 1 (1000 * demo_now) (str "lost") ++ [Stop] ++ stop_now ++ [Caller 0]) demo_log = Ret st ∧
  logthread st = Exited ∧ written st = [].
Proof.
  destruct (stop_loses (λ _, true) (str "a.cpp") 1 (1000 * demo_now) (str "lost")
    (str "[17:30:00|000] <ERR> (a.cpp:1) lost" ++ [10]) (str "[17:30:00|000] <PANIC> (a.cpp:1) lost" ++ [10]) demo_log)
    as [(st & E & Ht & _ & _ & Hw) _]; [|vm_compute; reflexivity|vm_compute; reflexivity|].
  - split; vm_compute; congruence.
  - exists st. split; [exact E|]. split; [exact Ht|]. rewrite Hw. vm_compute. reflexivity.
Defined.

Lemma demo_node : ∃ n, _levels (easylog demo_log) !! LEVEL_ERROR = Some n ∧ day_node n (easylog demo_log) (str "app") demo_now.
Proof. eexists. split; [vm_compute; reflexivity|]. split_and!; try (vm_compute; reflexivity). by eexists. Qed.

Lemma split_by_day_witness : ∃ n, _levels (easylog demo_log) !! LEVEL_ERROR = Some n ∧
  files_of (λ _, true) (easylog demo_log) [demo_now + 3600; demo_now + 12 * 3600; demo_now + 24 * 3600] n [] (MkOutput [] ∅)
  = Ret ([str "/log/app.2018-09-01"; str "/log/app.2018-09-01"; str "/log/app.2018-09-02"],
         match files_of (λ _, true) (easylog demo_log) [demo_now + 3600; demo_now + 12 * 3600; demo_now + 24 * 3600] n [] (MkOutput [] ∅) with
         | Ret (_, n') => n' | _ => n end) ∧
  date_text ((demo_now + 12 * 3600 + CST) / 86400) = str "2018-09-02".
Proof.
  destruct demo_node as (n & Hn & Hd). exists n. split; [exact Hn|]. split; [|vm_compute; reflexivity].
  destruct (split_by_day (λ _, true) (easylog demo_log) (str "app") [] [demo_now + 3600; demo_now + 12 * 3600; demo_now + 24 * 3600]
    demo_now n (MkOutput [] ∅)) as [(n' & E) _]; [vm_compute; reflexivity|vm_compute; reflexivity|exact Hd|reflexivity| |].
  - vm_compute. intuition congruence.
  - rewrite E. f_equal.
Defined.
