(* ===== verification/ProcessTitle.v ===== *)
(** * The title of a process: [setProcesstitle] and [resetProcesstitle] of src/tools/Tools.cpp

    The guard of Runtime.v shows itself by writing over the arguments of the program.  Memory
    is a list of bytes: the arguments, one after the other with their NULs, and behind them
    the environment, as the kernel lays them out; [argv] is a list of positions. *)

From S2P Require Import Prelude CLib.

Section Memory.
(** [strlen] at a position; without a NUL behind it, it reads on. *)
Definition strlen (m : list Z) (at_ : nat) : outcome nat :=
  if bool_decide (0 ∈ drop at_ m) then Ret (length (c_str (drop at_ m))) else Undef.
Definition store (at_ : nat) (bs : list Z) (m : list Z) : outcome (list Z) :=
  if Nat.leb (at_ + length bs) (length m) then Ret (take at_ m ++ bs ++ drop (at_ + length bs) m) else Undef.
Definition strcpy (at_ : nat) (s : list Z) (m : list Z) : outcome (list Z) := store at_ (c_str s ++ [0]) m.
Definition strcat (at_ : nat) (s : list Z) (m : list Z) : outcome (list Z) :=
  n ← strlen m at_; store (at_ + n) (c_str s ++ [0]) m.
End Memory.

(** [__argv.push_back(argv[i])] for each. *)
Fixpoint save_args (argv : list nat) (m : list Z) : outcome (list (list Z)) :=
  match argv with
  | [] => Ret []
  | p :: argv => n ← strlen m p; l ← save_args argv m; Ret (take n (drop p m) :: l)
  end.
Fixpoint clear_args (argv : list nat) (m : list Z) : outcome (list Z) :=
  match argv with
  | [] => Ret m
  | p :: argv => n ← strlen m p; m ← store p (replicate n 0) m; clear_args argv m
  end.
(** [saved] is the static vector [__argv]. *)
Definition setProcesstitle (argv : list nat) (title : list Z) (saved : list (list Z)) (m : list Z) : outcome (list (list Z) * list Z) :=
  saved ← match saved with [] => save_args argv m | _ => Ret saved end;
  m ← clear_args (tail argv) m;
  match argv with
  | [] => Undef
  | p :: _ => m ← strcat p title m; Ret (saved, m)
  end.
Fixpoint reset_args (argv : list nat) (saved : list (list Z)) (m : list Z) : outcome (list Z) :=
  match saved, argv with
  | [], _ => Ret m
  | s :: saved, p :: argv => m ← strcpy p s m; reset_args argv saved m
  | _ :: _, [] => Undef
  end.
Definition resetProcesstitle (argv : list nat) (saved : list (list Z)) (m : list Z) : outcome (list Z) := reset_args argv saved m.

(** ** The layout of the arguments *)

Fixpoint positions (at_ : nat) (args : list (list Z)) : list nat :=
  match args with [] => [] | a :: args => at_ :: positions (at_ + length a + 1) args end.
Definition block (args : list (list Z)) : list Z := concat (map (λ a, a ++ [0]) args).

Lemma block_cons a args : block (a :: args) = a ++ [0] ++ block args.
Proof. unfold block. cbn [map concat]. by rewrite <- app_assoc. Qed.
Lemma length_block_cons a args : length (block (a :: args)) = (length a + 1 + length (block args))%nat.
Proof. rewrite block_cons. list_len. Qed.

Lemma strlen_at pre a rest : no_nul a → strlen (pre ++ a ++ 0 :: rest) (length pre) = Ret (length a).
Proof.
  intros Ha. unfold strlen. rewrite drop_app_length. rewrite bool_decide_eq_true_2 by (apply elem_of_app; right; left).
  rewrite c_str_app by done. by rewrite app_nil_r.
Qed.

Lemma store_at pre old bs rest : length bs = length old → store (length pre) bs (pre ++ old ++ rest) = Ret (pre ++ bs ++ rest).
Proof.
  intros Hl. unfold store. rewrite (proj2 (Nat.leb_le _ _)) by list_len. rewrite take_app_length.
  rewrite (app_assoc pre old), (drop_app_length' (pre ++ old)) by list_len. done.
Qed.

Lemma save_args_block args : ∀ pre rest, Forall no_nul args → save_args (positions (length pre) args) (pre ++ block args ++ rest) = Ret args.
Proof.
  induction args as [|a args IH]; intros pre rest Ha; cbn [positions save_args]; [done|]. apply Forall_cons in Ha as [H0 Ha].
  rewrite block_cons. list_norm. rewrite (strlen_at pre a) by done. cbn [mbind outcome_bind].
  specialize (IH (pre ++ a ++ [0]) rest Ha). rewrite !length_app, Nat.add_assoc in IH. cbn [length] in IH.
  replace ((pre ++ a ++ [0]) ++ block args ++ rest) with (pre ++ a ++ 0 :: block args ++ rest) in IH by by list_norm.
  rewrite IH. cbn [mbind outcome_bind]. by rewrite drop_app_length, take_app_length.
Qed.

Lemma clear_args_block args : ∀ pre rest, Forall no_nul args →
  clear_args (positions (length pre) args) (pre ++ block args ++ rest) = Ret (pre ++ replicate (length (block args)) 0 ++ rest).
Proof.
  induction args as [|a args IH]; intros pre rest Ha; cbn [positions clear_args]; [done|]. apply Forall_cons in Ha as [H0 Ha].
  rewrite block_cons. list_norm. rewrite (strlen_at pre a) by done. cbn [mbind outcome_bind].
  rewrite (store_at pre a) by by rewrite length_replicate. cbn [mbind outcome_bind].
  specialize (IH (pre ++ replicate (length a) 0 ++ [0]) rest Ha). rewrite !length_app, length_replicate, Nat.add_assoc in IH. cbn [length] in IH.
  replace ((pre ++ replicate (length a) 0 ++ [0]) ++ block args ++ rest) with (pre ++ replicate (length a) 0 ++ 0 :: block args ++ rest) in IH by by list_norm.
  rewrite IH. f_equal. rewrite length_app. cbn [length]. rewrite replicate_add. cbn [replicate]. by list_norm.
Qed.

Lemma reset_args_block args : ∀ pre m, Forall no_nul args → (length (block args) ≤ length m)%nat →
  reset_args (positions (length pre) args) args (pre ++ m) = Ret (pre ++ block args ++ drop (length (block args)) m).
Proof.
  induction args as [|a args IH]; intros pre m Ha Hl; cbn [positions reset_args]; [done|]. apply Forall_cons in Ha as [H0 Ha].
  rewrite length_block_cons in Hl. unfold strcpy. rewrite c_str_id by done.
  rewrite <- (take_drop (length a + 1) m) at 1. rewrite store_at by (rewrite length_take; list_len). cbn [mbind outcome_bind].
  specialize (IH (pre ++ a ++ [0]) (drop (length a + 1) m) Ha). rewrite !length_app, Nat.add_assoc in IH. cbn [length] in IH.
  rewrite <- (app_assoc pre) in IH. rewrite IH by (rewrite length_drop; lia). rewrite drop_drop, length_block_cons, block_cons.
  by list_norm.
Qed.

(** ** The guard's title, and back *)

Lemma set_title a args title env : no_nul a → Forall no_nul args → no_nul title →
  (length title ≤ length (block args) + length env)%nat →
  setProcesstitle (positions 0 (a :: args)) title [] (block (a :: args) ++ env) =
  Ret (a :: args, a ++ title ++ [0] ++ drop (length title) (replicate (length (block args)) 0 ++ env)).
Proof.
  intros H0 Ha Ht Hl. unfold setProcesstitle.
  pose proof (save_args_block (a :: args) [] env ltac:(by constructor)) as Es. cbn [length app] in Es. rewrite Es. cbn [mbind outcome_bind].
  rewrite block_cons. cbn [positions tail].
  pose proof (clear_args_block args (a ++ [0]) env Ha) as Ec. rewrite length_app in Ec. cbn [length] in Ec.
  replace ((a ++ [0] ++ block args) ++ env) with ((a ++ [0]) ++ block args ++ env) by by list_norm.
  change (0 + length a + 1)%nat with (length a + 1)%nat. rewrite Ec. cbn [mbind outcome_bind]. unfold strcat.
  replace ((a ++ [0]) ++ replicate (length (block args)) 0 ++ env) with ([] ++ a ++ 0 :: replicate (length (block args)) 0 ++ env) by by list_norm.
  change 0%nat with (length (A := Z) []) at 1. rewrite (strlen_at []) by done. cbn [mbind outcome_bind length Nat.add app].
  rewrite c_str_id by done. set (tail_ := replicate _ 0 ++ env).
  assert (length title ≤ length tail_)%nat as Hlt by (unfold tail_; rewrite length_app, length_replicate; lia).
  rewrite <- (take_drop (length title) tail_) at 1. rewrite app_comm_cons.
  rewrite (store_at a (0 :: take (length title) tail_)) by (cbn [length]; rewrite length_take, length_app; cbn [length]; lia).
  cbn [mbind outcome_bind]. by list_norm.
Qed.

(** C37 (bounds): the title of the guard.  When it is no longer than the arguments but the
    first with their NULs, showing it and putting the arguments back leaves the memory as it
    was; a longer one overwrites the environment with its end and a NUL, and putting
    the arguments back does not repair it: for a program that is started with the one
    argument "-dg" the first variable of the environment becomes "d", for the guard and for
    the programs it starts after that. *)
Theorem title_roundtrip a args title env : no_nul a → Forall no_nul args → no_nul title →
  (length title ≤ length (block args) + length env)%nat →
  let m := block (a :: args) ++ env in let argv := positions 0 (a :: args) in
  ∃ m1, setProcesstitle argv title [] m = Ret (a :: args, m1) ∧ c_str m1 = a ++ title ∧
    ∃ env', resetProcesstitle argv (a :: args) m1 = Ret (block (a :: args) ++ env') ∧
      length env' = length env ∧
      ((length title ≤ length (block args))%nat → env' = env) ∧
      ((length (block args) < length title)%nat →
         env' = drop (S (length (block args))) (title ++ [0]) ++ drop (length title - length (block args)) env).
Proof.
  intros H0 Ha Ht Hl m argv. eexists. split; [by apply set_title|]. split.
  - rewrite app_assoc. cbn [app]. rewrite c_str_app; [apply app_nil_r|]. intros Hin%elem_of_app. by destruct Hin.
  - set (z := replicate (length (block args)) 0 ++ env). assert (length z = (length (block args) + length env)%nat) as Hz by (unfold z; rewrite length_app, length_replicate; lia).
    set (m2 := a ++ title ++ [0] ++ drop (length title) z). assert (length (block (a :: args)) ≤ length m2)%nat as Hlong.
    { unfold m2. rewrite length_block_cons, !length_app, length_drop. cbn [length]. lia. }
    pose proof (reset_args_block (a :: args) [] m2 ltac:(by constructor) Hlong) as Er.
    cbn [app] in Er. eexists. split; [exact Er|]. unfold m2. rewrite length_block_cons. cbn [app].
    replace (drop (length a + 1 + length (block args)) (a ++ title ++ 0 :: drop (length title) z))
      with (drop (S (length (block args))) (title ++ 0 :: drop (length title) z))
      by (rewrite <- Nat.add_assoc, <- drop_drop, drop_app_length; done).
    split; [|split].
    + rewrite length_drop, length_app. cbn [length]. rewrite length_drop. lia.
    + intros Hle. rewrite drop_app_ge by lia. replace (S (length (block args)) - length title)%nat with (S (length (block args) - length title)) by lia.
      cbn [drop]. rewrite drop_drop. replace (length title + (length (block args) - length title))%nat with (length (block args)) by lia.
      unfold z. by rewrite drop_app_length' by by rewrite length_replicate.
    + intros Hgt. change (0 :: drop (length title) z) with ([0] ++ drop (length title) z). rewrite app_assoc.
      rewrite drop_app_le by list_len. f_equal. unfold z. rewrite drop_app_ge by (rewrite length_replicate; lia). by rewrite length_replicate.
Qed.

(** ** "./a -dg", then "HOME=/" *)

Lemma title_roundtrip_witness : ∃ m1 m2,
  setProcesstitle [0; 4]%nat (str " guard") [] (str "./a" ++ [0] ++ str "-dg" ++ [0] ++ str "HOME=/" ++ [0]) = Ret ([str "./a"; str "-dg"], m1) ∧
  c_str m1 = str "./a guard" ∧
  resetProcesstitle [0; 4]%nat [str "./a"; str "-dg"] m1 = Ret m2 ∧
  m2 = str "./a" ++ [0] ++ str "-dg" ++ [0] ++ str "d" ++ [0] ++ str "ME=/" ++ [0].
Proof.
  destruct (title_roundtrip (str "./a") [str "-dg"] (str " guard") (str "HOME=/" ++ [0])) as (m1 & E1 & H1 & env' & E2 & _ & _ & H2);
    [apply (bool_decide_unpack _); vm_compute; exact I| | |vm_compute; lia|].
  - constructor; [apply (bool_decide_unpack _); vm_compute; exact I|constructor].
  - apply (bool_decide_unpack _); vm_compute; exact I.
  - exists m1. eexists. split; [exact E1|]. split; [exact H1|]. split; [exact E2|]. rewrite H2 by (vm_compute; lia). reflexivity.
Defined.
