(* ===== verification/Runtime.v ===== *)
(** * The start of a program: src/config/Config.cpp, Config.h, and [init_runtime_environment]
    of src/tools/Tools.cpp

    Options, the guard process that starts the program again, the configuration file, the
    settings of the log, limits and signals.  [getopt], [fork] and [waitpid], [realpath] and
    the limits of the system answer through arguments. *)

From S2P Require Import Prelude CLib Calendar Registry Easylog.

Record Config := MkConfig {
  halt : bool; runasdaemon : bool; reload : bool; terminate_reason : Z; confile : list Z; guard : bool; values : Registry
}.
Definition new_Config : Config := MkConfig false false false 0 [] false ∅.
Definition syshalt (reason : Z) (c : Config) : Config :=
  if halt c then c else MkConfig true (runasdaemon c) (reload c) reason (confile c) (guard c) (values c).

(** ** Config::init *)

(** The options [getopt] finds, each with its argument. *)
Fixpoint read_options (opts : list (Z * list Z)) (c : Config) : option Config :=
  match opts with
  | [] => Some c
  | (o, optarg) :: opts =>
      if (o =? ch "d") || (o =? ch "D") then read_options opts (MkConfig (halt c) true (reload c) (terminate_reason c) (confile c) (guard c) (values c))
      else if o =? ch "c" then read_options opts (MkConfig (halt c) (runasdaemon c) (reload c) (terminate_reason c) optarg (guard c) (values c))
      else if o =? ch "g" then read_options opts (MkConfig (halt c) (runasdaemon c) (reload c) (terminate_reason c) (confile c) true (values c))
      else None
  end.

(** [fork] makes this process the child, or a child whose [waitpid] gives a status, or fails;
    then there is nobody to wait for and the status stays 0. *)
Inductive fork_answer := IsChild | ChildEnds (status : Z) | ForkFails.
(** What became of the guard: it goes on as the program, has called exit(0), or still waits
    after the given forks. *)
Inductive guarded := GoesOn | Exits | Guarding.
Fixpoint guard_loop (halted : bool) (forks : list fork_answer) : guarded :=
  if halted then GoesOn
  else match forks with
       | [] => Guarding
       | IsChild :: _ => GoesOn
       | ChildEnds status :: forks => if status =? 1 then Exits else guard_loop halted forks
       | ForkFails :: forks => guard_loop halted forks
       end.
(** The status of a process that exits, and of one a signal ends. *)
Definition exit_status (code : Z) : Z := (code mod 256) * 256.
Definition signal_status (sig : Z) (core : bool) : Z := sig + (if core then 128 else 0).

Inductive init_result := InitFails | InitDone (c : Config) | GuardExits | StillGuarding.
Section Init.
(** [absoluteDirectory], and the documents of the file system. *)
Context (absolute : list Z → list Z) (documents : list Z → option xml).

Definition config_load (c : Config) : init_result :=
  match confile c with
  | [] => InitDone c
  | _ =>
      let file := absolute (confile c) in
      let '(rc, v) := loadconf (documents file) (values c) in
      let c := MkConfig (halt c) (runasdaemon c) (reload c) (terminate_reason c) file (guard c) v in
      if rc then InitDone c else InitFails
  end.
Definition config_init (opts : list (Z * list Z)) (forks : list fork_answer) (c : Config) : init_result :=
  match read_options opts c with
  | None => InitFails
  | Some c =>
      if runasdaemon c && guard c
      then match guard_loop (halt c) forks with GoesOn => config_load c | Exits => GuardExits | Guarding => StillGuarding end
      else config_load c
  end.
End Init.

(** ** Signals *)

Definition SIGHUP : Z := 1.
Definition SIGALRM : Z := 14.
Definition SIGWINCH : Z := 28.
Definition SIGRTMIN : Z := 34.
(** The handler; SIGHUP falls through to the break of SIGALRM. *)
Definition on_signal (sig : Z) (c : Config) : Config :=
  if sig =? SIGRTMIN then c
  else if sig =? SIGWINCH then c
  else if sig =? SIGHUP then MkConfig (halt c) (runasdaemon c) true (terminate_reason c) (confile c) (guard c) (values c)
  else if sig =? SIGALRM then c
  else syshalt sig c.
(** The signals it is installed for. *)
Definition handled : list Z := [1; 2; 3; 4; 5; 6; 6; 7; 8; 10; 11; 12; 13; 14; 15; 16; 18; 20; 21; 22; 23; 24; 25; 26; 27; 28; 29; 30; 31; SIGRTMIN].
Definition on_signals (sigs : list Z) (c : Config) : Config := fold_left (λ c sig, on_signal sig c) sigs c.

(** ** The settings of the log, and limits *)

(** [realdir] is what [set_destination] makes of the directory "log.dir". *)
Definition log_settings (c : Config) (realdir : option (list Z)) (program : list Z) : list setting :=
  [SetLevel (get_s32 (str "log.level") GLOBAL (values c));
   SetAutosplitDay (get_bool (str "log.autosplit_day") true (values c));
   SetAutosplitHour (get_bool (str "log.autosplit_hour") false (values c));
   SetDestination realdir; SetTofile GLOBAL program; SetTostdout GLOBAL (if runasdaemon c then false else true)].
Fixpoint changes (opens : list Z → bool) (ss : list setting) (now : Z) (lg : Easylog) : outcome Easylog :=
  match ss with
  | [] => Ret lg
  | s :: ss => lg ← change opens s now lg; changes opens ss now lg
  end.

(** The directory of the log.  [dirname] and [basename] are the C library's, [realpath] fails
    for a directory that is not there; its null pointer prints as "(null)". *)
Section Destination.
Context (dirname basename : list Z → list Z) (realpath : list Z → option (list Z)).
Definition PATH_MAX : nat := Z.to_nat 4096.
Definition getDirectoryName (fullname : list Z) : outcome (list Z) :=
  if Nat.ltb (length fullname) PATH_MAX then Ret (dirname fullname) else Undef.
Definition getFilename (fullname : list Z) : outcome (list Z) :=
  if Nat.ltb (length fullname) PATH_MAX then Ret (basename fullname) else Undef.
Definition absoluteDirectory (fullname : list Z) : outcome (list Z) :=
  dir ← getDirectoryName fullname;
  file ← getFilename fullname;
  Ret (take (PATH_MAX - 1) (default (str "(null)") (realpath dir) ++ str "/" ++ file)).

(** What the file system says of a path, before and after [createDirectory]. *)
Record path_answers := MkPath {
  existDir : bool; createdDir : bool; existDir2 : bool; isDir : bool; accessableDir : bool; writableDir : bool
}.
(** [absoluteDirectory] never returns a null pointer, so its test always passes. *)
Definition set_destination (answers : list Z → path_answers) (dir : list Z) (now : Z) (lg : Easylog) : outcome (bool * Easylog) :=
  realdir ← absoluteDirectory dir;
  let a := answers realdir in
  if negb (existDir a) && negb (createdDir a) then Ret (false, lg)
  else if negb (existDir2 a) then Ret (false, lg)
  else if negb (isDir a) then Ret (false, lg)
  else if negb (accessableDir a) then Ret (false, lg)
  else if negb (writableDir a) then Ret (false, lg)
  else lg ← change (λ _, true) (SetDestination (Some realdir)) now lg; Ret (true, lg).

(** When the parent of the directory is not there, a directory called "(null)" in the current
    one takes its place, and the log goes there. *)
Lemma set_destination_null answers dir now lg : (length dir < PATH_MAX)%nat → realpath (dirname dir) = None →
  (length (basename dir) < PATH_MAX - 7)%nat →
  answers (str "(null)/" ++ basename dir) = MkPath false true true true true true →
  ∃ lg', set_destination answers dir now lg = Ret (true, lg') ∧ _dest_dir lg' = str "(null)/" ++ basename dir.
Proof.
  intros Hl Hr Hb Ha. unfold set_destination, absoluteDirectory, getDirectoryName, getFilename.
  rewrite (proj2 (Nat.ltb_lt _ _)) by done. cbn [mbind outcome_bind]. rewrite Hr.
  change (default (str "(null)") None ++ str "/" ++ basename dir) with (str "(null)/" ++ basename dir).
  rewrite take_ge by (rewrite length_app; change (length (str "(null)/")) with 7%nat; lia). rewrite Ha. by eexists.
Qed.
End Destination.

(** A limit of the system: [getrlimit] gives the present and the greatest value or fails;
    [setrlimit] takes the pair or not. *)
Definition set_limit (getrlimit : option (Z * Z)) (setrlimit : Z * Z → bool) (value : Z) : bool :=
  match getrlimit with None => false | Some (_, max) => setrlimit (value, max) end.
Definition get_limit (getrlimit : option (Z * Z)) : Z := match getrlimit with None => 0 | Some (cur, _) => u32 cur end.
(** The limits that the configuration asks for; 0 leaves them. *)
Definition init_limits (c : Config) (set_stack set_files : Z → bool) : list bool :=
  (let v := get_u32 (str "limit.stack_size") 0 (values c) in if 0 <? v then [set_stack v] else []) ++
  (let v := get_u32 (str "limit.max_files") 0 (values c) in if 0 <? v then [set_files v] else []).

(** ** The guard *)

(** Only a child that a SIGHUP ends without a core dump makes the guard exit. *)
Lemma guard_loop_spec forks : 
  guard_loop false forks =
  match List.find (λ f, match f with ForkFails => false | ChildEnds st => st =? 1 | IsChild => true end) forks with
  | None => Guarding | Some IsChild => GoesOn | Some _ => Exits
  end.
Proof.
  induction forks as [|f forks IH]; [done|]. cbn [guard_loop List.find].
  destruct f as [|st|]; [done| |exact IH]. destruct (st =? 1); [done|exact IH].
Qed.

Lemma exit_status_not_1 code : exit_status code ≠ 1.
Proof. unfold exit_status. lia. Qed.

(** C38 (error): the guard starts a program that can not start for ever.  The comment says that the guard
    exits when the child exits with 1, as main does when the initialisation fails; but the
    status of a child that exits is a multiple of 256.  Whatever codes the children exit
    with, and whenever fork fails, the guard forks again; it exits exactly when a child is
    ended by a SIGHUP without a core dump. *)
Theorem guard_never_exits absolute documents opts c c' forks :
  read_options opts c = Some c' → runasdaemon c' = true → guard c' = true → halt c' = false →
  (Forall (λ f, f = ForkFails ∨ ∃ code, f = ChildEnds (exit_status code)) forks →
    config_init absolute documents opts forks c = StillGuarding ∧
    config_init absolute documents opts (forks ++ [ChildEnds (signal_status SIGHUP false)]) c = GuardExits) ∧
  (config_init absolute documents opts forks c = GuardExits →
     ∃ before after, forks = before ++ ChildEnds (signal_status SIGHUP false) :: after).
Proof.
  intros Ho Hd Hg Hh. unfold config_init. rewrite Ho, Hd, Hg, Hh. cbn [andb]. rewrite !guard_loop_spec. split.
  - intros Hf.
    assert (∀ l, List.find (λ f, match f with ForkFails => false | ChildEnds st => st =? 1 | IsChild => true end) (forks ++ l) =
      List.find (λ f, match f with ForkFails => false | ChildEnds st => st =? 1 | IsChild => true end) l) as E.
    { intros l. induction Hf as [|f forks Hf Hfs IH]; [done|]. cbn [app List.find].
      destruct Hf as [->|[code ->]]; [exact IH|]. by rewrite (proj2 (Z.eqb_neq _ 1) (exit_status_not_1 code)). }
    rewrite E. rewrite <- (app_nil_r forks) at 1. by rewrite E.
  - destruct (List.find _ forks) as [f|] eqn:Ef; [|done]. pose proof (List.find_some _ _ Ef) as [Hin Hf].
    destruct f as [|st|]; [|apply Z.eqb_eq in Hf; subst st|done].
    + unfold config_load. destruct (confile c'); [done|]. destruct (loadconf _ _) as [[] v]; done.
    + intros _. apply list_elem_of_In, list_elem_of_split in Hin as (l1 & l2 & ->). by exists l1, l2.
Qed.

(** ** Signals *)

Definition fatal (sig : Z) : bool := negb ((sig =? SIGRTMIN) || (sig =? SIGWINCH) || (sig =? SIGHUP) || (sig =? SIGALRM)).

(** The first signal that is fatal ends the program, with its number as the reason; SIGHUP
    asks to reload; nothing else changes anything. *)
Lemma on_signals_spec sigs : ∀ c, halt c = false →
  let c' := on_signals sigs c in
  halt c' = existsb fatal sigs ∧
  terminate_reason c' = default (terminate_reason c) (List.find fatal sigs) ∧
  reload c' = reload c || existsb (Z.eqb SIGHUP) sigs ∧
  (runasdaemon c', confile c', guard c', values c') = (runasdaemon c, confile c, guard c, values c).
Proof.
  assert (∀ sig c, reload (on_signal sig c) = reload c || (SIGHUP =? sig) ∧
    (runasdaemon (on_signal sig c), confile (on_signal sig c), guard (on_signal sig c), values (on_signal sig c)) = (runasdaemon c, confile c, guard c, values c) ∧
    halt (on_signal sig c) = halt c || fatal sig ∧
    terminate_reason (on_signal sig c) = if negb (halt c) && fatal sig then sig else terminate_reason c) as Hone.
  { intros sig c. rewrite (Z.eqb_sym SIGHUP). unfold on_signal, fatal, syshalt.
    destruct (Z.eqb_spec sig SIGRTMIN) as [->|]; [cbn; by rewrite !orb_false_r, andb_false_r|].
    destruct (Z.eqb_spec sig SIGWINCH) as [->|]; [cbn; by rewrite !orb_false_r, andb_false_r|].
    destruct (Z.eqb_spec sig SIGHUP) as [->|]; [cbn; by rewrite orb_true_r, !orb_false_r, andb_false_r|].
    destruct (Z.eqb_spec sig SIGALRM) as [->|]; [cbn; by rewrite !orb_false_r, andb_false_r|].
    cbn. destruct (halt c) eqn:Eh; cbn; by rewrite ?orb_false_r, ?Eh. }
  assert (∀ sigs c, halt c = true → halt (on_signals sigs c) = true ∧ terminate_reason (on_signals sigs c) = terminate_reason c) as Hhalted.
  { clear sigs. induction sigs as [|sig sigs IH]; intros c Hc; [done|]. cbn [on_signals fold_left]. fold (on_signals sigs (on_signal sig c)).
    destruct (Hone sig c) as (_ & _ & H1 & H2). rewrite Hc in H1, H2. destruct (IH _ H1) as [-> ->]. done. }
  induction sigs as [|sig sigs IH]; intros c Hc; cbn [on_signals fold_left existsb List.find].
  - by rewrite orb_false_r.
  - fold (on_signals sigs (on_signal sig c)). destruct (Hone sig c) as (H1 & H2 & H3 & H4). rewrite Hc in H3, H4. cbn [orb andb negb] in H3, H4.
    assert (∀ c, reload (on_signals sigs c) = reload c || existsb (Z.eqb SIGHUP) sigs ∧
      (runasdaemon (on_signals sigs c), confile (on_signals sigs c), guard (on_signals sigs c), values (on_signals sigs c)) = (runasdaemon c, confile c, guard c, values c)) as Hrest.
    { clear -Hone. induction sigs as [|s sigs IH]; intros c; cbn [on_signals fold_left existsb]; [by rewrite orb_false_r|].
      fold (on_signals sigs (on_signal s c)). destruct (IH (on_signal s c)) as [-> ->]. destruct (Hone s c) as (-> & -> & _). by rewrite orb_assoc. }
    destruct (Hrest (on_signal sig c)) as [R1 R2]. rewrite R1, R2, H1, H2, orb_assoc.
    destruct (fatal sig) eqn:Ef; cbn [orb].
    + destruct (Hhalted sigs _ H3) as [-> ->]. rewrite H4. done.
    + destruct (IH _ H3) as (-> & -> & _). rewrite H4. done.
Qed.

(** Signals that by default do nothing or go on with the program end it: SIGCONT after a stop,
    SIGURG for urgent data on a socket. *)
Lemma continue_ends c : halt c = false → Forall (λ sig, sig ∈ handled ∧ halt (on_signal sig c) = true ∧ terminate_reason (on_signal sig c) = sig) [18; 23].
Proof.
  intros Hc. repeat constructor; try (apply (bool_decide_unpack _); vm_compute; exact I);
    unfold on_signal, syshalt; cbn [Z.eqb Pos.eqb SIGRTMIN SIGWINCH SIGHUP SIGALRM]; by rewrite Hc.
Qed.

(** ** The log after the start *)

Section LogReady.
Context (opens : list Z → bool).

Definition same_but_levels (lg lg' : Easylog) : Prop := lg' = set_levels (_levels lg') lg.

Lemma openfile_same lg lg' now n : same_but_levels lg lg' → openfile opens lg' now n = openfile opens lg now n.
Proof. unfold same_but_levels. intros ->. done. Qed.

(** The loop of [set_tofile] opens the file of each level that has a name and none open. *)
Lemma open_levels_lookup now l : ∀ lg, NoDup (map fst l) → (∀ k n, (k, n) ∈ l → ∃ n', open_new opens lg now n = Ret n') →
  ∃ lg', open_levels opens l now lg = Ret lg' ∧ same_but_levels lg lg' ∧
    (∀ k n, (k, n) ∈ l → ∃ n', open_new opens lg now n = Ret n' ∧ _levels lg' !! k = Some n') ∧
    ∀ k, k ∉ map fst l → _levels lg' !! k = _levels lg !! k.
Proof.
  induction l as [|[k n] l IH]; intros lg Hn Ho; cbn [open_levels map].
  - exists lg. split_and!; [done|by destruct lg|by intros k n ?%elem_of_nil|done].
  - apply NoDup_cons in Hn as [Hk Hn]. destruct (Ho k n) as [n' E]; [by left|]. rewrite E. cbn [mbind outcome_bind].
    set (lg1 := set_levels _ lg). assert (∀ m, open_new opens lg1 now m = open_new opens lg now m) as Hsame.
    { intros m. unfold open_new. destruct (filename m); [done|]. destruct (fs m); [done|]. by apply openfile_same. }
    destruct (IH lg1 Hn) as (lg' & -> & Hs & Hin & Hout).
    { intros k' m Hm. rewrite Hsame. apply (Ho k'). by right. }
    exists lg'. split_and!; [done| | |].
    + unfold same_but_levels in *. rewrite Hs at 1. done.
    + intros k' m [[= -> ->]|Hm]%elem_of_cons.
      * exists n'. split; [done|]. rewrite Hout by done. apply lookup_insert_eq.
      * rewrite <- Hsame. by apply Hin.
    + intros k' [Hne Hk']%not_elem_of_cons. rewrite Hout by done. cbn. by rewrite lookup_insert_ne.
Qed.

Lemma init_nodes cwd k n : _levels (new_Easylog cwd) !! k = Some n → n_level n = k ∧ fs n = None ∧ 1 ≤ k ≤ 6.
Proof.
  unfold new_Easylog. cbn [_levels]. intros E%elem_of_list_to_map_2. cbn in E. rewrite !elem_of_cons, elem_of_nil in E.
  destruct E as [E|[E|[E|[E|[E|[E|[]]]]]]]; injection E as -> ->; cbn; (split; [done|split; [done|]]); unfold LEVEL_DEBUG, LEVEL_TRACE, LEVEL_ALARM, LEVEL_ERROR, LEVEL_PANIC, LEVEL_SYSTEM; lia.
Qed.

(** The log with the configured level, directory and splitting. *)
Definition configured (c : Config) (dir cwd : list Z) : Easylog :=
  MkLog false (get_s32 (str "log.level") GLOBAL (values c)) dir (get_bool (str "log.autosplit_day") true (values c))
    (get_bool (str "log.autosplit_hour") false (values c)) (_levels (new_Easylog cwd)) [] 0.

(** After the start every level writes to the one file the configuration names, which has been
    opened now, and to the console unless the program is a daemon. *)
Lemma log_ready c dir program now cwd name : program ≠ [] → full_filename (configured c dir cwd) program now = Ret name →
  ∃ lg, changes opens (log_settings c (Some dir) program) now (new_Easylog cwd) = Ret lg ∧
    _level lg = get_s32 (str "log.level") GLOBAL (values c) ∧ _stop lg = false ∧ _logQueue lg = [] ∧
    ∀ k, 1 ≤ k ≤ 6 → ∃ n, _levels lg !! k = Some n ∧ n_level n = k ∧ fullname n = name ∧ fs n = Some (opens name) ∧
      fs_launchtime n = now ∧ to_stdout n = negb (runasdaemon c).
Proof.
  intros Hp Hname. unfold log_settings. cbn [changes change mbind outcome_bind].
  match goal with |- context [for_level GLOBAL _ ?lg] => change lg with (configured c dir cwd) end.
  match goal with |- context [for_level GLOBAL ?f (configured c dir cwd)] => set (lg1 := for_level GLOBAL f (configured c dir cwd)) end.
  assert (∀ k n, (k, n) ∈ map_to_list (_levels lg1) → open_new opens lg1 now n =
    Ret (MkNode (n_level n) (n_color n) (to_stdout n) program name (Some (opens name)) now) ∧ n_level n = k) as Hnode.
  { intros k n Hkn%elem_of_map_to_list. subst lg1. unfold for_level in Hkn. cbn [set_levels _levels configured] in Hkn.
    rewrite lookup_fmap in Hkn. destruct (_levels (new_Easylog cwd) !! k) as [m|] eqn:Em; [|done].
    destruct (init_nodes cwd k m Em) as (Hm & Hfs & Hk). cbn [fmap option_fmap option_map] in Hkn. rewrite orb_true_r in Hkn.
    injection Hkn as <-. cbn [n_level]. split; [|done]. unfold open_new. cbn [filename fs]. rewrite Hfs.
    destruct program as [|b program]; [done|]. unfold openfile. cbn [filename n_level n_color to_stdout].
    unfold full_filename in *. cbn [_dest_dir _autosplit_hour _autosplit_day for_level set_levels configured] in *.
    by rewrite Hname. }
  destruct (open_levels_lookup now (map_to_list (_levels lg1)) lg1) as (lg2 & -> & Hs & Hin & _).
  { apply NoDup_fst_map_to_list. }
  { intros k n Hkn. eexists. by apply (Hnode k n). }
  cbn [mbind outcome_bind]. eexists. split; [done|]. unfold same_but_levels in Hs. rewrite Hs. cbn [for_level set_levels _level _stop _logQueue].
  split_and!; [done..|]. intros k Hk. cbn [_levels]. unfold for_level. cbn [set_levels _levels]. rewrite lookup_fmap.
  assert (∃ n, (k, n) ∈ map_to_list (_levels lg1)) as [n Hn].
  { assert (k = 1 ∨ k = 2 ∨ k = 3 ∨ k = 4 ∨ k = 5 ∨ k = 6) as Hc by lia.
    destruct Hc as [->|[->|[->|[->|[->| ->]]]]]; eexists; apply elem_of_map_to_list; reflexivity. }
  destruct (Hin k n Hn) as (n' & En & ->). destruct (Hnode k n Hn) as [E Hl]. rewrite E in En. injection En as <-.
  cbn [fmap option_fmap option_map]. rewrite orb_true_r. eexists. split; [done|]. cbn. by split_and!.
Qed.
End LogReady.

(** ** A daemon with a guard *)

Definition demo_options : list (Z * list Z) := [(ch "d", []); (ch "g", []); (ch "c", str "a.xml")].

Lemma guard_never_exits_witness :
  config_init id (λ _, None) demo_options (replicate 3 (ChildEnds (exit_status 1)) ++ [ForkFails]) new_Config = StillGuarding.
Proof.
  destruct (guard_never_exits id (λ _, None) demo_options new_Config (MkConfig false true false 0 (str "a.xml") true ∅)
    (replicate 3 (ChildEnds (exit_status 1)) ++ [ForkFails])) as [Hforks _]; [reflexivity..|].
  apply Hforks. repeat (apply Forall_cons; split; [first [left; reflexivity|right; exists 1; reflexivity]|]). apply Forall_nil_2.
Defined.
