(* ===== verification/ThreadPool.v ===== *)
(** * ThreadPool: deps/bundle-0.01/include/threadpool/ThreadPool.h

    Worker threads that take tasks from a queue under a mutex and wait on a condition
    variable; threads that add tasks; the destructor.  Their steps interleave in any order. *)

From S2P Require Import Prelude.

Section ThreadPool.
Context {T : Type}.

(** A worker: at the head of its loop, before the lock, at the predicate of [wait], before it
    blocks, blocked, at the second test of [_stop], at the queue, in a task, at the end. *)
Inductive wplace := Top | Locking | Checking | Parking | Blocked | Reloading | Taking | Running (t : T) | Exited.
(** The destructor: not called, after [stop], after [notify_all], done. *)
Inductive dplace := Alive | Stopped | Joining | Gone.
Record ThreadPool := MkPool {
  _stop : bool;
  _mtx : bool;
  _tasks : list T;
  _threads : list wplace;
  notifying : nat;             (* threads in [add] between the queue and [notify_one] *)
  destructor : dplace;
  added : list T;              (* for the theorems *)
  started : list T;
  finished : list T
}.
(** [ThreadPool(n)]; without a positive number, as many threads as the machine runs. *)
Definition new_ThreadPool (n hardware_concurrency : Z) : ThreadPool :=
  MkPool false false [] (replicate (Z.to_nat (if n <=? 0 then hardware_concurrency else n)) Top) 0 Alive [] [] [].

Definition set_worker (w : nat) (p : wplace) (tp : ThreadPool) : ThreadPool :=
  MkPool (_stop tp) (_mtx tp) (_tasks tp) (<[w := p]> (_threads tp)) (notifying tp) (destructor tp) (added tp) (started tp) (finished tp).
Definition set_mtx (b : bool) (tp : ThreadPool) : ThreadPool :=
  MkPool (_stop tp) b (_tasks tp) (_threads tp) (notifying tp) (destructor tp) (added tp) (started tp) (finished tp).

(** One step of the worker [w], which is at [p]. *)
Definition work (w : nat) (p : wplace) (tp : ThreadPool) : outcome ThreadPool :=
  match p with
  | Top => Ret (set_worker w (if _stop tp then Exited else Locking) tp)
  | Locking => Ret (if _mtx tp then tp else set_mtx true (set_worker w Checking tp))
  | Checking =>
      Ret (set_worker w (if _stop tp || match _tasks tp with [] => false | _ => true end then Reloading else Parking) tp)
  | Parking => Ret (set_mtx false (set_worker w Blocked tp))
  | Blocked => Ret tp
  | Reloading => Ret (if _stop tp then set_mtx false (set_worker w Exited tp) else set_worker w Taking tp)
  | Taking =>
      match _tasks tp with
      | [] => Undef
      | t :: ts =>
          Ret (MkPool (_stop tp) false ts (<[w := Running t]> (_threads tp)) (notifying tp) (destructor tp)
                 (added tp) (started tp ++ [t]) (finished tp))
      end
  | Running t =>
      Ret (MkPool (_stop tp) (_mtx tp) (_tasks tp) (<[w := Top]> (_threads tp)) (notifying tp) (destructor tp)
             (added tp) (started tp) (finished tp ++ [t]))
  | Exited => Ret tp
  end.

Definition is_blocked (p : wplace) : bool := match p with Blocked => true | _ => false end.
Definition wake (p : wplace) : wplace := match p with Blocked => Locking | p => p end.
(** [add] up to the end of its critical section, when the mutex is free; after [stop] it
    throws. *)
Definition add (t : T) (tp : ThreadPool) : ThreadPool :=
  if _mtx tp || _stop tp then tp
  else MkPool (_stop tp) (_mtx tp) (_tasks tp ++ [t]) (_threads tp) (S (notifying tp)) (destructor tp)
         (added tp ++ [t]) (started tp) (finished tp).
(** The [notify_one] of an [add]: it wakes [w], or nobody when nobody is blocked. *)
Definition notify_one (w : nat) (tp : ThreadPool) : ThreadPool :=
  match notifying tp with
  | O => tp
  | S k =>
      let done ws := MkPool (_stop tp) (_mtx tp) (_tasks tp) ws k (destructor tp) (added tp) (started tp) (finished tp) in
      if existsb is_blocked (_threads tp)
      then match _threads tp !! w with Some Blocked => done (<[w := Locking]> (_threads tp)) | _ => tp end
      else done (_threads tp)
  end.
(** One step of the destructor: [stop], [notify_all], [join]. *)
Definition destroy (tp : ThreadPool) : ThreadPool :=
  let go stop ws d := MkPool stop (_mtx tp) (_tasks tp) ws (notifying tp) d (added tp) (started tp) (finished tp) in
  match destructor tp with
  | Alive => go true (_threads tp) Stopped
  | Stopped => go (_stop tp) (map wake (_threads tp)) Joining
  | Joining => if forallb (λ p, match p with Exited => true | _ => false end) (_threads tp) then go (_stop tp) (_threads tp) Gone else tp
  | Gone => tp
  end.

(** [Spurious w]: a wait may end without a notification. *)
Inductive event := Work (w : nat) | Add (t : T) | NotifyOne (w : nat) | Destroy | Spurious (w : nat).
Definition step (ev : event) (tp : ThreadPool) : outcome ThreadPool :=
  match ev with
  | Work w => match _threads tp !! w with Some p => work w p tp | None => Ret tp end
  | Add t => Ret (add t tp)
  | NotifyOne w => Ret (notify_one w tp)
  | Destroy => Ret (destroy tp)
  | Spurious w => Ret (match _threads tp !! w with Some p => set_worker w (wake p) tp | None => tp end)
  end.
Fixpoint run (evs : list event) (tp : ThreadPool) : outcome ThreadPool :=
  match evs with
  | [] => Ret tp
  | ev :: evs => tp ← step ev tp; run evs tp
  end.
End ThreadPool.

Arguments wplace T : clear implicits.
Arguments ThreadPool T : clear implicits.
Arguments event T : clear implicits.

(** ** Tasks start once, in order *)

Section Pool.
Context {T : Type}.
Implicit Types (tp : ThreadPool T) (p : wplace T).

Definition holds p : bool := match p with Checking | Parking | Reloading | Taking => true | _ => false end.
(** The worker will look at the queue again without being woken. *)
Definition awake p : bool := match p with Parking | Blocked | Exited => false | _ => true end.
Definition running (ws : list (wplace T)) : list T := omap (λ p, match p with Running t => Some t | _ => None end) ws.

(** What is known at a place. *)
Definition place_ok tp p : Prop :=
  match p with
  | Parking => _tasks tp = []
  | Reloading => _stop tp = true ∨ _tasks tp ≠ []
  | Taking => _tasks tp ≠ []
  | Exited => _stop tp = true
  | _ => True
  end.
Record pool_ok tp : Prop := {
  po_excl : exclusive holds (_mtx tp) (_threads tp);
  po_place w p : _threads tp !! w = Some p → place_ok tp p;
  po_order : started tp ++ _tasks tp = added tp;
  po_done : finished tp ++ running (_threads tp) ≡ₚ started tp;
  po_some : _threads tp ≠ [];
  po_heard : _stop tp = false → _tasks tp ≠ [] → (0 < notifying tp)%nat ∨ Exists (λ p, awake p = true) (_threads tp)
}.

Lemma running_insert ws w p q : ws !! w = Some p →
  running (<[w := q]> ws) ++ running [p] ≡ₚ running ws ++ running [q].
Proof.
  revert w. induction ws as [|x ws IH]; intros [|w] Hw; try discriminate Hw.
  - injection Hw as ->. change (<[0%nat := q]> (p :: ws)) with (q :: ws).
    rewrite (omap_app _ [q] ws : running (q :: ws) = running [q] ++ running ws), (omap_app _ [p] ws : running (p :: ws) = running [p] ++ running ws).
    rewrite (Permutation_app_comm (running [p]) (running ws)), (Permutation_app_comm (running [q])), <- !app_assoc.
    by rewrite (Permutation_app_comm (running [q])).
  - specialize (IH w Hw). change (<[S w := q]> (x :: ws)) with (x :: <[w := q]> ws).
    rewrite (omap_app _ [x] ws : running (x :: ws) = running [x] ++ running ws), (omap_app _ [x] _ : running (x :: <[w := q]> ws) = running [x] ++ _).
    by rewrite <- !app_assoc, IH.
Qed.

Lemma running_same ws w p q : ws !! w = Some p → running [p] = running [q] → running (<[w := q]> ws) ≡ₚ running ws.
Proof. intros Hw E. pose proof (running_insert ws w p q Hw) as Hp. rewrite E in Hp. by eapply Permutation_app_inv_r. Qed.

Lemma awake_insert ws w p q : ws !! w = Some p → (awake p = true → awake q = true) →
  Exists (λ p, awake p = true) ws → Exists (λ p, awake p = true) (<[w := q]> ws).
Proof.
  revert w. induction ws as [|x ws IH]; intros [|w] Hw Hpq He; try discriminate Hw; apply Exists_cons in He as [He|He].
  - injection Hw as ->. left. auto.
  - by right.
  - by left.
  - right. by apply (IH w).
Qed.

Lemma awake_at ws w p q : ws !! w = Some p → awake q = true → Exists (λ p, awake p = true) (<[w := q]> ws).
Proof.
  intros Hw Hq. apply Exists_exists. exists q. split; [|done]. apply list_elem_of_lookup. exists w.
  apply list_lookup_insert_eq. by eapply lookup_lt_Some.
Qed.

Lemma insert_some (ws : list (wplace T)) w q : ws ≠ [] → <[w := q]> ws ≠ [].
Proof. by destruct ws, w. Qed.

(** A worker goes on without touching the queue. *)
Lemma moves_on tp w p q b : pool_ok tp → _threads tp !! w = Some p → lock_step holds p q (_mtx tp) b →
  place_ok tp q → running [p] = running [q] →
  (awake p = true → awake q = true ∨ _stop tp = true ∨ _tasks tp = []) → pool_ok (set_mtx b (set_worker w q tp)).
Proof.
  intros [He Hp Ho Hd Hs Hh] Hw Hl Hq Hr Ha. split; cbn.
  - by eapply exclusive_step.
  - intros v x [[-> ->]|[_ Hv]]%lookup_insert_cases; [done|by apply (Hp v)].
  - done.
  - by rewrite running_same.
  - by apply insert_some.
  - intros H1 H2. destruct (Hh H1 H2) as [|Hx]; [by left|right]. eapply awake_insert; [done| |done].
    intros H. destruct (Ha H) as [|[?|?]]; [done|congruence|done].
Qed.

Lemma take_ok tp w t ts : pool_ok tp → _threads tp !! w = Some Taking → _tasks tp = t :: ts →
  pool_ok (MkPool (_stop tp) false ts (<[w := Running t]> (_threads tp)) (notifying tp) (destructor tp) (added tp) (started tp ++ [t]) (finished tp)).
Proof.
  intros [He Hq Ho Hd Hs Hh] Hw Et. split; cbn.
  - eapply exclusive_step; [done|done|]. right; right; auto.
  - intros v x [[-> ->]|[Hne Hv]]%lookup_insert_cases; [done|]. specialize (Hq v x Hv). unfold place_ok in *. cbn.
    assert (holds x = false) as Hx.
    { destruct (holds x) eqn:Ex; [|done]. by destruct (Hne (excl_one _ _ _ He _ _ _ _ Hv Hw Ex eq_refl)). }
    by destruct x.
  - by rewrite <- app_assoc, <- Ho, Et.
  - pose proof (running_insert _ _ _ (Running t) Hw) as Hr. cbn in Hr. rewrite app_nil_r in Hr. by rewrite Hr, app_assoc, Hd.
  - by apply insert_some.
  - intros _ _. right. by eapply awake_at.
Qed.

Lemma finish_ok tp w t : pool_ok tp → _threads tp !! w = Some (Running t) →
  pool_ok (MkPool (_stop tp) (_mtx tp) (_tasks tp) (<[w := Top]> (_threads tp)) (notifying tp) (destructor tp) (added tp) (started tp) (finished tp ++ [t])).
Proof.
  intros [He Hq Ho Hd Hs Hh] Hw. split; cbn.
  - eapply exclusive_step; [done|done|]. by left.
  - intros v x [[-> ->]|[_ Hv]]%lookup_insert_cases; [done|by apply (Hq v)].
  - done.
  - pose proof (running_insert _ _ _ Top Hw) as Hr. cbn in Hr. rewrite app_nil_r in Hr.
    by rewrite <- app_assoc, (Permutation_app_comm [t]), Hr.
  - by apply insert_some.
  - intros _ _. right. by eapply awake_at.
Qed.

Lemma work_ok tp w p : pool_ok tp → _threads tp !! w = Some p → ∃ tp', work w p tp = Ret tp' ∧ pool_ok tp'.
Proof.
  intros Hok Hw. pose proof (po_place _ Hok w p Hw) as Hp.
  assert (∀ q b, lock_step holds p q (_mtx tp) b → place_ok tp q → running [p] = running [q] →
    (awake p = true → awake q = true ∨ _stop tp = true ∨ _tasks tp = []) →
    pool_ok (set_mtx b (set_worker w q tp))) as Hgo by (intros; by eapply moves_on).
  destruct p as [| | | | | | |t|]; cbn [work].
  - eexists. split; [done|]. destruct (_stop tp) eqn:E.
    + apply (Hgo Exited (_mtx tp)); cbn; [by left|done|done|auto].
    + apply (Hgo Locking (_mtx tp)); cbn; [by left|done|done|auto].
  - eexists. split; [done|]. destruct (_mtx tp) eqn:E; [done|]. apply (Hgo Checking true); cbn; [by right; left|done|done|auto].
  - eexists. split; [done|]. destruct (_stop tp) eqn:E; [|destruct (_tasks tp) eqn:Et]; simpl.
    + apply (Hgo Reloading (_mtx tp)); cbn; [by left|by left|done|auto].
    + apply (Hgo Parking (_mtx tp)); cbn; [by left|done|done|auto].
    + apply (Hgo Reloading (_mtx tp)); cbn; [by left|right; by rewrite Et|done|auto].
  - eexists. split; [done|]. apply (Hgo Blocked false); cbn; [right; right; auto|done|done|done].
  - by exists tp.
  - eexists. split; [done|]. destruct (_stop tp) eqn:E.
    + apply (Hgo Exited false); cbn; [right; right; auto|done|done|auto].
    + destruct Hp as [Hp|Hp]; [congruence|]. apply (Hgo Taking (_mtx tp)); cbn; [by left|done|done|auto].
  - cbn in Hp. destruct (_tasks tp) as [|t ts] eqn:Et; [done|]. eexists. split; [done|]. by apply take_ok.
  - eexists. split; [done|]. by apply finish_ok.
  - by exists tp.
Qed.

Lemma add_ok tp t : pool_ok tp → pool_ok (add t tp).
Proof.
  intros Hok. unfold add. destruct (_mtx tp) eqn:Em; [done|]. destruct (_stop tp) eqn:Es; [done|]. simpl.
  destruct Hok as [He Hq Ho Hd Hs Hh]. split; cbn; try done; [by rewrite <- Em| |by rewrite <- Ho, app_assoc|intros; left; lia].
  intros w p Hw. specialize (Hq w p Hw). assert (holds p = false) as Hx.
  { destruct (holds p) eqn:Ex; [|done]. by rewrite (excl_locked _ _ _ He w p Hw Ex) in Em. }
  destruct p; cbn in *; try done. congruence.
Qed.

Lemma wake_ok tp w p : pool_ok tp → _threads tp !! w = Some p → pool_ok (set_worker w (wake p) tp).
Proof.
  intros Hok Hw. pose proof (po_place _ Hok w p Hw) as Hp.
  change (pool_ok (set_mtx (_mtx tp) (set_worker w (wake p) tp))). eapply moves_on; [done|done| | | |].
  - left. by destruct p.
  - by destruct p.
  - by destruct p.
  - intros H. left. by destruct p.
Qed.

(** When a task waits and no worker is blocked, somebody is awake. *)
Lemma someone_awake tp : pool_ok tp → _stop tp = false → _tasks tp ≠ [] → existsb is_blocked (_threads tp) = false →
  Exists (λ p, awake p = true) (_threads tp).
Proof.
  intros [_ Hq _ _ Hs _] H1 H2 Hb. destruct (_threads tp) as [|p ws]; [done|]. left.
  specialize (Hq 0%nat p eq_refl). cbn in Hb. apply orb_false_iff in Hb as [Hb _].
  destruct p; cbn in *; congruence.
Qed.

Lemma notify_ok tp w : pool_ok tp → pool_ok (notify_one w tp).
Proof.
  intros Hok. unfold notify_one. destruct (notifying tp) as [|k] eqn:Ek; [done|].
  destruct (existsb is_blocked (_threads tp)) eqn:Eb.
  - destruct (_threads tp !! w) as [[]|] eqn:Ew; try done. pose proof (wake_ok tp w _ Hok Ew) as [He Hq Ho Hd Hs _].
    split; cbn in *; try done. intros _ _. right. by eapply awake_at.
  - pose proof (someone_awake tp Hok) as Ha. destruct Hok as [He Hq Ho Hd Hs Hh]. split; cbn; try done. intros. right. by apply Ha.
Qed.

Lemma destroy_ok tp : pool_ok tp → pool_ok (destroy tp).
Proof.
  intros Hok. pose proof Hok as [He Hq Ho Hd Hs Hh]. unfold destroy. destruct (destructor tp).
  - split; cbn; try done. intros w p Hw. specialize (Hq w p Hw). destruct p; cbn in *; auto.
  - assert (∀ q, holds (wake q) = holds q) as Hwk by by intros [].
    assert (∀ w p, map wake (_threads tp) !! w = Some p → ∃ q, _threads tp !! w = Some q ∧ p = wake q) as Hm.
    { intros w p Hw. apply list_lookup_fmap_Some in Hw as (q & -> & Hq'). by exists q. }
    split; cbn; try done.
    + destruct He as [H1 H2 H3]. split.
      * intros w p (q & Hw & ->)%Hm. rewrite Hwk. by eapply H1.
      * intros w v p q (p' & Hw & ->)%Hm (q' & Hv & ->)%Hm. rewrite !Hwk. by eapply H2.
      * intros Hl. destruct (H3 Hl) as (w & p & Hw & Hp). exists w, (wake p). split; [|by rewrite Hwk].
        apply list_lookup_fmap_Some. by exists p.
    + intros w p (q & Hw & ->)%Hm. specialize (Hq w q Hw). by destruct q.
    + etrans; [|exact Hd]. apply Permutation_app_head, reflexive_eq. clear. generalize (_threads tp).
      intros ws. unfold running. induction ws as [|[] ws IH]; simpl; first [done | exact IH | by f_equal].
    + by destruct (_threads tp).
    + intros H1 H2. destruct (Hh H1 H2) as [|Hx]; [by left|right].
      apply Exists_exists in Hx as (p & Hp & Ha). apply Exists_exists. exists (wake p). split; [by apply list_elem_of_fmap_2|by destruct p].
  - destruct (forallb _ _); [|done]. by split.
  - done.
Qed.

Lemma pool_step_ok tp ev : pool_ok tp → ∃ tp', step ev tp = Ret tp' ∧ pool_ok tp'.
Proof.
  intros Hok. destruct ev as [w|t|w| |w]; cbn [step].
  - destruct (_threads tp !! w) as [p|] eqn:Hw; [by apply work_ok|by exists tp].
  - eexists. split; [done|]. by apply add_ok.
  - eexists. split; [done|]. by apply notify_ok.
  - eexists. split; [done|]. by apply destroy_ok.
  - eexists. split; [done|]. destruct (_threads tp !! w) as [p|] eqn:Hw; [by apply wake_ok|done].
Qed.

Lemma run_ok evs : ∀ tp, pool_ok tp → ∃ tp', run evs tp = Ret tp' ∧ pool_ok tp'.
Proof.
  induction evs as [|ev evs IH]; intros tp Hok; cbn [run]; [by eexists|].
  destruct (pool_step_ok tp ev Hok) as (tp1 & -> & Hok1). by apply IH.
Qed.

Lemma new_ok n hc : 0 < (if n <=? 0 then hc else n) → pool_ok (new_ThreadPool n hc).
Proof.
  intros Hn. unfold new_ThreadPool. destruct (Z.to_nat _) as [|k] eqn:E; [lia|]. split; cbn; try done.
  - by apply (exclusive_replicate _ (S k)).
  - intros w p Hw. by apply (lookup_replicate (S k)) in Hw as [-> _].
  - clear E. by induction k.
Qed.
End Pool.

(** C23 (invariant): whatever is added and however the steps of workers, adders and destructor
    interleave, no worker takes from an empty queue; the tasks start in the order in which
    they were added and each once; those started are finished or running; at most one thread
    is behind the mutex; and no wake-up for a task gets lost: while the pool is not stopped
    and a task waits, a notification is on its way or a worker is awake. *)
Theorem pool_runs {T} n hardware_concurrency (evs : list (event T)) :
  0 < (if n <=? 0 then hardware_concurrency else n) →
  ∃ tp, run evs (new_ThreadPool n hardware_concurrency) = Ret tp ∧
    started tp ++ _tasks tp = added tp ∧
    finished tp ++ running (_threads tp) ≡ₚ started tp ∧
    exclusive holds (_mtx tp) (_threads tp) ∧
    (_stop tp = false → _tasks tp ≠ [] → (0 < notifying tp)%nat ∨ ∃ w p, _threads tp !! w = Some p ∧ awake p = true).
Proof.
  intros Hn. destruct (run_ok evs _ (new_ok n hardware_concurrency Hn)) as (tp & E & [He _ Ho Hd _ Hh]).
  exists tp. split_and!; try done. intros H1 H2. destruct (Hh H1 H2) as [|(p & Hp & Ha)%Exists_exists]; [by left|right].
  apply list_elem_of_lookup in Hp as [w Hw]. by exists w, p.
Qed.

(** ** The destructor may wait for ever *)

Section Hang.
Context {T : Type}.
Implicit Types (tp : ThreadPool T) (ev : event T).

(** A worker found nothing to do, the destructor stopped and notified, and then the worker
    blocked. *)
Definition missed : list (event T) := [Work 0; Work 0; Work 0; Destroy; Destroy; Work 0].
Definition asleep : ThreadPool T := MkPool true false [] [Blocked] 0 Joining [] [] [].

Lemma hang_step ev : (∀ w, ev ≠ Spurious w) → step ev asleep = Ret asleep.
Proof. intros Hs. destruct ev as [[|w]|t|w| |w]; try done. by destruct (Hs w). Qed.

Lemma hang_run evs : (∀ w, Spurious w ∉ evs) → run evs asleep = Ret asleep.
Proof.
  induction evs as [|ev evs IH]; intros Hs; [done|]. cbn [run]. rewrite hang_step.
  - cbn [mbind outcome_bind]. apply IH. intros w Hw. apply (Hs w). by right.
  - intros w ->. apply (Hs w). by left.
Qed.
End Hang.

(** [stop] stores its flag without the mutex, so the notification of the destructor
    can fall between a worker's test and its wait.  The worker then sleeps and the destructor
    waits for it whatever else happens, unless the wait ends without a notification.  And
    the destructor drops the tasks that no worker has taken: [add] accepted them, they never
    run. *)
Theorem stop_hangs {T} (t : T) (evs : list (event T)) :
  (∀ w, Spurious w ∉ evs) →
  (∃ tp, run (missed ++ evs) (new_ThreadPool 1 0) = Ret tp ∧ destructor tp = Joining ∧ _threads tp = [Blocked]) ∧
  ∃ tp, run [Add t; NotifyOne 0; Destroy; Destroy; Work 0; Destroy] (new_ThreadPool 1 0) = Ret tp ∧
    destructor tp = Gone ∧ added tp = [t] ∧ started tp = [].
Proof.
  intros Hs. split; [|by eexists]. exists asleep. split; [|done]. change (run evs asleep = Ret (@asleep T)). by apply hang_run.
Qed.

Lemma pool_runs_witness : ∃ tp,
  run ([Add 7; NotifyOne 0; Add 8; Add 9] ++ replicate 6 (Work 1) ++ replicate 6 (Work 0)) (new_ThreadPool 0 2) = Ret tp ∧
  started tp ++ _tasks tp = added tp.
Proof.
  destruct (pool_runs 0 2 ([Add 7; NotifyOne 0; Add 8; Add 9] ++ replicate 6 (Work 1) ++ replicate 6 (Work 0)) ltac:(done)) as (tp & E & Ho & _).
  exists tp. split; [exact E|exact Ho].
Defined.

Lemma stop_hangs_witness : ∃ tp : ThreadPool Z, run (missed ++ [Work 0; Add 3; Destroy; NotifyOne 0]) (new_ThreadPool 1 0) = Ret tp ∧
  destructor tp = Joining ∧ _threads tp = [Blocked].
Proof.
  apply (stop_hangs 7 [Work 0; Add 3; Destroy; NotifyOne 0]). intros w Hw. apply list_elem_of_In in Hw. cbn in Hw. intuition discriminate.
Defined.
