(* ===== verification/Graph.v ===== *)
(** * Shortest times in a graph: src/tests/graph/dijkstra.cpp

    Undirected graphs of at most a hundred nodes, with a matrix of costs, and the time a
    message needs from one node to all.  Here the operations, and the theorem that the time is
    the greatest of the least costs of paths. *)

From S2P Require Import Prelude CLib.

(** [int] addition. *)
Definition add_int (a b : Z) : outcome Z := if in_range 32 (a + b) then Ret (a + b) else Undef.

(** ** The graph *)

Definition NODE_MIN : Z := 1.
Definition NODE_MAX : Z := 100.
Definition COST_SELF : Z := 0.
Definition COST_UNREACHABLE : Z := -1.
Record graph := MkGraph { node_num : nat; cost_matrix : list Z; cost_lowest : list Z; flag_lowest : list Z }.

(** [None] is the null pointer; memory does not run out. *)
Definition graph_create (node_num : Z) : option graph :=
  if (NODE_MIN <=? node_num) && (node_num <=? NODE_MAX) then
    let n := Z.to_nat node_num in
    Some (MkGraph n (flat_map (λ j, map (λ i, if Nat.eqb i j then COST_SELF else COST_UNREACHABLE) (seq 0 n)) (seq 0 n))
            (replicate n COST_UNREACHABLE) (replicate n 0))
  else None.

Definition is_node (g : graph) (id : Z) : bool := (0 <=? id) && (id <? Z.of_nat (node_num g)).
Definition graph_set_edge (g : graph) (from_id to_id cost : Z) : outcome graph :=
  if negb (is_node g from_id) then Ret g
  else if negb (is_node g to_id) then Ret g
  else if negb ((0 <=? cost) || (cost =? COST_UNREACHABLE)) then Ret g
  else
    let from := Z.to_nat from_id in
    let to := Z.to_nat to_id in
    m ← wr (from * node_num g + to) cost (cost_matrix g);
    m ← wr (to * node_num g + from) cost m;
    Ret (MkGraph (node_num g) m (cost_lowest g) (flag_lowest g)).

Section Spread.
Context (n : nat) (m : list Z).

Definition reset (entry i : nat) (st : list Z * list Z) : outcome (list Z * list Z) :=
  let '(cl, fl) := st in
  c ← rd m (i * n + entry); cl ← wr i c cl; fl ← wr i 0 fl; Ret (cl, fl).
(** The search for the nearest node that is not done; [None] is -1. *)
Definition nearest (cl fl : list Z) (i : nat) (st : option nat * Z) : outcome (option nat * Z) :=
  let '(node, cost) := st in
  f ← rd fl i;
  if negb (f =? 0) then Ret (node, cost)
  else
    c ← rd cl i;
    if (cost =? COST_UNREACHABLE) || (negb (c =? COST_UNREACHABLE) && (c <? cost)) then Ret (Some i, c) else Ret (node, cost).
Definition relax (fl : list Z) (node : nat) (cost : Z) (i : nat) (cl : list Z) : outcome (list Z) :=
  cost_node ← rd m (i * n + node);
  f ← rd fl i;
  if negb (f =? 0) then Ret cl
  else if cost_node =? COST_UNREACHABLE then Ret cl
  else
    s ← add_int cost cost_node;
    c ← rd cl i;
    if (s <? c) || (c =? COST_UNREACHABLE) then wr i s cl else Ret cl.
Fixpoint grow (turns : nat) (cl fl : list Z) : outcome (list Z * list Z) :=
  match turns with
  | O => Ret (cl, fl)
  | S turns =>
      '(node, cost) ← for_ 0 n (nearest cl fl) (None, COST_UNREACHABLE);
      match node with
      | Some node =>
          if cost =? COST_UNREACHABLE then Ret (cl, fl)
          else
            fl ← wr node 1 fl;
            cl ← for_ 0 n (relax fl node cost) cl;
            grow turns cl fl
      | None => Ret (cl, fl)
      end
  end.
(** The greatest of the costs from [i] on; a node that is not reached ends the search. *)
Fixpoint farthest (i k : nat) (cost_largest : Z) (cl : list Z) : outcome Z :=
  match k with
  | O => Ret cost_largest
  | S k =>
      c ← rd cl i;
      if c =? COST_UNREACHABLE then Ret (-1)
      else farthest (S i) k (if (cost_largest =? COST_UNREACHABLE) || (cost_largest <? c) then c else cost_largest) cl
  end.
End Spread.

Definition graph_spread_message (g : graph) (entry_id : Z) : outcome (Z * graph) :=
  if negb (is_node g entry_id) then Ret (-1, g)
  else
    let n := node_num g in
    let entry := Z.to_nat entry_id in
    '(cl, fl) ← for_ 0 n (reset n (cost_matrix g) entry) (cost_lowest g, flag_lowest g);
    cl ← wr entry 0 cl;
    fl ← wr entry 1 fl;
    '(cl, fl) ← grow n (cost_matrix g) n cl fl;
    r ← farthest 0 n COST_UNREACHABLE cl;
    Ret (r, MkGraph n (cost_matrix g) cl fl).

(** The example at the end of the file. *)
Definition set_edges (es : list (Z * Z * Z)) (g : graph) : outcome graph :=
  foldl (λ g e, g ← g; graph_set_edge g (fst (fst e)) (snd (fst e)) (snd e)) (Ret g) es.
Definition unittest_edges : list (Z * Z * Z) :=
  [(0, 1, 50); (0, 2, 30); (0, 3, 100); (0, 4, 10); (1, 2, 5); (1, 3, 20); (2, 3, 50); (3, 4, 10)].
Example unittest_graph :
  map (λ id, match graph_create 5 with
             | Some g => match g ← set_edges unittest_edges g; graph_spread_message g id with Ret (r, _) => r | _ => -2 end
             | None => -3
             end) [0; 1; 2; 3; 4; 5] = [35; 35; 35; 25; 35; -1].
Proof. vm_compute. reflexivity. Qed.

Lemma add_int_small a b : 0 ≤ a + b < 2 ^ 31 → add_int a b = Ret (a + b).
Proof. intros H. unfold add_int. by rewrite (proj2 (in_range_spec 32 (a + b))) by (unfold sfits; lia). Qed.

(** ** Least costs *)

(** A way to the entry along edges, and what it costs; [w i k] is -1 where there is no edge. *)
Inductive path (n : nat) (w : nat → nat → Z) (entry : nat) : nat → Z → Prop :=
| path_entry : path n w entry entry 0
| path_edge i k d : (i < n)%nat → (k < n)%nat → w i k ≠ -1 → path n w entry k d → path n w entry i (w i k + d).
Definition least (n : nat) (w : nat → nat → Z) (entry i : nat) (d : Z) : Prop := path n w entry i d ∧ ∀ d', path n w entry i d' → d ≤ d'.

Lemma path_ext n w w' entry i d : (∀ i k, (i < n)%nat → (k < n)%nat → w i k = w' i k) → path n w entry i d → path n w' entry i d.
Proof.
  intros Hw. induction 1 as [|i k d Hi Hk Hik Hp IH]; [constructor|]. rewrite Hw in * by done. by constructor.
Qed.
Lemma least_ext n w w' entry i d : (∀ i k, (i < n)%nat → (k < n)%nat → w i k = w' i k) → least n w entry i d → least n w' entry i d.
Proof.
  intros Hw [Hp Hl]. split; [by eapply path_ext|]. intros d' Hd'. apply Hl. eapply path_ext; [|exact Hd']. intros; symmetry; auto.
Qed.

Section Costs.
Context (n : nat) (m : list Z) (entry : nat) (C : Z).
Context (Hm : length m = (n * n)%nat) (He : (entry < n)%nat).
Context (Hc : Forall (λ x, -1 ≤ x ≤ C) m) (HC : 0 ≤ C) (Hmax : Z.of_nat n * C < 2 ^ 31).

Definition cost (i j : nat) : Z := m !!! (i * n + j)%nat.
Abbreviation path := (path n cost entry).

Lemma cell_lt i j : (i < n)%nat → (j < n)%nat → (i * n + j < length m)%nat.
Proof using All. intros Hi Hj. rewrite Hm. nia. Qed.
Lemma cost_range i j : (i < n)%nat → (j < n)%nat → -1 ≤ cost i j ≤ C.
Proof using All. intros Hi Hj. apply (Forall_lookup_1 (λ x, -1 ≤ x ≤ C) m (i * n + j)%nat _ Hc). unfold cost. apply list_lookup_lookup_total_lt. by apply cell_lt. Qed.
Lemma path_nonneg i d : path i d → 0 ≤ d.
Proof using All. induction 1 as [|i k d Hi Hk Hik Hp IH]; [lia|]. pose proof (cost_range i k Hi Hk). lia. Qed.

Definition flagged (fl : list Z) (i : nat) : Prop := fl !!! i ≠ 0.
Definition done_nodes (fl : list Z) : nat := length (filter (λ x, x ≠ 0) fl).

Record grown (cl fl : list Z) : Prop := {
  gr_cl : length cl = n;
  gr_fl : length fl = n;
  gr_entry : flagged fl entry ∧ cl !!! entry = 0;
  gr_path i : (i < n)%nat → cl !!! i ≠ -1 → path i (cl !!! i) ∧ cl !!! i ≤ Z.of_nat (done_nodes fl) * C;
  gr_done i : (i < n)%nat → flagged fl i → cl !!! i ≠ -1 ∧ ∀ d, path i d → cl !!! i ≤ d;
  gr_near i k : (i < n)%nat → (k < n)%nat → ¬ flagged fl i → flagged fl k → cost i k ≠ -1 →
    cl !!! i ≠ -1 ∧ cl !!! i ≤ cost i k + cl !!! k
}.

(** A way out of the nodes that are not done passes one that the table knows. *)
Lemma first_known cl fl i d : grown cl fl → path i d → (i < n)%nat → ¬ flagged fl i →
  ∃ x, (x < n)%nat ∧ ¬ flagged fl x ∧ cl !!! x ≠ -1 ∧ cl !!! x ≤ d.
Proof using All.
  intros Hg. induction 1 as [|i k d Hi Hk Hik Hp IH]; intros _ Hf; [by destruct Hf; apply Hg|].
  pose proof (cost_range i k Hi Hk). destruct (decide (fl !!! k = 0)) as [Hk0|Hk0].
  - destruct IH as (x & Hx & Hxf & Hxc & Hxd); [done|by intros ?|]. exists x. split_and!; [done..|lia].
  - destruct (gr_near _ _ Hg i k) as [H1 H2]; [done..|]. pose proof (proj2 (gr_done _ _ Hg k Hk Hk0) d Hp). exists i. split_and!; [done..|lia].
Qed.

Lemma done_bound fl : length fl = n → (done_nodes fl ≤ n)%nat.
Proof using All. intros <-. apply length_filter. Qed.
Lemma done_insert fl u : (u < length fl)%nat → ¬ flagged fl u → done_nodes (<[u:=1]> fl) = S (done_nodes fl).
Proof using All.
  unfold flagged, done_nodes. intros Hu Hf. destruct (decide (fl !!! u = 0)) as [H0|]; [|done].
  pose proof (list_lookup_lookup_total_lt fl u Hu) as El. rewrite H0 in El.
  rewrite <- (take_drop_middle fl u 0 El) at 2. rewrite insert_take_drop by done. rewrite !filter_app, !length_app, !filter_cons.
  rewrite decide_True, decide_False by (lia || (intros ?; lia)). cbn [length]. lia.
Qed.
Lemma done_room fl u : length fl = n → (u < n)%nat → ¬ flagged fl u → (S (done_nodes fl) ≤ n)%nat.
Proof using All. intros Hl Hu Hf. rewrite <- (done_insert fl u) by (lia || done). apply done_bound. by rewrite length_insert. Qed.

(** The search: a nearest node among those that are not done, or none that is reached. *)
Definition nearest_of (cl fl : list Z) (k : nat) (st : option nat * Z) : Prop :=
  match st with
  | (Some u, c) => (u < k)%nat ∧ ¬ flagged fl u ∧ c = cl !!! u ∧ (∀ i, (i < k)%nat → ¬ flagged fl i → cl !!! i ≠ -1 → c ≠ -1 ∧ c ≤ cl !!! i)
  | (None, c) => c = -1 ∧ ∀ i, (i < k)%nat → flagged fl i
  end.
Lemma nearest_spec cl fl : length cl = n → length fl = n →
  ∃ st, for_ 0 n (nearest cl fl) (None, COST_UNREACHABLE) = Ret st ∧ nearest_of cl fl n st.
Proof using All.
  intros Hcl Hfl. apply (for_inv (nearest_of cl fl)); [split; [done|lia]|].
  intros i [node c] Hi Hst. unfold nearest. rewrite (rd_total fl) by lia. cbn [mbind outcome_bind].
  destruct (Z.eqb_spec (fl !!! i) 0) as [Hf|Hf]; cbn [negb].
  - rewrite rd_total by lia. cbn [mbind outcome_bind]. assert (¬ flagged fl i) as Hnf by (unfold flagged; lia).
    destruct ((c =? COST_UNREACHABLE) || _) eqn:Eb; (eexists; split; [done|]).
    + split_and!; [lia|done|done|]. intros j Hj Hjf Hjc. destruct (decide (j = i)) as [-> |Hne]; [lia|].
      apply orb_true_iff in Eb as [->%Z.eqb_eq|(H1%negb_true_iff%Z.eqb_neq & H2%Z.ltb_lt)%andb_true_iff]; unfold COST_UNREACHABLE in *.
      * exfalso. destruct node as [u|]; [destruct Hst as (_ & _ & _ & Hall); by destruct (Hall j) as [? _]; [lia|..]|].
        destruct Hst as [_ Hall]. apply Hjf, Hall. lia.
      * split; [done|]. destruct node as [u|]; [|destruct Hst as [_ Hall]; destruct Hjf; apply Hall; lia].
        destruct Hst as (_ & _ & _ & Hall). destruct (Hall j) as [_ ?]; [lia|done|done|lia].
    + apply orb_false_iff in Eb as [H1%Z.eqb_neq H2]. unfold COST_UNREACHABLE in *. destruct node as [u|]; [|destruct Hst as [? _]; lia].
      destruct Hst as (Hu & Huf & -> & Hall). split_and!; [lia|done|done|]. intros j Hj Hjf Hjc. destruct (decide (j = i)) as [-> |Hne]; [|apply Hall; [lia|done|done]].
      apply andb_false_iff in H2 as [H2|H2%Z.ltb_ge]; [apply negb_false_iff, Z.eqb_eq in H2; lia|lia].
  - exists (node, c). split; [done|]. destruct node as [u|].
    + destruct Hst as (Hu & Huf & -> & Hall). split_and!; [lia|done|done|]. intros j Hj Hjf Hjc.
      destruct (decide (j = i)) as [-> |Hne]; [by destruct Hjf|apply Hall; [lia|done|done]].
    + destruct Hst as [-> Hall]. split; [done|]. intros j Hj. destruct (decide (j = i)) as [-> |Hne]; [done|apply Hall; lia].
Qed.

(** One round of the loop over the other nodes. *)
Definition relaxed (fl : list Z) (u : nat) (c : Z) (cl : list Z) (i : nat) : Z :=
  if decide (fl !!! i = 0 ∧ cost i u ≠ -1 ∧ (c + cost i u < cl !!! i ∨ cl !!! i = -1)) then c + cost i u else cl !!! i.
Lemma relax_spec fl u c cl : length fl = n → length cl = n → (u < n)%nat → 0 ≤ c → c + C < 2 ^ 31 →
  ∃ cl', for_ 0 n (relax n m fl u c) cl = Ret cl' ∧ length cl' = n ∧ ∀ i, (i < n)%nat → cl' !!! i = relaxed fl u c cl i.
Proof using All.
  intros Hfl Hcl Hu Hc0 Hc1.
  destruct (for_inv (λ k cl', length cl' = n ∧ ∀ i, (i < n)%nat → cl' !!! i = if decide (i < k)%nat then relaxed fl u c cl i else cl !!! i) 0 n (relax n m fl u c) cl)
    as (cl' & E & Hl & H); [done| |exists cl'; split; [done|]; split; [done|]; intros i Hi; by rewrite H, decide_True by lia].
  intros k cl' Hk [Hl H]. unfold relax. rewrite (rd_total m) by (apply cell_lt; lia). cbn [mbind outcome_bind]. fold (cost k u).
  rewrite (rd_total fl) by lia. cbn [mbind outcome_bind]. pose proof (cost_range k u ltac:(lia) Hu) as Hr. pose proof (H k ltac:(lia)) as Hk'. rewrite decide_False in Hk' by lia.
  assert (∀ x, relaxed fl u c cl k = x → length (<[k:=x]> cl') = n ∧ ∀ i, (i < n)%nat → <[k:=x]> cl' !!! i = if decide (i < S k)%nat then relaxed fl u c cl i else cl !!! i) as Hset.
  { intros x Hx. split; [by rewrite length_insert|]. intros i Hi. destruct (decide (i = k)) as [-> |Hne].
    - rewrite list_lookup_total_insert_eq, decide_True by lia. done.
    - rewrite list_lookup_total_insert_ne, H by done. destruct (decide (i < k)%nat), (decide (i < S k)%nat); done || lia. }
  assert (relaxed fl u c cl k = cl !!! k → length cl' = n ∧ ∀ i, (i < n)%nat → cl' !!! i = if decide (i < S k)%nat then relaxed fl u c cl i else cl !!! i) as Hkeep.
  { intros Hx. split; [done|]. intros i Hi. rewrite H by done. destruct (decide (i < k)%nat), (decide (i < S k)%nat); [done|lia| |done]. replace i with k by lia. done. }
  unfold COST_UNREACHABLE. destruct (Z.eqb_spec (fl !!! k) 0) as [H0|H0]; cbn [negb]; [|exists cl'; split; [done|]; apply Hkeep; unfold relaxed; by rewrite decide_False by tauto].
  destruct (Z.eqb_spec (cost k u) (-1)) as [H1|H1]; [exists cl'; split; [done|]; apply Hkeep; unfold relaxed; by rewrite decide_False by tauto|].
  rewrite add_int_small by lia. cbn [mbind outcome_bind]. rewrite (rd_total cl') by lia. cbn [mbind outcome_bind]. rewrite Hk'.
  destruct (Z.ltb_spec (c + cost k u) (cl !!! k)), (Z.eqb_spec (cl !!! k) (-1)); cbn [orb];
    first [rewrite wr_total by lia; eexists; (split; [done|]); apply Hset; unfold relaxed; by rewrite decide_True by tauto
          |exists cl'; (split; [done|]); apply Hkeep; unfold relaxed; by rewrite decide_False by lia].
Qed.

Lemma grown_step cl fl cl' u : grown cl fl → (u < n)%nat → ¬ flagged fl u → cl !!! u ≠ -1 →
  (∀ i, (i < n)%nat → ¬ flagged fl i → cl !!! i ≠ -1 → cl !!! u ≤ cl !!! i) → length cl' = n →
  (∀ i, (i < n)%nat → cl' !!! i = relaxed (<[u:=1]> fl) u (cl !!! u) cl i) → grown cl' (<[u:=1]> fl).
Proof using All.
  intros Hg Hu Huf Huc Hleast Hl H. pose proof (gr_fl _ _ Hg) as Hfl. pose proof (done_insert fl u ltac:(lia) Huf) as Hdone.
  assert (∀ i, (i < n)%nat → flagged (<[u:=1]> fl) i ↔ i = u ∨ flagged fl i) as Hflag.
  { intros i Hi. unfold flagged. destruct (decide (i = u)) as [-> |Hne]; [rewrite list_lookup_total_insert_eq by lia; split; [by left|lia]|].
    rewrite list_lookup_total_insert_ne by done. split; [by right|by intros [?|?]]. }
  assert (∀ i, (i < n)%nat → flagged (<[u:=1]> fl) i → cl' !!! i = cl !!! i) as Hkept.
  { intros i Hi Hf. rewrite H by done. unfold relaxed. by rewrite decide_False by (intros (? & _); by apply Hf). }
  pose proof (gr_path _ _ Hg u Hu Huc) as [Hup Hub]. pose proof (path_nonneg _ _ Hup) as Hu0. destruct (gr_entry _ _ Hg) as [Hef He0].
  split; [done|by rewrite length_insert| | | |].
  - assert (flagged (<[u:=1]> fl) entry) as Hf by (apply Hflag; [done|by right]). split; [done|]. by rewrite Hkept.
  - intros i Hi Hne. rewrite H in Hne |- * by done. rewrite Hdone, Nat2Z.inj_succ, Z.mul_succ_l. unfold relaxed in *. destruct (decide _) as [(_ & Hcu & _)|_].
    + pose proof (cost_range i u Hi Hu). split; [|lia]. rewrite Z.add_comm. by apply path_edge.
    + destruct (gr_path _ _ Hg i Hi Hne). split; [done|lia].
  - intros i Hi Hf. rewrite Hkept by done. apply Hflag in Hf as [-> |Hf]; [|by apply (gr_done _ _ Hg)|done]. split; [done|].
    intros d Hp. destruct (first_known cl fl u d Hg Hp Hu Huf) as (x & Hx & Hxf & Hxc & Hxd). specialize (Hleast x Hx Hxf Hxc). lia.
  - intros i k Hi Hk Hif Hkf Hik. rewrite (Hkept k) by done. rewrite (H i Hi). pose proof (cost_range i u Hi Hu) as Hru.
    assert (fl !!! i = 0 ∧ i ≠ u) as [Hi0 Hiu].
    { split; [destruct (decide (fl !!! i = 0)); [done|]; destruct Hif; apply Hflag; [done|by right]|]. intros ->. apply Hif, Hflag; [done|by left]. }
    assert (<[u:=1]> fl !!! i = 0) as Hi1 by by rewrite list_lookup_total_insert_ne. unfold relaxed. rewrite Hi1.
    apply Hflag in Hkf as [-> |Hkf]; [| |done].
    + destruct (decide _) as [_|Hn]; [split; lia|]. destruct (decide (cl !!! i = -1)); [destruct Hn; tauto|]. split; [done|].
      destruct (Z.le_gt_cases (cl !!! i) (cost i u + cl !!! u)); [done|]. destruct Hn. split; [done|]. split; [done|]. left. lia.
    + destruct (gr_near _ _ Hg i k Hi Hk) as [H1 H2]; [unfold flagged; lia|done|done|]. destruct (decide _) as [(_ & Hcu & Hor)|_]; [|done]. split; lia.
Qed.

Lemma grow_spec turns : ∀ cl fl, grown cl fl → (n + 1 ≤ turns + done_nodes fl)%nat →
  ∃ cl' fl', grow n m turns cl fl = Ret (cl', fl') ∧ grown cl' fl' ∧ ∀ i, (i < n)%nat → ¬ flagged fl' i → cl' !!! i = -1.
Proof using All.
  induction turns as [|turns IH]; intros cl fl Hg Ht.
  { pose proof (done_bound fl (gr_fl _ _ Hg)). lia. }
  cbn [grow]. destruct (nearest_spec cl fl (gr_cl _ _ Hg) (gr_fl _ _ Hg)) as ([[u|] c] & -> & Hst); cbn [mbind outcome_bind].
  - destruct Hst as (Hu & Huf & -> & Hall). destruct (Z.eqb_spec (cl !!! u) COST_UNREACHABLE) as [Ec|Ec]; unfold COST_UNREACHABLE in *.
    { exists cl, fl. split; [done|]. split; [done|]. intros i Hi Hf. destruct (decide (cl !!! i = -1)); [done|]. by destruct (Hall i Hi Hf). }
    pose proof (gr_path _ _ Hg u Hu Ec) as [Hup Hub]. pose proof (path_nonneg _ _ Hup) as Hu0. pose proof (done_room fl u (gr_fl _ _ Hg) Hu Huf) as Hroom.
    rewrite wr_total by (rewrite (gr_fl _ _ Hg); lia). cbn [mbind outcome_bind].
    destruct (relax_spec (<[u:=1]> fl) u (cl !!! u) cl) as (cl' & -> & Hl & H); [rewrite length_insert; apply Hg|apply Hg|done|done|nia|].
    cbn [mbind outcome_bind]. apply IH.
    + apply (grown_step cl); try done. intros i Hi Hf Hne. by apply Hall.
    + rewrite done_insert by (rewrite ?(gr_fl _ _ Hg); done || lia). lia.
  - destruct Hst as [-> Hall]. exists cl, fl. split; [done|]. split; [done|]. intros i Hi Hf. by destruct Hf; apply Hall.
Qed.

Lemma reset_spec cl fl : length cl = n → length fl = n → ∃ cl', for_ 0 n (reset n m entry) (cl, fl) = Ret (cl', replicate n 0) ∧ length cl' = n ∧
  ∀ i, (i < n)%nat → cl' !!! i = cost i entry.
Proof using All.
  intros Hcl Hfl. destruct (for_inv (λ k st, length (fst st) = n ∧ length (snd st) = n ∧ ∀ i, (i < k)%nat → fst st !!! i = cost i entry ∧ snd st !!! i = 0) 0 n (reset n m entry) (cl, fl))
    as ([cl' fl'] & E & Hl1 & Hl2 & H); [split; [done|split; [done|lia]]| |].
  - intros k [cl' fl'] Hk (H1 & H2 & H). cbn [fst snd] in *. unfold reset. rewrite rd_total by (apply cell_lt; lia). cbn [mbind outcome_bind].
    rewrite !wr_total by lia. cbn [mbind outcome_bind]. eexists. split; [done|]. cbn [fst snd]. rewrite !length_insert. split; [done|]. split; [done|].
    intros i Hi. destruct (decide (i = k)) as [-> |Hne]; [by rewrite !list_lookup_total_insert_eq by lia|].
    rewrite !list_lookup_total_insert_ne by done. apply H. lia.
  - cbn [fst snd] in *. assert (fl' = replicate n 0) as ->; [|exists cl'; split; [done|]; split; [done|]; intros i Hi; by apply H].
    apply list_eq. intros i. destruct (decide (i < n)%nat) as [Hi|Hi].
    + rewrite (list_lookup_lookup_total_lt fl' i) by lia. rewrite lookup_replicate_2 by done. f_equal. by apply H.
    + rewrite !lookup_ge_None_2; [done|rewrite length_replicate; lia|lia].
Qed.
Lemma grown_start cl : length cl = n → (∀ i, (i < n)%nat → cl !!! i = cost i entry) → grown (<[entry:=0]> cl) (<[entry:=1]> (replicate n 0)) ∧
  done_nodes (<[entry:=1]> (replicate n 0)) = 1%nat.
Proof using All.
  intros Hl H. assert (∀ i, (i < n)%nat → replicate n 0 !!! i = 0) as Hz by (intros i Hi; by rewrite lookup_total_replicate_2).
  assert (∀ i, (i < n)%nat → flagged (<[entry:=1]> (replicate n 0)) i ↔ i = entry) as Hflag.
  { intros i Hi. unfold flagged. destruct (decide (i = entry)) as [-> |Hne]; [rewrite list_lookup_total_insert_eq by (rewrite length_replicate; lia); split; [done|lia]|].
    rewrite list_lookup_total_insert_ne, Hz by done. split; [lia|done]. }
  assert (done_nodes (<[entry:=1]> (replicate n 0)) = 1%nat) as Hd.
  { rewrite done_insert; [|rewrite length_replicate; lia|unfold flagged; rewrite Hz by done; by intros ?]. unfold done_nodes.
    f_equal. clear. induction n as [|k IH]; [done|]. cbn [replicate]. rewrite filter_cons_False by lia. exact IH. }
  split; [|done]. split; [by rewrite length_insert|by rewrite length_insert, length_replicate| | | |].
  - split; [by apply Hflag|]. apply list_lookup_total_insert_eq. lia.
  - rewrite Hd. intros i Hi. destruct (decide (i = entry)) as [-> |Hne]; [rewrite list_lookup_total_insert_eq by lia; split; [constructor|lia]|].
    rewrite list_lookup_total_insert_ne, H by done. intros Hc'. split; [|pose proof (cost_range i entry Hi He); lia].
    rewrite <- (Z.add_0_r (cost i entry)). constructor; [done..|constructor].
  - intros i Hi ->%Hflag; [|done]. rewrite list_lookup_total_insert_eq by lia. split; [done|]. intros d Hd'. by eapply path_nonneg.
  - intros i k Hi Hk Hif ->%Hflag Hik; [|done]. rewrite list_lookup_total_insert_ne by (intros <-; by apply Hif, Hflag).
    rewrite list_lookup_total_insert_eq, H by (done || lia). split; [done|lia].
Qed.

Lemma farthest_unreached cl k : ∀ i acc, (i + k ≤ length cl)%nat → (∃ j, (i ≤ j < i + k)%nat ∧ cl !!! j = -1) → farthest i k acc cl = Ret (-1).
Proof using All.
  induction k as [|k IH]; intros i acc Hl (j & Hj & Ej); [lia|]. cbn [farthest]. rewrite rd_total by lia. cbn [mbind outcome_bind].
  unfold COST_UNREACHABLE in *. destruct (Z.eqb_spec (cl !!! i) (-1)) as [|Hne]; [done|]. apply IH; [lia|]. exists j. split; [|done].
  destruct (decide (j = i)) as [-> |]; [done|lia].
Qed.
Lemma farthest_greatest cl k : ∀ i acc, (i + k ≤ length cl)%nat → -1 ≤ acc → (∀ j, (i ≤ j < i + k)%nat → 0 ≤ cl !!! j) →
  ∃ r, farthest i k acc cl = Ret r ∧ acc ≤ r ∧ (∀ j, (i ≤ j < i + k)%nat → cl !!! j ≤ r) ∧ (r = acc ∨ ∃ j, (i ≤ j < i + k)%nat ∧ r = cl !!! j).
Proof using All.
  induction k as [|k IH]; intros i acc Hl Ha Hp; [exists acc; split; [done|]; split; [lia|]; split; [lia|by left]|].
  cbn [farthest]. rewrite rd_total by lia. cbn [mbind outcome_bind]. unfold COST_UNREACHABLE in *. pose proof (Hp i ltac:(lia)) as Hi.
  rewrite (proj2 (Z.eqb_neq (cl !!! i) (-1))) by lia. set (acc' := if _ || _ then _ else _).
  assert (acc' = Z.max acc (cl !!! i)) as Ea.
  { unfold acc'. destruct (Z.eqb_spec acc (-1)), (Z.ltb_spec acc (cl !!! i)); cbn [orb]; lia. }
  destruct (IH (S i) acc') as (r & -> & Hr & Hall & Hor); [lia|lia|intros j Hj; apply Hp; lia|]. exists r. split; [done|]. split; [lia|]. split.
  - intros j Hj. destruct (decide (j = i)) as [-> |]; [lia|]. apply Hall. lia.
  - destruct Hor as [->|(j & Hj & ->)]; [|right; exists j; split; [lia|done]]. destruct (Z.max_spec acc (cl !!! i)) as [[_ E]|[_ E]]; rewrite Ea, E; [right; exists i; split; [lia|done]|by left].
Qed.

Lemma spread_spec cl0 fl0 : length cl0 = n → length fl0 = n →
  ∃ r g, graph_spread_message (MkGraph n m cl0 fl0) (Z.of_nat entry) = Ret (r, g) ∧
    ((r = -1 ∧ ∃ i, (i < n)%nat ∧ ∀ d, ¬ path i d) ∨
     (0 ≤ r ∧ (∀ i, (i < n)%nat → ∃ d, least n cost entry i d ∧ d ≤ r) ∧ ∃ i, (i < n)%nat ∧ least n cost entry i r)).
Proof using All.
  intros Hcl Hfl. unfold graph_spread_message, is_node. cbn [node_num cost_matrix cost_lowest flag_lowest].
  rewrite (proj2 (Z.leb_le 0 _)), (proj2 (Z.ltb_lt (Z.of_nat entry) _)) by lia. cbn [andb negb]. rewrite Nat2Z.id.
  destruct (reset_spec cl0 fl0 Hcl Hfl) as (cl1 & -> & Hl1 & H1). cbn [mbind outcome_bind].
  rewrite !wr_total by (rewrite ?length_replicate; lia). cbn [mbind outcome_bind]. destruct (grown_start cl1 Hl1 H1) as [Hg Hd].
  destruct (grow_spec n _ _ Hg ltac:(lia)) as (cl & fl & -> & Hg' & Hun). cbn [mbind outcome_bind]. pose proof (gr_cl _ _ Hg') as Hl.
  assert (∀ i, (i < n)%nat → cl !!! i ≠ -1 → least n cost entry i (cl !!! i)) as Hleast.
  { intros i Hi Hne. destruct (decide (fl !!! i = 0)) as [Hf|Hf]; [by destruct Hne; apply Hun; [|intros ?]|]. split; [by apply (gr_path _ _ Hg')|].
    by apply (gr_done _ _ Hg'). }
  destruct (decide (Exists (λ x, x = -1) cl)) as [Hex|Hex].
  - apply Exists_exists in Hex as (x & [i Hi]%list_elem_of_lookup_1 & ->). pose proof (lookup_lt_Some _ _ _ Hi) as Hin. apply list_lookup_total_correct in Hi.
    rewrite farthest_unreached by (lia || (exists i; split; [lia|done])). cbn [mbind outcome_bind]. eexists _, _. split; [done|]. left. split; [done|].
    exists i. split; [lia|]. intros d Hp. destruct (decide (fl !!! i = 0)) as [Hf|Hf]; [|by destruct (gr_done _ _ Hg' i ltac:(lia) Hf)].
    destruct (first_known cl fl i d Hg' Hp) as (y & Hy & Hyf & Hyc & _); [lia|by intros ?|]. by apply Hyc, Hun.
  - apply not_Exists_Forall in Hex; [|intros ?; apply _]. assert (∀ i, (i < n)%nat → cl !!! i ≠ -1) as Hall.
    { intros i Hi. apply (Forall_lookup_1 (λ x, x ≠ -1) cl i); [exact Hex|]. apply list_lookup_lookup_total_lt. lia. }
    assert (∀ i, (i < n)%nat → 0 ≤ cl !!! i) as Hpos by (intros i Hi; destruct (Hleast i Hi (Hall i Hi)) as [Hp _]; by eapply path_nonneg).
    destruct (farthest_greatest cl n 0 COST_UNREACHABLE) as (r & -> & Hr & Hge & Hor); [lia|done|intros j Hj; apply Hpos; lia|].
    cbn [mbind outcome_bind]. eexists _, _. split; [done|]. right. assert (0 ≤ r) as Hr0 by (pose proof (Hpos 0%nat ltac:(lia)); pose proof (Hge 0%nat ltac:(lia)); lia).
    split; [done|]. split; [intros i Hi; exists (cl !!! i); split; [by apply Hleast; [|apply Hall]|apply Hge; lia]|].
    destruct Hor as [->|(j & Hj & ->)]; [done|]. exists j. split; [lia|]. apply Hleast; [lia|apply Hall; lia].
Qed.
End Costs.

(** ** Graphs as they are built *)

Definition is_id (n : nat) (id : Z) : bool := (0 <=? id) && (id <? Z.of_nat n).
(** Whether a call sets the edge between [i] and [j]. *)
Definition sets (n i j : nat) (e : Z * Z * Z) : bool :=
  is_id n (fst (fst e)) && is_id n (snd (fst e)) && ((0 <=? snd e) || (snd e =? -1)) &&
  ((Nat.eqb (Z.to_nat (fst (fst e))) i && Nat.eqb (Z.to_nat (snd (fst e))) j) || (Nat.eqb (Z.to_nat (fst (fst e))) j && Nat.eqb (Z.to_nat (snd (fst e))) i)).
(** The cost of an edge is the one of the last call that set it. *)
Definition edge_cost (n : nat) (es : list (Z * Z * Z)) (i j : nat) : Z :=
  foldl (λ c e, if sets n i j e then snd e else c) (if Nat.eqb i j then 0 else -1) es.

Record matrix_of (n : nat) (C : Z) (w : nat → nat → Z) (g : graph) : Prop := {
  mo_num : node_num g = n;
  mo_length : length (cost_matrix g) = (n * n)%nat;
  mo_cost i j : (i < n)%nat → (j < n)%nat → cost n (cost_matrix g) i j = w i j;
  mo_range : Forall (λ x, -1 ≤ x ≤ C) (cost_matrix g);
  mo_lowest : length (cost_lowest g) = n;
  mo_flags : length (flag_lowest g) = n
}.

Lemma matrix_length (f : nat → nat → Z) n k : length (flat_map (λ j, map (λ i, f i j) (seq 0 n)) (seq 0 k)) = (k * n)%nat.
Proof.
  induction k as [|k IH]; [done|]. rewrite seq_S, flat_map_app, length_app, IH. cbn [flat_map]. rewrite app_nil_r, length_map, length_seq. lia.
Qed.
Lemma rows_lookup (f : nat → nat → Z) n i j : ∀ k, (i < k)%nat → (j < n)%nat →
  flat_map (λ j, map (λ i, f i j) (seq 0 n)) (seq 0 k) !! (i * n + j)%nat = Some (f j i).
Proof.
  induction k as [|k IH]; intros Hi Hj; [lia|]. rewrite seq_S, flat_map_app. cbn [Nat.add flat_map]. rewrite app_nil_r.
  destruct (decide (i = k)) as [-> |Hne].
  - rewrite lookup_app_r by (rewrite matrix_length; lia). rewrite matrix_length. replace (k * n + j - k * n)%nat with j by lia.
    change (map (λ i, f i k) (seq 0 n)) with ((λ i, f i k) <$> seq 0 n). by rewrite list_lookup_fmap, lookup_seq_lt.
  - rewrite lookup_app_l by (rewrite matrix_length; nia). apply IH; [lia|done].
Qed.
Lemma create_matrix num C : 1 ≤ num ≤ 100 → 0 ≤ C → ∃ g, graph_create num = Some g ∧ matrix_of (Z.to_nat num) C (edge_cost (Z.to_nat num) []) g.
Proof.
  intros Hn HC. unfold graph_create, NODE_MIN, NODE_MAX. rewrite (proj2 (Z.leb_le 1 num)), (proj2 (Z.leb_le num 100)) by lia. cbn [andb].
  set (n := Z.to_nat num). set (f := λ i j, if Nat.eqb i j then COST_SELF else COST_UNREACHABLE). eexists. split; [done|]. split; cbn [node_num cost_matrix cost_lowest flag_lowest].
  - done.
  - apply (matrix_length f).
  - intros i j Hi Hj. unfold cost. apply list_lookup_total_correct. etransitivity; [exact (rows_lookup f n i j n Hi Hj)|]. unfold f. by rewrite Nat.eqb_sym.
  - apply Forall_flat_map, Forall_forall. intros j _. apply Forall_map, Forall_forall. intros i _. unfold COST_SELF, COST_UNREACHABLE. destruct (Nat.eqb i j); lia.
  - apply length_replicate.
  - apply length_replicate.
Qed.

Lemma is_id_range n id : is_id n id = true → ∃ i, (i < n)%nat ∧ id = Z.of_nat i.
Proof. unfold is_id. intros [H1%Z.leb_le H2%Z.ltb_lt]%andb_true_iff. exists (Z.to_nat id). lia. Qed.
(** Setting both halves of an edge. *)
Lemma set_both n (l : list Z) a b x i j : length l = (n * n)%nat → (a < n)%nat → (b < n)%nat → (i < n)%nat → (j < n)%nat →
  <[(b * n + a)%nat := x]> (<[(a * n + b)%nat := x]> l) !!! (i * n + j)%nat =
  if (Nat.eqb a i && Nat.eqb b j) || (Nat.eqb a j && Nat.eqb b i) then x else l !!! (i * n + j)%nat.
Proof.
  intros Hl Ha Hb Hi Hj. assert (∀ p q, (p < n)%nat → (q < n)%nat → (p * n + q = i * n + j)%nat ↔ p = i ∧ q = j) as Hkey.
  { intros p q Hp Hq. split; [|by intros [-> ->]]. intros E. destruct (Nat.lt_trichotomy p i) as [?|[->|?]]; [nia|lia|nia]. }
  destruct (decide ((b * n + a)%nat = (i * n + j)%nat)) as [E|E].
  - rewrite E, list_lookup_total_insert_eq by (rewrite length_insert; nia). apply Hkey in E as [-> ->]; [|done..].
    by rewrite !Nat.eqb_refl, orb_true_r.
  - rewrite list_lookup_total_insert_ne by done. destruct (decide ((a * n + b)%nat = (i * n + j)%nat)) as [E'|E'].
    + rewrite E', list_lookup_total_insert_eq by nia. apply Hkey in E' as [-> ->]; [|done..]. by rewrite !Nat.eqb_refl.
    + rewrite list_lookup_total_insert_ne by done. destruct (Nat.eqb_spec a i), (Nat.eqb_spec b j), (Nat.eqb_spec a j), (Nat.eqb_spec b i); cbn; try done; subst; by destruct E || by destruct E'.
Qed.

Lemma set_edge_matrix n C es g e : matrix_of n C (edge_cost n es) g → snd e ≤ C →
  ∃ g', graph_set_edge g (fst (fst e)) (snd (fst e)) (snd e) = Ret g' ∧ matrix_of n C (edge_cost n (es ++ [e])) g'.
Proof.
  intros [Hn Hl Hc Hr H1 H2] HC. destruct e as [[from to] c]. cbn [fst snd] in *. unfold graph_set_edge, is_node. rewrite Hn. fold (is_id n from) (is_id n to).
  assert (∀ i j, edge_cost n (es ++ [(from, to, c)]) i j = if sets n i j (from, to, c) then c else edge_cost n es i j) as Hsnoc by (intros; unfold edge_cost; by rewrite foldl_app).
  assert (∀ b : bool, is_id n from && is_id n to && ((0 <=? c) || (c =? -1)) = b → b = false → matrix_of n C (edge_cost n (es ++ [(from, to, c)])) g) as Hskip.
  { intros b Hb ->. split; try done. intros i j Hi Hj. rewrite Hsnoc, Hc by done. unfold sets. cbn [fst snd]. by rewrite Hb. }
  destruct (is_id n from) eqn:Ef; cbn [negb]; [|exists g; split; [done|]; by eapply Hskip].
  destruct (is_id n to) eqn:Et; cbn [negb]; [|exists g; split; [done|]; by eapply Hskip]. unfold COST_UNREACHABLE.
  destruct ((0 <=? c) || (c =? -1)) eqn:Ec; cbn [negb]; [|exists g; split; [done|]; by eapply Hskip].
  destruct (is_id_range _ _ Ef) as (a & Ha & ->), (is_id_range _ _ Et) as (b & Hb & ->). rewrite !Nat2Z.id.
  rewrite !wr_total by (rewrite ?length_insert; nia). cbn [mbind outcome_bind]. rewrite !wr_total by (rewrite ?length_insert; nia). cbn [mbind outcome_bind].
  eexists. split; [done|]. split; cbn [node_num cost_matrix cost_lowest flag_lowest]; [done|by rewrite !length_insert| | |done|done].
  - intros i j Hi Hj. unfold cost. rewrite set_both by done. rewrite Hsnoc. unfold sets. cbn [fst snd]. rewrite Ef, Et, Ec, !Nat2Z.id. cbn [andb].
    change (cost_matrix g !!! (i * n + j)%nat) with (cost n (cost_matrix g) i j). by rewrite Hc.
  - assert (-1 ≤ c ≤ C) by (apply orb_true_iff in Ec as [?%Z.leb_le|?%Z.eqb_eq]; lia). by repeat apply Forall_insert.
Qed.
Lemma set_edges_matrix n C es : ∀ es0 g, matrix_of n C (edge_cost n es0) g → Forall (λ e, snd e ≤ C) es →
  ∃ g', set_edges es g = Ret g' ∧ matrix_of n C (edge_cost n (es0 ++ es)) g'.
Proof.
  unfold set_edges. induction es as [|e es IH]; intros es0 g Hg HC; [exists g; by rewrite app_nil_r|]. apply Forall_cons in HC as [He HC].
  destruct (set_edge_matrix n C es0 g e Hg He) as (g1 & E1 & Hg1). destruct (IH _ g1 Hg1 HC) as (g2 & E2 & Hg2).
  exists g2. rewrite <- app_assoc in Hg2. split; [|done]. cbn [foldl]. cbn [mbind outcome_bind]. by rewrite E1.
Qed.

(** The time to spread a message.  Build a graph of 1 to 100 nodes by any calls of
    graph_set_edge, of which those with a node that is not there or a negative cost do
    nothing, and let the number of nodes times the greatest cost fit an int.  Then nothing is
    read or written outside the arrays, no addition overflows, and graph_spread_message from a node is -1
    if some node has no way to it, and otherwise the greatest of the least costs of the ways
    from the nodes to it, where an edge costs what the last call for it in either
    direction said.  From anything that is no node it is -1 too. *)
Theorem spread_time num es C entry : 1 ≤ num ≤ 100 → 0 ≤ C → num * C < 2 ^ 31 → Forall (λ e, snd e ≤ C) es →
  let n := Z.to_nat num in let w := edge_cost n es in
  ∃ g g1 g2 r, graph_create num = Some g ∧ set_edges es g = Ret g1 ∧ graph_spread_message g1 entry = Ret (r, g2) ∧
    (¬ 0 ≤ entry < num → r = -1) ∧
    (0 ≤ entry < num →
      (r = -1 ∧ ∃ i, (i < n)%nat ∧ ∀ d, ¬ path n w (Z.to_nat entry) i d) ∨
      (0 ≤ r ∧ (∀ i, (i < n)%nat → ∃ d, least n w (Z.to_nat entry) i d ∧ d ≤ r) ∧ ∃ i, (i < n)%nat ∧ least n w (Z.to_nat entry) i r)).
Proof.
  intros Hnum HC Hmax Hes n w. destruct (create_matrix num C Hnum HC) as (g & Eg & Hg). destruct (set_edges_matrix n C es [] g Hg Hes) as (g1 & E1 & [Hn Hl Hc Hr H1 H2]).
  cbn [app] in Hc. fold w in Hc. destruct g1 as [n1 m cl fl]. cbn [node_num cost_matrix cost_lowest flag_lowest] in *. subst n1.
  destruct (decide (0 ≤ entry < num)) as [He|He].
  - destruct (spread_spec n m (Z.to_nat entry) C Hl ltac:(lia) Hr HC ltac:(lia) cl fl H1 H2) as (r & g2 & E2 & Hres). rewrite Z2Nat.id in E2 by lia.
    exists g, (MkGraph n m cl fl), g2, r. split; [done|]. split; [done|]. split; [done|]. split; [done|]. intros _.
    assert (∀ i k, (i < n)%nat → (k < n)%nat → w i k = cost n m i k) as Hc' by (intros; symmetry; auto).
    destruct Hres as [(-> & i & Hi & Hno)|(Hr0 & Hall & i & Hi & Hleast)]; [left|right].
    + split; [done|]. exists i. split; [done|]. intros d Hd. apply (Hno d). by eapply path_ext.
    + split; [done|]. split; [|exists i; split; [done|by eapply least_ext]]. intros k Hk. destruct (Hall k Hk) as (d & Hd & ?). exists d. split; [by eapply least_ext|done].
  - exists g, (MkGraph n m cl fl), (MkGraph n m cl fl), (-1). split; [done|]. split; [done|]. split; [|by split].
    unfold graph_spread_message, is_node. cbn [node_num]. replace ((0 <=? entry) && (entry <? Z.of_nat n)) with false; [done|].
    symmetry. apply andb_false_iff. rewrite Z.leb_gt, Z.ltb_ge. lia.
Qed.

Lemma spread_time_witness : ∃ g g1 g2, graph_create 5 = Some g ∧ set_edges unittest_edges g = Ret g1 ∧ graph_spread_message g1 0 = Ret (35, g2) ∧
  ∃ i, (i < 5)%nat ∧ least 5 (edge_cost 5 unittest_edges) 0 i 35.
Proof.
  destruct (spread_time 5 unittest_edges 100 0) as (g & g1 & g2 & r & E & E1 & E2 & _ & H); [lia|lia|lia|repeat constructor; cbn; lia|].
  exists g, g1, g2. assert (match g0 ← match graph_create 5 with Some g => set_edges unittest_edges g | None => Undef end; graph_spread_message g0 0 with Ret (r, _) => r | _ => -2 end = 35) as Hr by (vm_compute; reflexivity).
  rewrite E, E1 in Hr. cbn [mbind outcome_bind] in Hr. rewrite E2 in Hr. subst r. split; [exact E|]. split; [exact E1|]. split; [exact E2|].
  destruct (H ltac:(lia)) as [[? _]|(_ & _ & i & Hi & Hl)]; [lia|]. exists i. split; [exact Hi|exact Hl].
Defined.
