(* ===== verification/Sorting.v ===== *)
(** * Sorting: src/tests/graph/sort.cpp, bubble.cpp and InsertOrder.cpp

    The three sorts that are written out, on arrays of int.  InsertOrder.cpp has the bubble
    sort of bubble.cpp under the name of insert_sort. *)

From S2P Require Import Prelude.
From stdpp Require Import sorting.
Open Scope Z_scope.

(** ** The code *)

Definition swap (i j : nat) (ary : list Z) : outcome (list Z) :=
  value ← rd ary i; b ← rd ary j; ary ← wr i b ary; wr j value ary.

Definition bubble_turn (j : nat) (ary : list Z) : outcome (list Z) :=
  a ← rd ary j; b ← rd ary (j + 1);
  if a <? b then swap j (j + 1) ary else Ret ary.
(** [len - 1] is 2^64 - 1 for an empty array: then the loop runs past the end of any. *)
Definition bubble_sort (ary : list Z) (len : nat) : outcome (list Z) :=
  match len with
  | O => Undef
  | S last => for_ 0 last (λ i, for_ 0 (last - i) bubble_turn) ary
  end.

Fixpoint sink (curr_i : nat) (ary : list Z) : outcome (list Z) :=
  match curr_i with
  | O => Ret ary
  | S prev_i =>
      a ← rd ary curr_i; b ← rd ary prev_i;
      ary ← (if b <? a then swap curr_i prev_i ary else Ret ary);
      sink prev_i ary
  end.
Definition insert_sort (ary : list Z) (len : nat) : outcome (list Z) := for_ 1 (len - 1) sink ary.

Definition larger (ary : list Z) (j max_i : nat) : outcome nat :=
  a ← rd ary j; b ← rd ary max_i; Ret (if b <? a then j else max_i).
Definition selection_turn (len i : nat) (ary : list Z) : outcome (list Z) :=
  max_i ← for_ (i + 1) (len - (i + 1)) (larger ary) i; swap i max_i ary.
Definition selection_sort (ary : list Z) (len : nat) : outcome (list Z) := for_ 0 len (selection_turn len) ary.

(** Only one of the orders that op_4 tells apart returns something. *)
Definition op_4 (ary : list Z) : outcome (Z * Z * Z * Z) :=
  match ary with
  | [x; y; z; t] =>
      let '(a, b) := if y <=? x then (x, y) else (y, x) in
      let '(c, d) := if t <=? z then (z, t) else (t, z) in
      if c <=? a then Undef else if d <=? a then Undef else Ret (c, d, a, b)
  | _ => Aborted
  end.

Definition demo_ary : list Z := [61; 17; 29; 22; 34; 60; 72; 21; 50; 1; 62].
Example sorts_ex : bubble_sort demo_ary 11 = Ret [72; 62; 61; 60; 50; 34; 29; 22; 21; 17; 1]. Proof. reflexivity. Qed.

(** ** Exchanges *)

Definition exchanged (i j : nat) (l : list Z) : list Z := <[j := l !!! i]> (<[i := l !!! j]> l).

Lemma swap_ret i j l : (i < length l)%nat → (j < length l)%nat → swap i j l = Ret (exchanged i j l).
Proof.
  intros Hi Hj. unfold swap. rewrite !rd_total by done. cbn [mbind outcome_bind]. rewrite wr_total by done. cbn [mbind outcome_bind].
  by rewrite wr_total by by rewrite length_insert.
Qed.
Lemma length_exchanged i j l : length (exchanged i j l) = length l.
Proof. unfold exchanged. by rewrite !length_insert. Qed.
Lemma exchanged_lookup i j l k : (i < length l)%nat → (j < length l)%nat →
  exchanged i j l !!! k = if decide (k = j) then l !!! i else if decide (k = i) then l !!! j else l !!! k.
Proof.
  intros Hi Hj. unfold exchanged. destruct (decide (k = j)) as [-> |H1]; [by rewrite list_lookup_total_insert_eq by by rewrite length_insert|].
  rewrite list_lookup_total_insert_ne by done. destruct (decide (k = i)) as [-> |H2]; [by rewrite list_lookup_total_insert_eq|].
  by rewrite list_lookup_total_insert_ne.
Qed.
Lemma exchanged_perm_lt i j l : (i < j)%nat → (j < length l)%nat → exchanged i j l ≡ₚ l.
Proof.
  intros Hij Hj. pose proof (list_lookup_lookup_total_lt l i ltac:(lia)) as Ei. pose proof (list_lookup_lookup_total_lt l j Hj) as Ej. unfold exchanged.
  set (a := l !!! i) in *. set (b := l !!! j) in *. clearbody a b. apply list_elem_of_split_length in Ei as (l1 & l2 & -> & ->).
  rewrite lookup_app_r in Ej by lia. destruct (j - length l1)%nat as [|k] eqn:Ek; [lia|]. cbn in Ej.
  apply list_elem_of_split_length in Ej as (l3 & l4 & -> & ->). replace j with (length (l1 ++ b :: l3))%nat by list_len.
  rewrite insert_app_r_alt, Nat.sub_diag by lia. cbn [insert list_insert].
  replace (l1 ++ b :: l3 ++ b :: l4) with ((l1 ++ b :: l3) ++ b :: l4) by by list_norm. rewrite insert_app_r_alt, Nat.sub_diag by lia. cbn [insert list_insert].
  rewrite <- app_assoc. cbn [app]. apply Permutation_app_head. rewrite <- !Permutation_middle. constructor.
Qed.
Lemma exchanged_perm i j l : (i < length l)%nat → (j < length l)%nat → exchanged i j l ≡ₚ l.
Proof.
  intros Hi Hj. destruct (Nat.lt_trichotomy i j) as [?|[-> |?]]; [by apply exchanged_perm_lt| |].
  - unfold exchanged. rewrite list_insert_insert_eq, list_insert_id; [done|]. by apply list_lookup_lookup_total_lt.
  - rewrite <- (exchanged_perm_lt j i l) at 2 by done. unfold exchanged. by rewrite list_insert_insert_ne by lia.
Qed.

(** ** The sorts *)

(** From position [s] on nothing is greater than what is before it. *)
Definition settled (s : nat) (l : list Z) : Prop := ∀ p q, (p < q < length l)%nat → (s ≤ q)%nat → l !!! q ≤ l !!! p.
Definition shuffled (ary l : list Z) : Prop := l ≡ₚ ary ∧ length l = length ary.

Lemma shuffled_exchange ary l i j : shuffled ary l → (i < length ary)%nat → (j < length ary)%nat → shuffled ary (exchanged i j l).
Proof. intros [Hp Hl] Hi Hj. split; [rewrite exchanged_perm by lia; done|by rewrite length_exchanged]. Qed.

Lemma bubble_turn_spec ary last i l j : length ary = S last → shuffled ary l → settled (S (last - i)) l → (j < last - i)%nat →
  (∀ p, (p ≤ j)%nat → l !!! j ≤ l !!! p) →
  ∃ l', bubble_turn j l = Ret l' ∧ shuffled ary l' ∧ settled (S (last - i)) l' ∧ (∀ p, (p ≤ S j)%nat → l' !!! S j ≤ l' !!! p).
Proof.
  intros Hlen Hl Hs Hj Hmin. destruct (Hl) as [_ Hll]. unfold bubble_turn. rewrite !rd_total by lia. cbn [mbind outcome_bind]. rewrite Nat.add_1_r.
  destruct (Z.ltb_spec (l !!! j) (l !!! S j)) as [Hlt|Hge].
  - rewrite swap_ret by lia. eexists. split; [done|]. split; [apply shuffled_exchange; [done|lia..]|].
    assert (∀ k, exchanged j (S j) l !!! k = if decide (k = S j) then l !!! j else if decide (k = j) then l !!! S j else l !!! k) as Hx by (intros k; apply exchanged_lookup; lia).
    split.
    + intros p q Hpq Hq. rewrite length_exchanged in Hpq. rewrite !Hx. rewrite (decide_False (P := q = S j)), (decide_False (P := q = j)) by lia.
      destruct (decide (p = S j)) as [-> |]; [apply Hs; lia|]. destruct (decide (p = j)) as [-> |]; apply Hs; lia.
    + intros p Hp. rewrite !Hx, decide_True by done. destruct (decide (p = S j)) as [|]; [lia|]. destruct (decide (p = j)) as [-> |]; [lia|]. apply Hmin. lia.
  - exists l. split; [done|]. split; [done|]. split; [done|]. intros p Hp. destruct (decide (p = S j)) as [-> |]; [lia|]. specialize (Hmin p ltac:(lia)). lia.
Qed.
Lemma bubble_sort_spec ary : ary ≠ [] → ∃ l, bubble_sort ary (length ary) = Ret l ∧ shuffled ary l ∧ settled 0 l.
Proof.
  intros Hne. unfold bubble_sort. destruct (length ary) as [|last] eqn:Hlen; [by destruct ary|].
  destruct (for_inv (λ i l, shuffled ary l ∧ settled (S (last - i)) l) 0 last (λ i, for_ 0 (last - i) bubble_turn) ary) as (l & E & Hl & Hs).
  - split; [done|]. intros p q Hpq Hq. lia.
  - intros i l Hi [Hl Hs].
    destruct (for_inv (λ j l, shuffled ary l ∧ settled (S (last - i)) l ∧ ∀ p, (p ≤ j)%nat → l !!! j ≤ l !!! p) 0 (last - i) bubble_turn l) as (l' & E & Hl' & Hs' & Hmin).
    + split; [done|]. split; [done|]. intros p Hp. by replace p with 0%nat by lia.
    + intros j l' Hj (Hl' & Hs' & Hmin). apply (bubble_turn_spec ary); [done..|lia|done].
    + exists l'. split; [done|]. split; [done|]. intros p q Hpq Hq. cbn [Nat.add] in *. destruct (decide (q = last - i)%nat) as [-> |]; [apply Hmin; lia|apply Hs'; lia].
  - exists l. split; [done|]. split; [done|]. intros p q Hpq _. apply Hs; [done|]. cbn in *. lia.
Qed.

Lemma sink_spec ary i : ∀ curr l, (curr ≤ i < length ary)%nat → shuffled ary l → (∀ p q, (p < q ≤ i)%nat → q ≠ curr → l !!! q ≤ l !!! p) →
  ∃ l', sink curr l = Ret l' ∧ shuffled ary l' ∧ ∀ p q, (p < q ≤ i)%nat → l' !!! q ≤ l' !!! p.
Proof.
  induction curr as [|prev IH]; intros l Hc Hl Hs; [exists l; split; [done|]; split; [done|]; intros p q Hpq; apply Hs; lia|].
  cbn [sink]. destruct (Hl) as [_ Hll]. rewrite !rd_total by lia. cbn [mbind outcome_bind].
  destruct (Z.ltb_spec (l !!! prev) (l !!! S prev)) as [Hlt|Hge].
  - rewrite swap_ret by lia. cbn [mbind outcome_bind]. apply IH; [lia|by apply shuffled_exchange; [|lia..]|].
    assert (∀ k, exchanged (S prev) prev l !!! k = if decide (k = prev) then l !!! S prev else if decide (k = S prev) then l !!! prev else l !!! k) as Hx by (intros k; apply exchanged_lookup; lia).
    intros p q Hpq Hq. rewrite !Hx. rewrite (decide_False (P := q = prev)) by done. destruct (decide (q = S prev)) as [-> |Hq2].
    + destruct (decide (p = prev)) as [-> |]; [lia|]. rewrite decide_False by lia. apply Hs; lia.
    + destruct (decide (p = prev)) as [-> |]; [apply Hs; lia|]. destruct (decide (p = S prev)) as [-> |]; apply Hs; lia.
  - apply IH; [lia|done|]. intros p q Hpq Hq. destruct (decide (q = S prev)) as [-> |]; [|by apply Hs].
    destruct (decide (p = prev)) as [-> |]; [done|]. pose proof (Hs p prev ltac:(lia) ltac:(lia)). lia.
Qed.
Lemma insert_sort_spec ary : ∃ l, insert_sort ary (length ary) = Ret l ∧ shuffled ary l ∧ settled 0 l.
Proof.
  unfold insert_sort. destruct (for_inv (λ i l, shuffled ary l ∧ ∀ p q, (p < q < i)%nat → l !!! q ≤ l !!! p) 1 (length ary - 1) sink ary) as (l & E & Hl & Hs).
  - split; [done|]. intros p q Hpq. lia.
  - intros i l Hi [Hl Hs]. destruct (sink_spec ary i i l) as (l' & E & Hl' & Hs'); [lia|done|intros p q Hpq Hq; apply Hs; lia|].
    exists l'. split; [done|]. split; [done|]. intros p q Hpq. apply Hs'. lia.
  - exists l. split; [done|]. split; [done|]. intros p q Hpq _. destruct Hl as [_ Hll]. apply Hs. lia.
Qed.

Lemma larger_spec l i len : length l = len → (i < len)%nat →
  ∃ m, for_ (i + 1) (len - (i + 1)) (larger l) i = Ret m ∧ (i ≤ m < len)%nat ∧ ∀ j, (i ≤ j < len)%nat → l !!! j ≤ l !!! m.
Proof.
  intros Hl Hi. destruct (for_inv (λ k m, (i ≤ m < k)%nat ∧ (m < len)%nat ∧ ∀ j, (i ≤ j < k)%nat → l !!! j ≤ l !!! m) (i + 1) (len - (i + 1)) (larger l) i) as (m & E & Hm & Hm2 & Hall).
  - split; [lia|]. split; [lia|]. intros j Hj. by replace j with i by lia.
  - intros k m Hk (Hm & Hm2 & Hall). unfold larger. rewrite !rd_total by lia. cbn [mbind outcome_bind]. eexists. split; [done|].
    destruct (Z.ltb_spec (l !!! m) (l !!! k)); (split; [lia|]; split; [lia|]; intros j Hj; destruct (decide (j = k)) as [-> |]; [lia|specialize (Hall j ltac:(lia)); lia]).
  - exists m. split; [done|]. split; [lia|]. intros j Hj. apply Hall. lia.
Qed.
Lemma selection_sort_spec ary : ∃ l, selection_sort ary (length ary) = Ret l ∧ shuffled ary l ∧ settled 0 l.
Proof.
  unfold selection_sort.
  destruct (for_inv (λ i l, shuffled ary l ∧ ∀ p q, (p < q < length ary)%nat → (p < i)%nat → l !!! q ≤ l !!! p) 0 (length ary) (selection_turn (length ary)) ary) as (l & E & Hl & Hs).
  - split; [done|]. intros p q Hpq Hp. lia.
  - intros i l Hi [Hl Hs]. destruct (Hl) as [_ Hll]. unfold selection_turn. destruct (larger_spec l i (length ary) Hll ltac:(lia)) as (m & -> & Hm & Hall).
    cbn [mbind outcome_bind]. rewrite swap_ret by lia. eexists. split; [done|]. split; [by apply shuffled_exchange; [|lia..]|].
    assert (∀ k, exchanged i m l !!! k = if decide (k = m) then l !!! i else if decide (k = i) then l !!! m else l !!! k) as Hx by (intros k; apply exchanged_lookup; lia).
    intros p q Hpq Hp. rewrite !Hx. destruct (decide (p = i)) as [-> |Hpi].
    + assert ((if decide (i = m) then l !!! i else l !!! m) = l !!! m) as -> by (by destruct (decide (i = m)) as [<-|]).
      destruct (decide (q = m)); [apply Hall; lia|]. rewrite decide_False by lia. apply Hall. lia.
    + rewrite (decide_False (P := p = m)) by lia. destruct (decide (q = m)); [apply Hs; lia|]. destruct (decide (q = i)); apply Hs; lia.
  - exists l. split; [done|]. split; [done|]. intros p q Hpq _. destruct Hl as [_ Hll]. apply Hs; lia.
Qed.

Lemma settled_sorted l : settled 0 l → StronglySorted Z.ge l.
Proof.
  induction l as [|x l IH]; intros Hs; [constructor|]. constructor.
  - apply IH. intros p q Hpq _. apply (Hs (S p) (S q)); cbn; lia.
  - apply Forall_lookup. intros i y Hi. pose proof (lookup_lt_Some _ _ _ Hi). apply list_lookup_total_correct in Hi. subst y.
    pose proof (Hs 0%nat (S i) ltac:(cbn; lia) ltac:(lia)) as Hle. change (l !!! i ≤ x) in Hle. unfold Z.ge. by apply Z.le_ge in Hle.
Qed.
#[local] Instance ge_total : Total Z.ge.
Proof. intros x y. lia. Qed.
#[local] Instance ge_trans : Transitive Z.ge.
Proof. intros x y z. lia. Qed.
#[local] Instance ge_antisymm : AntiSymm (=) Z.ge.
Proof. intros x y. lia. Qed.
#[local] Instance ge_dec : RelDecision Z.ge.
Proof. intros x y. destruct (decide (y ≤ x)); [left; lia|right; lia]. Defined.

Lemma sorted_reference ary l : shuffled ary l → settled 0 l → l = merge_sort Z.ge ary.
Proof.
  intros [Hp _] Hs. apply (StronglySorted_unique Z.ge); [by apply settled_sorted|apply StronglySorted_merge_sort; apply _|].
  by rewrite merge_sort_Permutation.
Qed.

(** The sorts sort.  On every array the insertion sort and the selection sort, and on every array but
    the empty one the bubble sort, stay within the array and return what merge sort
    returns: the same numbers in descending order, so all three return the same.  The
    bubble sort of an empty array runs past its end. *)
Theorem sorts_sort ary : let sorted := merge_sort Z.ge ary in
  (sorted ≡ₚ ary ∧ StronglySorted Z.ge sorted) ∧
  insert_sort ary (length ary) = Ret sorted ∧ selection_sort ary (length ary) = Ret sorted ∧
  (ary ≠ [] → bubble_sort ary (length ary) = Ret sorted) ∧ (ary = [] → bubble_sort ary (length ary) = Undef).
Proof.
  intros sorted. split; [split; [apply merge_sort_Permutation|by apply StronglySorted_merge_sort; apply _]|].
  destruct (insert_sort_spec ary) as (l1 & -> & H1 & S1). destruct (selection_sort_spec ary) as (l2 & -> & H2 & S2).
  split; [f_equal; by apply sorted_reference|]. split; [f_equal; by apply sorted_reference|]. split; [|by intros ->].
  intros Hne. destruct (bubble_sort_spec ary Hne) as (l3 & -> & H3 & S3). f_equal. by apply sorted_reference.
Qed.
